(* ===== verification/_CoqProject ===== *)
-Q . S2P
Prelude.v
Time.v
Quorum.v
Contracts.v
CaseState.v
Replay.v
Budget.v
Journal.v
MemoryJournal.v
Crc.v
LogJournal.v
LogRecovery.v
LogSafety.v
LogLives.v
Queue.v
Crypto.v
Codec.v
WireDemo.v
Hand.v
Radio.v
Float.v
Channel.v
Rng.v
Phy.v
Medium.v
SimScenario.v
SimLedger.v
SimQuorum.v
SimSlots.v
SimRounds.v
SimProtocol.v
SimDeliberation.v
SimEndorse.v
Manifest.v
ManifestFields.v
ManifestProofs.v
ManifestSign.v
Args.v
RNode.v
Hub.v
HubRelay.v
HubChannel.v
HubVerdicts.v
Chip.v
ChipProofs.v
Driver.v
DriverProofs.v
Bridge.v
BridgeProofs.v
Firmware.v
FirmwareProofs.v
FirmwareBench.v
FirmwareLink.v
Board.v
Station.v
Preflight.v
PreflightProofs.v
NodeRadio.v
NodeConfig.v
ManifestTool.v
ManifestToolProofs.v
Messages.v
NodeSchedule.v
NodeState.v
NodeFrames.v
NodeLoop.v
NodeSteps.v
NodeProofs.v
NodeDemo.v
NodeMain.v
NodeAir.v
NodeVotes.v
NodeEpoch.v
NodeTiming.v
NodeWitness.v
