(* ===== verification/Prelude.v ===== *)
(** * LCQ: a quorum of vessels over a slow radio, verified

    LCQ is a Rust program with which a small fleet decides, over LoRa, whether a
    claim is endorsed: a fixed manifest names the members and their competence, each
    member gives opinions and then one binding vote on a claim, and the claim is
    approved once enough members carrying enough competence have signed.  This
    library models the program's own logic, translated from the sources under
    src/src/, and proves what makes it correct.

    ** Parts, and the files that model them

    Domain (no I/O, the rules themselves)
    - [Time]: timestamps and uncertain clocks (domain/time/mod.rs, and the clock a
      scaled node runs on, infrastructure/clock.rs).
    - [Contracts]: subjects, stages, verdicts, opinions (domain/contracts/mod.rs).
    - [Quorum]: the policy and its two thresholds (domain/quorum/).
    - [CaseState]: the stage machine of one claim (domain/state/mod.rs).
    Application (what a node does, and the interfaces it needs)
    - [Replay], [Budget], [Queue]: the replay window, the duty-cycle meter and the
      outgoing queue (application/replay.rs, budget.rs, queue.rs).
    - [Journal]: the interface of the safety journal as a class with its laws
      (application/journal.rs) and the key of a vote lock (infrastructure/lock_key.rs).
    - [Radio]: the interface of a radio and the physical profile (application/radio.rs).
    - [Manifest], [ManifestFields], [ManifestProofs], [ManifestSign]: the manifest's
      parser, canonical form, verification and signing (application/manifest.rs).
    Infrastructure (implementations of those interfaces)
    - [MemoryJournal]: the journal a simulation uses (infrastructure/memory.rs).
    - [Crc], [LogJournal], [LogRecovery], [LogSafety], [LogLives]: the journal on disk
      (infrastructure/crc.rs, infrastructure/log.rs).
    - [RNode]: a modem behind a serial port (infrastructure/rnode.rs).
    - [Chip], [ChipProofs]: the virtual SX1262, command by command, with its timers,
      interrupts and ring buffer (infrastructure/sx126x/chip.rs).
    - [Driver], [DriverProofs]: the thread that drives such a chip, on whichever bus
      (infrastructure/sx126x/radio.rs).
    - [Bridge], [BridgeProofs]: the cable to a chip behind a microcontroller -- its
      protocol, the device's end, the host's end -- and the virtual bus it stands for
      (infrastructure/sx126x/bridge.rs, bus.rs).
    - [Board]: the bus of a board on the machine itself, from opening its devices to its
      interrupts (infrastructure/sx126x/linux.rs, hardware.rs).
    - [Station]: the virtual radio put together, chip, socket and threads
      ([Sx126xRadio::start] in infrastructure/sx126x/radio.rs).
    - [Firmware], [FirmwareProofs]: the sketch on the microcontroller at the other end of
      the cable (src/firmware/bridge/); [FirmwareBench]: it on the virtual chip, against
      the reference device; [FirmwareLink]: the host, the cable and the board together.
    - [Preflight], [PreflightProofs]: the pre-flight over that cable, the radio opened on
      it and the tool that runs both (infrastructure/sx126x/bridge.rs, bin/lcq-bridge.rs).
    - [Hub]: the channel emulator's socket and the radio on it (infrastructure/hub.rs,
      infrastructure/hub_radio.rs, and the reading loop of bin/lcq-hub.rs).
    The channel emulator (bin/lcq-hub.rs)
    - [HubRelay]: the relay, turn by turn: which frames meet, who hears what of them.
    - [HubChannel], [HubVerdicts]: what the relay guarantees of a whole run.
    Wire (what travels)
    - [Crypto]: signatures and sealing (wire/crypto.rs).
    - [Codec], [WireDemo]: envelopes, transcripts, compact frames (wire/codec.rs,
      wire/compact.rs), and a concrete instance of the parameters they take.
    - [Hand]: keys written for people (wire/hand.rs).
    Simulator
    - [Float]: binary64, on the Standard Library's [spec_float].
    - [Channel], [Rng], [Phy], [Medium]: topologies and airtime, the generator, the
      propagation model, and what survives when transmissions overlap (sim/channel.rs,
      rng.rs, phy.rs, medium.rs).
    - [SimScenario]: one execution of a fleet over the medium, with its rounds, slots and
      retries (sim/scenario.rs); [SimLedger], [SimQuorum], [SimSlots], [SimRounds]: its
      accounts, its votes, its slots and its rounds.
    - [SimProtocol]: the whole deliberation, three stages of it (sim/protocol.rs);
      [SimDeliberation], [SimEndorse]: what it counts, and that an honest fleet in reach
      of each other endorses.
    The tools
    - [Args]: a process's arguments, shared by the binaries.
    - [ManifestTool], [ManifestToolProofs]: the administrator's tool (bin/lcq-manifest.rs).
    - [Messages]: what the errors of every part say, and what that tool prints of them.
    The node (bin/lcq-node.rs), which puts all of the above together
    - [NodeConfig]: the fleet, the options, the schedule's arithmetic, provisioning;
      [NodeRadio]: the radio option and what is opened for it.
    - [NodeSchedule]: that schedule's theorems.
    - [NodeState]: the main loop's variables as one record, and the monad its steps are
      written in: a state, and the three ways a turn is left early.
    - [NodeFrames]: building, sending, receiving and admitting frames.
    - [NodeLoop]: the loop, turn by turn, with repair, relaying and the adversaries.
    - [NodeSteps]: the loop as a step relation, [act], with one constructor per kind of
      change it makes; every program of the loop is shown to be a sequence of acts, so
      that an invariant of a run is an induction over eighteen cases.
    - [NodeProofs], [NodeAir], [NodeVotes], [NodeEpoch], [NodeTiming]: what a run
      guarantees.  [NodeMain]: [main] itself, and what its parts guarantee together.
    - [NodeDemo], [NodeWitness]: a small fleet one can run, and the theorems applied to
      its runs.

    ** How the model corresponds to the code

    A struct is a Record, an enum an Inductive, a method a Definition of the same
    name inside a Module named after its type, taking the state and returning the
    new state with the answer.  A trait with several implementations is a Class with
    an Instance per implementation ([Clock], [Journal], [Radio]); the journal's laws
    are a second class, [JournalLaws], and theorems about a journal's client are
    proved from the laws alone.  [Result] is [result] below, [Option] is [option].
    Integers are [Z] at their width: saturating, wrapping and truncating arithmetic
    is written out where the code has it, and the well-formedness predicates
    ([is_u8] ... [is_u64]) state the ranges.  Bytes are lists of [Z]; a Rust string
    is the list of its scalar values, and [as_bytes] is its UTF-8.  A BTreeMap or a
    BTreeSet is a [gmap] or a [gset], iterated in key order through [entries] and
    [members_of].  The journal's disk is explicit: the bytes of the file, and a script
    of which writes fail, and how far each got.

    Loops without a structural measure take fuel, and the fuel is always enough:
    [replay] passes the length of the file (each record consumes at least eight
    bytes), the socket's loops the length of the stream (each round consumes four),
    [decimal] the twenty digits of a u64.  The theorems about them state the result,
    not a result if there is one.  The node's loop is bounded by [turns], and
    [run_in_a_round_ends] gives the number of turns that is enough; its reader of
    radio events by [fuel], shown there to lose nothing once it exceeds the events
    waiting.

    ** Parameters

    Code that is not under src/ is a parameter with the laws its documentation
    states: BLAKE2s ([Digest]: 32 bytes; what needs collision resistance concludes
    or a collision), Ed25519 ([Ed25519Laws]: an honest signature verifies),
    ChaCha20-Poly1305 ([AeadLaws]: what was sealed opens to itself), and postcard
    ([PostcardLaws], [SerdeLaws]: round trips).  The logarithm and the circular
    functions of libm are parameters of the propagation model ([Libm]).  What a node
    reads of the world is a [Host]: what the k-th call of the wall clock returns, and
    the k-th random number; a theorem that needs time to pass says so.  The relay's
    [HubRelay.Host] is the clock and the map of connections its other threads fill, read
    at every step.  The lora-phy crate the driver thread calls is [LoraPhy], one operation
    per call with every error it may answer, and its airtime formula [LoraModulation].
    The tools' file system and clock are functions of a path and of nothing.  A board's
    kernel is [Board.Kernel], what the lines read and the transfers return; the firmware's
    pins, clock and SPI host are [Firmware.Wires], with the laws [FirmwareProofs.Lawful]
    (a line does not rise without an edge, a delay lasts as long as asked).
    Each is instantiated by a concrete function for the witnesses.

    ** What the theorems show

    - Two approvals under one policy share an honest member, and more than a third of
      the competence ([Quorum]); evaluation is monotone, reachable and never
      overflows; the constructor accepts exactly the lawful manifests.
    - Every run of a case is a run of a ballot box with one sealed vote per author
      ([CaseState]), consultation once closed is frozen, and the binding stage opens
      only when every honest clock is certain consultation is over.
    - The replay window is the set of admitted sequences, also across a restart.
    - No hour carries more than the legal airtime, and routine traffic never starves.
    - The journal on disk simulates the one in memory whatever the disk does; a log
      torn at any byte recovers its whole records; compaction and restart lose
      nothing; and over any number of lives, each killed anywhere, nothing is voted
      twice and no sequence number is handed out twice, as long as a process stops
      using a journal whose write was torn.  Two theorems show why that condition is
      needed: a torn write, or a compaction that fails late, makes the code lose a
      vote it answered Ok for.
    - What is signed pins every field, a compact frame survives signing, sealing,
      opening and verification, and a key survives a card.
    - A manifest that parses is a lawful fleet with one spelling, and the signing
      tool's output parses and verifies.
    - Framing on the serial port and on the socket is lossless however the stream is
      cut; a driver cannot tell the bridge's cable from the virtual bus; the virtual
      chip completes each command once and sends what was written to it.
    - The firmware of the bridge's board answers as the reference device does, byte for
      byte, on the same chip, and a driver cannot tell the whole of the bridge -- adapter,
      cable, firmware, chip -- from the virtual bus ([FirmwareBench], [FirmwareLink]); its
      buffers hold whatever a host sends, no rise of DIO1 is lost between the latch and
      the line, and its wait for BUSY keeps to its limit ([FirmwareProofs]).
    - A board on the machine clocks the virtual bus's transactions and waits on its lines
      ([Board]); a frame crosses two virtual radios and the emulator between them, and
      the emulator reads what the chip sent and nothing else ([Station]).
    - A refusal of a manifest names the line it is about, and what the node logs of a
      refusal stays one JSON object ([Messages]).
    - Airtime, computed in floating point, is the data sheet's formula at every
      spreading factor and payload.
    - The driver thread attempts each frame it is given once and in order, hands up
      exactly what the chip received whole, and whenever it waits it is receiving as its
      profile asks -- a timed receive ends with the frame it hears -- or has said why not
      ([DriverProofs]).  A pre-flight that passes is evidence, step by step,
      that the device said so, and the reference device passes from any state
      ([PreflightProofs]).  The key file, the card and the signed text are all that an
      administrator and a vessel need to share ([ManifestToolProofs]).
    - The channel emulator judges each frame once, at its end, against every frame it
      met on the air; nobody hears what was not said, across a partition or to itself;
      and what each receiver is told is the medium's verdict at its own antenna
      ([HubChannel], [HubVerdicts]).
    - In the simulator no quorum is made of forged votes, a report counts exactly its
      timeline, slots never collide and rounds are laid end to end ([SimQuorum],
      [SimLedger], [SimSlots], [SimRounds]); a deliberation counts honest votes only and
      accounts for every frame, its clocks span the budget they are given, and a fleet
      in reach of each other endorses ([SimDeliberation], [SimEndorse]).
    - Of a node, whatever its radio delivers, its journal answers, its clock reads and
      whichever adversary it plays itself: an endorsement is traced to signatures of
      members of the manifest that the key on the card signs ([NodeMain]); its vote is
      one frame, through any number of restarts ([NodeVotes]), and every fellow that
      hears it counts it as the state machine would; a frame is read once, and what
      the node holds is bounded by its fleet ([NodeProofs]); its radio never takes more
      than the legal airtime ([NodeAir]); a journal is never run under an older epoch
      ([NodeEpoch]); slots never overlap and the schedule fits ([NodeSchedule]); a late
      joiner finds the fleet's anchor, honest timing is never held against anyone, and
      every run in a round ends ([NodeTiming]).
    - Where the code does not do what it means to, the theorem says what it does: a
      restart refuses for ever a vote that is only resent, and a retransmission sends
      the oldest frame of the outbox rather than the vote's ([NodeVotes]); stale timers
      revive after a reset ([ChipProofs]); a late reply answers the next transaction
      ([BridgeProofs]); one seed stops the generator ([Rng]); a timed receive is not
      renewed after the frame that ends it ([DriverProofs]); an emulator that runs late
      spares the first of two frames that met ([HubVerdicts]); the reported radio time
      can exceed the whole of which it is part ([SimDeliberation]), and a member out of
      the observer's reach can overrun its round ([SimRounds]); a key file that is not
      ASCII makes the manifest tool panic ([ManifestToolProofs]), and a misspelt option
      of a radio is ignored ([NodeRadio]); a board cuts the delays its driver asks for
      ([Board]); and the firmware complains of a request that is too long where the
      reference device is silent ([FirmwareBench]).

    ** Not modelled

    Threads, sockets and the operating system's clock are not modelled beyond the step
    functions named in each file: a thread is a function of what it reads, and what
    another thread does meanwhile is an input.  The executor
    (infrastructure/sx126x/executor.rs) polls a future that is the driver thread's own
    program here.  Of the binaries, the emulator's listener and its log, and the wording
    of the node's log lines, are not modelled.  The programs under src/examples/ run the
    simulation and print tables of it.  Accessors are record projections.  The sums of
    times of the simulator and of the node's schedule (a guard, a slot, a window), and the
    simulator's count of silent members and forgers, are exact integers where the code's
    are u64 and usize: only options near 2^64 tell the difference. *)
From Stdlib Require Export ZArith Lia.
From stdpp Require Export base tactics option list list_numbers gmap sets fin_sets numbers countable sorting.
From Stdlib Require Ascii String.
Export String.StringSyntax.
Export stdpp.list_basics.list stdpp.list_relations.list stdpp.list_monad.list stdpp.list_misc.list.

#[export] Set Default Goal Selector "!".
#[global] Open Scope Z_scope.

(** * Fallible operations: Rust's [Result] *)

Inductive result (E A : Type) : Type :=
| Ok (a : A)
| Err (e : E).
Arguments Ok {E A} a.
Arguments Err {E A} e.

#[global] Instance result_ret E : MRet (result E) := fun A a => Ok a.
#[global] Instance result_bind E : MBind (result E) :=
  fun A B f m => match m with Ok a => f a | Err e => Err e end.
#[global] Instance result_eq_dec {E A} `{EqDecision E, EqDecision A} : EqDecision (result E A).
Proof. solve_decision. Defined.

(** [ok_or] and [map_err] as the code uses them. *)
Definition ok_or {E A} (o : option A) (e : E) : result E A :=
  match o with Some a => Ok a | None => Err e end.
Definition map_err {E F A} (f : E -> F) (m : result E A) : result F A :=
  match m with Ok a => Ok a | Err e => Err (f e) end.
Definition is_ok {E A} (m : result E A) : bool :=
  match m with Ok _ => true | Err _ => false end.
(** An early return of an error when a guard holds. *)
Definition guard_err {E} (bad : bool) (e : E) : result E unit :=
  if bad then Err e else Ok tt.

Section result_lemmas.
Context {E A B : Type}.
Implicit Types (m : result E A) (f : A -> result E B).

Lemma result_bind_ok m f b :
  (m ≫= f) = Ok b <-> exists a, m = Ok a /\ f a = Ok b.
Proof. destruct m; simpl; naive_solver. Qed.
Lemma result_bind_err m f e :
  (m ≫= f) = Err e <-> m = Err e \/ exists a, m = Ok a /\ f a = Err e.
Proof. destruct m; simpl; naive_solver. Qed.
Lemma guard_err_ok (b : bool) (e : E) u : guard_err b e = Ok u <-> b = false.
Proof. destruct b, u; simpl; naive_solver. Qed.
Lemma ok_or_ok (o : option A) (e : E) a : ok_or o e = Ok a <-> o = Some a.
Proof. destruct o; simpl; naive_solver. Qed.
End result_lemmas.

(** * Machine integers

    An unsigned integer of [w] bits is a [Z] in [0, 2^w); the arithmetic the
    code calls saturating is saturating here, and wrapping arithmetic wraps. *)

Definition U8_MAX : Z := 255.
Definition U16_MAX : Z := 65535.
Definition U32_MAX : Z := 4294967295.
Definition U64_MAX : Z := 18446744073709551615.

Definition is_u8 (z : Z) : Prop := 0 <= z <= U8_MAX.
Definition is_u16 (z : Z) : Prop := 0 <= z <= U16_MAX.
Definition is_u32 (z : Z) : Prop := 0 <= z <= U32_MAX.
Definition is_u64 (z : Z) : Prop := 0 <= z <= U64_MAX.
#[global] Instance is_u8_dec z : Decision (is_u8 z).
Proof. unfold is_u8; apply _. Defined.
#[global] Instance is_u16_dec z : Decision (is_u16 z).
Proof. unfold is_u16; apply _. Defined.
#[global] Instance is_u32_dec z : Decision (is_u32 z).
Proof. unfold is_u32; apply _. Defined.
#[global] Instance is_u64_dec z : Decision (is_u64 z).
Proof. unfold is_u64; apply _. Defined.

Definition sat_add64 (a b : Z) : Z := Z.min (a + b) U64_MAX.
Definition sat_sub (a b : Z) : Z := Z.max (a - b) 0.
Definition sat_mul64 (a b : Z) : Z := Z.min (a * b) U64_MAX.
Definition wrap64 (z : Z) : Z := z mod 2 ^ 64.

(** A collection's [len()], as a [usize]. *)
Definition len {A} (l : list A) : Z := Z.of_nat (List.length l).

Ltac width := unfold is_u8, is_u16, is_u32, is_u64, U8_MAX, U16_MAX, U32_MAX, U64_MAX in *.
Ltac usize :=
  unfold len, sat_add64, sat_sub, sat_mul64 in *; width;
  rewrite ?length_app, ?length_cons, ?length_nil in *; try lia.

(** * Byte strings *)

Abbreviation bytes := (list Z) (only parsing).
Definition wf_bytes (bs : bytes) : Prop := Forall is_u8 bs.

(** [to_le_bytes] / [to_be_bytes] on [n] bytes, and the way back. *)
Fixpoint le_bytes (n : nat) (z : Z) : bytes :=
  match n with
  | O => []
  | S n => z mod 256 :: le_bytes n (z / 256)
  end.
Fixpoint of_le (bs : bytes) : Z :=
  match bs with
  | [] => 0
  | b :: bs => b + 256 * of_le bs
  end.
Definition be_bytes (n : nat) (z : Z) : bytes := reverse (le_bytes n z).
Definition of_be (bs : bytes) : Z := of_le (reverse bs).

Section byte_order.
Lemma length_le_bytes n z : length (le_bytes n z) = n.
Proof. revert z; induction n; simpl; auto. Qed.
Lemma length_be_bytes n z : length (be_bytes n z) = n.
Proof. unfold be_bytes. rewrite length_reverse. apply length_le_bytes. Qed.

Lemma wf_le_bytes n z : wf_bytes (le_bytes n z).
Proof.
  revert z; induction n as [|n IH]; intros z; constructor; [|apply IH].
  pose proof (Z.mod_pos_bound z 256 ltac:(lia)). width; lia.
Qed.
Lemma wf_be_bytes n z : wf_bytes (be_bytes n z).
Proof. apply Forall_reverse, wf_le_bytes. Qed.

Lemma of_le_le_bytes n z : 0 <= z < 256 ^ Z.of_nat n -> of_le (le_bytes n z) = z.
Proof.
  revert z; induction n as [|n IH]; intros z Hz.
  { simpl in *. lia. }
  assert (256 ^ Z.of_nat (S n) = 256 * 256 ^ Z.of_nat n) as Hpow.
  { rewrite Nat2Z.inj_succ, Z.pow_succ_r by lia. done. }
  cbn [le_bytes of_le]. rewrite IH.
  - pose proof (Z.div_mod z 256 ltac:(lia)). lia.
  - split; [apply Z.div_pos; lia|]. apply Z.div_lt_upper_bound; lia.
Qed.
Lemma of_be_be_bytes n z : 0 <= z < 256 ^ Z.of_nat n -> of_be (be_bytes n z) = z.
Proof. intros. unfold of_be, be_bytes. rewrite reverse_involutive. by apply of_le_le_bytes. Qed.

Lemma of_le_bound bs : wf_bytes bs -> 0 <= of_le bs < 256 ^ Z.of_nat (length bs).
Proof.
  induction 1 as [|b bs Hb _ IH]; [done|].
  rewrite length_cons, Nat2Z.inj_succ, Z.pow_succ_r by lia. cbn [of_le]. width; lia.
Qed.
Lemma of_be_bound bs : wf_bytes bs -> 0 <= of_be bs < 256 ^ Z.of_nat (length bs).
Proof.
  intros H. unfold of_be. rewrite <- (length_reverse bs).
  by apply of_le_bound, Forall_reverse.
Qed.

Lemma le_bytes_of_le bs : wf_bytes bs -> le_bytes (length bs) (of_le bs) = bs.
Proof.
  induction 1 as [|b bs Hb _ IH]; [done|].
  rewrite length_cons. cbn [le_bytes of_le]. width.
  assert ((b + 256 * of_le bs) mod 256 = b) as ->.
  { symmetry; apply (Z.mod_unique_pos _ _ (of_le bs)); lia. }
  assert ((b + 256 * of_le bs) / 256 = of_le bs) as ->.
  { symmetry; apply (Z.div_unique_pos _ _ _ b); lia. }
  by rewrite IH.
Qed.
Lemma be_bytes_of_be bs : wf_bytes bs -> be_bytes (length bs) (of_be bs) = bs.
Proof.
  intros H. unfold be_bytes, of_be. rewrite <- (length_reverse bs).
  rewrite le_bytes_of_le by (by apply Forall_reverse). apply reverse_involutive.
Qed.

Lemma be_bytes_inj n z1 z2 :
  0 <= z1 < 256 ^ Z.of_nat n -> 0 <= z2 < 256 ^ Z.of_nat n ->
  be_bytes n z1 = be_bytes n z2 -> z1 = z2.
Proof.
  intros H1 H2 Heq. rewrite <- (of_be_be_bytes n z1 H1), <- (of_be_be_bytes n z2 H2).
  by rewrite Heq.
Qed.
Lemma le_bytes_inj n z1 z2 :
  0 <= z1 < 256 ^ Z.of_nat n -> 0 <= z2 < 256 ^ Z.of_nat n ->
  le_bytes n z1 = le_bytes n z2 -> z1 = z2.
Proof.
  intros H1 H2 Heq. rewrite <- (of_le_le_bytes n z1 H1), <- (of_le_le_bytes n z2 H2).
  by rewrite Heq.
Qed.

(** Fields of fixed width concatenate injectively. *)
Lemma app_fixed_inj {A} (a1 a2 b1 b2 : list A) :
  length a1 = length a2 -> a1 ++ b1 = a2 ++ b2 -> a1 = a2 /\ b1 = b2.
Proof. intros. by apply app_inj_1. Qed.
Lemma be_bytes_app_inj n z1 z2 (r1 r2 : bytes) :
  0 <= z1 < 256 ^ Z.of_nat n -> 0 <= z2 < 256 ^ Z.of_nat n ->
  be_bytes n z1 ++ r1 = be_bytes n z2 ++ r2 -> z1 = z2 /\ r1 = r2.
Proof.
  intros H1 H2 [Hz Hr]%app_fixed_inj; [|by rewrite !length_be_bytes].
  split; [by apply (be_bytes_inj n)|done].
Qed.
End byte_order.

Lemma pow256_1 : 256 ^ Z.of_nat 1 = U8_MAX + 1. Proof. reflexivity. Qed.
Lemma pow256_2 : 256 ^ Z.of_nat 2 = U16_MAX + 1. Proof. reflexivity. Qed.
Lemma pow256_4 : 256 ^ Z.of_nat 4 = U32_MAX + 1. Proof. reflexivity. Qed.
Lemma pow256_8 : 256 ^ Z.of_nat 8 = U64_MAX + 1. Proof. reflexivity. Qed.
(** Discharges the range side conditions of the byte-order lemmas. *)
Ltac byte_range := rewrite ?pow256_1, ?pow256_2, ?pow256_4, ?pow256_8; width; lia.
Ltac wf := repeat first [ assumption | apply wf_be_bytes | apply wf_le_bytes
  | apply Forall_app_2 | apply Forall_nil_2 | apply Forall_cons_2 | (width; lia) ].

(** * Text

    A Rust [str] is a sequence of Unicode scalar values; [as_bytes] is its
    UTF-8 form and [len] counts those bytes. *)

Abbreviation char := Z (only parsing).
Abbreviation str := (list Z) (only parsing).

(** ASCII literals. *)
Definition lit (s : String.string) : str :=
  map (fun c => Z.of_N (Ascii.N_of_ascii c)) (String.list_ascii_of_string s).

Arguments lit s%_string_scope.

Definition is_scalar (c : char) : Prop := 0 <= c < 1114112.
Definition wf_str (s : str) : Prop := Forall is_scalar s.

Definition utf8_char (c : char) : bytes :=
  if c <? 128 then [c]
  else if c <? 2048 then [192 + c / 64; 128 + c mod 64]
  else if c <? 65536 then [224 + c / 4096; 128 + c / 64 mod 64; 128 + c mod 64]
  else [240 + c / 262144; 128 + c / 4096 mod 64; 128 + c / 64 mod 64; 128 + c mod 64].
Definition as_bytes (s : str) : bytes := concat (map utf8_char s).
Definition str_len (s : str) : Z := len (as_bytes s).

(** [char::is_ascii] code points are their own single byte. *)
Definition ascii_str (s : str) : Prop := Forall (fun c => 0 <= c < 128) s.

Section text.
Lemma utf8_char_ascii c : c < 128 -> utf8_char c = [c].
Proof. intros. unfold utf8_char. destruct (Z.ltb_spec c 128); [done|lia]. Qed.
Lemma as_bytes_ascii s : ascii_str s -> as_bytes s = s.
Proof.
  induction 1 as [|c s Hc _ IH]; [done|].
  unfold as_bytes in *. simpl. by rewrite utf8_char_ascii, IH by lia.
Qed.
Lemma as_bytes_app s t : as_bytes (s ++ t) = as_bytes s ++ as_bytes t.
Proof. unfold as_bytes. by rewrite map_app, concat_app. Qed.
Lemma as_bytes_cons c s : as_bytes (c :: s) = utf8_char c ++ as_bytes s.
Proof. done. Qed.

(** UTF-8 is prefix free, so it is injective on whole texts. *)
Lemma utf8_char_app_inj c d r1 r2 :
  is_scalar c -> is_scalar d ->
  utf8_char c ++ r1 = utf8_char d ++ r2 -> c = d /\ r1 = r2.
Proof.
  unfold is_scalar, utf8_char. intros Hc Hd.
  repeat case_match; simpl; intros Heq; simplify_eq;
    repeat match goal with
           | H : (_ <? _) = true |- _ => apply Z.ltb_lt in H
           | H : (_ <? _) = false |- _ => apply Z.ltb_ge in H
           end; try done; split; try done; try (exfalso; Z.to_euclidean_division_equations; lia).
  all: Z.to_euclidean_division_equations; lia.
Qed.
Lemma utf8_char_not_nil c : utf8_char c <> [].
Proof. unfold utf8_char. by repeat case_match. Qed.
Lemma as_bytes_inj s t : wf_str s -> wf_str t -> as_bytes s = as_bytes t -> s = t.
Proof.
  intros Hs. revert t; induction Hs as [|c s Hc _ IH]; intros t Ht Heq.
  - destruct t as [|d t]; [done|]. rewrite as_bytes_cons in Heq. simpl in Heq.
    symmetry in Heq. apply app_nil in Heq as [Hn _].
    by apply utf8_char_not_nil in Hn.
  - destruct t as [|d t].
    { rewrite as_bytes_cons in Heq. apply app_nil in Heq as [Hn _].
      by apply utf8_char_not_nil in Hn. }
    inversion_clear Ht. rewrite !as_bytes_cons in Heq.
    apply utf8_char_app_inj in Heq as [-> Hr]; [|done..].
    f_equal. by apply IH.
Qed.
End text.

(** * Automation *)

Create HintDb lcq discriminated.

(** * Words *)

(** The exclusive or of two machine words is a word. *)
Lemma lxor_range n a b : 0 <= n -> 0 <= a < 2 ^ n -> 0 <= b < 2 ^ n -> 0 <= Z.lxor a b < 2 ^ n.
Proof.
  intros Hn Ha Hb. assert (0 <= Z.lxor a b) as H0 by (apply Z.lxor_nonneg; lia).
  split; [done|]. destruct (Z.eq_dec (Z.lxor a b) 0) as [->|Hne]; [lia|].
  apply Z.log2_lt_pow2; [lia|]. eapply Z.le_lt_trans; [apply Z.log2_lxor; lia|].
  destruct (Z.eq_dec a 0) as [->|], (Z.eq_dec b 0) as [->|]; rewrite ?Z.lxor_0_l in Hne; try lia;
    apply Z.max_lub_lt; try (apply Z.log2_lt_pow2; lia);
    assert (n <> 0) by (intros ->; lia); simpl; lia.
Qed.

(** * Sums and finite sets *)

Definition zsum (l : list Z) : Z := foldr Z.add 0 l.

Section zsum.
Lemma zsum_app l k : zsum (l ++ k) = zsum l + zsum k.
Proof. induction l; simpl; lia. Qed.
Lemma zsum_cons x l : zsum (x :: l) = x + zsum l.
Proof. done. Qed.
#[global] Instance zsum_perm : Proper ((≡ₚ) ==> (=)) zsum.
Proof. induction 1; simpl; lia. Qed.
Lemma zsum_nonneg l : Forall (fun x => 0 <= x) l -> 0 <= zsum l.
Proof. induction 1; simpl; lia. Qed.
Lemma zsum_bounds lo hi l :
  Forall (fun x => lo <= x <= hi) l -> lo * len l <= zsum l <= hi * len l.
Proof. unfold len. induction 1; simpl; lia. Qed.
End zsum.

(** The total of [f] over a finite set. *)
Definition set_sum `{Countable K} (f : K -> Z) (X : gset K) : Z := zsum (f <$> elements X).

Section set_sum.
Context `{Countable K}.
Implicit Types (f : K -> Z) (X Y : gset K).

Lemma set_sum_empty f : set_sum f ∅ = 0.
Proof. unfold set_sum. by rewrite elements_empty. Qed.
Lemma set_sum_disj_union f X Y : X ## Y -> set_sum f (X ∪ Y) = set_sum f X + set_sum f Y.
Proof.
  intros. unfold set_sum. by rewrite elements_disj_union, fmap_app, zsum_app.
Qed.
Lemma set_sum_singleton f x : set_sum f {[x]} = f x.
Proof. unfold set_sum. rewrite elements_singleton. simpl. lia. Qed.
Lemma set_sum_insert f x X : x ∉ X -> set_sum f ({[x]} ∪ X) = f x + set_sum f X.
Proof. intros. rewrite set_sum_disj_union, set_sum_singleton by set_solver. lia. Qed.
Lemma set_sum_nonneg f X : (forall x, x ∈ X -> 0 <= f x) -> 0 <= set_sum f X.
Proof.
  intros Hf. apply zsum_nonneg, Forall_fmap, Forall_forall.
  intros x Hx. apply Hf. by apply elem_of_elements.
Qed.
Lemma set_sum_subseteq f X Y :
  (forall x, x ∈ Y -> 0 <= f x) -> X ⊆ Y -> set_sum f X <= set_sum f Y.
Proof.
  intros Hf Hsub. rewrite (union_difference_L X Y Hsub), set_sum_disj_union by set_solver.
  assert (0 <= set_sum f (Y ∖ X)); [|lia].
  apply set_sum_nonneg. intros x [Hx _]%elem_of_difference. by apply Hf.
Qed.
(** Inclusion-exclusion. *)
Lemma set_sum_union_inter f X Y :
  set_sum f (X ∪ Y) + set_sum f (X ∩ Y) = set_sum f X + set_sum f Y.
Proof.
  assert (X ∪ Y = X ∪ Y ∖ X) as -> by (apply set_eq; intros z; destruct (decide (z ∈ X)); set_solver).
  assert (set_sum f Y = set_sum f (X ∩ Y) + set_sum f (Y ∖ X)) as ->.
  { rewrite <- set_sum_disj_union by set_solver. f_equal.
    apply set_eq; intros z; destruct (decide (z ∈ X)); set_solver. }
  rewrite set_sum_disj_union by set_solver. lia.
Qed.
Lemma set_size_union_inter X Y :
  (size (X ∪ Y) + size (X ∩ Y) = size X + size Y)%nat.
Proof.
  assert (size Y = size (X ∩ Y) + size (Y ∖ X))%nat as ->.
  { rewrite <- size_union by set_solver. f_equal.
    apply set_eq; intros z; destruct (decide (z ∈ X)); set_solver. }
  rewrite size_union_alt. lia.
Qed.
End set_sum.

(** A separator that occurs in neither left part determines the split. *)
Lemma sep_split {A} (x : A) (a b r s : list A) :
  x ∉ a -> x ∉ b -> a ++ x :: r = b ++ x :: s -> a = b /\ r = s.
Proof.
  revert b; induction a as [|y a IH]; intros [|z b] Ha Hb Heq; simpl in Heq.
  - by injection Heq as ->.
  - injection Heq as -> _. destruct Hb. by left.
  - injection Heq as -> _. destruct Ha. by left.
  - injection Heq as -> Heq. apply not_elem_of_cons in Ha as [_ Ha], Hb as [_ Hb].
    by destruct (IH b Ha Hb Heq) as [-> ->].
Qed.

(** * Digits *)

(** The hand-written decimal loop of the code: twenty digits hold any u64. *)
Fixpoint dec_loop (fuel : nat) (n : Z) (acc : str) : str :=
  match fuel with
  | O => acc
  | S fuel =>
      let acc := (48 + n mod 10) :: acc in
      if n / 10 =? 0 then acc else dec_loop fuel (n / 10) acc
  end.
Definition decimal (n : Z) : str := dec_loop 20 n [].
Definition of_decimal (ds : str) : Z := fold_left (fun a d => 10 * a + (d - 48)) ds 0.

Definition HEX : list Z := lit "0123456789abcdef".
Definition hex_byte (b : Z) : str :=
  [nth (Z.to_nat (Z.shiftr b 4)) HEX 0; nth (Z.to_nat (Z.land b 15)) HEX 0].
Definition hex (bs : bytes) : str := concat (map hex_byte bs).

Section digits.
Lemma of_decimal_snoc ds d : of_decimal (ds ++ [d]) = 10 * of_decimal ds + (d - 48).
Proof. unfold of_decimal. by rewrite fold_left_app. Qed.

Lemma dec_loop_spec fuel n acc :
  0 <= n < 10 ^ Z.of_nat fuel ->
  exists ds, dec_loop fuel n acc = ds ++ acc /\ of_decimal ds = n /\
    Forall (fun d => 48 <= d <= 57) ds /\ (0 < fuel -> ds <> [])%nat.
Proof.
  revert n acc; induction fuel as [|fuel IH]; intros n acc Hn.
  { exists []. simpl in Hn. split_and!; [done|unfold of_decimal; simpl; lia|constructor|lia]. }
  rewrite Nat2Z.inj_succ, Z.pow_succ_r in Hn by lia.
  pose proof (Z.mod_pos_bound n 10 ltac:(lia)) as Hmod.
  pose proof (Z.div_mod n 10 ltac:(lia)) as Hdm.
  cbn [dec_loop]. destruct (Z.eqb_spec (n / 10) 0) as [Hz|Hnz].
  { exists [48 + n mod 10]. split_and!; [done| |repeat constructor; lia|done].
    unfold of_decimal; cbn [fold_left]. lia. }
  destruct (IH (n / 10) ((48 + n mod 10) :: acc)) as (ds & -> & Hv & Hd & _).
  { split; [apply Z.div_pos; lia|apply Z.div_lt_upper_bound; lia]. }
  exists (ds ++ [48 + n mod 10]). split_and!.
  - by rewrite <- app_assoc.
  - rewrite of_decimal_snoc, Hv. lia.
  - apply Forall_app_2; [done|]. repeat constructor; lia.
  - intros _. by destruct ds.
Qed.

Lemma decimal_spec n : is_u64 n ->
  of_decimal (decimal n) = n /\ Forall (fun d => 48 <= d <= 57) (decimal n) /\ decimal n <> [].
Proof.
  intros Hn. unfold decimal. destruct (dec_loop_spec 20 n []) as (ds & -> & Hv & Hd & Hne).
  { change (10 ^ Z.of_nat 20) with 100000000000000000000. width. lia. }
  rewrite app_nil_r. split_and!; [done..|apply Hne; lia].
Qed.
Lemma decimal_inj a b : is_u64 a -> is_u64 b -> decimal a = decimal b -> a = b.
Proof.
  intros [Ha _]%decimal_spec [Hb _]%decimal_spec Heq. congruence.
Qed.

(** Sixteen cases decide any question about one hexadecimal digit. *)
Lemma hex_digit_range n : 0 <= n < 16 ->
  48 <= nth (Z.to_nat n) HEX 0 <= 57 \/ 97 <= nth (Z.to_nat n) HEX 0 <= 102.
Proof.
  intros Hn. assert (Z.to_nat n < 16)%nat as Hlt by lia. revert Hlt.
  generalize (Z.to_nat n). clear n Hn. intros n Hn.
  do 16 (destruct n as [|n]; [vm_compute; intuition congruence|]). lia.
Qed.
Definition unhex (d : Z) : Z := if d <? 58 then d - 48 else d - 87.
Lemma unhex_digit n : 0 <= n < 16 -> unhex (nth (Z.to_nat n) HEX 0) = n.
Proof.
  intros Hn. assert (Z.to_nat n < 16)%nat as Hlt by lia.
  assert (n = Z.of_nat (Z.to_nat n)) as He by lia. revert He Hlt.
  generalize (Z.to_nat n). intros k -> Hk. clear Hn.
  do 16 (destruct k as [|k]; [reflexivity|]). lia.
Qed.
Lemma nibbles b : is_u8 b ->
  0 <= Z.shiftr b 4 < 16 /\ 0 <= Z.land b 15 < 16 /\ b = 16 * Z.shiftr b 4 + Z.land b 15.
Proof.
  intros Hb. rewrite Z.shiftr_div_pow2 by lia. change 15 with (Z.ones 4).
  rewrite Z.land_ones by lia. change (2 ^ 4) with 16. width.
  Z.to_euclidean_division_equations; lia.
Qed.
Lemma hex_byte_inj a b : is_u8 a -> is_u8 b -> hex_byte a = hex_byte b -> a = b.
Proof.
  intros (Ha1 & Ha2 & Ha)%nibbles (Hb1 & Hb2 & Hb)%nibbles. unfold hex_byte. intros Heq.
  pose proof (f_equal (fun l => unhex (nth 0 l 0)) Heq) as H1.
  pose proof (f_equal (fun l => unhex (nth 1 l 0)) Heq) as H2. cbn [nth] in H1, H2.
  rewrite !unhex_digit in H1, H2 by done. lia.
Qed.
Lemma length_hex bs : length (hex bs) = (2 * length bs)%nat.
Proof. unfold hex. induction bs; simpl; lia. Qed.
Lemma hex_inj xs ys : wf_bytes xs -> wf_bytes ys -> hex xs = hex ys -> xs = ys.
Proof.
  intros Hx; revert ys; induction Hx as [|x xs Hx _ IH]; intros ys Hy Heq.
  { destruct ys; [done|]. apply (f_equal length) in Heq. rewrite !length_hex in Heq. simpl in Heq. lia. }
  destruct ys as [|y ys].
  { apply (f_equal length) in Heq. rewrite !length_hex in Heq. simpl in Heq. lia. }
  inversion_clear Hy as [|?? Hy1 Hys].
  change (hex_byte x ++ hex xs = hex_byte y ++ hex ys) in Heq.
  apply app_inj_1 in Heq as [Hb Hr]; [|done]. f_equal; [by apply hex_byte_inj|by apply IH].
Qed.
Lemma hex_range bs : wf_bytes bs -> Forall (fun d => 48 <= d <= 57 \/ 97 <= d <= 102) (hex bs).
Proof.
  induction 1 as [|b bs (H1 & H2 & _)%nibbles _ IH]; [constructor|].
  apply Forall_app_2; [|done]. do 2 (constructor; [by apply hex_digit_range|]). constructor.
Qed.
End digits.

(** * Single bits *)

(** [b & (1 << k) != 0]. *)
Lemma land_bit b k : 0 <= k -> negb (Z.land b (Z.shiftl 1 k) =? 0) = Z.testbit b k.
Proof.
  intros Hk. destruct (Z.eqb_spec (Z.land b (Z.shiftl 1 k)) 0) as [Hz|Hnz]; simpl.
  - apply (f_equal (fun z => Z.testbit z k)) in Hz.
    rewrite Z.land_spec, Z.shiftl_spec, Z.sub_diag, Z.bits_0, andb_true_r in Hz by done. done.
  - destruct (Z.testbit b k) eqn:Hb; [done|]. destruct Hnz. apply Z.bits_inj'. intros n Hn.
    rewrite Z.land_spec, Z.bits_0, Z.shiftl_1_l by lia.
    destruct (Z.eq_dec n k) as [->|]; [by rewrite Hb|].
    by rewrite Z.pow2_bits_false, andb_false_r by lia.
Qed.

(** Updating one element of a list read with a default. *)
Lemma nth_alter (f : Z -> Z) (h : list Z) (n k : nat) : (n < length h)%nat ->
  nth k (alter f n h) 0 = if decide (n = k) then f (nth k h 0) else nth k h 0.
Proof.
  revert n k; induction h as [|b h IH]; intros [|n] [|k] Hn; simpl in Hn; try lia; try done.
  cbn [alter list_alter nth]. rewrite IH by lia. repeat case_decide; congruence.
Qed.

(** Two's complement: the signed reading of [w] bits, and the way back. *)
Definition to_signed (w z : Z) : Z := if z <? 2 ^ (w - 1) then z else z - 2 ^ w.
Definition of_signed (w z : Z) : Z := z mod 2 ^ w.
Lemma signed_roundtrip w z : 0 < w -> - 2 ^ (w - 1) <= z < 2 ^ (w - 1) -> to_signed w (of_signed w z) = z.
Proof.
  intros Hw Hz. unfold to_signed, of_signed.
  assert (2 ^ w = 2 * 2 ^ (w - 1)) as Hpow by (rewrite <- Z.pow_succ_r by lia; f_equal; lia).
  destruct (Z.lt_ge_cases z 0).
  - assert (z mod 2 ^ w = z + 2 ^ w) as -> by (symmetry; apply (Z.mod_unique_pos _ _ (-1)); lia).
    destruct (Z.ltb_spec (z + 2 ^ w) (2 ^ (w - 1))); lia.
  - rewrite Z.mod_small by lia. destruct (Z.ltb_spec z (2 ^ (w - 1))); lia.
Qed.

(** * Ordered maps: the iteration order of [BTreeMap] and [BTreeSet]

    A map's contents are a [gmap]; what the code iterates over is the list of its
    entries by ascending key.  Strings compare by code points, which is the order
    of their UTF-8 bytes. *)

Fixpoint str_leb (a b : str) : bool :=
  match a, b with
  | [], _ => true
  | _ :: _, [] => false
  | x :: a, y :: b => if x =? y then str_leb a b else x <? y
  end.

Class KeyOrder (K : Type) := key_leb : K -> K -> bool.
#[global] Instance Z_key_order : KeyOrder Z := Z.leb.
#[global] Instance str_key_order : KeyOrder str := str_leb.

Definition key_le `{KeyOrder K} {A} (f : A -> K) (x y : A) : Prop := key_leb (f x) (f y) = true.
#[global] Instance key_le_dec `{KeyOrder K} {A} (f : A -> K) : RelDecision (key_le f).
Proof. intros x y. unfold key_le. apply _. Defined.

Definition entries `{Countable K, KeyOrder K} {A} (m : gmap K A) : list (K * A) :=
  merge_sort (key_le fst) (map_to_list m).
Definition values `{Countable K, KeyOrder K} {A} (m : gmap K A) : list A := snd <$> entries m.
Definition members_of `{Countable K, KeyOrder K} (X : gset K) : list K :=
  merge_sort (key_le id) (elements X).

Section ordered.
Context `{Countable K, KeyOrder K}.

Lemma entries_perm {A} (m : gmap K A) : entries m ≡ₚ map_to_list m.
Proof. apply merge_sort_Permutation. Qed.
Lemma elem_of_entries {A} (m : gmap K A) k v : (k, v) ∈ entries m <-> m !! k = Some v.
Proof. rewrite entries_perm. apply elem_of_map_to_list. Qed.
Lemma entries_nodup {A} (m : gmap K A) : NoDup (entries m).*1.
Proof. rewrite entries_perm. apply NoDup_fst_map_to_list. Qed.
Lemma elem_of_values {A} (m : gmap K A) v : v ∈ values m <-> exists k, m !! k = Some v.
Proof.
  unfold values. rewrite list_elem_of_fmap. setoid_rewrite <- elem_of_entries. split.
  - intros ([k w] & -> & Hin). by exists k.
  - intros [k Hin]. by exists (k, v).
Qed.
Lemma list_to_map_entries {A} (m : gmap K A) : list_to_map (entries m) = m.
Proof.
  rewrite <- (list_to_map_to_list m) at 2. apply list_to_map_proper; [apply entries_nodup|].
  apply entries_perm.
Qed.
Lemma elem_of_members (X : gset K) k : k ∈ members_of X <-> k ∈ X.
Proof. unfold members_of. by rewrite merge_sort_Permutation, elem_of_elements. Qed.

(** Inserting entries with distinct keys one after the other builds the map
    they list. *)
Lemma foldl_insert_map {A} (l : list (K * A)) (m0 : gmap K A) :
  NoDup l.*1 -> foldl (fun m kv => <[kv.1 := kv.2]> m) m0 l = list_to_map l ∪ m0.
Proof.
  revert m0; induction l as [|[k v] l IH]; intros m0; [simpl; by rewrite (left_id_L ∅ (∪))|].
  rewrite fmap_cons. intros [Hk Hnd]%NoDup_cons. cbn [foldl list_to_map foldr fst snd].
  rewrite IH by done. rewrite <- insert_union_r; [by rewrite insert_union_l|].
  by apply not_elem_of_list_to_map_1.
Qed.
Lemma foldl_insert_entries {A} (m : gmap K A) :
  foldl (fun m kv => <[kv.1 := kv.2]> m) ∅ (entries m) = m.
Proof.
  rewrite foldl_insert_map by apply entries_nodup.
  by rewrite list_to_map_entries, (right_id_L ∅ (∪)).
Qed.
End ordered.
