(* ===== verification/Time.v ===== *)
(** Protocol time (src/src/domain/time/mod.rs) and the clock a node runs on
    (src/src/infrastructure/clock.rs).

    [Timestamp] is a u64 of seconds; [Clock] is the trait as a type class, its
    provided methods are the three-valued deadline tests.  The theorems say what
    a reading of one clock lets a node conclude about every other honest clock. *)
From S2P Require Import Prelude.

(** The pairwise skew budget and the per-node accuracy it implies. *)
Definition MAX_CLOCK_SKEW_SECONDS : Z := 30.
Definition REQUIRED_SOURCE_ACCURACY_SECONDS : Z := MAX_CLOCK_SKEW_SECONDS / 2.

Module Timestamp.
(** [Timestamp(u64)]. *)
Record t := from_secs { as_secs : Z }.

#[global] Instance t_eq_dec : EqDecision t.
Proof. solve_decision. Defined.
#[global] Instance t_countable : Countable t.
Proof. refine (inj_countable' as_secs from_secs _). by intros []. Defined.

Definition wf (a : t) : Prop := is_u64 (as_secs a).
Definition ltb (a b : t) : bool := as_secs a <? as_secs b.

Definition plus_secs (a : t) (seconds : Z) : t :=
  from_secs (sat_add64 (as_secs a) seconds).
Definition secs_until (a later : t) : Z :=
  sat_sub (as_secs later) (as_secs a).

Lemma plus_secs_wf a s : wf a -> 0 <= s -> wf (plus_secs a s).
Proof. unfold wf, plus_secs; simpl. usize. Qed.
Lemma plus_secs_ge a s : wf a -> 0 <= s -> as_secs a <= as_secs (plus_secs a s).
Proof. unfold wf, plus_secs; simpl. usize. Qed.
Lemma plus_secs_exact a s :
  as_secs a + s <= U64_MAX -> as_secs (plus_secs a s) = as_secs a + s.
Proof. unfold plus_secs; simpl. usize. Qed.
End Timestamp.

(** The [Clock] trait: one required method, three provided ones. *)
Class Clock (C : Type) := now : C -> Timestamp.t.
#[global] Hint Mode Clock ! : typeclass_instances.

Section clock.
Context {C : Type} `{Clock C}.

Definition certainly_after (c : C) (deadline : Timestamp.t) : bool :=
  sat_add64 (Timestamp.as_secs deadline) MAX_CLOCK_SKEW_SECONDS
    <? Timestamp.as_secs (now c).
Definition certainly_before (c : C) (deadline : Timestamp.t) : bool :=
  sat_add64 (Timestamp.as_secs (now c)) MAX_CLOCK_SKEW_SECONDS
    <? Timestamp.as_secs deadline.
Definition uncertain_about (c : C) (deadline : Timestamp.t) : bool :=
  negb (certainly_after c deadline) && negb (certainly_before c deadline).
End clock.

(** [FixedClock]. *)
Module FixedClock.
Record t := new { now_ : Timestamp.t }.
Definition advanced_by (c : t) (seconds : Z) : t :=
  new (Timestamp.plus_secs (now_ c) seconds).
End FixedClock.
#[global] Instance fixed_clock : Clock FixedClock.t := FixedClock.now_.

(** [ScaledClock], with what [origin.elapsed()] reads, in whole milliseconds. *)
Module ScaledClock.
Record t := mk { elapsed_ms : Z; epoch : Timestamp.t; scale : Z; offset_s : Z }.
Definition anchored_at (elapsed : Z) (epoch : Timestamp.t) (scale offset_s : Z) : t :=
  mk elapsed epoch (Z.max scale 1) offset_s.
(** [u64::saturating_add_signed]. *)
Definition sat_add_signed (a b : Z) : Z := Z.max 0 (Z.min (a + b) U64_MAX).
Definition now_ (c : t) : Timestamp.t :=
  let protocol_ms := sat_mul64 (Z.min (elapsed_ms c) U64_MAX) (scale c) in
  let seconds := sat_add64 (Timestamp.as_secs (epoch c)) (protocol_ms / 1000) in
  Timestamp.from_secs (sat_add_signed seconds (offset_s c)).
Definition wall_ms_for (c : t) (protocol_seconds : Z) : Z := sat_mul64 protocol_seconds 1000 / scale c.
Definition wall_ms (c : t) (protocol_ms : Z) : Z := protocol_ms / scale c.
End ScaledClock.
#[global] Instance scaled_clock : Clock ScaledClock.t := ScaledClock.now_.

Section clock_lemmas.
Context {C D : Type} `{Clock C, Clock D}.
Implicit Types (c : C) (d : D).

Lemma certainly_after_spec c x :
  Timestamp.wf (now c) ->
  certainly_after c x = true <->
  Timestamp.as_secs x + MAX_CLOCK_SKEW_SECONDS < Timestamp.as_secs (now c).
Proof.
  unfold certainly_after, Timestamp.wf, MAX_CLOCK_SKEW_SECONDS.
  intros Hw. rewrite Z.ltb_lt. usize.
Qed.
Lemma certainly_before_spec c x :
  Timestamp.wf x ->
  certainly_before c x = true <->
  Timestamp.as_secs (now c) + MAX_CLOCK_SKEW_SECONDS < Timestamp.as_secs x.
Proof.
  unfold certainly_before, Timestamp.wf, MAX_CLOCK_SKEW_SECONDS.
  intros Hw. rewrite Z.ltb_lt. usize.
Qed.
Lemma not_uncertain c x :
  uncertain_about c x = false <->
  certainly_after c x = true \/ certainly_before c x = true.
Proof.
  unfold uncertain_about. destruct (certainly_after c x), (certainly_before c x);
    simpl; naive_solver.
Qed.
End clock_lemmas.

(** Two honest clocks read at one instant differ by at most the pairwise budget. *)
Definition honest_pair {C D} `{Clock C, Clock D} (c : C) (d : D) : Prop :=
  Timestamp.wf (now c) /\ Timestamp.wf (now d) /\
  Z.abs (Timestamp.as_secs (now c) - Timestamp.as_secs (now d)) <= MAX_CLOCK_SKEW_SECONDS.

Section agreement.
Context {C D : Type} `{Clock C, Clock D}.

(** The three answers exclude one another and cover every reading. *)
Lemma deadline_trichotomy (c : C) (x : Timestamp.t) :
  Timestamp.wf (now c) -> Timestamp.wf x ->
  match certainly_after c x, certainly_before c x, uncertain_about c x with
  | true, false, false | false, true, false | false, false, true => True
  | _, _, _ => False
  end.
Proof.
  intros Hc Hx. unfold uncertain_about.
  destruct (certainly_after c x) eqn:Ha, (certainly_before c x) eqn:Hb; simpl; try done.
  apply certainly_after_spec in Ha; [|done]. apply certainly_before_spec in Hb; [|done].
  unfold MAX_CLOCK_SKEW_SECONDS in *. lia.
Qed.

Lemma honest_after (c : C) (d : D) x :
  honest_pair c d -> certainly_after c x = true ->
  Timestamp.as_secs x < Timestamp.as_secs (now d).
Proof.
  intros (Hc & Hd & Habs) Ha. apply certainly_after_spec in Ha; [|done].
  unfold MAX_CLOCK_SKEW_SECONDS in *. lia.
Qed.
Lemma honest_before (c : C) (d : D) x :
  honest_pair c d -> Timestamp.wf x -> certainly_before c x = true ->
  Timestamp.as_secs (now d) < Timestamp.as_secs x.
Proof.
  intros (Hc & Hd & Habs) Hx Hb. apply certainly_before_spec in Hb; [|done].
  unfold MAX_CLOCK_SKEW_SECONDS in *. lia.
Qed.

(** A later reading never takes a certain answer back. *)
Lemma certainly_after_mono (c : C) (d : D) x :
  Timestamp.as_secs (now c) <= Timestamp.as_secs (now d) ->
  certainly_after c x = true -> certainly_after d x = true.
Proof. unfold certainly_after. rewrite !Z.ltb_lt. lia. Qed.
End agreement.

(** One node concluding a deadline passed (or has not) is sound for every honest
    node: nobody else can conclude the opposite, or even read the other side of it. *)
Theorem certain_answers_agree {C D : Type} `{Clock C, Clock D} (c : C) (d : D) x :
  honest_pair c d -> Timestamp.wf x ->
  (certainly_after c x = true ->
     Timestamp.as_secs x < Timestamp.as_secs (now d) /\ certainly_before d x = false) /\
  (certainly_before c x = true ->
     Timestamp.as_secs (now d) < Timestamp.as_secs x /\ certainly_after d x = false).
Proof.
  intros Hp Hx. pose proof Hp as (Hc & Hd & _). split; intros Ha.
  - pose proof (honest_after c d x Hp Ha). split; [done|].
    apply not_true_is_false. intros Hb. apply certainly_before_spec in Hb; [|done].
    unfold MAX_CLOCK_SKEW_SECONDS in *. lia.
  - pose proof (honest_before c d x Hp Hx Ha). split; [done|].
    apply not_true_is_false. intros Hb. apply certainly_after_spec in Hb; [|done].
    unfold MAX_CLOCK_SKEW_SECONDS in *. lia.
Qed.

Lemma certain_answers_agree_witness :
  certainly_after (FixedClock.new (Timestamp.from_secs 1331)) (Timestamp.from_secs 1300) = true /\
  (1300 < 1301 /\
   certainly_before (FixedClock.new (Timestamp.from_secs 1301)) (Timestamp.from_secs 1300) = false).
Proof.
  split; [reflexivity|].
  refine (proj1 (certain_answers_agree (FixedClock.new (Timestamp.from_secs 1331))
           (FixedClock.new (Timestamp.from_secs 1301)) (Timestamp.from_secs 1300) _ _) _).
  - unfold honest_pair, Timestamp.wf; cbn. unfold MAX_CLOCK_SKEW_SECONDS. width. lia.
  - unfold Timestamp.wf; cbn. width. lia.
  - reflexivity.
Defined.

(** Two nodes whose sources are each within the required accuracy are an honest pair
    at every instant, whatever the scale; a clock never runs backwards; and waiting
    [wall_ms_for s] advances it by [s] protocol seconds, or by one less, as long as
    time is compressed at most a thousandfold. *)
Theorem scaled_clocks_are_honest (elapsed later scale o1 o2 s : Z) (e : Timestamp.t) :
  Timestamp.wf e -> 0 <= elapsed <= later -> 1 <= scale <= 1000 ->
  Z.abs o1 <= REQUIRED_SOURCE_ACCURACY_SECONDS -> Z.abs o2 <= REQUIRED_SOURCE_ACCURACY_SECONDS ->
  0 <= s -> s * 1000 <= U64_MAX -> Timestamp.as_secs e + s <= U64_MAX ->
  let c := ScaledClock.anchored_at elapsed e scale in
  honest_pair (c o1) (c o2)
  /\ Timestamp.as_secs (now (c o1)) <= Timestamp.as_secs (now (ScaledClock.anchored_at later e scale o1))
  /\ (let woken := ScaledClock.anchored_at (ScaledClock.wall_ms_for (c 0) s) e scale 0 in
      Timestamp.as_secs e + s - 1 <= Timestamp.as_secs (now woken) <= Timestamp.as_secs e + s).
Proof.
  intros He Hel Hsc H1 H2 Hs Hs1 Hs2 c. unfold REQUIRED_SOURCE_ACCURACY_SECONDS, MAX_CLOCK_SKEW_SECONDS in *.
  assert (30 / 2 = 15) as Hhalf by done. rewrite Hhalf in *.
  assert (forall el o, now (ScaledClock.anchored_at el e scale o)
    = Timestamp.from_secs (ScaledClock.sat_add_signed (sat_add64 (Timestamp.as_secs e) (sat_mul64 (Z.min el U64_MAX) scale / 1000)) o)) as Hnow.
  { intros el o. unfold now, scaled_clock, ScaledClock.now_, ScaledClock.anchored_at. cbn. by rewrite Z.max_l by lia. }
  unfold honest_pair, c, Timestamp.wf. rewrite !Hnow. cbn [Timestamp.as_secs]. unfold ScaledClock.sat_add_signed, sat_add64.
  unfold MAX_CLOCK_SKEW_SECONDS. split; [split; [|split]; width; lia|split].
  - assert (sat_mul64 (Z.min elapsed U64_MAX) scale / 1000 <= sat_mul64 (Z.min later U64_MAX) scale / 1000); [|lia].
    apply Z.div_le_mono; [lia|]. unfold sat_mul64. width; nia.
  - assert (ScaledClock.wall_ms_for (ScaledClock.anchored_at elapsed e scale 0) s = s * 1000 / scale) as ->.
    { unfold ScaledClock.wall_ms_for, ScaledClock.anchored_at, sat_mul64. cbn [ScaledClock.scale].
      by rewrite (Z.max_l scale 1), (Z.min_l (s * 1000)) by lia. }
    unfold Timestamp.wf in He. unfold sat_mul64.
    set (w := s * 1000 / scale). assert (w * scale <= s * 1000 < w * scale + scale) as Hw.
    { unfold w. pose proof (Z.div_mod (s * 1000) scale ltac:(lia)). pose proof (Z.mod_pos_bound (s * 1000) scale ltac:(lia)). lia. }
    assert (0 <= w <= s * 1000) by (split; nia).
    rewrite (Z.min_l w) by lia. rewrite (Z.min_l (w * scale)) by lia.
    assert (s - 1 <= w * scale / 1000 <= s) as Hd by (Z.to_euclidean_division_equations; nia).
    width; lia.
Qed.
Lemma scaled_clocks_are_honest_witness :
  honest_pair (ScaledClock.anchored_at 2500 (Timestamp.from_secs 1000) 100 15)
              (ScaledClock.anchored_at 2500 (Timestamp.from_secs 1000) 100 (-15)).
Proof.
  refine (proj1 (scaled_clocks_are_honest 2500 2500 100 15 (-15) 300 (Timestamp.from_secs 1000) _ _ _ _ _ _ _ _));
    solve [ unfold Timestamp.wf; cbn; width; lia | apply (bool_decide_unpack _); vm_compute; exact I ].
Defined.
