(* ===== verification/Quorum.v ===== *)
(** The quorum context (src/src/domain/quorum/): the manifest policy with its two
    thresholds, and the evaluation of a set of endorsements against them.

    A [BTreeMap<String, Competence>] is a [gmap str Z]; the member list a caller
    passes is a list of pairs, consumed in order, since the order decides which
    error a bad list is refused with. *)
From S2P Require Import Prelude.

Inductive PolicyError :=
| EmptyFleet
| BlankMemberId
| DuplicateMemberId
| CompetenceOutOfRange
| CompetenceRatioExceeded
| FaultBudgetOutOfRange
| NonPositiveCompetenceRatio.
#[global] Instance PolicyError_eq_dec : EqDecision PolicyError.
Proof. solve_decision. Defined.

Module Competence.
Definition SCALE : Z := 100.
Definition FULL : Z := 100.

Definition try_new (value : Z) : result PolicyError Z :=
  if (value =? 0) || (SCALE <? value) then Err CompetenceOutOfRange else Ok value.

(** [u32::div_ceil]. *)
Definition div_ceil (a b : Z) : Z := (a + b - 1) / b.

Definition band (max_ratio : Z) : Z * Z :=
  if max_ratio =? 0 then (SCALE, SCALE)
  else
    let floor := div_ceil SCALE max_ratio in
    let floor := if floor =? 0 then 1 else floor in
    (floor mod 256, SCALE).
End Competence.

Definition DEFAULT_BYZANTINE_BPS : Z := 4000.
Definition DEFAULT_MAX_COMPETENCE_RATIO : Z := 3.

Record Policy := {
  competences : gmap str Z;
  byzantine_bps : Z;
  max_competence_ratio : Z;
  total_competence : Z;
}.

(** The loop over the members a manifest lists. *)
Fixpoint insert_members (ms : list (str * Z)) (acc : gmap str Z)
  : result PolicyError (gmap str Z) :=
  match ms with
  | [] => Ok acc
  | (id, score) :: ms =>
      if bool_decide (id = []) then Err BlankMemberId
      else
        competence ← Competence.try_new score;
        match acc !! id with
        | Some _ => Err DuplicateMemberId
        | None => insert_members ms (<[id := competence]> acc)
        end
  end.

(** The fold that finds the highest and the lowest competence. *)
Definition extremes (m : gmap str Z) : Z * Z :=
  map_fold (fun _ c '(hi, lo) => (Z.max hi c, Z.min lo c)) (0, U8_MAX) m.

Definition sum_competence (m : gmap str Z) : Z := map_fold (fun _ c s => s + c) 0 m.

Definition with_settings (members : list (str * Z)) (bps ratio : Z)
  : result PolicyError Policy :=
  if 10000 <=? bps then Err FaultBudgetOutOfRange
  else if ratio <? 1 then Err NonPositiveCompetenceRatio
  else
    m ← insert_members members ∅;
    if bool_decide (m = ∅) then Err EmptyFleet
    else
      let '(highest, lowest) := extremes m in
      if ratio * lowest <? highest then Err CompetenceRatioExceeded
      else Ok {| competences := m; byzantine_bps := bps;
                 max_competence_ratio := ratio; total_competence := sum_competence m |}.

Definition new (members : list (str * Z)) : result PolicyError Policy :=
  with_settings members DEFAULT_BYZANTINE_BPS DEFAULT_MAX_COMPETENCE_RATIO.

Definition policy_size (p : Policy) : Z := Z.of_nat (size (competences p)).

(** [u64::from(bps) * size as u64 / 10_000]: u64 multiplication, then the
    saturating narrowing, which on a 64-bit target never narrows. *)
Definition max_faulty (p : Policy) : Z := wrap64 (byzantine_bps p * policy_size p) / 10000.

(** [usize::midpoint] never overflows: it is the floor of the exact mean. *)
Definition min_signers (p : Policy) : Z := (policy_size p + max_faulty p) / 2 + 1.

Definition competence_of (p : Policy) (member : str) : option Z := competences p !! member.

Inductive EvaluationError := UnknownSigner.

Record QuorumResult := {
  signer_count : Z;
  support_competence : Z;
  count_met : bool;
  competence_met : bool;
}.
Definition approved (r : QuorumResult) : bool := count_met r && competence_met r.

(** The loop over the deduplicated signers. *)
Fixpoint support_of (p : Policy) (signers : list str) (acc : Z) : result EvaluationError Z :=
  match signers with
  | [] => Ok acc
  | s :: signers =>
      c ← ok_or (competence_of p s) UnknownSigner;
      support_of p signers (acc + c)
  end.

Definition evaluate (p : Policy) (signers : list str) : result EvaluationError QuorumResult :=
  let unique : gset str := list_to_set signers in
  support ← support_of p (elements unique) 0;
  Ok {| signer_count := Z.of_nat (size unique);
        support_competence := support;
        count_met := min_signers p <=? Z.of_nat (size unique);
        competence_met := 2 * total_competence p <? 3 * support |}.

(** * The manifest as a policy *)

(** What every policy the constructors return satisfies. *)
Record policy_wf (p : Policy) : Prop := {
  wf_nonempty : competences p <> ∅;
  wf_named : competences p !! [] = None;
  wf_scale : forall id c, competences p !! id = Some c -> 1 <= c <= Competence.SCALE;
  wf_bps : byzantine_bps p < 10000;
  wf_ratio : 1 <= max_competence_ratio p;
  wf_cap : forall a b x y, competences p !! a = Some x -> competences p !! b = Some y ->
    x <= max_competence_ratio p * y;
  wf_total : total_competence p = sum_competence (competences p);
}.

(** What a member's competence contributes: nothing if it is not named. *)
Definition worth (p : Policy) (s : str) : Z := default 0 (competence_of p s).

Section competence.
Lemma try_new_ok v c :
  Competence.try_new v = Ok c <-> c = v /\ v <> 0 /\ v <= Competence.SCALE.
Proof.
  unfold Competence.try_new, Competence.SCALE.
  destruct (Z.eqb_spec v 0), (Z.ltb_spec 100 v); simpl; naive_solver lia.
Qed.

Lemma sum_competence_insert m id c :
  m !! id = None -> sum_competence (<[id := c]> m) = sum_competence m + c.
Proof.
  intros. unfold sum_competence.
  rewrite map_fold_insert_L by (intros; lia || done). done.
Qed.

Lemma sum_competence_dom m :
  sum_competence m = set_sum (fun s => default 0 (m !! s)) (dom m).
Proof.
  induction m as [|id c m Hid IH] using map_ind.
  { by rewrite dom_empty_L, set_sum_empty. }
  rewrite sum_competence_insert, dom_insert_L by done.
  rewrite set_sum_insert by (by apply not_elem_of_dom).
  rewrite lookup_insert_eq, IH. simpl.
  assert (set_sum (fun s => default 0 (m !! s)) (dom m)
          = set_sum (fun s => default 0 (<[id:=c]> m !! s)) (dom m)) as <-; [|lia].
  unfold set_sum. f_equal. apply list_fmap_ext. intros i s Hs.
  rewrite lookup_insert_ne; [done|]. intros ->.
  apply list_elem_of_lookup_2, elem_of_elements, elem_of_dom in Hs.
  rewrite Hid in Hs. by destruct Hs.
Qed.

(** [extremes] brackets every competence and, on a non-empty map, is attained. *)
Definition extremes_of (r : Z * Z) (m : gmap str Z) : Prop :=
  (m = ∅ -> r = (0, U8_MAX)) /\
  (forall id c, m !! id = Some c -> r.2 <= c <= r.1) /\
  (m <> ∅ -> exists a b, m !! a = Some r.1 /\ m !! b = Some r.2).

Lemma extremes_of_insert i c m hi lo :
  m !! i = None -> 0 <= c <= U8_MAX -> extremes_of (hi, lo) m ->
  extremes_of (Z.max hi c, Z.min lo c) (<[i := c]> m).
Proof.
  intros Hi Hc (He & Hb & Ha). split_and!.
  - intros H. by apply insert_non_empty in H.
  - intros id c' [[-> ->]|[? Hid]]%lookup_insert_Some; simpl; [lia|].
    specialize (Hb id c' Hid). simpl in Hb. lia.
  - intros _. destruct (decide (m = ∅)) as [->|Hne].
    + specialize (He eq_refl). simplify_eq. exists i, i. rewrite lookup_insert_eq.
      simpl. width. split; f_equal; lia.
    + destruct (Ha Hne) as (a & b & Hx & Hy). simpl in *.
      exists (if bool_decide (hi <= c) then i else a), (if bool_decide (c <= lo) then i else b).
      repeat case_bool_decide; rewrite ?lookup_insert_eq;
        rewrite ?lookup_insert_ne by naive_solver; split;
        first [f_equal; lia | rewrite Hx; f_equal; lia | rewrite Hy; f_equal; lia].
Qed.

Lemma extremes_spec m :
  (forall id c, m !! id = Some c -> 0 <= c <= U8_MAX) -> extremes_of (extremes m) m.
Proof.
  unfold extremes. apply (map_fold_weak_ind (fun r m =>
    (forall id c, m !! id = Some c -> 0 <= c <= U8_MAX) -> extremes_of r m)); clear m.
  { intros _. split_and!; [done|intros ??; by rewrite lookup_empty|done]. }
  intros i c m [hi lo] Hi IH Hr. apply extremes_of_insert; [done| |].
  - apply (Hr i), lookup_insert_eq.
  - apply IH. intros id c' Hid. apply (Hr id).
    rewrite lookup_insert_ne by naive_solver. done.
Qed.

(** The ratio test of the code is the ratio cap on every pair of members. *)
Lemma ratio_cap_spec m ratio :
  m <> ∅ -> 1 <= ratio -> (forall id c, m !! id = Some c -> 0 <= c <= U8_MAX) ->
  ratio * (extremes m).2 <? (extremes m).1 = false <->
  (forall a b x y, m !! a = Some x -> m !! b = Some y -> x <= ratio * y).
Proof.
  intros Hne Hr Hrange. destruct (extremes_spec m Hrange) as (_ & Hb & Ha).
  destruct (extremes m) as [hi lo]; simpl in *. rewrite Z.ltb_ge. split.
  - intros Hcap a b x y Hx%Hb Hy%Hb. nia.
  - intros Hall. destruct (Ha Hne) as (a & b & Hx & Hy). by apply (Hall a b).
Qed.
End competence.

Section insert_members.
(** What the member loop accepts, and what it builds. *)
Definition member_ok (m : str * Z) : Prop :=
  m.1 <> [] /\ 1 <= m.2 <= Competence.SCALE.

Lemma insert_members_ok ms acc r :
  Forall (fun m => 0 <= m.2) ms ->
  insert_members ms acc = Ok r <->
  Forall member_ok ms /\ NoDup ms.*1 /\ (forall id, id ∈ ms.*1 -> acc !! id = None) /\
  r = list_to_map ms ∪ acc.
Proof.
  intros Hnn. revert acc; induction ms as [|[id c] ms IH]; intros acc; simpl.
  { rewrite (left_id_L ∅ (∪)). split; [|naive_solver].
    intros [= ->]. split_and!; [done|constructor|set_solver|done]. }
  inversion_clear Hnn as [|?? Hc Hrest]. specialize (IH Hrest). simpl in Hc.
  rewrite NoDup_cons, Forall_cons. unfold member_ok at 1. simpl.
  case_bool_decide as Hid; [naive_solver|].
  unfold Competence.try_new. destruct (Z.eqb_spec c 0), (Z.ltb_spec Competence.SCALE c); simpl;
    [naive_solver lia..|].
  destruct (acc !! id) eqn:Hacc.
  { split; [done|]. intros (_ & _ & Hnone & _).
    specialize (Hnone id ltac:(set_solver)). congruence. }
  rewrite IH. clear IH. split.
  - intros (Hok & Hnd & Hnone & ->). split_and!; try done; try lia.
    + intros Hin. specialize (Hnone id Hin). by rewrite lookup_insert_eq in Hnone.
    + intros id' [->|Hin]%elem_of_cons; [done|].
      specialize (Hnone id' Hin). apply lookup_insert_None in Hnone. by destruct Hnone.
    + rewrite <- insert_union_l, insert_union_r; [done|].
      apply not_elem_of_list_to_map_1. intros Hin.
      specialize (Hnone id Hin). by rewrite lookup_insert_eq in Hnone.
  - intros ((_ & Hok) & (Hnin & Hnd) & Hnone & ->). split_and!; try done.
    + intros id' Hin. apply lookup_insert_None. split; [apply Hnone; set_solver|].
      intros ->. done.
    + rewrite <- insert_union_l, insert_union_r; [done|]. by apply not_elem_of_list_to_map_1.
Qed.
End insert_members.

(** Every pair of members a manifest lists respects the cap. *)
Definition capped (ratio : Z) (ms : list (str * Z)) : Prop :=
  forall m1 m2, m1 ∈ ms -> m2 ∈ ms -> m1.2 <= ratio * m2.2.

Section with_settings.
Lemma list_to_map_capped ms ratio :
  NoDup ms.*1 ->
  (forall a b x y, (list_to_map ms : gmap str Z) !! a = Some x ->
     (list_to_map ms : gmap str Z) !! b = Some y -> x <= ratio * y) <-> capped ratio ms.
Proof.
  intros Hnd. split.
  - intros H [a x] [b y] Ha Hb. apply (H a b x y); by apply elem_of_list_to_map_1.
  - intros H a b x y Ha%elem_of_list_to_map_2 Hb%elem_of_list_to_map_2.
    apply (H (a, x) (b, y) Ha Hb).
Qed.

Lemma list_to_map_scale ms id c :
  Forall member_ok ms -> (list_to_map ms : gmap str Z) !! id = Some c ->
  1 <= c <= Competence.SCALE.
Proof.
  intros Hok Hid%elem_of_list_to_map_2. rewrite Forall_forall in Hok.
  by apply (Hok _ Hid).
Qed.

(** The exact policy a lawful member list builds. *)
Definition policy_of (ms : list (str * Z)) (bps ratio : Z) : Policy :=
  {| competences := list_to_map ms; byzantine_bps := bps; max_competence_ratio := ratio;
     total_competence := sum_competence (list_to_map ms) |}.

Lemma with_settings_spec ms bps ratio p :
  Forall (fun m => 0 <= m.2) ms ->
  with_settings ms bps ratio = Ok p <->
  bps < 10000 /\ 1 <= ratio /\ ms <> [] /\ Forall member_ok ms /\ NoDup ms.*1 /\
  capped ratio ms /\ p = policy_of ms bps ratio.
Proof.
  intros Hnn. unfold with_settings.
  destruct (Z.leb_spec 10000 bps); [naive_solver lia|].
  destruct (Z.ltb_spec ratio 1); [naive_solver lia|].
  rewrite result_bind_ok.
  assert (Hcap : Forall member_ok ms -> NoDup ms.*1 -> ms <> [] ->
    ratio * (extremes (list_to_map ms)).2 <? (extremes (list_to_map ms)).1 = false
    <-> capped ratio ms).
  { intros Hok Hnd Hne. rewrite ratio_cap_spec, list_to_map_capped; try done.
    - intros He. apply Hne. destruct ms as [|[id c] ms]; [done|].
      simpl in He. by apply insert_non_empty in He.
    - intros id c Hc%list_to_map_scale; [|done]. unfold Competence.SCALE in Hc. width; lia. }
  split.
  - intros (m & Hm%insert_members_ok & Hp); [|done].
    destruct Hm as (Hok & Hnd & _ & ->). rewrite (right_id_L ∅ (∪)) in Hp.
    assert (Hne : ms <> []) by (intros ->; simpl in Hp; by case_bool_decide).
    specialize (Hcap Hok Hnd Hne).
    case_bool_decide; [done|]. destruct (extremes _) as [hi lo]. simpl in Hcap.
    destruct (ratio * lo <? hi); [done|]. simplify_eq. by rewrite <- Hcap.
  - intros (_ & _ & Hne & Hok & Hnd & Hc%Hcap & ->); try done.
    exists (list_to_map ms). split.
    + apply insert_members_ok; [done|]. rewrite (right_id_L ∅ (∪)).
      split_and!; [done..|intros; apply lookup_empty|done].
    + case_bool_decide as He.
      { destruct ms as [|[id c] ms]; [done|]. simpl in He. by apply insert_non_empty in He. }
      destruct (extremes _) as [hi lo]. simpl in Hc. by rewrite Hc.
Qed.

Lemma with_settings_wf ms bps ratio p :
  Forall (fun m => 0 <= m.2) ms -> with_settings ms bps ratio = Ok p -> policy_wf p.
Proof.
  intros Hnn (Hb & Hr & Hne & Hok & Hnd & Hcap & ->)%with_settings_spec; [|done].
  constructor; simpl; try done.
  - destruct ms as [|[id c] ms]; [done|]. simpl. apply insert_non_empty.
  - apply not_elem_of_list_to_map_1. intros ([id c] & Hid & Hin)%list_elem_of_fmap.
    rewrite Forall_forall in Hok. destruct (Hok _ Hin). simpl in *. congruence.
  - intros id c. by apply list_to_map_scale.
  - by apply list_to_map_capped.
Qed.
End with_settings.

(** * Thresholds *)

(** The set of members a policy names, and the weight of a set of signers. *)
Definition members (p : Policy) : gset str := dom (competences p).
Definition weight (p : Policy) (X : gset str) : Z := set_sum (worth p) X.
(** A fleet small enough that the u64 product of the fault budget cannot wrap. *)
Definition fits (p : Policy) : Prop := policy_size p <= 2 ^ 50.

Section thresholds.
Context (p : Policy) (Hwf : policy_wf p).

Lemma policy_size_members : policy_size p = Z.of_nat (size (members p)).
Proof. unfold policy_size, members. by rewrite size_dom. Qed.
Lemma policy_size_pos : 0 < policy_size p.
Proof.
  unfold policy_size. pose proof (wf_nonempty p Hwf).
  destruct (decide (size (competences p) = 0%nat)) as [He|]; [|lia].
  by apply map_size_empty_inv in He.
Qed.

Lemma max_faulty_exact :
  0 <= byzantine_bps p -> fits p ->
  max_faulty p = byzantine_bps p * policy_size p / 10000.
Proof.
  unfold fits. intros Hb Hf. unfold max_faulty, wrap64. f_equal.
  pose proof (wf_bps p Hwf). pose proof policy_size_pos.
  apply Z.mod_small. split; nia.
Qed.
Lemma max_faulty_lt :
  0 <= byzantine_bps p -> fits p -> 0 <= max_faulty p < policy_size p.
Proof.
  intros Hb Hf. rewrite max_faulty_exact by done.
  pose proof (wf_bps p Hwf). pose proof policy_size_pos.
  split; [apply Z.div_pos; nia|]. apply Z.div_lt_upper_bound; nia.
Qed.
Lemma min_signers_bounds :
  0 <= byzantine_bps p -> fits p ->
  policy_size p + max_faulty p < 2 * min_signers p <= policy_size p + max_faulty p + 2 /\
  min_signers p <= policy_size p.
Proof.
  intros Hb Hf. pose proof (max_faulty_lt Hb Hf). unfold min_signers.
  Z.to_euclidean_division_equations; lia.
Qed.

Lemma worth_nonneg s : 0 <= worth p s.
Proof.
  unfold worth, competence_of. destruct (competences p !! s) eqn:Hs; simpl; [|lia].
  apply (wf_scale p Hwf) in Hs. lia.
Qed.
Lemma weight_total : weight p (members p) = total_competence p.
Proof. rewrite (wf_total p Hwf), sum_competence_dom. done. Qed.
Lemma total_pos : 0 < total_competence p.
Proof.
  rewrite <- weight_total. destruct (set_choose_or_empty (members p)) as [[x Hx]|He].
  - pose proof (set_sum_subseteq (worth p) {[x]} (members p)
      (fun y _ => worth_nonneg y) ltac:(set_solver)) as Hle.
    rewrite set_sum_singleton in Hle. unfold weight.
    unfold members in Hx. apply elem_of_dom in Hx as [c Hc].
    assert (worth p x = c) as Hw by (unfold worth, competence_of; by rewrite Hc).
    apply (wf_scale p Hwf) in Hc. lia.
  - pose proof policy_size_pos. rewrite policy_size_members in *.
    rewrite He, size_empty in *. lia.
Qed.
End thresholds.

(** * Evaluation *)

Section evaluation.
Context (p : Policy).

Lemma support_of_spec signers acc :
  support_of p signers acc =
    if bool_decide (Forall (.∈ members p) signers)
    then Ok (acc + zsum (worth p <$> signers)) else Err UnknownSigner.
Proof.
  revert acc; induction signers as [|s signers IH]; intros acc.
  { simpl. f_equal. lia. }
  cbn [support_of]. unfold members in *. destruct (competence_of p s) as [c|] eqn:Hs; cbn [ok_or mbind result_bind].
  - assert (s ∈ dom (competences p)) by (apply elem_of_dom; naive_solver).
    rewrite IH, (bool_decide_ext (Forall _ (s :: signers)) (Forall (.∈ dom (competences p)) signers))
      by (rewrite Forall_cons; tauto).
    case_bool_decide; [|done]. f_equal.
    assert (worth p s = c) as <- by (unfold worth; by rewrite Hs).
    rewrite fmap_cons, zsum_cons. lia.
  - rewrite bool_decide_eq_false_2; [done|]. rewrite Forall_cons.
    intros [[c Hc]%elem_of_dom _]. unfold competence_of in Hs. congruence.
Qed.

(** The verdict on a set of members; nothing about the order or repetition of
    the list it came from is left in it. *)
Definition verdict_on (X : gset str) : QuorumResult :=
  {| signer_count := Z.of_nat (size X);
     support_competence := weight p X;
     count_met := min_signers p <=? Z.of_nat (size X);
     competence_met := 2 * total_competence p <? 3 * weight p X |}.

Lemma evaluate_spec signers :
  evaluate p signers =
    if bool_decide (list_to_set signers ⊆ members p)
    then Ok (verdict_on (list_to_set signers)) else Err UnknownSigner.
Proof.
  unfold evaluate. rewrite support_of_spec.
  rewrite (bool_decide_ext _ ((list_to_set signers : gset str) ⊆ members p)).
  - by case_bool_decide.
  - rewrite Forall_forall. set_solver.
Qed.
Lemma evaluate_ok signers r :
  evaluate p signers = Ok r <->
  list_to_set signers ⊆ members p /\ r = verdict_on (list_to_set signers).
Proof. rewrite evaluate_spec. case_bool_decide; naive_solver. Qed.
End evaluation.

(** * The properties *)

(** The constructor accepts exactly the lawful manifests, and what it returns
    is the manifest it was given. *)
Theorem with_settings_characterised ms bps ratio p :
  Forall (fun m => is_u8 m.2) ms ->
  with_settings ms bps ratio = Ok p <->
  bps < 10000 /\ 1 <= ratio /\ ms <> [] /\ NoDup ms.*1 /\ capped ratio ms /\
  (forall id c, (id, c) ∈ ms -> id <> [] /\ 1 <= c <= 100) /\
  p = policy_of ms bps ratio.
Proof.
  intros Hu. rewrite with_settings_spec by (eapply Forall_impl; [done|]; intros; simpl; width; lia).
  assert (Forall member_ok ms <-> forall id c, (id, c) ∈ ms -> id <> [] /\ 1 <= c <= 100) as ->.
  { rewrite Forall_forall. unfold member_ok, Competence.SCALE. split.
    - intros H id c Hin. apply (H _ Hin).
    - intros H [id c] Hin. by apply H. }
  tauto.
Qed.

Definition example_members : list (str * Z) :=
  [(lit "alpha", 100); (lit "bravo", 66); (lit "charlie", 40); (lit "delta", 100); (lit "echo", 90)].
Definition example_policy : Policy := policy_of example_members 4000 3.

Lemma with_settings_characterised_witness :
  with_settings example_members 4000 3 = Ok example_policy.
Proof.
  apply with_settings_characterised.
  - unfold example_members. repeat constructor; simpl; width; lia.
  - split_and!; try done.
    + apply (bool_decide_unpack _). vm_compute. exact I.
    + intros m1 m2. unfold example_members. rewrite !elem_of_cons, !elem_of_nil.
      intros H1 H2. destruct_or?; subst; simpl; try lia; done.
    + intros id c. unfold example_members. rewrite !elem_of_cons, elem_of_nil.
      intros H1. destruct_or?; simplify_eq; split; try lia; done.
Defined.

(** C2: Two approvals always share an honest member. *)
Theorem approvals_share_honest_member (p : Policy) (s1 s2 : list str) (r1 r2 : QuorumResult)
    (F : gset str) :
  policy_wf p -> 0 <= byzantine_bps p -> fits p ->
  evaluate p s1 = Ok r1 -> evaluate p s2 = Ok r2 ->
  approved r1 = true -> approved r2 = true ->
  Z.of_nat (size F) <= max_faulty p ->
  exists s, s ∈ s1 /\ s ∈ s2 /\ s ∉ F.
Proof.
  intros Hwf Hb Hf [H1 ->]%evaluate_ok [H2 ->]%evaluate_ok.
  unfold approved; simpl. intros [Hc1%Z.leb_le _]%andb_true_iff [Hc2%Z.leb_le _]%andb_true_iff HF.
  set (X := list_to_set s1 : gset str) in *. set (Y := list_to_set s2 : gset str) in *.
  pose proof (set_size_union_inter X Y) as Hie.
  pose proof (subseteq_size (X ∪ Y) (members p) ltac:(set_solver)) as Hsub.
  pose proof (min_signers_bounds p Hwf Hb Hf) as [Hm _].
  rewrite policy_size_members in Hm.
  destruct (set_choose_or_empty ((X ∩ Y) ∖ F)) as [[s Hs]|He].
  - exists s. unfold X, Y in Hs. set_solver.
  - assert (X ∩ Y ⊆ F) as Hin.
    { intros s Hs. destruct (decide (s ∈ F)); [done|]. set_solver. }
    apply subseteq_size in Hin. lia.
Qed.

Lemma approvals_share_honest_member_witness :
  exists s, s ∈ [lit "alpha"; lit "bravo"; lit "delta"; lit "echo"] /\
    s ∈ [lit "echo"; lit "charlie"; lit "alpha"; lit "delta"] /\
    s ∉ ({[lit "alpha"; lit "delta"]} : gset str).
Proof.
  apply (approvals_share_honest_member example_policy
    [lit "alpha"; lit "bravo"; lit "delta"; lit "echo"]
    [lit "echo"; lit "charlie"; lit "alpha"; lit "delta"]
    {| signer_count := 4; support_competence := 356; count_met := true; competence_met := true |}
    {| signer_count := 4; support_competence := 330; count_met := true; competence_met := true |}).
  - apply (with_settings_wf example_members 4000 3).
    + unfold example_members. repeat constructor; simpl; lia.
    + vm_compute. reflexivity.
  - vm_compute. discriminate.
  - vm_compute. discriminate.
  - vm_compute. reflexivity.
  - vm_compute. reflexivity.
  - reflexivity.
  - reflexivity.
  - vm_compute. discriminate.
Defined.

(** Two approvals share more than a third of the manifest's competence. *)
Theorem approvals_share_competence (p : Policy) (s1 s2 : list str) (r1 r2 : QuorumResult) :
  policy_wf p -> evaluate p s1 = Ok r1 -> evaluate p s2 = Ok r2 ->
  competence_met r1 = true -> competence_met r2 = true ->
  total_competence p < 3 * weight p (list_to_set s1 ∩ list_to_set s2).
Proof.
  intros Hwf [H1 ->]%evaluate_ok [H2 ->]%evaluate_ok. simpl.
  intros Hc1%Z.ltb_lt Hc2%Z.ltb_lt.
  pose proof (set_sum_union_inter (worth p) (list_to_set s1) (list_to_set s2)).
  pose proof (set_sum_subseteq (worth p) (list_to_set s1 ∪ list_to_set s2) (members p)
    (fun x _ => worth_nonneg p Hwf x) ltac:(set_solver)) as Hle.
  pose proof (weight_total p Hwf). unfold weight in *. lia.
Qed.

Lemma approvals_share_competence_witness :
  total_competence example_policy
    < 3 * weight example_policy
        (list_to_set [lit "alpha"; lit "bravo"; lit "delta"; lit "echo"]
         ∩ list_to_set [lit "echo"; lit "charlie"; lit "alpha"; lit "delta"]).
Proof.
  apply (approvals_share_competence example_policy _ _
    {| signer_count := 4; support_competence := 356; count_met := true; competence_met := true |}
    {| signer_count := 4; support_competence := 330; count_met := true; competence_met := true |}).
  - apply (with_settings_wf example_members 4000 3).
    + unfold example_members. repeat constructor; simpl; lia.
    + vm_compute. reflexivity.
  - vm_compute. reflexivity.
  - vm_compute. reflexivity.
  - reflexivity.
  - reflexivity.
Defined.

(** Approval is monotone in who endorsed, blind to order and repetition, and
    within reach: the whole fleet always clears both thresholds. *)
Theorem evaluation_monotone_and_reachable (p : Policy) :
  policy_wf p -> 0 <= byzantine_bps p -> fits p ->
  (forall (s1 s2 : list str) (r1 r2 : QuorumResult),
     evaluate p s1 = Ok r1 -> evaluate p s2 = Ok r2 ->
     (forall x, x ∈ s1 -> x ∈ s2) -> approved r1 = true -> approved r2 = true) /\
  (forall s1 s2 : list str,
     (forall x, x ∈ s1 <-> x ∈ s2) -> evaluate p s1 = evaluate p s2) /\
  (exists r, evaluate p (elements (members p)) = Ok r /\ approved r = true).
Proof.
  intros Hwf Hb Hf. split_and!.
  - intros s1 s2 r1 r2 [H1 ->]%evaluate_ok [H2 ->]%evaluate_ok Hsub.
    unfold approved; simpl. rewrite !andb_true_iff, !Z.leb_le, !Z.ltb_lt. intros [Hc Hw].
    assert ((list_to_set s1 : gset str) ⊆ list_to_set s2) as Hsub' by set_solver.
    pose proof (subseteq_size _ _ Hsub').
    pose proof (set_sum_subseteq (worth p) _ _ (fun x _ => worth_nonneg p Hwf x) Hsub').
    unfold weight in *. lia.
  - intros s1 s2 Hiff. rewrite !evaluate_spec.
    assert ((list_to_set s1 : gset str) = list_to_set s2) as -> by set_solver. done.
  - exists (verdict_on p (members p)). split.
    + rewrite evaluate_spec, list_to_set_elements_L. by rewrite bool_decide_eq_true_2.
    + unfold approved; simpl. rewrite andb_true_iff, Z.leb_le, Z.ltb_lt.
      rewrite <- policy_size_members, weight_total by done.
      pose proof (total_pos p Hwf). pose proof (min_signers_bounds p Hwf Hb Hf). lia.
Qed.

Lemma evaluation_monotone_and_reachable_witness :
  evaluate example_policy [lit "alpha"; lit "bravo"; lit "alpha"]
  = evaluate example_policy [lit "bravo"; lit "alpha"].
Proof.
  refine (proj1 (proj2 (evaluation_monotone_and_reachable example_policy _ _ _)) _ _ _).
  - apply (with_settings_wf example_members 4000 3).
    + unfold example_members. repeat constructor; simpl; lia.
    + vm_compute. reflexivity.
  - vm_compute. discriminate.
  - vm_compute. discriminate.
  - intros x. set_solver.
Defined.

(** A service that scores every member inside the band always assembles a
    lawful manifest, whatever the scores. *)
Theorem band_is_lawful (ratio bps : Z) (ms : list (str * Z)) :
  1 <= ratio <= U32_MAX -> bps < 10000 -> ms <> [] -> NoDup ms.*1 ->
  Forall (fun m => m.1 <> [] /\
    (Competence.band ratio).1 <= m.2 <= (Competence.band ratio).2) ms ->
  with_settings ms bps ratio = Ok (policy_of ms bps ratio).
Proof.
  intros Hr Hb Hne Hnd Hband.
  assert (exists f, Competence.band ratio = (f, 100) /\ 1 <= f <= 100 /\ 100 <= ratio * f)
    as (f & Hf & Hrange & Hcap).
  { unfold Competence.band, Competence.div_ceil, Competence.SCALE. width.
    destruct (Z.eqb_spec ratio 0); [lia|].
    exists ((100 + ratio - 1) / ratio).
    assert (1 <= (100 + ratio - 1) / ratio <= 100 /\ 100 <= ratio * ((100 + ratio - 1) / ratio)) as H.
    { Z.to_euclidean_division_equations. nia. }
    destruct (Z.eqb_spec ((100 + ratio - 1) / ratio) 0); [lia|].
    rewrite Z.mod_small by lia. naive_solver. }
  rewrite Hf in Hband. simpl in Hband. rewrite Forall_forall in Hband.
  apply with_settings_spec.
  - apply Forall_forall. intros m Hm%Hband. lia.
  - split_and!; try done; try lia.
    + apply Forall_forall. intros m Hm%Hband. unfold member_ok, Competence.SCALE.
      split; [tauto|lia].
    + intros m1 m2 Hm1%Hband Hm2%Hband. nia.
Qed.

Lemma band_is_lawful_witness :
  with_settings [(lit "alpha", 34); (lit "bravo", 100)] 4000 3
  = Ok (policy_of [(lit "alpha", 34); (lit "bravo", 100)] 4000 3).
Proof.
  apply band_is_lawful; [width; lia|lia|done| |].
  - apply (bool_decide_unpack _). vm_compute. exact I.
  - repeat constructor; vm_compute; discriminate.
Defined.

(** No sum or product the evaluation forms can leave a u64, for any fleet a
    machine could hold. *)
Theorem evaluation_never_overflows (p : Policy) (signers : list str) (r : QuorumResult) :
  policy_wf p -> 0 <= byzantine_bps p -> fits p -> evaluate p signers = Ok r ->
  is_u64 (byzantine_bps p * policy_size p) /\ is_u64 (3 * support_competence r) /\
  is_u64 (2 * total_competence p) /\ 0 <= max_faulty p < policy_size p /\
  policy_size p < 2 * min_signers p /\ min_signers p <= policy_size p.
Proof.
  intros Hwf Hb Hf [Hsub ->]%evaluate_ok. simpl.
  pose proof (max_faulty_lt p Hwf Hb Hf) as Hmf.
  pose proof (min_signers_bounds p Hwf Hb Hf) as Hms.
  assert (0 <= weight p (list_to_set signers) <= total_competence p) as Hw.
  { split; [apply set_sum_nonneg; intros; by apply worth_nonneg|].
    rewrite <- weight_total by done. apply set_sum_subseteq; [|done].
    intros; by apply worth_nonneg. }
  assert (0 <= total_competence p <= 100 * policy_size p) as Ht.
  { rewrite <- weight_total, policy_size_members by done.
    pose proof (zsum_bounds 0 100 (worth p <$> elements (members p))) as Hz.
    unfold len in Hz.
    rewrite length_fmap in Hz. change (size (members p)) with (length (elements (members p))).
    apply Hz, Forall_fmap, Forall_forall. intros s _. simpl. split; [by apply worth_nonneg|].
    unfold worth, competence_of. destruct (competences p !! s) eqn:Hs; simpl; [|lia].
    apply (wf_scale p Hwf) in Hs. unfold Competence.SCALE in Hs. lia. }
  pose proof (wf_bps p Hwf). unfold fits in Hf. pose proof (policy_size_pos p Hwf). width.
  split_and!; try lia; nia.
Qed.

Lemma evaluation_never_overflows_witness :
  is_u64 (3 * 256) /\ min_signers example_policy <= policy_size example_policy.
Proof.
  assert (H : is_u64 (byzantine_bps example_policy * policy_size example_policy) /\
     is_u64 (3 * 256) /\ is_u64 (2 * total_competence example_policy) /\
     0 <= max_faulty example_policy < policy_size example_policy /\
     policy_size example_policy < 2 * min_signers example_policy /\
     min_signers example_policy <= policy_size example_policy).
  { apply (evaluation_never_overflows example_policy [lit "alpha"; lit "bravo"; lit "echo"]
      {| signer_count := 3; support_competence := 256; count_met := false; competence_met := false |}).
    - apply (with_settings_wf example_members 4000 3).
      + unfold example_members. repeat constructor; simpl; lia.
      + vm_compute. reflexivity.
    - vm_compute. discriminate.
    - vm_compute. discriminate.
    - vm_compute. reflexivity. }
  tauto.
Defined.
