(* ===== verification/Contracts.v ===== *)
(** The contracts (src/src/domain/contracts/mod.rs): what a node says, and about
    exactly which claim.  Accessors are the record projections. *)
From S2P Require Import Prelude Time.

Definition CONSULTATION_CUTOFF_SECONDS : Z := 300.
Definition ENDORSEMENT_TARGET_SECONDS : Z := 600.
Definition PHASE_SETTLE_SECONDS : Z := 2.
Definition BINDING_STAGE_OPENS_SECONDS : Z :=
  CONSULTATION_CUTOFF_SECONDS + 2 * MAX_CLOCK_SKEW_SECONDS + PHASE_SETTLE_SECONDS.
Definition DEFAULT_VALIDITY_SECONDS : Z := 1800.

(** The two compile-time assertions of the crate. *)
Example binding_stage_before_target :
  BINDING_STAGE_OPENS_SECONDS + 60 <= ENDORSEMENT_TARGET_SECONDS.
Proof. vm_compute. discriminate. Qed.
Example skew_below_window :
  MAX_CLOCK_SKEW_SECONDS * 10 <= CONSULTATION_CUTOFF_SECONDS.
Proof. vm_compute. discriminate. Qed.

Inductive SubjectError := BlankIdentifier.

Module Subject.
Record t := mk {
  mission : str;
  event : str;
  revision : Z;
  content_hash : bytes;
  started_at : Timestamp.t;
}.
#[global] Instance t_eq_dec : EqDecision t.
Proof. solve_decision. Defined.

Definition new (mission event : str) (revision : Z) (content_hash : bytes)
    (started_at : Timestamp.t) : result SubjectError t :=
  if bool_decide (mission = []) || bool_decide (event = []) then Err BlankIdentifier
  else Ok (mk mission event revision content_hash started_at).

Definition consultation_cutoff (s : t) : Timestamp.t :=
  Timestamp.plus_secs (started_at s) CONSULTATION_CUTOFF_SECONDS.
Definition endorsement_target (s : t) : Timestamp.t :=
  Timestamp.plus_secs (started_at s) ENDORSEMENT_TARGET_SECONDS.
Definition default_expiry (s : t) : Timestamp.t :=
  Timestamp.plus_secs (started_at s) DEFAULT_VALIDITY_SECONDS.
Definition same_logical_case_and_revision (a b : t) : bool := bool_decide (a = b).

Lemma new_ok m e r h s x :
  new m e r h s = Ok x <-> m <> [] /\ e <> [] /\ x = mk m e r h s.
Proof. unfold new. repeat case_bool_decide; simpl; naive_solver. Qed.
End Subject.

Inductive Verdict := Support | Dispute | InsufficientData.
#[global] Instance Verdict_eq_dec : EqDecision Verdict.
Proof. solve_decision. Defined.
Definition can_support_approval (v : Verdict) : bool :=
  match v with Support => true | _ => false end.

Inductive Stage := Independent | Consultation | BindingSupport.
#[global] Instance Stage_eq_dec : EqDecision Stage.
Proof. solve_decision. Defined.
Definition stage_is_binding (s : Stage) : bool :=
  match s with BindingSupport => true | _ => false end.

Module Opinion.
Record t := new {
  author : str;
  subject : Subject.t;
  stage : Stage;
  verdict : Verdict;
}.
#[global] Instance t_eq_dec : EqDecision t.
Proof. solve_decision. Defined.

Definition is_binding (o : t) : bool := stage_is_binding (stage o).
Definition counts_with (a b : t) : bool :=
  bool_decide (stage a = stage b)
  && Subject.same_logical_case_and_revision (subject a) (subject b).
End Opinion.

(** The wire codes of stages and verdicts, and the way back (src/src/wire/codec.rs
    and src/src/sim/protocol.rs). *)
Definition stage_code (s : Stage) : Z :=
  match s with Independent => 1 | Consultation => 2 | BindingSupport => 3 end.
Definition verdict_code (v : Verdict) : Z :=
  match v with Support => 1 | Dispute => 2 | InsufficientData => 3 end.
Definition stage_of (code : Z) : option Stage :=
  if code =? 1 then Some Independent
  else if code =? 2 then Some Consultation
  else if code =? 3 then Some BindingSupport
  else None.
Definition verdict_of (code : Z) : option Verdict :=
  if code =? 1 then Some Support
  else if code =? 2 then Some Dispute
  else if code =? 3 then Some InsufficientData
  else None.

Section codes.
Lemma stage_of_code s : stage_of (stage_code s) = Some s.
Proof. by destruct s. Qed.
Lemma verdict_of_code v : verdict_of (verdict_code v) = Some v.
Proof. by destruct v. Qed.
Lemma stage_of_some c s : stage_of c = Some s -> c = stage_code s.
Proof.
  unfold stage_of. destruct (Z.eqb_spec c 1), (Z.eqb_spec c 2), (Z.eqb_spec c 3);
    intros; simplify_eq; done.
Qed.
Lemma verdict_of_some c v : verdict_of c = Some v -> c = verdict_code v.
Proof.
  unfold verdict_of. destruct (Z.eqb_spec c 1), (Z.eqb_spec c 2), (Z.eqb_spec c 3);
    intros; simplify_eq; done.
Qed.
Lemma stage_code_inj s1 s2 : stage_code s1 = stage_code s2 -> s1 = s2.
Proof. by destruct s1, s2. Qed.
Lemma verdict_code_inj v1 v2 : verdict_code v1 = verdict_code v2 -> v1 = v2.
Proof. by destruct v1, v2. Qed.
End codes.

(** [counts_with] is an equivalence: utterances partition into tallies that are
    never added together. *)
Section counts_with.
Lemma counts_with_spec a b :
  Opinion.counts_with a b = true <->
  Opinion.stage a = Opinion.stage b /\ Opinion.subject a = Opinion.subject b.
Proof.
  unfold Opinion.counts_with, Subject.same_logical_case_and_revision.
  rewrite andb_true_iff, !bool_decide_eq_true. done.
Qed.
#[global] Instance counts_with_equiv :
  Equivalence (fun a b => Opinion.counts_with a b = true).
Proof.
  split; intros ?; intros; rewrite counts_with_spec in *; naive_solver congruence.
Qed.
End counts_with.
