(* ===== verification/CaseState.v ===== *)
(** The stage machine of one claim (src/src/domain/state/mod.rs).

    [accept] and [close_consultation] take the case and a clock and return the
    new case or the refusal.  The second half gives the machine's contract: a
    ballot box, one sealed vote per author, and proves that every run of the
    machine is a run of the ballot box. *)
From S2P Require Import Prelude Time Contracts.

Inductive TransitionError :=
| DifferentSubject
| WrongStageForPhase
| ConsultationClosed
| CutoffNotReached
| Expired
| TimeUncertain
| AlreadyVoted.
#[global] Instance TransitionError_eq_dec : EqDecision TransitionError.
Proof. solve_decision. Defined.

Module TransitionErrorCount.
Record t := mk {
  different_subject : Z;
  wrong_stage_for_phase : Z;
  consultation_closed : Z;
  cutoff_not_reached : Z;
  expired : Z;
  time_uncertain : Z;
  already_voted : Z;
}.
Definition default : t := mk 0 0 0 0 0 0 0.

Definition record (c : t) (e : TransitionError) : t :=
  let 'mk a b d f g h i := c in
  match e with
  | DifferentSubject => mk (a + 1) b d f g h i
  | WrongStageForPhase => mk a (b + 1) d f g h i
  | ConsultationClosed => mk a b (d + 1) f g h i
  | CutoffNotReached => mk a b d (f + 1) g h i
  | Expired => mk a b d f (g + 1) h i
  | TimeUncertain => mk a b d f g (h + 1) i
  | AlreadyVoted => mk a b d f g h (i + 1)
  end.
Definition total (c : t) : Z :=
  different_subject c + wrong_stage_for_phase c + consultation_closed c
  + cutoff_not_reached c + expired c + time_uncertain c + already_voted c.

(** No refusal is lost and none is counted under two reasons. *)
Lemma total_record c e : total (record c e) = total c + 1.
Proof. destruct c, e; unfold total; simpl; lia. Qed.
Lemma total_record_all es : total (fold_left record es default) = len es.
Proof.
  assert (H : forall es c, total (fold_left record es c) = total c + len es).
  { clear es. intros es; induction es as [|e es IH]; intros c; simpl; [usize|].
    rewrite IH, total_record. usize. }
  by rewrite H.
Qed.
End TransitionErrorCount.

Inductive Phase := Consulting | CollectingVotes.
#[global] Instance Phase_eq_dec : EqDecision Phase.
Proof. solve_decision. Defined.

Module Case.
Record t := mk {
  subject : Subject.t;
  expires_at : Timestamp.t;
  phase : Phase;
  independent : list Opinion.t;
  binding : list Opinion.t;
  voted : gset str;
}.

Definition open_until (s : Subject.t) (expires_at : Timestamp.t) : t :=
  mk s expires_at Consulting [] [] ∅.
Definition open_ (s : Subject.t) : t := open_until s (Subject.default_expiry s).

Definition binding_supporters (c : t) : list str :=
  Opinion.author <$> filter (fun o => can_support_approval (Opinion.verdict o) = true) (binding c).

Definition set_phase (c : t) (p : Phase) : t :=
  mk (subject c) (expires_at c) p (independent c) (binding c) (voted c).
Definition push_independent (c : t) (o : Opinion.t) : t :=
  mk (subject c) (expires_at c) (phase c) (independent c ++ [o]) (binding c) (voted c).
Definition push_binding (c : t) (o : Opinion.t) : t :=
  mk (subject c) (expires_at c) (phase c) (independent c) (binding c ++ [o]) (voted c).
Definition insert_voted (c : t) (a : str) : t :=
  mk (subject c) (expires_at c) (phase c) (independent c) (binding c) ({[a]} ∪ voted c).

Section transitions.
Context {C : Type} `{Clock C}.

Definition close_consultation (c : t) (clock : C) : result TransitionError t :=
  if bool_decide (phase c = CollectingVotes) then Err ConsultationClosed
  else if negb (certainly_after clock (Subject.consultation_cutoff (subject c)))
  then Err CutoffNotReached
  else Ok (set_phase c CollectingVotes).

(** The opinion already held for this author at this stage. *)
Definition already (c : t) (o : Opinion.t) : bool :=
  existsb (fun h => bool_decide (Opinion.author h = Opinion.author o)
                    && bool_decide (Opinion.stage h = Opinion.stage o)) (independent c).

Definition accept (c : t) (o : Opinion.t) (clock : C) : result TransitionError t :=
  if negb (Subject.same_logical_case_and_revision (Opinion.subject o) (subject c))
  then Err DifferentSubject
  else if certainly_after clock (expires_at c) then Err Expired
  else
    match phase c, Opinion.stage o with
    | Consulting, (Independent | Consultation) =>
        if already c o then Ok c else Ok (push_independent c o)
    | Consulting, BindingSupport => Err WrongStageForPhase
    | CollectingVotes, (Independent | Consultation) => Err ConsultationClosed
    | CollectingVotes, BindingSupport =>
        if uncertain_about clock (expires_at c) then Err TimeUncertain
        else if bool_decide (Opinion.author o ∈ voted c) then Err AlreadyVoted
        else
          let c := insert_voted c (Opinion.author o) in
          let counts := bool_decide (Opinion.verdict o = Support) in
          if counts || bool_decide (Opinion.verdict o <> Support)
          then Ok (push_binding c o) else Ok c
    end.
End transitions.
End Case.

(** * The invariant *)

Definition speaker (o : Opinion.t) : str * Stage := (Opinion.author o, Opinion.stage o).

Record case_inv (c : Case.t) : Prop := {
  inv_opinions : Forall (fun o => Opinion.subject o = Case.subject c /\
    Opinion.stage o <> BindingSupport) (Case.independent c);
  inv_speakers : NoDup (speaker <$> Case.independent c);
  inv_votes : Forall (fun o => Opinion.subject o = Case.subject c /\
    Opinion.stage o = BindingSupport) (Case.binding c);
  inv_voters : NoDup (Opinion.author <$> Case.binding c);
  inv_voted : Case.voted c = list_to_set (Opinion.author <$> Case.binding c);
  inv_frozen : Case.phase c = Consulting -> Case.binding c = [];
}.

Section case_lemmas.
Context {C : Type} `{Clock C}.
Implicit Types (c : Case.t) (o : Opinion.t) (clock : C).

Lemma already_spec c o :
  Case.already c o = true <-> speaker o ∈ speaker <$> Case.independent c.
Proof.
  unfold Case.already. rewrite existsb_exists. split.
  - intros (h & Hin%list_elem_of_In & Heq).
    apply andb_true_iff in Heq as [Ha%bool_decide_eq_true Hs%bool_decide_eq_true].
    apply list_elem_of_fmap. exists h. unfold speaker. by rewrite Ha, Hs.
  - intros (h & Heq & Hin)%list_elem_of_fmap. exists h.
    split; [by apply list_elem_of_In|]. unfold speaker in Heq. simplify_eq.
    rewrite !bool_decide_eq_true_2 by congruence. done.
Qed.

(** A verdict is support or it is not, so every admitted vote is kept. *)
Lemma counts_always (v : Verdict) :
  bool_decide (v = Support) || bool_decide (v <> Support) = true.
Proof. by destruct v. Qed.

(** The four ways an utterance is admitted. *)
Inductive admitted c o clock : Case.t -> Prop :=
| admitted_opinion :
    Case.phase c = Consulting -> Opinion.stage o <> BindingSupport ->
    speaker o ∉ speaker <$> Case.independent c ->
    admitted c o clock (Case.push_independent c o)
| admitted_repeat :
    Case.phase c = Consulting -> Opinion.stage o <> BindingSupport ->
    speaker o ∈ speaker <$> Case.independent c ->
    admitted c o clock c
| admitted_vote :
    Case.phase c = CollectingVotes -> Opinion.stage o = BindingSupport ->
    certainly_before clock (Case.expires_at c) = true ->
    Opinion.author o ∉ Case.voted c ->
    admitted c o clock (Case.push_binding (Case.insert_voted c (Opinion.author o)) o).

Lemma accept_ok c o clock c' :
  Case.accept c o clock = Ok c' <->
  Opinion.subject o = Case.subject c /\
  certainly_after clock (Case.expires_at c) = false /\ admitted c o clock c'.
Proof.
  unfold Case.accept, Subject.same_logical_case_and_revision.
  case_bool_decide as Hs; simpl; [|naive_solver].
  destruct (certainly_after clock _) eqn:Ha; [naive_solver|]. split.
  - destruct (Case.phase c) eqn:Hp, (Opinion.stage o) eqn:Ho; try done.
    1,2: destruct (Case.already c o) eqn:Hal; intros; simplify_eq;
      (split_and!; [done..|]); [apply admitted_repeat|apply admitted_opinion]; try congruence;
      try (by apply already_spec); intros Hin%already_spec; congruence.
    destruct (uncertain_about clock _) eqn:Hu; [done|].
    apply not_uncertain in Hu as [|Hb]; [congruence|].
    case_bool_decide; [done|]. rewrite counts_always. intros; simplify_eq.
    split_and!; [done..|]. by apply admitted_vote.
  - intros (_ & _ & Had). destruct Had as [Hp Ho Hal|Hp Ho Hal|Hp Ho Hb Hv].
    + rewrite Hp. destruct (Case.already c o) eqn:E; [by apply already_spec in E|].
      by destruct (Opinion.stage o).
    + rewrite Hp. apply already_spec in Hal. rewrite Hal. by destruct (Opinion.stage o).
    + rewrite Hp, Ho. unfold uncertain_about. rewrite Hb, andb_false_r.
      rewrite bool_decide_eq_false_2 by done. by rewrite counts_always.
Qed.

Lemma close_ok c clock c' :
  Case.close_consultation c clock = Ok c' <->
  Case.phase c = Consulting /\
  certainly_after clock (Subject.consultation_cutoff (Case.subject c)) = true /\
  c' = Case.set_phase c CollectingVotes.
Proof.
  unfold Case.close_consultation. case_bool_decide as Hp.
  { rewrite Hp. naive_solver. }
  destruct (certainly_after _ _) eqn:Ha; simpl; [|naive_solver].
  destruct (Case.phase c); naive_solver.
Qed.

Lemma case_inv_open s e : case_inv (Case.open_until s e).
Proof. constructor; simpl; try constructor; done. Qed.

Lemma case_inv_accept c o clock c' :
  case_inv c -> Case.accept c o clock = Ok c' -> case_inv c'.
Proof.
  intros [] (Hs & _ & Had)%accept_ok. destruct Had as [Hp Ho Hal|Hp Ho Hal|Hp Ho Hb Hv].
  - constructor; simpl; try done.
    + apply Forall_app_2; [done|]. by constructor.
    + rewrite fmap_app. apply NoDup_app. split_and!; [done| |apply NoDup_singleton].
      by intros x Hx ->%list_elem_of_singleton.
  - by constructor.
  - rewrite inv_voted0 in Hv. constructor; simpl; try done.
    + apply Forall_app_2; [done|]. by constructor.
    + rewrite fmap_app. apply NoDup_app. split_and!; [done| |apply NoDup_singleton].
      intros x Hx ->%list_elem_of_singleton. by apply Hv, elem_of_list_to_set.
    + rewrite fmap_app, list_to_set_app_L, inv_voted0. simpl. set_solver.
    + congruence.
Qed.

Lemma case_inv_close c clock c' :
  case_inv c -> Case.close_consultation c clock = Ok c' -> case_inv c'.
Proof. intros [] (Hp & _ & ->)%close_ok. by constructor. Qed.
End case_lemmas.

#[export] Hint Resolve case_inv_open case_inv_accept case_inv_close : lcq.

(** * The machine as a step relation *)

(** What can happen to a case: the clock passes a reading, or a frame arrives. *)
Inductive case_event :=
| EvClose (at_ : FixedClock.t)
| EvUtter (o : Opinion.t) (at_ : FixedClock.t).

(** A refusal leaves the case as it was: the code returns before it writes. *)
Definition case_apply (c : Case.t) (e : case_event) : Case.t * option TransitionError :=
  match match e with
        | EvClose at_ => Case.close_consultation c at_
        | EvUtter o at_ => Case.accept c o at_
        end with
  | Ok c' => (c', None)
  | Err err => (c, Some err)
  end.

Definition case_step (c c' : Case.t) : Prop := exists e, (case_apply c e).1 = c'.
Definition case_reach : Case.t -> Case.t -> Prop := rtc case_step.
(** A run over a list of events, with the refusals it tallies. *)
Definition case_run (c : Case.t) (es : list case_event) : Case.t * TransitionErrorCount.t :=
  fold_left (fun '(c, n) e =>
    let '(c', err) := case_apply c e in
    (c', match err with None => n | Some err => TransitionErrorCount.record n err end))
    es (c, TransitionErrorCount.default).

(** What one step can do to a case. *)
Inductive case_effect (c : Case.t) : Case.t -> Prop :=
| eff_none : case_effect c c
| eff_seal : Case.phase c = Consulting -> case_effect c (Case.set_phase c CollectingVotes)
| eff_opinion o :
    Case.phase c = Consulting -> Opinion.stage o <> BindingSupport ->
    Opinion.subject o = Case.subject c -> speaker o ∉ speaker <$> Case.independent c ->
    case_effect c (Case.push_independent c o)
| eff_vote o :
    Case.phase c = CollectingVotes -> Opinion.stage o = BindingSupport ->
    Opinion.subject o = Case.subject c -> Opinion.author o ∉ Case.voted c ->
    case_effect c (Case.push_binding (Case.insert_voted c (Opinion.author o)) o).

Section reach.
Lemma case_step_effect c c' : case_step c c' -> case_effect c c'.
Proof.
  intros [[at_|o at_] <-]; unfold case_apply.
  - destruct (Case.close_consultation c at_) eqn:Hc; simpl; [|constructor].
    apply close_ok in Hc as (Hp & _ & ->). by constructor.
  - destruct (Case.accept c o at_) eqn:Hc; simpl; [|constructor].
    apply accept_ok in Hc as (Hs & _ & []); by constructor.
Qed.

Lemma case_inv_step c c' : case_step c c' -> case_inv c -> case_inv c'.
Proof.
  intros [[at_|o at_] <-] Hi; unfold case_apply.
  - destruct (Case.close_consultation c at_) eqn:Hc; simpl; eauto with lcq.
  - destruct (Case.accept c o at_) eqn:Hc; simpl; eauto with lcq.
Qed.
Lemma case_inv_reach c c' : case_reach c c' -> case_inv c -> case_inv c'.
Proof. induction 1; eauto using case_inv_step. Qed.

Lemma case_run_app es1 es2 c :
  case_run c (es1 ++ es2) =
  fold_left (fun '(c, n) e =>
    let '(c', err) := case_apply c e in
    (c', match err with None => n | Some err => TransitionErrorCount.record n err end))
    es2 (case_run c es1).
Proof. apply fold_left_app. Qed.

Lemma case_run_reach c es : case_reach c (case_run c es).1.
Proof.
  induction es as [|e es IH] using rev_ind; [constructor|].
  rewrite case_run_app. destruct (case_run c es) as [c1 n1]. cbn in *.
  destruct (case_apply c1 e) as [c2 err] eqn:He. simpl.
  eapply rtc_r; [exact IH|]. exists e. by rewrite He.
Qed.

(** Once votes are collected, the consulted set is frozen and votes only add up. *)
Lemma case_frozen c c' :
  case_reach c c' -> Case.phase c = CollectingVotes ->
  Case.phase c' = CollectingVotes /\ Case.independent c' = Case.independent c /\
  (Case.binding c `prefix_of` Case.binding c').
Proof.
  induction 1 as [c|c c1 c' Hstep _ IH]; intros Hp; [done|].
  apply case_step_effect in Hstep.
  assert (Case.phase c1 = CollectingVotes /\ Case.independent c1 = Case.independent c /\
    Case.binding c `prefix_of` Case.binding c1) as (Hp1 & Hi1 & Hb1).
  { destruct Hstep; simpl; try congruence; split_and!; try done. by apply prefix_app_r. }
  destruct (IH Hp1) as (? & ? & ?). split_and!; [done|congruence|]. by etrans.
Qed.
End reach.

(** * The contract: a ballot box *)

#[global] Instance Stage_countable : Countable Stage.
Proof.
  refine (inj_countable' stage_code (fun z => default Independent (stage_of z)) _).
  by intros [].
Defined.

Module Box.
(** Opinions by speaker while open; sealed; then one ballot per author. *)
Record t := mk {
  sealed : bool;
  opinions : gmap (str * Stage) Verdict;
  ballots : gmap str Verdict;
}.
Definition empty : t := mk false ∅ ∅.

Inductive step (b : t) : t -> Prop :=
| stutter : step b b
| seal : sealed b = false -> step b (mk true (opinions b) (ballots b))
| opine a s v : sealed b = false -> s <> BindingSupport -> opinions b !! (a, s) = None ->
    step b (mk false (<[(a, s) := v]> (opinions b)) (ballots b))
| cast a v : sealed b = true -> ballots b !! a = None ->
    step b (mk true (opinions b) (<[a := v]> (ballots b))).
Definition run : t -> t -> Prop := rtc step.

Definition supporters (b : t) : gset str :=
  dom (filter (fun av => av.2 = Support) (ballots b)).

(** A ballot, once cast, is never replaced or removed. *)
Lemma ballots_stable b b' : run b b' -> ballots b ⊆ ballots b'.
Proof.
  induction 1 as [b|b b1 b' Hstep _ IH]; [done|]. etrans; [|exact IH].
  destruct Hstep; simpl; try done. by apply insert_subseteq.
Qed.
End Box.
(** The abstraction: what a case holds, as a box. *)
Definition box_of (c : Case.t) : Box.t :=
  Box.mk (bool_decide (Case.phase c = CollectingVotes))
    (list_to_map ((fun o => (speaker o, Opinion.verdict o)) <$> Case.independent c))
    (list_to_map ((fun o => (Opinion.author o, Opinion.verdict o)) <$> Case.binding c)).

Section refinement.
Lemma list_to_map_snoc `{Countable K} {A} (l : list (K * A)) k x :
  k ∉ l.*1 -> (list_to_map (l ++ [(k, x)]) : gmap K A) = <[k := x]> (list_to_map l).
Proof.
  intros Hk. rewrite list_to_map_app. simpl.
  rewrite <- insert_union_r by (by apply not_elem_of_list_to_map_1).
  by rewrite (right_id_L ∅ (∪)).
Qed.
Lemma fst_pairs {A B D} (f : A -> B) (g : A -> D) (l : list A) :
  ((fun o => (f o, g o)) <$> l).*1 = f <$> l.
Proof. rewrite <- list_fmap_compose. by apply list_fmap_ext. Qed.

Lemma list_to_map_push `{Countable K} {A B} (f : A -> K) (g : A -> B) l o :
  f o ∉ f <$> l ->
  (list_to_map ((fun o => (f o, g o)) <$> (l ++ [o])) : gmap K B)
  = <[f o := g o]> (list_to_map ((fun o => (f o, g o)) <$> l)).
Proof. intros. rewrite fmap_app. apply list_to_map_snoc. by rewrite fst_pairs. Qed.

Lemma box_of_effect c c' :
  case_inv c -> case_effect c c' -> Box.step (box_of c) (box_of c').
Proof.
  intros [] Heff. unfold box_of. destruct Heff as [|Hp|o Hp Ho Hs Hn|o Hp Ho Hs Hn]; simpl.
  - constructor.
  - rewrite Hp. apply (Box.seal (Box.mk _ _ _)). done.
  - rewrite Hp, list_to_map_push by done.
    by apply (Box.opine (Box.mk _ _ _)); [| |apply not_elem_of_list_to_map_1; rewrite fst_pairs].
  - rewrite inv_voted0, elem_of_list_to_set in Hn. rewrite Hp, list_to_map_push by done.
    apply (Box.cast (Box.mk _ _ _)); [done|]. simpl.
    apply not_elem_of_list_to_map_1. by rewrite fst_pairs.
Qed.

Lemma box_simulation c c' :
  case_inv c -> case_reach c c' -> Box.run (box_of c) (box_of c').
Proof.
  intros Hi Hr. induction Hr as [c|c c1 c' Hs _ IH]; [constructor|].
  eapply rtc_l; [|apply IH; by eapply case_inv_step].
  apply box_of_effect; [done|]. by apply case_step_effect.
Qed.

Lemma box_supporters c :
  case_inv c -> Box.supporters (box_of c) = list_to_set (Case.binding_supporters c).
Proof.
  intros []. apply set_eq. intros a. unfold Box.supporters.
  rewrite elem_of_dom, elem_of_list_to_set. unfold is_Some.
  setoid_rewrite map_lookup_filter_Some. unfold box_of; simpl. split.
  - intros (v & Hv & ->). apply elem_of_list_to_map_2, list_elem_of_fmap in Hv as (o & Ho & Hin).
    injection Ho as -> Hv. apply list_elem_of_fmap. exists o. split; [done|].
    apply list_elem_of_filter. split; [|done]. by rewrite <- Hv.
  - intros (o & -> & (Hv & Hin)%list_elem_of_filter)%list_elem_of_fmap.
    exists Support. split; [|done]. apply elem_of_list_to_map_1; [by rewrite fst_pairs|].
    apply list_elem_of_fmap. exists o. split; [|done]. by destruct (Opinion.verdict o).
Qed.

Lemma supporters_nodup c : case_inv c -> NoDup (Case.binding_supporters c).
Proof.
  intros []. unfold Case.binding_supporters.
  eapply sublist_NoDup; [exact inv_voters0|]. apply fmap_sublist, sublist_filter.
Qed.
End refinement.

(** * The properties *)

(** C5: every run of the machine, from the moment a case is opened, is a run of the
    ballot box, and the supporters it reports are the box's, each once. *)
Theorem case_refines_ballot_box (s : Subject.t) (e : Timestamp.t) (es : list case_event) :
  let c := (case_run (Case.open_until s e) es).1 in
  Box.run Box.empty (box_of c) /\
  Box.supporters (box_of c) = list_to_set (Case.binding_supporters c) /\
  NoDup (Case.binding_supporters c) /\ case_inv c.
Proof.
  intros c. pose proof (case_run_reach (Case.open_until s e) es) as Hr.
  assert (case_inv c) as Hi by (eapply case_inv_reach; eauto with lcq).
  split_and!; [|by apply box_supporters|by apply supporters_nodup|done].
  by apply (box_simulation (Case.open_until s e)); [auto with lcq|].
Qed.

(** Consultation is closed for good: whatever arrives later, the consulted
    opinions do not change, the phase does not go back and no vote is lost. *)
Theorem consultation_frozen (c : Case.t) (es1 es2 : list case_event) :
  Case.phase (case_run c es1).1 = CollectingVotes ->
  Case.phase (case_run c (es1 ++ es2)).1 = CollectingVotes /\
  Case.independent (case_run c (es1 ++ es2)).1 = Case.independent (case_run c es1).1 /\
  Case.binding (case_run c es1).1 `prefix_of` Case.binding (case_run c (es1 ++ es2)).1.
Proof.
  intros Hp. apply case_frozen; [|done]. rewrite case_run_app.
  destruct (case_run c es1) as [c1 n1]. clear Hp. revert c1 n1; simpl.
  induction es2 as [|e es2 IH]; intros c1 n1; simpl; [constructor|].
  destruct (case_apply c1 e) as [c2 err] eqn:He.
  eapply rtc_l; [|apply IH]. exists e. by rewrite He.
Qed.

Definition example_subject : Subject.t :=
  Subject.mk (lit "mission") (lit "evt-1") 0 (replicate 32 34) (Timestamp.from_secs 1000000).
Definition at_secs (s : Z) : FixedClock.t := FixedClock.new (Timestamp.from_secs (1000000 + s)).
Definition utter (a : str) (st : Stage) (v : Verdict) (t : Z) : case_event :=
  EvUtter (Opinion.new a example_subject st v) (at_secs t).

Lemma consultation_frozen_witness :
  Case.independent (case_run (Case.open_ example_subject)
    ([utter (lit "a") Independent Support 1; EvClose (at_secs 331)]
     ++ [utter (lit "b") Independent Support 2; utter (lit "a") BindingSupport Support 340])).1
  = [Opinion.new (lit "a") example_subject Independent Support].
Proof.
  refine (eq_trans (proj1 (proj2 (consultation_frozen (Case.open_ example_subject)
    [utter (lit "a") Independent Support 1; EvClose (at_secs 331)]
    [utter (lit "b") Independent Support 2; utter (lit "a") BindingSupport Support 340] _))) _);
    vm_compute; reflexivity.
Defined.

(** What [accept] answers, condition by condition and in the order that decides. *)
Definition accept_verdict (c : Case.t) (o : Opinion.t) (now : FixedClock.t) : option TransitionError :=
  if decide (Opinion.subject o <> Case.subject c) then Some DifferentSubject
  else if certainly_after now (Case.expires_at c) then Some Expired
  else match Case.phase c, stage_is_binding (Opinion.stage o) with
       | Consulting, true => Some WrongStageForPhase
       | Consulting, false => None
       | CollectingVotes, false => Some ConsultationClosed
       | CollectingVotes, true =>
           if negb (certainly_before now (Case.expires_at c)) then Some TimeUncertain
           else if decide (Opinion.author o ∈ Case.voted c) then Some AlreadyVoted else None
       end.

(** Every branch of [accept], errors included, and a refusal changes nothing. *)
Theorem accept_total (c : Case.t) (o : Opinion.t) (now : FixedClock.t) :
  (case_apply c (EvUtter o now)).2 = accept_verdict c o now /\
  (accept_verdict c o now <> None -> (case_apply c (EvUtter o now)).1 = c).
Proof.
  unfold case_apply, accept_verdict.
  destruct (decide (Opinion.subject o <> Case.subject c)) as [Hs|Hs%dec_stable].
  { unfold Case.accept, Subject.same_logical_case_and_revision.
    by rewrite bool_decide_eq_false_2. }
  destruct (certainly_after now _) eqn:Ha.
  { unfold Case.accept, Subject.same_logical_case_and_revision.
    by rewrite bool_decide_eq_true_2, Ha. }
  unfold Case.accept, Subject.same_logical_case_and_revision.
  rewrite bool_decide_eq_true_2, Ha by done. simpl.
  destruct (Case.phase c), (Opinion.stage o); simpl; try done; try by destruct (Case.already c o).
  unfold uncertain_about. rewrite Ha. simpl.
  destruct (certainly_before now _); simpl; [|done].
  case_bool_decide; destruct (decide _); try done.
  by rewrite counts_always.
Qed.

Lemma accept_total_witness :
  (case_apply (Case.open_ example_subject) (utter (lit "a") BindingSupport Support 5)).1
  = Case.open_ example_subject.
Proof.
  refine (proj2 (accept_total _ (Opinion.new (lit "a") example_subject BindingSupport Support)
    (at_secs 5)) _). vm_compute. discriminate.
Defined.

(** The tally a report shows accounts for every refusal, and for nothing else. *)
Theorem refusals_all_counted (c : Case.t) (es : list case_event) :
  TransitionErrorCount.total (case_run c es).2 =
  len (omap id (imap (fun i e => (case_apply (case_run c (take i es)).1 e).2) es)).
Proof.
  induction es as [|e es IH] using rev_ind; [done|].
  rewrite case_run_app. destruct (case_run c es) as [c1 n1] eqn:Hrun. simpl in *.
  rewrite imap_app, omap_app. unfold len in *. rewrite length_app. simpl.
  rewrite take_app_le, Nat.add_0_r, take_ge by lia.
  replace (imap _ es) with
    (imap (fun i e0 => (case_apply (case_run c (take i es)).1 e0).2) es).
  2:{ apply imap_ext. intros i x Hi%lookup_lt_Some. by rewrite take_app_le by lia. }
  rewrite Hrun. simpl. destruct (case_apply c1 e) as [c2 [err|]]; simpl;
    rewrite ?TransitionErrorCount.total_record; lia.
Qed.

(** When the binding stage opens on the opener's clock, every honest member is
    already certain that consultation is over, and so can have closed it. *)
Theorem binding_stage_finds_all_closed (c : Case.t) (opener member : FixedClock.t) :
  honest_pair opener member ->
  Case.phase c = Consulting ->
  Timestamp.as_secs (Subject.started_at (Case.subject c)) + BINDING_STAGE_OPENS_SECONDS
    <= Timestamp.as_secs (now opener) ->
  Case.close_consultation c member = Ok (Case.set_phase c CollectingVotes).
Proof.
  intros (Ho & Hm & Habs) Hp Hopen. apply close_ok. split_and!; [done| |done].
  apply certainly_after_spec; [done|].
  unfold Subject.consultation_cutoff, Timestamp.plus_secs; simpl.
  unfold BINDING_STAGE_OPENS_SECONDS, CONSULTATION_CUTOFF_SECONDS, PHASE_SETTLE_SECONDS,
    MAX_CLOCK_SKEW_SECONDS, sat_add64 in *. lia.
Qed.

Lemma binding_stage_finds_all_closed_witness :
  is_ok (Case.close_consultation (Case.open_ example_subject) (at_secs 332)) = true.
Proof.
  rewrite (binding_stage_finds_all_closed (Case.open_ example_subject) (at_secs 362) (at_secs 332)).
  - reflexivity.
  - unfold honest_pair, Timestamp.wf, MAX_CLOCK_SKEW_SECONDS; cbn. width. lia.
  - reflexivity.
  - vm_compute. discriminate.
Defined.
