(* ===== verification/Replay.v ===== *)
(** The replay window of one sender (src/src/application/replay.rs): one bit per
    recent sequence, with the u64 shifts of the code.

    The abstraction is the set of sequences that count as seen; the window decides
    that set exactly on the last 64 sequences and refuses everything older. *)
From S2P Require Import Prelude.

Definition REPLAY_WINDOW : Z := 64.

Module ReplayWindow.
Record t := mk { highest : option Z; bits : Z }.

Definition new : t := mk None 0.
Definition resumed (highest : Z) : t := mk (Some highest) U64_MAX.

Definition seen (w : t) (sequence : Z) : bool :=
  match highest w with
  | None => false
  | Some h =>
      if h <? sequence then false
      else
        let back := h - sequence in
        if REPLAY_WINDOW <=? back then true
        else negb (Z.land (bits w) (wrap64 (Z.shiftl 1 back)) =? 0)
  end.

Definition mark (w : t) (sequence : Z) : t :=
  match highest w with
  | None => mk (Some sequence) 1
  | Some h =>
      if h <? sequence then
        let shift := sequence - h in
        let b := if REPLAY_WINDOW <=? shift then 0 else wrap64 (Z.shiftl (bits w) shift) in
        mk (Some sequence) (Z.lor b 1)
      else
        let back := h - sequence in
        if back <? REPLAY_WINDOW
        then mk (Some h) (Z.lor (bits w) (wrap64 (Z.shiftl 1 back)))
        else w
  end.
End ReplayWindow.

(** [w] remembers exactly the sequences of [M] inside its window. *)
Definition remembers (w : ReplayWindow.t) (M : Z -> Prop) : Prop :=
  match ReplayWindow.highest w with
  | None => forall s, ~ M s
  | Some h =>
      M h /\ (forall s, M s -> s <= h) /\
      (forall b, 0 <= b < REPLAY_WINDOW -> Z.testbit (ReplayWindow.bits w) b = true <-> M (h - b))
  end.

Section bit_lemmas.
Lemma wrap64_testbit z b : 0 <= b < 64 -> Z.testbit (wrap64 z) b = Z.testbit z b.
Proof. intros. unfold wrap64. by rewrite Z.mod_pow2_bits_low by lia. Qed.
Lemma bit_testbit k b : 0 <= k < 64 -> 0 <= b < 64 ->
  Z.testbit (wrap64 (Z.shiftl 1 k)) b = bool_decide (b = k).
Proof.
  intros. rewrite wrap64_testbit, Z.shiftl_1_l by lia.
  case_bool_decide; [subst; by rewrite Z.pow2_bits_true by lia|].
  by rewrite Z.pow2_bits_false by lia.
Qed.
(** The mask test of the code reads one bit. *)
Lemma mask_test z k : 0 <= k < 64 ->
  negb (Z.land z (wrap64 (Z.shiftl 1 k)) =? 0) = Z.testbit z k.
Proof.
  intros Hk. rewrite Z.shiftl_1_l. unfold wrap64.
  rewrite Z.mod_small by (split; [apply Z.pow_nonneg; lia|apply Z.pow_lt_mono_r; lia]).
  destruct (Z.testbit z k) eqn:Hb.
  - apply negb_true_iff, Z.eqb_neq. intros He.
    apply (f_equal (fun x => Z.testbit x k)) in He.
    by rewrite Z.land_spec, Hb, Z.pow2_bits_true, Z.bits_0 in He by lia.
  - apply negb_false_iff, Z.eqb_eq, Z.bits_inj'. intros b Hb0.
    rewrite Z.land_spec, Z.bits_0. destruct (decide (b = k)) as [->|]; [by rewrite Hb|].
    by rewrite Z.pow2_bits_false, andb_false_r by lia.
Qed.
Lemma one_testbit b : 0 <= b -> Z.testbit 1 b = bool_decide (b = 0).
Proof.
  intros. change 1 with (2 ^ 0). case_bool_decide; [subst; done|].
  by rewrite Z.pow2_bits_false by lia.
Qed.
End bit_lemmas.

Section window.
Import ReplayWindow.

Lemma remembers_new : remembers new (fun _ => False).
Proof. intros s []. Qed.
Lemma remembers_resumed h : remembers (resumed h) (fun s => s <= h).
Proof.
  split_and!; simpl; [lia|done|]. intros b Hb. unfold REPLAY_WINDOW in *.
  change U64_MAX with (Z.ones 64). rewrite Z.ones_spec_low by lia. split; [lia|done].
Qed.

Lemma seen_remembers w M s :
  remembers w M ->
  seen w s = true <->
  exists h, highest w = Some h /\ s <= h /\ (REPLAY_WINDOW <= h - s \/ M s).
Proof.
  unfold remembers, seen, REPLAY_WINDOW. destruct (highest w) as [h|]; [|naive_solver].
  intros (Hh & Hmax & Hbits). destruct (Z.ltb_spec h s).
  { split; [done|]. intros (h' & ? & ? & _). simplify_eq. lia. }
  destruct (Z.leb_spec 64 (h - s)) as [Hold|Hnew].
  { split; [|done]. intros _. exists h. split_and!; [done|lia|by left]. }
  rewrite mask_test, Hbits by lia. replace (h - (h - s)) with s by lia.
  split; [naive_solver lia|]. intros (h' & ? & ? & [|]); simplify_eq; [lia|done].
Qed.

Lemma mark_remembers w M s :
  remembers w M -> remembers (mark w s) (fun x => M x \/ x = s)
    \/ (exists h, highest w = Some h /\ REPLAY_WINDOW <= h - s /\ mark w s = w).
Proof.
  unfold remembers, mark. destruct (highest w) as [h|] eqn:Hw.
  2:{ intros Hn. left; simpl. split_and!; [by right|naive_solver lia|].
      intros b Hb. rewrite one_testbit, bool_decide_eq_true by lia.
      split; [intros ->; right; lia|]. intros [?%Hn|]; [done|lia]. }
  intros (Hh & Hmax & Hbits). destruct (Z.ltb_spec h s).
  - left; simpl. split_and!; [by right| |].
    { intros x [Hx%Hmax| ->]; lia. }
    intros b Hb. rewrite Z.lor_spec, orb_true_iff, one_testbit, bool_decide_eq_true by lia.
    unfold REPLAY_WINDOW in *. destruct (Z.leb_spec 64 (s - h)).
    + rewrite Z.bits_0. split; [intros [?| ->]; [done|right; lia]|].
      intros [Hm%Hmax|]; [lia|right; lia].
    + rewrite wrap64_testbit by lia. destruct (decide (b < s - h)).
      * rewrite Z.shiftl_spec_low by lia.
        split; [intros [?| ->]; [done|right; lia]|].
        intros [Hm%Hmax|]; [lia|right; lia].
      * rewrite Z.shiftl_spec, Hbits by lia.
        replace (h - (b - (s - h))) with (s - b) by lia.
        split; intros [?|?]; auto; [subst; right; lia|right; lia].
  - unfold REPLAY_WINDOW in *. destruct (Z.ltb_spec (h - s) 64).
    + left; simpl. split_and!; [by left|intros x [Hx%Hmax| ->]; lia|].
      intros b Hb. rewrite Z.lor_spec, orb_true_iff, Hbits, bit_testbit, bool_decide_eq_true by lia.
      split; intros [?|?]; auto; right; lia.
    + right. exists h. split_and!; [done|lia|done].
Qed.
End window.

(** A receiver's use of the window: refuse what is seen, admit and mark the rest.
    The result is the sequences admitted, in order. *)
Fixpoint admit_all (w : ReplayWindow.t) (ss : list Z) : list Z * ReplayWindow.t :=
  match ss with
  | [] => ([], w)
  | s :: ss =>
      if ReplayWindow.seen w s then admit_all w ss
      else let '(adm, w') := admit_all (ReplayWindow.mark w s) ss in (s :: adm, w')
  end.

Section admission.
Lemma mark_fresh w M s :
  remembers w M -> ReplayWindow.seen w s = false ->
  remembers (ReplayWindow.mark w s) (fun x => M x \/ x = s).
Proof.
  intros Hw Hs. destruct (mark_remembers w M s Hw) as [|(h & Hh & Hold & _)]; [done|].
  assert (ReplayWindow.seen w s = true); [|congruence].
  apply (seen_remembers w M s Hw). exists h. unfold REPLAY_WINDOW in *.
  split_and!; [done|lia|by left].
Qed.
Lemma seen_in w M s : remembers w M -> M s -> ReplayWindow.seen w s = true.
Proof.
  intros Hw Hs. apply (seen_remembers w M s Hw).
  unfold remembers in Hw. destruct (ReplayWindow.highest w) as [h|]; [|by apply Hw in Hs].
  exists h. destruct Hw as (_ & Hmax & _). auto.
Qed.

Lemma admit_all_spec w M ss :
  remembers w M ->
  NoDup (admit_all w ss).1 /\ (forall s, s ∈ (admit_all w ss).1 -> ~ M s) /\
  remembers (admit_all w ss).2 (fun x => M x \/ x ∈ (admit_all w ss).1).
Proof.
  revert w M; induction ss as [|s ss IH]; intros w M Hw; cbn [admit_all].
  { split_and!; [constructor|set_solver|]. revert Hw. unfold remembers. simpl.
    destruct (ReplayWindow.highest w); set_solver. }
  destruct (ReplayWindow.seen w s) eqn:Hs; [by apply IH|].
  pose proof (mark_fresh w M s Hw Hs) as Hm.
  specialize (IH _ _ Hm). destruct (admit_all (ReplayWindow.mark w s) ss) as [adm w'].
  simpl in *. destruct IH as (Hnd & Hnew & Hrem). split_and!.
  - apply NoDup_cons. split; [|done]. intros Hin. apply (Hnew s Hin). by right.
  - intros x [->|Hin]%elem_of_cons Hx.
    + rewrite (seen_in w M s Hw Hx) in Hs. done.
    + apply (Hnew x Hin). by left.
  - revert Hrem. unfold remembers. destruct (ReplayWindow.highest w'); set_solver.
Qed.
End admission.

(** * The properties *)

(** C16: the window refines the set of admitted sequences: nothing is admitted
    twice, an unseen sequence inside the window is never refused, and everything
    older than the window is. *)
Theorem window_refines_admitted_set (ss : list Z) :
  let '(adm, w) := admit_all ReplayWindow.new ss in
  NoDup adm /\
  (forall s, ReplayWindow.seen w s = true <->
     exists h, ReplayWindow.highest w = Some h /\ h ∈ adm /\ (forall x, x ∈ adm -> x <= h) /\
       s <= h /\ (REPLAY_WINDOW <= h - s \/ s ∈ adm)).
Proof.
  pose proof (admit_all_spec _ _ ss remembers_new) as (Hnd & _ & Hrem).
  destruct (admit_all ReplayWindow.new ss) as [adm w]; simpl in *. split; [done|]. intros s.
  rewrite (seen_remembers w _ s Hrem). unfold remembers in Hrem.
  destruct (ReplayWindow.highest w) as [h|]; [|naive_solver].
  destruct Hrem as ([[]|Hh] & Hmax & _). split.
  - intros (h' & [= <-] & Hle & Hor). exists h. split_and!; auto. naive_solver.
  - intros (h' & [= <-] & _ & _ & Hle & Hor). exists h. naive_solver.
Qed.

(** A window resumed from the highest sequence the journal recorded never
    admits again what was admitted before the restart. *)
Theorem restart_never_readmits (before after : list Z) (h : Z) :
  let '(adm1, w1) := admit_all ReplayWindow.new before in
  ReplayWindow.highest w1 = Some h ->
  let '(adm2, _) := admit_all (ReplayWindow.resumed h) after in
  NoDup (adm1 ++ adm2).
Proof.
  pose proof (admit_all_spec _ _ before remembers_new) as (Hnd1 & _ & Hrem).
  destruct (admit_all ReplayWindow.new before) as [adm1 w1]; simpl in *. intros Hh.
  pose proof (admit_all_spec _ _ after (remembers_resumed h)) as (Hnd2 & Hnew & _).
  destruct (admit_all (ReplayWindow.resumed h) after) as [adm2 w2]; simpl in *.
  unfold remembers in Hrem. rewrite Hh in Hrem. destruct Hrem as (_ & Hmax & _).
  apply NoDup_app. split_and!; [done| |done].
  intros s Hs Hin. apply (Hnew s Hin), Hmax. by right.
Qed.

Lemma restart_never_readmits_witness : NoDup ([3; 5; 4] ++ [6; 7]).
Proof.
  apply (restart_never_readmits [3; 5; 3; 4] [4; 6; 5; 7; 6] 5). reflexivity.
Defined.
