(* ===== verification/Budget.v ===== *)
(** The duty-cycle meter (src/src/application/budget.rs).  A [VecDeque] is a list
    whose head is the front; times and airtimes are u64 milliseconds. *)
From stdpp Require Import sorting.
From S2P Require Import Prelude.

Definition DUTY_CYCLE_BUDGET_MS : Z := 36000.
Definition DUTY_CYCLE_WINDOW_MS : Z := 3600000.

Definition duty_cycle_ok (used_ms next_ms : Z) : bool :=
  sat_add64 used_ms next_ms <=? DUTY_CYCLE_BUDGET_MS.

Lemma duty_cycle_ok_spec u n : duty_cycle_ok u n = true <-> u + n <= DUTY_CYCLE_BUDGET_MS.
Proof.
  unfold duty_cycle_ok, sat_add64, DUTY_CYCLE_BUDGET_MS, U64_MAX. rewrite Z.leb_le. lia.
Qed.

Module AirtimeBudget.
Record t := mk { sent : list (Z * Z); total_ms : Z }.
Definition new : t := mk [] 0.

(** The eviction loop: it stops at the first entry still inside the window. *)
Fixpoint evict_loop (horizon : Z) (sent : list (Z * Z)) (total : Z) : t :=
  match sent with
  | (at_, air) :: rest =>
      if horizon <=? at_ then mk sent total
      else evict_loop horizon rest (sat_sub total air)
  | [] => mk [] total
  end.
Definition evict (b : t) (now_ms : Z) : t :=
  evict_loop (sat_sub now_ms DUTY_CYCLE_WINDOW_MS) (sent b) (total_ms b).

Definition used_ms (b : t) (now_ms : Z) : t * Z :=
  let b := evict b now_ms in (b, total_ms b).
Definition allows (b : t) (now_ms air_ms : Z) : t * bool :=
  let b := evict b now_ms in (b, duty_cycle_ok (total_ms b) air_ms).
Definition charge (b : t) (now_ms air_ms : Z) : t :=
  mk (sent b ++ [(now_ms, air_ms)]) (sat_add64 (total_ms b) air_ms).
Definition with_prior (prior_ms : Z) : t :=
  if 0 <? prior_ms then charge new 0 prior_ms else new.
Definition transmit (b : t) (now_ms air_ms : Z) : t * bool :=
  let '(b, ok) := allows b now_ms air_ms in
  if ok then (charge b now_ms air_ms, true) else (b, false).
End AirtimeBudget.

(** A transmitter's hour: requests in time order, and the frames that went out. *)
Fixpoint transmit_all (b : AirtimeBudget.t) (reqs : list (Z * Z)) : list (Z * Z) :=
  match reqs with
  | [] => []
  | (now_ms, air_ms) :: reqs =>
      let '(b', ok) := AirtimeBudget.transmit b now_ms air_ms in
      if ok then (now_ms, air_ms) :: transmit_all b' reqs else transmit_all b' reqs
  end.

(** Airtime spent by [log] in the closed window of one hour from [t]. *)
Definition spent_in (t : Z) (log : list (Z * Z)) : Z :=
  zsum (snd <$> filter (fun e => t <= e.1 <= t + DUTY_CYCLE_WINDOW_MS) log).

Definition request_ok (e : Z * Z) : Prop := is_u64 e.1 /\ is_u64 e.2.

(** The meter holds exactly the recent end of the log, and its sum. *)
Definition metered (b : AirtimeBudget.t) (log : list (Z * Z)) (now_ms : Z) : Prop :=
  exists old, log = old ++ AirtimeBudget.sent b /\
    Forall (fun e => e.1 < now_ms - DUTY_CYCLE_WINDOW_MS) old /\
    AirtimeBudget.total_ms b = zsum (snd <$> AirtimeBudget.sent b) /\
    AirtimeBudget.total_ms b <= DUTY_CYCLE_BUDGET_MS.

Section meter.
Import AirtimeBudget.

Lemma evict_loop_spec horizon s total :
  Forall request_ok s -> total = zsum (snd <$> s) ->
  exists gone, s = gone ++ sent (evict_loop horizon s total) /\
    Forall (fun e => e.1 < horizon) gone /\
    (forall e rest, sent (evict_loop horizon s total) = e :: rest -> horizon <= e.1) /\
    total_ms (evict_loop horizon s total)
      = zsum (snd <$> sent (evict_loop horizon s total)) /\
    total_ms (evict_loop horizon s total) <= total.
Proof.
  intros Hs; revert total; induction Hs as [|[at_ air] s [Ha Hair] Hs IH]; intros total ->.
  { exists []. simpl. split_and!; try done. }
  cbn [evict_loop]. destruct (Z.leb_spec horizon at_).
  { exists []. simpl. split_and!; try done. naive_solver. }
  rewrite fmap_cons, zsum_cons. cbn [snd].
  assert (0 <= zsum (snd <$> s)) as Hnn.
  { apply zsum_nonneg, Forall_fmap. eapply Forall_impl; [exact Hs|].
    intros e [_ He]. simpl. width. lia. }
  simpl in Hair. assert (sat_sub (air + zsum (snd <$> s)) air = zsum (snd <$> s)) as ->.
  { unfold sat_sub. width. lia. }
  destruct (IH _ eq_refl) as (gone & Hg & Hgone & Hfront & Htot & Hle).
  exists ((at_, air) :: gone). split_and!; try done.
  - simpl. by f_equal.
  - by constructor.
  - width. lia.
Qed.

Lemma metered_evict b log now0 now1 :
  metered b log now0 -> now0 <= now1 -> 0 <= now1 -> Forall request_ok log ->
  metered (evict b now1) log now1.
Proof.
  intros (old & -> & Hold & Htot & Hle) Hn H0 [Ho Hs]%Forall_app.
  destruct (evict_loop_spec (sat_sub now1 DUTY_CYCLE_WINDOW_MS) (sent b) (total_ms b) Hs Htot)
    as (gone & Hg & Hgone & _ & Htot' & Hle').
  exists (old ++ gone). unfold evict. split_and!.
  - by rewrite Hg, <- app_assoc at 1.
  - apply Forall_app_2.
    + eapply Forall_impl; [exact Hold|]. simpl. lia.
    + rewrite Hg in Hs. apply Forall_app in Hs as [Hs _].
      apply Forall_forall. intros e He. rewrite Forall_forall in Hgone, Hs.
      specialize (Hgone e He). destruct (Hs e He) as [Hu _]. unfold sat_sub in Hgone. width. lia.
  - done.
  - lia.
Qed.

Lemma metered_transmit b log now0 now1 air :
  metered b log now0 -> now0 <= now1 -> Forall request_ok log -> request_ok (now1, air) ->
  let '(b', ok) := transmit b now1 air in
  metered b' (if ok then log ++ [(now1, air)] else log) now1.
Proof.
  intros Hm Hn Hlog [Hu Ha]. cbn [fst snd] in *.
  assert (H0 : 0 <= now1) by (width; lia).
  destruct (metered_evict b log now0 now1 Hm Hn H0 Hlog) as (old & Hl & Hold & Htot & Hle).
  unfold transmit, allows. destruct (duty_cycle_ok _ _) eqn:Hok.
  - apply duty_cycle_ok_spec in Hok.
    exists old. unfold charge; cbn [sent total_ms].
    assert (sat_add64 (total_ms (evict b now1)) air = total_ms (evict b now1) + air) as ->.
    { unfold sat_add64, DUTY_CYCLE_BUDGET_MS, U64_MAX in *. lia. }
    split_and!; [by rewrite Hl, <- app_assoc at 1|done| |done].
    rewrite fmap_app, zsum_app, <- Htot. cbn. lia.
  - by exists old.
Qed.

Lemma transmit_ok b now1 air log :
  metered (evict b now1) log now1 ->
  (transmit b now1 air).2 = true <->
  zsum (snd <$> sent (evict b now1)) + air <= DUTY_CYCLE_BUDGET_MS.
Proof.
  intros (old & _ & _ & Htot & _). rewrite <- Htot, <- duty_cycle_ok_spec.
  unfold transmit, allows. by destruct (duty_cycle_ok _ _).
Qed.
End meter.

(** Requests in time order, as the transmitter's clock supplies them. *)
Fixpoint in_order (now_ms : Z) (reqs : list (Z * Z)) : Prop :=
  match reqs with
  | [] => True
  | (t, _) :: reqs => now_ms <= t /\ in_order t reqs
  end.

Section hour.
Lemma spent_in_old t now (old s : list (Z * Z)) :
  Forall (fun e => e.1 < now - DUTY_CYCLE_WINDOW_MS) old -> now <= t + DUTY_CYCLE_WINDOW_MS ->
  Forall request_ok s ->
  spent_in t (old ++ s) <= zsum (snd <$> s).
Proof.
  intros Hold Hnow Hs. unfold spent_in. rewrite filter_app, fmap_app, zsum_app.
  assert (filter (fun e : Z * Z => t <= e.1 <= t + DUTY_CYCLE_WINDOW_MS) old = []) as ->.
  { induction Hold as [|e old He _ IH]; [done|].
    rewrite filter_cons_False by lia. done. }
  simpl. clear Hold. induction Hs as [|e s [_ He] _ IH]; [done|].
  rewrite fmap_cons, zsum_cons. rewrite filter_cons.
  case_decide; [rewrite fmap_cons, zsum_cons|]; width; lia.
Qed.

Lemma spent_in_snoc t log now air :
  ~ (t <= now <= t + DUTY_CYCLE_WINDOW_MS) -> spent_in t (log ++ [(now, air)]) = spent_in t log.
Proof.
  intros Hn. unfold spent_in. rewrite filter_app, (filter_cons_False _ _ []) by done.
  by rewrite filter_nil, app_nil_r.
Qed.

(** Every hour the meter's now lies in is within the budget. *)
Lemma metered_hour b log now t :
  metered b log now -> Forall request_ok log -> now <= t + DUTY_CYCLE_WINDOW_MS ->
  spent_in t log <= DUTY_CYCLE_BUDGET_MS.
Proof.
  intros (old & -> & Hold & Htot & Hle) [_ Hs]%Forall_app Hn.
  etrans; [by apply (spent_in_old t now)|by rewrite <- Htot].
Qed.
Lemma transmit_all_legal b log now0 reqs t :
  metered b log now0 -> Forall request_ok log -> Forall request_ok reqs ->
  in_order now0 reqs -> spent_in t log <= DUTY_CYCLE_BUDGET_MS ->
  spent_in t (log ++ transmit_all b reqs) <= DUTY_CYCLE_BUDGET_MS.
Proof.
  revert b log now0; induction reqs as [|[now1 air] reqs IH]; intros b log now0 Hm Hl Hr Hord Ht.
  { simpl. by rewrite app_nil_r. }
  inversion_clear Hr as [|?? Hreq Hr']. destruct Hord as [Hn Hord]. cbn [transmit_all].
  pose proof (metered_transmit b log now0 now1 air Hm Hn Hl Hreq) as Hm'.
  destruct (AirtimeBudget.transmit b now1 air) as [b' ok]. destruct ok.
  2:{ by apply (IH b' log now1). }
  replace (log ++ (now1, air) :: transmit_all b' reqs)
    with ((log ++ [(now1, air)]) ++ transmit_all b' reqs) by (by rewrite <- app_assoc).
  apply (IH b' _ now1); try done.
  { apply Forall_app_2; [done|by constructor]. }
  destruct (decide (t <= now1 <= t + DUTY_CYCLE_WINDOW_MS)) as [Hin|Hout].
  - apply (metered_hour b' _ now1); [done| |lia]. apply Forall_app_2; [done|by constructor].
  - by rewrite spent_in_snoc.
Qed.

Lemma metered_new now : metered AirtimeBudget.new [] now.
Proof. exists []. split_and!; [done|constructor|done|]. unfold DUTY_CYCLE_BUDGET_MS; simpl; lia. Qed.
Lemma metered_prior prior :
  0 < prior <= DUTY_CYCLE_BUDGET_MS -> metered (AirtimeBudget.with_prior prior) [(0, prior)] 0.
Proof.
  intros [H0 H1]. unfold AirtimeBudget.with_prior. destruct (Z.ltb_spec 0 prior); [|lia].
  exists []. unfold AirtimeBudget.charge; simpl. unfold sat_add64, DUTY_CYCLE_BUDGET_MS in *.
  width. split_and!; [done|constructor|lia|lia].
Qed.
End hour.

(** A log in time order, as a run leaves it. *)
Definition time_ordered : list (Z * Z) -> Prop := StronglySorted (fun e1 e2 => e1.1 <= e2.1).

Section recent.
Lemma time_ordered_app l k : time_ordered (l ++ k) -> time_ordered k.
Proof. induction l as [|e l IH]; [done|]. intros Hs. inversion_clear Hs. by apply IH. Qed.

Lemma filter_old h (l : list (Z * Z)) :
  Forall (fun e => e.1 < h) l -> filter (fun e : Z * Z => h <= e.1) l = [].
Proof. induction 1; [done|]. rewrite filter_cons_False by lia. done. Qed.
Lemma filter_recent h (l : list (Z * Z)) :
  Forall (fun e => h <= e.1) l -> filter (fun e : Z * Z => h <= e.1) l = l.
Proof. induction 1 as [|e l He _ IH]; [done|]. rewrite filter_cons_True by lia. by rewrite IH. Qed.

Lemma recent_filter b log now0 now :
  metered b log now0 -> now0 <= now -> 0 <= now -> Forall request_ok log -> time_ordered log ->
  filter (fun e => sat_sub now DUTY_CYCLE_WINDOW_MS <= e.1) log
  = AirtimeBudget.sent (AirtimeBudget.evict b now).
Proof.
  intros (old & -> & Hold & Htot & _) Hn H0 [_ Hl]%Forall_app Hord.
  destruct (evict_loop_spec (sat_sub now DUTY_CYCLE_WINDOW_MS) (AirtimeBudget.sent b)
    (AirtimeBudget.total_ms b) Hl Htot) as (gone & Hg & Hgone & Hfront & _).
  unfold AirtimeBudget.evict. rewrite Hg at 1.
  apply time_ordered_app in Hord. rewrite Hg in Hord. apply time_ordered_app in Hord.
  rewrite !filter_app, (filter_old _ gone), (filter_old _ old) by
    first [done | eapply Forall_impl; [exact Hold|]; simpl; unfold sat_sub; lia].
  simpl. apply filter_recent.
  destruct (AirtimeBudget.sent (AirtimeBudget.evict_loop _ _ _)) as [|e rest]; [constructor|].
  specialize (Hfront e rest eq_refl). inversion_clear Hord as [|?? _ Hrest].
  constructor; [done|]. eapply Forall_impl; [exact Hrest|]. simpl. lia.
Qed.
End recent.

(** * The properties *)

(** Whatever a node asks to send, what goes out in any hour is within the legal
    36 seconds, also when most of the hour was spent before. *)
Theorem duty_cycle_never_exceeded (prior : Z) (reqs : list (Z * Z)) (t : Z) :
  0 < prior <= DUTY_CYCLE_BUDGET_MS -> Forall request_ok reqs -> in_order 0 reqs ->
  spent_in t (transmit_all AirtimeBudget.new reqs) <= DUTY_CYCLE_BUDGET_MS /\
  spent_in t ((0, prior) :: transmit_all (AirtimeBudget.with_prior prior) reqs)
    <= DUTY_CYCLE_BUDGET_MS.
Proof.
  intros Hp Hr Hord. split.
  - apply (transmit_all_legal _ [] 0); [apply metered_new|constructor|done|done|]. unfold spent_in, DUTY_CYCLE_BUDGET_MS; cbn; lia.
  - apply (transmit_all_legal _ [(0, prior)] 0); [by apply metered_prior| |done|done|].
    + constructor; [|constructor]. unfold request_ok, DUTY_CYCLE_BUDGET_MS in *; simpl. width. lia.
    + unfold spent_in. rewrite filter_cons, filter_nil.
      case_decide; cbn; unfold DUTY_CYCLE_BUDGET_MS in *; lia.
Qed.

Lemma duty_cycle_never_exceeded_witness :
  spent_in 0 (transmit_all AirtimeBudget.new
    [(0, 20000); (1000, 15000); (2000, 5000); (3600001, 5000); (3600002, 30000)]) <= 36000.
Proof.
  apply (duty_cycle_never_exceeded 30000
    [(0, 20000); (1000, 15000); (2000, 5000); (3600001, 5000); (3600002, 30000)] 0).
  - vm_compute. split; [done|discriminate].
  - repeat constructor; vm_compute; discriminate.
  - simpl. lia.
Defined.

(** And nothing lawful is refused: a frame is turned away exactly when the hour
    ending now would go over. *)
Theorem transmit_refuses_only_over_budget (b : AirtimeBudget.t) (log : list (Z * Z))
    (now0 now air : Z) :
  metered b log now0 -> now0 <= now -> 0 <= now -> Forall request_ok log -> time_ordered log ->
  (AirtimeBudget.transmit b now air).2 = true <->
  zsum (snd <$> filter (fun e => sat_sub now DUTY_CYCLE_WINDOW_MS <= e.1) log) + air
    <= DUTY_CYCLE_BUDGET_MS.
Proof.
  intros Hm Hn H0 Hl Hord.
  rewrite (transmit_ok b now air log) by (by eapply metered_evict).
  by rewrite (recent_filter b log now0 now).
Qed.

Lemma transmit_refuses_only_over_budget_witness :
  (AirtimeBudget.transmit (AirtimeBudget.mk [(0, 20000); (1000, 15000)] 35000) 3600001 5000).2 = true.
Proof.
  apply (transmit_refuses_only_over_budget _ [(0, 20000); (1000, 15000)] 1000 3600001 5000).
  - exists []. split_and!; [done|constructor|done|vm_compute; discriminate].
  - lia.
  - lia.
  - repeat constructor; vm_compute; discriminate.
  - repeat constructor; simpl; lia.
  - vm_compute. discriminate.
Defined.
