(* ===== verification/Journal.v ===== *)
(** The safety journal's contract (src/src/application/journal.rs) and the key a
    vote lock is stored under (src/src/infrastructure/lock_key.rs).

    The [Journal] trait is a type class over the journal's own state; the laws an
    implementation owes are the class [JournalLaws], stated through the locks it
    holds ([held]) and its own invariant ([good]). *)
From S2P Require Import Prelude Time Contracts.

Inductive JournalError := JAlreadyVoted | NotDurable.
#[global] Instance JournalError_eq_dec : EqDecision JournalError.
Proof. solve_decision. Defined.

Module OutgoingFrame.
Record t := mk {
  frame_bytes : bytes;
  sequence : Z;
  expires_at : option Timestamp.t;
}.
#[global] Instance t_eq_dec : EqDecision t.
Proof. solve_decision. Defined.

Definition new (bs : bytes) (sequence : Z) : t := mk bs sequence None.
Definition expiring_at (f : t) (when : Timestamp.t) : t :=
  mk (frame_bytes f) (sequence f) (Some when).

(** The frame outlived its validity at [now]. *)
Definition outlived (now : Timestamp.t) (f : t) : bool :=
  match expires_at f with Some at_ => Timestamp.ltb at_ now | None => false end.
End OutgoingFrame.

Record JournalSnapshot := {
  snap_epoch : option Z;
  snap_seen : list (Z * Z);
  snap_vote_locks : list (str * Z);
  snap_pending : list OutgoingFrame.t;
  snap_next_sequence : Z;
  snap_witnessed : list (str * bytes);
}.

(** * The trait *)

Class Journal (J : Type) := {
  commit_vote : J -> Subject.t -> str -> OutgoingFrame.t -> J * result JournalError unit;
  has_voted : J -> Subject.t -> str -> bool;
  reserve_sequence : J -> J * result JournalError Z;
  next_sequence : J -> Z;
  pending : J -> list OutgoingFrame.t;
  acknowledge : J -> Z -> J * bool;
  drop_expired : J -> Timestamp.t -> J;
  witness : J -> str -> bytes -> J * result JournalError unit;
  witnessed : J -> list (str * bytes);
  epoch : J -> option Z;
  enter_epoch : J -> Z -> J * result JournalError unit;
  highest_seen : J -> Z -> option Z;
  mark_seen : J -> Z -> Z -> J * result JournalError unit;
  snapshot : J -> JournalSnapshot;
}.

(** * The vote-lock key *)

Definition SEP : Z := 31.

Definition lock_key (s : Subject.t) (voter : str) : str :=
  Subject.mission s ++ SEP :: Subject.event s ++ SEP :: hex (Subject.content_hash s)
  ++ SEP :: decimal (Subject.revision s) ++ SEP :: voter.

(** The claim a lock is for, and who holds it: all the key is built from. *)
Definition lock_identity (s : Subject.t) (voter : str) : str * str * bytes * Z * str :=
  (Subject.mission s, Subject.event s, Subject.content_hash s, Subject.revision s, voter).

(** What the key's comment relies on: no separator inside a name. *)
Definition plain_subject (s : Subject.t) : Prop :=
  SEP ∉ Subject.mission s /\ SEP ∉ Subject.event s /\ wf_bytes (Subject.content_hash s)
  /\ is_u32 (Subject.revision s).

Section lock_key.
Lemma sep_not_hex bs : wf_bytes bs -> SEP ∉ hex bs.
Proof.
  intros Hb Hin. pose proof (hex_range bs Hb) as Hr. rewrite Forall_forall in Hr.
  specialize (Hr _ Hin). unfold SEP in Hr. lia.
Qed.
Lemma sep_not_decimal n : is_u64 n -> SEP ∉ decimal n.
Proof.
  intros (_ & Hr & _)%decimal_spec Hin. rewrite Forall_forall in Hr.
  specialize (Hr _ Hin). unfold SEP in Hr. lia.
Qed.
End lock_key.

(** On names without the separator, two locks collide only if they are the
    same claim by the same voter. *)
Theorem lock_key_injective (s1 s2 : Subject.t) (v1 v2 : str) :
  plain_subject s1 -> plain_subject s2 ->
  lock_key s1 v1 = lock_key s2 v2 -> lock_identity s1 v1 = lock_identity s2 v2.
Proof.
  intros (Hm1 & He1 & Hh1 & Hr1) (Hm2 & He2 & Hh2 & Hr2) Heq. unfold lock_key in Heq.
  assert (is_u64 (Subject.revision s1)) by (width; lia).
  assert (is_u64 (Subject.revision s2)) by (width; lia).
  apply sep_split in Heq as [Hm Heq]; [|done..].
  apply sep_split in Heq as [He Heq]; [|done..].
  apply sep_split in Heq as [Hh Heq]; [|by apply sep_not_hex..].
  apply sep_split in Heq as [Hr Hv]; [|by apply sep_not_decimal..].
  unfold lock_identity. apply hex_inj in Hh; [|done..]. apply decimal_inj in Hr; [|done..].
  congruence.
Qed.

Lemma lock_key_injective_witness :
  lock_identity (Subject.mk (lit "m") (lit "e") 7 [1; 2] (Timestamp.from_secs 5)) (lit "n0")
  = lock_identity (Subject.mk (lit "m") (lit "e") 7 [1; 2] (Timestamp.from_secs 9)) (lit "n0").
Proof.
  apply lock_key_injective.
  - split_and!; [vm_compute; by intros ?%list_elem_of_singleton..| |vm_compute; split; discriminate].
    repeat constructor; vm_compute; discriminate.
  - split_and!; [vm_compute; by intros ?%list_elem_of_singleton..| |vm_compute; split; discriminate].
    repeat constructor; vm_compute; discriminate.
  - reflexivity.
Defined.

Definition zero_hash : bytes := replicate 32 0.

(** The key's comment says a separator cannot appear in a name.  Nothing
    enforces it: the constructor of a subject accepts it, and two different
    claims then share one lock; nor is the start of the claim part of the key. *)
Theorem lock_key_collides :
  exists s1 s2 s3 : Subject.t,
    (exists m e, Subject.new m e 0 zero_hash (Timestamp.from_secs 0) = Ok s1 /\ SEP ∈ m) /\
    (exists m e, Subject.new m e 0 zero_hash (Timestamp.from_secs 0) = Ok s2 /\ SEP ∈ e) /\
    Subject.same_logical_case_and_revision s1 s2 = false /\
    (forall v, lock_key s1 v = lock_key s2 v) /\
    Subject.same_logical_case_and_revision s1 s3 = false /\
    (forall v, lock_key s1 v = lock_key s3 v).
Proof.
  exists (Subject.mk [65; 31; 66] [67] 0 zero_hash (Timestamp.from_secs 0)),
    (Subject.mk [65] [66; 31; 67] 0 zero_hash (Timestamp.from_secs 0)),
    (Subject.mk [65; 31; 66] [67] 0 zero_hash (Timestamp.from_secs 1)).
  split_and!; try reflexivity.
  - exists [65; 31; 66], [67]. split; [reflexivity|]. apply (bool_decide_unpack _). by vm_compute.
  - exists [65], [66; 31; 67]. split; [reflexivity|]. apply (bool_decide_unpack _). by vm_compute.
Qed.

(** * The laws *)

(** The operations that change a journal, as data. *)
Inductive jop :=
| OpCommit (s : Subject.t) (voter : str) (f : OutgoingFrame.t)
| OpReserve
| OpAck (sequence : Z)
| OpDrop (now : Timestamp.t)
| OpWitness (author : str) (frame : bytes)
| OpEnterEpoch (e : Z)
| OpMarkSeen (sender sequence : Z).

Section ops.
Context {J : Type} `{Journal J}.

Definition apply_op (j : J) (op : jop) : J :=
  match op with
  | OpCommit s v f => (commit_vote j s v f).1
  | OpReserve => (reserve_sequence j).1
  | OpAck n => (acknowledge j n).1
  | OpDrop now => drop_expired j now
  | OpWitness a f => (witness j a f).1
  | OpEnterEpoch e => (enter_epoch j e).1
  | OpMarkSeen s n => (mark_seen j s n).1
  end.

Definition run (j : J) (ops : list jop) : J := foldl apply_op j ops.

(** The sequence numbers a run hands out, and the votes it accepts. *)
Fixpoint handed_out (j : J) (ops : list jop) : list Z :=
  match ops with
  | [] => []
  | op :: ops =>
      match op, (reserve_sequence j).2 with
      | OpReserve, Ok n => [n]
      | _, _ => []
      end ++ handed_out (apply_op j op) ops
  end.
Fixpoint votes_taken (j : J) (ops : list jop) : list str :=
  match ops with
  | [] => []
  | op :: ops =>
      match op with
      | OpCommit s v f =>
          match (commit_vote j s v f).2 with Ok _ => [lock_key s v] | Err _ => [] end
      | _ => []
      end ++ votes_taken (apply_op j op) ops
  end.
End ops.

(** What every journal owes its callers; [held] is the set of lock keys and [good]
    the journal's own well-formedness. *)
Class JournalLaws (J : Type) `{Journal J} (held : J -> gset str) (good : J -> Prop) : Prop := {
  law_good j op : good j -> good (apply_op j op);
  law_has_voted j s v : has_voted j s v = bool_decide (lock_key s v ∈ held j);
  law_locks_kept j op : held j ⊆ held (apply_op j op);
  law_commit_ok j s v f : (commit_vote j s v f).2 = Ok tt ->
    lock_key s v ∉ held j /\ lock_key s v ∈ held (commit_vote j s v f).1 /\
    f ∈ pending (commit_vote j s v f).1 /\
    sat_add64 (OutgoingFrame.sequence f) 1 <= next_sequence (commit_vote j s v f).1;
  law_commit_err j s v f e : (commit_vote j s v f).2 = Err e ->
    pending (commit_vote j s v f).1 = pending j /\ held (commit_vote j s v f).1 = held j;
  law_reserve j n : (reserve_sequence j).2 = Ok n ->
    n = next_sequence j /\ next_sequence (reserve_sequence j).1 = sat_add64 n 1;
  law_counter j op : good j -> next_sequence j <= next_sequence (apply_op j op);
}.

(** What a client of any lawful journal may rely on. *)
Section lawful.
Context {J : Type} `{JournalLaws J held good}.

Lemma handed_out_from (j : J) ops :
  good j -> (forall n, n ∈ handed_out j ops -> n < U64_MAX) ->
  NoDup (handed_out j ops) /\ Forall (fun n => next_sequence j <= n) (handed_out j ops).
Proof.
  revert j; induction ops as [|op ops IH]; intros j Hg Hmax; cbn [handed_out] in *.
  { split; constructor. }
  destruct (IH (apply_op j op) (law_good j op Hg)) as [Hnd Hge].
  { intros n Hn. apply Hmax, elem_of_app. by right. }
  pose proof (law_counter j op Hg) as Hc.
  assert (Forall (fun n => next_sequence j <= n) (handed_out (apply_op j op) ops)) as Hge'.
  { eapply Forall_impl; [exact Hge|]. simpl. lia. }
  destruct op; try by split. destruct (reserve_sequence j).2 as [n|] eqn:Hr; [|by split].
  destruct (law_reserve j n Hr) as [Hn Hnext]. simpl in *. split.
  - apply NoDup_cons. split; [|done]. intros Hin. rewrite Forall_forall in Hge.
    specialize (Hge n Hin). rewrite Hnext in Hge. specialize (Hmax n ltac:(by left)).
    unfold sat_add64 in Hge. lia.
  - constructor; [lia|done].
Qed.

Lemma votes_taken_from (j : J) ops :
  NoDup (votes_taken j ops) /\ Forall (fun k => k ∉ held j) (votes_taken j ops).
Proof.
  revert j; induction ops as [|op ops IH]; intros j; cbn [votes_taken].
  { split; constructor. }
  destruct (IH (apply_op j op)) as [Hnd Hnew].
  pose proof (law_locks_kept j op) as Hk.
  assert (Forall (fun k => k ∉ held j) (votes_taken (apply_op j op) ops)) as Hnew'.
  { eapply Forall_impl; [exact Hnew|]. set_solver. }
  destruct op as [s v f| | | | | |]; try by split.
  destruct (commit_vote j s v f).2 as [[]|] eqn:Hc; [|by split].
  destruct (law_commit_ok j s v f Hc) as (Hfree & Hheld & _). split.
  - apply NoDup_cons. split; [|done]. intros Hin. rewrite Forall_forall in Hnew.
    by apply (Hnew _ Hin).
  - by constructor.
Qed.

(** What a run did is still there at its end. *)
Lemma run_held (j : J) ops : held j ⊆ held (run j ops).
Proof.
  unfold run. revert j; induction ops as [|op ops IH]; intros j; simpl; [done|].
  etrans; [apply (law_locks_kept j op)|apply IH].
Qed.
Lemma run_good (j : J) ops : good j -> good (run j ops).
Proof.
  unfold run. revert j; induction ops as [|op ops IH]; intros j Hg; simpl; [done|].
  by apply IH, law_good.
Qed.
Lemma run_counter (j : J) ops : good j -> next_sequence j <= next_sequence (run j ops).
Proof.
  unfold run. revert j; induction ops as [|op ops IH]; intros j Hg; simpl; [lia|].
  etrans; [by apply (law_counter j op)|]. by apply IH, law_good.
Qed.
Lemma votes_taken_held (j : J) ops k : k ∈ votes_taken j ops -> k ∈ held (run j ops).
Proof.
  revert j; induction ops as [|op ops IH]; intros j; cbn [votes_taken]; [set_solver|].
  intros [Hk|Hk]%elem_of_app; [|by apply IH]. apply (run_held (apply_op j op) ops).
  destruct op as [s v f| | | | | |]; try by apply not_elem_of_nil in Hk.
  destruct (commit_vote j s v f).2 as [[]|] eqn:Hc; [|by apply not_elem_of_nil in Hk].
  apply list_elem_of_singleton in Hk as ->. by destruct (law_commit_ok j s v f Hc) as (_ & ? & _).
Qed.
Lemma handed_out_passed (j : J) ops n : good j -> n < U64_MAX ->
  n ∈ handed_out j ops -> n < next_sequence (run j ops).
Proof.
  revert j; induction ops as [|op ops IH]; intros j Hg Hn; cbn [handed_out]; [set_solver|].
  pose proof (law_good j op Hg) as Hg'. intros [Hk|Hk]%elem_of_app; [|by apply IH].
  pose proof (run_counter (apply_op j op) ops Hg') as Hc.
  destruct op; try by apply not_elem_of_nil in Hk.
  destruct (reserve_sequence j).2 as [m|] eqn:Hr; [|by apply not_elem_of_nil in Hk].
  apply list_elem_of_singleton in Hk as ->. destruct (law_reserve j m Hr) as [_ Hnext].
  simpl in *. rewrite Hnext in Hc. unfold sat_add64 in Hc. lia.
Qed.
End lawful.
