(* ===== verification/MemoryJournal.v ===== *)
(** The in-memory journal (src/src/infrastructure/memory.rs): the reference
    behaviour of the trait, and the restart a simulation uses. *)
From S2P Require Import Prelude Time Contracts Journal.

Module MemoryJournal.
Record t := mk {
  epoch_ : option Z;
  seen : gmap Z Z;
  locks : gset str;
  pending_ : gmap Z OutgoingFrame.t;
  next_sequence_ : Z;
  witnessed_ : gmap str bytes;
}.

Definition default_ : t := mk None ∅ ∅ ∅ 0 ∅.

Definition restored (s : JournalSnapshot) : t :=
  mk (snap_epoch s)
    (foldl (fun m kv => <[kv.1 := kv.2]> m) ∅ (snap_seen s))
    (list_to_set (fst <$> snap_vote_locks s))
    (foldl (fun m f => <[OutgoingFrame.sequence f := f]> m) ∅ (snap_pending s))
    (snap_next_sequence s)
    (foldl (fun m kv => <[kv.1 := kv.2]> m) ∅ (snap_witnessed s)).

Definition commit_vote (j : t) (s : Subject.t) (voter : str) (f : OutgoingFrame.t)
    : t * result JournalError unit :=
  let key := lock_key s voter in
  if bool_decide (key ∈ locks j) then (j, Err JAlreadyVoted)
  else (mk (epoch_ j) (seen j) ({[key]} ∪ locks j)
          (<[OutgoingFrame.sequence f := f]> (pending_ j))
          (Z.max (next_sequence_ j) (sat_add64 (OutgoingFrame.sequence f) 1))
          (witnessed_ j), Ok tt).

Definition has_voted (j : t) (s : Subject.t) (voter : str) : bool :=
  bool_decide (lock_key s voter ∈ locks j).

Definition set_next (j : t) (n : Z) : t :=
  mk (epoch_ j) (seen j) (locks j) (pending_ j) n (witnessed_ j).
Definition set_pending (j : t) (m : gmap Z OutgoingFrame.t) : t :=
  mk (epoch_ j) (seen j) (locks j) m (next_sequence_ j) (witnessed_ j).

Definition reserve_sequence (j : t) : t * result JournalError Z :=
  let reserved := next_sequence_ j in
  (set_next j (sat_add64 reserved 1), Ok reserved).

Definition pending (j : t) : list OutgoingFrame.t := values (pending_ j).

Definition acknowledge (j : t) (sequence : Z) : t * bool :=
  (set_pending j (delete sequence (pending_ j)),
   match pending_ j !! sequence with Some _ => true | None => false end).

(** [expires_at().is_none_or(|at| at >= now)]. *)
Definition retained (now : Timestamp.t) (f : OutgoingFrame.t) : bool :=
  match OutgoingFrame.expires_at f with
  | None => true
  | Some at_ => negb (Timestamp.ltb at_ now)
  end.
Definition drop_expired (j : t) (now : Timestamp.t) : t :=
  set_pending j (filter (fun kf => retained now kf.2 = true) (pending_ j)).

Definition witness (j : t) (author : str) (frame : bytes) : t * result JournalError unit :=
  (match witnessed_ j !! author with
   | Some _ => j
   | None => mk (epoch_ j) (seen j) (locks j) (pending_ j) (next_sequence_ j)
               (<[author := frame]> (witnessed_ j))
   end, Ok tt).

Definition witnessed (j : t) : list (str * bytes) := entries (witnessed_ j).

Definition enter_epoch (j : t) (e : Z) : t * result JournalError unit :=
  if match epoch_ j with Some held => e <=? held | None => false end then (j, Ok tt)
  else (mk (Some e) ∅ (locks j) (pending_ j) (next_sequence_ j) (witnessed_ j), Ok tt).

Definition highest_seen (j : t) (sender : Z) : option Z := seen j !! sender.

Definition mark_seen (j : t) (sender sequence : Z) : t * result JournalError unit :=
  let held := default 0 (seen j !! sender) in
  (mk (epoch_ j) (<[sender := Z.max held sequence]> (seen j)) (locks j) (pending_ j)
     (next_sequence_ j) (witnessed_ j), Ok tt).

Definition snapshot (j : t) : JournalSnapshot :=
  {| snap_epoch := epoch_ j;
     snap_seen := entries (seen j);
     snap_vote_locks := (fun k => (k, 0)) <$> members_of (locks j);
     snap_pending := pending j;
     snap_next_sequence := next_sequence_ j;
     snap_witnessed := entries (witnessed_ j) |}.
End MemoryJournal.

#[global] Instance memory_journal : Journal MemoryJournal.t := {
  commit_vote := MemoryJournal.commit_vote;
  has_voted := MemoryJournal.has_voted;
  reserve_sequence := MemoryJournal.reserve_sequence;
  next_sequence := MemoryJournal.next_sequence_;
  pending := MemoryJournal.pending;
  acknowledge := MemoryJournal.acknowledge;
  drop_expired := MemoryJournal.drop_expired;
  witness := MemoryJournal.witness;
  witnessed := MemoryJournal.witnessed;
  epoch := MemoryJournal.epoch_;
  enter_epoch := MemoryJournal.enter_epoch;
  highest_seen := MemoryJournal.highest_seen;
  mark_seen := MemoryJournal.mark_seen;
  snapshot := MemoryJournal.snapshot;
}.

(** The counter is a u64. *)
Definition memory_good (j : MemoryJournal.t) : Prop := MemoryJournal.next_sequence_ j <= U64_MAX.

(** The pending frames are filed under their own sequences. *)
Definition memory_filed (j : MemoryJournal.t) : Prop :=
  forall n f, MemoryJournal.pending_ j !! n = Some f -> OutgoingFrame.sequence f = n.

Section memory_laws.
Import MemoryJournal.

#[global] Instance memory_laws : JournalLaws MemoryJournal.t locks memory_good.
Proof.
  split.
  - unfold memory_good. intros j [s v f| |n|now|a f|e|s n] Hg; simpl; try done.
    + unfold commit_vote. case_bool_decide; simpl; [done|]. unfold sat_add64. lia.
    + unfold sat_add64. lia.
    + unfold witness. by destruct (witnessed_ j !! a).
    + unfold enter_epoch. by destruct (match epoch_ j with Some _ => _ | None => _ end).
  - done.
  - intros j [s v f| |n|now|a f|e|s n]; simpl; try done.
    + unfold commit_vote. case_bool_decide; simpl; set_solver.
    + unfold witness. by destruct (witnessed_ j !! a).
    + unfold enter_epoch. by destruct (match epoch_ j with Some _ => _ | None => _ end).
  - intros j s v f. simpl. unfold commit_vote. case_bool_decide; simpl; [done|].
    intros _. split_and!; [done|set_solver| |lia].
    apply elem_of_values. exists (OutgoingFrame.sequence f). apply lookup_insert_eq.
  - intros j s v f e. simpl. unfold commit_vote. by case_bool_decide.
  - intros j n. simpl. intros [= <-]. done.
  - unfold memory_good. intros j [s v f| |n|now|a f|e|s n] Hg; simpl; try done.
    + unfold commit_vote. case_bool_decide; simpl; lia.
    + unfold sat_add64. lia.
    + unfold witness. by destruct (witnessed_ j !! a).
    + unfold enter_epoch. by destruct (match epoch_ j with Some _ => _ | None => _ end).
Qed.

Lemma memory_filed_op j op : memory_filed j -> memory_filed (apply_op j op).
Proof.
  unfold memory_filed. intros Hf. destruct op as [s v f| |n|now|a f|e|s n]; simpl; try done.
  - unfold commit_vote. case_bool_decide; simpl; [done|].
    intros n g [[<- ->]|[_ Hg]]%lookup_insert_Some; [done|by apply Hf].
  - intros m g [_ Hg]%lookup_delete_Some. by apply Hf.
  - intros m g [Hg _]%map_lookup_filter_Some. by apply Hf.
  - unfold witness. by destruct (witnessed_ j !! a).
  - unfold enter_epoch. by destruct (match epoch_ j with Some _ => _ | None => _ end).
Qed.

Lemma foldl_filed (l : list (Z * OutgoingFrame.t)) (m0 : gmap Z OutgoingFrame.t) :
  (forall n f, (n, f) ∈ l -> OutgoingFrame.sequence f = n) ->
  foldl (fun m f => <[OutgoingFrame.sequence f := f]> m) m0 l.*2
  = foldl (fun m kv => <[kv.1 := kv.2]> m) m0 l.
Proof.
  revert m0; induction l as [|[k v] l IH]; intros m0 Hl; [done|]. rewrite fmap_cons.
  cbn [foldl fst snd]. rewrite (Hl k v) by by left. apply IH. intros n f Hin. apply Hl. by right.
Qed.
End memory_laws.

(** A snapshot loses nothing: the journal a restart rebuilds from it is the
    journal it was taken of. *)
Theorem memory_restart_roundtrip (j : MemoryJournal.t) :
  memory_filed j -> MemoryJournal.restored (MemoryJournal.snapshot j) = j.
Proof.
  intros Hf. destruct j as [e sn lk pd nx wt]. unfold MemoryJournal.restored, MemoryJournal.snapshot.
  unfold MemoryJournal.pending; cbn [snap_epoch snap_seen snap_vote_locks snap_pending
    snap_next_sequence snap_witnessed MemoryJournal.seen MemoryJournal.locks
    MemoryJournal.pending_ MemoryJournal.witnessed_ MemoryJournal.next_sequence_ MemoryJournal.epoch_].
  unfold values. rewrite foldl_filed
    by (intros n f ?%elem_of_entries; by apply (Hf n f)).
  rewrite !foldl_insert_entries. f_equal. rewrite <- list_fmap_compose. apply set_eq. intros k.
  rewrite elem_of_list_to_set, list_elem_of_fmap. split.
  - by intros (k' & -> & ?%elem_of_members).
  - intros Hk. exists k. by rewrite elem_of_members.
Qed.

Lemma memory_restart_roundtrip_witness :
  MemoryJournal.restored (MemoryJournal.snapshot
    (MemoryJournal.mk (Some 3) {[7 := 9]} {[lit "k"]} {[4 := OutgoingFrame.new [1] 4]} 5 ∅))
  = MemoryJournal.mk (Some 3) {[7 := 9]} {[lit "k"]} {[4 := OutgoingFrame.new [1] 4]} 5 ∅.
Proof.
  apply memory_restart_roundtrip. intros n f Hl.
  cbn [MemoryJournal.pending_] in Hl. by apply lookup_singleton_Some in Hl as [<- <-].
Defined.

(** The counter saturates: a journal whose last number has been handed out hands it
    out again, and again, although the trait promises a number "that will never be
    handed out again". One vote committed under the largest number gets there. *)
Lemma reservation_repeats_at_the_top (s : Subject.t) (voter : str) :
  let top := OutgoingFrame.new [] U64_MAX in
  let j := (MemoryJournal.commit_vote MemoryJournal.default_ s voter top).1 in
  let '(j1, first) := MemoryJournal.reserve_sequence j in
  let '(_, second) := MemoryJournal.reserve_sequence j1 in
  first = Ok U64_MAX /\ second = Ok U64_MAX.
Proof. cbn zeta. unfold MemoryJournal.commit_vote. rewrite bool_decide_eq_false_2 by (cbn; set_solver). by vm_compute. Qed.
