(* ===== verification/Crc.v ===== *)
(** CRC-32 of a journal record (src/src/infrastructure/crc.rs): the table the
    crate builds at compile time, the checksum, the bit-at-a-time register it
    abbreviates, and what it is there to detect. *)
From S2P Require Import Prelude.

Definition POLYNOMIAL : Z := 0xEDB88320.

(** One shift of the register, and the eight the table entry of [index] takes. *)
Definition crc_bit (value : Z) : Z :=
  if Z.land value 1 =? 1 then Z.lxor (Z.shiftr value 1) POLYNOMIAL else Z.shiftr value 1.
Definition table_entry (index : Z) : Z := Nat.iter 8 crc_bit index.
Definition TABLE : list Z := Eval vm_compute in table_entry <$> seqZ 0 256.

Definition crc_step (crc byte : Z) : Z :=
  let index := Z.land (Z.lxor crc byte) 0xFF in
  Z.lxor (Z.shiftr crc 8) (nth (Z.to_nat index) TABLE 0).
Definition crc32 (bs : bytes) : Z :=
  Z.lxor (fold_left crc_step bs 0xFFFFFFFF) U32_MAX.

(** The register the polynomial defines, without a table. *)
Definition crc_step_bits (crc byte : Z) : Z := Nat.iter 8 crc_bit (Z.lxor crc byte).
Definition crc32_bits (bs : bytes) : Z :=
  Z.lxor (fold_left crc_step_bits bs 0xFFFFFFFF) U32_MAX.

Section crc.
Lemma table_length : length TABLE = 256%nat.
Proof. reflexivity. Qed.
Lemma table_is_entries : TABLE = table_entry <$> seqZ 0 256.
Proof. vm_compute. reflexivity. Qed.
Lemma table_at i : 0 <= i < 256 -> nth (Z.to_nat i) TABLE 0 = table_entry i.
Proof.
  intros Hi. apply nth_lookup_Some. rewrite table_is_entries, list_lookup_fmap.
  rewrite lookup_seqZ_lt by lia. simpl. f_equal. f_equal. lia.
Qed.

(** Every entry is a u32, and no two share a top byte. *)
Lemma table_range i : 0 <= i < 256 -> 0 <= table_entry i < 2 ^ 32.
Proof.
  intros Hi.
  assert (Forall (fun v => 0 <= v < 2 ^ 32) TABLE) as Hall.
  { apply (bool_decide_unpack _). vm_compute. exact I. }
  rewrite Forall_forall in Hall. apply Hall. rewrite table_is_entries.
  apply list_elem_of_fmap. exists i. split; [done|]. apply elem_of_seqZ. lia.
Qed.
Lemma table_top_bytes i j : 0 <= i < 256 -> 0 <= j < 256 ->
  Z.shiftr (table_entry i) 24 = Z.shiftr (table_entry j) 24 -> i = j.
Proof.
  intros Hi Hj Heq.
  assert (NoDup ((fun v => Z.shiftr v 24) <$> TABLE)) as Hnd.
  { apply (bool_decide_unpack _). vm_compute. exact I. }
  rewrite table_is_entries, <- list_fmap_compose in Hnd.
  apply Z2Nat.inj; [lia..|].
  eapply NoDup_lookup; [exact Hnd| |]; rewrite list_lookup_fmap, lookup_seqZ_lt by lia; simpl.
  - reflexivity.
  - f_equal. by rewrite !Z2Nat.id by lia.
Qed.

Lemma low_byte_range z : 0 <= Z.land z 0xFF < 256.
Proof. change 0xFF with (Z.ones 8). rewrite Z.land_ones by lia. apply Z.mod_pos_bound. lia. Qed.
Lemma crc_step_spec crc byte :
  crc_step crc byte = Z.lxor (Z.shiftr crc 8) (table_entry (Z.land (Z.lxor crc byte) 0xFF)).
Proof. unfold crc_step. by rewrite table_at by apply low_byte_range. Qed.

(** [crc_bit] is linear, and shifts a value without its low bits. *)
Lemma crc_bit_testbit v : crc_bit v = Z.lxor (Z.shiftr v 1) (if Z.testbit v 0 then POLYNOMIAL else 0).
Proof.
  unfold crc_bit. change 1 with (Z.ones 1) at 1. rewrite Z.land_ones by lia.
  change (2 ^ 1) with 2. rewrite <- Z.bit0_mod.
  destruct (Z.testbit v 0); simpl; [done|]. by rewrite Z.lxor_0_r.
Qed.

Lemma crc_bit_lxor a b : crc_bit (Z.lxor a b) = Z.lxor (crc_bit a) (crc_bit b).
Proof.
  rewrite !crc_bit_testbit, Z.lxor_spec, Z.shiftr_lxor. apply Z.bits_inj'. intros n _.
  rewrite !Z.lxor_spec. destruct (Z.testbit a 0), (Z.testbit b 0); simpl;
    rewrite ?Z.bits_0; destruct (Z.testbit (a ≫ 1) n), (Z.testbit (b ≫ 1) n),
    (Z.testbit POLYNOMIAL n); done.
Qed.
Lemma crc_bits_lxor n a b :
  Nat.iter n crc_bit (Z.lxor a b) = Z.lxor (Nat.iter n crc_bit a) (Nat.iter n crc_bit b).
Proof. induction n as [|n IH]; [done|]. rewrite !Nat.iter_succ. by rewrite IH, crc_bit_lxor. Qed.
Lemma crc_bits_shift n h : Nat.iter n crc_bit (Z.shiftl h (Z.of_nat n)) = h.
Proof.
  revert h; induction n as [|n IH]; intros h; [apply Z.shiftl_0_r|].
  rewrite Nat.iter_succ_r, crc_bit_testbit, Z.shiftl_spec_low by lia.
  rewrite Z.lxor_0_r, Z.shiftr_shiftl_l by lia.
  replace (Z.of_nat (S n) - 1) with (Z.of_nat n) by lia. apply IH.
Qed.

Lemma split_low_byte v :
  v = Z.lxor (Z.shiftl (Z.shiftr v 8) 8) (Z.land v 0xFF).
Proof.
  apply Z.bits_inj'. intros n Hn. change 0xFF with (Z.ones 8).
  rewrite Z.lxor_spec, Z.land_spec, Z.shiftl_spec, Z.testbit_ones by lia.
  replace (0 <=? n) with true by (symmetry; apply Z.leb_le; lia).
  destruct (Z.ltb_spec n 8).
  - rewrite (Z.testbit_neg_r _ (n - 8)) by lia. simpl. by rewrite andb_true_r.
  - rewrite Z.shiftr_spec by lia. replace (n - 8 + 8) with n by lia.
    simpl. by rewrite andb_false_r, xorb_false_r.
Qed.

Lemma shiftr_byte crc byte : is_u8 byte -> Z.shiftr (Z.lxor crc byte) 8 = Z.shiftr crc 8.
Proof.
  intros Hb. rewrite Z.shiftr_lxor, (Z.shiftr_div_pow2 byte) by lia.
  rewrite Z.div_small by (width; lia). apply Z.lxor_0_r.
Qed.

Lemma crc_step_eq crc byte : is_u8 byte -> crc_step_bits crc byte = crc_step crc byte.
Proof.
  intros Hb. rewrite crc_step_spec. unfold crc_step_bits.
  rewrite (split_low_byte (Z.lxor crc byte)) at 1. rewrite crc_bits_lxor.
  change 8 with (Z.of_nat 8) at 2. rewrite crc_bits_shift.
  unfold table_entry. by rewrite shiftr_byte.
Qed.

Lemma crc_step_range crc byte : 0 <= crc < 2 ^ 32 -> 0 <= crc_step crc byte < 2 ^ 32.
Proof.
  intros Hc. rewrite crc_step_spec. apply lxor_range; [lia| |].
  - rewrite Z.shiftr_div_pow2 by lia. split; [apply Z.div_pos; lia|].
    apply Z.div_lt_upper_bound; lia.
  - apply table_range, low_byte_range.
Qed.

(** For a fixed byte the register is reversible; for a fixed register two
    bytes never agree. *)
Lemma shiftr_32_24 z : 0 <= z < 2 ^ 32 -> Z.shiftr (Z.shiftr z 8) 24 = 0.
Proof.
  intros. rewrite Z.shiftr_shiftr, Z.shiftr_div_pow2 by lia. apply Z.div_small. simpl. lia.
Qed.
Lemma crc_step_index c d x y : 0 <= c < 2 ^ 32 -> 0 <= d < 2 ^ 32 ->
  crc_step c x = crc_step d y ->
  Z.land (Z.lxor c x) 0xFF = Z.land (Z.lxor d y) 0xFF /\ Z.shiftr c 8 = Z.shiftr d 8.
Proof.
  rewrite !crc_step_spec. intros Hc Hd Heq.
  assert (Z.land (Z.lxor c x) 0xFF = Z.land (Z.lxor d y) 0xFF) as Hi.
  { apply table_top_bytes; [apply low_byte_range..|].
    apply (f_equal (fun v => Z.shiftr v 24)) in Heq.
    rewrite !Z.shiftr_lxor, !(shiftr_32_24 c), !(shiftr_32_24 d), !Z.lxor_0_l in Heq by done.
    done. }
  split; [done|]. rewrite Hi in Heq. apply (f_equal (fun v => Z.lxor v (table_entry (Z.land (Z.lxor d y) 0xFF)))) in Heq.
  by rewrite !Z.lxor_assoc, Z.lxor_nilpotent, !Z.lxor_0_r in Heq.
Qed.

Lemma lxor_low_byte c d x y :
  Z.land (Z.lxor c x) 0xFF = Z.land (Z.lxor d y) 0xFF ->
  Z.lxor (Z.land c 0xFF) (Z.land x 0xFF) = Z.lxor (Z.land d 0xFF) (Z.land y 0xFF).
Proof.
  intros Heq. apply Z.bits_inj'. intros n Hn. apply (f_equal (fun v => Z.testbit v n)) in Heq.
  rewrite !Z.land_spec, !Z.lxor_spec in Heq. rewrite !Z.lxor_spec, !Z.land_spec.
  destruct (Z.testbit 0xFF n); rewrite ?andb_true_r, ?andb_false_r in *; done.
Qed.
Lemma lxor_inj_r x a b : Z.lxor a x = Z.lxor b x -> a = b.
Proof.
  intros Heq%(f_equal (fun v => Z.lxor v x)).
  by rewrite !Z.lxor_assoc, Z.lxor_nilpotent, !Z.lxor_0_r in Heq.
Qed.
Lemma crc_step_inj_crc c d x : 0 <= c < 2 ^ 32 -> 0 <= d < 2 ^ 32 ->
  crc_step c x = crc_step d x -> c = d.
Proof.
  intros Hc Hd [Hi Hhi]%crc_step_index; [|done..].
  apply lxor_low_byte, lxor_inj_r in Hi.
  by rewrite (split_low_byte c), (split_low_byte d), Hi, Hhi.
Qed.
Lemma crc_step_inj_byte c x y : 0 <= c < 2 ^ 32 -> is_u8 x -> is_u8 y ->
  crc_step c x = crc_step c y -> x = y.
Proof.
  intros Hc Hx Hy [Hi _]%crc_step_index; [|done..]. apply lxor_low_byte in Hi.
  rewrite !(Z.lxor_comm (Z.land c 0xFF)) in Hi. apply lxor_inj_r in Hi.
  change 0xFF with (Z.ones 8) in Hi. rewrite !Z.land_ones, !Z.mod_small in Hi by (width; lia).
  done.
Qed.

Lemma crc_fold_range bs c : 0 <= c < 2 ^ 32 -> 0 <= fold_left crc_step bs c < 2 ^ 32.
Proof. revert c; induction bs as [|b bs IH]; intros c Hc; [done|]. by apply IH, crc_step_range. Qed.
Lemma crc_fold_inj bs c d : 0 <= c < 2 ^ 32 -> 0 <= d < 2 ^ 32 ->
  fold_left crc_step bs c = fold_left crc_step bs d -> c = d.
Proof.
  revert c d; induction bs as [|b bs IH]; intros c d Hc Hd Heq; [done|].
  apply IH, crc_step_inj_crc in Heq; [done..| |]; by apply crc_step_range.
Qed.
Lemma crc32_range bs : is_u32 (crc32 bs).
Proof.
  pose proof (lxor_range 32 (fold_left crc_step bs 0xFFFFFFFF) U32_MAX) as Hr.
  pose proof (crc_fold_range bs 0xFFFFFFFF) as Hf. unfold crc32. width. lia.
Qed.
Lemma crc32_app_inj as_ bs c d : crc32 (as_ ++ c :: bs) = crc32 (as_ ++ d :: bs) ->
  crc_step (fold_left crc_step as_ 0xFFFFFFFF) c = crc_step (fold_left crc_step as_ 0xFFFFFFFF) d.
Proof.
  unfold crc32. intros Heq%lxor_inj_r. rewrite !fold_left_app in Heq. cbn [fold_left] in Heq.
  apply crc_fold_inj in Heq; [done| |]; apply crc_step_range, crc_fold_range; lia.
Qed.
End crc.
#[export] Hint Resolve crc32_range : lcq.

(** The table-driven checksum is the bit-at-a-time register of the polynomial,
    and a u32, on every byte string. *)
Theorem crc32_is_the_register (bs : bytes) :
  wf_bytes bs -> crc32 bs = crc32_bits bs /\ is_u32 (crc32 bs).
Proof.
  intros Hb. split; [|apply crc32_range]. unfold crc32, crc32_bits. f_equal.
  generalize 0xFFFFFFFF. induction Hb as [|b bs Hb _ IH]; intros c; [done|].
  cbn [fold_left]. by rewrite crc_step_eq.
Qed.

(** "123456789", the published check value. *)
Lemma crc32_is_the_register_witness :
  crc32_bits [49; 50; 51; 52; 53; 54; 55; 56; 57] = 0xCBF43926.
Proof.
  destruct (crc32_is_the_register [49; 50; 51; 52; 53; 54; 55; 56; 57]) as [<- _].
  - repeat (constructor; [vm_compute; split; discriminate|]). constructor.
  - reflexivity.
Defined.

(** Whatever a record holds, damage confined to one byte of it changes its
    checksum. *)
Theorem crc32_detects_byte_damage (before after : bytes) (x y : Z) :
  is_u8 x -> is_u8 y -> x <> y -> crc32 (before ++ x :: after) <> crc32 (before ++ y :: after).
Proof.
  intros Hx Hy Hne Heq%crc32_app_inj. apply Hne. eapply crc_step_inj_byte; [|done..|exact Heq].
  apply crc_fold_range. lia.
Qed.

Lemma crc32_detects_byte_damage_witness :
  crc32 ([7] ++ 1 :: [9; 9]) <> crc32 ([7] ++ 65 :: [9; 9]).
Proof. apply crc32_detects_byte_damage; [vm_compute; split; discriminate..|discriminate]. Defined.
