(* ===== verification/LogJournal.v ===== *)
(** The append-only journal on disk (src/src/infrastructure/log.rs): its records,
    the state they replay into, and every operation of the trait against a file
    that can fail under it.

    The file system is explicit.  [path] is what a reader of the journal's path
    finds; [handle] is [None] while the journal's own handle is that file, and
    [Some b] once it is a file nothing names any more, with contents [b].  What the
    disk does is a script: one [io] outcome for each append and for each
    compaction, and nothing is written once a script is exhausted.  The postcard
    serialisation is a parameter, [Postcard], with the laws [PostcardLaws]. *)
From S2P Require Import Prelude Time Contracts Journal MemoryJournal Crc.

Definition MAX_RECORD_BYTES : Z := 64 * 1024.
Definition COMPACT_THRESHOLD_BYTES : Z := 256 * 1024.

Inductive Entry :=
| Vote (key : str) (sequence : Z) (bs : bytes) (expires_at : option Z)
| Sequence (next : Z)
| Seen (sender sequence : Z)
| Epoch (e : Z)
| Retired (sequence : Z)
| Witnessed (author : str) (bs : bytes)
| Lock (key : str)
| Frame (sequence : Z) (bs : bytes) (expires_at : option Z).

(** The values the fields' types allow. *)
Definition opt_u64 (o : option Z) : Prop := match o with Some z => is_u64 z | None => True end.
Definition entry_ok (e : Entry) : Prop :=
  match e with
  | Vote _ s bs x | Frame s bs x => is_u64 s /\ wf_bytes bs /\ opt_u64 x
  | Sequence n => is_u64 n
  | Seen i n => is_u16 i /\ is_u64 n
  | Epoch e => is_u16 e
  | Retired s => is_u64 s
  | Witnessed _ bs => wf_bytes bs
  | Lock _ => True
  end.

Class Postcard := {
  to_allocvec : Entry -> option bytes;
  from_bytes : bytes -> option Entry;
}.
(** What the format documents: what it writes it reads back, and it reads only
    values of the types asked for. *)
Class PostcardLaws `{Postcard} : Prop := {
  postcard_roundtrip e p : entry_ok e -> to_allocvec e = Some p -> wf_bytes p /\ from_bytes p = Some e;
  postcard_typed p e : from_bytes p = Some e -> entry_ok e;
}.

(** * The live state *)

Module State.
Record t := mk {
  epoch : option Z;
  seen : gmap Z Z;
  locks : gset str;
  pending : gmap Z OutgoingFrame.t;
  next_sequence : Z;
  witnessed : gmap str bytes;
}.
Definition default_ : t := mk None ∅ ∅ ∅ 0 ∅.

Definition add_lock (st : t) (key : str) : t :=
  mk (epoch st) (seen st) ({[key]} ∪ locks st) (pending st) (next_sequence st) (witnessed st).
Definition with_next (st : t) (n : Z) : t :=
  mk (epoch st) (seen st) (locks st) (pending st) n (witnessed st).
Definition with_pending (st : t) (m : gmap Z OutgoingFrame.t) : t :=
  mk (epoch st) (seen st) (locks st) m (next_sequence st) (witnessed st).
Definition with_seen (st : t) (m : gmap Z Z) : t :=
  mk (epoch st) m (locks st) (pending st) (next_sequence st) (witnessed st).
Definition with_epoch (st : t) (e : option Z) : t :=
  mk e (seen st) (locks st) (pending st) (next_sequence st) (witnessed st).
Definition with_witnessed (st : t) (m : gmap str bytes) : t :=
  mk (epoch st) (seen st) (locks st) (pending st) (next_sequence st) m.

Definition add_frame (st : t) (sequence : Z) (bs : bytes) (expires_at : option Z) : t :=
  let frame := OutgoingFrame.new bs sequence in
  let frame := match expires_at with
               | Some secs => OutgoingFrame.expiring_at frame (Timestamp.from_secs secs)
               | None => frame
               end in
  let st := with_pending st (<[sequence := frame]> (pending st)) in
  with_next st (Z.max (next_sequence st) (sat_add64 sequence 1)).

Definition apply (st : t) (entry : Entry) : t :=
  match entry with
  | Vote key sequence bs expires_at => add_frame (add_lock st key) sequence bs expires_at
  | Lock key => add_lock st key
  | Frame sequence bs expires_at => add_frame st sequence bs expires_at
  | Sequence next => with_next st (Z.max (next_sequence st) next)
  | Epoch e =>
      let st := if match epoch st with Some held => held <? e | None => true end
                then with_seen st ∅ else st in
      with_epoch st (Some match epoch st with Some held => Z.max held e | None => e end)
  | Seen sender sequence =>
      let held := default 0 (seen st !! sender) in
      with_seen st (<[sender := Z.max held sequence]> (seen st))
  | Retired sequence => with_pending st (delete sequence (pending st))
  | Witnessed author bs =>
      match witnessed st !! author with
      | Some _ => st
      | None => with_witnessed st (<[author := bs]> (witnessed st))
      end
  end.
End State.

(** * Records *)

Inductive IoError := InvalidData | OsError.

(** What one call of the operating system did: all of it; nothing after the first
    [n] bytes; everything but the last flush. *)
Inductive io := IoOk | IoTorn (n : nat) | IoLate.

Section records.
Context `{Postcard}.

Definition encode (e : Entry) : result IoError bytes :=
  payload ← ok_or (to_allocvec e) InvalidData;
  if MAX_RECORD_BYTES <? len payload then Err InvalidData
  else if U32_MAX <? len payload then Err InvalidData
  else Ok (le_bytes 4 (len payload) ++ payload ++ le_bytes 4 (crc32 payload)).

(** One turn of the replay loop on what is left of the file: the record at its
    head and its length, or [None] where the loop stops. *)
Definition read_record (rest : bytes) : option (Entry * nat) :=
  if len rest <? 4 then None
  else
    let length := of_le (take 4 rest) in
    if MAX_RECORD_BYTES <? length then None
    else
      let n := Z.to_nat length in
      if len rest <? 4 + length + 4 then None
      else
        let payload := take n (drop 4 rest) in
        let stored := of_le (take 4 (drop (4 + n) rest)) in
        if negb (stored =? crc32 payload) then None
        else match from_bytes payload with
             | Some entry => Some (entry, (4 + n + 4)%nat)
             | None => None
             end.

Fixpoint replay_loop (fuel : nat) (rest : bytes) (st : State.t) (at_ : nat) : State.t * nat :=
  match fuel with
  | O => (st, at_)
  | S fuel =>
      match read_record rest with
      | None => (st, at_)
      | Some (entry, n) => replay_loop fuel (drop n rest) (State.apply st entry) (at_ + n)
      end
  end.
(** A record has at least eight bytes, so a turn per byte is enough. *)
Definition replay (bs : bytes) : State.t * nat :=
  replay_loop (S (length bs)) bs State.default_ 0.
End records.

(** * The journal *)

Module Log.
Record t := mk {
  path : bytes;
  handle : option bytes;
  state : State.t;
  bytes_on_disk : Z;
  last_io_error : option IoError;
  appends : list io;
  compactions : list io;
}.

Definition set_state (j : t) (st : State.t) : t :=
  mk (path j) (handle j) st (bytes_on_disk j) (last_io_error j) (appends j) (compactions j).
Definition set_error (j : t) (e : IoError) : t :=
  mk (path j) (handle j) (state j) (bytes_on_disk j) (Some e) (appends j) (compactions j).
Definition with_scripts (j : t) (a c : list io) : t :=
  mk (path j) (handle j) (state j) (bytes_on_disk j) (last_io_error j) a c.

(** The bytes land at the end of the file the handle is on. *)
Definition written (j : t) (bs : bytes) : t :=
  match handle j with
  | None => mk (path j ++ bs) None (state j) (bytes_on_disk j) (last_io_error j) (appends j) (compactions j)
  | Some b => mk (path j) (Some (b ++ bs)) (state j) (bytes_on_disk j) (last_io_error j) (appends j) (compactions j)
  end.

Section ops.
Context `{Postcard}.

Definition open (outcome : io) (disk : bytes) : bytes * result IoError t :=
  let '(st, valid) := replay disk in
  match outcome with
  | IoOk => (take valid disk, Ok (mk (take valid disk) None st (Z.of_nat valid) None [] []))
  | IoTorn _ => (disk, Err OsError)
  | IoLate => (take valid disk, Err OsError)
  end.

Definition try_append (j : t) (entry : Entry) : t * result IoError unit :=
  match encode entry with
  | Err e => (j, Err e)
  | Ok record =>
      let rest := with_scripts j (tail (appends j)) (compactions j) in
      match hd (IoTorn 0) (appends j) with
      | IoOk =>
          let j := written rest record in
          (mk (path j) (handle j) (state j) (bytes_on_disk j + len record) (last_io_error j)
             (appends j) (compactions j), Ok tt)
      | IoTorn n => (written rest (take n record), Err OsError)
      | IoLate => (written rest record, Err OsError)
      end
  end.

Definition append (j : t) (entry : Entry) : t * result JournalError unit :=
  match try_append j entry with
  | (j, Ok _) => (j, Ok tt)
  | (j, Err error) => (set_error j error, Err NotDurable)
  end.

Definition compact_entries (st : State.t) : list Entry :=
  [Sequence (State.next_sequence st)]
  ++ match State.epoch st with Some e => [Epoch e] | None => [] end
  ++ ((fun sn => Seen sn.1 sn.2) <$> entries (State.seen st))
  ++ (Lock <$> members_of (State.locks st))
  ++ ((fun f => Frame (OutgoingFrame.sequence f) (OutgoingFrame.frame_bytes f)
                 (Timestamp.as_secs <$> OutgoingFrame.expires_at f)) <$> values (State.pending st))
  ++ ((fun af => Witnessed af.1 af.2) <$> entries (State.witnessed st)).

(** The first entry that does not encode stops the compaction. *)
Fixpoint encode_all (es : list Entry) : result IoError (list bytes) :=
  match es with
  | [] => Ok []
  | e :: es => r ← encode e; rs ← encode_all es; Ok (r :: rs)
  end.

(** A sibling is written and flushed, renamed over the path, and reopened;
    [IoLate] is a failure after the rename. *)
Definition compact (j : t) : t * result IoError unit :=
  let rest := with_scripts j (appends j) (tail (compactions j)) in
  match encode_all (compact_entries (state j)) with
  | Err e => (j, Err e)
  | Ok records =>
      let fresh := concat records in
      match hd (IoTorn 0) (compactions j) with
      | IoOk =>
          (mk fresh None (state j) (len fresh) (last_io_error j) (appends rest) (compactions rest), Ok tt)
      | IoTorn _ => (rest, Err OsError)
      | IoLate =>
          (mk fresh (Some (default (path j) (handle j))) (state j) (bytes_on_disk j)
             (last_io_error j) (appends rest) (compactions rest), Err OsError)
      end
  end.

Definition compact_if_large (j : t) : t :=
  if bytes_on_disk j <=? COMPACT_THRESHOLD_BYTES then j
  else match compact j with
       | (j, Ok _) => j
       | (j, Err error) => set_error j error
       end.

(** [random_start], from the 64 bits the hasher yields. *)
Definition random_start (hash : Z) : Z :=
  let FLOOR := Z.shiftl 1 24 in
  let CEILING := Z.shiftl 1 31 in
  FLOOR + hash mod (CEILING - FLOOR).

Definition open_with_entropy (outcome : io) (disk : bytes) (hash : Z) (a c : list io)
    : bytes * result IoError t :=
  match open outcome disk with
  | (disk, Err e) => (disk, Err e)
  | (disk, Ok j) =>
      let j := with_scripts j a c in
      if (bytes_on_disk j =? 0) && (State.next_sequence (state j) =? 0) then
        let start := random_start hash in
        match try_append j (Sequence start) with
        | (j, Err e) => (path j, Err e)
        | (j, Ok _) =>
            let j := set_state j (State.with_next (state j) start) in (path j, Ok j)
        end
      else (path j, Ok j)
  end.

Definition commit_vote (j : t) (s : Subject.t) (voter : str) (frame : OutgoingFrame.t)
    : t * result JournalError unit :=
  let key := lock_key s voter in
  if bool_decide (key ∈ State.locks (state j)) then (j, Err JAlreadyVoted)
  else
    match append j (Vote key (OutgoingFrame.sequence frame) (OutgoingFrame.frame_bytes frame)
                      (Timestamp.as_secs <$> OutgoingFrame.expires_at frame)) with
    | (j, Err e) => (j, Err e)
    | (j, Ok _) =>
        let st := State.add_lock (state j) key in
        let st := State.with_next st
                    (Z.max (State.next_sequence st) (sat_add64 (OutgoingFrame.sequence frame) 1)) in
        let st := State.with_pending st
                    (<[OutgoingFrame.sequence frame := frame]> (State.pending st)) in
        (compact_if_large (set_state j st), Ok tt)
    end.

Definition has_voted (j : t) (s : Subject.t) (voter : str) : bool :=
  bool_decide (lock_key s voter ∈ State.locks (state j)).

Definition reserve_sequence (j : t) : t * result JournalError Z :=
  let reserved := State.next_sequence (state j) in
  let next := sat_add64 reserved 1 in
  match append j (Sequence next) with
  | (j, Err e) => (j, Err e)
  | (j, Ok _) => (compact_if_large (set_state j (State.with_next (state j) next)), Ok reserved)
  end.

Definition next_sequence (j : t) : Z := State.next_sequence (state j).
Definition pending (j : t) : list OutgoingFrame.t := values (State.pending (state j)).

Definition retire (j : t) (sequence : Z) : t * bool :=
  match append j (Retired sequence) with
  | (j, Err _) => (j, false)
  | (j, Ok _) =>
      (set_state j (State.with_pending (state j) (delete sequence (State.pending (state j)))), true)
  end.

Definition acknowledge (j : t) (sequence : Z) : t * bool :=
  match State.pending (state j) !! sequence with
  | None => (j, false)
  | Some _ =>
      match retire j sequence with
      | (j, false) => (j, false)
      | (j, true) => (compact_if_large j, true)
      end
  end.

Definition expired_at (now : Timestamp.t) (st : State.t) : list Z :=
  OutgoingFrame.sequence
  <$> filter (fun f => OutgoingFrame.outlived now f = true) (values (State.pending st)).
Definition drop_expired (j : t) (now : Timestamp.t) : t :=
  compact_if_large
    (fold_left (fun j sequence => (retire j sequence).1) (expired_at now (state j)) j).

Definition witness (j : t) (author : str) (frame : bytes) : t * result JournalError unit :=
  match State.witnessed (state j) !! author with
  | Some _ => (j, Ok tt)
  | None =>
      match append j (Witnessed author frame) with
      | (j, Err e) => (j, Err e)
      | (j, Ok _) =>
          (compact_if_large (set_state j (State.with_witnessed (state j)
             (<[author := frame]> (State.witnessed (state j))))), Ok tt)
      end
  end.

Definition witnessed (j : t) : list (str * bytes) := entries (State.witnessed (state j)).
Definition epoch (j : t) : option Z := State.epoch (state j).

Definition enter_epoch (j : t) (e : Z) : t * result JournalError unit :=
  if match State.epoch (state j) with Some held => e <=? held | None => false end then (j, Ok tt)
  else
    match append j (Epoch e) with
    | (j, Err x) => (j, Err x)
    | (j, Ok _) =>
        let st := State.with_epoch (State.with_seen (state j) ∅) (Some e) in
        (compact_if_large (set_state j st), Ok tt)
    end.

Definition highest_seen (j : t) (sender : Z) : option Z := State.seen (state j) !! sender.

Definition mark_seen (j : t) (sender sequence : Z) : t * result JournalError unit :=
  if match State.seen (state j) !! sender with Some held => sequence <=? held | None => false end
  then (j, Ok tt)
  else
    match append j (Seen sender sequence) with
    | (j, Err e) => (j, Err e)
    | (j, Ok _) =>
        (compact_if_large (set_state j (State.with_seen (state j)
           (<[sender := sequence]> (State.seen (state j))))), Ok tt)
    end.

Definition snapshot (j : t) : JournalSnapshot :=
  {| snap_epoch := State.epoch (state j);
     snap_seen := entries (State.seen (state j));
     snap_vote_locks := (fun k => (k, 0)) <$> members_of (State.locks (state j));
     snap_pending := values (State.pending (state j));
     snap_next_sequence := State.next_sequence (state j);
     snap_witnessed := entries (State.witnessed (state j)) |}.
End ops.
End Log.

#[global] Instance log_journal `{Postcard} : Journal Log.t := {
  commit_vote := Log.commit_vote;
  has_voted := Log.has_voted;
  reserve_sequence := Log.reserve_sequence;
  next_sequence := Log.next_sequence;
  pending := Log.pending;
  acknowledge := Log.acknowledge;
  drop_expired := Log.drop_expired;
  witness := Log.witness;
  witnessed := Log.witnessed;
  epoch := Log.epoch;
  enter_epoch := Log.enter_epoch;
  highest_seen := Log.highest_seen;
  mark_seen := Log.mark_seen;
  snapshot := Log.snapshot;
}.
