(* ===== verification/LogRecovery.v ===== *)
(** Reading a log back (src/src/infrastructure/log.rs): a torn tail is cut at a
    record, and compaction rewrites the state it was given.  Ends with a concrete
    codec, which the witnesses use for postcard. *)
From S2P Require Import Prelude Time Contracts Journal MemoryJournal Crc LogJournal.

(** * Records and replay *)

Section records.
Context `{PostcardLaws}.

Lemma encode_ok e r : encode e = Ok r <->
  exists p, to_allocvec e = Some p /\ len p <= MAX_RECORD_BYTES
    /\ r = le_bytes 4 (len p) ++ p ++ le_bytes 4 (crc32 p).
Proof.
  unfold encode. rewrite result_bind_ok. setoid_rewrite ok_or_ok. split.
  - intros (p & Hp & Hr). exists p. destruct (Z.ltb_spec MAX_RECORD_BYTES (len p)); [done|].
    destruct (U32_MAX <? len p); simplify_eq; auto.
  - intros (p & Hp & Hlen & ->). exists p. split; [done|].
    unfold MAX_RECORD_BYTES in *. destruct (Z.ltb_spec (64 * 1024) (len p)); [lia|].
    destruct (Z.ltb_spec U32_MAX (len p)); [width; lia|done].
Qed.

Lemma le4_prefix z (rest : bytes) :
  take 4 (le_bytes 4 z ++ rest) = le_bytes 4 z /\ drop 4 (le_bytes 4 z ++ rest) = rest.
Proof.
  split; [apply take_app_length'|apply drop_app_length']; by rewrite length_le_bytes.
Qed.
Lemma of_le4 z : is_u32 z -> of_le (le_bytes 4 z) = z.
Proof. intros. apply of_le_le_bytes. rewrite pow256_4. width; lia. Qed.

Lemma length_record (p : bytes) z :
  length (le_bytes 4 (len p) ++ p ++ le_bytes 4 z) = (8 + length p)%nat.
Proof. rewrite !length_app, !length_le_bytes. lia. Qed.

(** The reader recovers a record the writer framed, whatever follows it. *)
Lemma read_record_encode e r rest :
  entry_ok e -> encode e = Ok r -> read_record (r ++ rest) = Some (e, length r).
Proof.
  intros He (p & Hp & Hlen & ->)%encode_ok.
  destruct (postcard_roundtrip e p He Hp) as [Hwf Hdec].
  unfold MAX_RECORD_BYTES in Hlen. pose proof (crc32_range p) as Hcrc.
  rewrite length_record. rewrite <- !app_assoc. unfold read_record.
  destruct (le4_prefix (len p) (p ++ le_bytes 4 (crc32 p) ++ rest)) as [-> ->].
  rewrite of_le4 by (unfold len in *; width; lia).
  assert (len (le_bytes 4 (len p) ++ p ++ le_bytes 4 (crc32 p) ++ rest) = 8 + len p + len rest) as ->.
  { unfold len. rewrite !length_app, !length_le_bytes. lia. }
  unfold len in *. rewrite Nat2Z.id.
  destruct (Z.ltb_spec (8 + Z.of_nat (length p) + Z.of_nat (length rest)) 4); [lia|].
  unfold MAX_RECORD_BYTES. destruct (Z.ltb_spec (64 * 1024) (Z.of_nat (length p))); [lia|].
  destruct (Z.ltb_spec (8 + Z.of_nat (length p) + Z.of_nat (length rest)) (4 + Z.of_nat (length p) + 4)); [lia|].
  rewrite take_app_length, <- drop_drop.
  destruct (le4_prefix (Z.of_nat (length p)) (p ++ le_bytes 4 (crc32 p) ++ rest)) as [_ ->].
  rewrite drop_app_length. destruct (le4_prefix (crc32 p) rest) as [-> _].
  rewrite of_le4, Z.eqb_refl by done. simpl. rewrite Hdec. f_equal. f_equal. lia.
Qed.

(** A record cut short is not a record. *)
Lemma read_record_torn e r n :
  encode e = Ok r -> (n < length r)%nat -> read_record (take n r) = None.
Proof.
  intros (p & Hp & Hlen & ->)%encode_ok Hn. rewrite length_record in Hn.
  unfold MAX_RECORD_BYTES in Hlen. unfold read_record.
  assert (len (take n (le_bytes 4 (len p) ++ p ++ le_bytes 4 (crc32 p))) = Z.of_nat n) as ->.
  { pose proof (length_record p (crc32 p)) as Hr. unfold len in *. rewrite length_take. lia. }
  destruct (Z.ltb_spec (Z.of_nat n) 4); [done|].
  rewrite take_take, Nat.min_l by lia. destruct (le4_prefix (len p) (p ++ le_bytes 4 (crc32 p))) as [-> _].
  rewrite of_le4 by (unfold len in *; width; lia).
  destruct (MAX_RECORD_BYTES <? len p); [done|].
  unfold len in *. destruct (Z.ltb_spec (Z.of_nat n) (4 + Z.of_nat (length p) + 4)); [done|lia].
Qed.

Lemma encode_wf e r : entry_ok e -> encode e = Ok r -> wf_bytes r.
Proof.
  intros He (p & Hp & _ & ->)%encode_ok. destruct (postcard_roundtrip e p He Hp) as [Hwf _].
  apply Forall_app. split; [apply wf_le_bytes|]. apply Forall_app. split; [done|apply wf_le_bytes].
Qed.

Lemma read_record_some bs e n : wf_bytes bs ->
  read_record bs = Some (e, n) <->
  exists L, Z.of_nat L = of_le (take 4 bs) /\ n = (4 + L + 4)%nat /\ (n <= length bs)%nat
    /\ Z.of_nat L <= MAX_RECORD_BYTES
    /\ of_le (take 4 (drop (4 + L) bs)) = crc32 (take L (drop 4 bs))
    /\ from_bytes (take L (drop 4 bs)) = Some e.
Proof.
  intros Hwf. unfold read_record. pose proof (of_le_bound (take 4 bs) (Forall_take _ _ _ Hwf)) as HL.
  set (l := of_le (take 4 bs)) in *. destruct (Z.ltb_spec (len bs) 4) as [|H4].
  { unfold len in *. split; [done|]. intros (L & ? & ? & ? & ?). lia. }
  destruct (Z.ltb_spec MAX_RECORD_BYTES l) as [|HM].
  { split; [done|]. intros (L & ? & ? & ? & ? & ?). lia. }
  destruct (Z.ltb_spec (len bs) (4 + l + 4)) as [|Hlen].
  { unfold len in *. split; [done|]. intros (L & ? & ? & ? & ?). lia. }
  unfold len in *. set (p := take (Z.to_nat l) (drop 4 bs)).
  destruct (Z.eqb_spec (of_le (take 4 (drop (4 + Z.to_nat l) bs))) (crc32 p)) as [Hc|Hc]; simpl.
  - destruct (from_bytes p) as [e'|] eqn:Hd.
    + split.
      * intros [= <- <-]. exists (Z.to_nat l). split_and!; auto; lia.
      * intros (L & HL' & -> & _ & _ & _ & Hd'). assert (L = Z.to_nat l) as -> by lia.
        fold p in Hd'. congruence.
    + split; [done|]. intros (L & HL' & -> & _ & _ & _ & Hd').
      assert (L = Z.to_nat l) as -> by lia. fold p in Hd'. congruence.
  - split; [done|]. intros (L & HL' & -> & _ & _ & Hc' & _).
    assert (L = Z.to_nat l) as -> by lia. fold p in Hc'. done.
Qed.

(** The reader looks at nothing past the record it returns. *)
Lemma read_record_app bs e n more : wf_bytes bs -> wf_bytes more -> read_record bs = Some (e, n) ->
  (8 <= n <= length bs)%nat /\ entry_ok e /\ read_record (bs ++ more) = Some (e, n).
Proof.
  intros Hb Hm (L & HL & -> & Hn & HM & Hc & Hd)%read_record_some; [|done].
  split_and!; [lia..|by eapply postcard_typed|].
  apply read_record_some; [by apply Forall_app|]. exists L.
  rewrite !length_app, !drop_app_le, !take_app_le by (rewrite ?length_drop; lia).
  split_and!; auto; lia.
Qed.

Lemma read_record_take bs e n m : wf_bytes bs -> (n <= m)%nat -> read_record bs = Some (e, n) ->
  read_record (take m bs) = Some (e, n).
Proof.
  intros Hb Hnm (L & HL & -> & Hn & HM & Hc & Hd)%read_record_some; [|done].
  apply read_record_some; [by apply Forall_take|]. exists L.
  rewrite !skipn_firstn_comm, !take_take.
  rewrite (Nat.min_l 4 m), (Nat.min_l 4), (Nat.min_l L) by lia.
  rewrite length_take. split_and!; auto; lia.
Qed.

(** ** The loop *)

(** [bs] is a whole number of records that take [st] to [st']. *)
Inductive replays : State.t -> bytes -> State.t -> Prop :=
| replays_nil st : replays st [] st
| replays_cons st bs e n st' :
    read_record bs = Some (e, n) -> replays (State.apply st e) (drop n bs) st' -> replays st bs st'.

Lemma replays_record st e r : entry_ok e -> encode e = Ok r -> replays st r (State.apply st e).
Proof.
  intros He Hr. pose proof (read_record_encode e r [] He Hr) as Hread. rewrite app_nil_r in Hread.
  eapply replays_cons; [exact Hread|]. rewrite drop_all. constructor.
Qed.
Lemma replays_app st bs st' more st'' : wf_bytes bs -> wf_bytes more ->
  replays st bs st' -> replays st' more st'' -> replays st (bs ++ more) st''.
Proof.
  intros Hb Hm. induction 1 as [|st bs e n st' Hread Hrest IH]; [done|]. intros Hmore.
  destruct (read_record_app bs e n more Hb Hm Hread) as (Hn & _ & Hread').
  eapply replays_cons; [exact Hread'|]. rewrite drop_app_le by lia.
  apply IH; [by apply Forall_drop|done].
Qed.

(** On whole records followed by something that is not one, the loop returns
    what the records say and where they end. *)
Lemma replay_loop_replays st bs st' more k at_ : wf_bytes bs -> wf_bytes more ->
  replays st bs st' -> read_record more = None -> (length bs < k)%nat ->
  replay_loop k (bs ++ more) st at_ = (st', at_ + length bs)%nat.
Proof.
  intros Hb Hm Hr Hnone. revert k at_ Hb.
  induction Hr as [st|st bs e n st' Hread Hrest IH]; intros [|k] at_ Hb Hk; try lia.
  - cbn [replay_loop app]. rewrite Hnone. simpl. f_equal. lia.
  - destruct (read_record_app bs e n more Hb Hm Hread) as (Hn & _ & Hread').
    cbn [replay_loop]. rewrite Hread', drop_app_le by lia.
    rewrite IH; [|by apply Forall_drop|rewrite length_drop; lia].
    rewrite length_drop. f_equal. lia.
Qed.
Lemma read_record_nil : read_record [] = None.
Proof. reflexivity. Qed.
Lemma replay_replays bs st tail : wf_bytes bs -> wf_bytes tail ->
  replays State.default_ bs st -> read_record tail = None ->
  replay (bs ++ tail) = (st, length bs).
Proof.
  intros. unfold replay. rewrite (replay_loop_replays _ bs st); try done.
  rewrite length_app. lia.
Qed.

(** Whatever the file holds, the loop finds whole records and stops where the
    next is not one. *)
Lemma replay_loop_finds bs st k at_ : wf_bytes bs -> (length bs < k)%nat ->
  exists st' m, replay_loop k bs st at_ = (st', at_ + m)%nat /\ (m <= length bs)%nat
    /\ replays st (take m bs) st' /\ read_record (drop m bs) = None.
Proof.
  revert bs st at_; induction k as [|k IH]; intros bs st at_ Hb Hk; [lia|].
  cbn [replay_loop]. destruct (read_record bs) as [[e n]|] eqn:Hread.
  - destruct (read_record_app bs e n [] Hb ltac:(constructor) Hread) as (Hn & _ & _).
    destruct (IH (drop n bs) (State.apply st e) (at_ + n)%nat) as (st' & m & -> & Hm & Hr & Hnone).
    { by apply Forall_drop. }
    { rewrite length_drop. lia. }
    rewrite length_drop in Hm. exists st', (n + m)%nat. split_and!; [f_equal; lia|lia| |].
    + eapply replays_cons; [apply read_record_take; [done| |exact Hread]; lia|].
      rewrite skipn_firstn_comm. by replace (n + m - n)%nat with m by lia.
    + by rewrite <- drop_drop.
  - exists st, 0%nat. rewrite Nat.add_0_r, take_0. split_and!; [done|lia|constructor|done].
Qed.
Lemma replay_finds bs : wf_bytes bs ->
  exists st m, replay bs = (st, m) /\ (m <= length bs)%nat
    /\ replays State.default_ (take m bs) st /\ read_record (drop m bs) = None.
Proof.
  intros Hb. destruct (replay_loop_finds bs State.default_ (S (length bs)) 0 Hb ltac:(lia))
    as (st & m & Hr & ?). exists st, m. done.
Qed.
Lemma replays_encode_all st es rs : Forall entry_ok es -> Log.encode_all es = Ok rs ->
  wf_bytes (concat rs) /\ replays st (concat rs) (foldl State.apply st es).
Proof.
  revert st rs; induction es as [|e es IH]; intros st rs Hes; cbn [Log.encode_all].
  { intros [= <-]. split; constructor. }
  apply Forall_cons in Hes as [He Hes].
  intros (r & Hr & (rs' & Hrs & [= <-])%result_bind_ok)%result_bind_ok.
  destruct (IH (State.apply st e) rs' Hes Hrs) as [Hwf Hrep]. pose proof (encode_wf e r He Hr).
  cbn [concat foldl]. split; [by apply Forall_app|].
  eapply replays_app; [done..|by apply replays_record|done].
Qed.
End records.

(** * The live state *)

Definition frame_ok (f : OutgoingFrame.t) : Prop :=
  is_u64 (OutgoingFrame.sequence f) /\ wf_bytes (OutgoingFrame.frame_bytes f)
  /\ opt_u64 (Timestamp.as_secs <$> OutgoingFrame.expires_at f).

(** The types of the fields; every pending frame is filed under its sequence, and
    the counter has passed it. *)
Record state_ok (st : State.t) : Prop := {
  ok_next : is_u64 (State.next_sequence st);
  ok_epoch e : State.epoch st = Some e -> is_u16 e;
  ok_seen i n : State.seen st !! i = Some n -> is_u16 i /\ is_u64 n;
  ok_pending k f : State.pending st !! k = Some f ->
    OutgoingFrame.sequence f = k /\ frame_ok f /\ sat_add64 k 1 <= State.next_sequence st;
  ok_witnessed a bs : State.witnessed st !! a = Some bs -> wf_bytes bs;
}.

#[global] Instance opt_u64_dec o : Decision (opt_u64 o).
Proof. destruct o; simpl; apply _. Defined.
#[global] Instance frame_ok_dec f : Decision (frame_ok f).
Proof. unfold frame_ok, wf_bytes. apply _. Defined.

Section state.
Lemma state_ok_default : state_ok State.default_.
Proof. by split. Qed.

Lemma add_frame_ok st s bs x : is_u64 s -> wf_bytes bs -> opt_u64 x ->
  state_ok st -> state_ok (State.add_frame st s bs x).
Proof.
  intros Hs Hb Hx [Hn He Hse Hp Hw]. split; simpl; auto.
  - unfold sat_add64. width; lia.
  - intros k f [[<- <-]|[Hne Hf]]%lookup_insert_Some.
    + destruct x as [t|]; simpl; (split_and!; [done| |lia]); split_and!; simpl; auto.
    + destruct (Hp k f Hf) as (? & ? & ?). split_and!; [done..|lia].
Qed.
Lemma add_lock_ok st k : state_ok st -> state_ok (State.add_lock st k).
Proof. by intros []. Qed.
Lemma apply_ok st e : entry_ok e -> state_ok st -> state_ok (State.apply st e).
Proof.
  intros He Hst. destruct e as [k s bs x|n|i n|e|s|a bs|k|s bs x]; simpl in He |- *.
  - destruct He as (? & ? & ?). by apply add_frame_ok, add_lock_ok.
  - destruct Hst as [Hn ? ? Hp ?]. split; simpl; auto; [width; lia|].
    intros k f Hf. destruct (Hp k f Hf) as (? & ? & ?). split_and!; [done..|lia].
  - destruct Hst as [Hn ? Hse ? ?], He as [Hi Hn']. split; simpl; auto.
    intros j m [[<- <-]|[_ ?]]%lookup_insert_Some; [|by apply Hse].
    split; [done|]. destruct (State.seen st !! i) as [m|] eqn:Hm; simpl.
    + destruct (Hse _ _ Hm). width; lia.
    + width; lia.
  - destruct Hst as [Hn Hep Hse ? ?].
    destruct (State.epoch st) as [h|] eqn:Hh.
    + pose proof (Hep h eq_refl) as Hhe. destruct (h <? e); split; simpl; auto.
      * rewrite Hh. intros x [= <-]. width; lia.
      * done.
      * rewrite Hh. intros x [= <-]. width; lia.
    + split; simpl; auto; [rewrite Hh; by intros x [= <-]|done].
  - destruct Hst as [? ? ? Hp ?]. split; simpl; auto.
    intros k f [_ Hf]%lookup_delete_Some. by apply Hp.
  - destruct (State.witnessed st !! a) eqn:Ha; [done|].
    destruct Hst as [? ? ? ? Hw]. split; simpl; auto.
    intros b cs [[<- <-]|[_ ?]]%lookup_insert_Some; [done|by eapply Hw].
  - by apply add_lock_ok.
  - destruct He as (? & ? & ?). by apply add_frame_ok.
Qed.

(** ** Compaction *)

Lemma foldl_seen st l : NoDup l.*1 -> (forall i n, (i, n) ∈ l -> 0 <= n) ->
  (forall i, i ∈ l.*1 -> State.seen st !! i = None) ->
  foldl State.apply st ((fun sn => Seen sn.1 sn.2) <$> l)
  = State.with_seen st (foldl (fun m kv => <[kv.1 := kv.2]> m) (State.seen st) l).
Proof.
  revert st; induction l as [|[i n] l IH]; intros st Hnd Hpos Hnew; [by destruct st|].
  apply NoDup_cons in Hnd as [Hi Hnd]. rewrite fmap_cons. cbn [foldl fst snd State.apply].
  rewrite (Hnew i) by by left. cbn [default]. rewrite Z.max_r by (apply (Hpos i); by left).
  rewrite IH; [done|done|intros; eapply Hpos; by right|].
  intros j Hj. cbn [State.seen State.with_seen]. rewrite lookup_insert_ne by (intros ->; done).
  apply Hnew. by right.
Qed.
Lemma foldl_locks st l :
  foldl State.apply st (Lock <$> l)
  = State.mk (State.epoch st) (State.seen st) (list_to_set l ∪ State.locks st) (State.pending st)
      (State.next_sequence st) (State.witnessed st).
Proof.
  revert st; induction l as [|k l IH]; intros st; rewrite ?fmap_cons; cbn [foldl].
  - destruct st; simpl. f_equal. set_solver.
  - rewrite IH. simpl. f_equal. set_solver.
Qed.
Lemma foldl_frames st (l : list (Z * OutgoingFrame.t)) :
  (forall k f, (k, f) ∈ l -> OutgoingFrame.sequence f = k /\ sat_add64 k 1 <= State.next_sequence st) ->
  foldl State.apply st ((fun f => Frame (OutgoingFrame.sequence f) (OutgoingFrame.frame_bytes f)
                   (Timestamp.as_secs <$> OutgoingFrame.expires_at f)) <$> l.*2)
  = State.with_pending st (foldl (fun m kv => <[kv.1 := kv.2]> m) (State.pending st) l).
Proof.
  revert st; induction l as [|[k f] l IH]; intros st Hl; [by destruct st|].
  destruct (Hl k f ltac:(by left)) as [Hk Hn].
  assert (State.add_frame st (OutgoingFrame.sequence f) (OutgoingFrame.frame_bytes f)
      (Timestamp.as_secs <$> OutgoingFrame.expires_at f)
    = State.with_pending st (<[k := f]> (State.pending st))) as Hadd.
  { unfold State.add_frame. rewrite Hk. unfold State.with_next, State.with_pending; simpl.
    rewrite Z.max_l by done. repeat f_equal.
    destruct f as [bs sq [[x]|]]; simpl in *; by rewrite <- Hk. }
  rewrite !fmap_cons. cbn [foldl fst snd State.apply]. rewrite Hadd, IH; [done|].
  intros k' f' Hin. apply Hl. by right.
Qed.
Lemma foldl_witnessed st l : NoDup l.*1 ->
  (forall a, a ∈ l.*1 -> State.witnessed st !! a = None) ->
  foldl State.apply st ((fun af => Witnessed af.1 af.2) <$> l)
  = State.with_witnessed st (foldl (fun m kv => <[kv.1 := kv.2]> m) (State.witnessed st) l).
Proof.
  revert st; induction l as [|[a f] l IH]; intros st Hnd Hnew; [by destruct st|].
  apply NoDup_cons in Hnd as [Ha Hnd]. rewrite fmap_cons. cbn [foldl fst snd State.apply].
  rewrite (Hnew a) by by left. rewrite IH; [done|done|].
  intros b Hb. cbn [State.witnessed State.with_witnessed].
  rewrite lookup_insert_ne by (intros ->; done). apply Hnew. by right.
Qed.

Lemma compact_entries_apply st : state_ok st ->
  foldl State.apply State.default_ (Log.compact_entries st) = st.
Proof.
  intros [Hn Hep Hse Hp Hw]. unfold Log.compact_entries. rewrite !foldl_app.
  set (st1 := State.mk (State.epoch st) ∅ ∅ ∅ (State.next_sequence st) ∅).
  assert (foldl State.apply (foldl State.apply State.default_ [Sequence (State.next_sequence st)])
    match State.epoch st with Some e => [Epoch e] | None => [] end = st1) as ->.
  { unfold st1, State.default_. destruct (State.epoch st); cbn;
      unfold State.with_next, State.with_seen, State.with_epoch; simpl;
      rewrite Z.max_r by (width; lia); done. }
  rewrite foldl_seen; [|apply entries_nodup| |done].
  2:{ intros i n ?%elem_of_entries. destruct (Hse i n); [done|]. width; lia. }
  rewrite foldl_locks. unfold values. rewrite foldl_frames.
  2:{ intros k f ?%elem_of_entries. destruct (Hp k f) as (? & ? & ?); [done|]. done. }
  rewrite foldl_witnessed; [|apply entries_nodup|done].
  assert (list_to_set (members_of (State.locks st)) ∪ ∅ = State.locks st) as Hlocks.
  { apply set_eq. intros k. rewrite elem_of_union, elem_of_list_to_set, elem_of_members. set_solver. }
  destruct st. unfold st1, State.with_witnessed, State.with_pending. simpl in Hlocks |- *.
  rewrite !foldl_insert_entries. by rewrite Hlocks.
Qed.
Lemma compact_entries_ok st : state_ok st -> Forall entry_ok (Log.compact_entries st).
Proof.
  intros [Hn Hep Hse Hp Hw]. unfold Log.compact_entries. rewrite !Forall_app, !Forall_fmap.
  split_and!.
  - constructor; [done|constructor].
  - destruct (State.epoch st) as [e|]; constructor; [by apply Hep|constructor].
  - apply Forall_forall. intros [i n] ?%elem_of_entries. by apply Hse.
  - by apply Forall_true.
  - apply Forall_forall. intros f [k Hk]%elem_of_values. by destruct (Hp k f Hk) as (_ & ? & _).
  - apply Forall_forall. intros [a f] ?%elem_of_entries. by eapply Hw.
Qed.
End state.

(** * A concrete serialisation

    One that obeys the laws, for the instances at concrete inputs: an entry's
    number in an enumeration of all entries, a bit to a byte. *)

#[global] Instance entry_ok_dec e : Decision (entry_ok e).
Proof. destruct e; simpl; unfold wf_bytes; apply _. Defined.

Section bits.
Definition entry_tuple (e : Entry) : Z * str * bytes * option Z * Z :=
  match e with
  | Vote k s bs x => (0, k, bs, x, s)
  | Sequence n => (1, [], [], None, n)
  | Seen i n => (2, [], [], Some i, n)
  | Epoch e => (3, [], [], None, e)
  | Retired s => (4, [], [], None, s)
  | Witnessed a bs => (5, a, bs, None, 0)
  | Lock k => (6, k, [], None, 0)
  | Frame s bs x => (7, [], bs, x, s)
  end.
Definition tuple_entry (t : Z * str * bytes * option Z * Z) : Entry :=
  let '(tag, k, bs, x, n) := t in
  if tag =? 0 then Vote k n bs x
  else if tag =? 1 then Sequence n
  else if tag =? 2 then Seen (default 0 x) n
  else if tag =? 3 then Epoch n
  else if tag =? 4 then Retired n
  else if tag =? 5 then Witnessed k bs
  else if tag =? 6 then Lock k
  else Frame n bs x.
Lemma tuple_entry_tuple e : tuple_entry (entry_tuple e) = e.
Proof. by destruct e. Qed.

Fixpoint pos_bits (p : positive) : bytes :=
  match p with xH => [1] | xO p => 0 :: pos_bits p | xI p => 1 :: pos_bits p end.
Fixpoint bits_pos (l : bytes) : positive :=
  match l with
  | [] | [_] => xH
  | b :: l => if b =? 0 then xO (bits_pos l) else xI (bits_pos l)
  end.
Lemma bits_pos_bits p : bits_pos (pos_bits p) = p.
Proof.
  assert (forall q, pos_bits q <> []) as Hne by (by intros []).
  induction p as [p IH|p IH|]; [| |done]; cbn [pos_bits bits_pos];
    destruct (pos_bits p) eqn:Hp; try (by destruct (Hne p)); by rewrite IH.
Qed.
Lemma wf_pos_bits p : wf_bytes (pos_bits p).
Proof. induction p; constructor; try done. Qed.
End bits.

Definition bit_codec : Postcard := {|
  to_allocvec e := Some (pos_bits (countable.encode (entry_tuple e)));
  from_bytes p :=
    match decode (bits_pos p) with
    | Some t => if bool_decide (entry_ok (tuple_entry t)) then Some (tuple_entry t) else None
    | None => None
    end;
|}.

Lemma bit_codec_laws : @PostcardLaws bit_codec.
Proof.
  split.
  - intros e p He [= <-]. split; [apply wf_pos_bits|]. simpl.
    rewrite bits_pos_bits, decode_encode, tuple_entry_tuple.
    by rewrite bool_decide_eq_true_2.
  - simpl. intros p e. destruct (decode _); [|done]. by case_bool_decide; intros [= <-].
Qed.

Section torn.
Context `{PostcardLaws}.

Lemma encode_all_take es rs k : Log.encode_all es = Ok rs -> Log.encode_all (take k es) = Ok (take k rs).
Proof.
  revert rs k; induction es as [|e es IH]; intros rs [|k] Henc; try done.
  { cbn in Henc. by simplify_eq. }
  cbn [Log.encode_all] in Henc. apply result_bind_ok in Henc as (r & Hr & Henc).
  apply result_bind_ok in Henc as (rs' & Hrs & [= <-]). cbn [take Log.encode_all].
  rewrite Hr. simpl. by rewrite (IH rs' k Hrs).
Qed.
Lemma whole_records es rs n : Forall entry_ok es -> Log.encode_all es = Ok rs ->
  (n <= length (concat rs))%nat ->
  exists k rest, (k <= length es)%nat /\ (length (concat (take k rs)) <= n)%nat
    /\ ((k < length es)%nat -> (n < length (concat (take (S k) rs)))%nat)
    /\ take n (concat rs) = concat (take k rs) ++ rest /\ wf_bytes rest /\ read_record rest = None.
Proof.
  revert rs n; induction es as [|e es IH]; intros rs n Hes Henc Hn; cbn [Log.encode_all] in Henc.
  { simplify_eq. exists 0%nat, []. simpl in *. rewrite take_nil.
    split_and!; [lia..|done|constructor|done]. }
  apply Forall_cons in Hes as [He Hes].
  apply result_bind_ok in Henc as (r & Hr & (rs' & Hrs & [= <-])%result_bind_ok).
  cbn [concat] in *. rewrite length_app in Hn.
  destruct (decide (n < length r)%nat) as [Hlt|Hge].
  - exists 0%nat, (take n r). cbn [take concat]. rewrite app_nil_r, take_app_le by lia.
    split_and!; [simpl; lia..|done| |by eapply read_record_torn].
    apply Forall_take. by eapply encode_wf.
  - destruct (IH rs' (n - length r)%nat Hes Hrs ltac:(lia)) as (k & rest & Hk & Hle & Hlt & Heq & ? & ?).
    exists (S k), rest. cbn [take concat] in *. rewrite !length_app.
    split_and!; [simpl; lia|lia|simpl; lia| |done..].
    rewrite take_app_ge, Heq by lia. by rewrite app_assoc.
Qed.
End torn.

(** C15: a log cut at any byte replays to exactly the records that are whole before
    the cut, and reports where the last of them ends. *)
Theorem torn_log_recovers `{PostcardLaws} (es : list Entry) (rs : list bytes) (n : nat) :
  Forall entry_ok es -> Log.encode_all es = Ok rs -> (n <= length (concat rs))%nat ->
  exists k, (k <= length es)%nat
    /\ replay (take n (concat rs)) = (foldl State.apply State.default_ (take k es), length (concat (take k rs)))
    /\ (length (concat (take k rs)) <= n)%nat
    /\ ((k < length es)%nat -> (n < length (concat (take (S k) rs)))%nat).
Proof.
  intros Hes Henc Hn.
  destruct (whole_records es rs n Hes Henc Hn) as (k & rest & Hk & Hle & Hlt & Heq & Hw & Hnone).
  exists k. split; [done|]. split; [|done].
  destruct (replays_encode_all State.default_ (take k es) (take k rs)) as [Hw' Hr].
  { by apply Forall_take. }
  { by apply encode_all_take. }
  rewrite Heq. by apply replay_replays.
Qed.

Definition demo_entries : list Entry := [Sequence 7; Lock (lit "k"); Retired 3].

Lemma torn_log_recovers_witness :
  exists k, (k <= 3)%nat
    /\ @replay bit_codec (take 40 (concat (match @Log.encode_all bit_codec demo_entries with Ok rs => rs | Err _ => [] end)))
       = (foldl State.apply State.default_ (take k demo_entries),
          length (concat (take k (match @Log.encode_all bit_codec demo_entries with Ok rs => rs | Err _ => [] end)))).
Proof.
  destruct (@torn_log_recovers bit_codec bit_codec_laws demo_entries
    (match @Log.encode_all bit_codec demo_entries with Ok rs => rs | Err _ => [] end) 40)
    as (k & Hk & Hr & _).
  - apply (bool_decide_unpack _). vm_compute. exact I.
  - vm_compute. reflexivity.
  - vm_compute. lia.
  - exists k. split; [exact Hk|exact Hr].
Defined.

(** A compacted log replays to the state it was written from, with nothing of it
    lost, the counter and the epoch included. *)
Theorem compaction_preserves_state `{PostcardLaws} (st : State.t) (rs : list bytes) :
  state_ok st -> Log.encode_all (Log.compact_entries st) = Ok rs ->
  replay (concat rs) = (st, length (concat rs)).
Proof.
  intros Hst Henc.
  destruct (replays_encode_all State.default_ _ rs (compact_entries_ok _ Hst) Henc) as [Hw Hr].
  rewrite compact_entries_apply in Hr by done.
  pose proof (replay_replays (concat rs) st [] Hw) as Hrep. rewrite app_nil_r in Hrep.
  apply Hrep; [constructor|done..].
Qed.

Definition demo_state : State.t :=
  State.mk (Some 4) {[ 1 := 9; 2 := 0 ]} {[ lit "k" ]} {[ 5 := OutgoingFrame.new [1; 2] 5 ]} 6
    {[ lit "a" := [3] ]}.

Lemma compaction_preserves_state_witness :
  @replay bit_codec (concat (match @Log.encode_all bit_codec (Log.compact_entries demo_state) with Ok rs => rs | Err _ => [] end))
  = (demo_state, length (concat (match @Log.encode_all bit_codec (Log.compact_entries demo_state) with Ok rs => rs | Err _ => [] end))).
Proof.
  apply (@compaction_preserves_state bit_codec bit_codec_laws).
  - split; simpl.
    + split; vm_compute; discriminate.
    + intros e [= <-]. split; vm_compute; discriminate.
    + intros i n [[<- <-]|[_ [<- <-]%lookup_singleton_Some]]%lookup_insert_Some;
        split; split; vm_compute; discriminate.
    + intros k f [<- <-]%lookup_singleton_Some. split; [done|]. split; [|vm_compute; discriminate].
      apply (bool_decide_unpack _). vm_compute. exact I.
    + intros a bs [<- <-]%lookup_singleton_Some. apply (bool_decide_unpack _). vm_compute. exact I.
  - vm_compute. reflexivity.
Defined.
