(* ===== verification/LogSafety.v ===== *)
(** The journal on disk as its callers see it (src/src/infrastructure/log.rs): it
    obeys the laws of the trait whatever the disk does, and each operation is the
    in-memory journal's or a refusal. *)
From S2P Require Import Prelude Time Contracts Journal MemoryJournal Crc LogJournal LogRecovery.

Section appends.
Context `{Postcard}.

Lemma written_state j bs : Log.state (Log.written j bs) = Log.state j.
Proof. unfold Log.written. by destruct (Log.handle j). Qed.
Lemma try_append_state j e : Log.state (Log.try_append j e).1 = Log.state j.
Proof.
  unfold Log.try_append. destruct (encode e); [|done].
  destruct (hd _ _); simpl; by rewrite written_state.
Qed.
Lemma append_state j e : Log.state (Log.append j e).1 = Log.state j.
Proof.
  pose proof (try_append_state j e) as Ht. unfold Log.append.
  by destruct (Log.try_append j e) as [? []].
Qed.
Lemma append_err j e j' x : Log.append j e = (j', Err x) -> x = NotDurable.
Proof. unfold Log.append. destruct (Log.try_append j e) as [? []]; naive_solver. Qed.
Lemma compact_state j : Log.state (Log.compact j).1 = Log.state j.
Proof. unfold Log.compact. destruct (Log.encode_all _); [|done]. by destruct (hd _ _). Qed.
Lemma compact_if_large_state j : Log.state (Log.compact_if_large j) = Log.state j.
Proof.
  pose proof (compact_state j) as Hc. unfold Log.compact_if_large.
  destruct (_ <=? _); [done|]. by destruct (Log.compact j) as [? []].
Qed.
Lemma append_state_eq j e j' r : Log.append j e = (j', r) -> Log.state j' = Log.state j.
Proof. intros Ha. by rewrite <- (append_state j e), Ha. Qed.
Lemma retire_fst j n :
  Log.state (Log.retire j n).1
  = if (Log.retire j n).2
    then State.with_pending (Log.state j) (delete n (State.pending (Log.state j)))
    else Log.state j.
Proof.
  unfold Log.retire. destruct (Log.append j (Retired n)) as [j' r] eqn:Ha.
  apply append_state_eq in Ha. destruct r; simpl; by rewrite Ha.
Qed.

(** Sweeping touches nothing but the pending frames. *)
Lemma retire_all_state l j :
  let st := Log.state (fold_left (fun j n => (Log.retire j n).1) l j) in
  exists m, st = State.with_pending (Log.state j) m /\ m ⊆ State.pending (Log.state j)
    /\ forall k f, State.pending (Log.state j) !! k = Some f -> k ∉ l -> m !! k = Some f.
Proof.
  revert j; induction l as [|n l IH]; intros j; cbn [fold_left].
  { exists (State.pending (Log.state j)). simpl. split_and!; [by destruct (Log.state j)|done|done]. }
  destruct (IH (Log.retire j n).1) as (m & -> & Hsub & Hkeep). rewrite retire_fst in *.
  exists m. destruct (Log.retire j n).2; simpl in *.
  - split_and!; [done| |].
    + etrans; [exact Hsub|]. apply delete_subseteq.
    + intros k f Hk Hnot. apply Hkeep; [|set_solver].
      rewrite lookup_delete_ne by set_solver. done.
  - split_and!; [done..|]. intros k f Hk Hnot. apply Hkeep; set_solver.
Qed.
End appends.

Ltac append_cases :=
  match goal with
  | |- context [Log.append ?j ?e] =>
      let j' := fresh "j" in let r := fresh "r" in let Ha := fresh "Ha" in
      let Hs := fresh "Hs" in
      destruct (Log.append j e) as [j' r] eqn:Ha;
      pose proof (append_state_eq _ _ _ _ Ha) as Hs;
      destruct r as [[]|?]; [|pose proof (append_err _ _ _ _ Ha); subst];
      cbn [fst snd]; rewrite ?compact_if_large_state; cbn [Log.state Log.set_state]; rewrite ?Hs
  end.

(** * The laws of the trait *)

Definition log_held (j : Log.t) : gset str := State.locks (Log.state j).
Definition log_good (j : Log.t) : Prop := State.next_sequence (Log.state j) <= U64_MAX.

Section laws.
Context `{Postcard}.

(** What an operation leaves of the locks and the counter. *)
Lemma log_op_state j op :
  let st := Log.state j in let st' := Log.state (apply_op j op) in
  (State.locks st' = State.locks st /\ State.next_sequence st' = State.next_sequence st)
  \/ (exists s v f, op = OpCommit s v f /\ lock_key s v ∉ State.locks st
        /\ State.locks st' = {[lock_key s v]} ∪ State.locks st
        /\ State.next_sequence st' = Z.max (State.next_sequence st) (sat_add64 (OutgoingFrame.sequence f) 1))
  \/ (op = OpReserve /\ State.locks st' = State.locks st
        /\ State.next_sequence st' = sat_add64 (State.next_sequence st) 1).
Proof.
  destruct op as [s v f| |n|now|a f|e|s n]; simpl.
  - unfold Log.commit_vote. case_bool_decide; [by left|]. append_cases; [|by left].
    right; left. by exists s, v, f.
  - unfold Log.reserve_sequence. append_cases; [by right; right|by left].
  - left. unfold Log.acknowledge. destruct (_ !! n); [|done]. pose proof (retire_fst j n) as Hr.
    destruct (Log.retire j n) as [j' []]; simpl in *; rewrite ?compact_if_large_state; by rewrite Hr.
  - left. unfold Log.drop_expired. rewrite compact_if_large_state.
    by destruct (retire_all_state (Log.expired_at now (Log.state j)) j) as (m & -> & _).
  - left. unfold Log.witness. destruct (_ !! a); [done|]. by append_cases.
  - left. unfold Log.enter_epoch. destruct (match State.epoch _ with Some _ => _ | None => _ end);
      [done|]. by append_cases.
  - left. unfold Log.mark_seen. destruct (match _ !! s with Some _ => _ | None => _ end); [done|].
    by append_cases.
Qed.

#[global] Instance log_laws : JournalLaws Log.t log_held log_good.
Proof.
  split.
  - unfold log_good. intros j op Hg.
    destruct (log_op_state j op) as [[_ ->]|[(s & v & f & _ & _ & _ & ->)|(_ & _ & ->)]];
      unfold sat_add64; lia.
  - done.
  - unfold log_held. intros j op.
    destruct (log_op_state j op) as [[-> _]|[(s & v & f & _ & _ & -> & _)|(_ & -> & _)]]; set_solver.
  - unfold log_held. intros j s v f. simpl. unfold Log.commit_vote. case_bool_decide; [done|].
    append_cases; [|done]. intros _. split_and!; [done|set_solver| |].
    + unfold Log.pending. rewrite compact_if_large_state. apply elem_of_values.
      exists (OutgoingFrame.sequence f). simpl. apply lookup_insert_eq.
    + unfold Log.next_sequence. rewrite compact_if_large_state. simpl. lia.
  - unfold log_held. intros j s v f e. simpl. unfold Log.commit_vote. case_bool_decide; [done|].
    append_cases; [done|]. unfold Log.pending. by rewrite Hs.
  - intros j n. simpl. unfold Log.reserve_sequence, Log.next_sequence. append_cases; [|done].
    intros [= <-]. done.
  - unfold log_good. intros j op Hg. change (next_sequence ?j) with (State.next_sequence (Log.state j)).
    destruct (log_op_state j op) as [[_ ->]|[(s & v & f & _ & _ & _ & ->)|(_ & _ & ->)]];
      unfold sat_add64; lia.
Qed.
End laws.

(** * Against the in-memory journal *)

(** What an operation answers. *)
Inductive answer :=
| AUnit (r : result JournalError unit)
| ASequence (r : result JournalError Z)
| AFound (b : bool)
| ANothing.
Definition op_answer {J} `{Journal J} (j : J) (op : jop) : answer :=
  match op with
  | OpCommit s v f => AUnit (commit_vote j s v f).2
  | OpReserve => ASequence (reserve_sequence j).2
  | OpAck n => AFound (acknowledge j n).2
  | OpDrop _ => ANothing
  | OpWitness a f => AUnit (witness j a f).2
  | OpEnterEpoch e => AUnit (enter_epoch j e).2
  | OpMarkSeen s n => AUnit (mark_seen j s n).2
  end.
Definition refusal (a : answer) : bool :=
  match a with
  | AUnit (Err NotDurable) | ASequence (Err NotDurable) | AFound false => true
  | _ => false
  end.

Definition as_memory (st : State.t) : MemoryJournal.t :=
  MemoryJournal.mk (State.epoch st) (State.seen st) (State.locks st) (State.pending st)
    (State.next_sequence st) (State.witnessed st).

(** The values the arguments' types allow. *)
Definition op_ok (op : jop) : Prop :=
  match op with
  | OpCommit _ _ f => frame_ok f
  | OpWitness _ f => wf_bytes f
  | OpEnterEpoch e => is_u16 e
  | OpMarkSeen s n => is_u16 s /\ is_u64 n
  | _ => True
  end.

(** The frames are filed under their sequences. *)
Definition filed (st : State.t) : Prop := memory_filed (as_memory st).

(** C6: whatever the disk does, an operation of the journal on disk is the
    in-memory journal's, with the same answer and the same state after it, or it
    refuses and changes nothing the process can see; a sweep keeps every frame the
    in-memory journal keeps and invents none. *)
Theorem log_simulates_memory `{Postcard} (j : Log.t) (op : jop) :
  filed (Log.state j) -> op_ok op ->
  match op with
  | OpDrop now =>
      exists m, as_memory (Log.state (apply_op j op)) = MemoryJournal.set_pending (as_memory (Log.state j)) m
        /\ m ⊆ State.pending (Log.state j)
        /\ MemoryJournal.pending_ (apply_op (as_memory (Log.state j)) op) ⊆ m
  | _ =>
      (op_answer j op = op_answer (as_memory (Log.state j)) op
        /\ as_memory (Log.state (apply_op j op)) = apply_op (as_memory (Log.state j)) op)
      \/ (refusal (op_answer j op) = true /\ Log.state (apply_op j op) = Log.state j)
  end.
Proof.
  intros Hf Hop. destruct op as [s v f| |n|now|a f|e|s n]; simpl.
  - unfold Log.commit_vote, MemoryJournal.commit_vote. simpl. case_bool_decide; [by left|].
    append_cases; [by left|by right].
  - unfold Log.reserve_sequence. append_cases; [by left|by right].
  - unfold Log.acknowledge. destruct (State.pending (Log.state j) !! n) eqn:Hn.
    + pose proof (retire_fst j n) as Hr. destruct (Log.retire j n) as [j' [|]]; simpl in *.
      * left. rewrite compact_if_large_state, Hr. done.
      * right. by rewrite Hr.
    + left. simpl. split; [done|]. unfold MemoryJournal.set_pending, as_memory; simpl.
      by rewrite delete_id.
  - unfold Log.drop_expired. rewrite compact_if_large_state.
    destruct (retire_all_state (Log.expired_at now (Log.state j)) j) as (m & -> & Hsub & Hkeep).
    exists m. split_and!; [done|done|]. apply map_subseteq_spec. intros k f.
    rewrite map_lookup_filter_Some. simpl. intros [Hk Hret]. apply Hkeep; [done|].
    intros (g & Hg & Hin)%list_elem_of_fmap. apply list_elem_of_filter in Hin as [Hout [k' Hk']%elem_of_values].
    apply Hf in Hk' as Hseq'. assert (k' = k) as -> by congruence.
    simpl in Hk'. assert (g = f) as -> by congruence. unfold MemoryJournal.retained in Hret.
    unfold OutgoingFrame.outlived in Hout. destruct (OutgoingFrame.expires_at f); [|done].
    by rewrite Hout in Hret.
  - unfold Log.witness, MemoryJournal.witness. simpl. destruct (State.witnessed (Log.state j) !! a).
    + by left.
    + append_cases; [by left|by right].
  - unfold Log.enter_epoch, MemoryJournal.enter_epoch. simpl.
    destruct (match State.epoch _ with Some _ => _ | None => _ end); [by left|].
    append_cases; [by left|by right].
  - unfold Log.mark_seen, MemoryJournal.mark_seen. simpl.
    destruct (State.seen (Log.state j) !! s) as [held|] eqn:Hs'; simpl.
    + destruct (Z.leb_spec n held).
      * left. split; [done|]. unfold as_memory. f_equal. rewrite Z.max_l by done.
        by rewrite insert_id.
      * append_cases; [left|by right]. rewrite Z.max_r by lia. done.
    + append_cases; [left|by right]. destruct Hop as [_ Hn]. rewrite Z.max_r by (width; lia). done.
Qed.

(** * Every operation is a sequence of appends and compactions *)

Section micro.
Context `{Postcard}.

Inductive micro (j : Log.t) : Log.t -> Prop :=
| micro_append e j1 : entry_ok e -> Log.append j e = (j1, Ok tt) ->
    micro j (Log.set_state j1 (State.apply (Log.state j1) e))
| micro_failed e j1 x : entry_ok e -> Log.append j e = (j1, Err x) -> micro j j1
| micro_compact : micro j (Log.compact_if_large j).

Lemma micro_state_ok j j' : micro j j' -> state_ok (Log.state j) -> state_ok (Log.state j').
Proof.
  intros [e j1 He Ha|e j1 x He Ha|] Hok; simpl.
  - apply apply_ok; [done|]. by rewrite (append_state_eq _ _ _ _ Ha).
  - by rewrite (append_state_eq _ _ _ _ Ha).
  - by rewrite compact_if_large_state.
Qed.
Lemma micros_state_ok j j' : rtc micro j j' -> state_ok (Log.state j) -> state_ok (Log.state j').
Proof. induction 1; eauto using micro_state_ok. Qed.

(** An operation that appends [e], makes [st] of the live state and compacts. *)
Lemma append_then_compact j e j1 st : entry_ok e -> Log.append j e = (j1, Ok tt) ->
  st = State.apply (Log.state j1) e -> rtc micro j (Log.compact_if_large (Log.set_state j1 st)).
Proof.
  intros He Ha ->. eapply rtc_l; [by eapply micro_append|]. eapply rtc_once, micro_compact.
Qed.
Lemma retire_micro j n : is_u64 n -> rtc micro j (Log.retire j n).1.
Proof.
  intros Hn. unfold Log.retire. destruct (Log.append j (Retired n)) as [j1 [[]|x]] eqn:Ha.
  - eapply rtc_once, (micro_append j (Retired n)); done.
  - eapply rtc_once, (micro_failed j (Retired n)); done.
Qed.
Lemma retire_all_micro l j : Forall is_u64 l ->
  rtc micro j (fold_left (fun j n => (Log.retire j n).1) l j).
Proof.
  revert j; induction l as [|n l IH]; intros j Hl; [done|]. apply Forall_cons in Hl as [Hn Hl].
  cbn [fold_left]. etrans; [by apply retire_micro|]. by apply IH.
Qed.

Lemma live_frame st (f : OutgoingFrame.t) :
  State.add_frame st (OutgoingFrame.sequence f) (OutgoingFrame.frame_bytes f)
    (Timestamp.as_secs <$> OutgoingFrame.expires_at f)
  = State.with_next (State.with_pending st (<[OutgoingFrame.sequence f := f]> (State.pending st)))
      (Z.max (State.next_sequence st) (sat_add64 (OutgoingFrame.sequence f) 1)).
Proof. by destruct f as [bs n [[x]|]]. Qed.

Lemma op_micro j op : state_ok (Log.state j) -> op_ok op -> rtc micro j (apply_op j op).
Proof.
  intros Hst Hop. destruct op as [s v f| |n|now|a f|e|s n]; simpl in *.
  - unfold Log.commit_vote. case_bool_decide; [done|]. append_cases.
    + eapply append_then_compact; [|exact Ha|].
      * by destruct Hop as (? & ? & ?).
      * simpl. rewrite live_frame, Hs. done.
    + eapply rtc_once, micro_failed; [|exact Ha]. by destruct Hop as (? & ? & ?).
  - destruct Hst as [Hn _ _ _ _]. unfold Log.reserve_sequence.
    assert (entry_ok (Sequence (sat_add64 (State.next_sequence (Log.state j)) 1))).
    { unfold entry_ok, sat_add64. width; lia. }
    append_cases; [|by eapply rtc_once, micro_failed].
    eapply append_then_compact; [|exact Ha|]; [done|]. rewrite Hs. simpl. f_equal.
    unfold sat_add64. width; lia.
  - unfold Log.acknowledge. destruct (_ !! n) as [f|] eqn:Hf; [|done].
    destruct (ok_pending _ Hst n f Hf) as (Hseq & (Hn & _) & _). rewrite Hseq in Hn.
    pose proof (retire_micro j n Hn) as Hm. destruct (Log.retire j n) as [j1 []]; simpl in *; [|done].
    eapply rtc_r; [exact Hm|]. apply micro_compact.
  - unfold Log.drop_expired. eapply rtc_r; [apply retire_all_micro|apply micro_compact].
    apply Forall_forall. intros n (f & -> & Hin)%list_elem_of_fmap.
    apply list_elem_of_filter in Hin as [_ [k Hk]%elem_of_values].
    by destruct (ok_pending _ Hst k f Hk) as (_ & (? & _) & _).
  - unfold Log.witness. destruct (_ !! a) eqn:Hw; [done|].
    append_cases; [|by eapply rtc_once, (micro_failed _ (Witnessed a f))].
    eapply append_then_compact; [|exact Ha|]; [exact Hop|]. rewrite Hs. simpl. by rewrite Hw.
  - unfold Log.enter_epoch. destruct (State.epoch (Log.state j)) as [h|] eqn:He.
    + destruct (Z.leb_spec e h); [done|].
      append_cases; [|by eapply rtc_once, (micro_failed _ (Epoch e))].
      eapply append_then_compact; [|exact Ha|]; [exact Hop|]. rewrite Hs. simpl. rewrite He.
      destruct (Z.ltb_spec h e); [|lia]. simpl. rewrite He, Z.max_r by lia. done.
    + append_cases; [|by eapply rtc_once, (micro_failed _ (Epoch e))].
      eapply append_then_compact; [|exact Ha|]; [exact Hop|]. rewrite Hs. simpl. rewrite He. simpl. by rewrite He.
  - unfold Log.mark_seen. destruct (State.seen (Log.state j) !! s) as [h|] eqn:Hsn.
    + destruct (Z.leb_spec n h); [done|].
      append_cases; [|by eapply rtc_once, (micro_failed _ (Seen s n))].
      eapply append_then_compact; [|exact Ha|]; [exact Hop|]. rewrite Hs. simpl. rewrite Hsn. simpl.
      by rewrite Z.max_r by lia.
    + append_cases; [|by eapply rtc_once, (micro_failed _ (Seen s n))].
      eapply append_then_compact; [|exact Ha|]; [exact Hop|]. rewrite Hs. simpl. rewrite Hsn. simpl.
      destruct Hop as [_ Hn]. rewrite Z.max_r by (width; lia). done.
Qed.
Lemma run_micro j ops : state_ok (Log.state j) -> Forall op_ok ops -> rtc micro j (run j ops).
Proof.
  unfold run. revert j; induction ops as [|op ops IH]; intros j Hst Hops; [done|].
  apply Forall_cons in Hops as [Hop Hops]. cbn [foldl].
  pose proof (op_micro j op Hst Hop) as Hm. etrans; [exact Hm|].
  apply IH; [|done]. by eapply micros_state_ok.
Qed.
End micro.

Lemma log_simulates_memory_witness :
  let j := Log.mk [] None State.default_ 0 None [IoTorn 2] [] in
  let op := OpMarkSeen 3 9 in
  (@op_answer _ (@log_journal bit_codec) j op = op_answer (as_memory (Log.state j)) op
    /\ as_memory (Log.state (@apply_op _ (@log_journal bit_codec) j op)) = apply_op (as_memory (Log.state j)) op)
  \/ (refusal (@op_answer _ (@log_journal bit_codec) j op) = true
    /\ Log.state (@apply_op _ (@log_journal bit_codec) j op) = Log.state j).
Proof.
  apply (@log_simulates_memory bit_codec (Log.mk [] None State.default_ 0 None [IoTorn 2] []) (OpMarkSeen 3 9)).
  - by intros n f Hn.
  - split; split; vm_compute; discriminate.
Defined.
