(* ===== verification/LogLives.v ===== *)
(** The lives of a journal (src/src/infrastructure/log.rs): a process opens the
    file, works against a disk that can fail, dies at any byte, and another opens
    what it left. *)
From S2P Require Import Prelude Time Contracts Journal MemoryJournal Crc LogJournal LogRecovery LogSafety.

(** * What the disk may do during one life

    An append may go through, write nothing, or (with [late]) fail after its last
    byte; a write torn in its middle is the last of its life. *)
Fixpoint orderly (late : bool) (w : list io) : bool :=
  match w with
  | [] => true
  | IoOk :: w | IoTorn 0 :: w => orderly late w
  | IoLate :: w => late && orderly late w
  | IoTorn _ :: w => late && bool_decide (w = [])
  end.
(** No compaction is abandoned between its rename and its end. *)
Definition renames_whole (c : list io) : bool :=
  forallb (fun o => match o with IoLate => false | _ => true end) c.

(** The disk's contents recover to [st]. *)
Definition recovers `{Postcard} (disk : bytes) (st : State.t) : Prop :=
  wf_bytes disk /\ state_ok st /\
  exists whole rest, disk = whole ++ rest /\ replays State.default_ whole st /\ read_record rest = None.

Section recovery.
Context `{PostcardLaws}.

Lemma replays_state_ok st bs st' : wf_bytes bs -> replays st bs st' -> state_ok st -> state_ok st'.
Proof.
  intros Hb Hr. revert Hb. induction Hr as [|st bs e n st' Hread Hrest IH]; [done|]. intros Hb Hst.
  destruct (read_record_app bs e n [] Hb ltac:(constructor) Hread) as (_ & He & _).
  apply IH; [by apply Forall_drop|by apply apply_ok].
Qed.
Lemma recovers_some disk : wf_bytes disk -> exists st, recovers disk st.
Proof.
  intros Hb. destruct (replay_finds disk Hb) as (st & m & _ & _ & Hr & Hn). exists st.
  split_and!; [done| |].
  - eapply replays_state_ok; [by apply Forall_take|exact Hr|apply state_ok_default].
  - exists (take m disk), (drop m disk). by rewrite take_drop.
Qed.
Lemma recovers_open disk st : recovers disk st ->
  exists whole, Log.open IoOk disk
    = (whole, Ok (Log.mk whole None st (Z.of_nat (length whole)) None [] []))
    /\ Log.open IoLate disk = (whole, Err OsError)
    /\ wf_bytes whole /\ replays State.default_ whole st.
Proof.
  intros (Hb & _ & whole & rest & -> & Hr & Hn). apply Forall_app in Hb as [Hw Hre].
  exists whole. unfold Log.open. rewrite (replay_replays whole st rest) by done.
  by rewrite take_app_length.
Qed.
Lemma recovers_whole whole st : wf_bytes whole -> state_ok st ->
  replays State.default_ whole st -> recovers whole st.
Proof. intros. split_and!; [done..|]. exists whole, []. by rewrite app_nil_r. Qed.
End recovery.

(** * The invariant of one life

    The live state is related by [R] to what the disk recovers to; a torn tail is
    there only when nothing more will be written. *)
Section invariant.
Context `{PostcardLaws} (late : bool) (R : State.t -> State.t -> Prop).
Hypothesis R_refl : forall st, R st st.
Hypothesis R_apply : forall st st' e, R st st' -> R (State.apply st e) (State.apply st' e).
Hypothesis R_late : forall st st' e, late = true -> R st st' -> R st (State.apply st' e).

Record live_inv (j : Log.t) : Prop := {
  inv_handle : Log.handle j = None;
  inv_wf : wf_bytes (Log.path j);
  inv_state : state_ok (Log.state j);
  inv_compactions : renames_whole (Log.compactions j) = true;
  inv_disk : exists whole rest st, Log.path j = whole ++ rest /\ replays State.default_ whole st
    /\ read_record rest = None /\ R (Log.state j) st /\ state_ok st
    /\ ((rest = [] /\ orderly late (Log.appends j) = true) \/ (late = true /\ Log.appends j = []));
}.

Lemma live_inv_recovers j : live_inv j ->
  exists st, recovers (Log.path j) st /\ R (Log.state j) st.
Proof.
  intros [_ Hw _ _ (whole & rest & st & Hp & Hr & Hn & HR & Hst & _)].
  exists st. split; [|done]. split_and!; [done..|]. by exists whole, rest.
Qed.
Lemma live_inv_open disk st a c whole : wf_bytes whole -> state_ok st ->
  replays State.default_ whole st -> orderly late a = true -> renames_whole c = true ->
  live_inv (Log.with_scripts (Log.mk whole None st disk None [] []) a c).
Proof.
  intros. split; simpl; try done. exists whole, [], st. rewrite app_nil_r. by split_and!; auto.
Qed.

(** One append, whatever the disk does to it. *)
Lemma try_append_inv j e j1 r : live_inv j -> entry_ok e -> Log.try_append j e = (j1, r) ->
  (forall x, r = Err x -> live_inv j1)
  /\ (r = Ok tt -> live_inv (Log.set_state j1 (State.apply (Log.state j) e))).
Proof.
  intros [Hh Hw Hst Hc (whole & rest & st & Hp & Hr & Hn & HR & Hok & Hrest)] He.
  unfold Log.try_append. destruct (encode e) as [rec|x] eqn:Henc.
  2:{ intros [= <- <-]. split; [|done]. intros _ _. split; try done. by exists whole, rest, st. }
  pose proof (encode_wf e rec He Henc) as Hrw.
  pose proof (replays_record st e rec He Henc) as Hrec.
  assert (wf_bytes whole /\ wf_bytes rest) as [Hwh Hre] by (rewrite Hp in Hw; by apply Forall_app).
  assert (replays State.default_ (whole ++ rec) (State.apply st e)) as Happ.
  { by eapply replays_app. }
  assert (state_ok (State.apply st e)) as Hok' by by apply apply_ok.
  unfold Log.written. simpl. rewrite Hh.
  destruct (Log.appends j) as [|o w] eqn:Hscript; [|destruct Hrest as [[-> Ho]|[_ ?]]; [|done]].
  { intros [= <- <-]. split; [|done]. intros _ _. simpl. rewrite app_nil_r.
    split; simpl; try done. exists whole, rest, st. by split_and!; auto. }
  rewrite app_nil_r in Hp. rewrite Hp in *. cbn [hd tail].
  destruct o as [|[|n]|]; simpl in Ho; intros [= <- <-]; (split; [intros x Hx; try done|done || intros _]).
  - split; simpl; try done; [by apply Forall_app|by apply apply_ok|].
    exists (whole ++ rec), [], (State.apply st e). rewrite app_nil_r. by split_and!; auto.
  - simpl. rewrite app_nil_r. split; simpl; try done.
    exists whole, [], st. rewrite app_nil_r. by split_and!; auto.
  - apply andb_true_iff in Ho as [Hlate Hnil%bool_decide_eq_true]. subst w.
    split; simpl; try done; [apply Forall_app; split; [done|by apply Forall_take]|].
    destruct (decide (S n < length rec)%nat) as [Hlt|Hge].
    + exists whole, (take (S n) rec), st. split_and!; auto. by eapply read_record_torn.
    + rewrite take_ge by lia. exists (whole ++ rec), [], (State.apply st e).
      rewrite app_nil_r. by split_and!; auto.
  - apply andb_true_iff in Ho as [Hlate Ho].
    split; simpl; try done; [by apply Forall_app|].
    exists (whole ++ rec), [], (State.apply st e). rewrite app_nil_r. by split_and!; auto.
Qed.
Lemma live_inv_error j e : live_inv j -> live_inv (Log.set_error j e).
Proof. intros []. by split. Qed.

Lemma compact_inv j : live_inv j -> live_inv (Log.compact_if_large j).
Proof.
  intros Hinv. unfold Log.compact_if_large. destruct (_ <=? _); [done|].
  unfold Log.compact. destruct (Log.encode_all _) as [rs|x] eqn:Henc; [|by apply live_inv_error].
  destruct Hinv as [Hh Hw Hst Hc Hdisk].
  destruct (replays_encode_all State.default_ _ rs (compact_entries_ok _ Hst) Henc) as [Hrw Hrep].
  rewrite compact_entries_apply in Hrep by done.
  destruct (Log.compactions j) as [|o c] eqn:Hscript; [|destruct o]; simpl in *; try done.
  split; simpl; try done. exists (concat rs), [], (Log.state j). rewrite app_nil_r.
  split_and!; auto. left. split; [done|].
  by destruct Hdisk as (? & ? & ? & _ & _ & _ & _ & _ & [[_ Ho]|[_ ->]]).
Qed.

Lemma micro_inv j j' : micro j j' -> live_inv j -> live_inv j'.
Proof.
  intros [e j1 He Ha|e j1 x He Ha|] Hinv; [| |by apply compact_inv].
  - rewrite (append_state_eq _ _ _ _ Ha). unfold Log.append in Ha.
    destruct (Log.try_append j e) as [j2 [[]|]] eqn:Ht; simplify_eq.
    by apply (try_append_inv j e j1 (Ok tt)).
  - unfold Log.append in Ha. destruct (Log.try_append j e) as [j2 [[]|y]] eqn:Ht; simplify_eq.
    apply live_inv_error. by eapply (try_append_inv j e j2 (Err y)).
Qed.
Lemma run_inv j ops : Forall op_ok ops -> live_inv j -> live_inv (run j ops).
Proof.
  intros Hops Hinv. pose proof (run_micro j ops (inv_state j Hinv) Hops) as Hm.
  induction Hm; eauto using micro_inv.
Qed.
End invariant.

(** * Lives *)

Record life := {
  opening : io;            (* how far the opening of the file got *)
  hash : Z;                (* what the operating system's entropy yields *)
  did : list jop;          (* the operations of this life *)
  disk_appends : list io;
  disk_compactions : list io;
}.
Definition life_ok (l : life) : Prop :=
  Forall op_ok (did l) /\ orderly true (disk_appends l) = true
  /\ renames_whole (disk_compactions l) = true.

Section lives.
Context `{Postcard}.

Definition start_of (disk : bytes) (l : life) : bytes * result IoError Log.t :=
  Log.open_with_entropy (opening l) disk (hash l) (disk_appends l) (disk_compactions l).
Definition disk_after (disk : bytes) (l : life) : bytes :=
  match start_of disk l with
  | (disk, Err _) => disk
  | (_, Ok j) => Log.path (run j (did l))
  end.

(** The votes taken and the sequences handed out, life after life, each opening
    what the one before left. *)
Fixpoint lives_votes (disk : bytes) (ls : list life) : list str :=
  match ls with
  | [] => []
  | l :: ls =>
      match (start_of disk l).2 with Ok j => votes_taken j (did l) | Err _ => [] end
      ++ lives_votes (disk_after disk l) ls
  end.
Fixpoint lives_sequences (disk : bytes) (ls : list life) : list Z :=
  match ls with
  | [] => []
  | l :: ls =>
      match (start_of disk l).2 with Ok j => handed_out j (did l) | Err _ => [] end
      ++ lives_sequences (disk_after disk l) ls
  end.
End lives.

(** Nothing a process was told is forgotten by what the disk recovers to. *)
Definition covers (st st' : State.t) : Prop :=
  State.locks st ⊆ State.locks st' /\ State.next_sequence st <= State.next_sequence st'.

Section covers.
Lemma covers_refl st : covers st st.
Proof. split; [done|lia]. Qed.
Lemma covers_trans st1 st2 st3 : covers st1 st2 -> covers st2 st3 -> covers st1 st3.
Proof. intros [? ?] [? ?]. split; [set_solver|lia]. Qed.
Lemma apply_witness_same st a bs :
  State.locks (State.apply st (Witnessed a bs)) = State.locks st
  /\ State.next_sequence (State.apply st (Witnessed a bs)) = State.next_sequence st.
Proof. simpl. by destruct (State.witnessed st !! a). Qed.
Lemma apply_epoch_same st e :
  State.locks (State.apply st (Epoch e)) = State.locks st
  /\ State.next_sequence (State.apply st (Epoch e)) = State.next_sequence st.
Proof.
  cbn [State.apply]. by destruct (match State.epoch st with Some _ => _ | None => _ end).
Qed.
Lemma covers_apply st st' e : covers st st' -> covers (State.apply st e) (State.apply st' e).
Proof.
  intros [Hl Hn]. destruct e as [k s bs x|n|i n|e|s|a bs|k|s bs x].
  4:{ unfold covers. destruct (apply_epoch_same st e) as [-> ->], (apply_epoch_same st' e) as [-> ->]. done. }
  5:{ unfold covers. destruct (apply_witness_same st a bs) as [-> ->], (apply_witness_same st' a bs) as [-> ->]. done. }
  all: split; simpl; try lia; try done; set_solver.
Qed.
Lemma covers_late st st' e : covers st st' -> covers st (State.apply st' e).
Proof.
  intros [Hl Hn]. destruct e as [k s bs x|n|i n|e|s|a bs|k|s bs x].
  4:{ unfold covers. destruct (apply_epoch_same st' e) as [-> ->]. done. }
  5:{ unfold covers. destruct (apply_witness_same st' a bs) as [-> ->]. done. }
  all: split; simpl; try lia; try done; set_solver.
Qed.
End covers.

Lemma random_start_range h : 2 ^ 24 <= Log.random_start h < 2 ^ 31.
Proof.
  unfold Log.random_start. cbv zeta. change (Z.shiftl 1 24) with 16777216.
  change (Z.shiftl 1 31) with 2147483648.
  pose proof (Z.mod_pos_bound h (2147483648 - 16777216) ltac:(lia)). lia.
Qed.

Section one_life.
Context `{PostcardLaws}.

(** Opening hands over a live state that covers what the disk recovered to. *)
Lemma start_inv disk st l : recovers disk st -> life_ok l ->
  match start_of disk l with
  | (disk', Ok j) => live_inv true covers j /\ covers st (Log.state j)
  | (disk', Err _) => exists st', recovers disk' st' /\ covers st st'
  end.
Proof.
  intros Hrec (_ & Ha & Hc). pose proof Hrec as (_ & Hst & _).
  destruct (recovers_open disk st Hrec) as (whole & Hok & Hlate & Hw & Hr).
  unfold start_of, Log.open_with_entropy. destruct (opening l) as [|n|].
  - rewrite Hok. set (j0 := Log.with_scripts _ _ _).
    assert (live_inv true covers j0) as Hinv.
    { apply live_inv_open; auto using covers_refl. }
    destruct (_ && _) eqn:Hfresh; [|split; [done|apply covers_refl]].
    apply andb_true_iff in Hfresh as [_ Hzero%Z.eqb_eq].
    set (n := Log.random_start (hash l)).
    assert (is_u64 n) as Hn.
    { pose proof (random_start_range (hash l)). width. lia. }
    destruct (Log.try_append j0 (Sequence n)) as [j1 r] eqn:Ht.
    pose proof (try_append_inv true covers covers_apply (fun st st' e _ => covers_late st st' e)
      j0 (Sequence n) j1 r Hinv Hn Ht) as [Herr Hgood].
    pose proof (try_append_state j0 (Sequence n)) as Hs. rewrite Ht in Hs.
    destruct r as [[]|x].
    + specialize (Hgood eq_refl). cbn [fst] in Hs. rewrite Hs.
      assert (State.with_next (Log.state j0) n = State.apply (Log.state j0) (Sequence n)) as ->.
      { simpl in Hzero |- *. rewrite Hzero. rewrite Z.max_r by (width; lia). done. }
      split; [done|]. apply (covers_late st st (Sequence n)), covers_refl.
    + destruct (live_inv_recovers true covers j1 (Herr x eq_refl)) as (st' & Hst' & Hcov).
      cbn [fst] in Hs. rewrite Hs in Hcov. by exists st'.
  - unfold Log.open. destruct (replay disk). exists st. split; [done|apply covers_refl].
  - rewrite Hlate. exists st. split; [by apply recovers_whole|apply covers_refl].
Qed.

(** Whatever happens in a life, the disk still covers what it held before, and
    what the process was told. *)
Lemma disk_after_recovers disk st l : recovers disk st -> life_ok l ->
  exists st', recovers (disk_after disk l) st' /\ covers st st'
    /\ match (start_of disk l).2 with
       | Ok j => covers (Log.state (run j (did l))) st'
       | Err _ => True
       end.
Proof.
  intros Hrec Hl. pose proof (start_inv disk st l Hrec Hl) as Hs. unfold disk_after.
  destruct (start_of disk l) as [d [j|x]]; simpl.
  - destruct Hs as [Hinv Hcov]. destruct Hl as (Hops & _ & _).
    pose proof (run_inv true covers covers_refl covers_apply (fun st st' e _ => covers_late st st' e)
      j (did l) Hops Hinv) as Hinv'.
    destruct (live_inv_recovers true covers _ Hinv') as (st' & Hst' & Hcov'). exists st'.
    split_and!; [done| |done]. eapply covers_trans; [exact Hcov|]. eapply covers_trans; [|exact Hcov'].
    split; [exact (run_held (J := Log.t) (held := log_held) (good := log_good) j (did l))|].
    refine (run_counter (J := Log.t) (held := log_held) (good := log_good) j (did l) _). unfold log_good. pose proof (ok_next _ (inv_state _ _ j Hinv)). width. lia.
  - destruct Hs as (st' & ? & ?). by exists st'.
Qed.

Lemma lives_votes_from disk st ls : recovers disk st -> Forall life_ok ls ->
  NoDup (lives_votes disk ls) /\ Forall (fun k => k ∉ State.locks st) (lives_votes disk ls).
Proof.
  revert disk st; induction ls as [|l ls IH]; intros disk st Hrec Hls; cbn [lives_votes].
  { split; constructor. }
  apply Forall_cons in Hls as [Hl Hls].
  destruct (disk_after_recovers disk st l Hrec Hl) as (st' & Hrec' & Hcov & Hlive).
  destruct (IH _ st' Hrec' Hls) as [Hnd Hnew]. rewrite Forall_forall in Hnew.
  pose proof (start_inv disk st l Hrec Hl) as Hs.
  destruct (start_of disk l) as [d [j|x]]; simpl in *.
  - destruct Hs as [Hinv Hcov']. destruct (votes_taken_from (J := Log.t) (held := log_held) (good := log_good) j (did l)) as [Hnd1 Hnew1].
    rewrite Forall_forall in Hnew1. split.
    + apply NoDup_app. split_and!; [done| |done]. intros k Hk Hlater. apply (Hnew k Hlater).
      apply Hlive. by apply (votes_taken_held (J := Log.t) (held := log_held) (good := log_good)).
    + apply Forall_forall. intros k [Hk|Hk]%elem_of_app Hin.
      * apply (Hnew1 k Hk). by apply Hcov'.
      * apply (Hnew k Hk). by apply Hcov.
  - split; [done|]. apply Forall_forall. intros k Hk Hin. apply (Hnew k Hk). by apply Hcov.
Qed.
Lemma lives_sequences_from disk st ls : recovers disk st -> Forall life_ok ls ->
  (forall n, n ∈ lives_sequences disk ls -> n < U64_MAX) ->
  NoDup (lives_sequences disk ls)
  /\ Forall (fun n => State.next_sequence st <= n) (lives_sequences disk ls).
Proof.
  revert disk st; induction ls as [|l ls IH]; intros disk st Hrec Hls Hmax; cbn [lives_sequences] in *.
  { split; constructor. }
  apply Forall_cons in Hls as [Hl Hls].
  destruct (disk_after_recovers disk st l Hrec Hl) as (st' & Hrec' & [_ Hcov] & Hlive).
  destruct (IH _ st' Hrec' Hls) as [Hnd Hnew].
  { intros n Hn. apply Hmax, elem_of_app. by right. }
  rewrite Forall_forall in Hnew. pose proof (start_inv disk st l Hrec Hl) as Hs.
  destruct (start_of disk l) as [d [j|x]]; simpl in *.
  - destruct Hs as [Hinv [_ Hcov']]. destruct Hlive as [_ Hlive].
    assert (log_good j) as Hg.
    { unfold log_good. pose proof (ok_next _ (inv_state _ _ j Hinv)). width. lia. }
    assert (forall n, n ∈ handed_out j (did l) -> n < U64_MAX) as Hmax1.
    { intros n Hn. apply Hmax, elem_of_app. by left. }
    destruct (handed_out_from (J := Log.t) (held := log_held) (good := log_good) j (did l) Hg Hmax1) as [Hnd1 Hnew1].
    rewrite Forall_forall in Hnew1. split.
    + apply NoDup_app. split_and!; [done| |done]. intros n Hn Hlater. specialize (Hnew n Hlater).
      pose proof (handed_out_passed (J := Log.t) (held := log_held) (good := log_good) j (did l) n Hg (Hmax1 n Hn) Hn) as Hp.
      change (next_sequence ?j) with (State.next_sequence (Log.state j)) in Hp. lia.
    + apply Forall_forall. intros n [Hn|Hn]%elem_of_app.
      * specialize (Hnew1 n Hn). change (next_sequence j) with (State.next_sequence (Log.state j)) in Hnew1. lia.
      * specialize (Hnew n Hn). lia.
  - split; [done|]. apply Forall_forall. intros n Hn. specialize (Hnew n Hn). lia.
Qed.
End one_life.

(** * The properties *)

(** C3: Over any number of lives of one journal, from whatever the disk holds at
    first, each killed at any point and any byte of an append, no claim is voted
    twice by one voter, and, as long as none reaches the top of a u64, no sequence number
    is handed out twice.  A life does no more on its journal once a write has torn or a
    compaction has failed after its rename; [torn_write_loses_vote] and
    [late_compaction_loses_vote] show what the code loses otherwise. *)
Theorem lives_never_repeat `{PostcardLaws} (disk : bytes) (ls : list life) :
  wf_bytes disk -> Forall life_ok ls ->
  NoDup (lives_votes disk ls)
  /\ ((forall n, n ∈ lives_sequences disk ls -> n < U64_MAX) -> NoDup (lives_sequences disk ls)).
Proof.
  intros Hb Hls. destruct (recovers_some disk Hb) as [st Hrec]. split.
  - by apply (lives_votes_from disk st ls).
  - intros Hmax. by apply (lives_sequences_from disk st ls).
Qed.

(** ** Concrete lives *)

Definition demo_subject : Subject.t :=
  Subject.mk (lit "m") (lit "e") 0 zero_hash (Timestamp.from_secs 0).
Definition demo_frame (b n : Z) : OutgoingFrame.t := OutgoingFrame.new [b] n.
Definition demo_vote (voter : str) (b n : Z) : jop :=
  OpCommit demo_subject voter (demo_frame b n).

(** A first boot, a vote, a reserved sequence, and a second vote torn after five
    bytes; then a restart that votes it again. *)
Definition demo_first : life :=
  {| opening := IoOk; hash := 3; did := [demo_vote (lit "a") 1 0; OpReserve; demo_vote (lit "b") 2 1];
     disk_appends := [IoOk; IoOk; IoOk; IoTorn 5]; disk_compactions := [] |}.
Definition demo_second : life :=
  {| opening := IoOk; hash := 4; did := [demo_vote (lit "a") 3 2; demo_vote (lit "b") 2 1; OpReserve];
     disk_appends := [IoOk; IoLate]; disk_compactions := [] |}.

#[global] Instance op_ok_dec op : Decision (op_ok op).
Proof. destruct op; simpl; unfold frame_ok, wf_bytes; apply _. Defined.
#[global] Instance life_ok_dec l : Decision (life_ok l).
Proof. unfold life_ok. apply _. Defined.

Lemma lives_never_repeat_witness :
  NoDup (@lives_votes bit_codec [] [demo_first; demo_second])
  /\ @lives_votes bit_codec [] [demo_first; demo_second]
     = [lock_key demo_subject (lit "a"); lock_key demo_subject (lit "b")].
Proof.
  split; [|vm_compute; reflexivity].
  refine (proj1 (@lives_never_repeat bit_codec bit_codec_laws [] [demo_first; demo_second] _ _)).
  - constructor.
  - apply (bool_decide_unpack _). vm_compute. exact I.
Defined.

Definition torn_life : life :=
  {| opening := IoOk; hash := 3; did := [demo_vote (lit "a") 1 0; demo_vote (lit "b") 2 1];
     disk_appends := [IoOk; IoTorn 5; IoOk]; disk_compactions := [] |}.

Definition later_life : life :=
  {| opening := IoOk; hash := 4; did := [demo_vote (lit "b") 9 2];
     disk_appends := [IoOk]; disk_compactions := [] |}.

(** A write torn in its middle is not repaired before the next one: the append
    after it is answered [Ok], and at the next opening it is gone, so one voter
    votes one claim twice. *)
Theorem torn_write_loses_vote :
  exists P : Postcard, @PostcardLaws P /\ Forall (fun l => Forall op_ok (did l)) [torn_life; later_life]
    /\ exists k, @lives_votes P [] [torn_life; later_life] = [k; k].
Proof.
  exists bit_codec. split; [exact bit_codec_laws|]. split.
  - apply (bool_decide_unpack _). vm_compute. exact I.
  - exists (lock_key demo_subject (lit "b")). vm_compute. reflexivity.
Qed.

(** A compaction that fails after its rename leaves the journal writing to a
    file nothing names: a vote it then answers [Ok] is not there at the next
    opening, although the error says the original log is untouched. *)
Theorem late_compaction_loses_vote `{PostcardLaws} (j j2 : Log.t) (s : Subject.t) (v : str)
    (f : OutgoingFrame.t) (rs : list bytes) :
  state_ok (Log.state j) -> Log.handle j = None -> Log.compactions j = [IoLate] ->
  Log.encode_all (Log.compact_entries (Log.state j)) = Ok rs ->
  (Log.compact j).2 = Err OsError ->
  commit_vote (Log.compact j).1 s v f = (j2, Ok tt) ->
  exists whole j3, Log.open IoOk (Log.path j2) = (whole, Ok j3)
    /\ has_voted j2 s v = true /\ has_voted j3 s v = false /\ Log.state j3 = Log.state j.
Proof.
  intros Hst Hh Hc Henc _ Hvote.
  destruct (replays_encode_all State.default_ _ rs (compact_entries_ok _ Hst) Henc) as [Hrw Hrep].
  rewrite compact_entries_apply in Hrep by done.
  destruct (recovers_open (concat rs) (Log.state j)) as (whole & Hopen & _ & Hw & Hr).
  { by apply recovers_whole. }
  assert (Log.path j2 = concat rs /\ lock_key s v ∉ State.locks (Log.state j)
    /\ lock_key s v ∈ State.locks (Log.state j2)) as (Hp & Hfree & Hheld).
  { revert Hvote. simpl. unfold Log.compact. rewrite Henc, Hc, Hh. simpl.
    unfold Log.commit_vote. simpl. case_bool_decide; [done|].
    unfold Log.append, Log.try_append. simpl. destruct (encode _) as [r|]; [|done].
    destruct (hd _ (Log.appends j)); simpl; [|done|done].
    intros [= <-]. rewrite compact_if_large_state. simpl. split; [|split; [done|set_solver]].
    unfold Log.compact_if_large; simpl. destruct (_ <=? _); simpl; [done|].
    unfold Log.compact; simpl. by destruct (_ ≫= _). }
  rewrite Hp. eexists _, _. split; [exact Hopen|]. simpl. unfold Log.has_voted. simpl.
  by rewrite bool_decide_eq_true, bool_decide_eq_false.
Qed.

Definition renamed_journal : Log.t := Log.mk [] None State.default_ 0 None [IoOk] [IoLate].

Lemma late_compaction_loses_vote_witness :
  exists whole j3,
    @Log.open bit_codec IoOk (Log.path (@Log.commit_vote bit_codec (@Log.compact bit_codec renamed_journal).1
      demo_subject (lit "a") (demo_frame 1 0)).1) = (whole, Ok j3)
    /\ Log.has_voted j3 demo_subject (lit "a") = false.
Proof.
  destruct (@late_compaction_loses_vote bit_codec bit_codec_laws renamed_journal
    (@Log.commit_vote bit_codec (@Log.compact bit_codec renamed_journal).1 demo_subject (lit "a")
      (demo_frame 1 0)).1 demo_subject (lit "a") (demo_frame 1 0)
    (match @Log.encode_all bit_codec (Log.compact_entries State.default_) with Ok rs => rs | Err _ => [] end))
    as (whole & j3 & Hopen & _ & Hno & _).
  - apply state_ok_default.
  - reflexivity.
  - reflexivity.
  - vm_compute. reflexivity.
  - vm_compute. reflexivity.
  - vm_compute. reflexivity.
  - exists whole, j3. split; [exact Hopen|exact Hno].
Defined.

(** C33: what a restart reads back is what the process held: after any operations on
    a disk whose appends go through or write nothing, compactions included, opening
    the file gives the live state and cuts nothing. *)
Theorem restart_reads_live_state `{PostcardLaws} (disk whole : bytes) (j0 : Log.t) (ops : list jop)
    (a c : list io) :
  wf_bytes disk -> Log.open IoOk disk = (whole, Ok j0) -> Forall op_ok ops ->
  orderly false a = true -> renames_whole c = true ->
  let j := run (Log.with_scripts j0 a c) ops in
  Log.open IoOk (Log.path j)
  = (Log.path j, Ok (Log.mk (Log.path j) None (Log.state j) (len (Log.path j)) None [] [])).
Proof.
  intros Hb Hopen Hops Ha Hc j. destruct (recovers_some disk Hb) as [st Hrec].
  destruct (recovers_open disk st Hrec) as (whole' & Hopen' & _ & Hw & Hr).
  rewrite Hopen in Hopen'. simplify_eq. pose proof Hrec as (_ & Hst & _).
  assert (live_inv false eq j) as [Hh Hwf Hok _ (w & rest & st' & Hp & Hrep & Hnone & <- & _ & Htail)].
  { apply run_inv; try done; [by intros ? ? ? ->|]. by apply live_inv_open. }
  destruct Htail as [[-> _]|[? _]]; [|done]. rewrite app_nil_r in Hp. subst w.
  pose proof (replay_replays (Log.path j) (Log.state j) [] Hwf) as Hrp. rewrite app_nil_r in Hrp.
  unfold Log.open. rewrite Hrp by (done || constructor). by rewrite firstn_all.
Qed.

Definition working_life : list jop := [demo_vote (lit "a") 1 0; OpReserve; OpAck 0; OpEnterEpoch 4].

Lemma restart_reads_live_state_witness :
  let j := @run _ (@log_journal bit_codec) (Log.with_scripts (Log.mk [] None State.default_ 0 None [] [])
             [IoOk; IoTorn 0; IoOk; IoOk] []) working_life in
  @Log.open bit_codec IoOk (Log.path j)
  = (Log.path j, Ok (Log.mk (Log.path j) None (Log.state j) (len (Log.path j)) None [] [])).
Proof.
  apply (@restart_reads_live_state bit_codec bit_codec_laws [] []).
  - constructor.
  - reflexivity.
  - apply (bool_decide_unpack _). vm_compute. exact I.
  - reflexivity.
  - reflexivity.
Defined.
