(* ===== verification/Queue.v ===== *)
(** The outgoing radio queue (src/src/application/queue.rs): two FIFO classes under
    an item and a byte cap, a bounded memory of what was queued, and the burst rule
    that keeps the low class from starving. *)
From S2P Require Import Prelude Time Journal.

Inductive QueueError := Full | Duplicate.
#[global] Instance QueueError_eq_dec : EqDecision QueueError.
Proof. solve_decision. Defined.
Inductive Priority := Routine | Distress.

Definition DISTRESS_BURST : Z := 8.
Definition MAX_DEDUP_ENTRIES : nat := 1024.

Definition frame_len (f : OutgoingFrame.t) : Z := len (OutgoingFrame.frame_bytes f).

Module RadioQueue.
Record t := mk {
  distress : list OutgoingFrame.t;
  routine : list OutgoingFrame.t;
  seen : gset Z;
  seen_order : list Z;
  max_items : Z;
  max_bytes : Z;
  queued_bytes : Z;
  distress_streak : Z;
}.

Definition with_capacity (max_items max_bytes : Z) : t :=
  mk [] [] ∅ [] max_items max_bytes 0 0.

Definition size (q : t) : Z := len (distress q) + len (routine q).
Definition is_empty (q : t) : bool := size q =? 0.
Definition seen_count (q : t) : Z := Z.of_nat (base.size (seen q)).

Definition with_memory (q : t) (s : gset Z) (o : list Z) : t :=
  mk (distress q) (routine q) s o (max_items q) (max_bytes q) (queued_bytes q) (distress_streak q).
Definition with_queues (q : t) (d r : list OutgoingFrame.t) (bs streak : Z) : t :=
  mk d r (seen q) (seen_order q) (max_items q) (max_bytes q) bs streak.

(** The eviction loop of [remember]: pop while over the bound. *)
Fixpoint forget_oldest (fuel : nat) (s : gset Z) (o : list Z) : gset Z * list Z :=
  match fuel with
  | O => (s, o)
  | S fuel =>
      if bool_decide (MAX_DEDUP_ENTRIES < length o)%nat then
        match o with
        | oldest :: o => forget_oldest fuel (s ∖ {[oldest]}) o
        | [] => (s, [])
        end
      else (s, o)
  end.
Definition remember (q : t) (sequence : Z) : t :=
  let o := seen_order q ++ [sequence] in
  let '(s, o) := forget_oldest (length o) ({[sequence]} ∪ seen q) o in
  with_memory q s o.

Definition offer (q : t) (frame : OutgoingFrame.t) (p : Priority) : t * result QueueError unit :=
  if bool_decide (OutgoingFrame.sequence frame ∈ seen q) then (q, Err Duplicate)
  else if (max_items q <=? size q)
          || (max_bytes q <? sat_add64 (queued_bytes q) (frame_len frame)) then (q, Err Full)
  else
    let q := remember q (OutgoingFrame.sequence frame) in
    let bs := queued_bytes q + frame_len frame in
    (match p with
     | Distress => with_queues q (distress q ++ [frame]) (routine q) bs (distress_streak q)
     | Routine => with_queues q (distress q) (routine q ++ [frame]) bs (distress_streak q)
     end, Ok tt).

Definition forget (q : t) (sequence : Z) : t :=
  if bool_decide (sequence ∈ seen q)
  then with_memory q (seen q ∖ {[sequence]}) (filter (fun r => r <> sequence) (seen_order q))
  else q.

Definition take_next (q : t) : t * option OutgoingFrame.t :=
  let take_routine := bool_decide (distress q = []) || (DISTRESS_BURST <=? distress_streak q) in
  if take_routine && negb (bool_decide (routine q = [])) then
    match routine q with
    | f :: r => (with_queues q (distress q) r (sat_sub (queued_bytes q) (frame_len f)) 0, Some f)
    | [] => (q, None)
    end
  else
    match distress q with
    | f :: d => (with_queues q d (routine q) (sat_sub (queued_bytes q) (frame_len f))
                   (Z.min (distress_streak q + 1) U8_MAX), Some f)
    | [] =>
        match routine q with
        | f :: r => (with_queues q [] r (sat_sub (queued_bytes q) (frame_len f)) (distress_streak q), Some f)
        | [] => (q, None)
        end
    end.

Definition drop_expired (q : t) (now : Timestamp.t) : t :=
  let keep := filter (fun f => OutgoingFrame.outlived now f = false) in
  let d := keep (distress q) in
  let r := keep (routine q) in
  with_queues q d r (zsum (frame_len <$> d ++ r)) (distress_streak q).
End RadioQueue.
Import RadioQueue.

(** * Runs *)

Inductive qop := QOffer (f : OutgoingFrame.t) (p : Priority) | QForget (n : Z) | QTake | QDrop (now : Timestamp.t).
Definition queue_op (q : RadioQueue.t) (op : qop) : RadioQueue.t :=
  match op with
  | QOffer f p => (offer q f p).1
  | QForget n => forget q n
  | QTake => (take_next q).1
  | QDrop now => drop_expired q now
  end.
Definition queue_run (q : RadioQueue.t) (ops : list qop) : RadioQueue.t := foldl queue_op q ops.
(** What a run sent, in order. *)
Fixpoint queue_taken (q : RadioQueue.t) (ops : list qop) : list OutgoingFrame.t :=
  match ops with
  | [] => []
  | op :: ops =>
      match op, (take_next q).2 with QTake, Some f => [f] | _, _ => [] end
      ++ queue_taken (queue_op q op) ops
  end.
Definition takes (ops : list qop) : Z :=
  zsum ((fun op => match op with QTake => 1 | _ => 0 end) <$> ops).

(** * The invariant *)

Record queue_inv (q : RadioQueue.t) : Prop := {
  qi_order : NoDup (seen_order q);
  qi_seen n : n ∈ seen q <-> n ∈ seen_order q;
  qi_dedup : (length (seen_order q) <= MAX_DEDUP_ENTRIES)%nat;
  qi_bytes : queued_bytes q = zsum (frame_len <$> distress q ++ routine q);
  qi_caps : queued_bytes q <= max_bytes q < U64_MAX;
  qi_items : size q <= max_items q;
}.

Section queue.
Implicit Types q : RadioQueue.t.

Lemma frame_lens_nonneg fs : 0 <= zsum (frame_len <$> fs).
Proof. apply zsum_nonneg, Forall_fmap, Forall_true. intros f. unfold frame_len, len; simpl. lia. Qed.

Lemma forget_oldest_spec fuel s o :
  (length o <= fuel)%nat -> NoDup o -> (forall n, n ∈ s <-> n ∈ o) ->
  let '(s', o') := forget_oldest fuel s o in
  NoDup o' /\ (forall n, n ∈ s' <-> n ∈ o') /\ (length o' <= MAX_DEDUP_ENTRIES)%nat
  /\ exists k, o' = drop k o /\ (k = 0 \/ length o' = MAX_DEDUP_ENTRIES)%nat.
Proof.
  revert s o; induction fuel as [|fuel IH]; intros s o Hlen Hnd Hs; cbn [forget_oldest].
  { destruct o; [|simpl in Hlen; lia]. split_and!; [done..|unfold MAX_DEDUP_ENTRIES; simpl; lia|exists 0%nat; auto]. }
  case_bool_decide as Hover; [|split_and!; [done..|lia|exists 0%nat; auto]].
  destruct o as [|x o]; [simpl in Hover; lia|]. apply NoDup_cons in Hnd as [Hx Hnd].
  specialize (IH (s ∖ {[x]}) o ltac:(simpl in Hlen; lia) Hnd).
  destruct (forget_oldest fuel (s ∖ {[x]}) o) as [s' o']. destruct IH as (? & ? & Hle & k & -> & Hk).
  { intros n. rewrite elem_of_difference, elem_of_singleton, Hs, elem_of_cons. naive_solver. }
  split_and!; [done..|]. exists (S k). split; [done|]. right. destruct Hk as [->|]; [|done].
  rewrite drop_0 in *. simpl in Hover. lia.
Qed.

(** What [remember] leaves alone. *)
Lemma remember_queues q n :
  distress (remember q n) = distress q /\ routine (remember q n) = routine q
  /\ queued_bytes (remember q n) = queued_bytes q /\ max_items (remember q n) = max_items q
  /\ max_bytes (remember q n) = max_bytes q /\ distress_streak (remember q n) = distress_streak q.
Proof. unfold remember. by destruct (forget_oldest _ _ _). Qed.
Lemma remember_memory q n : NoDup (seen_order q) -> (forall m, m ∈ seen q <-> m ∈ seen_order q) ->
  n ∉ seen q ->
  NoDup (seen_order (remember q n)) /\ (forall m, m ∈ seen (remember q n) <-> m ∈ seen_order (remember q n))
  /\ (length (seen_order (remember q n)) <= MAX_DEDUP_ENTRIES)%nat.
Proof.
  intros Hnd Hs Hn. unfold remember.
  pose proof (forget_oldest_spec (length (seen_order q ++ [n])) ({[n]} ∪ seen q) (seen_order q ++ [n])
    ltac:(lia)) as Hf.
  destruct (forget_oldest _ _ _) as [s o]. destruct Hf as (? & ? & ? & _); [| |by split_and!].
  - apply NoDup_app. split_and!; [done| |by apply NoDup_singleton].
    intros m Hm Hin. apply list_elem_of_singleton in Hin as ->. apply Hn. by apply Hs.
  - intros m. rewrite elem_of_union, elem_of_singleton, Hs, elem_of_app, list_elem_of_singleton. naive_solver.
Qed.

Lemma remember_holds q n : NoDup (seen_order q) -> (forall m, m ∈ seen q <-> m ∈ seen_order q) ->
  n ∉ seen q -> n ∈ seen (remember q n).
Proof.
  intros Hnd Hs Hn. destruct (remember_memory q n Hnd Hs Hn) as (_ & Hs' & _). apply Hs'. clear Hs'.
  unfold remember. pose proof (forget_oldest_spec (length (seen_order q ++ [n])) ({[n]} ∪ seen q)
    (seen_order q ++ [n]) ltac:(lia)) as Hf.
  destruct (forget_oldest _ _ _) as [s o]. simpl. destruct Hf as (_ & _ & _ & k & -> & Hk).
  { apply NoDup_app. split_and!; [done| |by apply NoDup_singleton].
    intros m Hm Hin. apply list_elem_of_singleton in Hin as ->. apply Hn. by apply Hs. }
  { intros m. rewrite elem_of_union, elem_of_singleton, Hs, elem_of_app, list_elem_of_singleton. naive_solver. }
  rewrite length_drop, length_app in Hk. unfold MAX_DEDUP_ENTRIES in Hk. simpl in Hk.
  rewrite drop_app_le by lia. apply elem_of_app. right. by left.
Qed.

Lemma offer_inv q f p : queue_inv q -> queue_inv (offer q f p).1.
Proof.
  intros Hq. pose proof Hq as [Ho Hs Hd Hb Hc Hi]. unfold offer. case_bool_decide as Hdup; [done|].
  destruct (_ || _) eqn:Hfull; [done|].
  apply orb_false_iff in Hfull as [Hitems%Z.leb_gt Hbytes%Z.ltb_ge].
  pose proof (remember_queues q (OutgoingFrame.sequence f)) as (Hqd & Hqr & Hqb & Hqi & Hqm & _).
  pose proof (remember_memory q (OutgoingFrame.sequence f) Ho Hs Hdup) as (? & ? & ?).
  pose proof (frame_lens_nonneg (distress q ++ routine q)) as Hpos.
  unfold sat_add64 in Hbytes. unfold RadioQueue.size, len in *.
  assert (queued_bytes q + frame_len f <= max_bytes q) by lia.
  rewrite fmap_app, zsum_app in Hb.
  destruct p; cbn [fst]; split; unfold RadioQueue.size, len; cbn [with_queues distress routine seen
    seen_order max_items max_bytes queued_bytes distress_streak]; rewrite ?Hqd, ?Hqr, ?Hqb, ?Hqi, ?Hqm;
    try done; rewrite ?fmap_app, ?zsum_app, ?length_app; simpl; lia.
Qed.
Lemma forget_inv q n : queue_inv q -> queue_inv (forget q n).
Proof.
  intros Hq. pose proof Hq as [Ho Hs Hd Hb Hc Hi]. unfold forget. case_bool_decide; [|done].
  split; simpl; try done.
  - by apply NoDup_filter.
  - intros m. rewrite elem_of_difference, elem_of_singleton, list_elem_of_filter, Hs. naive_solver.
  - etrans; [apply length_filter|]. done.
Qed.

(** [take_next] sends the head of one class and touches no other frame. *)
Lemma take_next_cases q q' o : take_next q = (q', o) ->
  match o with
  | None => q' = q /\ distress q = [] /\ routine q = []
  | Some f => exists streak,
      (distress q = f :: distress q' /\ routine q' = routine q
       /\ (routine q = [] \/ distress_streak q < DISTRESS_BURST)
       /\ streak = Z.min (distress_streak q + 1) U8_MAX
       /\ q' = with_queues q (distress q') (routine q') (sat_sub (queued_bytes q) (frame_len f)) streak)
      \/ (routine q = f :: routine q' /\ distress q' = distress q /\ streak = 0
          /\ (distress q = [] \/ DISTRESS_BURST <= distress_streak q)
          /\ q' = with_queues q (distress q') (routine q') (sat_sub (queued_bytes q) (frame_len f)) streak)
  end.
Proof.
  unfold take_next. destruct (routine q) as [|r rs] eqn:Hr, (distress q) as [|d ds] eqn:Hd;
    rewrite ?andb_false_r; simpl.
  - intros [= <- <-]. done.
  - intros [= <- <-]. eexists. left. simpl. split_and!; auto.
  - intros [= <- <-]. exists 0. right. simpl. split_and!; auto.
  - destruct (Z.leb_spec DISTRESS_BURST (distress_streak q)); simpl; intros [= <- <-]; eexists;
      [right|left]; simpl; split_and!; auto.
Qed.
Lemma take_inv q : queue_inv q -> queue_inv (take_next q).1.
Proof.
  intros [Ho Hs Hd Hb Hc Hi]. destruct (take_next q) as [q' [f|]] eqn:Ht;
    apply take_next_cases in Ht.
  - pose proof (frame_lens_nonneg (distress q' ++ routine q')) as Hpos.
    assert (0 <= frame_len f) by (unfold frame_len, len; lia).
    assert (queued_bytes q = frame_len f + zsum (frame_len <$> distress q' ++ routine q')) as Hbs.
    { destruct Ht as [? [(H1 & H2 & _)|(H1 & H2 & _)]]; rewrite Hb, H1, ?H2, !fmap_app, !zsum_app;
        rewrite ?fmap_cons, ?zsum_cons; lia. }
    unfold RadioQueue.size, len in *.
    destruct Ht as [? [(H1 & H2 & _ & _ & Hq)|(H1 & H2 & _ & _ & Hq)]]; rewrite H1 in Hi;
      simpl fst; rewrite Hq; split; simpl; try done; unfold sat_sub; rewrite ?length_cons in Hi; try lia;
      rewrite ?H2; unfold RadioQueue.size, len; simpl; rewrite ?H2; lia.
  - destruct Ht as (-> & _). done.
Qed.
Lemma filter_lens (P : OutgoingFrame.t -> Prop) `{!forall f, Decision (P f)} (fs : list OutgoingFrame.t) :
  zsum (frame_len <$> filter P fs) <= zsum (frame_len <$> fs).
Proof.
  induction fs as [|f fs IH]; [done|]. rewrite filter_cons.
  assert (0 <= frame_len f) by (unfold frame_len, len; lia).
  destruct (decide (P f)); rewrite !fmap_cons, !zsum_cons; lia.
Qed.
Lemma drop_inv q now : queue_inv q -> queue_inv (drop_expired q now).
Proof.
  intros [Ho Hs Hd Hb Hc Hi]. split; simpl; try done.
  - rewrite fmap_app, zsum_app in *.
    pose proof (filter_lens (fun f => OutgoingFrame.outlived now f = false) (distress q)).
    pose proof (filter_lens (fun f => OutgoingFrame.outlived now f = false) (routine q)).
    rewrite Hb in Hc. lia.
  - unfold RadioQueue.size, len in *. simpl.
    pose proof (length_filter (fun f => OutgoingFrame.outlived now f = false) (distress q)).
    pose proof (length_filter (fun f => OutgoingFrame.outlived now f = false) (routine q)). lia.
Qed.
Lemma queue_op_inv q op : queue_inv q -> queue_inv (queue_op q op).
Proof. destruct op; simpl; auto using offer_inv, forget_inv, take_inv, drop_inv. Qed.
Lemma with_capacity_inv i b : 0 <= i -> 0 <= b < U64_MAX -> queue_inv (with_capacity i b).
Proof.
  intros. split; unfold RadioQueue.size, len, MAX_DEDUP_ENTRIES; simpl; [apply NoDup_nil_2|set_solver|lia..].
Qed.
Lemma queue_run_inv q ops : queue_inv q -> queue_inv (queue_run q ops).
Proof.
  unfold queue_run. revert q; induction ops as [|op ops IH]; intros q Hq; [done|].
  by apply IH, queue_op_inv.
Qed.
Lemma queue_op_caps q op : max_items (queue_op q op) = max_items q /\ max_bytes (queue_op q op) = max_bytes q.
Proof.
  destruct op as [f p|n| |now]; simpl; [| | |done].
  - unfold offer. case_bool_decide; [done|]. destruct (_ || _); [done|].
    destruct p; simpl; by destruct (remember_queues q (OutgoingFrame.sequence f)) as (_ & _ & _ & -> & -> & _).
  - unfold forget. by case_bool_decide.
  - destruct (take_next q) as [q' [f|]] eqn:Ht; apply take_next_cases in Ht; simpl.
    + by destruct Ht as [? [(_ & _ & _ & _ & ->)|(_ & _ & _ & _ & ->)]].
    + by destruct Ht as (-> & _).
Qed.
Lemma queue_run_caps q ops :
  max_items (queue_run q ops) = max_items q /\ max_bytes (queue_run q ops) = max_bytes q.
Proof.
  unfold queue_run. revert q; induction ops as [|op ops IH]; intros q; [done|]. simpl.
  destruct (IH (queue_op q op)) as [-> ->]. apply queue_op_caps.
Qed.
Lemma seen_count_order q : queue_inv q -> seen_count q = len (seen_order q).
Proof.
  intros [Ho Hs _ _ _ _]. unfold seen_count, len. f_equal.
  assert (seen q = list_to_set (seen_order q)) as ->.
  { apply set_eq. intros n. by rewrite elem_of_list_to_set. }
  by apply size_list_to_set.
Qed.

(** ** Fairness *)

(** How many takes until the frame at position [n] of the low class is out. *)
Definition patience (q : RadioQueue.t) (n : nat) : Z :=
  9 * Z.of_nat n + Z.max 0 (DISTRESS_BURST - distress_streak q).

Lemma offer_routine q f p n r : routine q !! n = Some r ->
  routine (offer q f p).1 !! n = Some r /\ distress_streak (offer q f p).1 = distress_streak q.
Proof.
  intros Hn. unfold offer. case_bool_decide; [done|]. destruct (_ || _); [done|].
  destruct (remember_queues q (OutgoingFrame.sequence f)) as (_ & Hr & _ & _ & _ & Hs).
  destruct p; simpl; rewrite Hr, Hs; [|done]. split; [|done]. by apply lookup_app_l_Some.
Qed.
Lemma filter_position (P : OutgoingFrame.t -> Prop) `{!forall f, Decision (P f)} (fs : list OutgoingFrame.t) (n : nat) r :
  fs !! n = Some r -> P r -> exists m, (m <= n)%nat /\ filter P fs !! m = Some r.
Proof.
  revert n; induction fs as [|f fs IH]; intros [|n] Hn HP; try done; rewrite filter_cons.
  - simpl in Hn. simplify_eq. rewrite decide_True by done. by exists 0%nat.
  - destruct (IH n Hn HP) as (m & Hm & Hl). destruct (decide (P f)).
    + exists (S m). split; [lia|done].
    + exists m. split; [lia|done].
Qed.
Lemma take_patience q n r : routine q !! n = Some r -> 0 <= distress_streak q ->
  (take_next q).2 = Some r \/
  (exists m, routine (take_next q).1 !! m = Some r /\ patience (take_next q).1 m < patience q n
     /\ 0 <= distress_streak (take_next q).1).
Proof.
  intros Hn Hs. destruct (take_next q) as [q' [f|]] eqn:Ht; apply take_next_cases in Ht; cbn [fst snd].
  - destruct Ht as [streak [(Hd & Hr & Hwhy & -> & Hq)|(Hr & Hd & -> & Hwhy & Hq)]].
    + right. exists n. rewrite Hr. split; [done|]. unfold patience. rewrite Hq. simpl.
      unfold DISTRESS_BURST, U8_MAX in *. destruct Hwhy as [Hnil|]; [by rewrite Hnil in Hn|]. lia.
    + rewrite Hr in Hn. destruct n as [|n]; simpl in Hn; [left; congruence|right].
      exists n. split; [done|]. unfold patience. rewrite Hq. simpl. unfold DISTRESS_BURST. lia.
  - destruct Ht as (_ & _ & Hnil). by rewrite Hnil in Hn.
Qed.
Lemma run_patience q ops n r : routine q !! n = Some r -> 0 <= distress_streak q ->
  (forall now, QDrop now ∈ ops -> OutgoingFrame.outlived now r = false) ->
  patience q n < takes ops -> r ∈ queue_taken q ops.
Proof.
  revert q n; induction ops as [|op ops IH]; intros q n Hn Hs Hkeep Htakes.
  { unfold takes, patience in Htakes. simpl in Htakes. lia. }
  cbn [queue_taken]. unfold takes in Htakes. rewrite fmap_cons, zsum_cons in Htakes.
  fold (takes ops) in Htakes. apply elem_of_app.
  assert (forall now, QDrop now ∈ ops -> OutgoingFrame.outlived now r = false) as Hkeep'
    by (intros now Hin; apply Hkeep; by right).
  destruct op as [f p|k| |now]; cbn [queue_op].
  - right. destruct (offer_routine q f p n r Hn) as [Hn' Hst].
    apply (IH _ n); [done|lia|done|]. unfold patience in *. rewrite Hst. lia.
  - right. assert (routine (forget q k) = routine q /\ distress_streak (forget q k) = distress_streak q)
      as [Hr Hst] by (unfold forget; by case_bool_decide).
    apply (IH _ n); [by rewrite Hr|lia|done|]. unfold patience in *. rewrite Hst. lia.
  - destruct (take_patience q n r Hn Hs) as [Hout|(m & Hm & Hlt & Hs')].
    + left. rewrite Hout. by left.
    + right. apply (IH _ m); [done..|lia].
  - right. destruct (filter_position (fun f => OutgoingFrame.outlived now f = false) (routine q) n r)
      as (m & Hm & Hl); [done|apply Hkeep; by left|].
    apply (IH _ m); [done..|]. unfold patience in *. simpl. lia.
Qed.
End queue.

(** Whatever is offered, forgotten, taken or dropped, the queue stays within its
    item and byte caps, its byte count is exact, and it remembers at most 1024
    identities, each once. *)
Theorem queue_stays_bounded (items bytes_cap : Z) (ops : list qop) :
  0 <= items -> 0 <= bytes_cap < U64_MAX ->
  let q := queue_run (with_capacity items bytes_cap) ops in
  size q <= items /\ queued_bytes q <= bytes_cap
  /\ queued_bytes q = zsum (frame_len <$> distress q ++ routine q)
  /\ seen_count q <= 1024 /\ NoDup (seen_order q).
Proof.
  intros Hi Hb q. assert (queue_inv q) as Hq by by apply queue_run_inv, with_capacity_inv.
  destruct (queue_run_caps (with_capacity items bytes_cap) ops) as [Hmi Hmb]. fold q in Hmi, Hmb.
  rewrite (seen_count_order q Hq). destruct Hq as [Ho Hs Hd Hbytes Hc Hitems]. simpl in Hmi, Hmb.
  unfold MAX_DEDUP_ENTRIES in Hd. split_and!; try done; [lia|lia|unfold len; lia].
Qed.

Lemma queue_stays_bounded_witness :
  let q := queue_run (with_capacity 1 10)
             [QOffer (OutgoingFrame.new [1; 2] 7) Routine; QOffer (OutgoingFrame.new [3] 8) Distress] in
  size q <= 1 /\ queued_bytes q <= 10
  /\ queued_bytes q = zsum (frame_len <$> distress q ++ routine q)
  /\ seen_count q <= 1024 /\ NoDup (seen_order q).
Proof. apply queue_stays_bounded; [lia|split; [lia|reflexivity]]. Defined.

(** C32: a frame waiting at position [n] of the low class leaves within nine takes
    for each frame ahead of it and one more turn, however much urgent traffic is
    offered, as long as it does not expire. *)
Theorem routine_never_starves (q : RadioQueue.t) (ops : list qop) (n : nat) (r : OutgoingFrame.t) :
  routine q !! n = Some r -> 0 <= distress_streak q ->
  (forall now, QDrop now ∈ ops -> OutgoingFrame.outlived now r = false) ->
  9 * (Z.of_nat n + 1) <= takes ops -> r ∈ queue_taken q ops.
Proof.
  intros Hn Hs Hkeep Htakes. apply (run_patience q ops n r Hn Hs Hkeep).
  unfold patience, DISTRESS_BURST. lia.
Qed.

(** One routine frame under a flood of distress. *)
Definition flooded : RadioQueue.t :=
  mk ((fun i => OutgoingFrame.new [i] i) <$> seqZ 1 20) [OutgoingFrame.new [0] 0] ∅ [] 64 4096 21 0.

Lemma routine_never_starves_witness :
  OutgoingFrame.new [0] 0 ∈ queue_taken flooded (replicate 9 QTake).
Proof.
  apply (routine_never_starves flooded (replicate 9 QTake) 0).
  - reflexivity.
  - vm_compute. discriminate.
  - intros now Hin. vm_compute in Hin. by repeat (apply elem_of_cons in Hin as [[=]|Hin]).
  - vm_compute. discriminate.
Defined.

(** What is offered and accepted goes to the back of its class; what is taken is
    the front of a class, and urgent traffic goes first until its burst is spent. *)
Theorem queue_is_two_fifos (q q' : RadioQueue.t) :
  (forall f p, offer q f p = (q', Ok tt) ->
     match p with
     | Distress => distress q' = distress q ++ [f] /\ routine q' = routine q
     | Routine => distress q' = distress q /\ routine q' = routine q ++ [f]
     end)
  /\ (forall f, take_next q = (q', Some f) ->
     (distress q = f :: distress q' /\ routine q' = routine q
        /\ (routine q = [] \/ distress_streak q < DISTRESS_BURST))
     \/ (routine q = f :: routine q' /\ distress q' = distress q
        /\ (distress q = [] \/ DISTRESS_BURST <= distress_streak q)))
  /\ (take_next q = (q', None) -> q' = q /\ is_empty q = true).
Proof.
  split_and!.
  - intros f p. unfold offer. case_bool_decide; [done|]. destruct (_ || _); [done|].
    destruct (remember_queues q (OutgoingFrame.sequence f)) as (Hd & Hr & _).
    destruct p; intros [= <-]; simpl; by rewrite Hd, Hr.
  - intros f (streak & [(Hd & Hr & Hwhy & _)|(Hr & Hd & _ & Hwhy & _)])%take_next_cases; [left|right]; done.
  - intros (-> & Hd & Hr)%take_next_cases. split; [done|]. unfold is_empty, size. by rewrite Hd, Hr.
Qed.

(** A frame is refused as a duplicate exactly while its identity is remembered:
    [offer] makes it remembered and [forget] forgets it, and forgets nothing else. *)
Theorem duplicates_until_forgotten (q : RadioQueue.t) (f : OutgoingFrame.t) (p : Priority) (n : Z) :
  queue_inv q ->
  ((offer q f p).2 = Err Duplicate <-> OutgoingFrame.sequence f ∈ seen q)
  /\ ((offer q f p).2 = Ok tt -> OutgoingFrame.sequence f ∈ seen (offer q f p).1)
  /\ (n ∈ seen (forget q (OutgoingFrame.sequence f)) <-> n ∈ seen q /\ n <> OutgoingFrame.sequence f).
Proof.
  intros Hq. pose proof Hq as [Ho Hs _ _ _ _]. split_and!.
  - unfold offer. case_bool_decide; [done|]. by destruct (_ || _).
  - unfold offer. case_bool_decide as Hdup; [done|]. destruct (_ || _); [done|]. intros _.
    assert (OutgoingFrame.sequence f ∈ seen (remember q (OutgoingFrame.sequence f))) as Hin.
    { apply remember_holds; done. }
    by destruct p.
  - unfold forget. case_bool_decide; simpl; [|naive_solver].
    by rewrite elem_of_difference, elem_of_singleton.
Qed.

Lemma duplicates_until_forgotten_witness :
  let q := with_capacity 4 100 in let f := OutgoingFrame.new [1] 7 in
  ((offer q f Distress).2 = Err Duplicate <-> OutgoingFrame.sequence f ∈ seen q)
  /\ ((offer q f Distress).2 = Ok tt -> OutgoingFrame.sequence f ∈ seen (offer q f Distress).1)
  /\ (3 ∈ seen (forget q (OutgoingFrame.sequence f)) <-> 3 ∈ seen q /\ 3 <> OutgoingFrame.sequence f).
Proof.
  apply (duplicates_until_forgotten (with_capacity 4 100) (OutgoingFrame.new [1] 7) Distress 3).
  apply with_capacity_inv; [lia|split; [lia|reflexivity]].
Defined.
