(* ===== verification/Crypto.v ===== *)
(** Signing, verification and group encryption (src/src/wire/crypto.rs).

    The primitives are parameters: the BLAKE2s digest, Ed25519 and
    ChaCha20-Poly1305, each a class with the laws its documentation states. *)
From S2P Require Import Prelude.

Class Digest := { blake2s256 : bytes -> bytes }.
Class DigestLaws `{Digest} : Prop := {
  digest_length m : length (blake2s256 m) = 32%nat;
  digest_wf m : wf_bytes (blake2s256 m);
}.

Class Ed25519 := {
  ed_public : bytes -> bytes;             (* of a 32-byte seed *)
  ed_sign : bytes -> bytes -> bytes;      (* seed, message *)
  ed_verify : bytes -> bytes -> bytes -> bool;  (* public key, message, signature *)
  ed_is_point : bytes -> bool;
}.
Class Ed25519Laws `{Ed25519} : Prop := {
  ed_verify_sign seed m : ed_verify (ed_public seed) m (ed_sign seed m) = true;
  ed_public_point seed : ed_is_point (ed_public seed) = true;
  ed_sign_length seed m : length (ed_sign seed m) = 64%nat;
  ed_sign_wf seed m : wf_bytes (ed_sign seed m);
}.

Class Aead := {
  aead_encrypt : bytes -> bytes -> bytes -> bytes -> option bytes;  (* key, nonce, aad, message *)
  aead_decrypt : bytes -> bytes -> bytes -> bytes -> option bytes;
}.
Class AeadLaws `{Aead} : Prop := {
  aead_roundtrip k n a m c : aead_encrypt k n a m = Some c -> aead_decrypt k n a c = Some m;
  aead_tag k n a m c : aead_encrypt k n a m = Some c -> length c = (length m + 16)%nat;
}.

(** Two inputs of the digest with one output. *)
Definition collision `{Digest} : Prop := exists x y, x <> y /\ blake2s256 x = blake2s256 y.

Inductive WireError := BadSignature | DecryptionFailed | MalformedFrame.
#[global] Instance WireError_eq_dec : EqDecision WireError.
Proof. solve_decision. Defined.

Module SigningKey.
Record t := mk { seed : bytes }.
Definition from_seed (seed : bytes) : t := mk seed.
Definition sign `{Ed25519} (k : t) (message : bytes) : bytes := ed_sign (seed k) message.
End SigningKey.

Module VerifyingKey.
Record t := mk { point : bytes }.
#[global] Instance t_eq_dec : EqDecision t.
Proof. solve_decision. Defined.
Definition from_bytes `{Ed25519} (bs : bytes) : result WireError t :=
  if ed_is_point bs then Ok (mk bs) else Err BadSignature.
Definition to_bytes (k : t) : bytes := point k.
Definition verify `{Ed25519} (k : t) (message signature : bytes) : result WireError unit :=
  if ed_verify (point k) message signature then Ok tt else Err BadSignature.
End VerifyingKey.

Definition verifying_key `{Ed25519} (k : SigningKey.t) : VerifyingKey.t :=
  VerifyingKey.mk (ed_public (SigningKey.seed k)).

Module GroupKey.
Record t := mk { secret : bytes }.
Definition from_bytes (bs : bytes) : t := mk bs.
Definition fixture_for_epoch `{Digest} (group_key_id : bytes) (epoch : Z) : t :=
  mk (blake2s256 (lit "lcq-group-key-fixture-v1" ++ group_key_id ++ be_bytes 2 epoch)).
End GroupKey.

(** [copy_from_slice] into a range of a zeroed array of twelve, and of ten. *)
Definition nonce_for (author_index sequence : Z) : bytes :=
  be_bytes 2 author_index ++ be_bytes 8 sequence ++ [0; 0].
Definition FRAME_HEADER_BYTES : nat := 10.
Definition aad_for (author_index sequence : Z) : bytes :=
  be_bytes 2 author_index ++ be_bytes 8 sequence.

Section crypto.
Context `{Aead}.

Definition seal (key : GroupKey.t) (author_index sequence : Z) (plaintext : bytes)
    : result WireError bytes :=
  ok_or (aead_encrypt (GroupKey.secret key) (nonce_for author_index sequence)
           (aad_for author_index sequence) plaintext) DecryptionFailed.
Definition open (key : GroupKey.t) (author_index sequence : Z) (sealed : bytes)
    : result WireError bytes :=
  ok_or (aead_decrypt (GroupKey.secret key) (nonce_for author_index sequence)
           (aad_for author_index sequence) sealed) DecryptionFailed.

Definition seal_frame (key : GroupKey.t) (author_index sequence : Z) (plaintext : bytes)
    : result WireError bytes :=
  ciphertext ← seal key author_index sequence plaintext;
  Ok (aad_for author_index sequence ++ ciphertext).

Definition peek_frame_header (frame : bytes) : result WireError (Z * Z) :=
  if bool_decide (length frame <= FRAME_HEADER_BYTES)%nat then Err MalformedFrame
  else Ok (of_be (take 2 frame), of_be (take 8 (drop 2 frame))).

Definition open_frame (key : GroupKey.t) (frame : bytes) : result WireError (Z * Z * bytes) :=
  if bool_decide (length frame <= FRAME_HEADER_BYTES)%nat then Err MalformedFrame
  else
    let header := take FRAME_HEADER_BYTES frame in
    let ciphertext := drop FRAME_HEADER_BYTES frame in
    let author_index := of_be (take 2 header) in
    let sequence := of_be (drop 2 header) in
    plaintext ← open key author_index sequence ciphertext;
    Ok (author_index, sequence, plaintext).
End crypto.

(** * Properties *)

Section header.
Lemma aad_length i s : length (aad_for i s) = 10%nat.
Proof. unfold aad_for. by rewrite length_app, !length_be_bytes. Qed.
Lemma aad_inj i1 s1 i2 s2 : is_u16 i1 -> is_u16 i2 -> is_u64 s1 -> is_u64 s2 ->
  aad_for i1 s1 = aad_for i2 s2 -> i1 = i2 /\ s1 = s2.
Proof.
  unfold aad_for. intros Hi1 Hi2 Hs1 Hs2 Heq.
  apply be_bytes_app_inj in Heq as [-> Heq]; [|byte_range..]. split; [done|].
  apply be_bytes_inj in Heq; [done|byte_range..].
Qed.
Lemma header_fields i s (rest : bytes) : is_u16 i -> is_u64 s ->
  of_be (take 2 (aad_for i s ++ rest)) = i /\ of_be (take 8 (drop 2 (aad_for i s ++ rest))) = s
  /\ take 10 (aad_for i s ++ rest) = aad_for i s /\ drop 10 (aad_for i s ++ rest) = rest.
Proof.
  intros Hi Hs. pose proof (aad_length i s) as Hlen. unfold aad_for in *.
  split_and!.
  - rewrite <- app_assoc, take_app_length' by (by rewrite length_be_bytes).
    apply of_be_be_bytes. byte_range.
  - rewrite <- app_assoc, drop_app_length', take_app_length' by (by rewrite length_be_bytes).
    apply of_be_be_bytes. byte_range.
  - by rewrite take_app_length'.
  - by rewrite drop_app_length'.
Qed.
End header.

Lemma open_sealed `{AeadLaws} (key : GroupKey.t) (i s : Z) (plaintext frame : bytes) :
  is_u16 i -> is_u64 s -> seal_frame key i s plaintext = Ok frame ->
  open_frame key frame = Ok (i, s, plaintext).
Proof.
  intros Hi Hs Hseal. apply result_bind_ok in Hseal as (c & Hc%ok_or_ok & Hf).
  assert (frame = aad_for i s ++ c) as -> by congruence. clear Hf.
  assert (~ (length (aad_for i s ++ c) <= FRAME_HEADER_BYTES)%nat) as Hlong.
  { rewrite length_app, aad_length, (aead_tag _ _ _ _ _ Hc). unfold FRAME_HEADER_BYTES. lia. }
  destruct (header_fields i s c Hi Hs) as (_ & _ & Ht & Hd).
  destruct (header_fields i s [] Hi Hs) as (Hai & Has & _). rewrite app_nil_r in Hai, Has.
  rewrite take_ge in Has by (rewrite length_drop, aad_length; lia).
  unfold open_frame. case_bool_decide; [done|]. unfold FRAME_HEADER_BYTES. rewrite Ht, Hd, Hai, Has.
  unfold open. by rewrite (aead_roundtrip _ _ _ _ _ Hc).
Qed.
Lemma peek_opened `{Aead} (key : GroupKey.t) (frame : bytes) i s p :
  open_frame key frame = Ok (i, s, p) ->
  aead_decrypt (GroupKey.secret key) (nonce_for i s) (aad_for i s) (drop 10 frame) = Some p
  /\ peek_frame_header frame = Ok (i, s).
Proof.
  unfold open_frame, peek_frame_header, FRAME_HEADER_BYTES.
  case_bool_decide; [done|]. intros (p' & Hp%ok_or_ok & [= <- <- <-])%result_bind_ok.
  split; [exact Hp|]. by rewrite take_take, skipn_firstn_comm.
Qed.

(** Two frames sealed under one key share a nonce only if they are the same
    member's under the same sequence. *)
Theorem nonce_names_the_frame (i1 s1 i2 s2 : Z) :
  is_u16 i1 -> is_u16 i2 -> is_u64 s1 -> is_u64 s2 ->
  nonce_for i1 s1 = nonce_for i2 s2 -> i1 = i2 /\ s1 = s2.
Proof.
  intros Hi1 Hi2 Hs1 Hs2 Heq. unfold nonce_for in Heq.
  apply be_bytes_app_inj in Heq as [-> Heq]; [|byte_range..]. split; [done|].
  by apply be_bytes_app_inj in Heq as [-> _]; [|byte_range..].
Qed.

Lemma nonce_names_the_frame_witness : nonce_for 3 258 = nonce_for 3 258 /\ (3 = 3 /\ 258 = 258).
Proof.
  split; [reflexivity|].
  apply (nonce_names_the_frame 3 258 3 258); first [reflexivity | split; vm_compute; discriminate].
Defined.

(** A sealed frame opens, under the same key, to who sealed it, under which
    sequence, and what; its header reads the same without the key; and whatever
    opens was decrypted under the nonce and the associated data of the header it
    arrived with. *)
Theorem sealed_frame_opens `{AeadLaws} (key : GroupKey.t) (i s : Z) (plaintext frame : bytes) :
  is_u16 i -> is_u64 s -> seal_frame key i s plaintext = Ok frame ->
  open_frame key frame = Ok (i, s, plaintext)
  /\ peek_frame_header frame = Ok (i, s)
  /\ forall other i' s' p', open_frame key other = Ok (i', s', p') ->
       aead_decrypt (GroupKey.secret key) (nonce_for i' s') (aad_for i' s') (drop 10 other) = Some p'
       /\ peek_frame_header other = Ok (i', s').
Proof.
  intros Hi Hs Hseal. pose proof (open_sealed key i s plaintext frame Hi Hs Hseal) as Hopen.
  split; [done|]. split; [by apply (peek_opened key frame i s plaintext)|].
  intros other i' s' p'. apply peek_opened.
Qed.

(** ** Concrete primitives, for instances *)

(** Sixteen bits of checksum, repeated: a digest for concrete instances. *)
Definition toy_digest : Digest :=
  {| blake2s256 m := replicate 32 (foldr (fun b a => (b + 31 * a) mod 256) 7 m) |}.
Lemma toy_digest_laws : @DigestLaws toy_digest.
Proof.
  split; intros m; [apply length_replicate|].
  change (wf_bytes (replicate 32 (foldr (fun b a => (b + 31 * a) mod 256) 7 m))).
  apply Forall_replicate. destruct m as [|b m]; [vm_compute; split; discriminate|]. cbn [foldr].
  match goal with |- is_u8 (?z mod 256) => pose proof (Z.mod_pos_bound z 256 ltac:(lia)) end. width; lia.
Qed.
(** Signatures that name the key and repeat the message's length. *)
Definition toy_ed25519 : Ed25519 := {|
  ed_public seed := seed;
  ed_sign seed m := replicate 64 ((zsum seed + zsum m) mod 256);
  ed_verify key m s := bool_decide (s = replicate 64 ((zsum key + zsum m) mod 256));
  ed_is_point _ := true;
|}.
Lemma toy_ed25519_laws : @Ed25519Laws toy_ed25519.
Proof.
  split; intros; try done; [by apply bool_decide_eq_true_2|].
  change (wf_bytes (replicate 64 ((zsum seed + zsum m) mod 256))). apply Forall_replicate.
  pose proof (Z.mod_pos_bound (zsum seed + zsum m) 256 ltac:(lia)). width; lia.
Qed.

(** A stand-in cipher: the key, the nonce and the data in clear, and the message. *)
Definition clear_aead : Aead := {|
  aead_encrypt k n a m := Some (m ++ replicate 16 (zsum k + zsum n + zsum a));
  aead_decrypt k n a c :=
    let m := take (length c - 16) c in
    if bool_decide (c = m ++ replicate 16 (zsum k + zsum n + zsum a)) then Some m else None;
|}.
Lemma clear_aead_laws : @AeadLaws clear_aead.
Proof.
  split.
  - cbn [aead_encrypt aead_decrypt clear_aead]. intros k n a m c Hc.
    assert (c = m ++ replicate 16 (zsum k + zsum n + zsum a)) as -> by congruence.
    rewrite length_app, length_replicate, Nat.add_sub, take_app_length.
    by rewrite bool_decide_eq_true_2.
  - cbn [aead_encrypt clear_aead]. intros k n a m c Hc.
    assert (c = m ++ replicate 16 (zsum k + zsum n + zsum a)) as -> by congruence.
    by rewrite length_app, length_replicate.
Qed.

Lemma sealed_frame_opens_witness :
  @open_frame clear_aead (GroupKey.from_bytes [5]) (aad_for 2 9 ++ [1; 2; 3] ++ replicate 16 27)
  = Ok (2, 9, [1; 2; 3]).
Proof.
  apply (@sealed_frame_opens clear_aead clear_aead_laws (GroupKey.from_bytes [5]) 2 9 [1; 2; 3]
    (aad_for 2 9 ++ [1; 2; 3] ++ replicate 16 27) ltac:(split; vm_compute; discriminate)
    ltac:(split; vm_compute; discriminate)).
  vm_compute. reflexivity.
Defined.
