(* ===== verification/Codec.v ===== *)
(** What is signed and what travels (src/src/wire/codec.rs and
    src/src/wire/compact.rs): the readable envelope, the compact frame, the
    acknowledgement bitmap and the round a frame belongs to.

    Serialisation is postcard's, a parameter per type ([Serde]). *)
From S2P Require Import Prelude Time Contracts Crypto.

Class Serde (A : Type) := {
  ser : A -> option bytes;
  de : bytes -> option A;
}.
Class SerdeLaws (A : Type) `{Serde A} : Prop := {
  serde_roundtrip (a : A) bs : ser a = Some bs -> de bs = Some a;
}.

Definition TRANSCRIPT_DOMAIN : bytes := lit "lcq-v1-endorsement".
Definition COMPACT_DOMAIN : bytes := lit "lcq-v1-compact".
Definition CASE_DOMAIN : bytes := lit "lcq-v1-case".

(** A length in front of a text: [u32::try_from(len).unwrap_or(u32::MAX)]. *)
Definition length_prefixed (s : str) : bytes :=
  be_bytes 4 (Z.min (str_len s) U32_MAX) ++ as_bytes s.

(** * The readable envelope *)

Module Envelope.
Record t := mk {
  mission : str;
  event : str;
  revision : Z;
  content_hash : bytes;
  started_at : Z;
  author : str;
  stage : Z;
  verdict : Z;
  sequence : Z;
}.
#[global] Instance t_eq_dec : EqDecision t.
Proof. solve_decision. Defined.

Definition new (s : Subject.t) (author : str) (st : Stage) (v : Verdict) (sequence : Z) : t :=
  mk (Subject.mission s) (Subject.event s) (Subject.revision s) (Subject.content_hash s)
    (Timestamp.as_secs (Subject.started_at s)) author (stage_code st) (verdict_code v) sequence.

Definition subject (e : t) : result WireError Subject.t :=
  map_err (fun _ => MalformedFrame)
    (Subject.new (mission e) (event e) (revision e) (content_hash e)
       (Timestamp.from_secs (started_at e))).

(** The bytes the transcript hashes, update by update. *)
Definition preimage (e : t) : bytes :=
  TRANSCRIPT_DOMAIN ++ [stage e] ++ length_prefixed (mission e) ++ length_prefixed (event e)
  ++ be_bytes 4 (revision e) ++ content_hash e ++ be_bytes 8 (started_at e)
  ++ length_prefixed (author e) ++ [verdict e] ++ be_bytes 8 (sequence e).
Definition transcript `{Digest} (e : t) : bytes := blake2s256 (preimage e).

(** What the field types allow; a text shorter than 4 GiB. *)
Definition wf_text (s : str) : Prop := wf_str s /\ str_len s <= U32_MAX.
Record wf_envelope (e : t) : Prop := {
  we_mission : wf_text (mission e);
  we_event : wf_text (event e);
  we_author : wf_text (author e);
  we_revision : is_u32 (revision e);
  we_hash : length (content_hash e) = 32%nat;
  we_started : is_u64 (started_at e);
  we_sequence : is_u64 (sequence e);
}.
End Envelope.

Module SignedEnvelope.
Record t := mk { envelope : Envelope.t; signature : bytes }.
Definition verify `{Digest, Ed25519} (s : t) (key : VerifyingKey.t) : result WireError unit :=
  VerifyingKey.verify key (Envelope.transcript (envelope s)) (signature s).
End SignedEnvelope.

Definition sign `{Digest, Ed25519} (e : Envelope.t) (key : SigningKey.t) : SignedEnvelope.t :=
  SignedEnvelope.mk e (SigningKey.sign key (Envelope.transcript e)).
Definition encode `{Serde SignedEnvelope.t} (s : SignedEnvelope.t) : result WireError bytes :=
  ok_or (ser s) MalformedFrame.
Definition decode `{Serde SignedEnvelope.t} (bs : bytes) : result WireError SignedEnvelope.t :=
  ok_or (de bs) MalformedFrame.

(** * Who was heard *)

Module Heard.
Definition t : Type := bytes.
Definition CAPACITY : Z := 64.
Definition none : t := replicate 8 0.

Definition heard_from (h : t) (index : Z) : t :=
  if index <? CAPACITY
  then alter (fun b => Z.lor b (Z.shiftl 1 (index mod 8))) (Z.to_nat (index / 8)) h
  else h.
Definition contains (h : t) (index : Z) : bool :=
  (index <? CAPACITY)
  && negb (Z.land (nth (Z.to_nat (index / 8)) h 0) (Z.shiftl 1 (index mod 8)) =? 0).
(** [u8::count_ones]. *)
Definition count_ones (b : Z) : Z :=
  zsum ((fun i => Z.b2z (Z.testbit b i)) <$> seqZ 0 8).
Definition count (h : t) : Z := zsum ((fun at_ => count_ones (nth (Z.to_nat at_) h 0)) <$> seqZ 0 8).
(** ([bytes()] is the array itself.) *)
End Heard.

(** * The round *)

Module RoundId.
Record t := new { opener : Z; sequence : Z }.
#[global] Instance t_eq_dec : EqDecision t.
Proof. solve_decision. Defined.
Definition none : t := new U16_MAX 0.
Definition is_set (r : t) : bool := negb (opener r =? U16_MAX).
Definition bytes_ (r : t) : bytes := be_bytes 2 (opener r) ++ be_bytes 4 (sequence r).
End RoundId.

(** * The compact frame *)

Definition CASE_REFERENCE_BYTES : nat := 8.
Definition MAX_FRAME_BYTES : Z := 152.

Definition case_reference `{Digest} (content_hash : bytes) : bytes :=
  take CASE_REFERENCE_BYTES (blake2s256 (CASE_DOMAIN ++ content_hash)).

Module CompactEnvelope.
Record t := mk {
  mission_epoch : Z;
  event : Z;
  revision : Z;
  case : bytes;
  started_at : Z;
  author_index : Z;
  stage : Z;
  verdict : Z;
  sequence : Z;
  heard : Heard.t;
  round : RoundId.t;
}.
#[global] Instance t_eq_dec : EqDecision t.
Proof. unfold Heard.t. solve_decision. Defined.

Definition new `{Digest} (mission_epoch event revision : Z) (content_hash : bytes)
    (started_at author_index stage verdict sequence : Z) : t :=
  mk mission_epoch event revision (case_reference content_hash) started_at author_index stage verdict
    sequence Heard.none RoundId.none.
Definition acknowledging (e : t) (h : Heard.t) : t :=
  mk (mission_epoch e) (event e) (revision e) (case e) (started_at e) (author_index e) (stage e)
    (verdict e) (sequence e) h (round e).
Definition in_round (e : t) (r : RoundId.t) : t :=
  mk (mission_epoch e) (event e) (revision e) (case e) (started_at e) (author_index e) (stage e)
    (verdict e) (sequence e) (heard e) r.

Definition preimage (e : t) (content_hash : bytes) : bytes :=
  COMPACT_DOMAIN ++ [stage e] ++ be_bytes 2 (mission_epoch e) ++ be_bytes 4 (event e)
  ++ be_bytes 2 (revision e) ++ heard e ++ RoundId.bytes_ (round e) ++ content_hash ++ case e
  ++ be_bytes 8 (started_at e) ++ be_bytes 2 (author_index e) ++ [verdict e]
  ++ be_bytes 8 (sequence e).
Definition transcript `{Digest} (e : t) (content_hash : bytes) : bytes :=
  blake2s256 (preimage e content_hash).

Record wf_compact (e : t) : Prop := {
  wc_epoch : is_u16 (mission_epoch e);
  wc_event : is_u32 (event e);
  wc_revision : is_u16 (revision e);
  wc_case : length (case e) = CASE_REFERENCE_BYTES;
  wc_started : is_u64 (started_at e);
  wc_author : is_u16 (author_index e);
  wc_sequence : is_u64 (sequence e);
  wc_heard : length (heard e) = 8%nat;
  wc_round : is_u16 (RoundId.opener (round e)) /\ is_u32 (RoundId.sequence (round e));
}.
End CompactEnvelope.

Module SignedCompactEnvelope.
Record t := mk { envelope : CompactEnvelope.t; signature : bytes }.
Definition verify `{Digest, Ed25519} (s : t) (key : VerifyingKey.t) (content_hash : bytes)
    : result WireError unit :=
  VerifyingKey.verify key (CompactEnvelope.transcript (envelope s) content_hash) (signature s).
End SignedCompactEnvelope.

Definition sign_compact `{Digest, Ed25519} (e : CompactEnvelope.t) (key : SigningKey.t)
    (content_hash : bytes) : SignedCompactEnvelope.t :=
  SignedCompactEnvelope.mk e (SigningKey.sign key (CompactEnvelope.transcript e content_hash)).
Definition encode_compact `{Serde SignedCompactEnvelope.t} (s : SignedCompactEnvelope.t)
    : result WireError bytes := ok_or (ser s) MalformedFrame.
Definition decode_compact `{Serde SignedCompactEnvelope.t} (bs : bytes)
    : result WireError SignedCompactEnvelope.t := ok_or (de bs) MalformedFrame.

(** * Lemmas *)

Section transcripts.
Lemma length_prefixed_inj s1 s2 r1 r2 : Envelope.wf_text s1 -> Envelope.wf_text s2 ->
  length_prefixed s1 ++ r1 = length_prefixed s2 ++ r2 -> s1 = s2 /\ r1 = r2.
Proof.
  intros [Hw1 Hl1] [Hw2 Hl2]. unfold length_prefixed. rewrite <- !app_assoc.
  unfold str_len, len in *. rewrite !Z.min_l by lia. intros Heq.
  apply be_bytes_app_inj in Heq as [Hlen Heq]; [|byte_range..].
  apply app_fixed_inj in Heq as [Hb ->]; [|lia]. split; [|done]. by apply as_bytes_inj.
Qed.
Lemma byte_app_inj (x y : Z) r1 r2 : [x] ++ r1 = [y] ++ r2 -> x = y /\ r1 = r2.
Proof. by intros [= -> ->]. Qed.

Lemma envelope_preimage_inj e1 e2 : Envelope.wf_envelope e1 -> Envelope.wf_envelope e2 ->
  Envelope.preimage e1 = Envelope.preimage e2 -> e1 = e2.
Proof.
  intros [Hm1 He1 Ha1 Hr1 Hh1 Hs1 Hq1] [Hm2 He2 Ha2 Hr2 Hh2 Hs2 Hq2]. unfold Envelope.preimage.
  intros [_ Heq]%app_fixed_inj; [|done].
  apply byte_app_inj in Heq as [Hst Heq].
  apply length_prefixed_inj in Heq as [Hmi Heq]; [|done..].
  apply length_prefixed_inj in Heq as [Hev Heq]; [|done..].
  apply be_bytes_app_inj in Heq as [Hre Heq]; [|byte_range..].
  apply app_fixed_inj in Heq as [Hha Heq]; [|congruence].
  apply be_bytes_app_inj in Heq as [Hsa Heq]; [|byte_range..].
  apply length_prefixed_inj in Heq as [Hau Heq]; [|done..].
  apply byte_app_inj in Heq as [Hve Heq].
  apply be_bytes_inj in Heq as Hse; [|byte_range..].
  destruct e1, e2; simpl in *; congruence.
Qed.
Lemma compact_preimage_inj e1 e2 h1 h2 : CompactEnvelope.wf_compact e1 -> CompactEnvelope.wf_compact e2 ->
  length h1 = length h2 ->
  CompactEnvelope.preimage e1 h1 = CompactEnvelope.preimage e2 h2 -> e1 = e2 /\ h1 = h2.
Proof.
  intros [He1 Hv1 Hr1 Hc1 Hs1 Ha1 Hq1 Hh1 [Ho1 Hos1]] [He2 Hv2 Hr2 Hc2 Hs2 Ha2 Hq2 Hh2 [Ho2 Hos2]] Hlen.
  unfold CompactEnvelope.preimage, RoundId.bytes_. rewrite <- !app_assoc.
  intros [_ Heq]%app_fixed_inj; [|done].
  apply byte_app_inj in Heq as [Hst Heq].
  apply be_bytes_app_inj in Heq as [Hep Heq]; [|byte_range..].
  apply be_bytes_app_inj in Heq as [Hev Heq]; [|byte_range..].
  apply be_bytes_app_inj in Heq as [Hre Heq]; [|byte_range..].
  apply app_fixed_inj in Heq as [Hhe Heq]; [|congruence].
  apply be_bytes_app_inj in Heq as [Hop Heq]; [|byte_range..].
  apply be_bytes_app_inj in Heq as [Hos Heq]; [|byte_range..].
  apply app_fixed_inj in Heq as [Hha Heq]; [|done].
  apply app_fixed_inj in Heq as [Hca Heq]; [|congruence].
  apply be_bytes_app_inj in Heq as [Hsa Heq]; [|byte_range..].
  apply be_bytes_app_inj in Heq as [Hau Heq]; [|byte_range..].
  apply byte_app_inj in Heq as [Hve Heq].
  apply be_bytes_inj in Heq as Hse; [|byte_range..].
  destruct e1 as [? ? ? ? ? ? ? ? ? ? []], e2 as [? ? ? ? ? ? ? ? ? ? []]; simpl in *. split; congruence.
Qed.
Lemma domains_apart e c h : Envelope.preimage e <> CompactEnvelope.preimage c h.
Proof. unfold Envelope.preimage, CompactEnvelope.preimage. vm_compute lit. done. Qed.
End transcripts.

Section heard.
Implicit Types h : Heard.t.

Lemma contains_testbit h i : 0 <= i < 64 ->
  Heard.contains h i = Z.testbit (nth (Z.to_nat (i / 8)) h 0) (i mod 8).
Proof.
  intros Hi. unfold Heard.contains, Heard.CAPACITY. destruct (Z.ltb_spec i 64); [|lia]. simpl.
  apply land_bit. apply Z.mod_pos_bound. lia.
Qed.
Lemma heard_from_length h i : length (Heard.heard_from h i) = length h.
Proof. unfold Heard.heard_from. destruct (_ <? _); [|done]. apply length_alter. Qed.
Lemma contains_heard_from h i j : length h = 8%nat -> 0 <= i -> 0 <= j ->
  Heard.contains (Heard.heard_from h i) j = bool_decide (i = j /\ i < 64) || Heard.contains h j.
Proof.
  intros Hh Hi Hj. destruct (Z.lt_ge_cases j 64) as [Hj64|Hj64].
  2:{ unfold Heard.contains, Heard.CAPACITY. destruct (Z.ltb_spec j 64); [lia|]. simpl.
      rewrite bool_decide_eq_false_2 by lia. done. }
  unfold Heard.heard_from, Heard.CAPACITY. destruct (Z.ltb_spec i 64) as [Hi64|Hi64].
  2:{ by rewrite bool_decide_eq_false_2 by lia. }
  rewrite !contains_testbit by lia.
  pose proof (Z.div_mod i 8 ltac:(lia)) as Hdi. pose proof (Z.mod_pos_bound i 8 ltac:(lia)) as Hmi.
  pose proof (Z.div_mod j 8 ltac:(lia)) as Hdj. pose proof (Z.mod_pos_bound j 8 ltac:(lia)) as Hmj.
  rewrite nth_alter by lia. case_decide as Hk.
  - assert (i / 8 = j / 8) as Hdiv by lia. rewrite Z.lor_spec, Z.shiftl_1_l.
    destruct (Z.eq_dec (j mod 8) (i mod 8)) as [Hm|Hm].
    + rewrite Hm at 2. rewrite Z.pow2_bits_true by lia.
      rewrite (bool_decide_eq_true_2 (i = j /\ i < 64)) by lia. by rewrite orb_true_r.
    + rewrite Z.pow2_bits_false by lia.
      rewrite (bool_decide_eq_false_2 (i = j /\ i < 64)) by (intros [-> _]; lia).
      by rewrite orb_false_r.
  - rewrite bool_decide_eq_false_2; [done|]. intros [-> _]. done.
Qed.
(** Sixty-four bits are eight bytes of eight. *)
Lemma bits_by_byte (T : Z -> Z -> Z) h : length h = 8%nat ->
  (fun i => T (nth (Z.to_nat (i / 8)) h 0) (i mod 8)) <$> seqZ 0 64
  = concat ((fun k => (fun i => T (nth (Z.to_nat k) h 0) i) <$> seqZ 0 8) <$> seqZ 0 8).
Proof.
  intros Hh. do 9 (destruct h as [|? h]; simpl in Hh; try lia). vm_compute. reflexivity.
Qed.
Lemma zsum_concat (ls : list (list Z)) : zsum (concat ls) = zsum (zsum <$> ls).
Proof.
  induction ls as [|l ls IH]; [done|]. rewrite fmap_cons, zsum_cons. cbn [concat].
  by rewrite zsum_app, IH.
Qed.
Lemma count_contains h : length h = 8%nat ->
  Heard.count h = zsum ((fun i => Z.b2z (Heard.contains h i)) <$> seqZ 0 64).
Proof.
  intros Hh.
  assert (((fun i => Z.b2z (Heard.contains h i)) <$> seqZ 0 64)
    = ((fun i => Z.b2z (Z.testbit (nth (Z.to_nat (i / 8)) h 0) (i mod 8))) <$> seqZ 0 64)) as ->.
  { apply list_fmap_ext. intros k i [-> Hk]%lookup_seqZ. f_equal. apply contains_testbit. lia. }
  rewrite (bits_by_byte (fun b i => Z.b2z (Z.testbit b i))) by done.
  rewrite zsum_concat, <- list_fmap_compose. done.
Qed.
End heard.

(** * Properties *)

(** C25: a transcript pins every field it covers: two envelopes, or two compact
    frames with the case hash they are about, have one transcript only if they are
    the same, and the two forms never share one, short of a collision of the
    digest. *)
Theorem transcripts_bind `{Digest} (e1 e2 : Envelope.t) (c1 c2 : CompactEnvelope.t) (h1 h2 : bytes) :
  Envelope.wf_envelope e1 -> Envelope.wf_envelope e2 ->
  CompactEnvelope.wf_compact c1 -> CompactEnvelope.wf_compact c2 -> length h1 = length h2 ->
  (Envelope.transcript e1 = Envelope.transcript e2 -> e1 = e2 \/ collision)
  /\ (CompactEnvelope.transcript c1 h1 = CompactEnvelope.transcript c2 h2 ->
        (c1 = c2 /\ h1 = h2) \/ collision)
  /\ (Envelope.transcript e1 = CompactEnvelope.transcript c1 h1 -> collision).
Proof.
  intros He1 He2 Hc1 Hc2 Hlen. split_and!; intros Heq.
  - destruct (decide (Envelope.preimage e1 = Envelope.preimage e2)) as [Hp|Hp].
    + left. by apply envelope_preimage_inj.
    + right. by exists (Envelope.preimage e1), (Envelope.preimage e2).
  - destruct (decide (CompactEnvelope.preimage c1 h1 = CompactEnvelope.preimage c2 h2)) as [Hp|Hp].
    + left. by apply compact_preimage_inj.
    + right. by exists (CompactEnvelope.preimage c1 h1), (CompactEnvelope.preimage c2 h2).
  - exists (Envelope.preimage e1), (CompactEnvelope.preimage c1 h1). split; [|done]. apply domains_apart.
Qed.

Definition demo_envelope (v : Z) : Envelope.t :=
  Envelope.mk (lit "m") (lit "e") 1 (replicate 32 0) 5 (lit "a") 3 v 8.
Definition demo_compact : CompactEnvelope.t :=
  CompactEnvelope.mk 1 2 3 (replicate 8 9) 5 6 3 1 8 Heard.none RoundId.none.
Lemma demo_envelope_wf v : Envelope.wf_envelope (demo_envelope v).
Proof.
  split; [split..| |reflexivity| |];
    try (apply (bool_decide_unpack (wf_str _)); vm_compute; exact I); try (width; simpl; lia);
    vm_compute; discriminate.
Qed.
Lemma demo_compact_wf : CompactEnvelope.wf_compact demo_compact.
Proof.
  split; try reflexivity; simpl; width; lia.
Qed.

Lemma transcripts_bind_witness :
  @Envelope.transcript toy_digest (demo_envelope 1)
    <> @Envelope.transcript toy_digest (demo_envelope 2)
  /\ (@CompactEnvelope.transcript toy_digest demo_compact [1]
        = @CompactEnvelope.transcript toy_digest demo_compact [1] ->
      (demo_compact = demo_compact /\ [1] = [1]) \/ @collision toy_digest).
Proof.
  split; [vm_compute; discriminate|].
  apply (@transcripts_bind toy_digest (demo_envelope 1) (demo_envelope 2) demo_compact demo_compact [1] [1]);
    first [apply demo_envelope_wf | apply demo_compact_wf | reflexivity].
Defined.

(** C26: a frame survives the whole path: signed, serialised, sealed, opened under
    the same key, parsed and verified, it is the envelope its author signed, from
    the author and under the sequence the header names; and it verifies for the
    case it was signed over. *)
Theorem compact_frame_roundtrip
    `{Dg : Digest, Ed25519Laws, AeadLaws, SerdeLaws SignedCompactEnvelope.t}
    (e : CompactEnvelope.t) (key : SigningKey.t) (group : GroupKey.t) (hash wire frame : bytes) :
  is_u16 (CompactEnvelope.author_index e) -> is_u64 (CompactEnvelope.sequence e) ->
  encode_compact (sign_compact e key hash) = Ok wire ->
  seal_frame group (CompactEnvelope.author_index e) (CompactEnvelope.sequence e) wire = Ok frame ->
  exists s plain,
    open_frame group frame = Ok (CompactEnvelope.author_index e, CompactEnvelope.sequence e, plain)
    /\ decode_compact plain = Ok s
    /\ SignedCompactEnvelope.envelope s = e
    /\ SignedCompactEnvelope.verify s (verifying_key key) hash = Ok tt.
Proof.
  intros Hi Hs Henc%ok_or_ok Hseal. exists (sign_compact e key hash), wire.
  split; [by apply open_sealed|]. split; [|split; [done|]].
  - unfold decode_compact. by rewrite (serde_roundtrip _ _ Henc).
  - unfold SignedCompactEnvelope.verify, VerifyingKey.verify. simpl. unfold SigningKey.sign. by rewrite ed_verify_sign.
Qed.

(** A serialisation of one frame, enough for an instance. *)
Definition one_frame_serde (s : SignedCompactEnvelope.t) : Serde SignedCompactEnvelope.t := {|
  ser t := if bool_decide (SignedCompactEnvelope.envelope t = SignedCompactEnvelope.envelope s
             /\ SignedCompactEnvelope.signature t = SignedCompactEnvelope.signature s) then Some [42] else None;
  de bs := if bool_decide (bs = [42]) then Some s else None;
|}.
Lemma one_frame_serde_laws s : @SerdeLaws _ (one_frame_serde s).
Proof.
  split. intros [e g] bs. simpl. case_bool_decide as Heq; [|done]. intros [= <-]. simpl.
  destruct s, Heq as [Ha Hb]. simpl in *. by subst.
Qed.
Definition demo_signed : SignedCompactEnvelope.t :=
  @sign_compact toy_digest toy_ed25519 demo_compact (SigningKey.from_seed [4]) (replicate 32 1).

Lemma compact_frame_roundtrip_witness :
  exists s plain,
    @open_frame clear_aead (GroupKey.from_bytes [5]) (aad_for 6 8 ++ [42] ++ replicate 16 33)
      = Ok (6, 8, plain)
    /\ @decode_compact (one_frame_serde demo_signed) plain = Ok s
    /\ SignedCompactEnvelope.envelope s = demo_compact
    /\ @SignedCompactEnvelope.verify toy_digest toy_ed25519 s
         (@verifying_key toy_ed25519 (SigningKey.from_seed [4])) (replicate 32 1) = Ok tt.
Proof.
  apply (@compact_frame_roundtrip toy_digest toy_ed25519 toy_ed25519_laws clear_aead clear_aead_laws
    (one_frame_serde demo_signed) (one_frame_serde_laws demo_signed) demo_compact
    (SigningKey.from_seed [4]) (GroupKey.from_bytes [5]) (replicate 32 1) [42]).
  - split; vm_compute; discriminate.
  - split; vm_compute; discriminate.
  - vm_compute. reflexivity.
  - vm_compute. reflexivity.
Defined.

(** An envelope built for a subject gives that subject back, and the codes in it
    are the stage and the verdict it was built with. *)
Theorem envelope_names_its_subject (s : Subject.t) (author : str) (st : Stage) (v : Verdict) (n : Z) :
  Subject.new (Subject.mission s) (Subject.event s) (Subject.revision s) (Subject.content_hash s)
    (Subject.started_at s) = Ok s ->
  let e := Envelope.new s author st v n in
  Envelope.subject e = Ok s /\ stage_of (Envelope.stage e) = Some st
  /\ verdict_of (Envelope.verdict e) = Some v.
Proof.
  intros Hs e. split; [|split; [apply stage_of_code|apply verdict_of_code]].
  unfold Envelope.subject. simpl. destruct (Subject.started_at s) as [secs] eqn:Hst.
  simpl. by rewrite Hs.
Qed.

Lemma envelope_names_its_subject_witness :
  let s := Subject.mk (lit "m") (lit "e") 2 [7] (Timestamp.from_secs 5) in
  let e := Envelope.new s (lit "a") BindingSupport Support 3 in
  Envelope.subject e = Ok s /\ stage_of (Envelope.stage e) = Some BindingSupport
  /\ verdict_of (Envelope.verdict e) = Some Support.
Proof. apply envelope_names_its_subject. reflexivity. Defined.

(** What the bitmap records, as a set of members. *)
Definition heard_set (h : Heard.t) : gset Z :=
  list_to_set (filter (fun i => Heard.contains h i = true) (seqZ 0 64)).

Section heard_set.
Lemma elem_of_heard_set h i : i ∈ heard_set h <-> 0 <= i < 64 /\ Heard.contains h i = true.
Proof.
  unfold heard_set. rewrite elem_of_list_to_set, list_elem_of_filter, elem_of_seqZ.
  split; intros [? ?]; split; try done; lia.
Qed.
Lemma zsum_filter_len (P : Z -> bool) l :
  zsum ((fun i => Z.b2z (P i)) <$> l) = len (filter (fun i => P i = true) l).
Proof.
  unfold len. induction l as [|i l IH]; [done|]. rewrite fmap_cons, zsum_cons, filter_cons, IH.
  destruct (P i); case_decide; try done; rewrite ?length_cons; cbn [Z.b2z]; lia.
Qed.
End heard_set.

(** The bitmap is a set of up to sixty-four members: empty at first, gaining
    exactly the member recorded (nothing, past its capacity), in any order, and
    counting its members. *)
Theorem heard_is_a_set (h : Heard.t) (i j : Z) :
  length h = 8%nat -> 0 <= i -> 0 <= j ->
  heard_set Heard.none = ∅
  /\ heard_set (Heard.heard_from h i) = (if bool_decide (i < 64) then {[i]} else ∅) ∪ heard_set h
  /\ heard_set (Heard.heard_from (Heard.heard_from h i) j)
     = heard_set (Heard.heard_from (Heard.heard_from h j) i)
  /\ Heard.count h = Z.of_nat (size (heard_set h)).
Proof.
  intros Hh Hi Hj.
  assert (forall g k, length g = 8%nat -> 0 <= k ->
    heard_set (Heard.heard_from g k) = (if bool_decide (k < 64) then {[k]} else ∅) ∪ heard_set g) as Hadd.
  { intros g k Hg Hk. apply set_eq. intros n. rewrite elem_of_union, !elem_of_heard_set.
    case_bool_decide as Hlt; rewrite ?elem_of_singleton, ?elem_of_empty.
    - split.
      + intros [Hn Hc]. rewrite contains_heard_from, orb_true_iff, bool_decide_eq_true in Hc by lia. naive_solver.
      + intros [->|[Hn Hc]]; (split; [lia|]); rewrite contains_heard_from by lia; apply orb_true_iff.
        * left. by apply bool_decide_eq_true.
        * by right.
    - split.
      + intros [Hn Hc]. rewrite contains_heard_from, orb_true_iff, bool_decide_eq_true in Hc by lia. naive_solver lia.
      + intros [[]|[Hn Hc]]. split; [lia|]. rewrite contains_heard_from, Hc by lia. apply orb_true_r. }
  split_and!.
  - vm_compute. reflexivity.
  - by apply Hadd.
  - rewrite !Hadd by (rewrite ?heard_from_length; done).
    rewrite !(assoc_L (∪)). f_equal. apply (comm_L (∪)).
  - rewrite count_contains by done. rewrite zsum_filter_len. unfold heard_set, len.
    rewrite size_list_to_set; [done|]. apply NoDup_filter, NoDup_seqZ.
Qed.

Lemma heard_is_a_set_witness :
  heard_set (Heard.heard_from Heard.none 9) = {[9]} ∪ heard_set Heard.none
  /\ Heard.count (Heard.heard_from Heard.none 9) = 1.
Proof.
  split; [|vm_compute; reflexivity].
  destruct (heard_is_a_set Heard.none 9 3 eq_refl ltac:(lia) ltac:(lia)) as (_ & Ha & _).
  exact Ha.
Defined.
