(* ===== verification/WireDemo.v ===== *)
(** A fixed-width serialisation of compact frames that satisfies the laws of [Serde], for
    the fleets the witnesses run. *)
From S2P Require Import Prelude Crypto Codec.

(** * A serialisation *)

Definition write_frame (x : SignedCompactEnvelope.t) : bytes :=
  let e := SignedCompactEnvelope.envelope x in
  be_bytes 2 (CompactEnvelope.mission_epoch e) ++ be_bytes 4 (CompactEnvelope.event e) ++ be_bytes 2 (CompactEnvelope.revision e)
  ++ CompactEnvelope.case e ++ be_bytes 8 (CompactEnvelope.started_at e) ++ be_bytes 2 (CompactEnvelope.author_index e)
  ++ [CompactEnvelope.stage e] ++ [CompactEnvelope.verdict e] ++ be_bytes 8 (CompactEnvelope.sequence e)
  ++ CompactEnvelope.heard e ++ be_bytes 2 (RoundId.opener (CompactEnvelope.round e))
  ++ be_bytes 4 (RoundId.sequence (CompactEnvelope.round e)) ++ SignedCompactEnvelope.signature x.
Definition fixed_width (x : SignedCompactEnvelope.t) : bool :=
  let e := SignedCompactEnvelope.envelope x in
  bool_decide (is_u16 (CompactEnvelope.mission_epoch e) /\ is_u32 (CompactEnvelope.event e) /\ is_u16 (CompactEnvelope.revision e)
    /\ length (CompactEnvelope.case e) = 8%nat /\ is_u64 (CompactEnvelope.started_at e) /\ is_u16 (CompactEnvelope.author_index e)
    /\ is_u64 (CompactEnvelope.sequence e) /\ length (CompactEnvelope.heard e) = 8%nat
    /\ is_u16 (RoundId.opener (CompactEnvelope.round e)) /\ is_u32 (RoundId.sequence (CompactEnvelope.round e)) /\ wf_bytes (write_frame x)).
Definition cut (at_ n : nat) (bs : bytes) : bytes := take n (drop at_ bs).
Definition read_frame (bs : bytes) : SignedCompactEnvelope.t :=
  SignedCompactEnvelope.mk
    (CompactEnvelope.mk (of_be (cut 0 2 bs)) (of_be (cut 2 4 bs)) (of_be (cut 6 2 bs)) (cut 8 8 bs) (of_be (cut 16 8 bs))
      (of_be (cut 24 2 bs)) (nth 26 bs 0) (nth 27 bs 0) (of_be (cut 28 8 bs)) (cut 36 8 bs)
      (RoundId.new (of_be (cut 44 2 bs)) (of_be (cut 46 4 bs))))
    (drop 50 bs).
Definition wide_serde : Serde SignedCompactEnvelope.t := {|
  ser x := if fixed_width x then Some (write_frame x) else None;
  de bs := if (length bs <? 50)%nat || negb (bool_decide (wf_bytes bs)) then None else Some (read_frame bs);
|}.
Lemma cut_here x r k n : k = 0%nat -> length x = n -> cut k n (x ++ r) = x.
Proof. intros -> <-. unfold cut. by rewrite drop_0, take_app_length. Qed.
Lemma cut_past x r at_ n : (length x <= at_)%nat -> cut at_ n (x ++ r) = cut (at_ - length x) n r.
Proof. intros Hl. unfold cut. by rewrite drop_app_ge. Qed.
Lemma nth_past {A} (x r : list A) at_ d : (length x <= at_)%nat -> nth at_ (x ++ r) d = nth (at_ - length x) r d.
Proof. intros. by apply app_nth2. Qed.
Lemma wide_serde_laws : @SerdeLaws _ wide_serde.
Proof.
  split. intros x bs. cbn [ser de wide_serde]. destruct (fixed_width x) eqn:Hf; [|done]. intros Hbs.
  assert (bs = write_frame x) as -> by congruence. clear Hbs. unfold fixed_width in Hf. apply bool_decide_eq_true in Hf.
  destruct x as [[me ev rv cs st au sg vd sq hd [op rs]] sig]. cbn in Hf. destruct Hf as (H1 & H2 & H3 & H4 & H5 & H6 & H7 & H8 & H9 & H10 & Hwf).
  rewrite (bool_decide_eq_true_2 _ Hwf). clear Hwf.
  assert (is_u8 0) by (width; lia). width.
  unfold read_frame, write_frame. cbn [SignedCompactEnvelope.envelope SignedCompactEnvelope.signature CompactEnvelope.mission_epoch
    CompactEnvelope.event CompactEnvelope.revision CompactEnvelope.case CompactEnvelope.started_at CompactEnvelope.author_index
    CompactEnvelope.stage CompactEnvelope.verdict CompactEnvelope.sequence CompactEnvelope.heard CompactEnvelope.round RoundId.opener RoundId.sequence].
  repeat match goal with |- context [be_bytes ?n ?z] =>
    lazymatch goal with H : length (be_bytes n z) = _ |- _ => fail | _ => idtac end;
    let b := fresh "b" in pose proof (length_be_bytes n z); assert (of_be (be_bytes n z) = z) by (apply of_be_be_bytes; byte_range);
    remember (be_bytes n z) as b end.
  destruct (Nat.ltb_spec (length (b ++ b0 ++ b1 ++ cs ++ b2 ++ b3 ++ [sg] ++ [vd] ++ b4 ++ hd ++ b5 ++ b6 ++ sig)) 50) as [Hlt|_].
  { rewrite !length_app in Hlt. cbn [length] in Hlt. lia. }
  cbn [negb orb].
  f_equal. f_equal.
  2: { repeat rewrite drop_app_ge by (cbn [length]; lia). cbn [length]. match goal with |- drop ?k _ = _ => replace k with 0%nat by lia end. done. }
  f_equal; [..|f_equal].
  all: repeat match goal with H : of_be ?x = ?z |- _ = ?z => rewrite <- H; clear H; f_equal end.
  all: repeat first [rewrite cut_past by (cbn [length]; lia) | rewrite nth_past by (cbn [length]; lia)].
  all: try (apply cut_here; [cbn [length]; lia|assumption]).
  all: cbn [length]; match goal with |- nth ?k _ _ = _ => replace k with 0%nat by lia end; done.
Qed.

(** What it reads as an author is a u16. *)
Lemma wide_serde_author bs x : @de _ wide_serde bs = Some x -> is_u16 (CompactEnvelope.author_index (SignedCompactEnvelope.envelope x)).
Proof.
  cbn [de wide_serde]. destruct (Nat.ltb_spec (length bs) 50) as [|Hl]; [done|]. cbn [orb]. case_bool_decide as Hwf; [|done]. cbn [negb].
  intros Hx. assert (x = read_frame bs) as -> by congruence. unfold read_frame. cbn. unfold cut.
  assert (wf_bytes (take 2 (drop 24 bs))) as Hcut by (unfold wf_bytes; by apply Forall_take, Forall_drop).
  pose proof (of_be_bound _ Hcut) as Hb. rewrite length_take, length_drop in Hb. replace (2 `min` (length bs - 24))%nat with 2%nat in Hb by lia.
  width. lia.
Qed.
