(* ===== verification/Hand.v ===== *)
(** A key written for people (src/src/wire/hand.rs): Crockford's base32 in groups of
    four, with twenty bits of the key's digest as check symbols. *)
From S2P Require Import Prelude Crypto.

Definition ALPHABET : str := lit "0123456789ABCDEFGHJKMNPQRSTVWXYZ".
Definition BITS : nat := 5.
Definition KEY_SYMBOLS : nat := 52.
Definition CHECK_SYMBOLS : nat := 4.
Definition FINGERPRINT_SYMBOLS : nat := 16.
Definition GROUP : nat := 4.
Definition SYMBOLS : nat := KEY_SYMBOLS + CHECK_SYMBOLS.

Inductive HandError :=
| UnknownSymbol (found : char) (at_ : Z)
| WrongLength (found expected : Z)
| CheckFailed
| NotCanonical.
#[global] Instance HandError_eq_dec : EqDecision HandError.
Proof. solve_decision. Defined.

Module Hand.
(** [bytes[position / 8] & (0x80 >> (position % 8)) != 0], in range. *)
Definition bit_at (bs : bytes) (position : nat) : bool :=
  negb (Z.land (nth (position / 8) bs 0) (Z.shiftr 0x80 (Z.of_nat (position mod 8))) =? 0).
Definition symbol_at (bs : bytes) (index : nat) : Z :=
  fold_left (fun value bit =>
    let position := (index * BITS + bit)%nat in
    let set := bool_decide (position < length bs * 8)%nat && bit_at bs position in
    Z.lor (Z.shiftl value 1) (Z.b2z set)) (seq 0 BITS) 0.

Definition check_of `{Digest} (key : bytes) : list Z :=
  symbol_at (blake2s256 key) <$> seq 0 CHECK_SYMBOLS.

(** A hyphen in front of every fourth symbol but the first. *)
Fixpoint write_from (index : nat) (symbols : list Z) : str :=
  match symbols with
  | [] => []
  | s :: symbols =>
      (if bool_decide (0 < index)%nat && bool_decide (index mod GROUP = 0)%nat then lit "-" else [])
      ++ [nth (Z.to_nat s) ALPHABET 0] ++ write_from (S index) symbols
  end.
Definition write (symbols : list Z) : str := write_from 0 symbols.

Definition symbols_of `{Digest} (key : bytes) : list Z :=
  (symbol_at key <$> seq 0 KEY_SYMBOLS) ++ check_of key.
Definition encode `{Digest} (key : bytes) : str := write (symbols_of key).

(** [char::is_whitespace]: the code points of Unicode's White_Space. *)
Definition is_whitespace (c : char) : bool :=
  ((9 <=? c) && (c <=? 13)) || (c =? 32) || (c =? 133) || (c =? 160) || (c =? 5760)
  || ((8192 <=? c) && (c <=? 8202)) || (c =? 8232) || (c =? 8233) || (c =? 8239) || (c =? 8287)
  || (c =? 12288).
Definition to_ascii_uppercase (c : char) : char :=
  if (97 <=? c) && (c <=? 122) then c - 32 else c.

Fixpoint position_in (c : char) (l : str) (at_ : Z) : option Z :=
  match l with
  | [] => None
  | x :: l => if x =? c then Some at_ else position_in c l (at_ + 1)
  end.
Definition value_of (found : char) : option Z :=
  let upper := to_ascii_uppercase found in
  if (upper =? 73) || (upper =? 76) then Some 1       (* I, L *)
  else if upper =? 79 then Some 0                     (* O *)
  else if upper =? 85 then None                       (* U *)
  else position_in upper ALPHABET 0.

(** The loop over what was typed; a write past the array is dropped. *)
Fixpoint read_symbols (typed : str) (symbols : list Z) (count : nat)
    : result HandError (list Z * nat) :=
  match typed with
  | [] => Ok (symbols, count)
  | found :: typed =>
      if (found =? 45) || is_whitespace found then read_symbols typed symbols count
      else
        value ← ok_or (value_of found) (UnknownSymbol found (Z.of_nat count + 1));
        read_symbols typed (<[count := value]> symbols) (S count)
  end.

Definition or_bit (key : bytes) (position : nat) : bytes :=
  alter (fun b => Z.lor b (Z.shiftr 0x80 (Z.of_nat (position mod 8)))) (position / 8)%nat key.
Definition key_of (symbols : list Z) : bytes :=
  fold_left (fun key index =>
    fold_left (fun key bit =>
      let position := (index * BITS + bit)%nat in
      if bool_decide (position < 32 * 8)%nat
         && negb (Z.land (nth index symbols 0) (Z.shiftr 0x10 (Z.of_nat bit)) =? 0)
      then or_bit key position else key) (seq 0 BITS) key) (seq 0 KEY_SYMBOLS) (replicate 32 0).

Definition decode `{Digest} (typed : str) : result HandError bytes :=
  '(symbols, count) ← read_symbols typed (replicate SYMBOLS 0) 0;
  if negb (bool_decide (count = SYMBOLS))
  then Err (WrongLength (Z.of_nat count) (Z.of_nat SYMBOLS))
  else if negb (Z.land (nth (KEY_SYMBOLS - 1) symbols 0) 0x0F =? 0) then Err NotCanonical
  else
    let key := key_of symbols in
    if negb (bool_decide (drop KEY_SYMBOLS symbols = check_of key)) then Err CheckFailed
    else Ok key.

Definition fingerprint `{Digest} (key : bytes) : str :=
  write (symbol_at (blake2s256 key) <$> seq 0 FINGERPRINT_SYMBOLS).
End Hand.
Import Hand.

(** * Bits *)

Section bits.
Lemma shiftr_mask m k : 0 <= k <= m -> Z.shiftr (2 ^ m) k = Z.shiftl 1 (m - k).
Proof.
  intros Hk. rewrite Z.shiftl_1_l, Z.shiftr_div_pow2 by lia.
  replace (2 ^ m) with (2 ^ (m - k) * 2 ^ k) by (rewrite <- Z.pow_add_r by lia; f_equal; lia).
  apply Z.div_mul. lia.
Qed.
Lemma bit_at_testbit bs p : bit_at bs p = Z.testbit (nth (p / 8) bs 0) (7 - Z.of_nat (p mod 8)).
Proof.
  pose proof (Nat.mod_upper_bound p 8 ltac:(lia)). unfold bit_at. change 0x80 with (2 ^ 7).
  rewrite shiftr_mask by lia. apply land_bit. lia.
Qed.

(** The five-bit accumulator, from the top down. *)
Lemma symbol_bits (f : nat -> bool) b : 0 <= b < 5 ->
  let v := fold_left (fun value bit => Z.lor (Z.shiftl value 1) (Z.b2z (f bit))) (seq 0 5) 0 in
  Z.testbit v b = f (4 - Z.to_nat b)%nat /\ 0 <= v < 32.
Proof.
  intros Hb. assert (b = 0 \/ b = 1 \/ b = 2 \/ b = 3 \/ b = 4) as Hcases by lia. cbn [fold_left seq].
  destruct (f 0%nat) eqn:H0, (f 1%nat) eqn:H1, (f 2%nat) eqn:H2, (f 3%nat) eqn:H3, (f 4%nat) eqn:H4;
    (split; [|vm_compute; split; [discriminate|reflexivity]]);
    destruct Hcases as [->|[->|[->|[->| ->]]]]; cbn [Z.to_nat Nat.sub Pos.to_nat Pos.iter_op Init.Nat.add];
    change (Z.to_nat 0) with 0%nat; vm_compute (Z.testbit _ _); simpl; congruence.
Qed.
End bits.

Section symbols.
Implicit Types (key bs : bytes) (p q index : nat).

Lemma symbol_at_spec bs index b : 0 <= b < 5 ->
  Z.testbit (symbol_at bs index) b
  = (bool_decide (5 * index + (4 - Z.to_nat b) < length bs * 8)%nat
     && bit_at bs (5 * index + (4 - Z.to_nat b)))
  /\ 0 <= symbol_at bs index < 32.
Proof.
  intros Hb. unfold symbol_at, BITS.
  destruct (symbol_bits (fun bit => bool_decide (index * 5 + bit < length bs * 8)%nat
    && bit_at bs (index * 5 + bit)) b Hb) as [Hbit Hr].
  split; [|exact Hr]. rewrite Hbit. by rewrite (Nat.mul_comm 5 index).
Qed.
Lemma symbol_at_range bs index : 0 <= symbol_at bs index < 32.
Proof. by apply (symbol_at_spec bs index 0). Qed.

(** Symbols and bytes are told apart by their bits. *)
Lemma small_bits_inj (w : nat) x y : 0 <= x < 2 ^ Z.of_nat w -> 0 <= y < 2 ^ Z.of_nat w ->
  (forall b, 0 <= b < Z.of_nat w -> Z.testbit x b = Z.testbit y b) -> x = y.
Proof.
  intros Hx Hy Hb. apply Z.bits_inj'. intros n Hn. destruct (Z.lt_ge_cases n (Z.of_nat w)); [by apply Hb|].
  assert (forall z, 0 <= z < 2 ^ Z.of_nat w -> Z.testbit z n = false) as Hz.
  { intros z Hz. destruct (Z.eq_dec z 0) as [->|]; [apply Z.bits_0|].
    apply Z.bits_above_log2; [lia|]. apply Z.log2_lt_pow2; [lia|].
    eapply Z.lt_le_trans; [apply Hz|]. apply Z.pow_le_mono_r; lia. }
  by rewrite !Hz.
Qed.
Lemma bytes_bits_inj xs ys : wf_bytes xs -> wf_bytes ys -> length xs = length ys ->
  (forall p, (p < length xs * 8)%nat -> bit_at xs p = bit_at ys p) -> xs = ys.
Proof.
  intros Hx Hy Hlen Hp. apply (list_eq_same_length _ _ (length xs)); [done|done|].
  intros i x y Hi Hxi Hyi.
  pose proof (Forall_lookup_1 _ _ _ _ Hx Hxi) as Hx'. pose proof (Forall_lookup_1 _ _ _ _ Hy Hyi) as Hy'.
  apply (small_bits_inj 8); [width; simpl; lia..|]. intros b Hb.
  specialize (Hp (8 * i + (7 - Z.to_nat b))%nat ltac:(lia)). rewrite !bit_at_testbit in Hp.
  assert ((8 * i + (7 - Z.to_nat b)) / 8 = i)%nat as Hdiv.
  { symmetry. apply (Nat.div_unique _ _ _ (7 - Z.to_nat b)); lia. }
  assert ((8 * i + (7 - Z.to_nat b)) mod 8 = 7 - Z.to_nat b)%nat as Hmod.
  { symmetry. apply (Nat.mod_unique _ _ i); lia. }
  rewrite Hdiv, Hmod, (nth_lookup_Some _ _ _ _ Hxi), (nth_lookup_Some _ _ _ _ Hyi) in Hp.
  by replace (7 - Z.of_nat (7 - Z.to_nat b)) with b in Hp by lia.
Qed.

(** ** Reassembly *)

Lemma or_bit_length key p : length (or_bit key p) = length key.
Proof. apply length_alter. Qed.
Lemma or_bit_at key p q : (p < length key * 8)%nat ->
  bit_at (or_bit key p) q = bool_decide (p = q) || bit_at key q.
Proof.
  intros Hp. rewrite !bit_at_testbit. unfold or_bit.
  pose proof (Nat.div_mod p 8 ltac:(lia)) as Hdp. pose proof (Nat.mod_upper_bound p 8 ltac:(lia)).
  pose proof (Nat.div_mod q 8 ltac:(lia)) as Hdq. pose proof (Nat.mod_upper_bound q 8 ltac:(lia)).
  rewrite nth_alter by lia. case_decide as Hk.
  - change 0x80 with (2 ^ 7). rewrite shiftr_mask by lia. rewrite Z.lor_spec, Z.shiftl_1_l.
    destruct (Nat.eq_dec (p mod 8)%nat (q mod 8)%nat) as [Hm|Hm].
    + rewrite Hm, Z.pow2_bits_true, bool_decide_eq_true_2 by lia. by rewrite orb_true_r.
    + rewrite Z.pow2_bits_false, bool_decide_eq_false_2 by lia. by rewrite orb_false_r.
  - rewrite bool_decide_eq_false_2; [done|]. by intros ->.
Qed.
Lemma or_bit_wf key p : wf_bytes key -> wf_bytes (or_bit key p).
Proof.
  intros Hk. unfold or_bit. apply Forall_alter; [done|]. intros y _ Hy.
  pose proof (Nat.mod_upper_bound p 8 ltac:(lia)).
  change 0x80 with (2 ^ 7). rewrite shiftr_mask by lia. rewrite Z.shiftl_1_l.
  pose proof (Z.pow_pos_nonneg 2 (7 - Z.of_nat (p mod 8)) ltac:(lia) ltac:(lia)).
  pose proof (Z.pow_le_mono_r 2 (7 - Z.of_nat (p mod 8)) 7 ltac:(lia) ltac:(lia)).
  assert (0 <= Z.lor y (2 ^ (7 - Z.of_nat (p mod 8))) < 2 ^ 8); [|width; lia].
  split; [apply Z.lor_nonneg; width; lia|].
  destruct (Z.eq_dec (Z.lor y (2 ^ (7 - Z.of_nat (p mod 8)))) 0) as [->|]; [lia|].
  apply Z.log2_lt_pow2; [pose proof (Z.lor_nonneg y (2 ^ (7 - Z.of_nat (p mod 8)))); width; lia|].
  rewrite Z.log2_lor, Z.log2_pow2 by (width; lia).
  destruct (Z.eq_dec y 0) as [->|]; [simpl; lia|].
  assert (Z.log2 y < 8) by (apply Z.log2_lt_pow2; width; simpl; lia). lia.
Qed.
End symbols.

Section key_of.
Definition picked (symbols : list Z) (index bit : nat) : bool :=
  bool_decide (index * BITS + bit < 32 * 8)%nat
  && negb (Z.land (nth index symbols 0) (Z.shiftr 0x10 (Z.of_nat bit)) =? 0).

Lemma picked_testbit symbols index bit : (bit < 5)%nat ->
  picked symbols index bit
  = bool_decide (index * 5 + bit < 256)%nat && Z.testbit (nth index symbols 0) (4 - Z.of_nat bit).
Proof.
  intros Hb. unfold picked, BITS. change 0x10 with (2 ^ 4). rewrite shiftr_mask, land_bit by lia. done.
Qed.
Lemma fold_or (xs : list nat) (c : nat -> bool) (pos : nat -> nat) (key : bytes) q :
  (forall x, x ∈ xs -> c x = true -> (pos x < length key * 8)%nat) -> wf_bytes key ->
  let r := fold_left (fun key x => if c x then or_bit key (pos x) else key) xs key in
  length r = length key /\ wf_bytes r
  /\ bit_at r q = existsb (fun x => c x && bool_decide (pos x = q)) xs || bit_at key q.
Proof.
  revert key; induction xs as [|x xs IH]; intros key Hpos Hwf; [done|]. cbn [fold_left existsb].
  destruct (c x) eqn:Hc; simpl.
  - destruct (IH (or_bit key (pos x))) as (Hl & Hw & Hbit); [|by apply or_bit_wf|].
    { intros y Hy Hcy. rewrite or_bit_length. apply Hpos; [by right|done]. }
    rewrite or_bit_length in Hl. split_and!; [done..|]. rewrite Hbit, or_bit_at.
    + by rewrite orb_assoc, (orb_comm (bool_decide _)).
    + apply Hpos; [by left|done].
  - apply IH; [|done]. intros y Hy. apply Hpos. by right.
Qed.
Lemma fold_rows symbols (rows : list nat) (key : bytes) q :
  length key = 32%nat -> wf_bytes key ->
  let r := fold_left (fun key index => fold_left (fun key bit =>
      if picked symbols index bit then or_bit key (index * BITS + bit) else key) (seq 0 BITS) key) rows key in
  length r = 32%nat /\ wf_bytes r
  /\ bit_at r q = existsb (fun index => existsb (fun bit => picked symbols index bit
                    && bool_decide (index * BITS + bit = q)%nat) (seq 0 BITS)) rows || bit_at key q.
Proof.
  revert key; induction rows as [|i rows IH]; intros key Hlen Hwf; [done|]. cbn [fold_left existsb].
  destruct (fold_or (seq 0 BITS) (picked symbols i) (fun bit => i * BITS + bit)%nat key q) as (Hl & Hw & Hb);
    [|done|].
  { intros x _ Hp. unfold picked in Hp. apply andb_true_iff in Hp as [Hp%bool_decide_eq_true _]. lia. }
  destruct (IH _ (eq_trans Hl Hlen) Hw) as (Hl' & Hw' & Hb'). split_and!; [done..|].
  rewrite Hb'. etrans; [apply f_equal, Hb|]. by rewrite orb_assoc, (orb_comm (existsb _ rows)).
Qed.

Lemma nth_zeros n m : nth n (replicate m 0) 0 = 0.
Proof. revert n; induction m as [|m IH]; intros [|n]; simpl; auto. Qed.

Lemma key_of_spec symbols :
  length (key_of symbols) = 32%nat /\ wf_bytes (key_of symbols)
  /\ forall q, (q < 256)%nat ->
     bit_at (key_of symbols) q = Z.testbit (nth (q / 5) symbols 0) (4 - Z.of_nat (q mod 5)).
Proof.
  assert (length (replicate 32 0) = 32%nat) as Hl by done.
  assert (wf_bytes (replicate 32 0)) as Hw by (apply Forall_replicate; width; lia).
  split_and!.
  - apply (fold_rows symbols (seq 0 KEY_SYMBOLS) (replicate 32 0) 0 Hl Hw).
  - apply (fold_rows symbols (seq 0 KEY_SYMBOLS) (replicate 32 0) 0 Hl Hw).
  - intros q Hq.
    pose proof (fold_rows symbols (seq 0 KEY_SYMBOLS) (replicate 32 0) q Hl Hw) as (_ & _ & Hb).
    etrans; [exact Hb|]. rewrite (bit_at_testbit (replicate 32 0) q), nth_zeros, Z.bits_0, orb_false_r.
    pose proof (Nat.div_mod q 5 ltac:(lia)) as Hdq. pose proof (Nat.mod_upper_bound q 5 ltac:(lia)) as Hmq.
    apply eq_true_iff_eq. rewrite existsb_exists. unfold BITS. split.
    + intros (i & _ & (b & [_ Hb5]%in_seq & [Hp Heq%bool_decide_eq_true]%andb_true_iff)%existsb_exists).
      rewrite picked_testbit in Hp by lia. apply andb_true_iff in Hp as [_ Hp].
      assert (i = q / 5 /\ b = q mod 5)%nat as [<- <-] by lia. done.
    + intros Hbit. exists (q / 5)%nat. split; [apply in_seq; unfold KEY_SYMBOLS; lia|].
      apply existsb_exists. exists (q mod 5)%nat. split; [apply in_seq; lia|].
      rewrite picked_testbit, Hbit, !bool_decide_eq_true_2 by lia. done.
Qed.

Lemma symbol_at_key_of symbols i : length symbols = SYMBOLS -> Forall (fun s => 0 <= s < 32) symbols ->
  Z.land (nth 51 symbols 0) 0x0F = 0 -> (i < KEY_SYMBOLS)%nat ->
  symbol_at (key_of symbols) i = nth i symbols 0.
Proof.
  intros Hlen Hs Hpad Hi. unfold SYMBOLS, KEY_SYMBOLS, CHECK_SYMBOLS in *.
  destruct (key_of_spec symbols) as (Hl & _ & Hbits).
  assert (0 <= nth i symbols 0 < 32) as Hr.
  { rewrite Forall_forall in Hs. apply Hs. apply list_elem_of_lookup. exists i.
    destruct (lookup_lt_is_Some_2 symbols i ltac:(lia)) as [x Hx]. by rewrite (nth_lookup_Some _ _ _ _ Hx). }
  apply (small_bits_inj 5); [apply symbol_at_range|done|]. intros b Hb.
  destruct (symbol_at_spec (key_of symbols) i b ltac:(lia)) as [-> _]. rewrite Hl.
  case_bool_decide as Hin; cbn [andb].
  - rewrite Hbits by lia.
    assert ((5 * i + (4 - Z.to_nat b)) / 5 = i)%nat as ->.
    { symmetry. apply (Nat.div_unique _ _ _ (4 - Z.to_nat b)); lia. }
    assert ((5 * i + (4 - Z.to_nat b)) mod 5 = 4 - Z.to_nat b)%nat as ->.
    { symmetry. apply (Nat.mod_unique _ _ i); lia. }
    f_equal. lia.
  - assert (i = 51%nat /\ b < 4) as [-> Hb4] by lia. symmetry.
    apply (f_equal (fun z => Z.testbit z b)) in Hpad. rewrite Z.land_spec, Z.bits_0 in Hpad.
    change 0x0F with (Z.ones 4) in Hpad. by rewrite Z.ones_spec_low, andb_true_r in Hpad by lia.
Qed.

Lemma key_of_symbols key rest : wf_bytes key -> length key = 32%nat ->
  key_of ((symbol_at key <$> seq 0 KEY_SYMBOLS) ++ rest) = key.
Proof.
  intros Hwf Hlen. destruct (key_of_spec ((symbol_at key <$> seq 0 KEY_SYMBOLS) ++ rest)) as (Hl & Hw & Hbits).
  apply bytes_bits_inj; [done|done|congruence|]. rewrite Hl. intros p Hp. rewrite Hbits by lia.
  pose proof (Nat.div_mod p 5 ltac:(lia)) as Hdp. pose proof (Nat.mod_upper_bound p 5 ltac:(lia)) as Hmp.
  assert (nth (p / 5) ((symbol_at key <$> seq 0 KEY_SYMBOLS) ++ rest) 0 = symbol_at key (p / 5)) as ->.
  { apply nth_lookup_Some. unfold KEY_SYMBOLS. rewrite lookup_app_l by (rewrite length_fmap, length_seq; lia).
    rewrite list_lookup_fmap, lookup_seq_lt by lia. done. }
  destruct (symbol_at_spec key (p / 5) (4 - Z.of_nat (p mod 5)) ltac:(lia)) as [-> _].
  replace (5 * (p / 5) + (4 - Z.to_nat (4 - Z.of_nat (p mod 5))))%nat with p by lia.
  by rewrite Hlen, bool_decide_eq_true_2 by lia.
Qed.
End key_of.

(** * Reading what was typed *)

Definition separator (c : char) : bool := (c =? 45) || is_whitespace c.
(** What is left of a text without its hyphens and spaces. *)
Definition typed_symbols (typed : str) : str := filter (fun c => separator c = false) typed.

Section reading.
Lemma position_in_range c l k v : position_in c l k = Some v -> k <= v < k + len l.
Proof.
  unfold len. revert k; induction l as [|x l IH]; intros k; cbn [position_in]; [done|].
  rewrite length_cons. destruct (x =? c); [intros [= <-]; lia|]. intros Hv%IH. lia.
Qed.
Lemma value_of_range c v : value_of c = Some v -> 0 <= v < 32.
Proof.
  unfold value_of. repeat case_match; intros; simplify_eq; try lia.
  by apply position_in_range in H2.
Qed.
Lemma values_range (cs : str) (vs : list Z) :
  mapM value_of cs = Some vs -> Forall (fun v => 0 <= v < 32) vs.
Proof.
  intros Hm%mapM_Some. induction Hm as [|c v cs vs Hv _ IH]; constructor; [|done].
  by eapply value_of_range.
Qed.
Lemma typed_symbols_cons c t :
  typed_symbols (c :: t) = if separator c then typed_symbols t else c :: typed_symbols t.
Proof.
  unfold typed_symbols. rewrite filter_cons. destruct (separator c); [by rewrite decide_False|].
  by rewrite decide_True.
Qed.

(** The loop reads the values, into the array while they fit. *)
Lemma read_symbols_values typed (pre junk vs : list Z) :
  mapM value_of (typed_symbols typed) = Some vs ->
  exists s, read_symbols typed (pre ++ junk) (length pre) = Ok (s, (length pre + length vs)%nat)
    /\ ((length vs <= length junk)%nat -> s = pre ++ vs ++ drop (length vs) junk).
Proof.
  revert pre junk vs; induction typed as [|c t IH]; intros pre junk vs.
  { intros [= <-]. exists (pre ++ junk). simpl. rewrite Nat.add_0_r. done. }
  rewrite typed_symbols_cons. cbn [read_symbols]. fold (separator c).
  destruct (separator c); [by apply IH|]. cbn [mapM].
  intros (v & Hv & (vs' & Hvs & [= <-])%bind_Some)%bind_Some. rewrite Hv. cbn [ok_or mbind result_bind].
  destruct junk as [|j junk].
  - destruct (IH (pre ++ [v]) [] vs' Hvs) as (s & Hs & _).
    assert (forall a n, exists s', read_symbols t a n = Ok (s', (n + length vs')%nat)) as Hany.
    { clear -Hvs. revert vs' Hvs. induction t as [|c t IH]; intros vs Hvs a n.
      { injection Hvs as <-. exists a. simpl. by rewrite Nat.add_0_r. }
      rewrite typed_symbols_cons in Hvs. cbn [read_symbols]. fold (separator c).
      destruct (separator c); [by apply IH|]. cbn [mapM] in Hvs.
      apply bind_Some in Hvs as (v & Hv & (vs' & Hvs & [= <-])%bind_Some). rewrite Hv. simpl.
      destruct (IH vs' Hvs (<[n:=v]> a) (S n)) as [s' Hs']. exists s'. rewrite Hs'.
      do 2 f_equal. lia. }
    destruct (Hany (<[length pre := v]> (pre ++ [])) (S (length pre))) as [s' Hs'].
    exists s'. rewrite Hs'. split; [do 2 f_equal; simpl; lia|]. simpl. lia.
  - rewrite insert_app_r_alt, Nat.sub_diag by lia. cbn [insert list_insert].
    destruct (IH (pre ++ [v]) junk vs' Hvs) as (s & Hs & Hfit).
    rewrite length_app in Hs. simpl in Hs. rewrite <- app_assoc in Hs. simpl in Hs.
    replace (length pre + 1)%nat with (S (length pre)) in Hs by lia.
    exists s. rewrite Hs. split; [do 2 f_equal; simpl; lia|]. simpl. intros Hlen.
    rewrite Hfit by lia. by rewrite <- app_assoc.
Qed.
Lemma read_symbols_unknown typed (s : list Z) n (pre : str) c post vs :
  typed_symbols typed = pre ++ c :: post -> mapM value_of pre = Some vs -> value_of c = None ->
  read_symbols typed s n = Err (UnknownSymbol c (Z.of_nat (n + length pre) + 1)).
Proof.
  revert s n pre vs; induction typed as [|x t IH]; intros s n pre vs Ht Hvs Hc.
  { by destruct pre. }
  rewrite typed_symbols_cons in Ht. cbn [read_symbols]. fold (separator x).
  destruct (separator x); [by eapply IH|]. destruct pre as [|y pre]; simpl in Ht; injection Ht as -> Ht.
  - rewrite Hc. simpl. by rewrite Nat.add_0_r.
  - apply bind_Some in Hvs as (v & Hv & (vs' & Hvs & _)%bind_Some). rewrite Hv. simpl.
    rewrite (IH _ (S n) pre vs' Ht Hvs Hc). do 3 f_equal. lia.
Qed.
(** Either every symbol has a value or there is a first that has none. *)
Lemma values_or_unknown (cs : str) :
  (exists vs, mapM value_of cs = Some vs)
  \/ (exists pre c post vs, cs = pre ++ c :: post /\ mapM value_of pre = Some vs /\ value_of c = None).
Proof.
  induction cs as [|c cs IH]; [left; by exists []|].
  destruct (value_of c) as [v|] eqn:Hv; [|right; by exists [], c, cs, []].
  destruct IH as [[vs Hvs]|(pre & d & post & vs & -> & Hvs & Hd)].
  - left. exists (v :: vs). simpl. by rewrite Hv, Hvs.
  - right. exists (c :: pre), d, post, (v :: vs). simpl. by rewrite Hv, Hvs.
Qed.

Lemma mapM_unknown (pre : str) c post : value_of c = None -> mapM value_of (pre ++ c :: post) = None.
Proof.
  intros Hc. induction pre as [|x pre IH]; cbn [app mapM]; [by rewrite Hc|].
  destruct (value_of x); simpl; [|done]. by rewrite IH.
Qed.

(** What [write] writes reads back as the symbols. *)
Lemma alphabet_value s : 0 <= s < 32 ->
  separator (nth (Z.to_nat s) ALPHABET 0) = false /\ value_of (nth (Z.to_nat s) ALPHABET 0) = Some s.
Proof.
  intros Hs.
  assert (Forall (fun s => separator (nth (Z.to_nat s) ALPHABET 0) = false
    /\ value_of (nth (Z.to_nat s) ALPHABET 0) = Some s) (seqZ 0 32)) as Hall.
  { apply (bool_decide_unpack _). vm_compute. exact I. }
  rewrite Forall_forall in Hall. apply Hall. apply elem_of_seqZ. lia.
Qed.
Lemma write_reads i (ss : list Z) : Forall (fun s => 0 <= s < 32) ss ->
  mapM value_of (typed_symbols (write_from i ss)) = Some ss.
Proof.
  intros Hs. revert i. induction Hs as [|s ss Hs _ IH]; intros i; [done|]. cbn [write_from].
  destruct (alphabet_value s Hs) as [Hsep Hval].
  assert (typed_symbols ((if bool_decide (0 < i)%nat && bool_decide (i mod GROUP = 0)%nat then lit "-" else [])
      ++ [nth (Z.to_nat s) ALPHABET 0] ++ write_from (S i) ss)
    = nth (Z.to_nat s) ALPHABET 0 :: typed_symbols (write_from (S i) ss)) as ->.
  { destruct (_ && _); cbn [app lit]; [change (lit "-") with [45]; cbn [app]; rewrite typed_symbols_cons|];
      rewrite typed_symbols_cons, Hsep; done. }
  cbn [mapM]. rewrite Hval. simpl. by rewrite IH.
Qed.

Context `{DigestLaws}.
Lemma symbols_of_range key : Forall (fun s => 0 <= s < 32) (symbols_of key).
Proof.
  unfold symbols_of, check_of. apply Forall_app. split; apply Forall_fmap, Forall_true; intros i;
    apply symbol_at_range.
Qed.
Lemma symbols_of_length key : length (symbols_of key) = SYMBOLS.
Proof. unfold symbols_of, check_of. by rewrite length_app, !length_fmap, !length_seq. Qed.
End reading.

Lemma decode_iff `{DigestLaws} (typed : str) (key : bytes) :
  decode typed = Ok key <->
  wf_bytes key /\ length key = 32%nat
  /\ mapM value_of (typed_symbols typed) = Some (symbols_of key).
Proof.
  unfold decode. destruct (values_or_unknown (typed_symbols typed)) as [[vs Hvs]|(pre & c & post & vs & Hp & Hvs & Hc)].
  2:{ rewrite (read_symbols_unknown typed _ 0 pre c post vs Hp Hvs Hc). simpl. split; [done|].
      intros (_ & _ & Hm). rewrite Hp in Hm. apply mapM_Some in Hm.
      apply Forall2_app_inv_l in Hm as (? & ? & _ & Hm & _). inversion Hm. congruence. }
  destruct (read_symbols_values typed [] (replicate SYMBOLS 0) vs Hvs) as (s & Hs & Hfit).
  cbn [app length Nat.add] in Hs. rewrite Hs, Hvs. cbn [mbind result_bind].
  destruct (decide (length vs = SYMBOLS)) as [Hlen|Hlen].
  2:{ rewrite bool_decide_eq_false_2 by done. simpl. split; [done|]. intros (_ & _ & [= ->]).
      by rewrite symbols_of_length in Hlen. }
  rewrite bool_decide_eq_true_2 by done. cbn [negb].
  assert (s = vs) as ->.
  { rewrite Hfit by (rewrite length_replicate; lia). cbn [app].
    rewrite drop_ge; [by rewrite app_nil_r|]. rewrite length_replicate. lia. }
  clear Hfit Hs. pose proof (values_range _ _ Hvs) as Hrange.
  destruct (Z.eqb_spec (Z.land (nth (KEY_SYMBOLS - 1) vs 0) 0x0F) 0) as [Hpad|Hpad]; cbn [negb].
  - assert (vs = (symbol_at (key_of vs) <$> seq 0 KEY_SYMBOLS) ++ drop KEY_SYMBOLS vs) as Hsplit.
    { rewrite <- (take_drop KEY_SYMBOLS vs) at 1. f_equal. apply (list_eq_same_length _ _ KEY_SYMBOLS).
      - by rewrite length_fmap, length_seq.
      - rewrite length_take, Hlen. done.
      - intros i x y Hi Hx Hy. rewrite list_lookup_fmap, lookup_seq_lt in Hy by done. simpl in Hy.
        injection Hy as <-. rewrite lookup_take_lt in Hx by done.
        rewrite (symbol_at_key_of vs i Hlen Hrange Hpad Hi). symmetry. by apply nth_lookup_Some. }
    destruct (key_of_spec vs) as (Hkl & Hkw & _). case_bool_decide as Hcheck; cbn [negb].
    + split.
      * intros [= <-]. split_and!; [done..|]. unfold symbols_of. by rewrite <- Hcheck, <- Hsplit.
      * intros (Hw & Hl & [= ->]). f_equal. unfold symbols_of. by apply key_of_symbols.
    + split; [done|]. intros (Hw & Hl & [= ->]). destruct Hcheck. unfold symbols_of in *.
      rewrite key_of_symbols by done. by rewrite drop_app_length' by (by rewrite length_fmap, length_seq).
  - split; [done|]. intros (Hw & Hl & [= ->]). destruct Hpad. unfold symbols_of, KEY_SYMBOLS.
    rewrite app_nth1 by (rewrite length_fmap, length_seq; lia).
    rewrite (nth_lookup_Some _ _ _ (symbol_at key 51)) by done.
    change 0x0F with (Z.ones 4). apply Z.bits_inj'. intros b Hb.
    rewrite Z.land_spec, Z.bits_0. destruct (Z.lt_ge_cases b 4).
    + destruct (symbol_at_spec key 51 b ltac:(lia)) as [-> _].
      rewrite bool_decide_eq_false_2 by lia. done.
    + by rewrite Z.ones_spec_high, andb_false_r by lia.
Qed.

(** A typed text is accepted, as a key, exactly when its symbols, hyphens, spaces
    and case aside and with the confusable letters read as digits, are the key's
    and its check's: no key has two readings and none is half accepted. *)
Theorem decode_accepts_exactly `{DigestLaws} (typed : str) (key : bytes) :
  decode typed = Ok key <->
  wf_bytes key /\ length key = 32%nat
  /\ mapM value_of (typed_symbols typed) = Some (symbols_of key).
Proof. apply decode_iff. Qed.

Lemma decode_accepts_exactly_witness :
  exists typed, @decode toy_digest typed = Ok (replicate 32 200)
    <-> wf_bytes (replicate 32 200) /\ length (replicate 32 200) = 32%nat
        /\ mapM value_of (typed_symbols typed) = Some (@symbols_of toy_digest (replicate 32 200)).
Proof.
  exists (lit " s1 34-I98H S"). apply (@decode_accepts_exactly toy_digest toy_digest_laws).
Defined.

(** A key written on a card reads back as that key, in any case and however its
    symbols are grouped. *)
Theorem card_reads_back `{DigestLaws} (key : bytes) (retyped : str) :
  wf_bytes key -> length key = 32%nat ->
  mapM value_of (typed_symbols retyped) = mapM value_of (typed_symbols (encode key)) ->
  decode retyped = Ok key /\ decode (encode key) = Ok key.
Proof.
  intros Hw Hl Hsame. unfold encode, write in *.
  pose proof (write_reads 0 (symbols_of key) (symbols_of_range key)) as Hr.
  rewrite Hr in Hsame. split; by apply decode_iff.
Qed.

Definition demo_key : bytes := replicate 31 200 ++ [7].

Lemma card_reads_back_witness :
  @decode toy_digest (lit " s" ++ drop 1 (@encode toy_digest demo_key)) = Ok demo_key
  /\ @decode toy_digest (@encode toy_digest demo_key) = Ok demo_key.
Proof.
  apply (@card_reads_back toy_digest toy_digest_laws).
  - apply (bool_decide_unpack (wf_bytes _)). vm_compute. exact I.
  - reflexivity.
  - vm_compute. reflexivity.
Defined.

(** A text that is not a key is refused with its first reason: the first symbol
    outside the alphabet and its place, then the number of symbols. *)
Theorem decode_refuses_in_order `{Digest} (typed : str) :
  (forall c n, decode typed = Err (UnknownSymbol c n) <->
     exists pre post vs, typed_symbols typed = pre ++ c :: post /\ mapM value_of pre = Some vs
       /\ value_of c = None /\ n = len pre + 1)
  /\ (forall m n, decode typed = Err (WrongLength m n) <->
     exists vs, mapM value_of (typed_symbols typed) = Some vs /\ m = len vs /\ n = 56 /\ m <> 56).
Proof.
  unfold decode. destruct (values_or_unknown (typed_symbols typed)) as [[vs Hvs]|(pre & d & post & vs & Hp & Hvs & Hd)].
  - destruct (read_symbols_values typed [] (replicate SYMBOLS 0) vs Hvs) as (s & Hs & _).
    cbn [app length Nat.add] in Hs. rewrite Hs. cbn [mbind result_bind]. split.
    + intros c n. split.
      * repeat (case_match; try done).
      * intros (pre & post & vs' & Hp & _ & Hc & _). rewrite Hp in Hvs.
        by rewrite (mapM_unknown pre c post) in Hvs.
    + intros m n. rewrite Hvs. unfold len. destruct (decide (length vs = SYMBOLS)) as [Hl|Hl].
      * rewrite bool_decide_eq_true_2 by done. cbn [negb]. split.
        -- repeat (case_match; try done).
        -- intros (vs' & [= <-] & -> & _ & Hm). rewrite Hl in Hm. done.
      * rewrite bool_decide_eq_false_2 by done. cbn [negb]. split.
        -- intros [= <- <-]. exists vs. split_and!; try done. unfold SYMBOLS, KEY_SYMBOLS, CHECK_SYMBOLS in Hl. lia.
        -- intros (vs' & [= <-] & -> & -> & _). done.
  - rewrite (read_symbols_unknown typed _ 0 pre d post vs Hp Hvs Hd). cbn [mbind result_bind Nat.add]. split.
    + intros c n. split.
      * intros [= <- <-]. exists pre, post, vs. done.
      * intros (pre' & post' & vs' & Hp' & Hvs' & Hc & ->).
        assert (pre = pre' /\ d = c) as [<- <-]; [|done].
        rewrite Hp in Hp'. clear -Hp' Hvs Hvs' Hd Hc. revert pre' vs vs' Hp' Hvs Hvs'.
        induction pre as [|x pre IH]; intros [|y pre'] vs vs' Hp' Hvs Hvs'; simpl in Hp'; injection Hp' as -> Hp'; auto.
        -- simpl in Hvs'. by rewrite Hd in Hvs'.
        -- simpl in Hvs. by rewrite Hc in Hvs.
        -- cbn [mapM] in Hvs, Hvs'. apply bind_Some in Hvs as (? & _ & (? & Hvs & _)%bind_Some).
           apply bind_Some in Hvs' as (? & _ & (? & Hvs' & _)%bind_Some).
           destruct (IH pre' _ _ Hp' Hvs Hvs') as [-> ->]. done.
    + intros m n. split; [done|]. intros (vs' & Hvs' & _). rewrite Hp in Hvs'.
      by rewrite (mapM_unknown pre d post) in Hvs'.
Qed.
