(* ===== verification/Radio.v ===== *)
(** The radio seam (src/src/application/radio.rs): the physical profile, what a
    radio reports and how it refuses. *)
From S2P Require Import Prelude.

Module PhyProfile.
Record t := mk {
  name : str;
  spreading_factor : Z;
  bandwidth_hz : Z;
  coding_rate_denominator : Z;
  preamble_symbols : Z;
  explicit_header : bool;
  crc_on : bool;
  iq_inverted : bool;
  low_data_rate_optimize : bool;
  frequency_hz : Z;
  tx_power_dbm : Z;
  sync_word : Z;
  rx_continuous : bool;
  cad_symbols : Z;
  cad_detect_peak : Z;
  cad_detect_min : Z;
  preamble_symbols_to_lock : Z;
  capture_threshold_db : Z;
}.
Definition eu868_sf10 : t := {|
  name := lit "eu868-sf10-v1";
  spreading_factor := 10;
  bandwidth_hz := 125000;
  coding_rate_denominator := 5;
  preamble_symbols := 8;
  explicit_header := true;
  crc_on := true;
  iq_inverted := false;
  low_data_rate_optimize := false;
  frequency_hz := 868100000;
  tx_power_dbm := 14;
  sync_word := 0x12;
  rx_continuous := true;
  cad_symbols := 8;
  cad_detect_peak := 23;
  cad_detect_min := 10;
  preamble_symbols_to_lock := 6;
  capture_threshold_db := 6;
|}.
End PhyProfile.

Module Received.
Record t := mk { payload : bytes; rssi_dbm : Z; snr_db : Z }.
#[global] Instance t_eq_dec : EqDecision t.
Proof. solve_decision. Defined.
End Received.

Inductive RadioEvent :=
| EvReceived (r : Received.t)
| EvCrcError (rssi_dbm : Z)
| EvHeaderError (rssi_dbm : Z)
| EvNote (body : str).
#[global] Instance RadioEvent_eq_dec : EqDecision RadioEvent.
Proof. solve_decision. Defined.

Inductive RadioError :=
| TooLong (length max : Z)
| Offline.
#[global] Instance RadioError_eq_dec : EqDecision RadioError.
Proof. solve_decision. Defined.

(** The body of a note: JSON members, without the braces. *)
Definition quoted (s : str) : str := [34] ++ s ++ [34].
Definition json_bool (b : bool) : str := if b then lit "true" else lit "false".
Definition event_name (s : str) : str := quoted (lit "event") ++ lit ":" ++ quoted s.

(** The interface: hand over a frame, and hear the next thing the radio has to
    say, if anything. *)
Class Radio (R : Type) := {
  radio_transmit : R -> bytes -> R * result RadioError unit;
  radio_poll : R -> R * option RadioEvent;
}.
