(* ===== verification/Float.v ===== *)
(** [f64] arithmetic as the language defines it: IEEE 754 binary64, rounding to
    nearest even, executable in the kernel. *)
From S2P Require Import Prelude.
From Stdlib Require Export SpecFloat.

Abbreviation f64 := spec_float (only parsing).

Module F64.
Definition prec : Z := 53.
Definition emax : Z := 1024.
Definition add : f64 -> f64 -> f64 := SFadd prec emax.
Definition sub : f64 -> f64 -> f64 := SFsub prec emax.
Definition mul : f64 -> f64 -> f64 := SFmul prec emax.
Definition div : f64 -> f64 -> f64 := SFdiv prec emax.
Definition sqrt : f64 -> f64 := SFsqrt prec emax.
Definition neg : f64 -> f64 := SFopp.
Definition ltb : f64 -> f64 -> bool := SFltb.
Definition leb : f64 -> f64 -> bool := SFleb.
(** A literal, or an integer converted with [f64::from] or [as f64]. *)
Definition of_Z (n : Z) : f64 := binary_normalize prec emax n 0 false.
(** The literal [m / 2^k]. *)
Definition dyadic (m k : Z) : f64 := binary_normalize prec emax m (- k) false.
Definition infinity : f64 := S754_infinity false.
Definition neg_infinity : f64 := S754_infinity true.
Definition MIN_POSITIVE : f64 := S754_finite false 4503599627370496 (-1074).
Definition MAX : f64 := S754_finite false 9007199254740991 971.
Definition PI : f64 := S754_finite false 7074237752028440 (-51).
Definition TAU : f64 := S754_finite false 7074237752028440 (-50).
Definition is_nan (x : f64) : bool := match x with S754_nan => true | _ => false end.

(** The integer [q] with the sign of the float it rounds. *)
Definition integral (s : bool) (q : Z) : f64 :=
  if q =? 0 then S754_zero s else of_Z (if s then - q else q).
Definition ceil (x : f64) : f64 :=
  match x with
  | S754_finite s m e =>
      if 0 <=? e then x
      else let d := 2 ^ (- e) in integral s (if s then Zpos m / d else - ((- Zpos m) / d))
  | _ => x
  end.
(** [round]: half-way cases away from zero. *)
Definition round (x : f64) : f64 :=
  match x with
  | S754_finite s m e =>
      if 0 <=? e then x
      else let d := 2 ^ (- e) in integral s ((2 * Zpos m + d) / (2 * d))
  | _ => x
  end.
Definition max (x y : f64) : f64 := if is_nan x then y else if ltb x y then y else x.
Definition clamp (x lo hi : f64) : f64 := if ltb x lo then lo else if ltb hi x then hi else x.
Definition trunc (x : f64) : Z :=
  match x with
  | S754_finite s m e =>
      let q := if 0 <=? e then Zpos m * 2 ^ e else Zpos m / 2 ^ (- e) in if s then - q else q
  | _ => 0
  end.
(** [as] to an integer type: towards zero, saturating, NaN to zero. *)
Definition cast (lo hi : Z) (x : f64) : Z :=
  match x with
  | S754_infinity s => if s then lo else hi
  | S754_nan => 0
  | _ => Z.max lo (Z.min hi (trunc x))
  end.
Definition as_u32 : f64 -> Z := cast 0 U32_MAX.
Definition as_i16 : f64 -> Z := cast (- 2 ^ 15) (2 ^ 15 - 1).
Definition as_i8 : f64 -> Z := cast (- 2 ^ 7) (2 ^ 7 - 1).

(** [x.mul_add(y, z)]: one rounding. *)
Definition mul_add (x y z : f64) : f64 :=
  match x, y, z with
  | S754_finite sx mx ex, S754_finite sy my ey, S754_finite sz mz ez =>
      let e := Z.min (ex + ey) ez in
      let signed (s : bool) m := if s then - m else m in
      binary_normalize prec emax
        (signed (xorb sx sy) (Zpos mx * Zpos my * 2 ^ (ex + ey - e)) + signed sz (Zpos mz * 2 ^ (ez - e))) e false
  | _, _, _ => add (mul x y) z
  end.
Definition abs : f64 -> f64 := SFabs.
(** [f64::midpoint]. *)
Definition midpoint (a b : f64) : f64 :=
  let lo := mul MIN_POSITIVE (of_Z 2) in
  let hi := div MAX (of_Z 2) in
  if leb (abs a) hi && leb (abs b) hi then div (add a b) (of_Z 2)
  else if ltb (abs a) lo then add a (div b (of_Z 2))
  else if ltb (abs b) lo then add (div a (of_Z 2)) b
  else add (div a (of_Z 2)) (div b (of_Z 2)).
End F64.

(** The transcendental functions of [std] whose last bits the platform decides. *)
Class Libm := {
  f64_ln : f64 -> f64;
  f64_log10 : f64 -> f64;
  f64_cos : f64 -> f64;
  f64_sin : f64 -> f64;
  f64_powf : f64 -> f64 -> f64;
}.
(** Platform functions for the instances: any will do where distance is not modelled. *)
Definition flat_libm : Libm := {|
  f64_ln x := x; f64_log10 x := x; f64_cos x := x; f64_sin x := x; f64_powf x _ := x;
|}.

Example third_rounds : F64.div F64.MAX F64.MAX = F64.of_Z 1. Proof. reflexivity. Qed.
Example round_away : F64.round (F64.dyadic (-5) 1) = F64.of_Z (-3). Proof. reflexivity. Qed.
Example ceil_to_negative_zero : F64.ceil (F64.dyadic (-1) 1) = S754_zero true. Proof. reflexivity. Qed.
Example fused : F64.mul_add (F64.of_Z 3) (F64.of_Z 4) (F64.of_Z (-5)) = F64.of_Z 7. Proof. reflexivity. Qed.
Example cast_saturates : F64.as_u32 (F64.of_Z (2 ^ 40)) = U32_MAX. Proof. reflexivity. Qed.

(** * Exact cases *)

Section exact.
Import F64.

Lemma digits2_log2 p : Zpos (digits2_pos p) = Z.log2 (Zpos p) + 1.
Proof.
  induction p as [p IH|p IH|]; cbn [digits2_pos]; [| |done].
  - rewrite Pos2Z.inj_succ, IH. change (Zpos p~1) with (2 * Zpos p + 1). rewrite Z.log2_succ_double by lia. lia.
  - rewrite Pos2Z.inj_succ, IH. change (Zpos p~0) with (2 * Zpos p). rewrite Z.log2_double by lia. lia.
Qed.
Lemma digits2_53 m : Zpos (digits2_pos m) = 53 <-> 2 ^ 52 <= Zpos m < 2 ^ 53.
Proof.
  rewrite digits2_log2. split.
  - intros Hd. assert (Z.log2 (Zpos m) = 52) as Hl by lia. pose proof (Z.log2_spec (Zpos m) ltac:(lia)) as Hs.
    rewrite Hl in Hs. done.
  - intros Hm. assert (Z.log2 (Zpos m) = 52); [|lia]. by apply Z.log2_unique.
Qed.
Lemma iter_xO m d : Zpos (Pos.iter xO m d) = Zpos m * 2 ^ Zpos d.
Proof.
  induction d as [|d IH] using Pos.peano_ind; [cbn; lia|].
  rewrite Pos.iter_succ, Pos2Z.inj_xO, IH, Pos2Z.inj_succ, Z.pow_succ_r by lia. lia.
Qed.
Lemma round_aux_exact s m e : 2 ^ 52 <= Zpos m < 2 ^ 53 -> - 1074 <= e <= 971 ->
  binary_round_aux prec emax s (Zpos m) e loc_Exact = S754_finite s m e.
Proof.
  intros Hm He. apply digits2_53 in Hm. unfold binary_round_aux, shr_fexp. cbn [Zdigits2].
  assert (fexp prec emax (Zpos (digits2_pos m) + e) - e = 0) as Hf.
  { rewrite Hm. unfold fexp, emin, prec, emax. lia. }
  rewrite Hf. cbn [shr_record_of_loc shr shr_m loc_of_shr_record round_nearest_even]. cbn [Zdigits2]. rewrite Hf.
  cbn [shr_record_of_loc shr shr_m]. by rewrite (proj2 (Z.leb_le e _)) by (unfold emax, prec; lia).
Qed.
(** An integer below [2^53] is converted exactly: its mantissa is scaled up to 53 bits. *)
Lemma of_Z_exact k : 0 < k < 2 ^ 53 -> exists m e,
  of_Z k = S754_finite false m e /\ 2 ^ 52 <= Zpos m < 2 ^ 53 /\ - 52 <= e <= 0 /\ Zpos m = k * 2 ^ (- e).
Proof.
  intros Hk. destruct k as [|p|p]; try lia. unfold of_Z, binary_normalize, binary_round.
  pose proof (digits2_log2 p) as Hd. set (d := Zpos (digits2_pos p)) in *.
  assert (0 <= Z.log2 (Zpos p) < 53) as Hl by (split; [apply Z.log2_nonneg|apply Z.log2_lt_pow2; lia]).
  assert (fexp prec emax (d + 0) = d - 53) as -> by (unfold fexp, emin, prec, emax; lia).
  pose proof (Z.log2_spec (Zpos p) ltac:(lia)) as Hspec.
  assert (2 ^ 52 <= Zpos p * 2 ^ (53 - d) < 2 ^ 53) as Hrange.
  { assert (2 ^ 52 = 2 ^ Z.log2 (Zpos p) * 2 ^ (53 - d)) as -> by (rewrite <- Z.pow_add_r by lia; f_equal; lia).
    assert (2 ^ 53 = 2 ^ Z.succ (Z.log2 (Zpos p)) * 2 ^ (53 - d)) as -> by (rewrite <- Z.pow_add_r by lia; f_equal; lia).
    assert (0 < 2 ^ (53 - d)) by (apply Z.pow_pos_nonneg; lia). nia. }
  unfold shl_align. destruct (d - 53 - 0) as [|q|q] eqn:Hq; [| lia |].
  - assert (53 - d = 0) as Hz by lia. rewrite Hz, Z.pow_0_r, Z.mul_1_r in Hrange.
    exists p, 0. rewrite round_aux_exact by lia. split_and!; try done; cbn; lia.
  - exists (Pos.iter xO p q), (d - 53). assert (53 - d = Zpos q) as Hz by lia. rewrite Hz in Hrange.
    rewrite round_aux_exact; [|rewrite iter_xO; done|lia]. rewrite iter_xO. split_and!; try lia; try done.
    by replace (- (d - 53)) with (Zpos q) by lia.
Qed.
(** [k / 2^53] is exact, and in [0, 1). *)
Lemma unit_fraction k : 0 < k < 2 ^ 53 -> exists m e,
  div (of_Z k) (of_Z (2 ^ 53)) = S754_finite false m e /\ 2 ^ 52 <= Zpos m < 2 ^ 53 /\ - 105 <= e <= - 53
  /\ Zpos m = k * 2 ^ (- 53 - e).
Proof.
  intros Hk. destruct (of_Z_exact k Hk) as (m & e & -> & Hm & He & Hval).
  change (of_Z (2 ^ 53)) with (S754_finite false 4503599627370496 1). exists m, (e - 53).
  unfold div, SFdiv, SFdiv_core_binary. cbn [Zdigits2]. rewrite (proj2 (digits2_53 m) Hm).
  change (Zpos (digits2_pos 4503599627370496)) with 53.
  assert (Z.min (fexp prec emax (53 + e - (53 + 1))) (e - 1) = e - 54) as -> by (unfold fexp, emin, prec, emax; lia).
  assert (e - 1 - (e - 54) = 53) as -> by lia. rewrite Z.shiftl_mul_pow2 by lia.
  assert (Z.div_eucl (Zpos m * 2 ^ 53) 4503599627370496 = (2 * Zpos m, 0)) as ->.
  { replace (Zpos m * 2 ^ 53) with (2 * Zpos m * 4503599627370496) by lia.
    set (b := 4503599627370496). rewrite (surjective_pairing (Z.div_eucl _ _)). f_equal.
    - transitivity ((2 * Zpos m * b) / b); [|by apply Z.div_mul]. unfold Z.div. by destruct (Z.div_eucl _ _).
    - transitivity ((2 * Zpos m * b) mod b); [|by apply Z_mod_mult]. unfold Z.modulo. by destruct (Z.div_eucl _ _). }
  change (new_location 4503599627370496 0) with loc_Exact. cbn [xorb].
  split_and!; try lia; [|rewrite Hval; f_equal; f_equal; lia].
  unfold binary_round_aux, shr_fexp. change (2 * Zpos m) with (Zpos m~0). cbn [Zdigits2].
  assert (Zpos (digits2_pos m~0) = 54) as Hd. { cbn [digits2_pos]. rewrite Pos2Z.inj_succ, (proj2 (digits2_53 m) Hm). done. }
  rewrite Hd. assert (fexp prec emax (54 + (e - 54)) - (e - 54) = 1) as -> by (unfold fexp, emin, prec, emax; lia).
  cbn [shr_record_of_loc shr iter_pos shr_1 shr_m orb loc_of_shr_record round_nearest_even Zdigits2].
  rewrite (proj2 (digits2_53 m) Hm).
  assert (fexp prec emax (53 + (e - 54 + 1)) - (e - 54 + 1) = 0) as -> by (unfold fexp, emin, prec, emax; lia).
  cbn [shr_record_of_loc shr shr_m]. rewrite (proj2 (Z.leb_le _ _)) by (unfold emax, prec; lia). f_equal. lia.
Qed.
Lemma unit_fraction_range k : 0 <= k < 2 ^ 53 ->
  leb (of_Z 0) (div (of_Z k) (of_Z (2 ^ 53))) = true /\ ltb (div (of_Z k) (of_Z (2 ^ 53))) (of_Z 1) = true.
Proof.
  intros Hk. destruct (Z.eq_dec k 0) as [->|]; [done|].
  destruct (unit_fraction k ltac:(lia)) as (m & e & -> & Hm & He & _). split; [done|].
  change (of_Z 1) with (S754_finite false 4503599627370496 (-52)). unfold ltb, SFltb, SFcompare.
  destruct (Z.compare_spec e (-52)); [lia|done|lia].
Qed.
(** Two different fractions stay different. *)
Lemma unit_fraction_inj k l : 0 <= k < 2 ^ 53 -> 0 <= l < 2 ^ 53 ->
  div (of_Z k) (of_Z (2 ^ 53)) = div (of_Z l) (of_Z (2 ^ 53)) -> k = l.
Proof.
  intros Hk Hl. destruct (Z.eq_dec k 0) as [->|], (Z.eq_dec l 0) as [->|]; [done| | |].
  - destruct (unit_fraction l ltac:(lia)) as (m & e & -> & _). done.
  - destruct (unit_fraction k ltac:(lia)) as (m & e & -> & _). done.
  - destruct (unit_fraction k ltac:(lia)) as (m & e & -> & _ & He & Hk2).
    destruct (unit_fraction l ltac:(lia)) as (m' & e' & -> & _ & He' & Hl2). intros [= <- <-].
    assert (0 < 2 ^ (- 53 - e)) by (apply Z.pow_pos_nonneg; lia). nia.
Qed.
End exact.
