(* ===== verification/Channel.v ===== *)
(** Who hears whom, and how long a frame is on the air (src/src/sim/channel.rs). *)
From S2P Require Import Prelude Float Radio.

Module Topology.
Inductive t := FullyConnected | Partitioned.
#[global] Instance t_eq_dec : EqDecision t.
Proof. solve_decision. Defined.
Definition reaches (self : t) (from to fleet : nat) : bool :=
  match self with
  | FullyConnected => negb (from =? to)%nat
  | Partitioned => negb (from =? to)%nat && eqb (from <? Nat.div fleet 2)%nat (to <? Nat.div fleet 2)%nat
  end.
End Topology.

Definition DEFAULT_SPREADING_FACTOR : Z := PhyProfile.spreading_factor PhyProfile.eu868_sf10.

Definition airtime_ms_at (spreading_factor : Z) (payload_bytes : Z) : Z :=
  let BW_HZ := F64.of_Z 125000 in
  let CR_DENOM := F64.of_Z 5 in
  let PREAMBLE_SYMBOLS := F64.of_Z 8 in
  let clamped := Z.max 7 (Z.min 12 spreading_factor) in
  let sf := F64.of_Z clamped in
  let symbol_ms := F64.mul (F64.div (F64.of_Z (2 ^ clamped)) BW_HZ) (F64.of_Z 1000) in
  let low_data_rate := if 11 <=? spreading_factor then F64.of_Z 1 else F64.of_Z 0 in
  let payload := F64.of_Z (Z.min payload_bytes 255) in
  let numerator := F64.add (F64.add (F64.sub (F64.mul (F64.of_Z 8) payload) (F64.mul (F64.of_Z 4) sf))
                              (F64.of_Z 28)) (F64.of_Z 16) in
  let denominator := F64.mul (F64.of_Z 4) (F64.sub sf (F64.mul (F64.of_Z 2) low_data_rate)) in
  let symbols := F64.add (F64.of_Z 8)
                   (F64.mul (F64.max (F64.ceil (F64.div numerator denominator)) (F64.of_Z 0)) CR_DENOM) in
  let preamble_ms := F64.mul (F64.add PREAMBLE_SYMBOLS (F64.dyadic 17 2)) symbol_ms in
  let total := F64.clamp (F64.round (F64.add preamble_ms (F64.mul symbols symbol_ms)))
                 (F64.of_Z 0) (F64.of_Z 4294967295) in
  F64.as_u32 total.
Definition airtime_ms (payload_bytes : Z) : Z := airtime_ms_at DEFAULT_SPREADING_FACTOR payload_bytes.

(** * The formula in exact arithmetic

    Semtech AN1200.13 at 125 kHz in microseconds: a symbol is [8 * 2^sf] of them, the
    preamble and sync word are 12.25 symbols, and the payload is whole blocks of five
    symbols after the first eight. *)
Definition payload_blocks (sf payload : Z) : Z :=
  let width := 4 * (sf - (if 11 <=? sf then 2 else 0)) in
  Z.max 0 (- ((- (8 * payload - 4 * sf + 44)) / width)).
Definition airtime_us (sf payload : Z) : Z := 8 * 2 ^ sf * (49 + 4 * (8 + 5 * payload_blocks sf payload)) / 4.

(** The rounded formula agrees at every spreading factor and payload there is. *)
Definition agrees (p : Z * Z) : bool := airtime_ms_at p.1 p.2 =? (airtime_us p.1 p.2 + 500) / 1000.
Lemma every_airtime_agrees : forallb agrees (list_prod (seqZ 7 6) (seqZ 0 256)) = true.
Proof. vm_compute. reflexivity. Qed.
Lemma airtime_clamped sf n : airtime_ms_at sf n = airtime_ms_at (Z.max 7 (Z.min 12 sf)) n.
Proof.
  unfold airtime_ms_at. assert (Z.max 7 (Z.min 12 (Z.max 7 (Z.min 12 sf))) = Z.max 7 (Z.min 12 sf)) as -> by lia.
  assert ((11 <=? Z.max 7 (Z.min 12 sf)) = (11 <=? sf)) as ->; [|done].
  destruct (Z.leb_spec 11 sf); [apply Z.leb_le|apply Z.leb_gt]; lia.
Qed.
Lemma airtime_capped sf n : airtime_ms_at sf n = airtime_ms_at sf (Z.min n 255).
Proof. unfold airtime_ms_at. by assert (Z.min (Z.min n 255) 255 = Z.min n 255) as -> by lia. Qed.
Lemma airtime_exact sf n : 7 <= sf <= 12 -> 0 <= n <= 255 -> airtime_ms_at sf n = (airtime_us sf n + 500) / 1000.
Proof.
  intros Hsf Hn. pose proof (proj1 (forallb_forall _ _) every_airtime_agrees (sf, n)) as H. apply Z.eqb_eq, H, in_prod; apply list_elem_of_In, elem_of_seqZ; lia.
Qed.
Lemma payload_blocks_mono sf n m : 7 <= sf <= 12 -> n <= m -> 0 <= payload_blocks sf n <= payload_blocks sf m.
Proof.
  intros Hsf Hn. unfold payload_blocks. cbv zeta. set (w := 4 * (sf - _)). assert (0 < w) by (unfold w; destruct (11 <=? sf); lia).
  assert (- (8 * m - 4 * sf + 44) <= - (8 * n - 4 * sf + 44)) as Hle by lia.
  pose proof (Z.div_le_mono _ _ w ltac:(lia) Hle). lia.
Qed.
Lemma airtime_us_mono sf n m : 7 <= sf <= 12 -> n <= m -> airtime_us sf n <= airtime_us sf m.
Proof.
  intros Hsf Hn. pose proof (payload_blocks_mono sf n m Hsf Hn). unfold airtime_us. apply Z.div_le_mono; [lia|].
  assert (0 < 2 ^ sf) by (apply Z.pow_pos_nonneg; lia). nia.
Qed.

Lemma cast_nonneg hi x : 0 <= hi -> 0 <= F64.cast 0 hi x.
Proof. intros Hhi. unfold F64.cast. destruct x as [s|[]| |s m e]; lia. Qed.
Lemma airtime_nonneg n : 0 <= airtime_ms n.
Proof. unfold airtime_ms, airtime_ms_at. cbv zeta. apply cast_nonneg. by vm_compute. Qed.
(** No frame holds the channel longer than this. *)
Definition LONGEST_MS : Z := 2296.
Lemma airtime_longest n : 0 <= n -> airtime_ms n <= LONGEST_MS.
Proof.
  intros Hn. unfold airtime_ms. rewrite airtime_capped. change DEFAULT_SPREADING_FACTOR with 10.
  rewrite airtime_exact by lia.
  pose proof (airtime_us_mono 10 (Z.min n 255) 255 ltac:(lia) ltac:(lia)) as Hle.
  assert (airtime_us 10 255 <= 2296000) as Hmax by (vm_compute; congruence).
  unfold LONGEST_MS. apply Z.lt_succ_r, Z.div_lt_upper_bound; lia.
Qed.

(** C37: The airtime every budget and every slot is counted in, computed in floating
    point, is the data sheet's formula rounded to the nearest millisecond -- for every
    spreading factor and every payload, with no rounding error anywhere. A factor
    outside the chip's range is taken for the nearest one in it and a payload beyond
    the buffer for a full one; a longer frame is never shorter on the air, and no
    frame takes longer than 9020 ms. *)
Theorem airtime_is_the_formula (sf n m : Z) : 0 <= n <= m ->
  let sf' := Z.max 7 (Z.min 12 sf) in
  airtime_ms_at sf n = (airtime_us sf' (Z.min n 255) + 500) / 1000
  /\ airtime_ms_at sf n <= airtime_ms_at sf m
  /\ 0 < airtime_ms_at sf m <= 9020.
Proof.
  intros Hn sf'. rewrite !(airtime_clamped sf), (airtime_capped _ n), (airtime_capped _ m). fold sf'.
  assert (7 <= sf' <= 12) by lia. rewrite !airtime_exact by lia. split; [done|].
  pose proof (airtime_us_mono sf' (Z.min n 255) (Z.min m 255) ltac:(done) ltac:(lia)).
  pose proof (airtime_us_mono sf' (Z.min m 255) 255 ltac:(done) ltac:(lia)).
  pose proof (airtime_us_mono sf' 0 (Z.min m 255) ltac:(done) ltac:(lia)).
  split; [apply Z.div_le_mono; lia|].
  assert (1000 <= airtime_us sf' 0 /\ airtime_us sf' 255 <= 9020000) as [].
  { assert (sf' = 7 \/ sf' = 8 \/ sf' = 9 \/ sf' = 10 \/ sf' = 11 \/ sf' = 12) as Hcase by lia.
    destruct Hcase as [->|[->|[->|[->|[->| ->]]]]]; split; vm_compute; discriminate. }
  split; [apply Z.div_str_pos; lia|]. apply Z.lt_succ_r, Z.div_lt_upper_bound; lia.
Qed.
Lemma airtime_is_the_formula_witness :
  airtime_ms_at 10 111 = (airtime_us 10 111 + 500) / 1000 /\ airtime_ms_at 10 111 <= airtime_ms_at 10 255
  /\ 0 < airtime_ms_at 10 255 <= 9020.
Proof. apply (airtime_is_the_formula 10 111 255). lia. Defined.

(** A partition is symmetric, irreflexive, and its halves never hear each other. *)
Lemma reaches_sym t a b fleet : Topology.reaches t a b fleet = Topology.reaches t b a fleet.
Proof. destruct t; unfold Topology.reaches; rewrite Nat.eqb_sym; [done|]. f_equal. by destruct (a <? _)%nat, (b <? _)%nat. Qed.
