(* ===== verification/Rng.v ===== *)
(** The deterministic generator of the simulator (src/src/sim/rng.rs). *)
From S2P Require Import Prelude Float.

Module Rng.
(** The state, a u64; each draw returns it with the value. *)
Definition t : Type := Z.
Definition MULTIPLIER : Z := 2685821657736338717.
Definition new (seed : Z) : t := wrap64 (wrap64 (seed * 6364136223846793005) + 1).
Definition xorshift (s : t) : t :=
  let s := Z.lxor s (Z.shiftr s 12) in
  let s := Z.lxor s (wrap64 (Z.shiftl s 25)) in
  Z.lxor s (Z.shiftr s 27).
Definition next_u64 (s : t) : t * Z := let s := xorshift s in (s, wrap64 (s * MULTIPLIER)).
Definition next_f64 (s : t) : t * f64 :=
  let '(s, n) := next_u64 s in (s, F64.div (F64.of_Z (Z.shiftr n 11)) (F64.of_Z 9007199254740992)).
Definition below (s : t) (bound : Z) : t * Z :=
  if bound =? 0 then (s, 0) else let '(s, n) := next_u64 s in (s, n mod bound).
Definition normal_pair `{Libm} (s : t) : t * (f64 * f64) :=
  let '(s, u) := next_f64 s in
  let uniform := F64.max u F64.MIN_POSITIVE in
  let '(s, v) := next_f64 s in
  let angle := F64.mul F64.TAU v in
  let radius := F64.sqrt (F64.mul (F64.of_Z (-2)) (f64_ln uniform)) in
  (s, (F64.mul radius (f64_cos angle), F64.mul radius (f64_sin angle))).
(** [n] draws. *)
Fixpoint draws (n : nat) (s : t) : list Z :=
  match n with O => [] | S n => let '(s, v) := next_u64 s in v :: draws n s end.
End Rng.

(** * The state never sticks *)

Section step.
Lemma wrap64_range z : 0 <= wrap64 z < 2 ^ 64.
Proof. apply Z.mod_pos_bound. lia. Qed.
Lemma shiftr_range x k : 0 <= x < 2 ^ 64 -> 0 <= k -> 0 <= Z.shiftr x k < 2 ^ 64.
Proof.
  intros Hx Hk. rewrite Z.shiftr_div_pow2 by done. assert (0 < 2 ^ k) by (apply Z.pow_pos_nonneg; lia).
  split; [apply Z.div_pos; lia|]. apply Z.div_lt_upper_bound; nia.
Qed.

(** Mixing a word with its own shift loses nothing: the difference of two words that
    mix to the same is its own shift, and only zero is. *)
Lemma mix_difference (f : Z -> Z) x y : (forall a b, f (Z.lxor a b) = Z.lxor (f a) (f b)) ->
  Z.lxor x (f x) = Z.lxor y (f y) -> Z.lxor x y = f (Z.lxor x y).
Proof.
  intros Hf Heq. apply Z.lxor_eq. rewrite Hf.
  transitivity (Z.lxor (Z.lxor x (f x)) (Z.lxor y (f y))); [|rewrite Heq; apply Z.lxor_nilpotent].
  apply Z.bits_inj'. intros n _. rewrite !Z.lxor_spec.
  by destruct (Z.testbit x n), (Z.testbit y n), (Z.testbit (f x) n), (Z.testbit (f y) n).
Qed.
Lemma mix_right_inj k x y : 0 < k -> 0 <= x < 2 ^ 64 -> 0 <= y < 2 ^ 64 ->
  Z.lxor x (Z.shiftr x k) = Z.lxor y (Z.shiftr y k) -> x = y.
Proof.
  intros Hk Hx Hy Heq. apply Z.lxor_eq.
  pose proof (mix_difference (fun z => Z.shiftr z k) x y (fun a b => Z.shiftr_lxor a b k) Heq) as Hz. cbn beta in Hz.
  pose proof (lxor_range 64 x y ltac:(lia) Hx Hy). set (z := Z.lxor x y) in *. rewrite Z.shiftr_div_pow2 in Hz by lia.
  assert (2 <= 2 ^ k) by (change 2 with (2 ^ 1) at 1; apply Z.pow_le_mono_r; lia).
  destruct (Z.eq_dec z 0); [done|]. pose proof (Z.div_lt z (2 ^ k) ltac:(lia) ltac:(lia)). lia.
Qed.
Lemma wrap64_lxor a b : wrap64 (Z.lxor a b) = Z.lxor (wrap64 a) (wrap64 b).
Proof.
  unfold wrap64. apply Z.bits_inj'. intros n Hn. rewrite Z.lxor_spec.
  destruct (Z.lt_ge_cases n 64); [rewrite !Z.mod_pow2_bits_low by lia; apply Z.lxor_spec|].
  by rewrite !Z.mod_pow2_bits_high by lia.
Qed.
(** Multiplication by an odd number is invertible. *)
Lemma odd_cancel m z : Z.odd m = true -> 0 <= z < 2 ^ 64 -> wrap64 (z * m) = 0 -> z = 0.
Proof.
  intros Hodd Hz Hw. assert (Z.coprime m (2 ^ 64)) as Hc.
  { apply Z.coprime_pow_r; [lia|]. apply Z.odd_spec in Hodd as [q ->].
    apply Z.coprime_Bezout. exists 1, (- q). lia. }
  rewrite <- (Z.mod_small z (2 ^ 64)) by done. by apply (Z.cong_mul_cancel_r_coprime z m).
Qed.
Lemma mix_left_inj k x y : 0 < k -> 0 <= x < 2 ^ 64 -> 0 <= y < 2 ^ 64 ->
  Z.lxor x (wrap64 (Z.shiftl x k)) = Z.lxor y (wrap64 (Z.shiftl y k)) -> x = y.
Proof.
  intros Hk Hx Hy Heq. apply Z.lxor_eq.
  pose proof (mix_difference (fun z => wrap64 (Z.shiftl z k)) x y
    ltac:(intros; cbv beta; rewrite Z.shiftl_lxor; apply wrap64_lxor) Heq) as Hz. cbn beta in Hz.
  pose proof (lxor_range 64 x y ltac:(lia) Hx Hy). set (z := Z.lxor x y) in *. unfold wrap64 in Hz. rewrite Z.shiftl_mul_pow2 in Hz by lia.
  apply (odd_cancel (2 ^ k - 1)); [|done|].
  - assert (2 ^ k = 2 * 2 ^ (k - 1)) as ->.
    { replace (2 * 2 ^ (k - 1)) with (2 ^ 1 * 2 ^ (k - 1)) by lia. rewrite <- Z.pow_add_r by lia. f_equal. lia. }
    rewrite Z.odd_sub, Z.odd_mul. done.
  - unfold wrap64. rewrite Z.mul_sub_distr_l, Z.mul_1_r, Zminus_mod, <- Hz, (Z.mod_small z) by lia. by rewrite Z.sub_diag.
Qed.
Lemma xorshift_range s : 0 <= s < 2 ^ 64 -> 0 <= Rng.xorshift s < 2 ^ 64.
Proof.
  intros Hs. unfold Rng.xorshift. cbv zeta.
  repeat first [apply lxor_range | apply shiftr_range | apply wrap64_range | exact Hs | lia].
Qed.
Lemma xorshift_inj s t : 0 <= s < 2 ^ 64 -> 0 <= t < 2 ^ 64 -> Rng.xorshift s = Rng.xorshift t -> s = t.
Proof.
  intros Hs Ht. unfold Rng.xorshift. cbv zeta. intros Heq.
  pose proof (lxor_range 64 _ _ ltac:(lia) Hs (shiftr_range s 12 Hs ltac:(lia))) as Hs1.
  pose proof (lxor_range 64 _ _ ltac:(lia) Ht (shiftr_range t 12 Ht ltac:(lia))) as Ht1.
  apply mix_right_inj in Heq; [|lia|apply lxor_range; [lia|done|apply wrap64_range]|apply lxor_range; [lia|done|apply wrap64_range]].
  apply mix_left_inj in Heq; [|lia|done|done]. by apply mix_right_inj in Heq.
Qed.
Lemma xorshift_nonzero s : 0 <= s < 2 ^ 64 -> s <> 0 -> Rng.xorshift s <> 0.
Proof. intros Hs Hne H0. apply Hne, xorshift_inj; [done|lia|]. by rewrite H0. Qed.
End step.

(** The one seed whose state is zero. *)
Definition STUCK_SEED : Z := 4568919932995229531.

Section generator.
Lemma new_range seed : 0 <= Rng.new seed < 2 ^ 64.
Proof. apply wrap64_range. Qed.
Lemma new_inj a b : is_u64 a -> is_u64 b -> Rng.new a = Rng.new b -> a = b.
Proof.
  intros Ha Hb Heq. unfold Rng.new, wrap64 in Heq. rewrite !Zplus_mod_idemp_l in Heq.
  assert (wrap64 (((a - b) mod 2 ^ 64) * 6364136223846793005) = 0) as Hz.
  { unfold wrap64. rewrite Zmult_mod_idemp_l.
    replace ((a - b) * 6364136223846793005) with ((a * 6364136223846793005 + 1) - (b * 6364136223846793005 + 1)) by lia.
    by rewrite Zminus_mod, Heq, Z.sub_diag. }
  apply odd_cancel in Hz; [|done|apply Z.mod_pos_bound; lia]. width. Z.to_euclidean_division_equations. lia.
Qed.
Lemma draws_range n s v : v ∈ Rng.draws n s -> is_u64 v.
Proof.
  revert s; induction n as [|n IH]; intros s; cbn [Rng.draws Rng.next_u64]; [by intros ?%elem_of_nil|].
  intros [->|Hv]%elem_of_cons; [|by eapply IH]. pose proof (wrap64_range (Rng.xorshift s * Rng.MULTIPLIER)). width. lia.
Qed.
Lemma draws_zero n : Rng.draws n 0 = replicate n 0.
Proof. induction n as [|n IH]; [done|]. cbn [Rng.draws Rng.next_u64 replicate]. change (Rng.xorshift 0) with 0. by rewrite IH. Qed.
Lemma draws_nonzero n s v : 0 <= s < 2 ^ 64 -> s <> 0 -> v ∈ Rng.draws n s -> v <> 0.
Proof.
  revert s; induction n as [|n IH]; intros s Hs Hne; cbn [Rng.draws Rng.next_u64]; [by intros ?%elem_of_nil|].
  pose proof (xorshift_range s Hs). pose proof (xorshift_nonzero s Hs Hne).
  intros [->|Hv]%elem_of_cons; [|by eapply IH]. intros Hz. apply odd_cancel in Hz; done.
Qed.
Lemma iter_range n s : 0 <= s < 2 ^ 64 -> 0 <= Nat.iter n Rng.xorshift s < 2 ^ 64.
Proof. intros. induction n; [done|]. cbn. by apply xorshift_range. Qed.
Lemma iter_inj n s t : 0 <= s < 2 ^ 64 -> 0 <= t < 2 ^ 64 ->
  Nat.iter n Rng.xorshift s = Nat.iter n Rng.xorshift t -> s = t.
Proof.
  intros Hs Ht. induction n as [|n IH]; [done|]. cbn. intros Heq.
  apply IH, xorshift_inj; [by apply iter_range|by apply iter_range|done].
Qed.

Lemma next_f64_range s : F64.leb (F64.of_Z 0) (Rng.next_f64 s).2 = true /\ F64.ltb (Rng.next_f64 s).2 (F64.of_Z 1) = true.
Proof.
  unfold Rng.next_f64, Rng.next_u64. cbn [fst snd]. pose proof (wrap64_range (Rng.xorshift s * Rng.MULTIPLIER)) as Hw.
  change 9007199254740992 with (2 ^ 53). apply unit_fraction_range. rewrite Z.shiftr_div_pow2 by lia.
  split; [apply Z.div_pos; lia|]. apply Z.div_lt_upper_bound; lia.
Qed.

(** The simulator's generator is sound for every seed but one. Different seeds
    never reach the same state, however long they run; from every seed but
    [STUCK_SEED] no draw is ever zero, so it never sticks; a draw is a u64, and a fraction drawn is in [0, 1), the division
    by [2^53] exact. From [STUCK_SEED], which the documentation calls as usable as any,
    every draw is zero. *)
Theorem generator_sticks_on_one_seed (a b : Z) (n : nat) : is_u64 a -> is_u64 b ->
  (a <> b -> Nat.iter n Rng.xorshift (Rng.new a) <> Nat.iter n Rng.xorshift (Rng.new b))
  /\ (a <> STUCK_SEED -> Forall (fun v => 0 < v <= U64_MAX) (Rng.draws n (Rng.new a)))
  /\ (forall s, F64.leb (F64.of_Z 0) (Rng.next_f64 s).2 = true /\ F64.ltb (Rng.next_f64 s).2 (F64.of_Z 1) = true)
  /\ Rng.draws n (Rng.new STUCK_SEED) = replicate n 0.
Proof.
  intros Ha Hb. split; [|split; [|split; [apply next_f64_range|]]].
  - intros Hne Heq. apply iter_inj in Heq; [|apply new_range|apply new_range]. by apply Hne, new_inj.
  - intros Hne. apply Forall_forall. intros v Hv. pose proof (draws_range _ _ _ Hv) as Hr.
    assert (v <> 0); [|width; lia]. eapply draws_nonzero; [apply new_range| |exact Hv].
    intros H0. apply Hne, new_inj; [done|vm_compute; split; discriminate|]. rewrite H0. reflexivity.
  - change (Rng.new STUCK_SEED) with 0. apply draws_zero.
Qed.
Lemma generator_sticks_on_one_seed_witness :
  Nat.iter 9 Rng.xorshift (Rng.new 0) <> Nat.iter 9 Rng.xorshift (Rng.new 1)
  /\ Rng.draws 3 (Rng.new STUCK_SEED) = [0; 0; 0].
Proof.
  destruct (generator_sticks_on_one_seed 0 1 9) as (Hd & _); [vm_compute; split; discriminate..|].
  destruct (generator_sticks_on_one_seed 0 1 3) as (_ & _ & _ & Hs); [vm_compute; split; discriminate..|].
  split; [by apply Hd|exact Hs].
Defined.
End generator.
