(* ===== verification/Phy.v ===== *)
(** Propagation (src/src/sim/phy.rs): path loss, range and fading, in the float
    arithmetic of [Float]; logarithms and circular functions are the platform's
    ([Libm]). *)
From S2P Require Import Prelude Float Channel Rng.

Definition CARRIER_HZ : f64 := F64.of_Z 868100000.
Definition MAST_HEIGHT_M : f64 := F64.of_Z 12.
Definition ANTENNA_GAIN_DBI : f64 := F64.of_Z 2.
Definition TX_POWER_DBM : f64 := F64.of_Z 14.
Definition NOISE_FLOOR_DBM : f64 := F64.of_Z (-117).
Definition snr_db (rssi_dbm : f64) : f64 :=
  F64.clamp (F64.sub rssi_dbm NOISE_FLOOR_DBM) (F64.of_Z (-30)) (F64.of_Z 12).
Definition sensitivity_dbm_at (spreading_factor : Z) : f64 :=
  if spreading_factor <=? 7 then F64.of_Z (-123)
  else match spreading_factor with
       | 8 => F64.of_Z (-126)
       | 9 => F64.of_Z (-129)
       | 10 => F64.of_Z (-132)
       | 11 => F64.dyadic (-269) 1
       | _ => F64.of_Z (-137)
       end.
Definition SENSITIVITY_DBM : f64 := sensitivity_dbm_at DEFAULT_SPREADING_FACTOR.
Definition SPEED_OF_LIGHT_MS : f64 := F64.of_Z 299792458.
Definition MIN_FADE_DB : f64 := F64.of_Z (-30).
Definition MAX_FADE_DB : f64 := F64.of_Z 10.

Definition radio_horizon_m : f64 :=
  F64.mul (F64.of_Z 4120) (F64.add (F64.sqrt MAST_HEIGHT_M) (F64.sqrt MAST_HEIGHT_M)).
Definition breakpoint_m : f64 :=
  let wavelength := F64.div SPEED_OF_LIGHT_MS CARRIER_HZ in
  F64.div (F64.mul (F64.mul (F64.of_Z 4) MAST_HEIGHT_M) MAST_HEIGHT_M) wavelength.

Module Link.
Record t := new { distance_m : f64 }.
End Link.

Section propagation.
Context `{Libm}.

Definition free_space_db (distance_m : f64) : f64 :=
  let wavelength := F64.div SPEED_OF_LIGHT_MS CARRIER_HZ in
  F64.mul (F64.of_Z 20)
    (f64_log10 (F64.div (F64.mul (F64.mul (F64.of_Z 4) F64.PI) distance_m) wavelength)).
Definition path_loss_db (distance_m : f64) : f64 :=
  if F64.is_nan distance_m || F64.leb distance_m (F64.of_Z 1) then F64.of_Z 0
  else if F64.ltb radio_horizon_m distance_m then F64.infinity
  else if F64.leb distance_m breakpoint_m then free_space_db distance_m
  else F64.add (free_space_db breakpoint_m)
         (F64.mul (F64.of_Z 40) (f64_log10 (F64.div distance_m breakpoint_m))).
Definition rssi_dbm (link : Link.t) (tx_power_dbm : f64) : f64 :=
  F64.sub (F64.add tx_power_dbm (F64.mul (F64.of_Z 2) ANTENNA_GAIN_DBI)) (path_loss_db (Link.distance_m link)).

Definition decodes_at (tx_power_dbm distance_m : f64) : bool :=
  F64.leb SENSITIVITY_DBM (rssi_dbm (Link.new distance_m) tx_power_dbm).
Fixpoint bisect (steps : nat) (tx_power_dbm near far : f64) : f64 :=
  match steps with
  | O => near
  | S steps =>
      let middle := F64.midpoint near far in
      if decodes_at tx_power_dbm middle then bisect steps tx_power_dbm middle far
      else bisect steps tx_power_dbm near middle
  end.
Definition max_range_m (tx_power_dbm : f64) : f64 :=
  let horizon := radio_horizon_m in
  if decodes_at tx_power_dbm (F64.sub horizon (F64.of_Z 1)) then horizon
  else bisect 60 tx_power_dbm (F64.of_Z 1) horizon.
End propagation.

Module RicianFading.
Record t := mk { rng : Rng.t; line_of_sight : f64; scatter : f64 }.
Section fading.
Context `{Libm}.
Definition new (seed : Z) (k_factor_db : f64) : t :=
  let k := f64_powf (F64.of_Z 10) (F64.div k_factor_db (F64.of_Z 10)) in
  mk (Rng.new seed)
     (F64.sqrt (F64.div k (F64.add k (F64.of_Z 1))))
     (F64.sqrt (F64.div (F64.of_Z 1) (F64.mul (F64.of_Z 2) (F64.add k (F64.of_Z 1))))).
Definition sample_db (f : t) : t * f64 :=
  let '(r, (real, imaginary)) := Rng.normal_pair (rng f) in
  let in_phase := F64.add (line_of_sight f) (F64.mul (scatter f) real) in
  let quadrature := F64.mul (scatter f) imaginary in
  let amplitude := F64.sqrt (F64.mul_add in_phase in_phase (F64.mul quadrature quadrature)) in
  (mk r (line_of_sight f) (scatter f),
   F64.clamp (F64.mul (F64.of_Z 20) (f64_log10 amplitude)) MIN_FADE_DB MAX_FADE_DB).
End fading.
End RicianFading.

(** * Range *)

Section range.
Context `{Libm}.

Lemma radio_horizon_value : radio_horizon_m = S754_finite false 7846169211621661 (-38).
Proof. vm_compute. reflexivity. Qed.
(** Past the horizon the loss is infinite and nothing arrives. *)
Lemma loss_beyond_horizon d : F64.ltb radio_horizon_m d = true -> path_loss_db d = F64.infinity.
Proof.
  intros Hd. unfold path_loss_db. rewrite Hd.
  assert (F64.is_nan d = false) as -> by (destruct d; [done|done|by vm_compute in Hd|done]). cbn [orb].
  assert (F64.leb d (F64.of_Z 1) = false) as ->; [|done].
  rewrite radio_horizon_value in Hd.
  change (F64.of_Z 1) with (S754_finite false 4503599627370496 (-52)).
  unfold F64.ltb, SFltb, SFcompare in Hd. unfold F64.leb, SFleb, SFcompare.
  destruct d as [s|s| |s m e]; [done|by destruct s|done|]. destruct s; [done|].
  assert (-38 <= e) as He by (destruct (Z.compare_spec (-38) e); try done; lia).
  by rewrite (proj2 (Z.compare_gt_iff e (-52))) by lia.
Qed.
Lemma silent_beyond_horizon d : F64.ltb radio_horizon_m d = true ->
  rssi_dbm (Link.new d) TX_POWER_DBM = F64.neg_infinity /\ decodes_at TX_POWER_DBM d = false.
Proof.
  intros Hd. assert (rssi_dbm (Link.new d) TX_POWER_DBM = F64.neg_infinity) as Hr.
  { unfold rssi_dbm. cbn [Link.distance_m]. rewrite loss_beyond_horizon by done. vm_compute. reflexivity. }
  split; [done|]. unfold decodes_at. rewrite Hr. vm_compute. reflexivity.
Qed.
Lemma decodes_at_one : decodes_at TX_POWER_DBM (F64.of_Z 1) = true.
Proof. unfold decodes_at, rssi_dbm, path_loss_db. vm_compute. reflexivity. Qed.
Lemma bisect_decodes n tx near far : decodes_at tx near = true -> decodes_at tx (bisect n tx near far) = true.
Proof.
  revert near far; induction n as [|n IH]; intros near far Hn; [done|]. cbn [bisect].
  destruct (decodes_at tx (F64.midpoint near far)) eqn:Hm; by apply IH.
Qed.

Lemma max_range_cases tx : decodes_at tx (F64.of_Z 1) = true ->
  max_range_m tx = radio_horizon_m /\ decodes_at tx (F64.sub radio_horizon_m (F64.of_Z 1)) = true
  \/ decodes_at tx (max_range_m tx) = true.
Proof.
  intros H1. unfold max_range_m. destruct (decodes_at tx (F64.sub _ _)) eqn:Hh; [by left|right]. by apply bisect_decodes.
Qed.

(** The range the simulator reports is one a frame is heard at, whatever the
    platform's logarithm: it is either the horizon, when a frame is still heard a
    metre short of it, or a distance that decodes; and a receiver past the horizon
    hears nothing at all. *)
Theorem max_range_is_heard :
  let range := max_range_m TX_POWER_DBM in
  (range = radio_horizon_m /\ decodes_at TX_POWER_DBM (F64.sub radio_horizon_m (F64.of_Z 1)) = true
   \/ decodes_at TX_POWER_DBM range = true /\ F64.ltb radio_horizon_m range = false)
  /\ forall d, F64.ltb radio_horizon_m d = true ->
       rssi_dbm (Link.new d) TX_POWER_DBM = F64.neg_infinity /\ decodes_at TX_POWER_DBM d = false.
Proof.
  cbv zeta. split; [|apply silent_beyond_horizon].
  destruct (max_range_cases _ decodes_at_one) as [Hh|Hd]; [by left|right]. split; [done|].
  destruct (F64.ltb radio_horizon_m _) eqn:Hlt; [|done].
  apply silent_beyond_horizon in Hlt as [_ Hlt]. by rewrite Hd in Hlt.
Qed.
End range.
