(* ===== verification/Medium.v ===== *)
(** The shared medium (src/src/sim/medium.rs): what becomes of a frame at a receiver
    when others are on the air. *)
From S2P Require Import Prelude Float Budget Radio Channel Rng Phy.

Definition CAPTURE_THRESHOLD_DB : f64 := F64.of_Z (PhyProfile.capture_threshold_db PhyProfile.eu868_sf10).
Definition HEADER_SYMBOLS : f64 := F64.of_Z 8.
Definition SYNC_SYMBOLS : f64 := F64.dyadic 17 2.
Definition capture_wins (stronger_dbm other_dbm : f64) : bool :=
  F64.leb CAPTURE_THRESHOLD_DB (F64.sub stronger_dbm other_dbm).

Module Transmission.
Record t := new { start_ms : Z; airtime_ms : Z; rssi_dbm : f64 }.
Definition own_transmission (start_ms airtime_ms : Z) : t := new start_ms airtime_ms F64.infinity.
Definition end_ms (x : t) : Z := sat_add64 (start_ms x) (airtime_ms x).
Definition overlaps (x other : t) : bool := (start_ms x <? end_ms other) && (start_ms other <? end_ms x).
End Transmission.

Module Acquisition.
Record t := mk {
  symbol_ms : f64;
  lead_symbols : f64;
  locked_symbols : f64;
  header_end_symbols : f64;
  capture_threshold_db : f64;
}.
Definition from_profile (p : PhyProfile.t) : t :=
  let symbol_ms := F64.mul (F64.div (F64.of_Z (2 ^ Z.min (PhyProfile.spreading_factor p) 12))
                              (F64.of_Z (PhyProfile.bandwidth_hz p))) (F64.of_Z 1000) in
  let preamble := F64.of_Z (PhyProfile.preamble_symbols p) in
  let lead := F64.of_Z (sat_sub (PhyProfile.preamble_symbols p) (PhyProfile.preamble_symbols_to_lock p)) in
  let locked := F64.add preamble SYNC_SYMBOLS in
  mk symbol_ms lead locked (F64.add locked HEADER_SYMBOLS) (F64.of_Z (PhyProfile.capture_threshold_db p)).
Definition default_profile : t := from_profile PhyProfile.eu868_sf10.
Definition scaled (a : t) (scale : Z) : t :=
  mk (F64.div (symbol_ms a) (F64.of_Z (Z.max scale 1))) (lead_symbols a) (locked_symbols a) (header_end_symbols a)
    (capture_threshold_db a).
Definition lock_window (a : t) (frame : Transmission.t) : f64 * f64 :=
  let start := F64.of_Z (Transmission.start_ms frame) in
  (F64.add start (F64.mul (lead_symbols a) (symbol_ms a)), F64.add start (F64.mul (locked_symbols a) (symbol_ms a))).
Definition header_end (a : t) (frame : Transmission.t) : f64 :=
  F64.add (F64.of_Z (Transmission.start_ms frame)) (F64.mul (header_end_symbols a) (symbol_ms a)).
End Acquisition.

Module Reception.
(** In the order the enum derives. *)
Inductive t := Decoded | CrcError | HeaderError | NoLock | TooWeak.
#[global] Instance t_eq_dec : EqDecision t.
Proof. solve_decision. Defined.
Definition rank (r : t) : Z :=
  match r with Decoded => 0 | CrcError => 1 | HeaderError => 2 | NoLock => 3 | TooWeak => 4 end.
(** [Ord::max]: the second when they are equal. *)
Definition max (a b : t) : t := if rank a <=? rank b then b else a.
Definition decoded (r : t) : bool := match r with Decoded => true | _ => false end.
Definition locked (r : t) : bool := match r with Decoded | CrcError | HeaderError => true | _ => false end.
End Reception.

(** The loop of [judge] over the other frames. *)
Fixpoint judge_loop (target : Transmission.t) (others : list Transmission.t) (a : Acquisition.t)
    (worst : Reception.t) : Reception.t :=
  match others with
  | [] => worst
  | other :: others =>
      if negb (Transmission.overlaps target other)
         || F64.leb (Acquisition.capture_threshold_db a)
              (F64.sub (Transmission.rssi_dbm target) (Transmission.rssi_dbm other))
      then judge_loop target others a worst
      else
        let '(lock_start, lock_end) := Acquisition.lock_window a target in
        let other_start := F64.of_Z (Transmission.start_ms other) in
        let other_end := F64.of_Z (Transmission.end_ms other) in
        if F64.ltb other_start lock_end && F64.ltb lock_start other_end then Reception.NoLock
        else if F64.leb lock_end other_start then
          let outcome := if F64.ltb other_start (Acquisition.header_end a target)
                         then Reception.HeaderError else Reception.CrcError in
          judge_loop target others a (Reception.max worst outcome)
        else judge_loop target others a worst
  end.
Definition judge (target : Transmission.t) (others : list Transmission.t) (a : Acquisition.t) : Reception.t :=
  if F64.ltb (Transmission.rssi_dbm target) SENSITIVITY_DBM then Reception.TooWeak
  else judge_loop target others a Reception.Decoded.
Definition receive (target : Transmission.t) (others : list Transmission.t) : Reception.t :=
  judge target others Acquisition.default_profile.

(** * One interferer at a time *)

Section medium.
Import Transmission.
Implicit Types (x o : Transmission.t) (a : Acquisition.t).

(** What one other frame alone would make of this one. *)
Definition effect x a o : Reception.t :=
  if negb (overlaps x o) || F64.leb (Acquisition.capture_threshold_db a) (F64.sub (rssi_dbm x) (rssi_dbm o))
  then Reception.Decoded
  else
    let other_start := F64.of_Z (start_ms o) in
    if F64.ltb other_start (Acquisition.lock_window a x).2 && F64.ltb (Acquisition.lock_window a x).1 (F64.of_Z (end_ms o))
    then Reception.NoLock
    else if F64.leb (Acquisition.lock_window a x).2 other_start then
      if F64.ltb other_start (Acquisition.header_end a x) then Reception.HeaderError else Reception.CrcError
    else Reception.Decoded.
Definition worst_of (rs : list Reception.t) : Reception.t := foldr Reception.max Reception.Decoded rs.

Lemma rank_max r s : Reception.rank (Reception.max r s) = Z.max (Reception.rank r) (Reception.rank s).
Proof. unfold Reception.max. destruct (Z.leb_spec (Reception.rank r) (Reception.rank s)); lia. Qed.
Lemma rank_nonneg r : 0 <= Reception.rank r.
Proof. destruct r; cbn; lia. Qed.
Lemma reception_rank_inj r s : Reception.rank r = Reception.rank s -> r = s.
Proof. by destruct r, s. Qed.
#[local] Instance max_assoc : Assoc (=) Reception.max.
Proof. intros r s t. apply reception_rank_inj. rewrite !rank_max. lia. Qed.
#[local] Instance max_comm : Comm (=) Reception.max.
Proof. intros r s. apply reception_rank_inj. rewrite !rank_max. lia. Qed.
Lemma effect_bound x a o : Reception.rank (effect x a o) <= 3.
Proof. unfold effect. repeat case_match; cbn; lia. Qed.
Lemma max_nolock r : Reception.rank r <= 3 -> Reception.max Reception.NoLock r = Reception.NoLock.
Proof. destruct r; cbn; (done || lia). Qed.
Lemma max_decoded r : Reception.max r Reception.Decoded = r.
Proof. by destruct r. Qed.
Lemma worst_bound x a os : Reception.rank (worst_of (effect x a <$> os)) <= 3.
Proof.
  induction os as [|o os IH]; [cbn; lia|]. rewrite fmap_cons. cbn [worst_of foldr]. rewrite rank_max.
  pose proof (effect_bound x a o). unfold worst_of in IH. lia.
Qed.
Lemma judge_loop_worst x a os worst : Reception.rank worst <= 3 ->
  judge_loop x os a worst = Reception.max worst (worst_of (effect x a <$> os)).
Proof.
  revert worst; induction os as [|o os IH]; intros worst Hw; [by rewrite max_decoded|].
  rewrite fmap_cons. cbn [judge_loop worst_of foldr]. unfold worst_of in IH. unfold effect at 1. cbv zeta.
  pose proof (worst_bound x a os) as Hb. unfold worst_of in Hb.
  destruct (negb _ || _); [rewrite IH by done; by rewrite (comm Reception.max Reception.Decoded), max_decoded|].
  destruct (Acquisition.lock_window a x) as [lock_start lock_end]. cbn [fst snd].
  destruct (F64.ltb _ lock_end && _).
  { rewrite (max_nolock _ Hb). by rewrite (comm Reception.max worst), max_nolock. }
  destruct (F64.leb lock_end _); [|rewrite IH by done; by rewrite (comm Reception.max Reception.Decoded), max_decoded].
  rewrite IH; [by rewrite (assoc Reception.max)|]. rewrite rank_max. destruct (F64.ltb _ _); cbn; lia.
Qed.
Lemma judge_worst x a os : judge x os a
  = if F64.ltb (rssi_dbm x) SENSITIVITY_DBM then Reception.TooWeak else worst_of (effect x a <$> os).
Proof.
  unfold judge. destruct (F64.ltb _ _); [done|]. rewrite judge_loop_worst by (cbn; lia).
  by rewrite (comm Reception.max), max_decoded.
Qed.
Lemma worst_cons r rs : worst_of (r :: rs) = Reception.max r (worst_of rs).
Proof. done. Qed.
Lemma worst_rank_app rs ss : Reception.rank (worst_of (rs ++ ss)) = Z.max (Reception.rank (worst_of rs)) (Reception.rank (worst_of ss)).
Proof.
  induction rs as [|r rs IH].
  - pose proof (rank_nonneg (worst_of ss)). change (worst_of ([] ++ ss)) with (worst_of ss). change (Reception.rank (worst_of [])) with 0. lia.
  - rewrite <- app_comm_cons, !worst_cons, !rank_max, IH. lia.
Qed.
Lemma worst_permutation rs ss : rs ≡ₚ ss -> worst_of rs = worst_of ss.
Proof.
  induction 1 as [|r rs ss _ IH|r s rs|]; [done|cbn; unfold worst_of in IH; by rewrite IH| |congruence].
  cbn. rewrite !(assoc Reception.max). by rewrite (comm Reception.max r).
Qed.
Lemma worst_decoded rs : worst_of rs = Reception.Decoded <-> Forall (fun r => r = Reception.Decoded) rs.
Proof.
  induction rs as [|r rs IH]; [split; by constructor|]. rewrite Forall_cons, <- IH. cbn [worst_of foldr]. fold (worst_of rs).
  destruct r, (worst_of rs); cbn; naive_solver.
Qed.

(** What becomes of a frame is decided interferer by interferer: a frame above the
    sensitivity meets the worst of what each other frame alone would have done to it.
    So the order in which the medium looks at them does not matter, one more frame on
    the air never helps, and a frame is decoded exactly when it is strong enough and
    every other one is out of the way, weaker by the capture margin, or over before
    the receiver began to listen for this one. *)
Theorem verdict_is_the_worst x a (os os' more : list Transmission.t) : os ≡ₚ os' ->
  judge x os a = judge x os' a
  /\ Reception.rank (judge x os a) <= Reception.rank (judge x (os' ++ more) a)
  /\ (judge x os a = Reception.Decoded <->
      F64.ltb (rssi_dbm x) SENSITIVITY_DBM = false /\ Forall (fun o => judge x [o] a = Reception.Decoded) os).
Proof.
  intros Hp. rewrite !judge_worst, fmap_app.
  assert (worst_of (effect x a <$> os) = worst_of (effect x a <$> os')) as Heq by (apply worst_permutation; by rewrite Hp).
  destruct (F64.ltb _ _) eqn:Hw; [split_and!; [done|done|split; [done|by intros [? _]]]|].
  split_and!; [done|rewrite worst_rank_app, Heq; lia|].
  assert (forall o, judge x [o] a = effect x a o) as Hone.
  { intros o. rewrite judge_worst, Hw. cbn. by rewrite max_decoded. }
  rewrite worst_decoded, Forall_fmap. unfold compose.
  split; [intros Hall; split; [done|]|intros [_ Hall]]; (eapply Forall_impl; [exact Hall|]; intros o; cbn beta; by rewrite Hone).
Qed.
Lemma verdict_is_the_worst_witness :
  judge (new 0 370 (F64.of_Z (-80))) [new 50 370 (F64.of_Z (-90)); new 120 370 (F64.of_Z (-80))] Acquisition.default_profile
  = Reception.HeaderError
  /\ judge (new 0 370 (F64.of_Z (-80))) [new 120 370 (F64.of_Z (-80)); new 50 370 (F64.of_Z (-90))] Acquisition.default_profile
     = Reception.HeaderError.
Proof.
  destruct (verdict_is_the_worst (new 0 370 (F64.of_Z (-80))) Acquisition.default_profile
              [new 50 370 (F64.of_Z (-90)); new 120 370 (F64.of_Z (-80))] [new 120 370 (F64.of_Z (-80)); new 50 370 (F64.of_Z (-90))] [])
    as (Heq & _); [constructor|]. rewrite <- Heq. split; vm_compute; reflexivity.
Defined.

(** A receiver is deaf while it transmits: no signal is stronger than its own. *)
Lemma deaf_while_transmitting x a start air :
  (forall s, Acquisition.capture_threshold_db a <> S754_infinity s) -> rssi_dbm x <> F64.infinity ->
  overlaps x (own_transmission start air) = true ->
  F64.ltb (F64.of_Z start) (Acquisition.lock_window a x).2 = true ->
  F64.ltb (Acquisition.lock_window a x).1 (F64.of_Z (end_ms (own_transmission start air))) = true ->
  effect x a (own_transmission start air) = Reception.NoLock.
Proof.
  intros Ha Hx Ho H1 H2. unfold effect. rewrite Ho. cbn [negb orb rssi_dbm own_transmission start_ms].
  assert (F64.leb (Acquisition.capture_threshold_db a) (F64.sub (rssi_dbm x) F64.infinity) = false) as ->.
  { destruct (rssi_dbm x) as [|[]| |]; try done; destruct (Acquisition.capture_threshold_db a) as [|sg| |]; try done; by destruct (Ha sg). }
  cbv zeta. by rewrite H1, H2.
Qed.
End medium.
