(* ===== verification/SimScenario.v ===== *)
(** The fleet simulator (src/src/sim/scenario.rs): a whole endorsement judged from one
    observer's seat, over the shared medium, with retries and the duty cycle.

    [Run] is the state one execution mutates; what it borrows -- the scenario, the
    frames, the manifest and the case's hash -- are the section's variables. A
    run that panics is [None]. Member indices are naturals, times and airtimes u64
    milliseconds as [Z]. *)
From S2P Require Import Prelude Float Time Contracts Quorum Budget Radio Crypto Codec.
From S2P Require Import Channel Rng Phy Medium.

Definition OBSERVER : nat := 0.
Definition FADING_STREAM : Z := 0x9E3779B97F4A7C15.

Module Access.
Inductive t := Random | Slotted (guard_ms : Z).
#[global] Instance t_eq_dec : EqDecision t.
Proof. solve_decision. Defined.
End Access.

Module Acknowledgement.
Inductive t := Assumed | NoAck.
#[global] Instance t_eq_dec : EqDecision t.
Proof. solve_decision. Defined.
End Acknowledgement.

Module Outcome.
Inductive t :=
| Decoded | OwnTransmission | Rejected | Collided | TooWeak | Unreachable | LostToResidualNoise | DutyCycleBlocked.
#[global] Instance t_eq_dec : EqDecision t.
Proof. solve_decision. Defined.
Definition went_on_air (o : t) : bool := match o with DutyCycleBlocked => false | _ => true end.
End Outcome.

Module TraceEntry.
Record t := mk {
  round : nat;
  sender : nat;
  start_ms : Z;
  airtime_ms : Z;
  rssi_dbm : f64;
  outcome : Outcome.t;
}.
End TraceEntry.

Module Report.
Record t := mk {
  endorsed : bool;
  binding_supporters : Z;
  min_signers : Z;
  frames_sent : Z;
  rejected_frames : Z;
  collided_frames : Z;
  too_weak_frames : Z;
  duty_cycle_blocked : Z;
  airtime_ms : Z;
  timeline : list TraceEntry.t;
}.
End Report.

Module Scenario.
Record t := mk {
  fleet : nat;
  loss : f64;
  seed : Z;
  topology : Topology.t;
  silent : nat;
  forgers : nat;
  spacing_m : option f64;
  prior_airtime_ms : Z;
  access : Access.t;
  acknowledgement : Acknowledgement.t;
}.
Definition MAX_RETRIES : nat := 5.
Definition CONTENTION_WINDOW_MS : Z := 30000.
Definition RICIAN_K_DB : f64 := F64.of_Z 6.
Definition NOMINAL_RSSI_DBM : f64 := F64.of_Z (-80).

Definition new (fleet : nat) : t :=
  mk (fleet `max` 1) (F64.of_Z 0) 1 Topology.FullyConnected 0 0 None 0 Access.Random Acknowledgement.Assumed.
Definition with_loss (s : t) (loss : f64) : t :=
  mk (fleet s) (F64.clamp loss (F64.of_Z 0) (F64.of_Z 1)) (seed s) (topology s) (silent s) (forgers s) (spacing_m s)
    (prior_airtime_ms s) (access s) (acknowledgement s).
Definition with_seed (s : t) (seed : Z) : t :=
  mk (fleet s) (loss s) seed (topology s) (silent s) (forgers s) (spacing_m s) (prior_airtime_ms s) (access s)
    (acknowledgement s).
Definition with_topology (s : t) (topology : Topology.t) : t :=
  mk (fleet s) (loss s) (seed s) topology (silent s) (forgers s) (spacing_m s) (prior_airtime_ms s) (access s)
    (acknowledgement s).
Definition with_silent (s : t) (silent : nat) : t :=
  mk (fleet s) (loss s) (seed s) (topology s) silent (forgers s) (spacing_m s) (prior_airtime_ms s) (access s)
    (acknowledgement s).
Definition with_forgers (s : t) (forgers : nat) : t :=
  mk (fleet s) (loss s) (seed s) (topology s) (silent s) forgers (spacing_m s) (prior_airtime_ms s) (access s)
    (acknowledgement s).
Definition with_spacing_m (s : t) (spacing_m : f64) : t :=
  mk (fleet s) (loss s) (seed s) (topology s) (silent s) (forgers s) (Some (F64.max spacing_m (F64.of_Z 0)))
    (prior_airtime_ms s) (access s) (acknowledgement s).
Definition with_prior_airtime_ms (s : t) (prior_airtime_ms : Z) : t :=
  mk (fleet s) (loss s) (seed s) (topology s) (silent s) (forgers s) (spacing_m s) prior_airtime_ms (access s)
    (acknowledgement s).
Definition with_slots (s : t) (guard_ms : Z) : t :=
  mk (fleet s) (loss s) (seed s) (topology s) (silent s) (forgers s) (spacing_m s) (prior_airtime_ms s)
    (Access.Slotted guard_ms) (acknowledgement s).
Definition without_acknowledgement (s : t) : t :=
  mk (fleet s) (loss s) (seed s) (topology s) (silent s) (forgers s) (spacing_m s) (prior_airtime_ms s) (access s)
    Acknowledgement.NoAck.

Definition window_ms (round : nat) : Z :=
  let shift := match round with 0%nat => 0 | 1%nat => 1 | 2%nat => 2 | _ => 3 end in
  Z.shiftl CONTENTION_WINDOW_MS shift.
End Scenario.

(** The mission group key, a member's name and its signing seed. *)
Definition group_key : GroupKey.t := GroupKey.from_bytes (replicate 32 0x5a).
Definition member_id (index : nat) : str := lit "n" ++ decimal (Z.of_nat index).
Definition seed_for (index : nat) : bytes := be_bytes 8 (Z.of_nat index + 1) ++ replicate 24 0.

(** * Running counts *)

Module Tally.
Record t := mk {
  on_air : list (nat * Transmission.t);
  timeline : list TraceEntry.t;
  frames_sent : Z;
  rejected : Z;
  collided : Z;
  too_weak : Z;
  duty_cycle_blocked : Z;
  airtime_ms : Z;
}.
Definition default : t := mk [] [] 0 0 0 0 0 0.
Definition set_on_air (x : t) (on_air : list (nat * Transmission.t)) : t :=
  mk on_air (timeline x) (frames_sent x) (rejected x) (collided x) (too_weak x) (duty_cycle_blocked x) (airtime_ms x).
Definition bump_rejected (x : t) : t :=
  mk (on_air x) (timeline x) (frames_sent x) (rejected x + 1) (collided x) (too_weak x) (duty_cycle_blocked x)
    (airtime_ms x).
Definition bump_collided (x : t) : t :=
  mk (on_air x) (timeline x) (frames_sent x) (rejected x) (collided x + 1) (too_weak x) (duty_cycle_blocked x)
    (airtime_ms x).
Definition bump_too_weak (x : t) : t :=
  mk (on_air x) (timeline x) (frames_sent x) (rejected x) (collided x) (too_weak x + 1) (duty_cycle_blocked x)
    (airtime_ms x).

Definition record (x : t) (round sender : nat) (start_ms air_ms : Z) (rssi_dbm : f64) (outcome : Outcome.t) : t :=
  mk (on_air x) (timeline x ++ [TraceEntry.mk round sender start_ms air_ms rssi_dbm outcome]) (frames_sent x)
    (rejected x) (collided x) (too_weak x) (duty_cycle_blocked x) (airtime_ms x).
Definition charge (x : t) (used : list Z) (node : nat) (air : Z) (round : nat) : t * list Z * bool :=
  if negb (duty_cycle_ok (nth node used 0) air) then
    let x := mk (on_air x) (timeline x) (frames_sent x) (rejected x) (collided x) (too_weak x)
               (duty_cycle_blocked x + 1) (airtime_ms x) in
    (record x round node 0 0 F64.neg_infinity Outcome.DutyCycleBlocked, used, false)
  else
    (mk (on_air x) (timeline x) (frames_sent x + 1) (rejected x) (collided x) (too_weak x) (duty_cycle_blocked x)
       (airtime_ms x + air),
     <[node := nth node used 0 + air]> used, true).
End Tally.

(** * One execution *)

Module Run.
Record t := mk {
  rng : Rng.t;
  fading : RicianFading.t;
  tally : Tally.t;
  used_airtime : list Z;
  verified : list str;
  elapsed_ms : Z;
}.
Definition set_rng (r : t) (rng : Rng.t) : t :=
  mk rng (fading r) (tally r) (used_airtime r) (verified r) (elapsed_ms r).
Definition set_fading (r : t) (fading : RicianFading.t) : t :=
  mk (rng r) fading (tally r) (used_airtime r) (verified r) (elapsed_ms r).
Definition set_tally (r : t) (tally : Tally.t) : t :=
  mk (rng r) (fading r) tally (used_airtime r) (verified r) (elapsed_ms r).
Definition set_used (r : t) (used : list Z) : t :=
  mk (rng r) (fading r) (tally r) used (verified r) (elapsed_ms r).
Definition set_verified (r : t) (verified : list str) : t :=
  mk (rng r) (fading r) (tally r) (used_airtime r) verified (elapsed_ms r).
Definition set_elapsed (r : t) (elapsed_ms : Z) : t :=
  mk (rng r) (fading r) (tally r) (used_airtime r) (verified r) elapsed_ms.

Definition new `{Libm} (s : Scenario.t) : t :=
  mk (Rng.new (Scenario.seed s))
     (RicianFading.new (Z.lxor (Scenario.seed s) FADING_STREAM) Scenario.RICIAN_K_DB)
     Tally.default (replicate (Scenario.fleet s) (Scenario.prior_airtime_ms s)) [] 0.

Section run.
Context `{Digest, Ed25519, Aead, Serde SignedCompactEnvelope.t, Libm}.
Context (scenario : Scenario.t) (content_hash : bytes) (frames : list bytes) (manifest : list VerifyingKey.t).

(** [airtime_ms(self.frames[sender].len())]. *)
Definition air_of (sender : nat) : Z := airtime_ms (len (nth sender frames [])).

Definition window_for (round : nat) : Z :=
  match Scenario.access scenario with
  | Access.Random => Scenario.window_ms round
  | Access.Slotted guard_ms => (air_of OBSERVER + guard_ms) * Z.of_nat (Scenario.fleet scenario)
  end.
Definition start_for (r : t) (sender : nat) (air window : Z) : t * Z :=
  match Scenario.access scenario with
  | Access.Random => let '(g, offset) := Rng.below (rng r) window in (set_rng r g, elapsed_ms r + offset)
  | Access.Slotted guard_ms => (r, elapsed_ms r + Z.of_nat sender * (air + guard_ms))
  end.

(** Verifying what arrived. *)
Definition reject (r : t) : t * Outcome.t := (set_tally r (Tally.bump_rejected (tally r)), Outcome.Rejected).
Definition accept (r : t) (sender : nat) : t * Outcome.t :=
  match open_frame group_key (nth sender frames []) with
  | Err _ => reject r
  | Ok (_, _, plain) =>
      match decode_compact plain with
      | Err _ => reject r
      | Ok received =>
          let claimed := Z.to_nat (CompactEnvelope.author_index (SignedCompactEnvelope.envelope received)) in
          match manifest !! claimed with
          | None => reject r
          | Some key =>
              if negb (is_ok (SignedCompactEnvelope.verify received key content_hash)) then reject r
              else
                let id := member_id claimed in
                (if bool_decide (id ∈ verified r) then r else set_verified r (verified r ++ [id]), Outcome.Decoded)
          end
      end
  end.

Definition rssi_at_observer (r : t) (sender : nat) : t * f64 :=
  match Scenario.spacing_m scenario with
  | None => (r, Scenario.NOMINAL_RSSI_DBM)
  | Some spacing =>
      let distance := F64.mul spacing (F64.of_Z (Z.of_nat sender)) in
      let '(fading, fade) := RicianFading.sample_db (fading r) in
      (set_fading r fading, F64.add (rssi_dbm (Link.new distance) TX_POWER_DBM) fade)
  end.

(** [charge] on the run's own tally and meters. *)
Definition charge (r : t) (node : nat) (air : Z) (round : nat) : t * bool :=
  let '(x, used, charged) := Tally.charge (tally r) (used_airtime r) node air round in
  (set_used (set_tally r x) used, charged).
Definition record (r : t) (round sender : nat) (start air : Z) (rssi : f64) (outcome : Outcome.t) : t :=
  set_tally r (Tally.record (tally r) round sender start air rssi outcome).

Definition observer_answers (r : t) (window : Z) : t :=
  if negb (Scenario.silent scenario =? 0)%nat then r
  else
    let air := air_of OBSERVER in
    let '(r, charged) := charge r OBSERVER air 0 in
    let '(r, start) := if charged then start_for r OBSERVER air window else (r, 0) in
    let r := if charged
             then set_tally r (Tally.set_on_air (tally r)
                    (Tally.on_air (tally r) ++ [(OBSERVER, Transmission.own_transmission start air)]))
             else r in
    let '(r, verdict) := accept r OBSERVER in
    if charged then
      let outcome := if bool_decide (verdict = Outcome.Rejected) then Outcome.Rejected else Outcome.OwnTransmission in
      record r 0 OBSERVER start air F64.infinity outcome
    else r.

(** The loop of [schedule] over the members still to be heard. *)
Fixpoint schedule_loop (round : nat) (window : Z) (pending : list nat) (r : t)
    (on_air : list (nat * Transmission.t)) (retry : list nat) : t * list (nat * Transmission.t) * list nat :=
  match pending with
  | [] => (r, on_air, retry)
  | sender :: pending =>
      let air := air_of sender in
      let '(r, charged) := charge r sender air round in
      if negb charged then schedule_loop round window pending r on_air retry
      else
        let '(r, start) := start_for r sender air window in
        if Topology.reaches (Scenario.topology scenario) sender OBSERVER (Scenario.fleet scenario) then
          let '(r, rssi) := rssi_at_observer r sender in
          schedule_loop round window pending r (on_air ++ [(sender, Transmission.new start air rssi)]) retry
        else
          schedule_loop round window pending
            (record r round sender start air F64.neg_infinity Outcome.Unreachable) on_air (retry ++ [sender])
  end.
Definition schedule (round : nat) (window : Z) (pending : list nat) (r : t) (retry : list nat)
    : t * list (nat * Transmission.t) * list nat :=
  let on_air := Tally.on_air (tally r) in
  schedule_loop round window pending (set_tally r (Tally.set_on_air (tally r) [])) on_air retry.

(** What the observer made of one frame, and whether its sender tries again. *)
Definition hear (r : t) (sender : nat) (reception : Reception.t) : t * Outcome.t * bool :=
  match reception with
  | Reception.NoLock | Reception.HeaderError | Reception.CrcError =>
      (set_tally r (Tally.bump_collided (tally r)), Outcome.Collided, true)
  | Reception.TooWeak => (set_tally r (Tally.bump_too_weak (tally r)), Outcome.TooWeak, true)
  | Reception.Decoded =>
      let '(g, u) := Rng.next_f64 (rng r) in
      let r := set_rng r g in
      if F64.ltb u (Scenario.loss scenario) then (r, Outcome.LostToResidualNoise, true)
      else
        let '(r, verdict) := accept r sender in
        (r, verdict, bool_decide (Scenario.acknowledgement scenario = Acknowledgement.NoAck))
  end.

(** The loop of [deliver]: [index] counts the frames already settled. *)
Fixpoint deliver_loop (round : nat) (channel : list Transmission.t) (index : nat)
    (on_air : list (nat * Transmission.t)) (r : t) (retry : list nat) : t * list nat :=
  match on_air with
  | [] => (r, retry)
  | (sender, frame) :: on_air =>
      if (sender =? OBSERVER)%nat then deliver_loop round channel (S index) on_air r retry
      else
        let '(r, outcome, again) := hear r sender (receive frame (delete index channel)) in
        deliver_loop round channel (S index) on_air
          (record r round sender (Transmission.start_ms frame) (Transmission.airtime_ms frame)
             (Transmission.rssi_dbm frame) outcome)
          (if again then retry ++ [sender] else retry)
  end.
Definition deliver (round : nat) (on_air : list (nat * Transmission.t)) (r : t) (retry : list nat) : t * list nat :=
  deliver_loop round (on_air.*2) 0 on_air r retry.

(** [iter().map(end_ms).max().unwrap_or(..)]. *)
Definition tail_of (on_air : list (nat * Transmission.t)) (otherwise : Z) : Z :=
  match Transmission.end_ms <$> on_air.*2 with
  | [] => otherwise
  | e :: es => foldl Z.max e es
  end.

Definition round_ (r : t) (round : nat) (pending : list nat) : t * list nat :=
  let window := window_for round in
  let r := if (round =? 0)%nat then observer_answers r window else r in
  let '(r, on_air, retry) := schedule round window pending r [] in
  let '(r, retry) := deliver round on_air r retry in
  let tail := tail_of on_air (elapsed_ms r) in
  (set_elapsed r (Z.max tail (elapsed_ms r + window)), retry).

(** The rounds left, until nobody is waiting. *)
Fixpoint rounds (attempts round : nat) (r : t) (pending : list nat) : t :=
  match attempts, pending with
  | 0%nat, _ | _, [] => r
  | S attempts, _ :: _ => let '(r, pending) := round_ r round pending in rounds attempts (S round) r pending
  end.
End run.
End Run.

(** * The scenario *)

Section scenario.
Context `{Digest, Ed25519, Aead, Serde SignedCompactEnvelope.t, Libm}.

Definition sim_subject : option Subject.t :=
  match Subject.new (lit "sim") (lit "evt-1") 0 (replicate 32 0x11) (Timestamp.from_secs 0) with Ok s => Some s | Err _ => None end.
Definition keys_of (fleet : nat) : list SigningKey.t := (fun i => SigningKey.from_seed (seed_for i)) <$> seq 0 fleet.
Definition manifest_of (fleet : nat) : list VerifyingKey.t := verifying_key <$> keys_of fleet.
Definition policy_for (fleet : nat) : result PolicyError Policy :=
  Quorum.new ((fun i => (member_id i, Competence.FULL)) <$> seq 0 fleet).

(** [(silent..silent + forgers).contains(&sender)]. *)
Definition is_forger (s : Scenario.t) (sender : nat) : bool :=
  (Scenario.silent s <=? sender)%nat && (sender <? Scenario.silent s + Scenario.forgers s)%nat.
(** [u16::try_from(sender).unwrap_or(u16::MAX)]. *)
Definition author_of (sender : nat) : Z := Z.min (Z.of_nat sender) U16_MAX.
Definition envelope_for (subject : Subject.t) (sender : nat) : CompactEnvelope.t :=
  CompactEnvelope.new 1 1 0 (Subject.content_hash subject) (Timestamp.as_secs (Subject.started_at subject)) (author_of sender) 3 1
    (Z.of_nat sender).
Definition frame_for (s : Scenario.t) (sender : nat) (subject : Subject.t) (keys : list SigningKey.t) : option bytes :=
  signing ← keys !! (if is_forger s sender then (sender + 1) `mod` Scenario.fleet s else sender)%nat;
  match encode_compact (sign_compact (envelope_for subject sender) signing (Subject.content_hash subject)) with
  | Err _ => None
  | Ok signed =>
      match seal_frame group_key (author_of sender) (Z.of_nat sender) signed with Err _ => None | Ok f => Some f end
  end.

(** Everyone who will answer besides the observer. *)
Definition answerers (s : Scenario.t) : list nat :=
  filter (fun i => i <> OBSERVER) (seq (Scenario.silent s) (Scenario.fleet s - Scenario.silent s)).

Definition report_of (policy : Policy) (run : Run.t) : option Report.t :=
  match evaluate policy (Run.verified run) with
  | Err _ => None
  | Ok outcome =>
      let x := Run.tally run in
      Some (Report.mk (approved outcome) (len (Run.verified run)) (min_signers policy) (Tally.frames_sent x)
              (Tally.rejected x) (Tally.collided x) (Tally.too_weak x) (Tally.duty_cycle_blocked x)
              (Tally.airtime_ms x) (Tally.timeline x))
  end.
(** The state [run] ends in, given the frames every member would send. *)
Definition execution (s : Scenario.t) (subject : Subject.t) (frames : list bytes) : Run.t :=
  Run.rounds s (Subject.content_hash subject) frames (manifest_of (Scenario.fleet s)) Scenario.MAX_RETRIES 0
    (Run.new s) (answerers s).
Definition run (s : Scenario.t) : option Report.t :=
  match policy_for (Scenario.fleet s) with
  | Err _ => None
  | Ok policy =>
      subject ← sim_subject;
      frames ← mapM (fun sender => frame_for s sender subject (keys_of (Scenario.fleet s))) (seq 0 (Scenario.fleet s));
      report_of policy (execution s subject frames)
  end.
End scenario.
