(* ===== verification/SimLedger.v ===== *)
(** What a simulated endorsement counts: every transmission is charged once, recorded once
    and settled once, no member keys up twice in a round, and nobody exceeds its hour. *)
From S2P Require Import Prelude Float Time Contracts Quorum Budget Radio Crypto Codec WireDemo.
From S2P Require Import Channel Rng Phy Medium SimScenario.
Import Run.

(** * The books *)

Definition count (o : Outcome.t) (tl : list TraceEntry.t) : Z := len (filter (fun e => TraceEntry.outcome e = o) tl).
Definition keys (tl : list TraceEntry.t) : list (nat * nat) := (fun e => (TraceEntry.round e, TraceEntry.sender e)) <$> tl.
(** Who held the channel for how long. *)
Definition on_channel (tl : list TraceEntry.t) : list (nat * Z) :=
  (fun e => (TraceEntry.sender e, TraceEntry.airtime_ms e))
    <$> filter (fun e => Outcome.went_on_air (TraceEntry.outcome e) = true) tl.
(** The frames in flight that [deliver] has still to settle. *)
Definition settles (w : nat * Transmission.t) : Prop := w.1 <> OBSERVER.
#[local] Instance settles_dec w : Decision (settles w).
Proof. unfold settles. apply _. Defined.
Definition owed (ws : list (nat * Transmission.t)) : list (nat * Z) :=
  (fun w => (w.1, Transmission.airtime_ms w.2)) <$> filter settles ws.
Definition spent (i : nat) (bill : list (nat * Z)) : Z := zsum (snd <$> filter (fun p => p.1 = i) bill).

#[global] Instance spent_perm i : Proper ((≡ₚ) ==> (=)) (spent i).
Proof. intros a b Hab. unfold spent. by rewrite Hab. Qed.
Lemma spent_app i a b : spent i (a ++ b) = spent i a + spent i b.
Proof. unfold spent. by rewrite filter_app, fmap_app, zsum_app. Qed.
Lemma spent_one i j a : spent i [(j, a)] = if decide (j = i) then a else 0.
Proof.
  unfold spent. rewrite filter_cons. cbn [fst]. destruct (decide (j = i)); [cbn; lia|done].
Qed.
Lemma count_app o a b : count o (a ++ b) = count o a + count o b.
Proof. unfold count, len. rewrite filter_app, length_app. lia. Qed.
Lemma count_one o e : count o [e] = if decide (TraceEntry.outcome e = o) then 1 else 0.
Proof. unfold count. rewrite filter_cons. by case_decide. Qed.
Lemma on_channel_app a b : on_channel (a ++ b) = on_channel a ++ on_channel b.
Proof. unfold on_channel. by rewrite filter_app, fmap_app. Qed.
Lemma on_channel_one e : on_channel [e]
  = if Outcome.went_on_air (TraceEntry.outcome e) then [(TraceEntry.sender e, TraceEntry.airtime_ms e)] else [].
Proof. unfold on_channel. rewrite filter_cons. by destruct (Outcome.went_on_air _). Qed.
Lemma owed_app a b : owed (a ++ b) = owed a ++ owed b.
Proof. unfold owed. by rewrite filter_app, fmap_app. Qed.

(** The counters of a tally agree with its timeline and with the frames in flight;
    [prior] is what every node had spent before, [slack] a rejected vote that was never
    sent. *)
Record balanced (prior slack : Z) (x : Tally.t) (used : list Z) (flight : list (nat * Z)) : Prop := {
  b_sent : Tally.frames_sent x = len (on_channel (Tally.timeline x) ++ flight);
  b_air : Tally.airtime_ms x = zsum (snd <$> on_channel (Tally.timeline x) ++ flight);
  b_used i : (i < length used)%nat -> nth i used 0 = prior + spent i (on_channel (Tally.timeline x) ++ flight);
  b_legal i : (i < length used)%nat -> nth i used 0 <= Z.max prior DUTY_CYCLE_BUDGET_MS;
  b_blocked : Tally.duty_cycle_blocked x = count Outcome.DutyCycleBlocked (Tally.timeline x);
  b_collided : Tally.collided x = count Outcome.Collided (Tally.timeline x);
  b_weak : Tally.too_weak x = count Outcome.TooWeak (Tally.timeline x);
  b_rejected : Tally.rejected x = count Outcome.Rejected (Tally.timeline x) + slack;
}.

Section books.
Context (prior : Z).

Lemma balanced_perm slack x used f f' : f ≡ₚ f' -> balanced prior slack x used f -> balanced prior slack x used f'.
Proof.
  intros Hp []. assert (on_channel (Tally.timeline x) ++ f ≡ₚ on_channel (Tally.timeline x) ++ f') as Hpp by (by rewrite Hp).
  constructor; try done.
  - rewrite b_sent0. unfold len. by rewrite Hpp.
  - by rewrite b_air0, Hpp.
  - intros i Hi. by rewrite b_used0, Hpp.
Qed.

(** Charging: refused and recorded, or billed and in flight. *)
Lemma charge_balanced slack x used flight node air round x' used' charged :
  balanced prior slack x used flight -> (node < length used)%nat ->
  Tally.charge x used node air round = (x', used', charged) ->
  length used' = length used /\ Tally.on_air x' = Tally.on_air x
  /\ if charged
     then Tally.timeline x' = Tally.timeline x /\ nth node used 0 + air <= DUTY_CYCLE_BUDGET_MS
          /\ balanced prior slack x' used' (flight ++ [(node, air)])
     else Tally.timeline x' = Tally.timeline x ++ [TraceEntry.mk round node 0 0 F64.neg_infinity Outcome.DutyCycleBlocked]
          /\ DUTY_CYCLE_BUDGET_MS < nth node used 0 + air /\ balanced prior slack x' used' flight.
Proof.
  intros [] Hn. unfold Tally.charge. destruct (duty_cycle_ok (nth node used 0) air) eqn:Hok; cbn [negb]; intros [= <- <- <-].
  - apply duty_cycle_ok_spec in Hok. rewrite length_insert. split; [done|]. split; [done|]. split; [done|].
    split; [done|]. constructor; cbn [Tally.frames_sent Tally.timeline Tally.airtime_ms Tally.collided Tally.too_weak
      Tally.duty_cycle_blocked Tally.rejected]; try done.
    + rewrite (assoc_L (++)). unfold len in *. rewrite length_app. cbn [length]. lia.
    + rewrite (assoc_L (++)), fmap_app, zsum_app, b_air0. cbn. lia.
    + rewrite length_insert. intros i Hi. rewrite (assoc_L (++)), spent_app, spent_one.
      destruct (decide (node = i)) as [<-|Hne].
      * rewrite (nth_lookup (<[_:=_]> _)), list_lookup_insert_eq by done. cbn. rewrite b_used0 by done. lia.
      * rewrite (nth_lookup (<[_:=_]> _)), list_lookup_insert_ne, <- nth_lookup by done. rewrite b_used0 by done. lia.
    + rewrite length_insert. intros i Hi. destruct (decide (node = i)) as [<-|Hne].
      * rewrite (nth_lookup (<[_:=_]> _)), list_lookup_insert_eq by done. cbn. lia.
      * rewrite (nth_lookup (<[_:=_]> _)), list_lookup_insert_ne, <- nth_lookup by done. by apply b_legal0.
  - assert (DUTY_CYCLE_BUDGET_MS < nth node used 0 + air) as Hover.
    { apply Z.lt_nge. rewrite <- duty_cycle_ok_spec, Hok. done. }
    split; [done|]. split; [done|]. split; [done|]. split; [done|].
    constructor; cbn [Tally.record Tally.frames_sent Tally.timeline Tally.airtime_ms Tally.collided Tally.too_weak
      Tally.duty_cycle_blocked Tally.rejected]; rewrite ?on_channel_app, ?on_channel_one, ?count_app, ?count_one;
      cbn [TraceEntry.outcome Outcome.went_on_air]; rewrite ?app_nil_r; try done.
    all: repeat case_decide; (done || lia).
Qed.

(** Recording a frame in flight settles it; [bumped] says which counter its outcome moves. *)
Definition bumped (o : Outcome.t) (x x' : Tally.t) : Prop :=
  Tally.timeline x' = Tally.timeline x /\ Tally.frames_sent x' = Tally.frames_sent x
  /\ Tally.airtime_ms x' = Tally.airtime_ms x /\ Tally.duty_cycle_blocked x' = Tally.duty_cycle_blocked x
  /\ Tally.collided x' = Tally.collided x + (if decide (o = Outcome.Collided) then 1 else 0)
  /\ Tally.too_weak x' = Tally.too_weak x + (if decide (o = Outcome.TooWeak) then 1 else 0)
  /\ Tally.rejected x' = Tally.rejected x + (if decide (o = Outcome.Rejected) then 1 else 0)
  /\ Tally.on_air x' = Tally.on_air x.
Lemma record_balanced slack x x' used flight round sender start air rssi o :
  Outcome.went_on_air o = true -> bumped o x x' -> balanced prior slack x used ((sender, air) :: flight) ->
  balanced prior slack (Tally.record x' round sender start air rssi o) used flight.
Proof.
  intros Ho (Ht & Hs & Ha & Hb & Hc & Hw & Hr & _) [].
  assert (forall f, on_channel (Tally.timeline x ++ [TraceEntry.mk round sender start air rssi o]) ++ f
            ≡ₚ on_channel (Tally.timeline x) ++ (sender, air) :: f) as Hbill.
  { intros f. rewrite on_channel_app, on_channel_one. cbn [TraceEntry.outcome TraceEntry.sender TraceEntry.airtime_ms].
    rewrite Ho, <- (assoc_L (++)). done. }
  assert (o <> Outcome.DutyCycleBlocked) by (intros ->; done).
  constructor; cbn [Tally.record Tally.frames_sent Tally.timeline Tally.airtime_ms Tally.collided Tally.too_weak
      Tally.duty_cycle_blocked Tally.rejected]; rewrite ?Ht, ?count_app, ?count_one; cbn [TraceEntry.outcome].
  - rewrite Hs, b_sent0. unfold len. by rewrite Hbill.
  - by rewrite Ha, b_air0, Hbill.
  - intros i Hi. by rewrite b_used0, Hbill.
  - done.
  - rewrite decide_False by done. lia.
  - rewrite Hc, b_collided0. by repeat case_decide.
  - rewrite Hw, b_weak0. by repeat case_decide.
  - rewrite Hr, b_rejected0. repeat case_decide; lia.
Qed.
End books.

(** * What each step leaves alone *)

Section steps.
Context `{Dg : Digest, Ed : Ed25519, Ae : Aead, Sd : Serde SignedCompactEnvelope.t, Lm : Libm}.
Context (sc : Scenario.t) (hash : bytes) (frames : list bytes) (manifest : list VerifyingKey.t).
Notation air := (air_of frames).
#[local] Opaque air_of.

(** Same books, same votes, same time: only the generators moved. *)
Definition drew (r r' : Run.t) : Prop :=
  tally r' = tally r /\ used_airtime r' = used_airtime r /\ verified r' = verified r /\ elapsed_ms r' = elapsed_ms r.

Lemma start_for_drew r s a w r' start : start_for sc r s a w = (r', start) -> drew r r'.
Proof.
  unfold start_for. destruct (Scenario.access sc); [|by intros [= <- <-]].
  destruct (Rng.below (rng r) w) as [g o]. by intros [= <- <-].
Qed.
Lemma rssi_drew r s r' v : rssi_at_observer sc r s = (r', v) -> drew r r'.
Proof.
  unfold rssi_at_observer. destruct (Scenario.spacing_m sc); [|by intros [= <- <-]].
  destruct (RicianFading.sample_db _) as [f x]. by intros [= <- <-].
Qed.

(** The frame of [s] proves that member [c] signed for the case. *)
Definition vouches (s c : nat) : Prop := exists a q plain received key,
  open_frame group_key (nth s frames []) = Ok (a, q, plain) /\ decode_compact plain = Ok received
  /\ c = Z.to_nat (CompactEnvelope.author_index (SignedCompactEnvelope.envelope received))
  /\ manifest !! c = Some key /\ SignedCompactEnvelope.verify received key hash = Ok tt.

Lemma accept_cases r s r' o : accept hash frames manifest r s = (r', o) ->
  bumped o (tally r) (tally r') /\ used_airtime r' = used_airtime r /\ elapsed_ms r' = elapsed_ms r
  /\ ((o = Outcome.Rejected /\ verified r' = verified r /\ forall c, ~ vouches s c)
      \/ (o = Outcome.Decoded /\ exists c, vouches s c
          /\ verified r' = if bool_decide (member_id c ∈ verified r) then verified r else verified r ++ [member_id c])).
Proof.
  assert (forall q, (forall c, ~ vouches s c) -> q = reject r -> q = (r', o) ->
    bumped o (tally r) (tally r') /\ used_airtime r' = used_airtime r /\ elapsed_ms r' = elapsed_ms r
    /\ o = Outcome.Rejected /\ verified r' = verified r /\ forall c, ~ vouches s c) as Hrej.
  { intros q Hno -> [= <- <-]. unfold bumped. cbn. repeat case_decide; split_and!; (done || lia). }
  intros Hacc. unfold accept in Hacc. destruct (open_frame group_key (nth s frames [])) as [[[a q] plain]|] eqn:Hopen.
  2: { destruct (Hrej _ ltac:(intros c (?&?&?&?&?&Ho&_); congruence) eq_refl Hacc) as (?&?&?&?&?&?). split_and!; auto. }
  destruct (decode_compact plain) as [x|] eqn:Hdec.
  2: { destruct (Hrej _ ltac:(intros c (?&?&?&?&?&Ho&Hd&_); congruence) eq_refl Hacc) as (?&?&?&?&?&?). split_and!; auto. }
  cbv zeta in Hacc.
  set (c := Z.to_nat (CompactEnvelope.author_index (SignedCompactEnvelope.envelope x))) in *.
  destruct (manifest !! c) as [key|] eqn:Hkey.
  2: { destruct (Hrej _ ltac:(intros c' (?&?&?&?&?&Ho&Hd&->&Hm&_); simplify_eq; unfold c in Hkey; congruence) eq_refl Hacc)
         as (?&?&?&?&?&?). split_and!; auto. }
  destruct (SignedCompactEnvelope.verify x key hash) as [[]|] eqn:Hver; cbn [is_ok negb] in Hacc.
  2: { destruct (Hrej _ ltac:(intros c' (?&?&?&?&?&Ho&Hd&->&Hm&Hv); simplify_eq; unfold c in Hkey; simplify_eq; congruence) eq_refl Hacc)
         as (?&?&?&?&?&?). split_and!; auto. }
  assert (vouches s c) as Hv by (exists a, q, plain, x, key; split_and!; done).
  assert (bumped Outcome.Decoded (tally r) (tally r)) as Hb.
  { unfold bumped. repeat case_decide; split_and!; (done || lia). }
  injection Hacc as <- <-. split; [by case_bool_decide|]. split; [by case_bool_decide|]. split; [by case_bool_decide|].
  right. split; [done|]. exists c. split; [done|]. by case_bool_decide.
Qed.

Lemma hear_cases r s rec r' o again : hear sc hash frames manifest r s rec = (r', o, again) ->
  bumped o (tally r) (tally r') /\ Outcome.went_on_air o = true
  /\ used_airtime r' = used_airtime r /\ elapsed_ms r' = elapsed_ms r.
Proof.
  destruct rec; cbn [hear].
  2-5: intros [= <- <- <-]; cbn; unfold bumped; repeat case_decide; split_and!; cbn; (done || lia).
  destruct (Rng.next_f64 (rng r)) as [g u]. destruct (F64.ltb u _).
  - intros [= <- <- <-]. cbn. unfold bumped. repeat case_decide; split_and!; (done || lia).
  - destruct (accept hash frames manifest (set_rng r g) s) as [r1 v] eqn:Hacc. intros [= <- <- <-].
    apply accept_cases in Hacc as (Hb & Hu & He & Hv). split; [done|]. split; [|done].
    by destruct Hv as [[-> _]|[-> _]].
Qed.

(** * A round's bookkeeping *)

Definition senders (ws : list (nat * Transmission.t)) : list nat := (filter settles ws).*1.
(** A member that will speak: in the fleet, not silent, and not the observer. *)
Definition answers (i : nat) : Prop := (Scenario.silent sc <= i < Scenario.fleet sc)%nat /\ i <> OBSERVER.

Record going (slack : Z) (round : nat) (pending : list nat) (r : Run.t) (ws : list (nat * Transmission.t))
    (retry : list nat) : Prop := {
  g_len : length (used_airtime r) = Scenario.fleet sc;
  g_air : Tally.on_air (tally r) = [];
  g_books : balanced (Scenario.prior_airtime_ms sc) slack (tally r) (used_airtime r) (owed ws);
  g_keys : NoDup (keys (Tally.timeline (tally r)));
  g_new : Forall (fun s => (round, s) ∉ keys (Tally.timeline (tally r))) (pending ++ senders ws);
  g_past : Forall (fun e => TraceEntry.round e <= round)%nat (Tally.timeline (tally r));
  g_once : NoDup (pending ++ senders ws ++ retry);
  g_who : Forall answers (pending ++ senders ws ++ retry);
  g_cost : Forall (fun p => p.2 = air p.1) (on_channel (Tally.timeline (tally r)) ++ owed ws);
}.

Lemma keys_app a b : keys (a ++ b) = keys a ++ keys b.
Proof. unfold keys. by rewrite fmap_app. Qed.
Lemma senders_app a b : senders (a ++ b) = senders a ++ senders b.
Proof. unfold senders. by rewrite filter_app, fmap_app. Qed.
Lemma senders_one s f : s <> OBSERVER -> senders [(s, f)] = [s].
Proof. intros. unfold senders. by rewrite filter_cons, decide_True. Qed.
Lemma owed_one s f : s <> OBSERVER -> owed [(s, f)] = [(s, Transmission.airtime_ms f)].
Proof. intros. unfold owed. by rewrite filter_cons, decide_True. Qed.

(** Recording an entry of [s] in this round keeps the timeline's keys apart. *)
Lemma keys_record round s tl e : TraceEntry.round e = round -> TraceEntry.sender e = s ->
  NoDup (keys tl) -> (round, s) ∉ keys tl -> NoDup (keys (tl ++ [e])).
Proof.
  intros <- <- Hnd Hnew. rewrite keys_app. apply NoDup_app. split; [done|]. split; [|apply NoDup_singleton].
  intros k Hk ->%list_elem_of_singleton. done.
Qed.
Lemma new_record round s tl e others : TraceEntry.round e = round -> TraceEntry.sender e = s -> s ∉ others ->
  Forall (fun s => (round, s) ∉ keys tl) others -> Forall (fun s => (round, s) ∉ keys (tl ++ [e])) others.
Proof.
  intros <- <- Hs Hall. apply Forall_forall. intros s' Hs'. rewrite keys_app, elem_of_app.
  rewrite Forall_forall in Hall. intros [Hin|Hin%list_elem_of_singleton]; [by apply (Hall s')|].
  injection Hin as ->. done.
Qed.
Lemma past_record round tl e : (TraceEntry.round e <= round)%nat ->
  Forall (fun e => TraceEntry.round e <= round)%nat tl -> Forall (fun e => TraceEntry.round e <= round)%nat (tl ++ [e]).
Proof. intros. apply Forall_app_2; [done|]. by constructor. Qed.

(** [charge] and the draws around it, in terms of the tally. *)
Lemma run_charge_eq r node a round r' charged : charge r node a round = (r', charged) ->
  Tally.charge (tally r) (used_airtime r) node a round = (tally r', used_airtime r', charged)
  /\ verified r' = verified r /\ elapsed_ms r' = elapsed_ms r.
Proof.
  unfold charge. destruct (Tally.charge _ _ _ _ _) as [[x u] c]. by intros [= <- <-].
Qed.
Lemma going_drew slack round pending r r' ws retry : drew r r' ->
  going slack round pending r ws retry -> going slack round pending r' ws retry.
Proof. intros (Ht & Hu & _) []. constructor; rewrite ?Ht, ?Hu; assumption. Qed.
(** A member whose frame goes up is in flight; [taken] is what it will be entered as. *)
Lemma going_charge slack round s pending r ws retry r' charged :
  going slack round (s :: pending) r ws retry -> charge r s (air s) round = (r', charged) ->
  if charged
  then forall f, Transmission.airtime_ms f = air s -> going slack round pending r' (ws ++ [(s, f)]) retry
  else going slack round pending r' ws retry.
Proof.
  intros [] (Hc & _ & _)%run_charge_eq.
  cbn [app] in g_once0, g_who0, g_new0.
  apply NoDup_cons in g_once0 as [Hs Hnd]. apply Forall_cons in g_who0 as [[Hran Hobs] Hwho]. apply Forall_cons in g_new0 as [Hn Hnew].
  destruct (charge_balanced _ slack _ _ _ s (air s) round _ _ _ g_books0 ltac:(rewrite g_len0; lia) Hc) as (Hl & Hair & Hcase).
  rewrite g_air0 in Hair. destruct charged.
  - destruct Hcase as (Ht & _ & Hb). intros f Hf.
    assert (pending ++ senders (ws ++ [(s, f)]) ++ retry ≡ₚ s :: pending ++ senders ws ++ retry) as Hperm.
    { rewrite senders_app, senders_one by done. solve_Permutation. }
    constructor; rewrite ?Ht, ?Hl, ?owed_app, ?owed_one, ?Hf by done; try assumption.
    + rewrite senders_app, senders_one by done. rewrite app_assoc. apply Forall_app_2; [done|]. by constructor.
    + rewrite Hperm. by apply NoDup_cons_2.
    + rewrite Hperm. apply Forall_cons_2; [by split|assumption].
    + rewrite app_assoc. apply Forall_app_2; [done|]. by constructor.
  - destruct Hcase as (Ht & _ & Hb).
    constructor; rewrite ?Ht, ?Hl; try assumption.
    + by eapply keys_record.
    + eapply new_record; [done|done| |done]. intros Hin. apply Hs. rewrite app_assoc. apply elem_of_app. by left.
    + by apply past_record.
    + by rewrite on_channel_app, on_channel_one, app_nil_r.
Qed.
(** A frame in flight is settled: recorded, and its sender tries again or is done. *)
Lemma going_settle slack round r r' s f ws retry start rssi o (again : bool) :
  s <> OBSERVER -> going slack round [] r ((s, f) :: ws) retry ->
  bumped o (tally r) (tally r') -> Outcome.went_on_air o = true -> used_airtime r' = used_airtime r ->
  going slack round [] (record r' round s start (Transmission.airtime_ms f) rssi o) ws (if again then retry ++ [s] else retry).
Proof.
  intros Hobs [] Hb Ho Hu. change ((s, f) :: ws) with ([(s, f)] ++ ws) in *. rewrite ?owed_app, ?senders_app, senders_one, ?owed_one in * by done.
  cbn [app] in *. pose proof Hb as (Ht & _ & _ & _ & _ & _ & _ & Hair). rewrite g_air0 in Hair.
  apply NoDup_cons in g_once0 as [Hs Hnd]. apply Forall_cons in g_who0 as [Hw Hwho]. apply Forall_cons in g_new0 as [Hn Hnew].
  assert (Tally.timeline (tally (record r' round s start (Transmission.airtime_ms f) rssi o))
          = Tally.timeline (tally r) ++ [TraceEntry.mk round s start (Transmission.airtime_ms f) rssi o]) as Htl
    by (cbn; by rewrite Ht).
  assert (senders ws ++ (if again then retry ++ [s] else retry)
          ≡ₚ (if again then [s] else []) ++ senders ws ++ retry) as Hperm by (destruct again; solve_Permutation).
  constructor; rewrite ?Htl; cbn [app].
  - cbn. by rewrite Hu.
  - done.
  - change (used_airtime (record r' round s start (Transmission.airtime_ms f) rssi o)) with (used_airtime r'). rewrite Hu.
    by eapply record_balanced.
  - by eapply keys_record.
  - eapply new_record; [done|done| |done]. intros Hin. apply Hs. apply elem_of_app. by left.
  - by apply past_record.
  - rewrite Hperm. destruct again; [by apply NoDup_cons_2|assumption].
  - rewrite Hperm. destruct again; [by apply Forall_cons_2|assumption].
  - rewrite on_channel_app, on_channel_one. cbn [TraceEntry.outcome TraceEntry.sender TraceEntry.airtime_ms]. rewrite Ho.
    by rewrite <- app_assoc.
Qed.

Lemma schedule_loop_going slack round w pending r ws retry r' ws' retry' :
  going slack round pending r ws retry -> schedule_loop sc frames round w pending r ws retry = (r', ws', retry') ->
  going slack round [] r' ws' retry' /\ elapsed_ms r' = elapsed_ms r.
Proof.
  revert r ws retry. induction pending as [|s pending IH]; intros r ws retry Hg; cbn [schedule_loop]; [by intros [= <- <- <-]|].
  cbv zeta. destruct (charge r s (air s) round) as [r1 charged] eqn:Hc.
  pose proof (going_charge _ _ _ _ _ _ _ _ _ Hg Hc) as Hnext. pose proof Hc as (_ & _ & He)%run_charge_eq. rewrite <- He.
  assert (s <> OBSERVER) as Hobs by (destruct Hg as [_ _ _ _ _ _ _ Hw _]; cbn [app] in Hw; by apply Forall_cons in Hw as [[_ ?] _]).
  destruct charged; cbn [negb]; [|by apply IH].
  destruct (start_for sc r1 s (air s) w) as [r2 start] eqn:Hs. pose proof (start_for_drew _ _ _ _ _ _ Hs) as Hd.
  pose proof Hd as (Ht & _ & _ & He2). rewrite <- He2. destruct (Topology.reaches _ _ _ _).
  - destruct (rssi_at_observer sc r2 s) as [r3 v] eqn:Hr. pose proof (rssi_drew _ _ _ _ Hr) as Hd3. pose proof Hd3 as (_ & _ & _ & <-).
    apply IH. apply (going_drew _ _ _ r2); [done|]. apply (going_drew _ _ _ r1); [done|]. by apply Hnext.
  - intros Hloop. change (elapsed_ms r2) with (elapsed_ms (record r2 round s start (air s) F64.neg_infinity Outcome.Unreachable)).
    eapply IH; [|exact Hloop].
    specialize (Hnext (Transmission.new start (air s) F64.neg_infinity) eq_refl). apply (going_drew _ _ _ _ r2) in Hnext; [|done].
    destruct Hnext. rewrite senders_app, senders_one, owed_app, owed_one in * by done. cbn [Transmission.airtime_ms] in *.
    rewrite app_assoc in g_new0. apply Forall_app in g_new0 as [Hnew Hn]. apply Forall_cons_1 in Hn as [Hn _].
    assert (pending ++ (senders ws ++ [s]) ++ retry ≡ₚ s :: pending ++ senders ws ++ retry) as Hp by solve_Permutation.
    assert (pending ++ senders ws ++ retry ++ [s] ≡ₚ s :: pending ++ senders ws ++ retry) as Hp2 by solve_Permutation.
    rewrite Hp in g_once0, g_who0. constructor; cbn [record set_tally tally used_airtime Tally.record Tally.timeline].
    + done.
    + done.
    + apply (record_balanced _ _ (tally r2)); [done| |eapply balanced_perm; [|exact g_books0]; by rewrite (comm (++))].
      unfold bumped. repeat case_decide; split_and!; (done || lia).
    + by eapply keys_record.
    + eapply new_record; [done|done| |done]. apply NoDup_cons in g_once0 as [Hin _]. intros Hin'. apply Hin.
      rewrite app_assoc. apply elem_of_app. by left.
    + by apply past_record.
    + by rewrite Hp2.
    + by rewrite Hp2.
    + rewrite on_channel_app, on_channel_one. cbn [TraceEntry.outcome Outcome.went_on_air TraceEntry.sender TraceEntry.airtime_ms].
      rewrite !Forall_app in *. naive_solver.
Qed.

Lemma deliver_loop_going slack round channel k ws r retry r' retry' :
  going slack round [] r ws retry -> deliver_loop sc hash frames manifest round channel k ws r retry = (r', retry') ->
  going slack round [] r' [] retry' /\ elapsed_ms r' = elapsed_ms r.
Proof.
  revert k r retry. induction ws as [|[s f] ws IH]; intros k r retry Hg; cbn [deliver_loop]; [by intros [= <- <-]|].
  destruct (Nat.eqb_spec s OBSERVER) as [->|Hobs].
  - apply IH. destruct Hg. change ((OBSERVER, f) :: ws) with ([(OBSERVER, f)] ++ ws) in *.
    assert (owed ([(OBSERVER, f)] ++ ws) = owed ws) as Ho by done.
    assert (senders ([(OBSERVER, f)] ++ ws) = senders ws) as Hs by done.
    rewrite Ho in *. rewrite Hs in *. by constructor.
  - destruct (hear sc hash frames manifest r s _) as [[r1 o] again] eqn:Hh.
    apply hear_cases in Hh as (Hb & Ho & Hu & He). intros Hloop. rewrite <- He.
    change (elapsed_ms r1) with (elapsed_ms (record r1 round s (Transmission.start_ms f) (Transmission.airtime_ms f)
      (Transmission.rssi_dbm f) o)).
    eapply IH; [|exact Hloop]. by apply (going_settle _ _ r).
Qed.

(** What the observer's own vote adds: one entry, and a rejected vote that never went up
    when it was out of airtime. *)
Lemma observer_going pending r w : (0 < Scenario.fleet sc)%nat -> Tally.timeline (tally r) = [] ->
  going 0 0 pending r [] [] ->
  let r' := observer_answers sc hash frames manifest r w in
  elapsed_ms r' = elapsed_ms r
  /\ exists slack, (slack = 0 \/ slack = 1 /\ DUTY_CYCLE_BUDGET_MS < Scenario.prior_airtime_ms sc + air OBSERVER)
     /\ going slack 0 pending (set_tally r' (Tally.set_on_air (tally r') [])) (Tally.on_air (tally r')) [].
Proof.
  intros Hfleet Htl Hg. pose proof (g_air _ _ _ _ _ _ Hg) as Hair. cbv zeta. unfold observer_answers.
  assert (forall q, tally q = tally r -> used_airtime q = used_airtime r -> going 0 0 pending q [] []) as Hsame.
  { intros q Ht Hu. destruct Hg. constructor; rewrite ?Ht, ?Hu; assumption. }
  destruct (Scenario.silent sc =? 0)%nat; cbn [negb].
  2: { split; [done|]. exists 0. split; [by left|]. rewrite Hair. destruct Hg as [L A B K N P O W C]. constructor; try assumption; [done|]. by destruct B. }
  destruct (charge r OBSERVER (air OBSERVER) 0) as [r1 charged] eqn:Hc. apply run_charge_eq in Hc as (Hc & _ & He1).
  destruct Hg. destruct (charge_balanced _ _ _ _ _ OBSERVER (air OBSERVER) 0 _ _ _ g_books0 ltac:(rewrite g_len0; unfold OBSERVER; lia) Hc)
    as (Hl & Ha & Hcase).
  assert (Forall (fun s => (0%nat, s) ∉ [(0%nat, OBSERVER)]) pending) as Hnew.
  { cbn [senders filter list_filter fmap list_fmap] in g_who0. rewrite !app_nil_r in g_who0. eapply Forall_impl; [exact g_who0|].
    intros s [_ Hs] ->%list_elem_of_singleton%(inj (pair 0%nat)). done. }
  destruct charged.
  - destruct Hcase as (Ht & _ & Hb). destruct (start_for sc r1 OBSERVER (air OBSERVER) w) as [r2 start] eqn:Hs.
    apply start_for_drew in Hs as (Ht2 & Hu2 & _ & He2). set (r3 := set_tally r2 _).
    assert (elapsed_ms r3 = elapsed_ms r2 /\ used_airtime r3 = used_airtime r2) as [He3 Hu3] by done.
    destruct (accept hash frames manifest r3 OBSERVER) as [r4 v] eqn:Hacc. apply accept_cases in Hacc as (Hbump & Hu4 & He4 & Hv).
    set (o := if bool_decide (v = Outcome.Rejected) then _ else _).
    assert (bumped o (tally r3) (tally r4) /\ Outcome.went_on_air o = true) as [Ho Hgo].
    { unfold o. destruct Hv as [[-> _]|[-> _]]; [by rewrite bool_decide_eq_true_2|].
      rewrite bool_decide_eq_false_2 by done. unfold bumped in *. repeat case_decide; naive_solver. }
    split; [cbn; congruence|]. exists 0. split; [by left|].
    assert (Tally.on_air (tally r4) = [(OBSERVER, Transmission.own_transmission start (air OBSERVER))]) as Hws.
    { destruct Ho as (_ & _ & _ & _ & _ & _ & _ & ->). unfold r3. cbn. by rewrite Ht2, Ha, Hair. }
    assert (Tally.timeline (tally r4) = []) as Htl4.
    { destruct Ho as (-> & _). unfold r3. cbn. by rewrite Ht2, Ht, Htl. }
    cbn [record set_tally tally Tally.record Tally.on_air]. rewrite Hws.
    assert (used_airtime r4 = used_airtime r1) as Hu by congruence.
    constructor; cbn [record set_tally tally used_airtime Tally.set_on_air Tally.record Tally.timeline]; rewrite ?Htl4, ?Hu.
    + congruence.
    + done.
    + assert (balanced (Scenario.prior_airtime_ms sc) 0 (Tally.record (tally r4) 0 OBSERVER start (air OBSERVER) F64.infinity o)
        (used_airtime r1) []) as [].
      { apply (record_balanced _ _ (tally r3)); [done|done|]. unfold r3. cbn. rewrite Ht2. by destruct Hb. }
      constructor; try assumption.
    + apply NoDup_singleton.
    + cbn. by rewrite app_nil_r.
    + by repeat constructor.
    + done.
    + done.
    + cbn [app]. rewrite on_channel_one. cbn [TraceEntry.outcome TraceEntry.sender TraceEntry.airtime_ms]. rewrite Hgo.
      by repeat constructor.
  - destruct Hcase as (Ht & Hover & Hb).
    destruct (accept hash frames manifest r1 OBSERVER) as [r4 v] eqn:Hacc. apply accept_cases in Hacc as (Hbump & Hu4 & He4 & Hv).
    split; [congruence|]. exists (if decide (v = Outcome.Rejected) then 1 else 0). destruct Hbump as (Bt & Bs & Ba & Bb & Bc & Bw & Br & Bo).
    rewrite (b_used _ _ _ _ _ g_books0) in Hover by (rewrite g_len0; unfold OBSERVER; lia). rewrite Htl in Hover. cbn in Hover.
    split; [case_decide; [right; split; [done|lia]|by left]|]. rewrite Bo, Ha, Hair.
    rewrite Htl in Ht. cbn [app] in Ht.
    constructor; cbn [set_tally tally used_airtime Tally.set_on_air Tally.timeline]; rewrite ?Bt, ?Ht, ?Hu4.
    + congruence.
    + done.
    + destruct Hb. rewrite Ht in *.
      constructor; cbn [Tally.set_on_air Tally.frames_sent Tally.timeline Tally.airtime_ms Tally.collided Tally.too_weak
        Tally.duty_cycle_blocked Tally.rejected]; rewrite ?Bt, ?Ht; try congruence; try assumption.
      * rewrite Bc, b_collided0. destruct Hv as [[-> _]|[-> _]]; repeat case_decide; (done || lia).
      * rewrite Bw, b_weak0. destruct Hv as [[-> _]|[-> _]]; repeat case_decide; (done || lia).
      * rewrite Br, b_rejected0. lia.
    + apply NoDup_singleton.
    + cbn. by rewrite app_nil_r.
    + by repeat constructor.
    + done.
    + done.
    + done.
Qed.

(** * Rounds *)

Lemma going_same slack round pending r r' ws retry : tally r' = tally r -> used_airtime r' = used_airtime r ->
  going slack round pending r ws retry -> going slack round pending r' ws retry.
Proof. intros Ht Hu []. constructor; rewrite ?Ht, ?Hu; assumption. Qed.
Definition slack_ok (slack : Z) : Prop :=
  slack = 0 \/ slack = 1 /\ DUTY_CYCLE_BUDGET_MS < Scenario.prior_airtime_ms sc + air OBSERVER.
(** Between two rounds: nothing in flight, every entry of an earlier round. *)
Definition between (slack : Z) (round : nat) (pending : list nat) (r : Run.t) : Prop :=
  going slack round pending r [] [] /\ Forall (fun e => TraceEntry.round e < round)%nat (Tally.timeline (tally r)).
Lemma between_next slack round r retry : going slack round [] r [] retry -> between slack (S round) retry r.
Proof.
  intros []. cbn [senders filter list_filter fmap list_fmap app] in *. rewrite ?app_nil_r in *.
  assert (Forall (fun e => TraceEntry.round e < S round)%nat (Tally.timeline (tally r))) as Hp
    by (eapply Forall_impl; [exact g_past0|]; intros e; cbn beta; lia).
  split; [|done]. constructor; cbn [senders filter list_filter fmap list_fmap app]; rewrite ?app_nil_r; try assumption.
  - apply Forall_forall. intros s _ (e & Heq & Hin)%list_elem_of_fmap. injection Heq as Hr _.
    rewrite Forall_forall in Hp. specialize (Hp e Hin). cbn beta in Hp. lia.
  - eapply Forall_impl; [exact g_past0|]. intros e. cbn beta. lia.
Qed.
Lemma between_later slack round round' r pending : (round <= round')%nat -> between slack round pending r ->
  between slack round' pending r.
Proof.
  intros Hle [[] Hp].
  assert (Forall (fun e => TraceEntry.round e < round')%nat (Tally.timeline (tally r))) as Hp'
    by (eapply Forall_impl; [exact Hp|]; intros e; cbn beta; lia).
  split; [|done]. constructor; try assumption.
  - apply Forall_forall. intros s Hs (e & Heq & Hin)%list_elem_of_fmap. injection Heq as Hr _.
    rewrite Forall_forall in Hp'. specialize (Hp' e Hin). cbn beta in Hp'. lia.
  - eapply Forall_impl; [exact g_past0|]. intros e. cbn beta. lia.
Qed.

Lemma round_between slack round pending r r' retry : (0 < Scenario.fleet sc)%nat -> slack_ok slack ->
  (round = 0%nat -> slack = 0) -> between slack round pending r ->
  round_ sc hash frames manifest r round pending = (r', retry) ->
  exists slack', slack_ok slack' /\ between slack' (S round) retry r'.
Proof.
  intros Hfleet Hok Hzero [Hg Hp]. unfold round_. cbv zeta. set (w := window_for sc frames round).
  assert (exists slack' r1, slack_ok slack' /\ (if (round =? 0)%nat then observer_answers sc hash frames manifest r w else r) = r1
    /\ going slack' round pending (set_tally r1 (Tally.set_on_air (tally r1) [])) (Tally.on_air (tally r1)) []) as (slack' & r1 & Hok' & -> & Hg1).
  { destruct (Nat.eqb_spec round 0) as [->|].
    - rewrite (Hzero eq_refl) in Hg. destruct (observer_going pending r w Hfleet) as (_ & slack' & Hok' & Hg'); [|done|eauto].
      destruct (Tally.timeline (tally r)) as [|e tl]; [done|]. apply Forall_cons in Hp as [Hp _]. lia.
    - exists slack, r. split; [done|]. split; [done|]. rewrite (g_air _ _ _ _ _ _ Hg). destruct Hg as [? ? [] ? ? ? ? ? ?].
      by constructor. }
  unfold schedule. destruct (schedule_loop _ _ _ _ _ _ _ _) as [[r2 ws] retry2] eqn:Hs.
  destruct (schedule_loop_going _ _ _ _ _ _ _ _ _ _ Hg1 Hs) as [Hg2 _].
  unfold deliver. destruct (deliver_loop _ _ _ _ _ _ _ _ _ _) as [r3 retry3] eqn:Hd.
  destruct (deliver_loop_going _ _ _ _ _ _ _ _ _ Hg2 Hd) as [Hg3 _]. intros [= <- <-].
  exists slack'. split; [done|]. apply between_next. by eapply going_same; [| |exact Hg3].
Qed.
Lemma rounds_between n slack round pending r : (0 < Scenario.fleet sc)%nat -> slack_ok slack ->
  (round = 0%nat -> slack = 0) -> between slack round pending r ->
  exists slack' pending', slack_ok slack' /\ between slack' (round + n) pending' (rounds sc hash frames manifest n round r pending).
Proof.
  intros Hfleet. revert slack round pending r; induction n as [|n IH]; intros slack round pending r Hok Hz Hb; cbn [rounds].
  { exists slack, pending. split; [done|]. by rewrite Nat.add_0_r. }
  destruct pending as [|s pending]; [exists slack, []; split; [done|]; eapply between_later; [|done]; lia|].
  destruct (round_ _ _ _ _ _ _ _) as [r' retry] eqn:Hr.
  destruct (round_between _ _ _ _ _ _ Hfleet Hok Hz Hb Hr) as (slack' & Hok' & Hb').
  rewrite Nat.add_succ_r, <- Nat.add_succ_l. by apply (IH slack').
Qed.
Lemma between_start : between 0 0 (answerers sc) (Run.new sc).
Proof.
  split; [|constructor]. unfold Run.new. constructor; cbn [tally used_airtime Tally.default Tally.timeline Tally.on_air].
  - by rewrite length_replicate.
  - done.
  - constructor; try done; cbn; rewrite length_replicate; intros i Hi; rewrite (nth_lookup_Some _ _ _ (Scenario.prior_airtime_ms sc));
      [lia|by apply lookup_replicate_2|lia|by apply lookup_replicate_2].
  - constructor.
  - apply Forall_forall. intros s _ []%elem_of_nil.
  - constructor.
  - rewrite !app_nil_r. apply NoDup_filter, NoDup_seq.
  - rewrite !app_nil_r. apply Forall_forall. intros s [Hs Hin]%list_elem_of_filter. split; [|done].
    apply elem_of_seq in Hin. lia.
  - constructor.
Qed.
End steps.

(** * The report *)

Section report.
Context `{Dg : Digest, Ed : Ed25519, Ae : Aead, Sd : Serde SignedCompactEnvelope.t, Lm : Libm}.

(** The frames every member would send. *)
Definition frames_of (s : Scenario.t) (frames : list bytes) : Prop := exists subject, sim_subject = Some subject
  /\ mapM (fun sender => frame_for s sender subject (keys_of (Scenario.fleet s))) (seq 0 (Scenario.fleet s)) = Some frames.
(** A report is read off the state the rounds end in. *)
Lemma run_report_inv s rep : run s = Some rep -> exists policy subject frames,
  policy_for (Scenario.fleet s) = Ok policy /\ sim_subject = Some subject /\ frames_of s frames
  /\ mapM (fun sender => frame_for s sender subject (keys_of (Scenario.fleet s))) (seq 0 (Scenario.fleet s)) = Some frames
  /\ report_of policy (execution s subject frames) = Some rep.
Proof.
  unfold run. destruct (policy_for _) as [policy|]; [|done].
  intros (subject & Hs & (frames & Hf & Hr)%bind_Some)%bind_Some. exists policy, subject, frames. unfold frames_of. naive_solver.
Qed.
Lemma report_inv policy r rep : report_of policy r = Some rep -> exists q, evaluate policy (verified r) = Ok q
  /\ rep = Report.mk (approved q) (len (verified r)) (min_signers policy) (Tally.frames_sent (tally r))
       (Tally.rejected (tally r)) (Tally.collided (tally r)) (Tally.too_weak (tally r))
       (Tally.duty_cycle_blocked (tally r)) (Tally.airtime_ms (tally r)) (Tally.timeline (tally r)).
Proof. unfold report_of. destruct (evaluate _ _) as [q|]; [|done]. intros [= <-]. by exists q. Qed.

Definition entries_of (i : nat) (tl : list TraceEntry.t) : list TraceEntry.t := filter (fun e => TraceEntry.sender e = i) tl.
(** Keys apart and five rounds: at most five entries each. *)
Lemma at_most_five i n tl : NoDup (keys tl) -> Forall (fun e => TraceEntry.round e < n)%nat tl -> (length (entries_of i tl) <= n)%nat.
Proof.
  intros Hnd Hr. rewrite <- (length_fmap TraceEntry.round), <- (length_seq n 0). apply submseteq_length, NoDup_submseteq.
  - assert (NoDup (keys (entries_of i tl))) as Hk by (eapply sublist_NoDup; [exact Hnd|apply fmap_sublist, sublist_filter]).
    apply (NoDup_fmap_1 (fun r => (r, i))). rewrite <- list_fmap_compose.
    replace (((fun r => (r, i)) ∘ TraceEntry.round) <$> entries_of i tl) with (keys (entries_of i tl)); [done|].
    apply list_fmap_ext. intros k e He%list_elem_of_lookup_2. apply list_elem_of_filter in He as [He _]. cbn. by rewrite He.
  - intros r (e & -> & He)%list_elem_of_fmap. apply list_elem_of_filter in He as [_ He]. rewrite Forall_forall in Hr.
    apply elem_of_seq. specialize (Hr e He). cbn beta in Hr. lia.
Qed.
End report.

(** The report of a simulated endorsement is its own timeline, counted: as many frames
    sent, and as much airtime, as the entries that went on the air; as many collided,
    too weak, blocked and rejected as entries say so -- but for the observer's own
    unsent vote, which may be rejected without an entry when it had no airtime. Every
    entry on the air costs exactly its frame's airtime, nobody exceeds the hour's
    budget, and no member keys up twice in a round, so nobody sends more than five. *)
Theorem report_counts_the_timeline `{Digest, Ed25519, Aead, Serde SignedCompactEnvelope.t, Libm} (s : Scenario.t) (rep : Report.t) :
  (0 < Scenario.fleet s)%nat -> run s = Some rep ->
  let tl := Report.timeline rep in
  Report.frames_sent rep = len (on_channel tl)
  /\ Report.airtime_ms rep = zsum (snd <$> on_channel tl)
  /\ Report.duty_cycle_blocked rep = count Outcome.DutyCycleBlocked tl
  /\ Report.collided_frames rep = count Outcome.Collided tl
  /\ Report.too_weak_frames rep = count Outcome.TooWeak tl
  /\ (exists frames, frames_of s frames
      /\ Forall (fun p => p.2 = air_of frames p.1) (on_channel tl)
      /\ (Report.rejected_frames rep = count Outcome.Rejected tl
          \/ Report.rejected_frames rep = count Outcome.Rejected tl + 1
             /\ DUTY_CYCLE_BUDGET_MS < Scenario.prior_airtime_ms s + air_of frames OBSERVER))
  /\ (forall i, (i < Scenario.fleet s)%nat ->
       Scenario.prior_airtime_ms s + spent i (on_channel tl) <= Z.max (Scenario.prior_airtime_ms s) DUTY_CYCLE_BUDGET_MS)
  /\ NoDup (keys tl)
  /\ (forall i, (length (entries_of i tl) <= Scenario.MAX_RETRIES)%nat).
Proof.
  intros Hfleet (policy & subject & frames & _ & _ & Hframes & _ & (q & _ & ->)%report_inv)%run_report_inv. cbv zeta.
  cbn [Report.timeline Report.frames_sent Report.airtime_ms Report.duty_cycle_blocked Report.collided_frames
    Report.too_weak_frames Report.rejected_frames].
  destruct (rounds_between s (Subject.content_hash subject) frames (manifest_of (Scenario.fleet s)) Scenario.MAX_RETRIES
    0 0 (answerers s) (Run.new s)) as (slack & pending & Hok & [[] Hp]); [done|by left|done|by apply between_start|].
  fold (execution s subject frames) in *. destruct g_books0. cbn [owed filter list_filter fmap list_fmap] in *. rewrite !app_nil_r in *.
  split_and!; try done.
  - exists frames. split; [done|]. split; [done|]. destruct Hok as [->|[-> Hover]]; [left; lia|by right].
  - intros i Hi. rewrite <- b_used0 by (by rewrite g_len0). apply b_legal0. by rewrite g_len0.
  - intros i. by apply at_most_five.
Qed.

#[local] Existing Instances toy_digest toy_ed25519 clear_aead wide_serde flat_libm.
Lemma report_counts_the_timeline_witness :
  match run (Scenario.with_forgers (Scenario.with_seed (Scenario.new 4) 3) 1) with
  | Some rep => Report.frames_sent rep = len (on_channel (Report.timeline rep))
      /\ Report.airtime_ms rep = zsum (snd <$> on_channel (Report.timeline rep)) /\ NoDup (keys (Report.timeline rep))
  | None => False
  end.
Proof.
  pose proof (report_counts_the_timeline (Scenario.with_forgers (Scenario.with_seed (Scenario.new 4) 3) 1)) as Hall.
  destruct (run _) as [rep|] eqn:Hrun; [|vm_compute in Hrun; discriminate].
  specialize (Hall rep ltac:(vm_compute; lia) eq_refl). cbv zeta in Hall. clear Hrun. naive_solver.
Defined.
