(* ===== verification/SimQuorum.v ===== *)
(** Whose support a simulated endorsement counts: only members that speak, that the
    observer can hear and that signed for themselves, each once -- so neither silence, nor
    forgery, nor half of a partitioned fleet ever makes a quorum. *)
From S2P Require Import Prelude Float Time Contracts Quorum Budget Radio Crypto Codec WireDemo.
From S2P Require Import Channel Rng Phy Medium SimScenario SimLedger.
Import Run.

(** * A fleet of equals *)

Lemma member_id_inj i j : Z.of_nat i <= U64_MAX -> Z.of_nat j <= U64_MAX -> member_id i = member_id j -> i = j.
Proof.
  intros Hi Hj Heq. unfold member_id in Heq. apply app_inv_head in Heq. apply decimal_inj in Heq; [lia|width; lia..].
Qed.

Section equals.
Context (n : nat) (Hn : (0 < n)%nat) (Hmax : Z.of_nat n <= U64_MAX).

Definition equals : list (str * Z) := (fun i => (member_id i, Competence.FULL)) <$> seq 0 n.
Lemma equals_ids : equals.*1 = member_id <$> seq 0 n.
Proof. unfold equals. rewrite <- list_fmap_compose. done. Qed.
Lemma ids_nodup (l : list nat) : Forall (fun i => i < n)%nat l -> NoDup l -> NoDup (member_id <$> l).
Proof.
  intros Hl Hnd. induction Hnd as [|i l Hi _ IH]; [constructor|]. apply Forall_cons in Hl as [Hin Hl].
  rewrite fmap_cons. constructor; [|by apply IH]. intros (j & Heq & Hj)%list_elem_of_fmap.
  rewrite Forall_forall in Hl. specialize (Hl j Hj). cbn beta in Hl. apply member_id_inj in Heq as ->; [done|lia..].
Qed.
Lemma policy_for_ok : policy_for n = Ok (policy_of equals DEFAULT_BYZANTINE_BPS DEFAULT_MAX_COMPETENCE_RATIO).
Proof.
  unfold policy_for, new. change ((fun i => (member_id i, Competence.FULL)) <$> seq 0 n) with equals.
  apply with_settings_spec.
  - unfold equals. apply Forall_fmap, Forall_forall. intros i _. unfold compose, Competence.FULL. cbn. lia.
  - split; [by vm_compute|]. split; [by vm_compute|]. split; [unfold equals; destruct n; [lia|done]|].
    split; [|split; [|split; [|done]]].
    + unfold equals. apply Forall_fmap, Forall_forall. intros i _. split; [done|]. split; by vm_compute.
    + rewrite equals_ids. apply ids_nodup; [|apply NoDup_seq]. apply Forall_forall. intros i Hi%elem_of_seq. lia.
    + unfold equals. intros m1 m2 (i & -> & _)%list_elem_of_fmap (j & -> & _)%list_elem_of_fmap.
      cbn [snd]. unfold Competence.FULL, DEFAULT_MAX_COMPETENCE_RATIO. lia.
Qed.

Notation fleet_policy := (policy_of equals DEFAULT_BYZANTINE_BPS DEFAULT_MAX_COMPETENCE_RATIO).
Lemma fleet_policy_wf : policy_wf fleet_policy.
Proof.
  apply (with_settings_wf equals DEFAULT_BYZANTINE_BPS DEFAULT_MAX_COMPETENCE_RATIO); [|exact policy_for_ok].
  unfold equals. apply Forall_fmap, Forall_forall. intros i _. unfold compose, Competence.FULL. cbn. lia.
Qed.
Lemma fleet_competence id : competences fleet_policy !! id = Some Competence.FULL <-> id ∈ member_id <$> seq 0 n.
Proof.
  assert (NoDup equals.*1) as Hnd.
  { rewrite equals_ids. apply ids_nodup; [|apply NoDup_seq]. apply Forall_forall. intros i Hi%elem_of_seq. lia. }
  cbn [competences policy_of]. rewrite <- elem_of_list_to_map by done. unfold equals.
  rewrite !list_elem_of_fmap. split; intros (i & Heq & Hi); exists i; split; try done; congruence.
Qed.
Lemma fleet_members : members fleet_policy = list_to_set (member_id <$> seq 0 n).
Proof.
  apply set_eq. intros id. rewrite elem_of_list_to_set, <- fleet_competence. unfold members. rewrite elem_of_dom.
  split; [|by eexists]. intros [c Hc]. rewrite Hc. f_equal. cbn [competences policy_of] in Hc.
  apply elem_of_list_to_map_2 in Hc. unfold equals in Hc. apply list_elem_of_fmap in Hc as (i & Heq & _). by injection Heq.
Qed.
Lemma fleet_size : policy_size fleet_policy = Z.of_nat n.
Proof.
  rewrite (policy_size_members fleet_policy), fleet_members, size_list_to_set; [by rewrite length_fmap, length_seq|].
  apply ids_nodup; [|apply NoDup_seq]. apply Forall_forall. intros i Hi%elem_of_seq. lia.
Qed.
Lemma fleet_weight (X : gset str) : X ⊆ members fleet_policy -> weight fleet_policy X = 100 * Z.of_nat (size X).
Proof.
  intros Hsub. unfold weight, set_sum. change (size X) with (length (elements X)).
  assert (Forall (fun s => s ∈ members fleet_policy) (elements X)) as Hall.
  { apply Forall_forall. intros s Hs%elem_of_elements. by apply Hsub. }
  induction Hall as [|s l Hs _ IH]; [done|]. rewrite fmap_cons, zsum_cons, IH, length_cons.
  rewrite fleet_members, elem_of_list_to_set, <- fleet_competence in Hs. unfold worth, competence_of. rewrite Hs.
  cbn [from_option id]. unfold Competence.FULL. lia.
Qed.

(** Among equals a list of distinct members is approved exactly when it is large enough. *)
Lemma fleet_verdict (voters : list str) : NoDup voters -> Forall (fun v => v ∈ member_id <$> seq 0 n) voters ->
  exists q, evaluate fleet_policy voters = Ok q
    /\ approved q = (min_signers fleet_policy <=? len voters) && (2 * Z.of_nat n <? 3 * len voters).
Proof.
  intros Hnd Hall. assert (list_to_set voters ⊆ members fleet_policy) as Hsub.
  { rewrite fleet_members. rewrite Forall_forall in Hall. set_solver. }
  exists (verdict_on fleet_policy (list_to_set voters)). split; [by rewrite evaluate_spec, bool_decide_eq_true_2|].
  unfold approved, verdict_on. cbn [count_met competence_met]. rewrite fleet_weight, size_list_to_set by done.
  rewrite <- (weight_total fleet_policy fleet_policy_wf), fleet_weight, <- policy_size_members, fleet_size by done.
  f_equal. unfold len. destruct (Z.ltb_spec (2 * (100 * Z.of_nat n)) (3 * (100 * Z.of_nat (length voters))));
    destruct (Z.ltb_spec (2 * Z.of_nat n) (3 * Z.of_nat (length voters))); (done || lia).
Qed.
Lemma fleet_majority : Z.of_nat n <= 2 ^ 50 -> Z.of_nat n < 2 * min_signers fleet_policy /\ min_signers fleet_policy <= Z.of_nat n.
Proof.
  intros Hfits. pose proof (min_signers_bounds fleet_policy fleet_policy_wf ltac:(by vm_compute)) as Hb.
  unfold fits in Hb. rewrite fleet_size in Hb. specialize (Hb Hfits).
  pose proof (max_faulty_lt fleet_policy fleet_policy_wf ltac:(by vm_compute)) as Hm. unfold fits in Hm.
  rewrite fleet_size in Hm. specialize (Hm Hfits). lia.
Qed.
(** The verdict on a list of members, and what half a fleet can never do. *)
Lemma fleet_tally (voters : list nat) q : Z.of_nat n <= 2 ^ 50 -> Forall (fun i => i < n)%nat voters -> NoDup voters ->
  evaluate fleet_policy (member_id <$> voters) = Ok q ->
  (approved q = true <-> min_signers fleet_policy <= len voters /\ 2 * Z.of_nat n < 3 * len voters)
  /\ Z.of_nat n < 2 * min_signers fleet_policy /\ (2 * len voters <= Z.of_nat n -> approved q = false).
Proof.
  intros Hfits Hin Hnd Hq. destruct (fleet_verdict (member_id <$> voters)) as (q' & Hq' & Hverdict).
  { by apply ids_nodup. }
  { apply Forall_fmap. eapply Forall_impl; [exact Hin|]. intros i Hi. apply list_elem_of_fmap. exists i. split; [done|].
    apply elem_of_seq. split; [lia|exact Hi]. }
  assert (q' = q) as -> by congruence. assert (len (member_id <$> voters) = len voters) as Hlen by (unfold len; by rewrite length_fmap).
  rewrite Hlen in Hverdict. destruct (fleet_majority Hfits) as [Hmaj _].
  split; [by rewrite Hverdict, andb_true_iff, Z.leb_le, Z.ltb_lt|]. split; [done|].
  intros Hfew. rewrite Hverdict. apply andb_false_iff. left. apply Z.leb_gt. lia.
Qed.
End equals.

(** * Whose frame is counted *)

Section votes.
Context `{Dg : Digest, Ed : Ed25519, Ae : Aead, Sd : Serde SignedCompactEnvelope.t, Lm : Libm}.
Context (sc : Scenario.t) (hash : bytes) (frames : list bytes) (manifest : list VerifyingKey.t).

(** A member the observer can hear: itself, or one its topology reaches it from. *)
Definition heard (i : nat) : Prop :=
  i = OBSERVER \/ Topology.reaches (Scenario.topology sc) i OBSERVER (Scenario.fleet sc) = true.
Definition speaks (i : nat) : Prop := (Scenario.silent sc <= i < Scenario.fleet sc)%nat /\ heard i.
(** Each name counted is one that a heard member's frame vouches for, and is counted once. *)
Definition supported (r : Run.t) : Prop := NoDup (verified r)
  /\ Forall (fun id => exists s c, speaks s /\ vouches hash frames manifest s c /\ id = member_id c) (verified r).

Lemma accept_supported r s r' o : speaks s -> supported r -> accept hash frames manifest r s = (r', o) -> supported r'.
Proof.
  intros Hs [Hnd Hall] (_ & _ & _ & Hv)%accept_cases. unfold supported.
  destruct Hv as [(_ & -> & _)|(_ & c & Hc & ->)]; [done|]. case_bool_decide as Hin; [done|]. split.
  - apply NoDup_app. split; [done|]. split; [|apply NoDup_singleton]. by intros id Hid ->%list_elem_of_singleton.
  - apply Forall_app_2; [done|]. constructor; [by exists s, c|constructor].
Qed.
Lemma supported_same r r' : verified r' = verified r -> supported r -> supported r'.
Proof. unfold supported. by intros ->. Qed.
Lemma charge_supported r s a round r' c : charge r s a round = (r', c) -> supported r -> supported r'.
Proof. intros (_ & Hv & _)%run_charge_eq. by apply supported_same. Qed.
Lemma drew_supported r r' : drew r r' -> supported r -> supported r'.
Proof. intros (_ & _ & Hv & _). by apply supported_same. Qed.
Lemma hear_supported r s rec r' o again : speaks s -> supported r -> hear sc hash frames manifest r s rec = (r', o, again) -> supported r'.
Proof.
  intros Hs Hr. destruct rec; cbn [hear]; [|by intros [= <- <- <-]..].
  destruct (Rng.next_f64 (rng r)) as [g u]. destruct (F64.ltb u _); [by intros [= <- <- <-]|].
  destruct (accept hash frames manifest (set_rng r g) s) as [r1 v] eqn:Hacc. intros [= <- <- <-].
  by apply (accept_supported (set_rng r g) s _ v).
Qed.
Lemma schedule_loop_supported round w pending r ws retry r' ws' retry' :
  Forall (fun i => Scenario.silent sc <= i < Scenario.fleet sc)%nat pending -> Forall speaks ws.*1 -> supported r ->
  schedule_loop sc frames round w pending r ws retry = (r', ws', retry') -> Forall speaks ws'.*1 /\ supported r'.
Proof.
  intros Hp. revert r ws retry. induction Hp as [|s pending Hs _ IH]; intros r ws retry Hws Hr; cbn [schedule_loop].
  { by intros [= <- <- <-]. }
  cbv zeta. destruct (charge r s _ round) as [r1 c] eqn:Hc. apply charge_supported in Hc; [|done].
  destruct c; cbn [negb]; [|by apply IH].
  destruct (start_for sc r1 s _ w) as [r2 start] eqn:Hst. apply start_for_drew, drew_supported in Hst; [|done].
  destruct (Topology.reaches _ _ _ _) eqn:Hreach; [|by apply IH].
  destruct (rssi_at_observer sc r2 s) as [r3 v] eqn:Hrs. apply rssi_drew, drew_supported in Hrs; [|done].
  apply IH; [|done]. rewrite fmap_app. apply Forall_app_2; [done|]. constructor; [|constructor]. split; [done|by right].
Qed.
Lemma deliver_loop_supported round channel k ws r retry r' retry' : Forall speaks ws.*1 -> supported r ->
  deliver_loop sc hash frames manifest round channel k ws r retry = (r', retry') -> supported r'.
Proof.
  revert k r retry. induction ws as [|[s f] ws IH]; intros k r retry Hws Hr; cbn [deliver_loop]; [by intros [= <- <-]|].
  apply Forall_cons in Hws as [Hs Hws]. destruct (s =? OBSERVER)%nat; [by apply IH|].
  destruct (hear _ _ _ _ _ _ _) as [[r1 o] again] eqn:Hh. apply hear_supported in Hh; [|done|done]. by apply IH.
Qed.
Lemma observer_supported r w : (0 < Scenario.fleet sc)%nat -> Tally.on_air (tally r) = [] -> supported r ->
  let r' := observer_answers sc hash frames manifest r w in Forall speaks (Tally.on_air (tally r')).*1 /\ supported r'.
Proof.
  intros Hfleet Hair Hr. cbv zeta. unfold observer_answers.
  destruct (Nat.eqb_spec (Scenario.silent sc) 0) as [Hz|]; cbn [negb]; [|rewrite Hair; by split; [constructor|]].
  assert (speaks OBSERVER) as Hobs by (unfold speaks, heard, OBSERVER; split; [lia|by left]).
  destruct (charge r OBSERVER _ 0) as [r1 charged] eqn:Hc. pose proof Hc as (Ht & _ & _)%run_charge_eq.
  assert (Tally.on_air (tally r1) = []) as Hair1.
  { unfold Tally.charge in Ht. destruct (negb _); injection Ht as <- _ _; exact Hair. }
  apply charge_supported in Hc; [|done]. destruct charged.
  - destruct (start_for sc r1 OBSERVER _ w) as [r2 start] eqn:Hst. apply start_for_drew in Hst as Hd.
    pose proof Hd as (Ht2 & _). apply drew_supported in Hd; [|done]. set (r3 := set_tally r2 _).
    destruct (accept hash frames manifest r3 OBSERVER) as [r4 v] eqn:Hacc.
    pose proof Hacc as ((_ & _ & _ & _ & _ & _ & _ & Ho) & _)%accept_cases.
    apply accept_supported in Hacc; [|done|by apply (supported_same r2)].
    split; [|by apply (supported_same r4)]. cbn [record set_tally tally Tally.record Tally.on_air]. rewrite Ho. unfold r3.
    cbn [set_tally tally Tally.set_on_air Tally.on_air]. rewrite Ht2, Hair1. by apply Forall_singleton.
  - destruct (accept hash frames manifest r1 OBSERVER) as [r4 v] eqn:Hacc.
    pose proof Hacc as ((_ & _ & _ & _ & _ & _ & _ & Ho) & _)%accept_cases.
    apply accept_supported in Hacc; [|done|done]. split; [|done]. rewrite Ho, Hair1. constructor.
Qed.
Lemma round_supported slack round pending r r' retry : (0 < Scenario.fleet sc)%nat -> between sc frames slack round pending r ->
  supported r -> round_ sc hash frames manifest r round pending = (r', retry) -> supported r'.
Proof.
  intros Hfleet [Hg _] Hr. unfold round_. cbv zeta.
  assert (Forall (fun i => Scenario.silent sc <= i < Scenario.fleet sc)%nat pending) as Hp.
  { pose proof (g_who _ _ _ _ _ _ _ _ Hg) as Hw. rewrite app_nil_r in Hw. eapply Forall_impl; [exact Hw|]. by intros i []. }
  set (w := window_for sc frames round).
  assert (exists r1, (if (round =? 0)%nat then observer_answers sc hash frames manifest r w else r) = r1
    /\ Forall speaks (Tally.on_air (tally r1)).*1 /\ supported r1) as (r1 & -> & Hws & Hr1).
  { destruct (round =? 0)%nat; [by eexists; split; [|apply observer_supported; [|apply Hg|]]|].
    exists r. rewrite (g_air _ _ _ _ _ _ _ _ Hg). by split; [|split; [constructor|]]. }
  unfold schedule. destruct (schedule_loop _ _ _ _ _ _ _ _) as [[r2 ws] retry2] eqn:Hs.
  apply schedule_loop_supported in Hs as [Hws2 Hr2]; [|done|done|done].
  unfold deliver. destruct (deliver_loop _ _ _ _ _ _ _ _ _ _) as [r3 retry3] eqn:Hd.
  apply deliver_loop_supported in Hd; [|done|done]. by intros [= <- <-].
Qed.
Lemma rounds_supported n slack round pending r : (0 < Scenario.fleet sc)%nat -> slack_ok sc frames slack ->
  (round = 0%nat -> slack = 0) -> between sc frames slack round pending r -> supported r ->
  supported (rounds sc hash frames manifest n round r pending).
Proof.
  intros Hfleet. revert slack round pending r; induction n as [|n IH]; intros slack round pending r Hok Hz Hb Hr; cbn [rounds]; [done|].
  destruct pending as [|s pending]; [done|].
  destruct (round_ _ _ _ _ _ _ _) as [r' retry] eqn:Hrd.
  destruct (round_between _ _ _ _ _ _ _ _ _ _ Hfleet Hok Hz Hb Hrd) as (slack' & Hok' & Hb').
  apply (IH slack'); [done|lia|done|]. exact (round_supported slack round _ r r' retry Hfleet Hb Hr Hrd).
Qed.
End votes.

(** * Who signed what *)

(** No member's key signs for another: what Ed25519 promises, for the keys of the fleet. *)
Definition keys_apart `{Ed25519} (n : nat) : Prop := forall i j m, (i < n)%nat -> (j < n)%nat -> i <> j ->
  ed_verify (ed_public (seed_for i)) m (ed_sign (seed_for j) m) = false.

Section fleet_keys.
Context `{Ed : Ed25519} (n : nat).
Lemma keys_lookup i : (i < n)%nat -> keys_of n !! i = Some (SigningKey.from_seed (seed_for i)).
Proof. intros Hi. unfold keys_of. rewrite list_lookup_fmap, lookup_seq_lt by done. done. Qed.
Lemma keys_count : length (keys_of n) = n.
Proof. unfold keys_of. by rewrite length_fmap, length_seq. Qed.
Lemma manifest_lookup i : (i < n)%nat -> manifest_of n !! i = Some (VerifyingKey.mk (ed_public (seed_for i))).
Proof. intros Hi. unfold manifest_of. rewrite list_lookup_fmap, keys_lookup by done. done. Qed.
Lemma author_small i : Z.of_nat n <= 65536 -> (i < n)%nat -> author_of i = Z.of_nat i.
Proof. intros. unfold author_of. width. lia. Qed.
End fleet_keys.

Section authorship.
Context `{Dg : Digest, Ed : Ed25519, El : !Ed25519Laws, Ae : Aead, Al : !AeadLaws, Sd : Serde SignedCompactEnvelope.t,
  Sl : !SerdeLaws SignedCompactEnvelope.t}.
Context (s : Scenario.t) (subject : Subject.t) (frames : list bytes).
Context (Hsize : 2 <= Z.of_nat (Scenario.fleet s) <= 65536) (Hapart : keys_apart (Scenario.fleet s)).
Context (Hframes : mapM (fun i => frame_for s i subject (keys_of (Scenario.fleet s))) (seq 0 (Scenario.fleet s)) = Some frames).
Notation fleet := (Scenario.fleet s).
Notation hash := (Subject.content_hash subject).

(** The key a member actually signs with. *)
Definition signer_of (i : nat) : nat := if is_forger s i then ((i + 1) `mod` fleet)%nat else i.
Lemma signer_in_range i : (i < fleet)%nat -> (signer_of i < fleet)%nat.
Proof. intros Hi. unfold signer_of. destruct (is_forger s i); [|done]. apply Nat.mod_upper_bound. lia. Qed.
Lemma signer_forges i : (i < fleet)%nat -> signer_of i = i <-> is_forger s i = false.
Proof.
  intros Hi. unfold signer_of. destruct (is_forger s i); [|done]. split; [|done]. intros Heq. exfalso.
  destruct (decide (i + 1 = fleet)%nat) as [He|]; [rewrite He, Nat.Div0.mod_same in Heq; lia|].
  rewrite Nat.mod_small in Heq by lia. lia.
Qed.
(** A member's frame opens to its own envelope, signed with the key it used. *)
Lemma frame_opens i : (i < fleet)%nat -> exists plain, open_frame group_key (nth i frames []) = Ok (Z.of_nat i, Z.of_nat i, plain)
  /\ decode_compact plain = Ok (sign_compact (envelope_for subject i) (SigningKey.from_seed (seed_for (signer_of i))) hash).
Proof.
  intros Hi. pose proof (proj1 (mapM_Some _ _ _) Hframes) as Hall. pose proof (Forall2_length _ _ _ Hall) as Hlen.
  rewrite length_seq in Hlen. destruct (Forall2_lookup_l _ _ _ i i Hall) as (f & Hf & Hframe); [apply lookup_seq; lia|].
  rewrite (nth_lookup_Some _ _ _ _ Hf). unfold frame_for in Hframe. fold (signer_of i) in Hframe.
  rewrite keys_lookup in Hframe by (by apply signer_in_range). cbn [mbind option_bind] in Hframe.
  destruct (encode_compact _) as [signed|] eqn:Henc; [|done]. rewrite (author_small fleet) in Hframe by (lia || done).
  destruct (seal_frame _ _ _ _) as [f'|] eqn:Hseal; [|done]. assert (f' = f) as -> by congruence.
  exists signed. split; [apply open_sealed; [width; lia..|done]|].
  apply ok_or_ok in Henc. unfold decode_compact. by rewrite (serde_roundtrip _ _ Henc).
Qed.
(** It speaks for that member, and only if the member signed it itself. *)
Lemma vouches_own i c : (i < fleet)%nat -> vouches hash frames (manifest_of fleet) i c <-> c = i /\ is_forger s i = false.
Proof.
  intros Hi. destruct (frame_opens i Hi) as (plain & Hopen & Hdec). set (x := sign_compact _ _ _) in Hdec.
  assert (Z.to_nat (CompactEnvelope.author_index (SignedCompactEnvelope.envelope x)) = i) as Hauthor.
  { unfold x, sign_compact, envelope_for, CompactEnvelope.new. cbn. rewrite (author_small fleet) by (lia || done). lia. }
  assert (SignedCompactEnvelope.verify x (VerifyingKey.mk (ed_public (seed_for i))) hash = Ok tt <-> is_forger s i = false) as Hver.
  { unfold SignedCompactEnvelope.verify, VerifyingKey.verify. cbn [VerifyingKey.point]. unfold x at 2. cbn [sign_compact SignedCompactEnvelope.signature].
    unfold SigningKey.sign. cbn [SigningKey.from_seed SigningKey.seed]. fold (SignedCompactEnvelope.envelope x).
    change (SignedCompactEnvelope.envelope x) with (envelope_for subject i). rewrite <- (signer_forges i Hi).
    destruct (decide (signer_of i = i)) as [->|Hne]; [rewrite ed_verify_sign; naive_solver|].
    rewrite Hapart; [naive_solver|done|by apply signer_in_range|done]. }
  split.
  - intros (a & q & plain' & x' & key & Ho & Hd & -> & Hm & Hv).
    assert (plain' = plain) as -> by congruence. assert (x' = x) as -> by congruence.
    rewrite Hauthor, manifest_lookup in Hm by done. assert (key = VerifyingKey.mk (ed_public (seed_for i))) as -> by congruence.
    split; [done|]. by apply Hver.
  - intros [-> Hf]. exists (Z.of_nat i), (Z.of_nat i), plain, x, (VerifyingKey.mk (ed_public (seed_for i))).
    rewrite Hauthor, manifest_lookup by done. split_and!; try done. by apply Hver.
Qed.
End authorship.

(** * The verdict *)

Lemma named_list {A} (P : nat -> Prop) (f : nat -> A) (ids : list A) :
  Forall (fun id => exists i, P i /\ id = f i) ids -> exists is_, ids = f <$> is_ /\ Forall P is_.
Proof.
  induction 1 as [|id ids (i & Hi & ->) _ (is_ & -> & His)]; [by exists []|]. exists (i :: is_). by split; [|constructor].
Qed.
Lemma few_below (l : list nat) lo hi : NoDup l -> Forall (fun i => lo <= i < hi)%nat l -> len l <= Z.of_nat (hi - lo).
Proof.
  intros Hnd Hall. unfold len. rewrite <- (length_seq (hi - lo) lo). apply Nat2Z.inj_le, submseteq_length, NoDup_submseteq; [done|].
  intros i Hi. rewrite Forall_forall in Hall. specialize (Hall i Hi). cbn beta in Hall. apply elem_of_seq. lia.
Qed.

(** A partition leaves the observer less than half of the fleet. *)
Lemma half_within fleet l : (2 <= fleet)%nat -> NoDup l ->
  Forall (fun i => i = OBSERVER \/ Topology.reaches Topology.Partitioned i OBSERVER fleet = true) l -> 2 * len l <= Z.of_nat fleet.
Proof.
  intros Hfleet Hnd Hall. assert (Forall (fun i => 0 <= i < Nat.div fleet 2)%nat l) as Hr.
  { eapply Forall_impl; [exact Hall|]. intros i Hh. split; [lia|].
    assert (0 < Nat.div fleet 2)%nat as Hpos by (apply Nat.div_str_pos; lia).
    destruct Hh as [->|Hh]; [done|]. cbn [Topology.reaches] in Hh. apply andb_true_iff in Hh as [_ Hh%eqb_prop].
    rewrite (proj2 (Nat.ltb_lt OBSERVER _) Hpos) in Hh. by apply Nat.ltb_lt. }
  pose proof (few_below l _ _ Hnd Hr). pose proof (Nat.Div0.mul_div_le fleet 2). lia.
Qed.

(** What makes a member's vote count: it speaks, it is heard, it signs for itself. *)
Definition counts (s : Scenario.t) (i : nat) : Prop := speaks s i /\ is_forger s i = false.

Lemma supporters_count
    `{Digest, Ed25519Laws, AeadLaws, SerdeLaws SignedCompactEnvelope.t, Libm} (s : Scenario.t) subject frames :
  2 <= Z.of_nat (Scenario.fleet s) <= 65536 -> keys_apart (Scenario.fleet s) ->
  mapM (fun i => frame_for s i subject (keys_of (Scenario.fleet s))) (seq 0 (Scenario.fleet s)) = Some frames ->
  exists voters, verified (execution s subject frames) = member_id <$> voters /\ NoDup voters /\ Forall (counts s) voters.
Proof.
  intros Hsize Hapart Hframes.
  destruct (rounds_supported s (Subject.content_hash subject) frames (manifest_of (Scenario.fleet s)) Scenario.MAX_RETRIES
    0 0 (answerers s) (Run.new s)) as [Hnd Hall]; [lia|by left|done|apply between_start; done|by split; constructor|].
  fold (execution s subject frames) in *.
  destruct (named_list (counts s) member_id (verified (execution s subject frames))) as (voters & Hv & Hcount).
  { eapply Forall_impl; [exact Hall|]. intros id (i & c & Hi & Hc & ->). pose proof Hi as [[_ Hlt] _].
    apply (vouches_own s subject frames Hsize Hapart Hframes) in Hc as [-> Hf]; [|done]. by exists i. }
  exists voters. split; [done|]. rewrite Hv in Hnd. split; [by eapply NoDup_fmap_1|done].
Qed.

(** C11: Nobody but the members decides. In a fleet of 2 to 65536 members whose keys differ, the
    supporters a simulated run reports are distinct
    members that speak, that the observer can hear and that signed for themselves; it
    endorses exactly when they clear both thresholds, of which the count alone is more
    than half the fleet. So a fleet half of whose members are silent or sign as somebody
    else never endorses, and neither does one that is partitioned, whatever the channel
    does. *)
Theorem no_fabricated_quorum
    `{Digest, Ed25519Laws, AeadLaws, SerdeLaws SignedCompactEnvelope.t, Libm} (s : Scenario.t) (rep : Report.t) :
  2 <= Z.of_nat (Scenario.fleet s) <= 65536 -> keys_apart (Scenario.fleet s) -> run s = Some rep ->
  (exists voters, NoDup voters /\ Forall (counts s) voters /\ Report.binding_supporters rep = len voters)
  /\ (Report.endorsed rep = true <-> Report.min_signers rep <= Report.binding_supporters rep
        /\ 2 * Z.of_nat (Scenario.fleet s) < 3 * Report.binding_supporters rep)
  /\ Z.of_nat (Scenario.fleet s) < 2 * Report.min_signers rep
  /\ ((Scenario.fleet s <= 2 * (Scenario.silent s + Scenario.forgers s))%nat -> Report.endorsed rep = false)
  /\ (Scenario.topology s = Topology.Partitioned -> Report.endorsed rep = false).
Proof.
  intros Hsize Hapart (policy & subject & frames & Hpol & _ & _ & Hframes & (q & Hq & ->)%report_inv)%run_report_inv.
  rewrite policy_for_ok in Hpol by (width; lia). assert (policy = policy_of (equals (Scenario.fleet s)) DEFAULT_BYZANTINE_BPS
    DEFAULT_MAX_COMPETENCE_RATIO) as -> by congruence. clear Hpol.
  destruct (supporters_count s subject frames Hsize Hapart Hframes) as (voters & Hv & Hnd & Hcount). rewrite Hv in *.
  assert (Forall (fun i => i < Scenario.fleet s)%nat voters) as Hin by (eapply Forall_impl; [exact Hcount|]; intros i [[[_ ?] _] _]; done).
  destruct (fleet_tally (Scenario.fleet s) ltac:(lia) ltac:(width; lia) voters q ltac:(lia) Hin Hnd Hq) as (Hverdict & Hmaj & Hfew).
  cbn [Report.endorsed Report.binding_supporters Report.min_signers].
  assert (len (member_id <$> voters) = len voters) as -> by (unfold len; by rewrite length_fmap).
  split; [by exists voters|]. split; [done|]. split; [done|].
  split; intros Hcase; apply Hfew.
  - assert (Forall (fun i => Scenario.silent s + Scenario.forgers s <= i < Scenario.fleet s)%nat voters) as Hr.
    { eapply Forall_impl; [exact Hcount|]. intros i [[[Hlo Hhi] _] Hf]. split; [|done]. unfold is_forger in Hf.
      apply andb_false_iff in Hf as [Hf%Nat.leb_gt|Hf%Nat.ltb_ge]; lia. }
    pose proof (few_below voters _ _ Hnd Hr). lia.
  - apply half_within; [lia|done|]. eapply Forall_impl; [exact Hcount|]. intros i [[_ Hh] _]. unfold heard in Hh. by rewrite Hcase in Hh.
Qed.

(** The stand-in signatures keep five members apart. *)
Lemma toy_keys_apart : @keys_apart toy_ed25519 5.
Proof.
  assert (forall i, (i < 5)%nat -> zsum (seed_for i) = Z.of_nat i + 1) as Hsum.
  { intros i Hi. do 5 (destruct i as [|i]; [by vm_compute|]). lia. }
  intros i j m Hi Hj Hne. cbn [ed_verify ed_sign ed_public toy_ed25519]. rewrite !Hsum by done.
  apply bool_decide_eq_false_2. intros Heq. apply (f_equal (hd 0)) in Heq. cbn [replicate hd] in Heq.
  apply Hne, Nat2Z.inj. Z.to_euclidean_division_equations. lia.
Qed.
#[local] Existing Instances toy_digest toy_ed25519 toy_ed25519_laws clear_aead clear_aead_laws wide_serde wide_serde_laws flat_libm.
Lemma no_fabricated_quorum_witness :
  match run (Scenario.with_topology (Scenario.with_forgers (Scenario.new 5) 1) Topology.Partitioned) with
  | Some rep => Report.endorsed rep = false /\ Z.of_nat 5 < 2 * Report.min_signers rep
  | None => False
  end.
Proof.
  pose proof (no_fabricated_quorum (Scenario.with_topology (Scenario.with_forgers (Scenario.new 5) 1) Topology.Partitioned)) as Hall.
  destruct (run _) as [rep|] eqn:Hrun; [|vm_compute in Hrun; discriminate]. clear Hrun.
  specialize (Hall rep ltac:(vm_compute; split; congruence) toy_keys_apart eq_refl).
  destruct Hall as (_ & _ & Hmaj & _ & Hpart). split; [by apply Hpart|exact Hmaj].
Defined.
