(* ===== verification/SimSlots.v ===== *)
(** Slotted access in the simulator: members that transmit in the slot their manifest index
    earns them never collide, and an honest fleet within reach endorses in one round. *)
From S2P Require Import Prelude Float Time Contracts Quorum Budget Radio Crypto Codec WireDemo.
From S2P Require Import Channel Rng Phy Medium SimScenario SimLedger SimQuorum.
Import Run.

(** * Frames that do not overlap *)

Lemma receive_apart f others : Forall (fun o => Transmission.overlaps f o = false) others ->
  receive f others = if F64.ltb (Transmission.rssi_dbm f) SENSITIVITY_DBM then Reception.TooWeak else Reception.Decoded.
Proof.
  intros Hall. unfold receive. rewrite judge_worst. destruct (F64.ltb _ _); [done|]. apply worst_decoded, Forall_fmap.
  eapply Forall_impl; [exact Hall|]. intros o Ho. unfold compose, effect. by rewrite Ho.
Qed.

Section slots.
Context (E guard : Z) (air : nat -> Z) (n : nat).
Context (Hguard : 0 <= guard) (Hmono : forall i j, (i <= j < n)%nat -> 0 <= air i <= air j).

(** A frame in its sender's slot of a round that opened at [E]. *)
Definition in_slot (w : nat * Transmission.t) : Prop := (w.1 < n)%nat
  /\ Transmission.start_ms w.2 = E + Z.of_nat w.1 * (air w.1 + guard) /\ Transmission.airtime_ms w.2 = air w.1.
Lemma slots_ordered v w : in_slot v -> in_slot w -> (v.1 < w.1)%nat ->
  Transmission.end_ms v.2 <= Transmission.start_ms w.2.
Proof.
  intros (Hv & Hvs & Hva) (Hw & Hws & _) Hlt. unfold Transmission.end_ms, sat_add64. rewrite Hvs, Hws, Hva.
  pose proof (Hmono v.1 w.1 ltac:(lia)) as Hm. assert (Z.of_nat v.1 + 1 <= Z.of_nat w.1) by lia. nia.
Qed.
Lemma slots_apart v w : in_slot v -> in_slot w -> v.1 <> w.1 -> Transmission.overlaps v.2 w.2 = false.
Proof.
  intros Hv Hw Hne. unfold Transmission.overlaps. apply andb_false_iff. rewrite !Z.ltb_ge.
  destruct (decide (v.1 < w.1)%nat).
  - right. by apply slots_ordered.
  - left. apply slots_ordered; [done|done|lia].
Qed.
(** Everyone else's frame, seen from one position of the channel. *)
Lemma others_apart ws k w : Forall in_slot ws -> NoDup ws.*1 -> ws !! k = Some w ->
  Forall (fun o => Transmission.overlaps w.2 o = false) (delete k ws.*2).
Proof.
  intros Hall Hnd Hk. apply Forall_forall. intros o Ho. rewrite delete_take_drop in Ho.
  assert (exists j v, j <> k /\ ws !! j = Some v /\ o = v.2) as (j & v & Hj & Hv & ->).
  { apply elem_of_app in Ho as [Ho|Ho]; apply list_elem_of_lookup in Ho as [j Ho].
    - apply lookup_take_Some in Ho as [Ho Hlt]. apply list_lookup_fmap_Some in Ho as (v & -> & Hv). exists j, v. split; [lia|done].
    - rewrite lookup_drop in Ho. apply list_lookup_fmap_Some in Ho as (v & -> & Hv). exists (S k + j)%nat, v. split; [lia|done]. }
  rewrite Forall_lookup in Hall. apply slots_apart; [by apply (Hall k)|by apply (Hall j)|].
  intros Heq. apply Hj. eapply (NoDup_lookup ws.*1); [done| |]; apply list_lookup_fmap_Some; [by exists v|exists w; by rewrite Heq].
Qed.
End slots.

(** * A slotted round *)

Section slotted.
Context `{Dg : Digest, Ed : Ed25519, Ae : Aead, Sd : Serde SignedCompactEnvelope.t, Lm : Libm}.
Context (sc : Scenario.t) (hash : bytes) (frames : list bytes) (manifest : list VerifyingKey.t) (guard : Z).
Context (Hslots : Scenario.access sc = Access.Slotted guard) (Hguard : 0 <= guard).
Notation air := (air_of frames).
Notation fleet := (Scenario.fleet sc).
(** A longer frame never belongs to a smaller index, as with postcard's variable-width integers. *)
Context (Hmono : forall i j, (i <= j < fleet)%nat -> air i <= air j).
Lemma air_mono i j : (i <= j < fleet)%nat -> 0 <= air i <= air j.
Proof. intros Hij. split; [apply airtime_nonneg|by apply Hmono]. Qed.
#[local] Opaque air_of.

Lemma start_in_slot r s a w : start_for sc r s a w = (r, elapsed_ms r + Z.of_nat s * (a + guard)).
Proof. unfold start_for. by rewrite Hslots. Qed.

(** Everything on the air is in its slot, one frame a member. *)
Definition lined_up (E : Z) (pending : list nat) (ws : list (nat * Transmission.t)) : Prop :=
  Forall (in_slot E guard air fleet) ws /\ NoDup (pending ++ ws.*1) /\ Forall (fun i => i < fleet)%nat pending.
Lemma lined_up_skip E s pending ws : lined_up E (s :: pending) ws -> lined_up E pending ws.
Proof. intros (Ha & Hnd & Hf). split; [done|]. cbn [app] in Hnd. apply NoDup_cons in Hnd as [_ Hnd]. by apply Forall_cons in Hf as [_ Hf]. Qed.
Lemma lined_up_add E s pending ws rssi : lined_up E (s :: pending) ws ->
  lined_up E pending (ws ++ [(s, Transmission.new (E + Z.of_nat s * (air s + guard)) (air s) rssi)]).
Proof.
  intros (Ha & Hnd & Hf). apply Forall_cons in Hf as [Hs Hf]. split; [|split; [|done]].
  - apply Forall_app_2; [done|]. apply Forall_singleton. done.
  - rewrite fmap_app, app_assoc. cbn [fmap list_fmap fst].
    assert ((pending ++ ws.*1) ++ [s] ≡ₚ s :: pending ++ ws.*1) as -> by solve_Permutation. done.
Qed.
Lemma schedule_loop_slots round w pending r ws retry r' ws' retry' : lined_up (elapsed_ms r) pending ws ->
  schedule_loop sc frames round w pending r ws retry = (r', ws', retry') -> lined_up (elapsed_ms r) [] ws'.
Proof.
  revert r ws retry. induction pending as [|s pending IH]; intros r ws retry Hl; cbn [schedule_loop]; [by intros [= <- <- <-]|].
  cbv zeta. destruct (charge r s (air s) round) as [r1 c] eqn:Hc. apply run_charge_eq in Hc as (_ & _ & He). rewrite <- He in *.
  destruct c; cbn [negb]; [|by apply IH, (lined_up_skip _ s)]. rewrite start_in_slot.
  destruct (Topology.reaches _ _ _ _).
  - destruct (rssi_at_observer sc r1 s) as [r2 v] eqn:Hr. apply rssi_drew in Hr as (_ & _ & _ & He2). rewrite <- He2 in *.
    by apply IH, lined_up_add.
  - intros Hloop. change (elapsed_ms r1) with (elapsed_ms (record r1 round s (elapsed_ms r1 + Z.of_nat s * (air s + guard)) (air s)
      F64.neg_infinity Outcome.Unreachable)). eapply IH; [|exact Hloop]. by apply (lined_up_skip _ s).
Qed.

(** What the observer makes of a frame in its slot depends on its strength alone. *)
Definition in_the_clear (f : Transmission.t) : Reception.t :=
  if F64.ltb (Transmission.rssi_dbm f) SENSITIVITY_DBM then Reception.TooWeak else Reception.Decoded.
Lemma receive_in_slot E k ws s f : lined_up E [] ws -> ws !! k = Some (s, f) -> receive f (delete k ws.*2) = in_the_clear f.
Proof.
  intros (Ha & Hnd & _) Hk. apply receive_apart. change f with (s, f).2.
  exact (others_apart E guard air fleet Hguard air_mono ws k (s, f) Ha Hnd Hk).
Qed.
Lemma hear_clear_calm r s f r' o again : hear sc hash frames manifest r s (in_the_clear f) = (r', o, again) ->
  Tally.collided (tally r') = Tally.collided (tally r).
Proof.
  unfold in_the_clear. intros Hh. assert (o <> Outcome.Collided) as Hne.
  { destruct (F64.ltb _ SENSITIVITY_DBM); cbn [hear] in Hh; [congruence|].
    destruct (Rng.next_f64 _) as [g u]. destruct (F64.ltb u _); [congruence|].
    destruct (accept _ _ _ _ _) as [r1 v] eqn:Hacc. apply accept_cases in Hacc as (_ & _ & _ & Hv).
    destruct Hv as [[-> _]|[-> _]]; congruence. }
  apply hear_cases in Hh as ((_ & _ & _ & _ & Hc & _) & _). rewrite decide_False in Hc by done. lia.
Qed.
(** The tail of the channel still to be delivered, from position [k]. *)
Lemma deliver_loop_calm E round all k ws r retry r' retry' : lined_up E [] all -> drop k all = ws ->
  deliver_loop sc hash frames manifest round all.*2 k ws r retry = (r', retry') ->
  Tally.collided (tally r') = Tally.collided (tally r).
Proof.
  intros Hl. revert k r retry. induction ws as [|[s f] ws IH]; intros k r retry Hd; cbn [deliver_loop]; [by intros [= <- <-]|].
  assert (all !! k = Some (s, f) /\ drop (S k) all = ws) as [Hk Hd'].
  { split; [by rewrite <- (Nat.add_0_r k), <- lookup_drop, Hd|]. by rewrite <- Nat.add_1_r, <- drop_drop, Hd. }
  destruct (s =? OBSERVER)%nat; [by apply IH|]. rewrite (receive_in_slot E k all s f Hl Hk).
  destruct (hear _ _ _ _ _ _ _) as [[r1 o] again] eqn:Hh. apply hear_clear_calm in Hh. rewrite <- Hh.
  intros Hloop. by apply IH in Hloop.
Qed.

Lemma observer_slots r w pending : (0 < fleet)%nat -> Tally.on_air (tally r) = [] -> NoDup pending -> Forall (answers sc) pending ->
  let r' := observer_answers sc hash frames manifest r w in
  lined_up (elapsed_ms r') pending (Tally.on_air (tally r')) /\ Tally.collided (tally r') = Tally.collided (tally r).
Proof.
  intros Hfleet Hair Hnd Hp. cbv zeta. unfold observer_answers.
  assert (Forall (fun i => i < fleet)%nat pending /\ OBSERVER ∉ pending) as [Hin Hobs].
  { split; [eapply Forall_impl; [exact Hp|]; by intros i [[_ ?] _]|]. rewrite Forall_forall in Hp. intros Hobs. by destruct (Hp _ Hobs). }
  assert (forall E, lined_up E pending []) as Hempty by (intros E; split; [constructor|]; by rewrite app_nil_r).
  destruct (Scenario.silent sc =? 0)%nat; cbn [negb]; [|by rewrite Hair].
  destruct (charge r OBSERVER (air OBSERVER) 0) as [r1 charged] eqn:Hc. pose proof Hc as (Ht & _ & _)%run_charge_eq.
  assert (Tally.on_air (tally r1) = [] /\ Tally.collided (tally r1) = Tally.collided (tally r)) as [Hair1 Hcol1].
  { unfold Tally.charge in Ht. destruct (negb _); injection Ht as <- _ _; by split. }
  destruct charged.
  - rewrite start_in_slot. set (r2 := set_tally r1 _).
    destruct (accept hash frames manifest r2 OBSERVER) as [r3 v] eqn:Hacc.
    apply accept_cases in Hacc as ((_ & _ & _ & _ & Hcol & _ & _ & Hair2) & _ & He & Hv).
    cbn [record set_tally tally Tally.record Tally.on_air Tally.collided elapsed_ms]. rewrite Hair2, Hcol, He. split.
    + unfold r2. cbn [set_tally tally Tally.set_on_air Tally.on_air elapsed_ms]. rewrite Hair1. cbn [app].
      split; [|split; [|done]].
      * apply Forall_singleton. split; [done|]. split; done.
      * cbn [fmap list_fmap fst]. apply NoDup_app. split; [done|]. split; [|apply NoDup_singleton].
        by intros i Hi ->%list_elem_of_singleton.
    + rewrite decide_False, Z.add_0_r by (destruct Hv as [[-> _]|[-> _]]; done). unfold r2. cbn. done.
  - destruct (accept hash frames manifest r1 OBSERVER) as [r3 v] eqn:Hacc.
    apply accept_cases in Hacc as ((_ & _ & _ & _ & Hcol & _ & _ & Hair2) & _ & He & Hv).
    rewrite Hair2, Hair1, Hcol. split; [done|].
    rewrite decide_False, Z.add_0_r by (destruct Hv as [[-> _]|[-> _]]; done). done.
Qed.
Lemma schedule_loop_collided round w pending r ws retry r' ws' retry' :
  schedule_loop sc frames round w pending r ws retry = (r', ws', retry') -> Tally.collided (tally r') = Tally.collided (tally r).
Proof.
  revert r ws retry. induction pending as [|s pending IH]; intros r ws retry; cbn [schedule_loop]; [by intros [= <- <- <-]|].
  cbv zeta. destruct (charge r s (air s) round) as [r1 c] eqn:Hc. apply run_charge_eq in Hc as (Ht & _ & _).
  assert (Tally.collided (tally r1) = Tally.collided (tally r)) as <- by (unfold Tally.charge in Ht; destruct (negb _); injection Ht as <- _ _; done).
  destruct c; cbn [negb]; [|by apply IH]. rewrite start_in_slot. destruct (Topology.reaches _ _ _ _).
  - destruct (rssi_at_observer sc r1 s) as [r2 v] eqn:Hr. apply rssi_drew in Hr as (<- & _). apply IH.
  - intros Hloop. by apply IH in Hloop.
Qed.
Lemma round_calm slack round pending r r' retry : (0 < fleet)%nat -> between sc frames slack round pending r ->
  Tally.collided (tally r) = 0 -> round_ sc hash frames manifest r round pending = (r', retry) -> Tally.collided (tally r') = 0.
Proof.
  intros Hfleet [Hg _] Hcol. unfold round_. cbv zeta. destruct Hg as [_ Hair _ _ _ _ Honce Hwho _].
  cbn [senders filter list_filter fmap list_fmap app] in *. rewrite app_nil_r in Honce, Hwho.
  set (w := window_for sc frames round).
  assert (exists r1, (if (round =? 0)%nat then observer_answers sc hash frames manifest r w else r) = r1
    /\ lined_up (elapsed_ms r1) pending (Tally.on_air (tally r1)) /\ Tally.collided (tally r1) = 0) as (r1 & -> & Hl & Hcol1).
  { destruct (round =? 0)%nat; (eexists; split; [done|]).
    - rewrite <- Hcol. by apply observer_slots.
    - rewrite Hair. split; [|done]. split; [constructor|]. rewrite app_nil_r. split; [done|].
      eapply Forall_impl; [exact Hwho|]. by intros i [[_ ?] _]. }
  unfold schedule. destruct (schedule_loop _ _ _ _ _ _ _ _) as [[r2 ws] retry2] eqn:Hs.
  pose proof (schedule_loop_collided _ _ _ _ _ _ _ _ _ Hs) as Hcol2.
  apply schedule_loop_slots in Hs; [|exact Hl]. unfold deliver.
  destruct (deliver_loop _ _ _ _ _ _ _ _ _ _) as [r3 retry3] eqn:Hd.
  apply (deliver_loop_calm (elapsed_ms r1) _ ws 0 ws) in Hd; [|exact Hs|by rewrite drop_0]. intros [= <- <-].
  change (Tally.collided (tally r3) = 0). rewrite Hd, Hcol2. exact Hcol1.
Qed.
Lemma rounds_calm n slack round pending r : (0 < fleet)%nat -> slack_ok sc frames slack -> (round = 0%nat -> slack = 0) ->
  between sc frames slack round pending r -> Tally.collided (tally r) = 0 ->
  Tally.collided (tally (rounds sc hash frames manifest n round r pending)) = 0.
Proof.
  intros Hfleet. revert slack round pending r; induction n as [|n IH]; intros slack round pending r Hok Hz Hb Hr; cbn [rounds]; [done|].
  destruct pending as [|s pending]; [done|]. destruct (round_ _ _ _ _ _ _ _) as [r' retry] eqn:Hrd.
  destruct (round_between _ _ _ _ _ _ _ _ _ _ Hfleet Hok Hz Hb Hrd) as (slack' & Hok' & Hb').
  apply (IH slack'); [done|lia|done|]. exact (round_calm slack round _ r r' retry Hfleet Hb Hr Hrd).
Qed.
End slotted.

(** Slots keep their promise. When members transmit in the slots their indices earn
    them, none with a longer frame than a later one -- as the variable-width index and
    sequence of the encoding make it -- nothing is ever destroyed by an overlap, in any
    round, over any topology, distance, loss or share of the airtime already spent. *)
Theorem slots_never_collide `{Digest, Ed25519, Aead, Serde SignedCompactEnvelope.t, Libm} (s : Scenario.t) (rep : Report.t) (guard : Z) :
  (0 < Scenario.fleet s)%nat -> Scenario.access s = Access.Slotted guard -> 0 <= guard ->
  (forall frames, frames_of s frames -> forall i j, (i <= j < Scenario.fleet s)%nat -> air_of frames i <= air_of frames j) ->
  run s = Some rep ->
  Report.collided_frames rep = 0
  /\ Forall (fun e => TraceEntry.outcome e <> Outcome.Collided) (Report.timeline rep).
Proof.
  intros Hfleet Hacc Hguard Hmono (policy & subject & frames & _ & _ & Hframes & _ & (q & _ & ->)%report_inv)%run_report_inv.
  cbn [Report.collided_frames Report.timeline].
  assert (Tally.collided (tally (execution s subject frames)) = 0) as Hcol.
  { apply (rounds_calm s (Subject.content_hash subject) frames (manifest_of (Scenario.fleet s)) guard Hacc Hguard (Hmono _ Hframes)
      _ 0 0); [done|by left|done|by apply between_start|done]. }
  split; [done|].
  destruct (rounds_between s (Subject.content_hash subject) frames (manifest_of (Scenario.fleet s)) Scenario.MAX_RETRIES
    0 0 (answerers s) (Run.new s)) as (slack & pending & _ & [[_ _ Hbooks _ _ _ _ _ _] _]); [done|by left|done|by apply between_start|].
  fold (execution s subject frames) in Hbooks. apply b_collided in Hbooks. rewrite Hcol in Hbooks. unfold count, len in Hbooks.
  apply Forall_forall. intros e He Ho.
  assert (e ∈ filter (fun e => TraceEntry.outcome e = Outcome.Collided) (Tally.timeline (tally (execution s subject frames)))) as Hin
    by (by apply list_elem_of_filter). destruct (filter _ _); [by apply elem_of_nil in Hin|cbn in Hbooks; lia].
Qed.

(** A table of airtimes, checked pair by pair. *)
Lemma airtimes_checked frames n : forallb (fun j => forallb (fun i => air_of frames i <=? air_of frames j) (seq 0 (S j))) (seq 0 n) = true ->
  forall i j, (i <= j < n)%nat -> air_of frames i <= air_of frames j.
Proof.
  intros Hall i j Hij. rewrite forallb_forall in Hall. specialize (Hall j ltac:(apply in_seq; lia)).
  rewrite forallb_forall in Hall. by apply Z.leb_le, Hall, in_seq; lia.
Qed.
#[local] Existing Instances toy_digest toy_ed25519 toy_ed25519_laws clear_aead clear_aead_laws wide_serde wide_serde_laws flat_libm.
Lemma slots_never_collide_witness :
  match run (Scenario.with_slots (Scenario.with_loss (Scenario.new 5) (F64.dyadic 1 1)) 20) with
  | Some rep => Report.collided_frames rep = 0
  | None => False
  end.
Proof.
  pose proof (slots_never_collide (Scenario.with_slots (Scenario.with_loss (Scenario.new 5) (F64.dyadic 1 1)) 20)) as Hall.
  destruct (run _) as [rep|] eqn:Hrun; [|vm_compute in Hrun; discriminate]. clear Hrun.
  apply (Hall rep 20 ltac:(vm_compute; lia) eq_refl ltac:(vm_compute; congruence)); [|reflexivity].
  intros frames (subject & Hs & Hf). vm_compute in Hs. assert (subject = Subject.mk (lit "sim") (lit "evt-1") 0 (replicate 32 17)
    (Timestamp.from_secs 0)) as -> by (vm_compute; congruence). clear Hs.
  vm_compute in Hf. injection Hf as <-. apply airtimes_checked. vm_compute. reflexivity.
Defined.

(** * A fleet in reach endorses *)

Lemma not_below_zero x : F64.leb (F64.of_Z 0) x = true -> F64.ltb x (F64.of_Z 0) = false.
Proof. destruct x as [[]|[]| |[] m e]; done. Qed.

Section growth.
Context `{Dg : Digest, Ed : Ed25519, Ae : Aead, Sd : Serde SignedCompactEnvelope.t, Lm : Libm}.
Context (sc : Scenario.t) (hash : bytes) (frames : list bytes) (manifest : list VerifyingKey.t).
#[local] Opaque air_of.

(** Support is never withdrawn. *)
Lemma accept_grows r s r' o : accept hash frames manifest r s = (r', o) -> verified r ⊆ verified r'.
Proof.
  intros (_ & _ & _ & Hv)%accept_cases. destruct Hv as [(_ & -> & _)|(_ & c & _ & ->)]; [done|].
  case_bool_decide; [done|]. intros id Hid. apply elem_of_app. by left.
Qed.
Lemma accept_vouched r s c r' o : vouches hash frames manifest s c -> (forall c', vouches hash frames manifest s c' -> c' = c) ->
  accept hash frames manifest r s = (r', o) -> member_id c ∈ verified r'.
Proof.
  intros Hc Huniq (_ & _ & _ & Hv)%accept_cases. destruct Hv as [(_ & _ & Hno)|(_ & c' & Hc' & ->)]; [by destruct (Hno c)|].
  apply Huniq in Hc' as ->. case_bool_decide; [done|]. apply elem_of_app. right. by apply list_elem_of_singleton.
Qed.
Lemma hear_grows r s rec r' o again : hear sc hash frames manifest r s rec = (r', o, again) -> verified r ⊆ verified r'.
Proof.
  destruct rec; cbn [hear]; [|by intros [= <- <- <-]..].
  destruct (Rng.next_f64 (rng r)) as [g u]. destruct (F64.ltb u _); [by intros [= <- <- <-]|].
  destruct (accept _ _ _ _ _) as [r1 v] eqn:Hacc. intros [= <- <- <-]. by apply accept_grows in Hacc.
Qed.
Lemma schedule_loop_verified round w pending r ws retry r' ws' retry' :
  schedule_loop sc frames round w pending r ws retry = (r', ws', retry') -> verified r' = verified r.
Proof.
  revert r ws retry. induction pending as [|s pending IH]; intros r ws retry; cbn [schedule_loop]; [by intros [= <- <- <-]|].
  cbv zeta. destruct (charge r s _ round) as [r1 c] eqn:Hc. apply run_charge_eq in Hc as (_ & <- & _).
  destruct c; cbn [negb]; [|by apply IH]. destruct (start_for _ _ _ _ _) as [r2 start] eqn:Hs.
  apply start_for_drew in Hs as (_ & _ & <- & _). destruct (Topology.reaches _ _ _ _).
  - destruct (rssi_at_observer sc r2 s) as [r3 v] eqn:Hr. apply rssi_drew in Hr as (_ & _ & <- & _). apply IH.
  - intros Hl. by apply IH in Hl.
Qed.
Lemma deliver_loop_grows round channel k ws r retry r' retry' :
  deliver_loop sc hash frames manifest round channel k ws r retry = (r', retry') -> verified r ⊆ verified r'.
Proof.
  revert k r retry. induction ws as [|[s f] ws IH]; intros k r retry; cbn [deliver_loop]; [by intros [= <- <-]|].
  destruct (s =? OBSERVER)%nat; [by apply IH|]. destruct (hear _ _ _ _ _ _ _) as [[r1 o] again] eqn:Hh.
  apply hear_grows in Hh. intros Hl%IH. etrans; [exact Hh|exact Hl].
Qed.
Lemma observer_grows r w : verified r ⊆ verified (observer_answers sc hash frames manifest r w).
Proof.
  unfold observer_answers. destruct (negb _); [done|]. cbv zeta.
  destruct (charge r OBSERVER _ 0) as [r1 charged] eqn:Hc. apply run_charge_eq in Hc as (_ & <- & _). destruct charged.
  - destruct (start_for _ _ _ _ _) as [r2 start] eqn:Hs. apply start_for_drew in Hs as (_ & _ & <- & _).
    destruct (accept _ _ _ _ _) as [r3 v] eqn:Hacc. by apply accept_grows in Hacc.
  - destruct (accept _ _ _ _ _) as [r3 v] eqn:Hacc. by apply accept_grows in Hacc.
Qed.
Lemma round_grows round pending r r' retry : round_ sc hash frames manifest r round pending = (r', retry) -> verified r ⊆ verified r'.
Proof.
  unfold round_, schedule, deliver. cbv zeta. set (r1 := if (round =? 0)%nat then _ else r).
  assert (verified r ⊆ verified r1) as H1 by (unfold r1; destruct (round =? 0)%nat; [apply observer_grows|done]).
  destruct (schedule_loop _ _ _ _ _ _ _ _) as [[r2 ws] retry2] eqn:Hs. apply schedule_loop_verified in Hs.
  destruct (deliver_loop _ _ _ _ _ _ _ _ _ _) as [r3 retry3] eqn:Hd. apply deliver_loop_grows in Hd. intros [= <- <-].
  cbn [set_elapsed verified]. rewrite Hs in Hd. etrans; [exact H1|exact Hd].
Qed.
Lemma rounds_step n round pending r : pending <> [] -> rounds sc hash frames manifest (S n) round r pending
  = let '(r', pending) := round_ sc hash frames manifest r round pending in rounds sc hash frames manifest n (S round) r' pending.
Proof. by destruct pending. Qed.
Lemma rounds_grow n round pending r : verified r ⊆ verified (rounds sc hash frames manifest n round r pending).
Proof.
  revert round pending r; induction n as [|n IH]; intros round pending r; cbn [rounds]; [done|].
  destruct pending as [|s pending]; [done|]. destruct (round_ _ _ _ _ _ _ _) as [r' retry] eqn:Hr.
  apply round_grows in Hr. etrans; [exact Hr|apply IH].
Qed.
End growth.

Section reach.
Context `{Dg : Digest, Ed : Ed25519, Ae : Aead, Sd : Serde SignedCompactEnvelope.t, Lm : Libm}.
Context (sc : Scenario.t) (hash : bytes) (frames : list bytes) (manifest : list VerifyingKey.t) (guard : Z).
Context (Hslots : Scenario.access sc = Access.Slotted guard) (Hguard : 0 <= guard).
Notation air := (air_of frames).
Notation fleet := (Scenario.fleet sc).
Context (Hmono : forall i j, (i <= j < fleet)%nat -> air i <= air j).
Context (Htopo : Scenario.topology sc = Topology.FullyConnected) (Hloss : Scenario.loss sc = F64.of_Z 0).
Context (Hflat : Scenario.spacing_m sc = None).
Context (Hown : forall i c, (i < fleet)%nat -> vouches hash frames manifest i c <-> c = i).
#[local] Opaque air_of.

Lemma charge_affordable r s a round : nth s (used_airtime r) 0 + a <= DUTY_CYCLE_BUDGET_MS -> exists r',
  charge r s a round = (r', true) /\ used_airtime r' = <[s := nth s (used_airtime r) 0 + a]> (used_airtime r)
  /\ Tally.frames_sent (tally r') = Tally.frames_sent (tally r) + 1 /\ Tally.on_air (tally r') = Tally.on_air (tally r)
  /\ verified r' = verified r /\ elapsed_ms r' = elapsed_ms r.
Proof.
  intros Hok%duty_cycle_ok_spec. unfold charge, Tally.charge. rewrite Hok. cbn [negb]. eexists. split; [done|]. by split_and!.
Qed.
Lemma nth_insert_other (l : list Z) i j v : i <> j -> nth j (<[i := v]> l) 0 = nth j l 0.
Proof. intros Hne. rewrite !nth_lookup. by rewrite list_lookup_insert_ne. Qed.

(** A member's frame in its slot, at the strength everyone has without geometry. *)
Definition slot_frame (E : Z) (s : nat) : nat * Transmission.t :=
  (s, Transmission.new (E + Z.of_nat s * (air s + guard)) (air s) Scenario.NOMINAL_RSSI_DBM).
Lemma schedule_loop_all round w pending r ws retry : NoDup pending -> OBSERVER ∉ pending ->
  Forall (fun s => nth s (used_airtime r) 0 + air s <= DUTY_CYCLE_BUDGET_MS) pending ->
  exists r', schedule_loop sc frames round w pending r ws retry = (r', ws ++ (slot_frame (elapsed_ms r) <$> pending), retry)
    /\ verified r' = verified r /\ elapsed_ms r' = elapsed_ms r
    /\ Tally.frames_sent (tally r') = Tally.frames_sent (tally r) + len pending.
Proof.
  revert r ws. induction pending as [|s pending IH]; intros r ws Hnd Hobs Hall; cbn [schedule_loop].
  { exists r. rewrite app_nil_r. split_and!; [done..|]. unfold len. cbn [length]. lia. }
  apply NoDup_cons in Hnd as [Hs Hnd]. apply not_elem_of_cons in Hobs as [Hne Hobs]. apply Forall_cons in Hall as [Ha Hall].
  cbv zeta. destruct (charge_affordable r s (air s) round Ha) as (r1 & -> & Hu & Hf & _ & Hv & He). cbn [negb].
  rewrite (start_in_slot sc guard Hslots). unfold rssi_at_observer. rewrite Htopo, Hflat. cbn [Topology.reaches].
  destruct (Nat.eqb_spec s OBSERVER) as [->|_]; [done|]. cbn [negb].
  destruct (IH r1 (ws ++ [slot_frame (elapsed_ms r) s]) Hnd Hobs) as (r' & Hl & Hv' & He' & Hf').
  { rewrite Hu. apply Forall_forall. intros t Ht. rewrite Forall_forall in Hall.
    rewrite nth_insert_other by (intros ->; done). by apply Hall. }
  exists r'. rewrite fmap_cons. rewrite He in *. rewrite <- app_assoc in Hl. unfold slot_frame at 1 in Hl.
  split; [exact Hl|]. split_and!; [congruence|congruence|]. rewrite Hf', Hf. unfold len. cbn [length]. lia.
Qed.

(** A frame in the clear is heard, counted, and tried again only without acknowledgements. *)
Lemma hear_decoded r s r' o again : (s < fleet)%nat -> hear sc hash frames manifest r s Reception.Decoded = (r', o, again) ->
  member_id s ∈ verified r' /\ again = bool_decide (Scenario.acknowledgement sc = Acknowledgement.NoAck)
  /\ Tally.frames_sent (tally r') = Tally.frames_sent (tally r).
Proof.
  intros Hs. cbn [hear]. pose proof (next_f64_range (rng r)) as [Hu _]. destruct (Rng.next_f64 (rng r)) as [g u]. cbn [snd] in Hu.
  rewrite Hloss, (not_below_zero u Hu). destruct (accept _ _ _ _ _) as [r1 v] eqn:Hacc. intros [= <- <- <-].
  pose proof Hacc as ((_ & Hf & _) & _)%accept_cases. split; [|by split].
  apply (accept_vouched hash frames manifest (set_rng r g) s s r1 v); [by apply Hown| |done]. intros c. by apply Hown.
Qed.
Lemma deliver_loop_all E round all k ws r retry r' retry' : lined_up sc frames guard E [] all -> drop k all = ws ->
  Forall (fun w => w.1 = OBSERVER \/ Transmission.rssi_dbm w.2 = Scenario.NOMINAL_RSSI_DBM) ws ->
  deliver_loop sc hash frames manifest round all.*2 k ws r retry = (r', retry') ->
  (forall s, s ∈ ws.*1 -> s <> OBSERVER -> member_id s ∈ verified r')
  /\ (Scenario.acknowledgement sc = Acknowledgement.Assumed -> retry' = retry)
  /\ Tally.frames_sent (tally r') = Tally.frames_sent (tally r).
Proof.
  intros Hl. revert k r retry. induction ws as [|[s f] ws IH]; intros k r retry Hd Hstrong; cbn [deliver_loop].
  { intros [= <- <-]. split; [by intros s ?%elem_of_nil|done]. }
  assert (all !! k = Some (s, f) /\ drop (S k) all = ws) as [Hk Hd'].
  { split; [by rewrite <- (Nat.add_0_r k), <- lookup_drop, Hd|]. by rewrite <- Nat.add_1_r, <- drop_drop, Hd. }
  apply Forall_cons in Hstrong as [Hs Hstrong]. destruct (Nat.eqb_spec s OBSERVER) as [->|Hne].
  { intros Hloop%IH; [|done|done]. destruct Hloop as (Hv & Hrest). split; [|done].
    rewrite fmap_cons. intros s [->|Hin]%elem_of_cons; [done|by apply Hv]. }
  destruct Hs as [?|Hs]; [done|]. cbn [snd] in Hs.
  rewrite (receive_in_slot sc frames guard Hguard Hmono E k all s f Hl Hk). unfold in_the_clear. rewrite Hs.
  change (F64.ltb Scenario.NOMINAL_RSSI_DBM SENSITIVITY_DBM) with false. cbv iota.
  destruct (hear _ _ _ _ _ _ _) as [[r1 o] again] eqn:Hh.
  destruct Hl as (Hin & _ & _). pose proof (proj1 (Forall_lookup _ _) Hin k _ Hk) as [Hlt _].
  apply hear_decoded in Hh as (Hmem & -> & Hf); [|exact Hlt]. intros Hloop. pose proof Hloop as Hgrow%deliver_loop_grows.
  apply IH in Hloop as (Hv & Hr & Hf2); [|done|done]. split_and!.
  - rewrite fmap_cons. intros t [->|Ht]%elem_of_cons; [intros _; by apply Hgrow|by apply Hv].
  - intros Hack. rewrite Hr by done. by rewrite Hack.
  - rewrite Hf2. exact Hf.
Qed.

Context (Hfleet : (0 < fleet)%nat) (Hvocal : Scenario.silent sc = 0%nat).
Context (Hbudget : forall i, (i < fleet)%nat -> Scenario.prior_airtime_ms sc + air i <= DUTY_CYCLE_BUDGET_MS).

Lemma answerers_in i : i ∈ answerers sc <-> (0 < i < fleet)%nat.
Proof.
  unfold answerers. rewrite Hvocal, Nat.sub_0_r, list_elem_of_filter, elem_of_seq. unfold OBSERVER. lia.
Qed.
Lemma answerers_count : len (answerers sc) = Z.of_nat fleet - 1.
Proof.
  assert (answerers sc ≡ₚ seq 1 (fleet - 1)) as Hp.
  { apply NoDup_Permutation; [apply NoDup_filter, NoDup_seq|apply NoDup_seq|]. intros i. rewrite answerers_in, elem_of_seq. lia. }
  unfold len. rewrite Hp, length_seq. lia.
Qed.

(** The observer's own vote, from a fresh start. *)
Lemma observer_votes w : exists r4 f, observer_answers sc hash frames manifest (Run.new sc) w = r4
  /\ Tally.on_air (tally r4) = [(OBSERVER, f)] /\ member_id OBSERVER ∈ verified r4 /\ Tally.frames_sent (tally r4) = 1
  /\ (forall s, s <> OBSERVER -> nth s (used_airtime r4) 0 = nth s (used_airtime (Run.new sc)) 0).
Proof.
  unfold observer_answers. rewrite Hvocal. cbn [Nat.eqb negb]. cbv zeta.
  assert (forall i, (i < fleet)%nat -> nth i (used_airtime (Run.new sc)) 0 = Scenario.prior_airtime_ms sc) as Hused.
  { intros i Hi. apply nth_lookup_Some. unfold Run.new. cbn [used_airtime]. by apply lookup_replicate_2. }
  destruct (charge_affordable (Run.new sc) OBSERVER (air OBSERVER) 0) as (r1 & -> & Hu & Hf & Ha & _ & _).
  { rewrite Hused by done. by apply Hbudget. }
  rewrite (start_in_slot sc guard Hslots). set (r2 := set_tally r1 _). destruct (accept _ _ _ _ _) as [r3 v] eqn:Hacc.
  pose proof Hacc as ((_ & Hf3 & _ & _ & _ & _ & _ & Ha3) & Hu3 & _ & _)%accept_cases.
  apply (accept_vouched hash frames manifest r2 OBSERVER OBSERVER) in Hacc; [|by apply Hown|intros c; by apply Hown].
  eexists _, _. split; [done|]. cbn [record set_tally tally Tally.record Tally.on_air Tally.frames_sent verified used_airtime].
  rewrite Ha3, Hf3, Hu3. unfold r2. cbn [set_tally tally Tally.set_on_air Tally.on_air Tally.frames_sent used_airtime].
  rewrite Ha, Hf, Hu. split; [done|]. split; [done|]. split; [done|]. intros s Hs. by apply nth_insert_other.
Qed.
Lemma round_zero_all r' retry : round_ sc hash frames manifest (Run.new sc) 0 (answerers sc) = (r', retry) ->
  (forall i, (i < fleet)%nat -> member_id i ∈ verified r')
  /\ (Scenario.acknowledgement sc = Acknowledgement.Assumed -> retry = [] /\ Tally.frames_sent (tally r') = Z.of_nat fleet).
Proof.
  unfold round_. cbn [Nat.eqb]. cbv zeta. set (w := window_for sc frames 0).
  assert (NoDup (answerers sc) /\ Forall (answers sc) (answerers sc)) as [Hnd Hans].
  { split; [apply NoDup_filter, NoDup_seq|]. apply Forall_forall. intros i Hi%answerers_in. unfold answers, OBSERVER. lia. }
  pose proof (observer_slots sc hash frames manifest guard Hslots (Run.new sc) w (answerers sc) Hfleet eq_refl Hnd Hans) as [Hl _].
  destruct (observer_votes w) as (r4 & f & Heq & Ha & Hm & Hf & Hu). rewrite Heq in *. rewrite Ha in Hl. unfold schedule. rewrite Ha.
  set (r5 := set_tally r4 _).
  destruct (schedule_loop_all 0 w (answerers sc) r5 [(OBSERVER, f)] []) as (r6 & Hs & Hv6 & _ & Hf6); [done| | |].
  { intros Hin%answerers_in. unfold OBSERVER in Hin. lia. }
  { apply Forall_forall. intros s Hs%answerers_in. change (used_airtime r5) with (used_airtime r4).
    rewrite Hu by (unfold OBSERVER; lia). unfold Run.new. cbn [used_airtime].
    rewrite (nth_lookup_Some _ _ _ (Scenario.prior_airtime_ms sc)) by (apply lookup_replicate_2; lia). apply Hbudget. lia. }
  rewrite Hs. change (elapsed_ms r4) with (elapsed_ms r5) in Hl.
  pose proof (schedule_loop_slots sc frames guard Hslots _ _ _ _ _ _ _ _ _ Hl Hs) as Hl6.
  unfold deliver. destruct (deliver_loop _ _ _ _ _ _ _ _ _ _) as [r7 retry7] eqn:Hd.
  pose proof Hd as Hgrow%deliver_loop_grows.
  apply (deliver_loop_all (elapsed_ms r5) 0 _ 0 _ r6) in Hd as (Hv & Hr & Hf7); [|exact Hl6|by rewrite drop_0|].
  2: { apply Forall_cons. split; [by left|]. apply Forall_fmap, Forall_forall. intros i _. by right. }
  intros [= <- <-]. cbn [set_elapsed verified tally]. split.
  - intros i Hi. destruct (decide (i = OBSERVER)) as [->|Hne]; [apply Hgrow; by rewrite Hv6|].
    apply Hv; [|done]. cbn [app]. rewrite fmap_cons. right. rewrite <- list_fmap_compose.
    apply list_elem_of_fmap. exists i. split; [done|]. apply answerers_in. unfold OBSERVER in Hne. lia.
  - intros Hack. rewrite Hr by done. split; [done|]. rewrite Hf7, Hf6, answerers_count.
    change (Tally.frames_sent (tally r5)) with (Tally.frames_sent (tally r4)). lia.
Qed.
End reach.

(** And an honest fleet in reach gets there. With nobody silent or forging, every member
    connected, no residual loss, slots, and enough of the hour left for one frame each,
    the run reports an endorsement by the whole fleet; and where a sender learns that it
    was heard, one frame a member is all it takes. *)
Theorem honest_fleet_endorses
    `{Digest, Ed25519Laws, AeadLaws, SerdeLaws SignedCompactEnvelope.t, Libm} (s : Scenario.t) (frames : list bytes) (guard : Z) :
  2 <= Z.of_nat (Scenario.fleet s) <= 65536 -> keys_apart (Scenario.fleet s) ->
  Scenario.access s = Access.Slotted guard -> 0 <= guard -> Scenario.topology s = Topology.FullyConnected ->
  Scenario.loss s = F64.of_Z 0 -> Scenario.spacing_m s = None -> Scenario.silent s = 0%nat -> Scenario.forgers s = 0%nat ->
  frames_of s frames ->
  (forall i j, (i <= j < Scenario.fleet s)%nat -> air_of frames i <= air_of frames j) ->
  (forall i, (i < Scenario.fleet s)%nat -> Scenario.prior_airtime_ms s + air_of frames i <= DUTY_CYCLE_BUDGET_MS) ->
  exists rep, run s = Some rep /\ Report.endorsed rep = true
    /\ Report.binding_supporters rep = Z.of_nat (Scenario.fleet s)
    /\ (Scenario.acknowledgement s = Acknowledgement.Assumed -> Report.frames_sent rep = Z.of_nat (Scenario.fleet s)).
Proof.
  intros Hsize Hapart Hacc Hguard Htopo Hloss Hflat Hsilent Hforgers (subject & Hsub & Hframes) Hmono Hbudget.
  destruct (supporters_count s subject frames Hsize Hapart Hframes) as (voters & Hv & Hnd & Hcount).
  set (r := execution s subject frames) in *.
  assert (forall i c, (i < Scenario.fleet s)%nat -> vouches (Subject.content_hash subject) frames (manifest_of (Scenario.fleet s)) i c <-> c = i) as Hown.
  { intros i c Hi. rewrite (vouches_own s subject frames Hsize Hapart Hframes i c Hi).
    assert (is_forger s i = false) as ->; [|tauto]. unfold is_forger. rewrite Hsilent, Hforgers.
    apply andb_false_iff. right. apply Nat.ltb_ge. lia. }
  assert (answerers s <> []) as Hans.
  { intros He. assert (1%nat ∈ answerers s) as Hin by (apply (answerers_in s ltac:(lia) Hsilent); lia). rewrite He in Hin. by apply elem_of_nil in Hin. }
  assert ((forall i, (i < Scenario.fleet s)%nat -> member_id i ∈ verified r)
    /\ (Scenario.acknowledgement s = Acknowledgement.Assumed -> Tally.frames_sent (tally r) = Z.of_nat (Scenario.fleet s))) as [Hall Hsent].
  { unfold r, execution, Scenario.MAX_RETRIES. rewrite rounds_step by done.
    destruct (round_ _ _ _ _ _ 0 _) as [r1 retry] eqn:Hround.
    apply (round_zero_all s _ frames _ guard Hacc Hguard Hmono Htopo Hloss Hflat Hown ltac:(lia) Hsilent Hbudget) in Hround as [Hin Hquiet].
    split; [intros j Hj; apply rounds_grow; by apply Hin|]. intros Hack. destruct (Hquiet Hack) as [-> Hf]. exact Hf. }
  assert (voters ≡ₚ seq 0 (Scenario.fleet s)) as Hperm.
  { apply NoDup_Permutation; [done|apply NoDup_seq|]. intros j. rewrite elem_of_seq. split.
    - intros Hj. rewrite Forall_forall in Hcount. destruct (Hcount j Hj) as [[[_ Hlt] _] _]. lia.
    - intros [_ Hj]. specialize (Hall j Hj). rewrite Hv in Hall. apply list_elem_of_fmap in Hall as (k & Heq & Hk).
      rewrite Forall_forall in Hcount. destruct (Hcount k Hk) as [[[_ Hlt] _] _].
      apply member_id_inj in Heq as ->; [done|width; lia..]. }
  assert (len (verified r) = Z.of_nat (Scenario.fleet s)) as Hlen.
  { rewrite Hv. unfold len. by rewrite length_fmap, Hperm, length_seq. }
  destruct (fleet_verdict (Scenario.fleet s) ltac:(lia) ltac:(width; lia) (verified r)) as (q & Hq & Happ).
  { rewrite Hv. apply (ids_nodup (Scenario.fleet s)); [lia|width; lia| |done].
    eapply Forall_impl; [exact Hcount|]. by intros j [[[_ ?] _] _]. }
  { apply Forall_forall. intros id Hid. rewrite Hv in Hid. by rewrite <- Hperm. }
  unfold run. rewrite policy_for_ok by (width; lia). rewrite Hsub. cbn [mbind option_bind]. rewrite Hframes. cbn [mbind option_bind].
  fold r. unfold report_of. rewrite Hq. eexists. split; [done|]. cbn [Report.endorsed Report.binding_supporters Report.frames_sent].
  split; [|by split].
  rewrite Happ, Hlen. destruct (fleet_majority (Scenario.fleet s) ltac:(lia) ltac:(width; lia) ltac:(lia)) as [_ Hle].
  apply andb_true_iff. rewrite Z.leb_le, Z.ltb_lt. lia.
Qed.

Definition slotted_five : Scenario.t := Scenario.with_slots (Scenario.new 5) 20.
Definition frames_five : list bytes :=
  default [] (subject ← sim_subject; mapM (fun i => frame_for slotted_five i subject (keys_of 5)) (seq 0 5)).
Lemma honest_fleet_endorses_witness : exists rep, run slotted_five = Some rep /\ Report.endorsed rep = true
  /\ Report.binding_supporters rep = 5 /\ (Acknowledgement.Assumed = Acknowledgement.Assumed -> Report.frames_sent rep = 5).
Proof.
  apply (honest_fleet_endorses slotted_five frames_five 20); try reflexivity.
  - vm_compute. split; congruence.
  - apply toy_keys_apart.
  - vm_compute. congruence.
  - eexists. split; [reflexivity|]. vm_compute. reflexivity.
  - apply airtimes_checked. vm_compute. reflexivity.
  - intros i Hi. change (Scenario.fleet slotted_five) with 5%nat in Hi.
    do 5 (destruct i as [|i]; [vm_compute; congruence|]). lia.
Defined.
