(* ===== verification/SimRounds.v ===== *)
(** The simulator judges one round at a time. This file shows when that is sound: every
    frame that reaches the observer is over before the next round opens -- and that a frame
    which does not reach it need not be. *)
From S2P Require Import Prelude Float Time Contracts Quorum Budget Radio Crypto Codec WireDemo.
From S2P Require Import Channel Rng Phy Medium SimScenario SimLedger SimQuorum SimSlots.
Import Run.

Definition aired (e : TraceEntry.t) : bool := Outcome.went_on_air (TraceEntry.outcome e).
Definition arrived (e : TraceEntry.t) : bool := aired e && negb (bool_decide (TraceEntry.outcome e = Outcome.Unreachable)).
Definition over (e : TraceEntry.t) : Z := sat_add64 (TraceEntry.start_ms e) (TraceEntry.airtime_ms e).

Section times.
Context `{Dg : Digest, Ed : Ed25519, Ae : Aead, Sd : Serde SignedCompactEnvelope.t, Lm : Libm}.
Context (sc : Scenario.t) (hash : bytes) (frames : list bytes) (manifest : list VerifyingKey.t).
Context (Hguard : forall guard, Scenario.access sc = Access.Slotted guard -> 0 <= guard).
Lemma air_nonneg s : 0 <= air_of frames s.
Proof. apply airtime_nonneg. Qed.
#[local] Opaque air_of.

(** An entry of a round that opened at [E]: it starts there or later, and if it arrives
    its frame is one of those on the channel. *)
Definition entered (E : Z) (round : nat) (ws : list (nat * Transmission.t)) (e : TraceEntry.t) : Prop :=
  TraceEntry.round e = round /\ (aired e = true -> E <= TraceEntry.start_ms e)
  /\ (arrived e = true -> exists w, w ∈ ws /\ over e = Transmission.end_ms w.2).
(** [r'] continues [r] by entries of this round. *)
Definition continues (E : Z) (round : nat) (ws : list (nat * Transmission.t)) (r r' : Run.t) : Prop :=
  exists new, Tally.timeline (tally r') = Tally.timeline (tally r) ++ new /\ Forall (entered E round ws) new.
Lemma continues_refl E round ws r r' : Tally.timeline (tally r') = Tally.timeline (tally r) -> continues E round ws r r'.
Proof. intros Ht. exists []. by rewrite app_nil_r, Ht. Qed.
Lemma continues_trans E round ws r1 r2 r3 : continues E round ws r1 r2 -> continues E round ws r2 r3 -> continues E round ws r1 r3.
Proof. intros (a & Ha & HA) (b & Hb & HB). exists (a ++ b). rewrite Hb, Ha, app_assoc. split; [done|by apply Forall_app_2]. Qed.
Lemma continues_more E round ws ws' r r' : ws ⊆ ws' -> continues E round ws r r' -> continues E round ws' r r'.
Proof.
  intros Hsub (new & Hn & Hall). exists new. split; [done|]. eapply Forall_impl; [exact Hall|].
  intros e (? & ? & Hw). split_and!; [done|done|]. intros Ha. destruct (Hw Ha) as (w & Hin & ?). exists w. split; [by apply Hsub|done].
Qed.
Lemma continues_record E round ws r r1 s start a rssi o : Tally.timeline (tally r1) = Tally.timeline (tally r) ->
  entered E round ws (TraceEntry.mk round s start a rssi o) -> continues E round ws r (record r1 round s start a rssi o).
Proof. intros Ht He. eexists [_]. cbn. rewrite Ht. split; [done|]. by apply Forall_singleton. Qed.
Lemma continues_charge E round ws r s a r' c : charge r s a round = (r', c) -> continues E round ws r r'.
Proof.
  intros (Ht & _ & _)%run_charge_eq. unfold Tally.charge in Ht. destruct (negb _); injection Ht as Ht _ _.
  - eexists [_]. rewrite <- Ht. cbn. split; [done|]. by apply Forall_singleton.
  - exists []. rewrite <- Ht. cbn. by rewrite app_nil_r.
Qed.

Lemma start_after r s round r' start : start_for sc r s (air_of frames s) (window_for sc frames round) = (r', start) -> elapsed_ms r <= start.
Proof.
  unfold start_for, window_for. destruct (Scenario.access sc) as [|guard] eqn:Hacc.
  - assert (0 < Scenario.window_ms round) as Hw by (unfold Scenario.window_ms; destruct round as [|[|[|]]]; by vm_compute).
    unfold Rng.below. destruct (Z.eqb_spec (Scenario.window_ms round) 0); [lia|].
    unfold Rng.next_u64. cbv zeta. intros [= <- <-].
    pose proof (Z.mod_pos_bound (wrap64 (Rng.xorshift (rng r) * Rng.MULTIPLIER)) _ Hw). lia.
  - intros [= <- <-]. pose proof (air_nonneg s). specialize (Hguard guard eq_refl). nia.
Qed.

Lemma schedule_loop_times round pending r ws retry r' ws' retry' : let E := elapsed_ms r in
  schedule_loop sc frames round (window_for sc frames round) pending r ws retry = (r', ws', retry') ->
  Forall (fun w => E <= Transmission.start_ms w.2) ws ->
  elapsed_ms r' = E /\ Forall (fun w => E <= Transmission.start_ms w.2) ws' /\ continues E round ws' r r'.
Proof.
  cbv zeta. revert r ws retry. induction pending as [|s pending IH]; intros r ws retry; cbn [schedule_loop].
  { intros [= <- <- <-] Hws. split_and!; [done|done|by apply continues_refl]. }
  cbv zeta. destruct (charge r s _ round) as [r1 c] eqn:Hc. pose proof Hc as (_ & _ & He1)%run_charge_eq.
  destruct c; cbn [negb].
  2: { intros Hl Hws. rewrite <- He1 in *. apply IH in Hl as (He & Hw & Hcont); [|done]. split_and!; [done|done|].
       eapply continues_trans; [by eapply continues_charge|done]. }
  destruct (start_for _ _ _ _ _) as [r2 start] eqn:Hs. pose proof (start_after _ _ _ _ _ Hs) as Hafter.
  apply start_for_drew in Hs as (Ht2 & _ & _ & He2). destruct (Topology.reaches _ _ _ _).
  - destruct (rssi_at_observer sc r2 s) as [r3 v] eqn:Hr. apply rssi_drew in Hr as (Ht3 & _ & _ & He3). intros Hl Hws.
    assert (elapsed_ms r3 = elapsed_ms r) as He by congruence. rewrite <- He in *.
    apply IH in Hl as (He' & Hw & Hcont).
    2: { apply Forall_app_2; [done|]. apply Forall_singleton. cbn. lia. }
    split_and!; [done|done|]. eapply continues_trans; [by eapply continues_charge|].
    eapply continues_trans; [apply (continues_refl _ _ _ r1 r3); congruence|done].
  - intros Hl Hws. set (r3 := record r2 _ _ _ _ _ _) in Hl. assert (elapsed_ms r3 = elapsed_ms r) as He by (change (elapsed_ms r3) with (elapsed_ms r2); congruence).
    rewrite <- He in *. apply IH in Hl as (He' & Hw & Hcont); [|done]. split_and!; [done|done|].
    eapply continues_trans; [by eapply continues_charge|]. eapply continues_trans; [|exact Hcont].
    apply continues_record; [by rewrite Ht2|]. split_and!; [done|intros _; cbn; lia|done].
Qed.
Lemma deliver_loop_times E round channel k all ws r retry r' retry' : ws ⊆ all ->
  Forall (fun w => E <= Transmission.start_ms w.2) ws ->
  deliver_loop sc hash frames manifest round channel k ws r retry = (r', retry') -> continues E round all r r'.
Proof.
  revert k r retry. induction ws as [|[s f] ws IH]; intros k r retry Hsub Hws; cbn [deliver_loop].
  { intros [= <- <-]. by apply continues_refl. }
  apply Forall_cons in Hws as [Hf Hws]. assert (ws ⊆ all) as Hsub' by (intros w Hw; apply Hsub; by right).
  destruct (s =? OBSERVER)%nat; [by apply IH|]. destruct (hear _ _ _ _ _ _ _) as [[r1 o] again] eqn:Hh.
  apply hear_cases in Hh as ((Ht & _) & _). intros Hl. apply IH in Hl; [|done|done].
  eapply continues_trans; [|exact Hl]. apply continues_record; [done|]. split_and!; [done|by intros _|].
  intros _. exists (s, f). split; [apply Hsub; by left|done].
Qed.
Lemma observer_times r : Tally.on_air (tally r) = [] -> let r' := observer_answers sc hash frames manifest r (window_for sc frames 0) in
  elapsed_ms r' = elapsed_ms r /\ Forall (fun w => elapsed_ms r <= Transmission.start_ms w.2) (Tally.on_air (tally r'))
  /\ continues (elapsed_ms r) 0 (Tally.on_air (tally r')) r r'.
Proof.
  intros Hair. cbv zeta. unfold observer_answers.
  destruct (negb _); [rewrite Hair; split_and!; [done|constructor|by apply continues_refl]|]. cbv zeta.
  destruct (charge r OBSERVER _ 0) as [r1 c] eqn:Hc. pose proof Hc as (Ht & _ & He1)%run_charge_eq.
  assert (Tally.on_air (tally r1) = []) as Hair1 by (unfold Tally.charge in Ht; destruct (negb _); injection Ht as <- _ _; exact Hair).
  destruct c.
  - destruct (start_for _ _ _ _ _) as [r2 start] eqn:Hs. pose proof (start_after _ _ _ _ _ Hs) as Hafter.
    apply start_for_drew in Hs as (Ht2 & _ & _ & He2). set (r3 := set_tally r2 _).
    destruct (accept _ _ _ _ _) as [r4 v] eqn:Hacc. apply accept_cases in Hacc as ((Ht4 & _ & _ & _ & _ & _ & _ & Ho) & _ & He4 & _).
    cbn [record set_tally tally Tally.record Tally.on_air elapsed_ms]. rewrite Ho. unfold r3 in *.
    cbn [set_tally tally Tally.set_on_air Tally.on_air elapsed_ms] in *. rewrite Ht2, Hair1 in *. cbn [app].
    split; [congruence|]. split; [apply Forall_singleton; cbn; lia|].
    eapply continues_trans; [by eapply continues_charge|]. apply continues_record; [rewrite Ht4; cbn; done|].
    split_and!; [done|intros _; cbn; lia|]. intros _. eexists. split; [by apply list_elem_of_singleton|done].
  - destruct (accept _ _ _ _ _) as [r4 v] eqn:Hacc. apply accept_cases in Hacc as ((Ht4 & _ & _ & _ & _ & _ & _ & Ho) & _ & He4 & _).
    rewrite Ho, Hair1. split; [congruence|]. split; [constructor|].
    eapply continues_trans; [by eapply continues_charge|]. exists []. by rewrite app_nil_r, Ht4.
Qed.

Lemma foldl_max_le (l : list Z) a x : x <= a \/ x ∈ l -> x <= foldl Z.max a l.
Proof.
  revert a; induction l as [|y l IH]; intros a Hx; cbn [foldl]; [by destruct Hx as [|?%elem_of_nil]|].
  apply IH. destruct Hx as [|[->|]%elem_of_cons]; [left; lia|left; lia|by right].
Qed.
Lemma tail_bound (ws : list (nat * Transmission.t)) otherwise w : w ∈ ws -> Transmission.end_ms w.2 <= tail_of ws otherwise.
Proof.
  intros Hw. assert (Transmission.end_ms w.2 ∈ Transmission.end_ms <$> ws.*2) as Hin.
  { apply list_elem_of_fmap. exists w.2. split; [done|]. apply list_elem_of_fmap. by exists w. }
  unfold tail_of. destruct (Transmission.end_ms <$> ws.*2) as [|e es]; [by apply elem_of_nil in Hin|].
  apply foldl_max_le. apply elem_of_cons in Hin as [->|]; [by left|by right].
Qed.

(** Frames that arrived are over by now, and were over before any later round's frame began. *)
Record in_order (round : nat) (r : Run.t) : Prop := {
  o_idle : Tally.on_air (tally r) = [];
  o_past : Forall (fun e => TraceEntry.round e < round)%nat (Tally.timeline (tally r));
  o_over : Forall (fun e => arrived e = true -> over e <= elapsed_ms r) (Tally.timeline (tally r));
  o_apart e1 e2 : e1 ∈ Tally.timeline (tally r) -> e2 ∈ Tally.timeline (tally r) -> (TraceEntry.round e1 < TraceEntry.round e2)%nat ->
    arrived e1 = true -> aired e2 = true -> over e1 <= TraceEntry.start_ms e2;
}.
Lemma in_order_continues E E' round ws r r' : in_order round r -> elapsed_ms r = E -> continues E round ws r r' ->
  Tally.on_air (tally r') = [] -> (forall w, w ∈ ws -> Transmission.end_ms w.2 <= E') -> E <= E' -> elapsed_ms r' = E' -> in_order (S round) r'.
Proof.
  intros [_ Hp Ho Ha] HE (new & Hnew & Hall) Hidle Hends Hle HE'. rewrite Forall_forall in Hp, Ho, Hall. constructor; [done|..]; rewrite Hnew.
  - apply Forall_app_2; apply Forall_forall; intros e He; [specialize (Hp e He); cbn beta in Hp; lia|]. destruct (Hall e He) as [-> _]. lia.
  - apply Forall_app_2; apply Forall_forall; intros e He Harr; [specialize (Ho e He Harr); lia|].
    destruct (Hall e He) as (_ & _ & Hw). destruct (Hw Harr) as (w & Hin & ->). specialize (Hends w Hin). lia.
  - intros e1 e2 He1 He2 Hlt H1 H2. apply elem_of_app in He1 as [He1|He1], He2 as [He2|He2].
    + by apply Ha.
    + destruct (Hall e2 He2) as (_ & Hs & _). specialize (Hs H2). specialize (Ho e1 He1 H1). lia.
    + destruct (Hall e1 He1) as [Hr _]. specialize (Hp e2 He2). cbn beta in Hp. lia.
    + destruct (Hall e1 He1) as [Hr1 _], (Hall e2 He2) as [Hr2 _]. lia.
Qed.
Lemma deliver_loop_air round channel k ws r retry r' retry' :
  deliver_loop sc hash frames manifest round channel k ws r retry = (r', retry') ->
  Tally.on_air (tally r') = Tally.on_air (tally r) /\ elapsed_ms r' = elapsed_ms r.
Proof.
  revert k r retry. induction ws as [|[s f] ws IH]; intros k r retry; cbn [deliver_loop]; [by intros [= <- <-]|].
  destruct (s =? OBSERVER)%nat; [by apply IH|]. destruct (hear _ _ _ _ _ _ _) as [[r1 o] again] eqn:Hh.
  apply hear_cases in Hh as ((_ & _ & _ & _ & _ & _ & _ & Ho) & _ & _ & He). intros Hl. apply IH in Hl as [Hl1 Hl2].
  cbn in Hl1, Hl2. by rewrite Hl1, Hl2, Ho, He.
Qed.
Lemma schedule_loop_air round w pending r ws retry r' ws' retry' :
  schedule_loop sc frames round w pending r ws retry = (r', ws', retry') -> Tally.on_air (tally r') = Tally.on_air (tally r).
Proof.
  revert r ws retry. induction pending as [|s pending IH]; intros r ws retry; cbn [schedule_loop]; [by intros [= <- <- <-]|].
  cbv zeta. destruct (charge r s _ round) as [r1 c] eqn:Hc. apply run_charge_eq in Hc as (Ht & _ & _).
  assert (Tally.on_air (tally r1) = Tally.on_air (tally r)) as <- by (unfold Tally.charge in Ht; destruct (negb _); injection Ht as <- _ _; done).
  destruct c; cbn [negb]; [|by apply IH]. destruct (start_for _ _ _ _ _) as [r2 start] eqn:Hs.
  apply start_for_drew in Hs as (<- & _). destruct (Topology.reaches _ _ _ _).
  - destruct (rssi_at_observer sc r2 s) as [r3 v] eqn:Hr. apply rssi_drew in Hr as (<- & _). apply IH.
  - intros Hl. by apply IH in Hl.
Qed.
Lemma window_nonneg round : (0 < Scenario.fleet sc)%nat -> 0 <= window_for sc frames round.
Proof.
  intros _. unfold window_for. destruct (Scenario.access sc) as [|guard] eqn:Hacc.
  - unfold Scenario.window_ms. destruct round as [|[|[|]]]; by vm_compute.
  - pose proof (air_nonneg OBSERVER). specialize (Hguard guard eq_refl). nia.
Qed.
Lemma schedule_loop_keeps round w pending r ws retry r' ws' retry' :
  schedule_loop sc frames round w pending r ws retry = (r', ws', retry') -> ws ⊆ ws'.
Proof.
  revert r ws retry. induction pending as [|s pending IH]; intros r ws retry; cbn [schedule_loop]; [by intros [= <- <- <-]|].
  cbv zeta. destruct (charge r s _ round) as [r1 c]. destruct c; cbn [negb]; [|by apply IH].
  destruct (start_for _ _ _ _ _) as [r2 start]. destruct (Topology.reaches _ _ _ _); [|by apply IH].
  destruct (rssi_at_observer sc r2 s) as [r3 v]. intros Hl%IH w' Hw. apply Hl, elem_of_app. by left.
Qed.
Lemma round_in_order round pending r r' retry : (0 < Scenario.fleet sc)%nat -> in_order round r ->
  round_ sc hash frames manifest r round pending = (r', retry) -> in_order (S round) r'.
Proof.
  intros Hfleet Hord. unfold round_, schedule, deliver. cbv zeta. set (E := elapsed_ms r).
  set (r1 := if (round =? 0)%nat then _ else r).
  assert (elapsed_ms r1 = E /\ Forall (fun w => E <= Transmission.start_ms w.2) (Tally.on_air (tally r1))
    /\ continues E round (Tally.on_air (tally r1)) r r1) as (He1 & Hw1 & Hc1).
  { unfold r1. destruct (Nat.eqb_spec round 0) as [->|]; [by apply observer_times, Hord|].
    rewrite (o_idle _ _ Hord). split_and!; [done|constructor|by apply continues_refl]. }
  set (r2 := set_tally r1 (Tally.set_on_air (tally r1) [])).
  destruct (schedule_loop _ _ _ _ _ _ _ _) as [[r3 ws] retry3] eqn:Hs.
  pose proof (schedule_loop_air _ _ _ _ _ _ _ _ _ Hs) as Hair3. pose proof (schedule_loop_keeps _ _ _ _ _ _ _ _ _ Hs) as Hsub.
  apply schedule_loop_times in Hs as (He3 & Hw3 & Hc3).
  2: { change (elapsed_ms r2) with (elapsed_ms r1). by rewrite He1. }
  change (elapsed_ms r2) with (elapsed_ms r1) in *. rewrite He1 in *.
  destruct (deliver_loop _ _ _ _ _ _ _ _ _ _) as [r4 retry4] eqn:Hd.
  pose proof (deliver_loop_air _ _ _ _ _ _ _ _ Hd) as [Hair4 He4]. apply (deliver_loop_times E round _ _ ws) in Hd; [|done|done].
  intros [= <- <-]. rewrite He4, He3.
  apply (in_order_continues E (Z.max (tail_of ws E) (E + window_for sc frames round)) round ws r); [done|done| | | | |done].
  - eapply continues_trans; [by eapply continues_more|]. eapply continues_trans; [by apply (continues_refl _ _ _ r1 r2)|].
    eapply continues_trans; [exact Hc3|]. eapply continues_trans; [exact Hd|]. by apply continues_refl.
  - cbn [set_elapsed tally]. rewrite Hair4, Hair3. done.
  - intros w Hw. pose proof (tail_bound ws E w Hw). lia.
  - pose proof (window_nonneg round Hfleet). lia.
Qed.
Lemma rounds_in_order n round pending r : (0 < Scenario.fleet sc)%nat -> in_order round r ->
  exists round', in_order round' (rounds sc hash frames manifest n round r pending).
Proof.
  intros Hfleet. revert round pending r; induction n as [|n IH]; intros round pending r Hr; cbn [rounds]; [by exists round|].
  destruct pending as [|s pending]; [by exists round|]. destruct (round_ _ _ _ _ _ _ _) as [r' retry] eqn:Hrd.
  apply (IH (S round)). by eapply round_in_order.
Qed.
End times.

(** Judging a round on its own loses nothing. A frame that reaches the observer is over
    before any frame of a later round begins -- under either access, whatever the topology,
    the losses and the airtime already spent -- so no frame of another round could have
    collided with it. [over] is the saturating end of [Transmission::end_ms]. *)
Theorem rounds_are_laid_end_to_end `{Digest, Ed25519, Aead, Serde SignedCompactEnvelope.t, Libm} (s : Scenario.t) (rep : Report.t) :
  (0 < Scenario.fleet s)%nat -> (forall guard, Scenario.access s = Access.Slotted guard -> 0 <= guard) -> run s = Some rep ->
  forall e1 e2, e1 ∈ Report.timeline rep -> e2 ∈ Report.timeline rep -> (TraceEntry.round e1 < TraceEntry.round e2)%nat ->
    arrived e1 = true -> aired e2 = true -> over e1 <= TraceEntry.start_ms e2.
Proof.
  intros Hfleet Hguard (policy & subject & frames & _ & _ & _ & _ & (q & _ & ->)%report_inv)%run_report_inv.
  cbn [Report.timeline]. unfold execution.
  destruct (rounds_in_order s (Subject.content_hash subject) frames (manifest_of (Scenario.fleet s)) Hguard Scenario.MAX_RETRIES 0
    (answerers s) (Run.new s) Hfleet) as [round Hord]; [|by apply (o_apart _ _ Hord)].
  constructor; [done|constructor|constructor|]. intros e1 e2 []%elem_of_nil.
Qed.

#[local] Existing Instances toy_digest toy_ed25519 clear_aead wide_serde flat_libm.
(** Twelve members in two halves, and a seed under which member 7 runs into its own retry. *)
Definition split_twelve : Scenario.t := Scenario.with_topology (Scenario.with_seed (Scenario.new 12) 8) Topology.Partitioned.
Definition timeline_of (r : option Report.t) : list TraceEntry.t := match r with Some rep => Report.timeline rep | None => [] end.
Lemma rounds_are_laid_end_to_end_witness :
  match run split_twelve with
  | Some rep => forall e1 e2, e1 ∈ Report.timeline rep -> e2 ∈ Report.timeline rep -> (TraceEntry.round e1 < TraceEntry.round e2)%nat ->
      arrived e1 = true -> aired e2 = true -> over e1 <= TraceEntry.start_ms e2
  | None => False
  end.
Proof.
  pose proof (rounds_are_laid_end_to_end split_twelve) as Hall.
  destruct (run split_twelve) as [rep|] eqn:Hrun; [|vm_compute in Hrun; discriminate]. clear Hrun.
  apply (Hall rep ltac:(vm_compute; lia)); [|reflexivity]. intros guard Hacc. vm_compute in Hacc. discriminate.
Defined.

(** What the rounds do not wait for is a frame the observer cannot hear: member 7 starts its
    second attempt while its first is still on the air. *)
Example a_member_overruns_its_own_round :
  filter (fun e => TraceEntry.sender e = 7%nat /\ (TraceEntry.round e <= 1)%nat) (timeline_of (run split_twelve))
  = [TraceEntry.mk 0 7 29594 1354 F64.neg_infinity Outcome.Unreachable;
     TraceEntry.mk 1 7 30640 1354 F64.neg_infinity Outcome.Unreachable].
Proof. vm_compute. reflexivity. Qed.
