(* ===== verification/SimProtocol.v ===== *)
(** The whole protocol over the simulated radio (src/src/sim/protocol.rs): members with
    journals and keys, an observer with the real state machine, three stages, and the
    clock that closes the consultation.

    [Room] holds everything [run_stage] borrows mutably, and its own outbox and report.
    A run that panics is [None]. Member indices are naturals, times u64 milliseconds. *)
From S2P Require Import Prelude Float Time Contracts Quorum CaseState Budget Journal MemoryJournal Radio Crypto Codec.
From S2P Require Import Channel Rng Phy Medium SimScenario.

Module SlotAnchor.
Inductive t := Trigger | Clock.
#[global] Instance t_eq_dec : EqDecision t.
Proof. solve_decision. Defined.
End SlotAnchor.

Module StageReport.
Record t := mk {
  frames_sent : Z;
  collided : Z;
  lost : Z;
  admitted : Z;
  refused : Z;
  airtime_ms : Z;
  elapsed_ms : Z;
}.
Definition default : t := mk 0 0 0 0 0 0 0.
Definition sent (x : t) (air : Z) : t :=
  mk (frames_sent x + 1) (collided x) (lost x) (admitted x) (refused x) (airtime_ms x + air) (elapsed_ms x).
Definition bump_collided (x : t) : t :=
  mk (frames_sent x) (collided x + 1) (lost x) (admitted x) (refused x) (airtime_ms x) (elapsed_ms x).
Definition bump_lost (x : t) : t :=
  mk (frames_sent x) (collided x) (lost x + 1) (admitted x) (refused x) (airtime_ms x) (elapsed_ms x).
Definition bump_admitted (x : t) : t :=
  mk (frames_sent x) (collided x) (lost x) (admitted x + 1) (refused x) (airtime_ms x) (elapsed_ms x).
Definition bump_refused (x : t) : t :=
  mk (frames_sent x) (collided x) (lost x) (admitted x) (refused x + 1) (airtime_ms x) (elapsed_ms x).
Definition set_elapsed (x : t) (elapsed_ms : Z) : t :=
  mk (frames_sent x) (collided x) (lost x) (admitted x) (refused x) (airtime_ms x) elapsed_ms.
End StageReport.

Module DeliberationReport.
Record t := mk {
  endorsed : bool;
  binding_supporters : Z;
  min_signers : Z;
  stages : StageReport.t * StageReport.t * StageReport.t;
  elapsed_s : Z;
  radio_ms : Z;
  airtime_ms : Z;
  frame_bytes : Z;
  refusals : TransitionErrorCount.t;
}.
Definition radio_share (r : t) : f64 :=
  if elapsed_s r =? 0 then F64.of_Z 0
  else F64.div (F64.of_Z (radio_ms r)) (F64.mul (F64.of_Z (elapsed_s r)) (F64.of_Z 1000)).
End DeliberationReport.

Module Deliberation.
Record t := mk {
  fleet : nat;
  loss : f64;
  seed : Z;
  topology : Topology.t;
  silent : nat;
  spacing_m : option f64;
  access : Access.t;
  anchor : SlotAnchor.t;
  clock_skew_s : Z;
  disputers : nat;
  forgers : nat;
  validity_s : option Z;
}.
Definition MAX_RETRIES : nat := 5.
Definition CONTENTION_WINDOW_MS : Z := 30000.

Definition new (fleet : nat) : t :=
  mk (fleet `max` 1) (F64.of_Z 0) 1 Topology.FullyConnected 0 None Access.Random SlotAnchor.Trigger 0 0 0 None.
Definition with_loss (d : t) (loss : f64) : t :=
  mk (fleet d) (F64.clamp loss (F64.of_Z 0) (F64.of_Z 1)) (seed d) (topology d) (silent d) (spacing_m d) (access d)
    (anchor d) (clock_skew_s d) (disputers d) (forgers d) (validity_s d).
Definition with_seed (d : t) (seed : Z) : t :=
  mk (fleet d) (loss d) seed (topology d) (silent d) (spacing_m d) (access d) (anchor d) (clock_skew_s d) (disputers d)
    (forgers d) (validity_s d).
Definition with_topology (d : t) (topology : Topology.t) : t :=
  mk (fleet d) (loss d) (seed d) topology (silent d) (spacing_m d) (access d) (anchor d) (clock_skew_s d) (disputers d)
    (forgers d) (validity_s d).
Definition with_silent (d : t) (silent : nat) : t :=
  mk (fleet d) (loss d) (seed d) (topology d) silent (spacing_m d) (access d) (anchor d) (clock_skew_s d) (disputers d)
    (forgers d) (validity_s d).
Definition with_spacing_m (d : t) (spacing_m : f64) : t :=
  mk (fleet d) (loss d) (seed d) (topology d) (silent d) (Some (F64.max spacing_m (F64.of_Z 0))) (access d) (anchor d)
    (clock_skew_s d) (disputers d) (forgers d) (validity_s d).
Definition with_slots (d : t) (guard_ms : Z) : t :=
  mk (fleet d) (loss d) (seed d) (topology d) (silent d) (spacing_m d) (Access.Slotted guard_ms) (anchor d)
    (clock_skew_s d) (disputers d) (forgers d) (validity_s d).
Definition with_anchor (d : t) (anchor : SlotAnchor.t) : t :=
  mk (fleet d) (loss d) (seed d) (topology d) (silent d) (spacing_m d) (access d) anchor (clock_skew_s d) (disputers d)
    (forgers d) (validity_s d).
Definition with_clock_skew_s (d : t) (clock_skew_s : Z) : t :=
  mk (fleet d) (loss d) (seed d) (topology d) (silent d) (spacing_m d) (access d) (anchor d) clock_skew_s (disputers d)
    (forgers d) (validity_s d).
Definition with_disputers (d : t) (disputers : nat) : t :=
  mk (fleet d) (loss d) (seed d) (topology d) (silent d) (spacing_m d) (access d) (anchor d) (clock_skew_s d) disputers
    (forgers d) (validity_s d).
Definition with_forgers (d : t) (forgers : nat) : t :=
  mk (fleet d) (loss d) (seed d) (topology d) (silent d) (spacing_m d) (access d) (anchor d) (clock_skew_s d) (disputers d)
    forgers (validity_s d).
Definition with_validity_s (d : t) (validity_s : Z) : t :=
  mk (fleet d) (loss d) (seed d) (topology d) (silent d) (spacing_m d) (access d) (anchor d) (clock_skew_s d) (disputers d)
    (forgers d) (Some validity_s).

(** Disputers come after the silent members, forgers after the disputers. *)
Definition verdict_of (d : t) (sender : nat) : Verdict :=
  if (silent d <=? sender)%nat && (sender <? silent d + disputers d)%nat then Dispute else Support.
Definition is_forger (d : t) (sender : nat) : bool :=
  let first := (silent d + disputers d)%nat in (first <=? sender)%nat && (sender <? first + forgers d)%nat.

(** [i64] halves towards zero, as the language divides. *)
Definition I64_MAX : Z := 9223372036854775807.
Definition CLOCK_STREAM : Z := 0xC10CC10CC10CC10C.
Fixpoint draw_offsets (n : nat) (rng : Rng.t) (span : Z) : list Z :=
  match n with
  | 0%nat => []
  | S n => let '(rng, draw) := Rng.below rng (span + 1) in (draw - span / 2) :: draw_offsets n rng span
  end.
Definition clock_offsets_ms (d : t) : list Z :=
  if (clock_skew_s d =? 0) || (fleet d <? 2)%nat then replicate (fleet d) 0
  else
    let span := Z.min (clock_skew_s d * 1000) I64_MAX in
    let offsets := draw_offsets (fleet d) (Rng.new (Z.lxor (seed d) CLOCK_STREAM)) span in
    <[(fleet d - 1)%nat := span / 2]> (<[0%nat := Z.quot (- span) 2]> offsets).
End Deliberation.

(** * Codes *)

Definition stage_code (s : Stage) : Z := match s with Independent => 1 | Consultation => 2 | BindingSupport => 3 end.
Definition verdict_code (v : Verdict) : Z := match v with Support => 1 | Dispute => 2 | InsufficientData => 3 end.
Definition stage_of (code : Z) : option Stage :=
  match code with 1 => Some Independent | 2 => Some Consultation | 3 => Some BindingSupport | _ => None end.
Definition verdict_of (code : Z) : option Verdict :=
  match code with 1 => Some Support | 2 => Some Dispute | 3 => Some InsufficientData | _ => None end.

(** * One stage *)

Module Room.
Record t := mk {
  journals : list MemoryJournal.t;
  observer : Case.t;
  rng : Rng.t;
  fading : RicianFading.t;
  used_airtime : list Z;
  refusals : TransitionErrorCount.t;
  outbox : list (option bytes);
  report : StageReport.t;
}.
Definition set_journals (r : t) (journals : list MemoryJournal.t) : t :=
  mk journals (observer r) (rng r) (fading r) (used_airtime r) (refusals r) (outbox r) (report r).
Definition set_observer (r : t) (observer : Case.t) : t :=
  mk (journals r) observer (rng r) (fading r) (used_airtime r) (refusals r) (outbox r) (report r).
Definition set_rng (r : t) (rng : Rng.t) : t :=
  mk (journals r) (observer r) rng (fading r) (used_airtime r) (refusals r) (outbox r) (report r).
Definition set_fading (r : t) (fading : RicianFading.t) : t :=
  mk (journals r) (observer r) (rng r) fading (used_airtime r) (refusals r) (outbox r) (report r).
Definition set_used (r : t) (used_airtime : list Z) : t :=
  mk (journals r) (observer r) (rng r) (fading r) used_airtime (refusals r) (outbox r) (report r).
Definition set_refusals (r : t) (refusals : TransitionErrorCount.t) : t :=
  mk (journals r) (observer r) (rng r) (fading r) (used_airtime r) refusals (outbox r) (report r).
Definition set_outbox (r : t) (outbox : list (option bytes)) : t :=
  mk (journals r) (observer r) (rng r) (fading r) (used_airtime r) (refusals r) outbox (report r).
Definition set_report (r : t) (report : StageReport.t) : t :=
  mk (journals r) (observer r) (rng r) (fading r) (used_airtime r) (refusals r) (outbox r) report.
End Room.

Section stage.
Context `{Digest, Ed25519, Aead, Serde SignedCompactEnvelope.t, Libm}.
Context (d : Deliberation.t) (stage : Stage) (subject : Subject.t) (keys : list SigningKey.t)
  (manifest : list VerifyingKey.t) (group : GroupKey.t) (clock : FixedClock.t) (offsets : list Z).

(** The envelope of one utterance, and the author index a member claims in it. *)
Definition utterance (author : Z) (stage : Stage) (verdict : Verdict) (sequence : Z) : CompactEnvelope.t :=
  CompactEnvelope.new 1 1 0 (Subject.content_hash subject) (Timestamp.as_secs (Subject.started_at subject)) author
    (stage_code stage) (verdict_code verdict) sequence.
Definition seal_utterance (e : CompactEnvelope.t) (key : SigningKey.t) (author sequence : Z) : option bytes :=
  match encode_compact (sign_compact e key (Subject.content_hash subject)) with
  | Err _ => None
  | Ok signed => match seal_frame group author sequence signed with Err _ => None | Ok sealed => Some sealed end
  end.

(** On [journals[sender]]. *)
Definition frame_for (journal : MemoryJournal.t) (sender : nat) (verdict : Verdict) (forger : bool)
    : MemoryJournal.t * option bytes :=
  let '(journal, reserved) := MemoryJournal.reserve_sequence journal in
  match reserved with
  | Err _ => (journal, None)
  | Ok sequence =>
      let author := author_of sender in
      match keys !! (if forger then (sender + 1) `mod` length keys else sender)%nat with
      | None => (journal, None)
      | Some signing =>
          match seal_utterance (utterance author stage verdict sequence) signing author sequence with
          | None => (journal, None)
          | Some sealed =>
              if bool_decide (stage = BindingSupport) then
                let '(journal, committed) := MemoryJournal.commit_vote journal subject (member_id sender) (OutgoingFrame.new sealed sequence) in
                match committed with Err _ => (journal, None) | Ok _ => (journal, Some sealed) end
              else (journal, Some sealed)
          end
      end
  end.
(** [expect]s are [None]. *)
Definition frame_size (key : SigningKey.t) : option Z :=
  sealed ← seal_utterance (utterance 0 BindingSupport Support U32_MAX) key U16_MAX U32_MAX; Some (len sealed).

Definition window_for (round : nat) : option Z :=
  match Deliberation.access d with
  | Access.Random => Some (Z.shiftl Deliberation.CONTENTION_WINDOW_MS (match round with 0%nat => 0 | 1%nat => 1 | 2%nat => 2 | _ => 3 end))
  | Access.Slotted guard_ms =>
      key ← keys !! 0%nat;
      size ← frame_size key;
      Some ((airtime_ms size + guard_ms) * Z.of_nat (Deliberation.fleet d))
  end.

(** The opinion a received frame carries, or the error it is refused with. *)
Definition heard_opinion (sealed : bytes) : option Opinion.t :=
  match open_frame group sealed with
  | Err _ => None
  | Ok (_, _, plain) =>
      match decode_compact plain with
      | Err _ => None
      | Ok received =>
          let envelope := SignedCompactEnvelope.envelope received in
          let claimed := Z.to_nat (CompactEnvelope.author_index envelope) in
          match manifest !! claimed with
          | None => None
          | Some key =>
              if negb (is_ok (SignedCompactEnvelope.verify received key (Subject.content_hash subject))) then None
              else
                match stage_of (CompactEnvelope.stage envelope), verdict_of (CompactEnvelope.verdict envelope) with
                | Some stage, Some verdict => Some (Opinion.new (member_id claimed) subject stage verdict)
                | _, _ => None
                end
          end
      end
  end.
Definition offer (observer : Case.t) (sealed : bytes) : result TransitionError Case.t :=
  match heard_opinion sealed with
  | None => Err DifferentSubject
  | Some opinion => Case.accept observer opinion clock
  end.

Definition rssi_at_observer (r : Room.t) (sender : nat) : Room.t * f64 :=
  match Deliberation.spacing_m d with
  | None => (r, Scenario.NOMINAL_RSSI_DBM)
  | Some spacing =>
      let distance := F64.mul spacing (F64.of_Z (Z.of_nat sender)) in
      let '(fading, fade) := RicianFading.sample_db (Room.fading r) in
      (Room.set_fading r fading, F64.add (rssi_dbm (Link.new distance) TX_POWER_DBM) fade)
  end.

(** The frame a member puts on the air: built once, then the same bytes. *)
Definition bytes_for (r : Room.t) (sender : nat) : Room.t * option bytes :=
  match nth sender (Room.outbox r) None with
  | Some bytes => (r, Some bytes)
  | None =>
      let '(journal, built) := frame_for (nth sender (Room.journals r) MemoryJournal.default_) sender
        (Deliberation.verdict_of d sender) (Deliberation.is_forger d sender) in
      let r := Room.set_journals r (<[sender := journal]> (Room.journals r)) in
      match built with
      | None => (r, None)
      | Some bytes => (Room.set_outbox r (<[sender := Some bytes]> (Room.outbox r)), Some bytes)
      end
  end.
Definition start_for (r : Room.t) (sender : nat) (air window elapsed : Z) : Room.t * Z :=
  match Deliberation.access d with
  | Access.Random => let '(g, offset) := Rng.below (Room.rng r) window in (Room.set_rng r g, elapsed + offset)
  | Access.Slotted guard_ms =>
      let slot := elapsed + Z.of_nat sender * (air + guard_ms) in
      (r, match Deliberation.anchor d with
          | SlotAnchor.Trigger => slot
          | SlotAnchor.Clock => ScaledClock.sat_add_signed slot (nth sender offsets 0)
          end)
  end.

(** One frame in flight: its sender, where it is on the channel, its bytes. *)
Definition flight : Type := nat * Transmission.t * bytes.

Fixpoint speak_loop (window elapsed : Z) (pending : list nat) (r : Room.t) (on_air : list flight) (retry : list nat)
    : Room.t * list flight * list nat :=
  match pending with
  | [] => (r, on_air, retry)
  | sender :: pending =>
      let '(r, built) := bytes_for r sender in
      match built with
      | None => speak_loop window elapsed pending r on_air retry
      | Some bytes =>
          let air := airtime_ms (len bytes) in
          let used := nth sender (Room.used_airtime r) 0 in
          if negb (duty_cycle_ok used air) then speak_loop window elapsed pending r on_air retry
          else
            let r := Room.set_used r (<[sender := used + air]> (Room.used_airtime r)) in
            let r := Room.set_report r (StageReport.sent (Room.report r) air) in
            let '(r, start) := start_for r sender air window elapsed in
            if (sender =? OBSERVER)%nat then
              speak_loop window elapsed pending r (on_air ++ [(sender, Transmission.own_transmission start air, bytes)]) retry
            else if Topology.reaches (Deliberation.topology d) sender OBSERVER (Deliberation.fleet d) then
              let '(r, rssi) := rssi_at_observer r sender in
              speak_loop window elapsed pending r (on_air ++ [(sender, Transmission.new start air rssi, bytes)]) retry
            else
              speak_loop window elapsed pending (Room.set_report r (StageReport.bump_lost (Room.report r))) on_air (retry ++ [sender])
      end
  end.

(** What the observer makes of one frame, and whether its sender must try again. *)
Definition settle (r : Room.t) (sender : nat) (bytes : bytes) (heard : Reception.t) : Room.t * bool :=
  let report := Room.report r in
  match heard with
  | Reception.NoLock | Reception.HeaderError | Reception.CrcError => (Room.set_report r (StageReport.bump_collided report), true)
  | Reception.TooWeak => (Room.set_report r (StageReport.bump_lost report), true)
  | Reception.Decoded =>
      let '(r, lost) :=
        if (sender =? OBSERVER)%nat then (r, false)
        else let '(g, u) := Rng.next_f64 (Room.rng r) in (Room.set_rng r g, F64.ltb u (Deliberation.loss d)) in
      if lost then (Room.set_report r (StageReport.bump_lost report), true)
      else
        match offer (Room.observer r) bytes with
        | Ok observer => (Room.set_observer (Room.set_report r (StageReport.bump_admitted report)) observer, false)
        | Err error =>
            (Room.set_refusals (Room.set_report r (StageReport.bump_refused report))
               (TransitionErrorCount.record (Room.refusals r) error), false)
        end
  end.
Fixpoint listen_loop (channel : list Transmission.t) (index : nat) (on_air : list flight) (r : Room.t) (retry : list nat)
    : Room.t * list nat :=
  match on_air with
  | [] => (r, retry)
  | (sender, frame, bytes) :: on_air =>
      let heard := if (sender =? OBSERVER)%nat then Reception.Decoded else receive frame (delete index channel) in
      let '(r, again) := settle r sender bytes heard in
      listen_loop channel (S index) on_air r (if again then retry ++ [sender] else retry)
  end.

(** One round: everyone still pending speaks, the observer listens, time moves on. *)
Definition round_ (round : nat) (pending : list nat) (elapsed : Z) (r : Room.t) : option (Room.t * list nat * Z) :=
  window ← window_for round;
  let '(r, on_air, retry) := speak_loop window elapsed pending r [] [] in
  let '(r, retry) := listen_loop ((fun f => f.1.2) <$> on_air) 0 on_air r retry in
  let tail := Run.tail_of (fst <$> on_air) elapsed in
  Some (r, retry, Z.max tail (elapsed + window)).
Fixpoint rounds (attempts round : nat) (pending : list nat) (elapsed : Z) (r : Room.t) : option (Room.t * Z) :=
  match attempts, pending with
  | 0%nat, _ | _, [] => Some (r, elapsed)
  | S attempts, _ :: _ =>
      '(r, pending, elapsed) ← round_ round pending elapsed r;
      rounds attempts (S round) pending elapsed r
  end.
Definition speakers : list nat := seq (Deliberation.silent d) (Deliberation.fleet d - Deliberation.silent d).
Definition run_stage (r : Room.t) : option Room.t :=
  let r := Room.set_report (Room.set_outbox r (replicate (Deliberation.fleet d) None)) StageReport.default in
  '(r, elapsed) ← rounds Deliberation.MAX_RETRIES 0 speakers 0 r;
  Some (Room.set_report r (StageReport.set_elapsed (Room.report r) elapsed)).
End stage.

(** * The deliberation *)

Section deliberation.
Context `{Digest, Ed25519, Aead, Serde SignedCompactEnvelope.t, Libm}.

Definition STARTED_AT : Timestamp.t := Timestamp.from_secs 1000000.
Definition deliberation_subject : option Subject.t :=
  match Subject.new (lit "mission") (lit "evt-1") 0 (replicate 32 0x22) STARTED_AT with Ok s => Some s | Err _ => None end.
Definition close_at : Z := CONSULTATION_CUTOFF_SECONDS + MAX_CLOCK_SKEW_SECONDS + 1.
Definition first_room (d : Deliberation.t) (subject : Subject.t) : Room.t :=
  Room.mk (replicate (Deliberation.fleet d) MemoryJournal.default_)
    (match Deliberation.validity_s d with
     | None => Case.open_ subject
     | Some seconds => Case.open_until subject (Timestamp.plus_secs STARTED_AT seconds)
     end)
    (Rng.new (Deliberation.seed d)) (RicianFading.new (Z.lxor (Deliberation.seed d) FADING_STREAM) Scenario.RICIAN_K_DB)
    (replicate (Deliberation.fleet d) 0) TransitionErrorCount.default [] StageReport.default.
(** [close_consultation], its error counted. *)
Definition close (r : Room.t) (clock : FixedClock.t) : Room.t :=
  match Case.close_consultation (Room.observer r) clock with
  | Ok observer => Room.set_observer r observer
  | Err error => Room.set_refusals r (TransitionErrorCount.record (Room.refusals r) error)
  end.
(** The state after each stage: two consultation stages, the close, the vote. *)
Definition three_stages (d : Deliberation.t) (subject : Subject.t) : option (Room.t * Room.t * Room.t) :=
  let keys := keys_of (Deliberation.fleet d) in
  let manifest := manifest_of (Deliberation.fleet d) in
  let offsets := Deliberation.clock_offsets_ms d in
  let clock := FixedClock.new (Timestamp.plus_secs STARTED_AT 1) in
  r1 ← run_stage d Independent subject keys manifest group_key clock offsets (first_room d subject);
  r2 ← run_stage d Consultation subject keys manifest group_key clock offsets r1;
  let clock := FixedClock.new (Timestamp.plus_secs STARTED_AT close_at) in
  r3 ← run_stage d BindingSupport subject keys manifest group_key clock offsets (close r2 clock);
  Some (r1, r2, r3).
Definition deliberation_report (d : Deliberation.t) (policy : Policy) (size : Z) (rooms : Room.t * Room.t * Room.t)
    : option DeliberationReport.t :=
  let '(r1, r2, r3) := rooms in
  let '(s1, s2, s3) := (Room.report r1, Room.report r2, Room.report r3) in
  let supporters := Case.binding_supporters (Room.observer r3) in
  match evaluate policy supporters with
  | Err _ => None
  | Ok outcome =>
      Some (DeliberationReport.mk (approved outcome) (len supporters) (min_signers policy) (s1, s2, s3)
              (close_at + StageReport.elapsed_ms s3 / 1000)
              (StageReport.elapsed_ms s1 + StageReport.elapsed_ms s2 + StageReport.elapsed_ms s3)
              (StageReport.airtime_ms s1 + StageReport.airtime_ms s2 + StageReport.airtime_ms s3)
              size (Room.refusals r3))
  end.
Definition deliberate (d : Deliberation.t) : option DeliberationReport.t :=
  subject ← deliberation_subject;
  match policy_for (Deliberation.fleet d) with
  | Err _ => None
  | Ok policy =>
      rooms ← three_stages d subject;
      key ← keys_of (Deliberation.fleet d) !! 0%nat;
      size ← frame_size subject group_key key;
      deliberation_report d policy size rooms
  end.
End deliberation.
