(* ===== verification/SimDeliberation.v ===== *)
(** What the simulated deliberation counts, and whose votes: every frame is settled once and
    every refusal has its reason, airtime stays within the hour, and only members that
    speak for themselves ever support. *)
From S2P Require Import Prelude Float Time Contracts Quorum CaseState Budget Journal MemoryJournal Radio Crypto Codec WireDemo.
From S2P Require Import Channel Rng Phy Medium SimScenario SimLedger SimQuorum SimSlots SimProtocol.

Lemma zsum_insert (l : list Z) i x : (i < length l)%nat -> zsum (<[i := x]> l) = zsum l - nth i l 0 + x.
Proof.
  revert i; induction l as [|y l IH]; intros [|i] Hi; cbn [length] in Hi; try lia; [cbn; lia|].
  change (<[S i := x]> (y :: l)) with (y :: <[i := x]> l). rewrite !zsum_cons. cbn [nth]. rewrite IH by lia. lia.
Qed.

(** * The books of a stage *)

Section books.
Context `{Dg : Digest, Ed : Ed25519, Ae : Aead, Sd : Serde SignedCompactEnvelope.t, Lm : Libm}.
Context (d : Deliberation.t) (stage : Stage) (subject : Subject.t) (keys : list SigningKey.t)
  (manifest : list VerifyingKey.t) (group : GroupKey.t) (clock : FixedClock.t) (offsets : list Z).
Import Room.

(** [refused0] refusals and [spent0] milliseconds before the stage; [flying] frames sent
    and not yet settled. *)
Record tallied (refused0 spent0 flying : Z) (r : Room.t) : Prop := {
  t_sent : StageReport.frames_sent (report r) = StageReport.collided (report r) + StageReport.lost (report r)
             + StageReport.admitted (report r) + StageReport.refused (report r) + flying;
  t_refused : TransitionErrorCount.total (refusals r) = refused0 + StageReport.refused (report r);
  t_air : zsum (used_airtime r) = spent0 + StageReport.airtime_ms (report r);
  t_seats : length (used_airtime r) = Deliberation.fleet d;
  t_legal : Forall (fun used => used <= DUTY_CYCLE_BUDGET_MS) (used_airtime r);
}.
(** Same books: only journals, outbox, generators or the observer's case differ. *)
Definition same_books (r r' : Room.t) : Prop :=
  report r' = report r /\ refusals r' = refusals r /\ used_airtime r' = used_airtime r.
Lemma tallied_same a b n r r' : same_books r r' -> tallied a b n r -> tallied a b n r'.
Proof. intros (Hr & Hf & Hu) []. constructor; rewrite ?Hr, ?Hf, ?Hu; assumption. Qed.

Lemma bytes_for_books r s r' built : bytes_for d stage subject keys group r s = (r', built) ->
  same_books r r' /\ observer r' = observer r /\ rng r' = rng r /\ fading r' = fading r.
Proof.
  unfold bytes_for. destruct (nth s (outbox r) None); [by intros [= <- <-]|].
  destruct (frame_for _ _ _ _ _ _ _ _) as [j [b|]]; by intros [= <- <-].
Qed.
Lemma start_for_books r s air w e r' start : start_for d offsets r s air w e = (r', start) ->
  same_books r r' /\ observer r' = observer r /\ outbox r' = outbox r /\ journals r' = journals r.
Proof.
  unfold start_for. destruct (Deliberation.access d); [destruct (Rng.below (rng r) w)|]; by intros [= <- <-].
Qed.
Lemma rssi_books r s r' v : rssi_at_observer d r s = (r', v) ->
  same_books r r' /\ observer r' = observer r /\ outbox r' = outbox r /\ journals r' = journals r.
Proof.
  unfold rssi_at_observer. destruct (Deliberation.spacing_m d); [|by intros [= <- <-]].
  destruct (RicianFading.sample_db _); by intros [= <- <-].
Qed.
(** A frame that may legally go up. *)
Definition spends (r : Room.t) (s : nat) (air : Z) : Room.t :=
  set_report (set_used r (<[s := nth s (used_airtime r) 0 + air]> (used_airtime r)))
    (StageReport.sent (report (set_used r (<[s := nth s (used_airtime r) 0 + air]> (used_airtime r)))) air).
Lemma tallied_spends a b n r s air : (s < Deliberation.fleet d)%nat -> duty_cycle_ok (nth s (used_airtime r) 0) air = true ->
  tallied a b n r -> tallied a b (n + 1) (spends r s air).
Proof.
  intros Hs Hok%duty_cycle_ok_spec []. constructor; unfold spends; cbn; try lia.
  - rewrite zsum_insert by (rewrite t_seats0; done). lia.
  - by rewrite length_insert.
  - apply Forall_insert; [done|]. lia.
Qed.
Lemma speak_loop_tallied a b w e pending r ws retry r' ws' retry' : Forall (fun s => s < Deliberation.fleet d)%nat pending ->
  tallied a b (len ws) r -> speak_loop d stage subject keys group offsets w e pending r ws retry = (r', ws', retry') ->
  tallied a b (len ws') r' /\ len ws' + len retry' <= len ws + len retry + len pending
  /\ StageReport.frames_sent (report r') <= StageReport.frames_sent (report r) + len pending.
Proof.
  intros Hp. revert r ws retry. induction Hp as [|s pending Hs _ IH]; intros r ws retry Ht; cbn [speak_loop].
  { intros [= <- <- <-]. split; [done|]. unfold len. cbn. lia. }
  assert (len (s :: pending) = len pending + 1) as Hlen by usize.
  assert (forall x : flight, len (ws ++ [x]) = len ws + 1) as Hws by (intros x; usize).
  assert (len (retry ++ [s]) = len retry + 1) as Hretry by usize.
  destruct (bytes_for _ _ _ _ _ r s) as [r1 built] eqn:Hb. apply bytes_for_books in Hb as (Hsame & _).
  pose proof Hsame as (Hrep & _). apply (tallied_same _ _ _ _ _ Hsame) in Ht.
  destruct built as [bs|]; [|intros Hl; apply IH in Hl as (? & ? & ?); [|done]; rewrite <- Hrep; split; [done|lia]].
  cbv zeta. destruct (duty_cycle_ok _ _) eqn:Hok; cbn [negb].
  2: { intros Hl; apply IH in Hl as (? & ? & ?); [|done]; rewrite <- Hrep; split; [done|lia]. }
  pose proof (tallied_spends _ _ _ _ _ _ Hs Hok Ht) as Ht2. fold (spends r1 s (airtime_ms (len bs))).
  assert (StageReport.frames_sent (report (spends r1 s (airtime_ms (len bs)))) = StageReport.frames_sent (report r) + 1) as Hsent
    by (unfold spends; cbn; by rewrite Hrep).
  set (r2 := spends r1 s _) in *. destruct (start_for _ _ _ _ _ _ _) as [r3 start] eqn:Hst.
  apply start_for_books in Hst as (Hsame3 & _). pose proof Hsame3 as (Hrep3 & _). apply (tallied_same _ _ _ _ _ Hsame3) in Ht2.
  rewrite <- Hrep3 in Hsent. destruct (s =? OBSERVER)%nat; [|destruct (Topology.reaches _ _ _ _)].
  - intros Hl. apply IH in Hl as (? & Hc & ?); [|by rewrite Hws]. rewrite Hws in Hc. split; [done|lia].
  - destruct (rssi_at_observer d r3 s) as [r4 v] eqn:Hr. apply rssi_books in Hr as (Hsame4 & _). pose proof Hsame4 as (Hrep4 & _).
    rewrite <- Hrep4 in Hsent. apply (tallied_same _ _ _ _ _ Hsame4) in Ht2.
    intros Hl. apply IH in Hl as (? & Hc & ?); [|by rewrite Hws]. rewrite Hws in Hc. split; [done|lia].
  - intros Hl. apply IH in Hl as (? & Hc & Hf); [|destruct Ht2; constructor; cbn; (done || lia)].
    cbn in Hf. split; [done|lia].
Qed.

Lemma settle_books a b n r s bs heard r' again : tallied a b (n + 1) r -> settle d subject manifest group clock r s bs heard = (r', again) ->
  tallied a b n r' /\ StageReport.frames_sent (report r') = StageReport.frames_sent (report r).
Proof.
  intros Ht. unfold settle. cbv zeta.
  assert (forall q, same_books r q -> tallied a b n (set_report q (StageReport.bump_lost (report r)))) as Hlost.
  { intros q (_ & Hf & Hu). destruct Ht. constructor; cbn; rewrite ?Hf, ?Hu; (done || lia). }
  destruct heard.
  2-5: intros [= <- <-]; split; [destruct Ht; constructor; cbn; (done || lia)|done].
  set (p := if (s =? OBSERVER)%nat then (r, false) else _).
  assert (same_books r p.1 /\ observer p.1 = observer r) as [Hsame Hobs].
  { unfold p. destruct (s =? OBSERVER)%nat; [done|]. by destruct (Rng.next_f64 (rng r)). }
  destruct p as [q lost]. cbn [fst] in *. pose proof Hsame as (Hr & Hf & Hu).
  destruct lost; [intros [= <- <-]; split; [by apply Hlost|by destruct Ht]|].
  destruct (offer _ _ _ _ _ _) as [o|error]; intros [= <- <-]; (split; [|done]); destruct Ht; constructor; cbn;
    rewrite ?Hf, ?Hu, ?TransitionErrorCount.total_record; (done || lia).
Qed.
Lemma listen_loop_tallied a b channel k ws r retry r' retry' : tallied a b (len ws) r ->
  listen_loop d subject manifest group clock channel k ws r retry = (r', retry') ->
  tallied a b 0 r' /\ len retry' <= len retry + len ws /\ StageReport.frames_sent (report r') = StageReport.frames_sent (report r).
Proof.
  revert k r retry. induction ws as [|[[s f] bs] ws IH]; intros k r retry Ht; cbn [listen_loop].
  { intros [= <- <-]. split; [done|]. unfold len. cbn. split; [lia|done]. }
  assert (len (((s, f, bs) : flight) :: ws) = len ws + 1) as Hlen by usize. rewrite Hlen in Ht. cbv zeta.
  destruct (settle _ _ _ _ _ _ _ _ _) as [r1 again] eqn:Hs. apply settle_books with (1 := Ht) in Hs as [Ht1 Hf1].
  intros Hl. apply IH in Hl as (Ht' & Hc & Hf); [|done]. split; [done|]. split; [|congruence].
  assert (len (retry ++ [s]) = len retry + 1) as Hr by usize. destruct again; lia.
Qed.

Lemma retry_who (P : nat -> Prop) w e pending r ws retry r' ws' retry' :
  Forall P pending -> Forall (fun x : flight => P x.1.1) ws -> Forall P retry ->
  speak_loop d stage subject keys group offsets w e pending r ws retry = (r', ws', retry') ->
  Forall (fun x : flight => P x.1.1) ws' /\ Forall P retry'.
Proof.
  intros Hp. revert r ws retry. induction Hp as [|s pending Hs _ IH]; intros r ws retry Hw Hr; cbn [speak_loop]; [by intros [= <- <- <-]|].
  assert (forall f bs, Forall (fun x : flight => P x.1.1) (ws ++ [((s, f), bs)])) as Hadd
    by (intros f bs; apply Forall_app_2; [done|by apply Forall_singleton]).
  assert (Forall P (retry ++ [s])) as Hret by (apply Forall_app_2; [done|by apply Forall_singleton]).
  destruct (bytes_for _ _ _ _ _ r s) as [r1 [bs|]]; [|by apply IH]. cbv zeta. destruct (negb _); [by apply IH|].
  destruct (start_for _ _ _ _ _ _ _) as [r2 start]. destruct (s =? OBSERVER)%nat; [by apply IH|].
  destruct (Topology.reaches _ _ _ _); [|by apply IH]. destruct (rssi_at_observer d r2 s) as [r3 v]. by apply IH.
Qed.
Lemma listen_who (P : nat -> Prop) channel k ws r retry r' retry' : Forall (fun x : flight => P x.1.1) ws -> Forall P retry ->
  listen_loop d subject manifest group clock channel k ws r retry = (r', retry') -> Forall P retry'.
Proof.
  revert k r retry. induction ws as [|[[s f] bs] ws IH]; intros k r retry Hw Hr; cbn [listen_loop]; [by intros [= <- <-]|].
  apply Forall_cons in Hw as [Hs Hw]. cbv zeta. destruct (settle _ _ _ _ _ _ _ _ _) as [r1 again]. apply IH; [done|].
  destruct again; [|done]. apply Forall_app_2; [done|by apply Forall_singleton].
Qed.
Lemma rounds_tallied a b attempts round pending e r r' e' : Forall (fun s => s < Deliberation.fleet d)%nat pending -> tallied a b 0 r ->
  rounds d stage subject keys manifest group clock offsets attempts round pending e r = Some (r', e') ->
  tallied a b 0 r' /\ StageReport.frames_sent (report r') <= StageReport.frames_sent (report r) + Z.of_nat attempts * len pending.
Proof.
  revert round pending e r. induction attempts as [|attempts IH]; intros round pending e r Hp Ht; cbn [rounds].
  { intros [= <- <-]. split; [done|lia]. }
  destruct pending as [|s pending].
  { intros [= <- <-]. split; [done|]. unfold len. cbn. lia. }
  set (all := s :: pending) in *. unfold round_. intros Hrun.
  apply bind_Some in Hrun as ([[r1 retry] e1] & (w & Hw & Hround)%bind_Some & Hrest).
  destruct (speak_loop _ _ _ _ _ _ _ _ _ _ _ _) as [[r2 ws] retry2] eqn:Hs.
  destruct (listen_loop _ _ _ _ _ _ _ _ _ _) as [r3 retry3] eqn:Hl. injection Hround as <- <- _.
  pose proof (retry_who _ _ _ _ _ _ _ _ _ _ Hp (Forall_nil_2 _) (Forall_nil_2 _) Hs) as [Hw2 Hr2].
  pose proof (listen_who _ _ _ _ _ _ _ _ Hw2 Hr2 Hl) as Hr3.
  apply (speak_loop_tallied a b) in Hs as (Ht2 & Hc & Hf); [|done|done].
  apply (listen_loop_tallied a b) in Hl as (Ht3 & Hc3 & Hf3); [|done].
  apply IH in Hrest as [Ht' Hf']; [|done|done]. split; [done|].
  assert (len (@nil flight) = 0 /\ len (@nil nat) = 0) as [Hn1 Hn2] by done. nia.
Qed.
Lemma stage_books r r' : length (used_airtime r) = Deliberation.fleet d -> Forall (fun used => used <= DUTY_CYCLE_BUDGET_MS) (used_airtime r) ->
  run_stage d stage subject keys manifest group clock offsets r = Some r' ->
  tallied (TransitionErrorCount.total (refusals r)) (zsum (used_airtime r)) 0 r'
  /\ StageReport.frames_sent (report r') <= Z.of_nat Deliberation.MAX_RETRIES * len (speakers d).
Proof.
  intros Hl Hu. unfold run_stage. cbv zeta. intros ([r1 e1] & Hr & Hs)%bind_Some. injection Hs as <-.
  apply (rounds_tallied (TransitionErrorCount.total (refusals r)) (zsum (used_airtime r))) in Hr as [[] Hf].
  - split; [constructor; cbn; assumption|]. exact Hf.
  - apply Forall_forall. intros i Hi%elem_of_seq. lia.
  - constructor; cbn [set_report set_outbox report refusals used_airtime StageReport.default StageReport.frames_sent StageReport.collided
      StageReport.lost StageReport.admitted StageReport.refused StageReport.airtime_ms]; (done || lia).
Qed.
End books.

(** * Whose frames they are *)

Section sources.
Context `{Dg : Digest, Ed : Ed25519, Ae : Aead, Sd : Serde SignedCompactEnvelope.t, Lm : Libm}.
Context (d : Deliberation.t) (subject : Subject.t) (keys : list SigningKey.t) (manifest : list VerifyingKey.t) (group : GroupKey.t).
Import Room.

Definition seat_of (i : nat) : nat := if Deliberation.is_forger d i then ((i + 1) `mod` length keys)%nat else i.
(** A frame member [s] would build in a stage, under a sequence its journal would hand out
    by then. *)
Definition made (stage : Stage) (most : Z) (s : nat) (b : bytes) : Prop := exists key q, keys !! seat_of s = Some key /\ 0 <= q <= most
  /\ seal_utterance subject group (utterance subject (author_of s) stage (Deliberation.verdict_of d s) q) key (author_of s) q = Some b.
Definition within (i : nat) : Prop :=
  i = OBSERVER \/ Topology.reaches (Deliberation.topology d) i OBSERVER (Deliberation.fleet d) = true.
Definition talks (i : nat) : Prop := (Deliberation.silent d <= i < Deliberation.fleet d)%nat.

(** The journals' pace, the outbox and the frames in flight, while [pending] has still to speak. *)
Record staged (stage : Stage) (most : Z) (pending : list nat) (r : Room.t) (ws : list flight) (retry : list nat) : Prop := {
  s_seats : length (journals r) = Deliberation.fleet d /\ length (outbox r) = Deliberation.fleet d;
  s_once : NoDup (pending ++ (ws.*1).*1 ++ retry);
  s_talk : Forall talks (pending ++ (ws.*1).*1 ++ retry);
  s_fresh : Forall (fun i => nth i (outbox r) None = None ->
    MemoryJournal.next_sequence_ (nth i (journals r) MemoryJournal.default_) <= most) pending;
  s_built : Forall (fun i => nth i (outbox r) None <> None) ((ws.*1).*1 ++ retry);
  s_pace i : 0 <= MemoryJournal.next_sequence_ (nth i (journals r) MemoryJournal.default_) <= most + 1;
  s_box i b : nth i (outbox r) None = Some b -> made stage most i b;
  s_flights : Forall (fun x : flight => made stage most x.1.1 x.2 /\ within x.1.1) ws;
}.
Lemma nth_insert_list {A} (l : list A) i j x dflt : (i < length l)%nat -> nth j (<[i := x]> l) dflt = if decide (i = j) then x else nth j l dflt.
Proof.
  intros Hi. rewrite !nth_lookup. case_decide as He; [subst; by rewrite list_lookup_insert_eq|by rewrite list_lookup_insert_ne].
Qed.

(** A frame is built from the next sequence, which it uses up. *)
Lemma frame_for_made stage most j s j' built : 0 <= MemoryJournal.next_sequence_ j <= most -> most < U64_MAX ->
  frame_for stage subject keys group j s (Deliberation.verdict_of d s) (Deliberation.is_forger d s) = (j', built) ->
  0 <= MemoryJournal.next_sequence_ j' <= most + 1 /\ forall b, built = Some b -> made stage most s b.
Proof.
  intros Hj Hmost. unfold frame_for, MemoryJournal.reserve_sequence. cbv zeta. fold (seat_of s).
  assert (sat_add64 (MemoryJournal.next_sequence_ j) 1 = MemoryJournal.next_sequence_ j + 1) as Hnext by (unfold sat_add64; lia).
  rewrite Hnext. set (j1 := MemoryJournal.set_next j _).
  assert (0 <= MemoryJournal.next_sequence_ j1 <= most + 1) as Hj1 by (cbn; lia).
  destruct (keys !! seat_of s) as [key|] eqn:Hkey; [|by intros [= <- <-]].
  destruct (seal_utterance _ _ _ _ _ _) as [b|] eqn:Hseal; [|by intros [= <- <-]].
  assert (forall b', Some b = Some b' -> made stage most s b') as Hmade.
  { intros b' [= <-]. exists key, (MemoryJournal.next_sequence_ j). split; [exact Hkey|]. split; [lia|exact Hseal]. }
  case_bool_decide; [|by intros [= <- <-]]. unfold MemoryJournal.commit_vote. cbv zeta.
  case_bool_decide; intros [= <- <-]; [by split|]. split; [|exact Hmade]. cbn. rewrite Hnext. lia.
Qed.

Lemma staged_same stage most pending r r' ws retry : journals r' = journals r -> outbox r' = outbox r ->
  staged stage most pending r ws retry -> staged stage most pending r' ws retry.
Proof. intros Hj Ho []. constructor; rewrite ?Hj, ?Ho; assumption. Qed.
(** The next member drops out, or has its frame in the outbox. *)
Lemma bytes_for_staged stage most s pending r ws retry r1 built : most < U64_MAX ->
  staged stage most (s :: pending) r ws retry -> bytes_for d stage subject keys group r s = (r1, built) ->
  staged stage most pending r1 ws retry
  /\ forall b, built = Some b -> made stage most s b /\ nth s (outbox r1) None <> None /\ s ∉ pending ++ (ws.*1).*1 ++ retry /\ talks s.
Proof.
  intros Hmost [[Hsj Hso] Honce Htalk Hfresh Hbuilt Hpace Hbox Hfl]. cbn [app] in Honce, Htalk.
  apply NoDup_cons in Honce as [Hs Hnd]. apply Forall_cons in Htalk as [Ht Htalk]. apply Forall_cons in Hfresh as [Hf Hfresh].
  assert (staged stage most pending r ws retry) as Hsame by (constructor; (assumption || done)).
  unfold bytes_for. destruct (nth s (outbox r) None) as [b|] eqn:Hout.
  { intros [= <- <-]. split; [done|]. intros b' [= <-]. split_and!; [by apply Hbox|by rewrite Hout|done|done]. }
  pose proof Ht as [_ Hlt]. specialize (Hf eq_refl). pose proof (Hpace s) as Hs0.
  destruct (frame_for _ _ _ _ _ _ _ _) as [j b] eqn:Hframe. apply (frame_for_made stage most) in Hframe as [Hj Hmade]; [|lia|lia].
  assert (forall i, nth i (<[s := j]> (journals r)) MemoryJournal.default_
            = if decide (s = i) then j else nth i (journals r) MemoryJournal.default_) as Hnth
    by (intros i; apply nth_insert_list; by rewrite Hsj).
  assert (Forall (fun i => i <> s) pending) as Hother.
  { apply Forall_forall. intros i Hi ->. apply Hs, elem_of_app. by left. }
  assert (staged stage most pending (set_journals r (<[s := j]> (journals r))) ws retry) as Hst.
  { constructor; cbn [set_journals journals outbox]; try assumption.
    - by rewrite length_insert.
    - rewrite Forall_forall in Hfresh, Hother |- *. intros i Hi Hn. rewrite Hnth, decide_False by (intros ->; by apply (Hother i)). by apply Hfresh.
    - intros i. rewrite Hnth. case_decide; [lia|apply Hpace]. }
  destruct b as [b|]; intros [= <- <-]; [|by split].
  assert (forall i, nth i (<[s := Some b]> (outbox r)) None = if decide (s = i) then Some b else nth i (outbox r) None) as Hnth2
    by (intros i; apply nth_insert_list; by rewrite Hso).
  split.
  - destruct Hst. constructor; cbn [set_outbox set_journals journals outbox] in *; try assumption.
    + by rewrite !length_insert.
    + rewrite Forall_forall in s_fresh0, Hother |- *. intros i Hi. rewrite Hnth2, decide_False by (intros ->; by apply (Hother i)). by apply s_fresh0.
    + eapply Forall_impl; [exact Hbuilt|]. intros i Hi. rewrite Hnth2. by case_decide.
    + intros i b'. rewrite Hnth2. case_decide; [intros [= <-]; subst; by apply Hmade|apply Hbox].
  - intros b' [= <-]. cbn [set_outbox outbox]. rewrite Hnth2, decide_True by done. split_and!; [by apply Hmade|done|done|done].
Qed.
Lemma staged_fly stage most s f b pending r ws retry : staged stage most pending r ws retry -> made stage most s b -> within s ->
  nth s (outbox r) None <> None -> s ∉ pending ++ (ws.*1).*1 ++ retry -> talks s -> staged stage most pending r (ws ++ [((s, f), b)]) retry.
Proof.
  intros [] Hm Hw Hb Hs Ht.
  assert (((ws ++ [((s, f), b)]).*1).*1 = (ws.*1).*1 ++ [s]) as Heq by (by rewrite !fmap_app).
  assert (pending ++ ((ws.*1).*1 ++ [s]) ++ retry ≡ₚ s :: pending ++ (ws.*1).*1 ++ retry) as Hp by solve_Permutation.
  assert (((ws.*1).*1 ++ [s]) ++ retry ≡ₚ s :: (ws.*1).*1 ++ retry) as Hp2 by solve_Permutation.
  constructor; rewrite ?Heq; try assumption.
  - rewrite Hp. by apply NoDup_cons_2.
  - rewrite Hp. by apply Forall_cons_2.
  - rewrite Hp2. by apply Forall_cons_2.
  - apply Forall_app_2; [done|]. by apply Forall_singleton.
Qed.
Lemma staged_retry stage most s pending r ws retry : staged stage most pending r ws retry ->
  nth s (outbox r) None <> None -> s ∉ pending ++ (ws.*1).*1 ++ retry -> talks s -> staged stage most pending r ws (retry ++ [s]).
Proof.
  intros [] Hb Hs Ht.
  assert (pending ++ (ws.*1).*1 ++ retry ++ [s] ≡ₚ s :: pending ++ (ws.*1).*1 ++ retry) as Hp by solve_Permutation.
  assert ((ws.*1).*1 ++ retry ++ [s] ≡ₚ s :: (ws.*1).*1 ++ retry) as Hp2 by solve_Permutation.
  constructor; try assumption.
  - rewrite Hp. by apply NoDup_cons_2.
  - rewrite Hp. by apply Forall_cons_2.
  - rewrite Hp2. by apply Forall_cons_2.
Qed.
Lemma speak_loop_staged stage most offsets w e pending r ws retry r' ws' retry' : most < U64_MAX -> staged stage most pending r ws retry ->
  speak_loop d stage subject keys group offsets w e pending r ws retry = (r', ws', retry') ->
  staged stage most [] r' ws' retry' /\ observer r' = observer r.
Proof.
  intros Hmost. revert r ws retry. induction pending as [|s pending IH]; intros r ws retry Hst; cbn [speak_loop]; [by intros [= <- <- <-]|].
  destruct (bytes_for _ _ _ _ _ r s) as [r1 built] eqn:Hb. pose proof Hb as (_ & Ho1 & _)%bytes_for_books. rewrite <- Ho1.
  apply (bytes_for_staged stage most _ pending _ ws retry) in Hb as [Hst1 Hnew]; [|done|done].
  destruct built as [bs|]; [|by apply IH]. destruct (Hnew bs eq_refl) as (Hmade & Hbox & Hs & Ht). clear Hnew.
  cbv zeta. destruct (negb _); [by apply IH|]. set (r2 := set_report _ _).
  assert (staged stage most pending r2 ws retry) as Hst2 by (by apply (staged_same _ _ _ r1)).
  destruct (start_for _ _ _ _ _ _ _) as [r3 start] eqn:Hstart. apply start_for_books in Hstart as (_ & Ho3 & Hbox3 & Hj3).
  change (observer r2) with (observer r1) in Ho3. rewrite <- Ho3. change (outbox r2) with (outbox r1) in Hbox3.
  apply (staged_same _ _ _ _ r3) in Hst2; [|done|done]. rewrite <- Hbox3 in Hbox.
  destruct (Nat.eqb_spec s OBSERVER) as [->|Hne]; [|destruct (Topology.reaches _ _ _ _) eqn:Hreach].
  - apply IH. apply staged_fly; try done. by left.
  - destruct (rssi_at_observer d r3 s) as [r4 v] eqn:Hr. apply rssi_books in Hr as (_ & Ho4 & Hbox4 & Hj4). rewrite <- Ho4, <- Hbox4 in *.
    apply IH. apply staged_fly; try done; [by apply (staged_same _ _ _ r3)|by right].
  - intros Hl. change (observer r3) with (observer (set_report r3 (StageReport.bump_lost (report r3)))).
    eapply IH; [|exact Hl]. apply staged_retry; try done. by apply (staged_same _ _ _ r3).
Qed.

(** An opinion the observer holds came in a frame that a member within reach built. *)
Definition sourced (o : Opinion.t) : Prop := exists stage most s b,
  talks s /\ within s /\ made stage most s b /\ 0 <= most <= 2 /\ heard_opinion subject manifest group b = Some o.
Record listening (c : Case.t) : Prop := {
  l_inv : case_inv c;
  l_sourced : Forall sourced (Case.independent c ++ Case.binding c);
}.
Lemma offer_listening clock stage most s b c c' : talks s -> within s -> made stage most s b -> 0 <= most <= 2 -> listening c ->
  offer subject manifest group clock c b = Ok c' ->
  listening c' /\ Case.phase c' = Case.phase c /\ Case.expires_at c' = Case.expires_at c /\ Case.subject c' = Case.subject c
  /\ (Case.phase c = Consulting -> Case.binding c' = Case.binding c).
Proof.
  intros Ht Hw Hm Hmost [Hinv Hsrc]. unfold offer. destruct (heard_opinion _ _ _ b) as [o|] eqn:Ho; [|done]. intros Hacc.
  assert (sourced o) as Hso by (exists stage, most, s, b; split_and!; (done || lia)).
  pose proof (case_inv_accept _ _ _ _ Hinv Hacc) as Hinv'. apply accept_ok in Hacc as (_ & _ & Had). rewrite Forall_app in Hsrc.
  destruct Had as [Hp Hst Hal|Hp Hst Hal|Hp Hst Hb Hv]; cbn.
  - split_and!; try done. constructor; [done|]. cbn. rewrite !Forall_app, Forall_singleton. naive_solver.
  - split_and!; try done. constructor; [done|]. by rewrite Forall_app.
  - split_and!; try done; [|congruence]. constructor; [done|]. cbn. rewrite !Forall_app, Forall_singleton. naive_solver.
Qed.
(** The machine's part of a stage: [c] has become [c'] without changing phase. *)
Definition advanced (c c' : Case.t) : Prop := listening c' /\ Case.phase c' = Case.phase c /\ Case.expires_at c' = Case.expires_at c
  /\ Case.subject c' = Case.subject c /\ (Case.phase c = Consulting -> Case.binding c' = Case.binding c).
Lemma advanced_refl c : listening c -> advanced c c.
Proof. done. Qed.
Lemma advanced_trans a b c : advanced a b -> advanced b c -> advanced a c.
Proof. intros (_ & Hp & He & Hs & Hb) (Hl & Hp' & He' & Hs' & Hb'). split_and!; [done|congruence..|]. intros Hc. rewrite Hb', Hb by congruence. done. Qed.
Lemma settle_listening clock stage most r s b heard r' again : talks s -> within s -> made stage most s b -> 0 <= most <= 2 ->
  listening (observer r) -> settle d subject manifest group clock r s b heard = (r', again) ->
  advanced (observer r) (observer r') /\ journals r' = journals r /\ outbox r' = outbox r.
Proof.
  intros Ht Hw Hm Hmost Hl. unfold settle. cbv zeta. destruct heard; [|by intros [= <- <-]..].
  set (p := if (s =? OBSERVER)%nat then (r, false) else _).
  assert (observer p.1 = observer r /\ journals p.1 = journals r /\ outbox p.1 = outbox r) as (Ho & Hj & Hb).
  { unfold p. destruct (s =? OBSERVER)%nat; [done|]. by destruct (Rng.next_f64 (rng r)). }
  destruct p as [q lost]. cbn [fst] in *. destruct lost; [intros [= <- <-]; cbn; rewrite Ho; by split|]. rewrite Ho.
  destruct (offer _ _ _ _ _ _) as [c'|error] eqn:Hoff; intros [= <- <-]; cbn; [|rewrite Ho; by split].
  split; [|by split]. by eapply offer_listening.
Qed.
Lemma listen_loop_staged clock stage most channel k ws r retry r' retry' : 0 <= most <= 2 -> listening (observer r) ->
  staged stage most [] r ws retry -> listen_loop d subject manifest group clock channel k ws r retry = (r', retry') ->
  staged stage most [] r' [] retry' /\ advanced (observer r) (observer r').
Proof.
  intros Hmost. revert k r retry. induction ws as [|[[s f] b] ws IH]; intros k r retry Hl Hst; cbn [listen_loop]; [by intros [= <- <-]|].
  cbv zeta. destruct (settle _ _ _ _ _ _ _ _ _) as [r1 again] eqn:Hs.
  pose proof Hst as [_ Honce Htalk _ Hbuilt _ _ Hfl]. cbn [fmap list_fmap fst app] in Honce, Htalk, Hbuilt.
  apply Forall_cons in Hfl as [[Hm Hw] Hfl]. apply Forall_cons in Htalk as [Ht Htalk]. apply Forall_cons in Hbuilt as [Hb Hbuilt].
  apply NoDup_cons in Honce as [Hnot Hnd].
  apply (settle_listening _ stage most) in Hs as (Hadv & Hj & Ho); [|done|done|done|done|done].
  assert (staged stage most [] r1 ws retry) as Hst1.
  { apply (staged_same _ _ _ r); [done|done|]. destruct Hst. constructor; (assumption || done). }
  intros Hloop. eapply IH in Hloop as [Hst' Hadv']; [|by destruct Hadv|].
  - split; [done|by eapply advanced_trans].
  - destruct again; [|done]. apply staged_retry; [done|by rewrite Ho|done|done].
Qed.
Lemma rounds_staged clock stage most offsets attempts round pending e r r' e' : 0 <= most <= 2 -> listening (observer r) ->
  staged stage most pending r [] [] ->
  rounds d stage subject keys manifest group clock offsets attempts round pending e r = Some (r', e') ->
  exists pending', staged stage most pending' r' [] [] /\ advanced (observer r) (observer r').
Proof.
  intros Hmost. revert round pending e r. induction attempts as [|attempts IH]; intros round pending e r Hl Hst; cbn [rounds].
  { intros [= <- <-]. by exists pending. }
  destruct pending as [|s pending]; [intros [= <- <-]; by exists []|].
  unfold round_. intros Hrun. apply bind_Some in Hrun as ([[r1 retry] e1] & (w & Hw & Hround)%bind_Some & Hrest).
  destruct (speak_loop _ _ _ _ _ _ _ _ _ _ _ _) as [[r2 ws] retry2] eqn:Hs.
  destruct (listen_loop _ _ _ _ _ _ _ _ _ _) as [r3 retry3] eqn:Hll. injection Hround as <- <- _.
  apply (speak_loop_staged stage most) in Hs as [Hst2 Ho]; [|unfold U64_MAX; lia|done].
  apply (listen_loop_staged _ stage most) in Hll as [Hst3 Hadv]; [|done|by rewrite Ho|done]. rewrite Ho in Hadv.
  assert (staged stage most retry3 r3 [] []) as Hst4.
  { destruct Hst3 as [S1 S2 S3 S4 S5 S6 S7 S8]. cbn [fmap list_fmap app] in *. constructor; cbn [fmap list_fmap app];
      rewrite ?app_nil_r in *; try assumption; [|constructor].
    eapply Forall_impl; [exact S5|]. intros i Hi Hn. by destruct (Hi Hn). }
  apply IH in Hrest as (pending' & Hst' & Hadv'); [|by destruct Hadv|done]. exists pending'. split; [done|by eapply advanced_trans].
Qed.

(** Between stages: nobody has been given more than [most] sequence numbers. *)
Record paced (most : Z) (r : Room.t) : Prop := {
  p_seats : length (journals r) = Deliberation.fleet d;
  p_pace i : 0 <= MemoryJournal.next_sequence_ (nth i (journals r) MemoryJournal.default_) <= most;
  p_listening : listening (observer r);
}.
Lemma nth_replicate {A} n i (x dflt : A) : nth i (replicate n x) dflt = if decide (i < n)%nat then x else dflt.
Proof.
  rewrite nth_lookup. case_decide as Hi; [by rewrite lookup_replicate_2|].
  by rewrite (proj1 (lookup_replicate_None n x i)) by lia.
Qed.
Lemma run_stage_paced clock stage most offsets r r' : 0 <= most <= 2 -> paced most r ->
  run_stage d stage subject keys manifest group clock offsets r = Some r' ->
  paced (most + 1) r' /\ advanced (observer r) (observer r').
Proof.
  intros Hmost []. unfold run_stage. cbv zeta. intros ([r1 e1] & Hr & Hs)%bind_Some. injection Hs as <-.
  apply (rounds_staged _ _ most) in Hr as (pending' & [[Hj _] _ _ _ _ Hpace _ _] & Hadv); [|done|done|].
  - split; [|exact Hadv]. constructor; [exact Hj|exact Hpace|by destruct Hadv].
  - constructor; cbn [set_report set_outbox journals outbox fmap list_fmap app]; rewrite ?app_nil_r; try constructor.
    + done.
    + by rewrite length_replicate.
    + apply NoDup_seq.
    + apply Forall_forall. intros i Hi%elem_of_seq. unfold talks. lia.
    + apply Forall_forall. intros i _ _. destruct (p_pace0 i). lia.
    + destruct (p_pace0 i). lia.
    + destruct (p_pace0 i). lia.
    + intros i b. rewrite nth_replicate. by case_decide.
Qed.
End sources.

(** * Three stages *)

Section three.
Context `{Dg : Digest, Ed : Ed25519, Ae : Aead, Sd : Serde SignedCompactEnvelope.t, Lm : Libm}.
Context (d : Deliberation.t) (subject : Subject.t) (Hsubject : deliberation_subject = Some subject).
Import Room.
Notation keys := (keys_of (Deliberation.fleet d)).
Notation manifest := (manifest_of (Deliberation.fleet d)).

Lemma started_at_known : Subject.started_at subject = STARTED_AT.
Proof. unfold deliberation_subject in Hsubject. destruct (Subject.new _ _ _ _ _) as [q|] eqn:Hq; [|done].
  apply Subject.new_ok in Hq as (_ & _ & ->). by injection Hsubject as <-. Qed.
Definition voting_clock : FixedClock.t := FixedClock.new (Timestamp.plus_secs STARTED_AT close_at).
Lemma consultation_closes c : Case.phase c = Consulting -> Case.subject c = subject ->
  Case.close_consultation c voting_clock = Ok (Case.set_phase c CollectingVotes).
Proof.
  intros Hp Hs. apply close_ok. split; [done|]. split; [|done]. rewrite Hs. unfold Subject.consultation_cutoff.
  rewrite started_at_known. by vm_compute.
Qed.
Lemma close_opens r : Case.phase (observer r) = Consulting -> Case.subject (observer r) = subject ->
  close r voting_clock = set_observer r (Case.set_phase (observer r) CollectingVotes).
Proof. intros Hp Hs. unfold close. by rewrite consultation_closes. Qed.

(** How the three stages run: each in its phase, with the room as the last one left it. *)
Lemma stages_run r1 r2 r3 : three_stages d subject = Some (r1, r2, r3) -> exists r2',
  r2' = set_observer r2 (Case.set_phase (observer r2) CollectingVotes)
  /\ run_stage d Independent subject keys manifest group_key (FixedClock.new (Timestamp.plus_secs STARTED_AT 1))
       (Deliberation.clock_offsets_ms d) (first_room d subject) = Some r1
  /\ run_stage d Consultation subject keys manifest group_key (FixedClock.new (Timestamp.plus_secs STARTED_AT 1))
       (Deliberation.clock_offsets_ms d) r1 = Some r2
  /\ run_stage d BindingSupport subject keys manifest group_key voting_clock (Deliberation.clock_offsets_ms d) r2' = Some r3
  /\ paced d subject keys manifest group_key 2 r2' /\ Case.binding (observer r2') = []
  /\ Case.phase (observer r2') = CollectingVotes /\ Case.expires_at (observer r2') = Case.expires_at (observer (first_room d subject))
  /\ paced d subject keys manifest group_key 3 r3.
Proof.
  unfold three_stages. cbv zeta. intros (q1 & H1 & (q2 & H2 & (q3 & H3 & Heq)%bind_Some)%bind_Some)%bind_Some. injection Heq as -> -> ->.
  assert (paced d subject keys manifest group_key 0 (first_room d subject)) as Hp0.
  { constructor.
    - unfold first_room. cbn. by rewrite length_replicate.
    - intros i. unfold first_room. cbn [journals]. rewrite nth_replicate. case_decide; vm_compute; split; congruence.
    - unfold first_room. cbn [observer]. destruct (Deliberation.validity_s d); (constructor; [apply case_inv_open|constructor]). }
  assert (Case.phase (observer (first_room d subject)) = Consulting /\ Case.binding (observer (first_room d subject)) = []
    /\ Case.subject (observer (first_room d subject)) = subject) as (Hph0 & Hb0 & Hs0)
    by (unfold first_room; cbn [observer]; by destruct (Deliberation.validity_s d)).
  pose proof (run_stage_paced _ _ _ _ _ _ _ 0 _ _ _ ltac:(lia) Hp0 H1) as (Hp1 & _ & Hph1 & He1 & Hs1 & Hb1).
  pose proof (run_stage_paced _ _ _ _ _ _ _ 1 _ _ _ ltac:(lia) Hp1 H2) as (Hp2 & _ & Hph2 & He2 & Hs2 & Hb2).
  rewrite close_opens in H3 by congruence. set (r2' := set_observer r2 _) in *.
  assert (Case.binding (observer r2) = []) as Hempty by (rewrite Hb2, Hb1 by congruence; done).
  assert (paced d subject keys manifest group_key 2 r2') as Hp2'.
  { destruct Hp2 as [Hj Hpace [Hinv Hsrc]]. constructor; [exact Hj|exact Hpace|]. constructor; [|exact Hsrc].
    apply (case_inv_close _ _ _ Hinv (consultation_closes (observer r2) ltac:(congruence) ltac:(congruence))). }
  pose proof (run_stage_paced _ _ _ _ _ _ _ 2 _ _ _ ltac:(lia) Hp2' H3) as (Hp3 & _).
  exists r2'. split_and!; try done. change (Case.expires_at (observer r2') ) with (Case.expires_at (observer r2)). congruence.
Qed.
End three.

(** * Who signed what *)

Section authorship.
Context `{Dg : Digest, Ed : Ed25519, El : !Ed25519Laws, Ae : Aead, Al : !AeadLaws, Sd : Serde SignedCompactEnvelope.t,
  Sl : !SerdeLaws SignedCompactEnvelope.t}.
Context (d : Deliberation.t) (subject : Subject.t).
Notation fleet := (Deliberation.fleet d).
Context (Hsize : 2 <= Z.of_nat fleet <= 65536) (Hapart : keys_apart fleet).

Lemma seat_forges i : (i < fleet)%nat -> seat_of d (keys_of fleet) i = i <-> Deliberation.is_forger d i = false.
Proof.
  intros Hi. unfold seat_of. rewrite keys_count. destruct (Deliberation.is_forger d i); [|done]. split; [|done]. intros Heq. exfalso.
  destruct (decide (i + 1 = fleet)%nat) as [He|]; [rewrite He, Nat.Div0.mod_same in Heq; lia|].
  rewrite Nat.mod_small in Heq by lia. lia.
Qed.
Lemma seat_in_range i : (i < fleet)%nat -> (seat_of d (keys_of fleet) i < fleet)%nat.
Proof. intros Hi. unfold seat_of. rewrite keys_count. destruct (Deliberation.is_forger d i); [|done]. apply Nat.mod_upper_bound. lia. Qed.
(** A frame says what its member meant to say, and nothing when it was signed for another. *)
Lemma made_heard stage most i b : (i < fleet)%nat -> 0 <= most <= 2 -> made d subject (keys_of fleet) group_key stage most i b ->
  heard_opinion subject (manifest_of fleet) group_key b
  = if Deliberation.is_forger d i then None
    else Some (Opinion.new (member_id i) subject stage (Deliberation.verdict_of d i)).
Proof.
  intros Hi Hmost (key & q & Hkey & Hq & Hseal). rewrite keys_lookup in Hkey by (by apply seat_in_range).
  assert (key = SigningKey.from_seed (seed_for (seat_of d (keys_of fleet) i))) as -> by congruence. clear Hkey.
  rewrite (author_small fleet) in Hseal by (lia || done). unfold seal_utterance in Hseal.
  set (e := utterance _ _ _ _ _) in Hseal. set (signing := SigningKey.from_seed _) in Hseal.
  destruct (encode_compact _) as [signed|] eqn:Henc; [|done].
  destruct (seal_frame _ _ _ _) as [sealed|] eqn:Hs; [|done]. assert (sealed = b) as -> by congruence. clear Hseal.
  apply open_sealed in Hs; [|width; lia|width; lia]. apply ok_or_ok in Henc. unfold heard_opinion. rewrite Hs.
  unfold decode_compact. rewrite (serde_roundtrip _ _ Henc). cbn [ok_or]. cbv zeta.
  change (SignedCompactEnvelope.envelope (sign_compact e signing (Subject.content_hash subject))) with e.
  assert (Z.to_nat (CompactEnvelope.author_index e) = i) as -> by (unfold e, utterance, CompactEnvelope.new; cbn; lia).
  rewrite manifest_lookup by done. unfold SignedCompactEnvelope.verify, VerifyingKey.verify.
  cbn [VerifyingKey.point sign_compact SignedCompactEnvelope.signature SignedCompactEnvelope.envelope]. unfold SigningKey.sign.
  change (SigningKey.seed signing) with (seed_for (seat_of d (keys_of fleet) i)).
  pose proof (seat_forges i Hi) as Hforge. destruct (Deliberation.is_forger d i) eqn:Hf.
  - rewrite Hapart; [done|done|by apply seat_in_range|]. intros Heq. destruct Hforge as [Hforge _].
    by specialize (Hforge (eq_sym Heq)).
  - rewrite (proj2 Hforge eq_refl), ed_verify_sign. cbn [is_ok negb].
    assert (stage_of (CompactEnvelope.stage e) = Some stage) as -> by (unfold e; by destruct stage).
    assert (verdict_of (CompactEnvelope.verdict e) = Some (Deliberation.verdict_of d i)) as ->
      by (unfold e; cbn; by destruct (Deliberation.verdict_of d i)).
    done.
Qed.
End authorship.

(** A member whose support can count: it speaks, it is heard, it signs for itself, and it
    does not dispute. *)
Definition votes (d : Deliberation.t) (i : nat) : Prop :=
  talks d i /\ within d i /\ Deliberation.is_forger d i = false /\ Deliberation.verdict_of d i = Support.
Lemma binding_voters `{Digest, Ed25519Laws, AeadLaws, SerdeLaws SignedCompactEnvelope.t} (d : Deliberation.t) subject c :
  2 <= Z.of_nat (Deliberation.fleet d) <= 65536 -> keys_apart (Deliberation.fleet d) ->
  listening d subject (keys_of (Deliberation.fleet d)) (manifest_of (Deliberation.fleet d)) group_key c ->
  exists voters, Case.binding_supporters c = member_id <$> voters /\ NoDup voters /\ Forall (votes d) voters.
Proof.
  intros Hsize Hapart [Hinv Hsrc].
  destruct (named_list (votes d) member_id (Case.binding_supporters c)) as (voters & Hv & Hall).
  - unfold Case.binding_supporters. apply Forall_fmap, Forall_forall. intros o [Hsup Hin]%list_elem_of_filter.
    apply Forall_app in Hsrc as [_ Hsrc]. rewrite Forall_forall in Hsrc.
    destruct (Hsrc o Hin) as (stage & most & s & b & Ht & Hw & Hm & Hmost & Ho). pose proof Ht as [_ Hlt].
    rewrite (made_heard d subject Hsize Hapart stage most s b Hlt Hmost Hm) in Ho.
    destruct (Deliberation.is_forger d s) eqn:Hf; [done|]. injection Ho as <-. exists s. split; [|done].
    split_and!; [done|done|done|]. cbn in Hsup. by destruct (Deliberation.verdict_of d s).
  - exists voters. split; [done|]. split; [|done]. apply (NoDup_fmap_1 member_id). rewrite <- Hv. by apply supporters_nodup.
Qed.

(** * Nothing is voted on a case that is not certainly valid *)

Section validity.
Context `{Dg : Digest, Ed : Ed25519, Ae : Aead, Sd : Serde SignedCompactEnvelope.t, Lm : Libm}.
Context (d : Deliberation.t) (stage : Stage) (subject : Subject.t) (keys : list SigningKey.t)
  (manifest : list VerifyingKey.t) (group : GroupKey.t) (clock : FixedClock.t) (offsets : list Z).
Import Room.

(** The observer's case after some frames: as long valid, the same votes. *)
Definition voteless (c c' : Case.t) : Prop := Case.expires_at c' = Case.expires_at c
  /\ (certainly_before clock (Case.expires_at c) = false -> Case.binding c' = Case.binding c).
#[local] Instance voteless_preorder : PreOrder voteless.
Proof. split; [done|]. intros a b c [He Hb] [He' Hb']. split; [congruence|]. intros Hu. rewrite Hb' by congruence. auto. Qed.
Lemma offer_voteless c b c' : offer subject manifest group clock c b = Ok c' -> voteless c c'.
Proof.
  unfold offer. destruct (heard_opinion _ _ _ b) as [o|]; [|done]. intros (_ & _ & Had)%accept_ok.
  destruct Had as [| |Hp Hst Hb Hv]; (split; [done|]); intros Hu; [done..|congruence].
Qed.
Lemma speak_loop_observer w e pending r ws retry r' ws' retry' :
  speak_loop d stage subject keys group offsets w e pending r ws retry = (r', ws', retry') -> observer r' = observer r.
Proof.
  revert r ws retry. induction pending as [|s pending IH]; intros r ws retry; cbn [speak_loop]; [by intros [= <- <- <-]|].
  destruct (bytes_for _ _ _ _ _ r s) as [r1 built] eqn:Hb. apply bytes_for_books in Hb as (_ & <- & _).
  destruct built as [bs|]; [|apply IH]. cbv zeta. destruct (negb _); [apply IH|].
  destruct (start_for _ _ _ _ _ _ _) as [r2 start] eqn:Hs. apply start_for_books in Hs as (_ & Ho & _).
  cbn in Ho. rewrite <- Ho. destruct (s =? OBSERVER)%nat; [apply IH|]. destruct (Topology.reaches _ _ _ _).
  - destruct (rssi_at_observer d r2 s) as [r3 v] eqn:Hr. apply rssi_books in Hr as (_ & <- & _). apply IH.
  - intros Hl. by apply IH in Hl.
Qed.
Lemma settle_voteless r s b heard r' again : settle d subject manifest group clock r s b heard = (r', again) -> voteless (observer r) (observer r').
Proof.
  unfold settle. cbv zeta. destruct heard; [|by intros [= <- <-]..]. set (p := if (s =? OBSERVER)%nat then (r, false) else _).
  assert (observer p.1 = observer r) as Ho by (unfold p; destruct (s =? OBSERVER)%nat; [done|by destruct (Rng.next_f64 (rng r))]).
  destruct p as [q lost]. cbn [fst] in Ho. destruct lost; [intros [= <- <-]; cbn; by rewrite Ho|]. rewrite Ho.
  destruct (offer _ _ _ _ _ _) as [c|] eqn:Hoff; intros [= <- <-]; cbn; [by eapply offer_voteless|by rewrite Ho].
Qed.
Lemma listen_loop_voteless channel k ws r retry r' retry' :
  listen_loop d subject manifest group clock channel k ws r retry = (r', retry') -> voteless (observer r) (observer r').
Proof.
  revert k r retry. induction ws as [|[[s f] b] ws IH]; intros k r retry; cbn [listen_loop]; [by intros [= <- <-]|].
  cbv zeta. destruct (settle _ _ _ _ _ _ _ _ _) as [r1 again] eqn:Hs. apply settle_voteless in Hs. intros Hl%IH. by etrans.
Qed.
Lemma stage_voteless r r' : run_stage d stage subject keys manifest group clock offsets r = Some r' -> voteless (observer r) (observer r').
Proof.
  unfold run_stage. cbv zeta. intros ([r1 e1] & Hr & Hs)%bind_Some. injection Hs as <-. revert Hr.
  change (observer r) with (observer (set_report (set_outbox r (replicate (Deliberation.fleet d) None)) StageReport.default)).
  change (observer (set_report r1 _)) with (observer r1). generalize (set_report (set_outbox r (replicate (Deliberation.fleet d) None)) StageReport.default).
  generalize Deliberation.MAX_RETRIES 0%nat (speakers d) 0. intros attempts. induction attempts as [|attempts IH]; intros round pending e q; cbn [rounds].
  { by intros [= -> _]. }
  destruct pending as [|s pending]; [by intros [= -> _]|]. unfold round_.
  intros Hrun. apply bind_Some in Hrun as ([[q1 retry] e2] & (w & Hw & Hround)%bind_Some & Hrest).
  destruct (speak_loop _ _ _ _ _ _ _ _ _ _ _ _) as [[q2 ws] retry2] eqn:Hsp.
  destruct (listen_loop _ _ _ _ _ _ _ _ _ _) as [q3 retry3] eqn:Hll. injection Hround as <- <- _.
  apply speak_loop_observer in Hsp as <-. apply listen_loop_voteless in Hll. apply IH in Hrest. by etrans.
Qed.
End validity.

(** * The report *)

Lemma deliberate_inv `{Digest, Ed25519, Aead, Serde SignedCompactEnvelope.t, Libm} (d : Deliberation.t) rep : deliberate d = Some rep ->
  exists subject policy r1 r2 r3 q, deliberation_subject = Some subject /\ policy_for (Deliberation.fleet d) = Ok policy
  /\ three_stages d subject = Some (r1, r2, r3) /\ evaluate policy (Case.binding_supporters (Room.observer r3)) = Ok q
  /\ DeliberationReport.endorsed rep = approved q /\ DeliberationReport.min_signers rep = min_signers policy
  /\ DeliberationReport.binding_supporters rep = len (Case.binding_supporters (Room.observer r3))
  /\ DeliberationReport.stages rep = (Room.report r1, Room.report r2, Room.report r3)
  /\ DeliberationReport.elapsed_s rep = close_at + StageReport.elapsed_ms (Room.report r3) / 1000
  /\ DeliberationReport.airtime_ms rep = StageReport.airtime_ms (Room.report r1) + StageReport.airtime_ms (Room.report r2)
       + StageReport.airtime_ms (Room.report r3)
  /\ DeliberationReport.refusals rep = Room.refusals r3.
Proof.
  unfold deliberate. intros (subject & Hs & Hrest)%bind_Some. destruct (policy_for _) as [policy|]; [|done].
  apply bind_Some in Hrest as ([[r1 r2] r3] & Hr & (key & _ & (size & _ & Hrep)%bind_Some)%bind_Some).
  unfold deliberation_report in Hrep. destruct (evaluate _ _) as [q|] eqn:Hq; [|done]. injection Hrep as <-.
  exists subject, policy, r1, r2, r3, q. by split_and!.
Qed.

Lemma zsum_zeros n : zsum (replicate n 0) = 0.
Proof. induction n as [|n IH]; [done|exact IH]. Qed.
Lemma legal_total l n : length l = n -> Forall (fun used => used <= DUTY_CYCLE_BUDGET_MS) l -> zsum l <= Z.of_nat n * DUTY_CYCLE_BUDGET_MS.
Proof.
  intros <- Hall. induction Hall as [|x l Hx _ IH]; [done|]. rewrite zsum_cons, length_cons. cbn beta in Hx. lia.
Qed.

(** The books of a deliberation close. In each stage every frame sent was admitted, refused,
    destroyed or lost -- one of them, and none twice; every refusal is counted under its
    reason, and closing the consultation is never one of them; no member sends more than
    five frames a stage, and the airtime reported is what the members spent, which never
    exceeds an hour's budget each, over the three stages together. *)
Theorem deliberation_accounts_for_every_frame
    `{Digest, Ed25519, Aead, Serde SignedCompactEnvelope.t, Libm} (d : Deliberation.t) (rep : DeliberationReport.t) :
  deliberate d = Some rep ->
  let '(s1, s2, s3) := DeliberationReport.stages rep in
  Forall (fun x => StageReport.frames_sent x = StageReport.collided x + StageReport.lost x + StageReport.admitted x + StageReport.refused x
    /\ StageReport.frames_sent x <= 5 * Z.of_nat (Deliberation.fleet d - Deliberation.silent d)) [s1; s2; s3]
  /\ TransitionErrorCount.total (DeliberationReport.refusals rep) = StageReport.refused s1 + StageReport.refused s2 + StageReport.refused s3
  /\ DeliberationReport.airtime_ms rep = StageReport.airtime_ms s1 + StageReport.airtime_ms s2 + StageReport.airtime_ms s3
  /\ DeliberationReport.airtime_ms rep <= Z.of_nat (Deliberation.fleet d) * DUTY_CYCLE_BUDGET_MS.
Proof.
  intros (subject & policy & r1 & r2 & r3 & q & Hsub & _ & Hstages & _ & _ & _ & _ & -> & _ & Hair & ->)%deliberate_inv.
  destruct (stages_run d subject Hsub _ _ _ Hstages) as (r2' & Hr2 & Hst1 & Hst2 & Hst3 & _).
  assert (len (speakers d) = Z.of_nat (Deliberation.fleet d - Deliberation.silent d)) as Hspeak by (unfold len, speakers; by rewrite length_seq).
  apply stage_books in Hst1 as [[S1 R1 A1 L1 B1] F1].
  2: { unfold first_room. cbn. by rewrite length_replicate. }
  2: { unfold first_room. cbn. apply Forall_replicate. vm_compute. congruence. }
  apply stage_books in Hst2 as [[S2 R2 A2 L2 B2] F2]; [|done|done].
  apply stage_books in Hst3 as [[S3 R3 A3 L3 B3] F3]; [|by rewrite Hr2|by rewrite Hr2].
  rewrite Hr2 in R3, A3. cbn [Room.set_observer Room.refusals Room.used_airtime] in R3, A3.
  assert (TransitionErrorCount.total (Room.refusals (first_room d subject)) = 0 /\ zsum (Room.used_airtime (first_room d subject)) = 0) as [R0 A0].
  { split; [done|]. apply zsum_zeros. }
  pose proof (legal_total _ _ L3 B3) as Hlegal. unfold Deliberation.MAX_RETRIES in *. rewrite Hspeak in *.
  split; [|split; [lia|split; [done|lia]]].
  repeat apply Forall_cons_2; [split; lia..|constructor].
Qed.

(** The deliberation counts honest votes and no others. The supporters it reports are
    distinct members that speak, that the observer can hear, that signed for themselves
    and that do not dispute; it endorses exactly when they clear both thresholds. So it
    never endorses when half the fleet is silent, disputes or forges; nor when the fleet is
    partitioned; nor, whatever is sent, on a case that could have expired by the time
    the vote can open, 361 seconds in. *)
Theorem deliberation_counts_honest_votes
    `{Digest, Ed25519Laws, AeadLaws, SerdeLaws SignedCompactEnvelope.t, Libm} (d : Deliberation.t) (rep : DeliberationReport.t) :
  2 <= Z.of_nat (Deliberation.fleet d) <= 65536 -> keys_apart (Deliberation.fleet d) -> deliberate d = Some rep ->
  (exists voters, NoDup voters /\ Forall (votes d) voters /\ DeliberationReport.binding_supporters rep = len voters)
  /\ (DeliberationReport.endorsed rep = true <-> DeliberationReport.min_signers rep <= DeliberationReport.binding_supporters rep
        /\ 2 * Z.of_nat (Deliberation.fleet d) < 3 * DeliberationReport.binding_supporters rep)
  /\ ((Deliberation.fleet d <= 2 * (Deliberation.silent d + Deliberation.disputers d + Deliberation.forgers d))%nat ->
       DeliberationReport.endorsed rep = false)
  /\ (Deliberation.topology d = Topology.Partitioned -> DeliberationReport.endorsed rep = false)
  /\ (forall v, Deliberation.validity_s d = Some v -> 0 <= v <= 361 -> DeliberationReport.endorsed rep = false).
Proof.
  intros Hsize Hapart (subject & policy & r1 & r2 & r3 & q & Hsub & Hpol & Hstages & Hq & -> & -> & -> & _ & _ & _ & _)%deliberate_inv.
  rewrite policy_for_ok in Hpol by (width; lia). injection Hpol as <-.
  destruct (stages_run d subject Hsub _ _ _ Hstages) as (r2' & _ & _ & _ & Hst3 & _ & Hempty & _ & Hexp & [_ _ Hlisten]).
  destruct (binding_voters d subject _ Hsize Hapart Hlisten) as (voters & Hv & Hnd & Hcount). rewrite Hv in *.
  assert (Forall (fun i => i < Deliberation.fleet d)%nat voters) as Hin by (eapply Forall_impl; [exact Hcount|]; intros i [[_ ?] _]; done).
  destruct (fleet_tally (Deliberation.fleet d) ltac:(lia) ltac:(width; lia) voters q ltac:(lia) Hin Hnd Hq) as (Hverdict & _ & Hfew).
  assert (len (member_id <$> voters) = len voters) as -> by (unfold len; by rewrite length_fmap).
  split; [by exists voters|]. split; [done|]. split; [|split]; [intros Hcase; apply Hfew|intros Hcase; apply Hfew|].
  - assert (Forall (fun i => Deliberation.silent d + Deliberation.disputers d + Deliberation.forgers d <= i < Deliberation.fleet d)%nat voters) as Hr.
    { eapply Forall_impl; [exact Hcount|]. intros i ([Hlo Hhi] & _ & Hf & Hs). split; [|done]. unfold Deliberation.is_forger in Hf.
      unfold Deliberation.verdict_of in Hs. destruct (Nat.leb_spec (Deliberation.silent d) i); [|lia]. cbn [andb] in Hs.
      destruct (Nat.ltb_spec i (Deliberation.silent d + Deliberation.disputers d)); [done|].
      apply andb_false_iff in Hf as [Hf%Nat.leb_gt|Hf%Nat.ltb_ge]; lia. }
    pose proof (few_below voters _ _ Hnd Hr). lia.
  - apply half_within; [lia|done|]. eapply Forall_impl; [exact Hcount|]. intros i (_ & Hw & _). unfold within in Hw. by rewrite Hcase in Hw.
  - intros v Hval Hrange. apply stage_voteless in Hst3 as [_ Hbind]. apply Hfew.
    assert (voters = []) as ->; [|unfold len; cbn; lia]. apply (fmap_nil_inv member_id). rewrite <- Hv.
    unfold Case.binding_supporters. rewrite Hbind, Hempty; [done|]. rewrite Hexp. unfold first_room. cbn [Room.observer].
    rewrite Hval. cbn [Case.open_until Case.expires_at]. unfold certainly_before, voting_clock. apply Z.ltb_ge.
    change (sat_add64 (Timestamp.as_secs (now (FixedClock.new (Timestamp.plus_secs STARTED_AT close_at)))) MAX_CLOCK_SKEW_SECONDS) with 1000361.
    unfold Timestamp.plus_secs, STARTED_AT. cbn [Timestamp.as_secs]. unfold sat_add64. lia.
Qed.

(** * Clocks *)

Lemma draw_offsets_range n rng span : 0 <= span -> Forall (fun o => - (span / 2) <= o <= span - span / 2) (Deliberation.draw_offsets n rng span).
Proof.
  intros Hspan. revert rng; induction n as [|n IH]; intros rng; cbn [Deliberation.draw_offsets]; [constructor|].
  unfold Rng.below. destruct (Z.eqb_spec (span + 1) 0); [lia|]. cbn [Rng.next_u64].
  constructor; [|apply IH]. set (v := wrap64 _). pose proof (Z.mod_pos_bound v (span + 1) ltac:(lia)). lia.
Qed.
Lemma draw_offsets_length n rng span : length (Deliberation.draw_offsets n rng span) = n.
Proof. revert rng; induction n as [|n IH]; intros rng; cbn [Deliberation.draw_offsets]; [done|]. destruct (Rng.below _ _). cbn. by rewrite IH. Qed.

(** The simulated clocks use exactly the skew they are given. Every member gets an error
    within half the span either way, so any two differ by no more than the span; the
    first and the last member differ by all of it, whatever the generator drew. *)
Theorem offsets_span_the_budget (d : Deliberation.t) :
  (2 <= Deliberation.fleet d)%nat -> 0 <= Deliberation.clock_skew_s d -> Deliberation.clock_skew_s d * 1000 <= Deliberation.I64_MAX ->
  let offsets := Deliberation.clock_offsets_ms d in
  length offsets = Deliberation.fleet d
  /\ (forall a b, a ∈ offsets -> b ∈ offsets -> a - b <= Deliberation.clock_skew_s d * 1000)
  /\ nth (Deliberation.fleet d - 1) offsets 0 - nth 0 offsets 0 = Deliberation.clock_skew_s d * 1000.
Proof.
  intros Hfleet Hskew Hmax. cbv zeta. unfold Deliberation.clock_offsets_ms. destruct (Nat.ltb_spec (Deliberation.fleet d) 2); [lia|].
  destruct (Z.eqb_spec (Deliberation.clock_skew_s d) 0) as [->|]; cbn [orb].
  { split; [by rewrite length_replicate|]. rewrite !nth_replicate. split; [|by repeat case_decide].
    intros a b [-> _]%elem_of_replicate [-> _]%elem_of_replicate. lia. }
  rewrite Z.min_l by done. set (span := Deliberation.clock_skew_s d * 1000) in *. set (l := Deliberation.draw_offsets _ _ _).
  assert (length l = Deliberation.fleet d) as Hl by apply draw_offsets_length.
  assert (span = 2 * (span / 2)) as Heven by (unfold span; Z.to_euclidean_division_equations; lia).
  assert (Z.quot (- span) 2 = - (span / 2)) as -> by (unfold span; Z.to_euclidean_division_equations; lia).
  assert (Forall (fun o => - (span / 2) <= o <= span / 2) (<[(Deliberation.fleet d - 1)%nat := span / 2]> (<[0%nat := - (span / 2)]> l))) as Hall.
  { apply Forall_insert; [apply Forall_insert|].
    - eapply Forall_impl; [apply draw_offsets_range; lia|]. intros o Ho. cbn beta in Ho. lia.
    - lia.
    - lia. }
  split; [by rewrite !length_insert|]. split.
  - rewrite Forall_forall in Hall. intros a b Ha%Hall Hb%Hall. lia.
  - rewrite !nth_insert_list by (rewrite ?length_insert; lia). rewrite decide_True by done.
    rewrite decide_False by lia. rewrite decide_True by done. lia.
Qed.
Lemma offsets_span_the_budget_witness :
  length (Deliberation.clock_offsets_ms (Deliberation.with_clock_skew_s (Deliberation.new 6) 30)) = 6%nat
  /\ nth 5 (Deliberation.clock_offsets_ms (Deliberation.with_clock_skew_s (Deliberation.new 6) 30)) 0
     - nth 0 (Deliberation.clock_offsets_ms (Deliberation.with_clock_skew_s (Deliberation.new 6) 30)) 0 = 30 * 1000.
Proof.
  destruct (offsets_span_the_budget (Deliberation.with_clock_skew_s (Deliberation.new 6) 30)) as (Hl & _ & Hspan);
    [vm_compute; lia|by vm_compute|by vm_compute|]. exact (conj Hl Hspan).
Defined.

(** * Instances *)

#[local] Existing Instances toy_digest toy_ed25519 toy_ed25519_laws clear_aead clear_aead_laws wide_serde wide_serde_laws flat_libm.
Definition contended_five : Deliberation.t := Deliberation.with_disputers (Deliberation.with_seed (Deliberation.new 5) 3) 1.
Lemma deliberation_accounts_for_every_frame_witness :
  match deliberate contended_five with
  | Some rep => DeliberationReport.airtime_ms rep <= Z.of_nat 5 * DUTY_CYCLE_BUDGET_MS
  | None => False
  end.
Proof.
  pose proof (deliberation_accounts_for_every_frame contended_five) as Hall.
  destruct (deliberate contended_five) as [rep|] eqn:Hrun; [|vm_compute in Hrun; discriminate]. clear Hrun.
  specialize (Hall rep eq_refl). destruct (DeliberationReport.stages rep) as [[s1 s2] s3].
  destruct Hall as (_ & _ & _ & Hle). exact Hle.
Defined.
Lemma deliberation_counts_honest_votes_witness :
  match deliberate (Deliberation.with_validity_s contended_five 360) with
  | Some rep => DeliberationReport.endorsed rep = false
  | None => False
  end.
Proof.
  pose proof (deliberation_counts_honest_votes (Deliberation.with_validity_s contended_five 360)) as Hall.
  destruct (deliberate _) as [rep|] eqn:Hrun; [|vm_compute in Hrun; discriminate]. clear Hrun.
  destruct (Hall rep ltac:(vm_compute; split; congruence) toy_keys_apart eq_refl) as (_ & _ & _ & _ & Hvalid).
  apply (Hvalid 360); [reflexivity|lia].
Defined.

(** The report says how much of [elapsed_s] the radio took. When every frame is lost the
    two consultation stages overrun the cutoff they are meant to precede, the elapsed
    time leaves them out and the radio's share of it is more than the whole. *)
Example radio_takes_more_than_all_of_it :
  match deliberate (Deliberation.with_loss (Deliberation.new 5) (F64.of_Z 1)) with
  | Some rep => DeliberationReport.elapsed_s rep = 1022 /\ DeliberationReport.radio_ms rep = 2071030
      /\ F64.ltb (F64.of_Z 2) (DeliberationReport.radio_share rep) = true
      /\ Forall (fun x => CONSULTATION_CUTOFF_SECONDS * 1000 < StageReport.elapsed_ms x)
           [(DeliberationReport.stages rep).1.1; (DeliberationReport.stages rep).1.2]
  | None => False
  end.
Proof. vm_compute. repeat constructor. Qed.
