(* ===== verification/SimEndorse.v ===== *)
(** The protocol gets there: an honest fleet in slots counted from the trigger consults
    twice and endorses, with one frame a member in every stage and nothing refused. *)
From S2P Require Import Prelude Float Time Contracts Quorum CaseState Budget Journal MemoryJournal Radio Crypto Codec WireDemo.
From S2P Require Import Channel Rng Phy Medium SimScenario SimLedger SimQuorum SimSlots SimProtocol SimDeliberation.
Import Room.

Section honest.
Context `{Dg : Digest, Ed : Ed25519, El : !Ed25519Laws, Ae : Aead, Al : !AeadLaws, Sd : Serde SignedCompactEnvelope.t,
  Sl : !SerdeLaws SignedCompactEnvelope.t, Lm : Libm}.
Context (d : Deliberation.t) (subject : Subject.t) (guard : Z).
Notation fleet := (Deliberation.fleet d).
Notation keys := (keys_of fleet).
Notation manifest := (manifest_of fleet).

(** What member [i] says in a stage, under sequence [q]. *)
Definition spoken (stage : Stage) (q : Z) (i : nat) : option bytes :=
  seal_utterance subject group_key (utterance subject (author_of i) stage Support q) (SigningKey.from_seed (seed_for i)) (author_of i) q.
Definition frame (stage : Stage) (q : Z) (i : nat) : bytes := default [] (spoken stage q i).
Definition air (stage : Stage) (q : Z) (i : nat) : Z := airtime_ms (len (frame stage q i)).

(** Honest, in reach, in slots counted from the trigger; every frame can be encoded, and
    none is longer than a later member's. *)
Record ideal : Prop := {
  i_size : 2 <= Z.of_nat fleet <= 65536;
  i_apart : keys_apart fleet;
  i_slots : Deliberation.access d = Access.Slotted guard;
  i_guard : 0 <= guard;
  i_anchor : Deliberation.anchor d = SlotAnchor.Trigger;
  i_topology : Deliberation.topology d = Topology.FullyConnected;
  i_loss : Deliberation.loss d = F64.of_Z 0;
  i_flat : Deliberation.spacing_m d = None;
  i_silent : Deliberation.silent d = 0%nat;
  i_disputers : Deliberation.disputers d = 0%nat;
  i_forgers : Deliberation.forgers d = 0%nat;
  i_valid : forall v, Deliberation.validity_s d = Some v -> 361 < v;
  i_encodes stage q i : 0 <= q <= 2 -> (i < fleet)%nat -> is_Some (spoken stage q i);
  i_window : is_Some (frame_size subject group_key (SigningKey.from_seed (seed_for 0)));
  i_longer stage q i j : 0 <= q <= 2 -> (i <= j < fleet)%nat -> air stage q i <= air stage q j;
}.
Context (Hideal : ideal).
#[local] Opaque airtime_ms.

Lemma honest_seat i : Deliberation.is_forger d i = false /\ Deliberation.verdict_of d i = Support.
Proof.
  destruct Hideal. unfold Deliberation.is_forger, Deliberation.verdict_of. rewrite i_silent0, i_disputers0, i_forgers0. cbn [Nat.add].
  destruct (Nat.ltb_spec i 0); [lia|]. by rewrite andb_false_r.
Qed.
Lemma spoken_frame stage q i : 0 <= q <= 2 -> (i < fleet)%nat -> spoken stage q i = Some (frame stage q i).
Proof. intros Hq Hi. unfold frame. by destruct (i_encodes Hideal stage q i Hq Hi) as [b ->]. Qed.
Lemma frame_made stage q i : 0 <= q <= 2 -> (i < fleet)%nat -> made d subject keys group_key stage q i (frame stage q i).
Proof.
  intros Hq Hi. destruct (honest_seat i) as [Hf Hv]. exists (SigningKey.from_seed (seed_for i)), q. unfold seat_of. rewrite Hf, Hv.
  split; [by apply keys_lookup|]. split; [lia|]. by apply spoken_frame.
Qed.
Definition opinion (stage : Stage) (i : nat) : Opinion.t := Opinion.new (member_id i) subject stage Support.
Lemma frame_heard stage q i : 0 <= q <= 2 -> (i < fleet)%nat -> heard_opinion subject manifest group_key (frame stage q i) = Some (opinion stage i).
Proof.
  intros Hq Hi. destruct (honest_seat i) as [Hf Hv].
  rewrite (made_heard d subject (i_size Hideal) (i_apart Hideal) stage q i _ Hi Hq (frame_made stage q i Hq Hi)), Hf, Hv. done.
Qed.
(** A journal that has handed out [q] numbers and taken no vote builds the frame. *)
Lemma honest_frame stage q i j : 0 <= q <= 2 -> (i < fleet)%nat -> MemoryJournal.next_sequence_ j = q -> MemoryJournal.locks j = ∅ ->
  exists j', frame_for stage subject keys group_key j i (Deliberation.verdict_of d i) (Deliberation.is_forger d i) = (j', Some (frame stage q i))
    /\ MemoryJournal.next_sequence_ j' = q + 1 /\ (stage <> BindingSupport -> MemoryJournal.locks j' = ∅).
Proof.
  intros Hq Hi Hnext Hlocks. destruct (honest_seat i) as [-> ->]. unfold frame_for, MemoryJournal.reserve_sequence. cbv zeta.
  rewrite keys_lookup, Hnext by done. fold (spoken stage q i). rewrite spoken_frame by done.
  assert (sat_add64 q 1 = q + 1) as Hsat by (unfold sat_add64, U64_MAX; lia). rewrite Hsat.
  case_bool_decide; [|by eexists; split_and!].
  unfold MemoryJournal.commit_vote. cbv zeta. cbn [MemoryJournal.set_next MemoryJournal.locks]. rewrite Hlocks.
  rewrite bool_decide_eq_false_2 by set_solver. eexists. split; [done|]. split; [|done]. cbn. rewrite Hsat. lia.
Qed.

(** * Everyone speaks *)

Definition slot_start (stage : Stage) (q e : Z) (i : nat) : Z := e + Z.of_nat i * (air stage q i + guard).
Definition on_channel_as (stage : Stage) (q e : Z) (i : nat) : Transmission.t :=
  if (i =? OBSERVER)%nat then Transmission.own_transmission (slot_start stage q e i) (air stage q i)
  else Transmission.new (slot_start stage q e i) (air stage q i) Scenario.NOMINAL_RSSI_DBM.
Definition fly (stage : Stage) (q e : Z) (i : nat) : flight := (i, on_channel_as stage q e i, frame stage q i).

(** Member [i] has handed out [q] numbers, taken no vote lock and sent [q] frames at most. *)
Definition poised (q : Z) (r : Room.t) (i : nat) : Prop :=
  MemoryJournal.next_sequence_ (nth i (journals r) MemoryJournal.default_) = q
  /\ MemoryJournal.locks (nth i (journals r) MemoryJournal.default_) = ∅ /\ nth i (used_airtime r) 0 <= q * LONGEST_MS.
Definition seated (r : Room.t) : Prop := length (journals r) = fleet /\ length (outbox r) = fleet /\ length (used_airtime r) = fleet.
Definition spoke (q : Z) (stage : Stage) (r : Room.t) (i : nat) : Prop :=
  MemoryJournal.next_sequence_ (nth i (journals r) MemoryJournal.default_) = q + 1
  /\ (stage <> BindingSupport -> MemoryJournal.locks (nth i (journals r) MemoryJournal.default_) = ∅)
  /\ nth i (used_airtime r) 0 <= (q + 1) * LONGEST_MS.
Definition report_moved (sent admitted : Z) (r r' : Room.t) : Prop :=
  StageReport.frames_sent (report r') = StageReport.frames_sent (report r) + sent
  /\ StageReport.collided (report r') = StageReport.collided (report r) /\ StageReport.lost (report r') = StageReport.lost (report r)
  /\ StageReport.admitted (report r') = StageReport.admitted (report r) + admitted
  /\ StageReport.refused (report r') = StageReport.refused (report r) /\ refusals r' = refusals r.
Lemma report_moved_trans a b m n r1 r2 r3 : report_moved a m r1 r2 -> report_moved b n r2 r3 -> report_moved (a + b) (m + n) r1 r3.
Proof. intros (? & ? & ? & ? & ? & ?) (? & ? & ? & ? & ? & ?). unfold report_moved. split_and!; (congruence || lia). Qed.

(** One member builds its frame and pays for it. *)
Lemma speaks_up stage q e r i : 0 <= q <= 2 -> (i < fleet)%nat -> seated r -> poised q r i -> nth i (outbox r) None = None -> exists r',
  (forall w pending ws retry, speak_loop d stage subject keys group_key (Deliberation.clock_offsets_ms d) w e (i :: pending) r ws retry
     = speak_loop d stage subject keys group_key (Deliberation.clock_offsets_ms d) w e pending r' (ws ++ [fly stage q e i]) retry)
  /\ observer r' = observer r /\ report_moved 1 0 r r' /\ seated r' /\ spoke q stage r' i
  /\ (forall j, j <> i -> nth j (journals r') MemoryJournal.default_ = nth j (journals r) MemoryJournal.default_
       /\ nth j (outbox r') None = nth j (outbox r) None /\ nth j (used_airtime r') 0 = nth j (used_airtime r) 0).
Proof.
  intros Hq Hi (Hsj & Hso & Hsu) (Hnext & Hlocks & Hused) Hout.
  destruct (honest_frame stage q i _ Hq Hi Hnext Hlocks) as (j' & Hframe & Hnext' & Hlocks').
  set (r1 := set_outbox (set_journals r (<[i := j']> (journals r))) (<[i := Some (frame stage q i)]> (outbox r))).
  set (r2 := set_used r1 (<[i := nth i (used_airtime r) 0 + air stage q i]> (used_airtime r))).
  set (r3 := set_report r2 (StageReport.sent (report r2) (air stage q i))).
  pose proof (airtime_longest (len (frame stage q i)) ltac:(unfold len; lia)) as Hlong. fold (air stage q i) in Hlong.
  assert (duty_cycle_ok (nth i (used_airtime r) 0) (air stage q i) = true) as Hok.
  { apply duty_cycle_ok_spec. unfold DUTY_CYCLE_BUDGET_MS, LONGEST_MS in *. lia. }
  exists r3. split_and!.
  - intros w pending ws retry. cbn [speak_loop]. unfold bytes_for. rewrite Hout, Hframe.
    cbn [used_airtime set_outbox set_journals]. fold (air stage q i). cbv zeta. rewrite Hok. cbn [negb]. unfold start_for. rewrite (i_slots Hideal), (i_anchor Hideal).
    unfold fly, on_channel_as, slot_start. destruct (Nat.eqb_spec i OBSERVER) as [->|Hne]; [done|].
    rewrite (i_topology Hideal). cbn [Topology.reaches]. rewrite (proj2 (Nat.eqb_neq i OBSERVER) Hne). cbn [negb].
    unfold rssi_at_observer. by rewrite (i_flat Hideal).
  - done.
  - unfold report_moved, r3, r2, r1. cbn. split_and!; (done || lia).
  - unfold seated, r3, r2, r1. cbn. by rewrite !length_insert.
  - unfold spoke, r3, r2, r1. cbn. rewrite !nth_insert_list, !decide_True by (done || lia). split_and!; [done|done|lia].
  - intros j Hj. unfold r3, r2, r1. cbn. by rewrite !nth_insert_list, !decide_False by (done || lia).
Qed.
Lemma speak_loop_every stage q w e pending r ws retry : 0 <= q <= 2 -> NoDup pending -> Forall (fun i => i < fleet)%nat pending -> seated r ->
  Forall (poised q r) pending -> Forall (fun i => nth i (outbox r) None = None) pending -> exists r',
  speak_loop d stage subject keys group_key (Deliberation.clock_offsets_ms d) w e pending r ws retry = (r', ws ++ (fly stage q e <$> pending), retry)
  /\ observer r' = observer r /\ report_moved (len pending) 0 r r' /\ seated r' /\ Forall (spoke q stage r') pending
  /\ (forall j, j ∉ pending -> nth j (journals r') MemoryJournal.default_ = nth j (journals r) MemoryJournal.default_
       /\ nth j (used_airtime r') 0 = nth j (used_airtime r) 0).
Proof.
  intros Hq. revert r ws. induction pending as [|i pending IH]; intros r ws Hnd Hin Hseat Hpoise Hout.
  { exists r. cbn [speak_loop fmap list_fmap]. rewrite app_nil_r. split_and!; try done. unfold report_moved, len. cbn. split_and!; (done || lia). }
  apply NoDup_cons in Hnd as [Hi Hnd]. apply Forall_cons in Hin as [Hlt Hin]. apply Forall_cons in Hpoise as [Hp Hpoise].
  apply Forall_cons in Hout as [Ho Hout].
  destruct (speaks_up stage q e r i Hq Hlt Hseat Hp Ho) as (r1 & Hstep & Hobs & Hrep & Hseat1 & Hspoke & Hother).
  assert (forall j, j ∈ pending -> j <> i) as Hne by (intros j Hj ->; done).
  destruct (IH r1 (ws ++ [fly stage q e i]) Hnd Hin Hseat1) as (r' & Hloop & Hobs' & Hrep' & Hseat' & Hall & Hrest).
  { rewrite Forall_forall in Hpoise |- *. intros j Hj. destruct (Hother j (Hne j Hj)) as (Hj1 & _ & Hj3).
    unfold poised. rewrite Hj1, Hj3. by apply Hpoise. }
  { rewrite Forall_forall in Hout |- *. intros j Hj. destruct (Hother j (Hne j Hj)) as (_ & -> & _). by apply Hout. }
  exists r'. split; [by rewrite Hstep, Hloop, <- app_assoc|]. split; [congruence|]. split; [|split; [done|split]].
  - replace (len (i :: pending)) with (1 + len pending) by usize. by apply (report_moved_trans 1 _ 0 0 r r1).
  - apply Forall_cons_2; [|done]. destruct (Hrest i Hi) as [Hj1 Hj3]. unfold spoke. by rewrite Hj1, Hj3.
  - intros j [Hji Hj]%not_elem_of_cons. destruct (Hrest j Hj) as [-> ->]. destruct (Hother j Hji) as (-> & _ & ->). done.
Qed.

(** * Everyone is heard *)

Lemma fly_in_slot stage q e i : (i < fleet)%nat -> in_slot e guard (air stage q) fleet (fly stage q e i).1.
Proof.
  intros Hi. unfold in_slot, fly, on_channel_as, slot_start. cbn [fst snd]. split; [done|]. by destruct (i =? OBSERVER)%nat.
Qed.
Lemma air_grows stage q i j : 0 <= q <= 2 -> (i <= j < fleet)%nat -> 0 <= air stage q i <= air stage q j.
Proof. intros Hq Hij. split; [apply airtime_nonneg|by apply (i_longer Hideal)]. Qed.
Lemma channel_of_flights (l : list flight) : ((fun f => f.1.2) <$> l) = (fst <$> l).*2.
Proof. by rewrite <- list_fmap_compose. Qed.
Lemma fly_decoded stage q e all k i : 0 <= q <= 2 -> NoDup all -> Forall (fun i => i < fleet)%nat all -> all !! k = Some i -> i <> OBSERVER ->
  receive (on_channel_as stage q e i) (delete k ((fun f => f.1.2) <$> (fly stage q e <$> all))) = Reception.Decoded.
Proof.
  intros Hq Hnd Hin Hk Hi. rewrite receive_apart.
  - unfold on_channel_as. rewrite (proj2 (Nat.eqb_neq i OBSERVER) Hi). cbn [Transmission.rssi_dbm]. by vm_compute.
  - rewrite channel_of_flights.
    apply (others_apart e guard (air stage q) fleet (i_guard Hideal) (fun i j Hij => air_grows stage q i j Hq Hij) _ k (i, on_channel_as stage q e i)).
    + rewrite <- list_fmap_compose. apply Forall_fmap. eapply Forall_impl; [exact Hin|]. intros j Hj. by apply fly_in_slot.
    + rewrite <- !list_fmap_compose. by rewrite (list_fmap_ext _ id), list_fmap_id by done.
    + rewrite !list_lookup_fmap, Hk. done.
Qed.

(** The observer's case will take what the members in [waiting] say. *)
Definition hosts (stage : Stage) (clock : FixedClock.t) (waiting : list nat) (c : Case.t) : Prop :=
  Case.subject c = subject /\ certainly_after clock (Case.expires_at c) = false
  /\ if bool_decide (stage = BindingSupport)
     then Case.phase c = CollectingVotes /\ certainly_before clock (Case.expires_at c) = true
          /\ Forall (fun i => member_id i ∉ Case.voted c) waiting
     else Case.phase c = Consulting /\ Case.voted c = ∅.
Lemma hosts_takes stage q clock i waiting c : 0 <= q <= 2 -> Forall (fun i => i < fleet)%nat (i :: waiting) -> NoDup (i :: waiting) ->
  hosts stage clock (i :: waiting) c ->
  exists c', offer subject manifest group_key clock c (frame stage q i) = Ok c' /\ hosts stage clock waiting c'
    /\ Case.binding c' = Case.binding c ++ (if bool_decide (stage = BindingSupport) then [opinion stage i] else [])
    /\ Case.expires_at c' = Case.expires_at c.
Proof.
  intros Hq Hin [Hi Hnd]%NoDup_cons (Hsub & Hafter & Hphase). apply Forall_cons in Hin as [Hlt Hin].
  unfold offer. rewrite frame_heard by done. pose proof (i_size Hideal) as Hsize.
  assert (Opinion.subject (opinion stage i) = Case.subject c /\ Opinion.stage (opinion stage i) = stage) as [Hos Host] by done.
  case_bool_decide as Hst.
  - destruct Hphase as (Hp & Hbefore & Hfree). apply Forall_cons in Hfree as [Hfree Hrest].
    eexists. split; [apply accept_ok; split; [done|]; split; [done|]; apply admitted_vote; done|].
    split; [|by split]. split; [done|]. split; [done|]. rewrite bool_decide_eq_true_2 by done. split; [done|]. split; [done|].
    cbn. rewrite Forall_forall in Hrest, Hin |- *. intros j Hj. apply not_elem_of_union.
    split; [|by apply Hrest]. apply not_elem_of_singleton. intros Heq. specialize (Hin j Hj). cbn beta in Hin.
    apply member_id_inj in Heq as ->; [done|width; lia..].
  - destruct Hphase as [Hphase Hvoted]. assert (Opinion.stage (opinion stage i) <> BindingSupport) as Hnb by (by rewrite Host).
    destruct (decide (speaker (opinion stage i) ∈ speaker <$> Case.independent c)) as [Hal|Hal]; eexists;
      (split; [apply accept_ok; split; [done|]; split; [done|]|]).
    + by apply admitted_repeat.
    + rewrite app_nil_r. split; [|by split]. split; [done|]. split; [done|]. by rewrite bool_decide_eq_false_2.
    + by apply admitted_opinion.
    + cbn. rewrite app_nil_r. split; [|by split]. split; [done|]. split; [done|]. by rewrite bool_decide_eq_false_2.
Qed.
Lemma listen_loop_every stage q e clock all k waiting r : 0 <= q <= 2 -> NoDup all -> Forall (fun i => i < fleet)%nat all ->
  drop k all = waiting -> hosts stage clock waiting (observer r) -> exists r',
  listen_loop d subject manifest group_key clock ((fun f => f.1.2) <$> (fly stage q e <$> all)) k (fly stage q e <$> waiting) r [] = (r', [])
  /\ report_moved 0 (len waiting) r r' /\ journals r' = journals r /\ used_airtime r' = used_airtime r
  /\ Case.binding (observer r') = Case.binding (observer r) ++ (if bool_decide (stage = BindingSupport) then opinion stage <$> waiting else [])
  /\ Case.expires_at (observer r') = Case.expires_at (observer r) /\ hosts stage clock [] (observer r').
Proof.
  intros Hq Hnd Hin. revert k r. induction waiting as [|i waiting IH]; intros k r Hd Hhost.
  { exists r. cbn [fmap list_fmap listen_loop]. split_and!; try done.
    - unfold report_moved, len. cbn. split_and!; (done || lia).
    - case_bool_decide; by rewrite app_nil_r. }
  assert (all !! k = Some i /\ drop (S k) all = waiting) as [Hk Hd'].
  { split; [by rewrite <- (Nat.add_0_r k), <- lookup_drop, Hd|]. by rewrite <- Nat.add_1_r, <- drop_drop, Hd. }
  assert (NoDup (i :: waiting) /\ Forall (fun i => i < fleet)%nat (i :: waiting)) as [Hnd' Hin'].
  { rewrite <- Hd. split; [|by apply Forall_drop]. rewrite <- (take_drop k all) in Hnd. by apply NoDup_app in Hnd as (_ & _ & ?). }
  pose proof (proj1 (Forall_cons _ _ _) Hin') as [Hlt _].
  assert (exists q1, observer q1 = observer r /\ journals q1 = journals r /\ used_airtime q1 = used_airtime r /\ report q1 = report r /\ refusals q1 = refusals r
    /\ forall retry, listen_loop d subject manifest group_key clock ((fun f => f.1.2) <$> (fly stage q e <$> all)) k (fly stage q e <$> (i :: waiting)) r retry
    = listen_loop d subject manifest group_key clock ((fun f => f.1.2) <$> (fly stage q e <$> all)) (S k) (fly stage q e <$> waiting)
        (match offer subject manifest group_key clock (observer r) (frame stage q i) with
         | Ok c => set_observer (set_report q1 (StageReport.bump_admitted (report r))) c
         | Err error => set_refusals (set_report q1 (StageReport.bump_refused (report r))) (TransitionErrorCount.record (refusals r) error)
         end) retry) as (q1 & Ho1 & Hj1 & Hu1 & Hr1 & Hf1 & Hstep).
  { rewrite fmap_cons. cbn [listen_loop fly]. cbv zeta. destruct (Nat.eqb_spec i OBSERVER) as [->|Hne].
    - exists r. split_and!; try done. intros retry. unfold settle. cbv zeta. rewrite Nat.eqb_refl.
      by destruct (offer _ _ _ _ _ _).
    - rewrite (fly_decoded stage q e all k i Hq Hnd Hin Hk Hne). unfold settle. cbv zeta. rewrite (proj2 (Nat.eqb_neq i OBSERVER) Hne).
      pose proof (next_f64_range (rng r)) as [Hu _]. destruct (Rng.next_f64 (rng r)) as [g u]. cbn [snd] in Hu.
      rewrite (i_loss Hideal), (not_below_zero u Hu). exists (set_rng r g). split_and!; try done. intros retry.
      change (observer (set_rng r g)) with (observer r). by destruct (offer _ _ _ _ _ _). }
  destruct (hosts_takes stage q clock i waiting (observer r) Hq Hin' Hnd' Hhost) as (c' & Hoff & Hhost' & Hbind & Hexp).
  rewrite Hstep, Hoff. set (r1 := set_observer _ c').
  destruct (IH (S k) r1 Hd' Hhost') as (r' & Hloop & Hrep & Hj & Hu & Hb & He & Hh).
  exists r'. split; [exact Hloop|]. split; [|split; [|split; [|split; [|split]]]].
  - replace (len (i :: waiting)) with (1 + len waiting) by usize. apply (report_moved_trans 0 0 1 (len waiting) r r1); [|done].
    unfold report_moved, r1. cbn. rewrite ?Hf1. split_and!; (done || lia).
  - rewrite Hj. exact Hj1.
  - rewrite Hu. exact Hu1.
  - rewrite Hb. change (observer r1) with c'. rewrite Hbind, <- app_assoc. by case_bool_decide.
  - rewrite He. exact Hexp.
  - exact Hh.
Qed.

(** * A stage, and the whole *)

(** Ready for stage [q]: everyone seated, paced and within budget. *)
Definition ready (q : Z) (r : Room.t) : Prop :=
  length (journals r) = fleet /\ length (used_airtime r) = fleet /\ forall i, (i < fleet)%nat -> poised q r i.
Definition everyone : list nat := seq 0 fleet.
Lemma speakers_everyone : speakers d = everyone.
Proof. unfold speakers, everyone. by rewrite (i_silent Hideal), Nat.sub_0_r. Qed.
Lemma window_known round : exists w, window_for d subject keys group_key round = Some w.
Proof.
  destruct (i_window Hideal) as [size Hs]. pose proof (i_size Hideal). eexists. unfold window_for. rewrite (i_slots Hideal), keys_lookup by lia.
  cbn [mbind option_bind]. rewrite Hs. done.
Qed.
Definition all_spoke (r : Room.t) : Prop := StageReport.frames_sent (report r) = Z.of_nat fleet
  /\ StageReport.admitted (report r) = Z.of_nat fleet /\ StageReport.collided (report r) = 0
  /\ StageReport.lost (report r) = 0 /\ StageReport.refused (report r) = 0.
Lemma stage_every stage q clock r : 0 <= q <= 2 -> ready q r -> hosts stage clock everyone (observer r) -> exists r',
  run_stage d stage subject keys manifest group_key clock (Deliberation.clock_offsets_ms d) r = Some r'
  /\ all_spoke r' /\ refusals r' = refusals r /\ (stage <> BindingSupport -> ready (q + 1) r')
  /\ Case.binding (observer r') = Case.binding (observer r) ++ (if bool_decide (stage = BindingSupport) then opinion stage <$> everyone else [])
  /\ Case.expires_at (observer r') = Case.expires_at (observer r) /\ hosts stage clock [] (observer r').
Proof.
  intros Hq (Hj & Hu & Hpoise) Hhost. unfold run_stage. cbv zeta. rewrite speakers_everyone. set (r0 := set_report (set_outbox r _) _).
  assert (NoDup everyone /\ Forall (fun i => i < fleet)%nat everyone /\ len everyone = Z.of_nat fleet) as (Hnd & Hin & Hlen).
  { unfold everyone. split; [apply NoDup_seq|]. split; [apply Forall_forall; intros i Hi%elem_of_seq; lia|unfold len; by rewrite length_seq]. }
  pose proof (i_size Hideal) as Hsize. destruct (window_known 0) as [w Hw].
  destruct (speak_loop_every stage q w 0 everyone r0 [] []) as (r1 & Hspeak & Hobs & Hrep1 & (Hsj & _ & Hsu) & Hspoke & _);
    [done|done|done| | | |].
  { unfold seated, r0. cbn. by rewrite length_replicate. }
  { eapply Forall_impl; [exact Hin|]. intros i Hi. by apply (Hpoise i). }
  { apply Forall_forall. intros i _. unfold r0. cbn. rewrite nth_replicate. by case_decide. }
  destruct (listen_loop_every stage q 0 clock everyone 0 everyone r1) as (r2 & Hlisten & Hrep2 & Hj2 & Hu2 & Hbind & Hexp & Hhost2);
    [done|done|done|by rewrite drop_0|by rewrite Hobs|].
  assert (exists e, rounds d stage subject keys manifest group_key clock (Deliberation.clock_offsets_ms d) Deliberation.MAX_RETRIES 0 everyone 0 r0
    = Some (r2, e)) as [e Hrounds].
  { unfold Deliberation.MAX_RETRIES. destruct everyone as [|i rest] eqn:He; [unfold len in Hlen; cbn in Hlen; lia|]. rewrite <- He in *.
    eexists. cbn [rounds]. rewrite He, <- He. unfold round_. rewrite Hw. cbn [mbind option_bind]. rewrite Hspeak, app_nil_l, Hlisten. done. }
  rewrite Hrounds. cbn [mbind option_bind]. eexists. split; [done|]. rewrite Hlen in Hrep1, Hrep2.
  pose proof (report_moved_trans _ _ _ _ _ _ _ Hrep1 Hrep2) as (Hsent & Hcol & Hlost & Hadm & Href & Hrefs).
  unfold r0 in Hsent, Hcol, Hlost, Hadm, Href, Hrefs. cbn in Hsent, Hcol, Hlost, Hadm, Href, Hrefs.
  split; [unfold all_spoke; cbn; split_and!; lia|]. split; [exact Hrefs|]. split; [|split; [|split]].
  - intros Hst. unfold ready. cbn [set_report journals used_airtime]. rewrite Hj2, Hu2. split; [done|]. split; [done|].
    intros i Hi. assert (i ∈ everyone) as Hie by (apply elem_of_seq; lia). rewrite Forall_forall in Hspoke.
    destruct (Hspoke i Hie) as (S1 & S2 & S3). unfold poised. cbn [set_report journals used_airtime]. rewrite Hj2, Hu2. by split_and!; [|apply S2|].
  - cbn [set_report observer]. by rewrite Hbind, Hobs.
  - cbn [set_report observer]. by rewrite Hexp, Hobs.
  - exact Hhost2.
Qed.

(** The observer's case is as good as new for the next stage. *)
Lemma hosts_next stage stage' clock c : stage <> BindingSupport -> stage' <> BindingSupport -> hosts stage clock [] c -> hosts stage' clock everyone c.
Proof. intros Hs Hs' (Hsub & Hafter & Hphase). split; [done|]. split; [done|]. rewrite !bool_decide_eq_false_2 in * by done. done. Qed.
Context (Hsubject : deliberation_subject = Some subject).
Notation consulting_clock := (FixedClock.new (Timestamp.plus_secs STARTED_AT 1)).
Definition good_until (c : Case.t) : Prop := Timestamp.as_secs STARTED_AT + 361 < Timestamp.as_secs (Case.expires_at c).
Lemma first_room_hosts : ready 0 (first_room d subject) /\ hosts Independent consulting_clock everyone (observer (first_room d subject))
  /\ good_until (observer (first_room d subject)) /\ Case.binding (observer (first_room d subject)) = []
  /\ TransitionErrorCount.total (refusals (first_room d subject)) = 0.
Proof.
  assert (good_until (observer (first_room d subject))) as Hgood.
  { unfold good_until, first_room. cbn [observer]. destruct (Deliberation.validity_s d) as [v|] eqn:Hv.
    - apply (i_valid Hideal) in Hv. cbn. unfold sat_add64, U64_MAX. lia.
    - unfold Case.open_, Subject.default_expiry. rewrite (started_at_known subject Hsubject). by vm_compute. }
  split; [|split; [|split; [done|]]].
  - unfold ready, poised, first_room. cbn [journals used_airtime]. rewrite !length_replicate. split; [done|]. split; [done|].
    intros i Hi. rewrite !nth_replicate, !decide_True by done. cbn. split_and!; done.
  - unfold hosts. split; [unfold first_room; cbn [observer]; by destruct (Deliberation.validity_s d)|].
    split; [|rewrite bool_decide_eq_false_2 by done; unfold first_room; cbn [observer]; by destruct (Deliberation.validity_s d)].
    unfold certainly_after. apply Z.ltb_ge. change (Timestamp.as_secs (now consulting_clock)) with 1000001.
    unfold good_until in Hgood. change (Timestamp.as_secs STARTED_AT) with 1000000 in Hgood. unfold sat_add64, MAX_CLOCK_SKEW_SECONDS, U64_MAX. lia.
  - split; [unfold first_room; cbn [observer]; by destruct (Deliberation.validity_s d)|done].
Qed.
Lemma vote_hosts c : hosts Consultation consulting_clock [] c -> good_until c ->
  hosts BindingSupport voting_clock everyone (Case.set_phase c CollectingVotes).
Proof.
  intros (Hsub & Hafter & Hphase) Hgood. rewrite bool_decide_eq_false_2 in Hphase by done. destruct Hphase as [_ Hvoted].
  unfold good_until in Hgood. change (Timestamp.as_secs STARTED_AT) with 1000000 in Hgood.
  assert (Timestamp.as_secs (now voting_clock) = 1000331) as Hnow by reflexivity.
  split; [done|]. split; [|rewrite bool_decide_eq_true_2 by done; split; [done|split]].
  - unfold certainly_after. rewrite Hnow. apply Z.ltb_ge. cbn. unfold sat_add64, MAX_CLOCK_SKEW_SECONDS, U64_MAX. lia.
  - unfold certainly_before. rewrite Hnow. apply Z.ltb_lt. cbn. unfold sat_add64, MAX_CLOCK_SKEW_SECONDS, U64_MAX. lia.
  - cbn [Case.set_phase Case.voted]. rewrite Hvoted. apply Forall_forall. intros i _. apply not_elem_of_empty.
Qed.
Lemma all_three_stages : exists r1 r2 r3, three_stages d subject = Some (r1, r2, r3) /\ all_spoke r1 /\ all_spoke r2 /\ all_spoke r3
  /\ TransitionErrorCount.total (refusals r3) = 0 /\ Case.binding (observer r3) = opinion BindingSupport <$> everyone.
Proof.
  destruct first_room_hosts as (Hr0 & Hh0 & Hg0 & Hb0 & Hf0).
  destruct (stage_every Independent 0 consulting_clock _ ltac:(lia) Hr0 Hh0) as (r1 & Hrun1 & Hs1 & Hf1 & Hr1 & Hb1 & He1 & Hh1).
  apply (hosts_next _ Consultation) in Hh1; [|done|done].
  destruct (stage_every Consultation 1 consulting_clock r1 ltac:(lia) (Hr1 ltac:(done)) Hh1) as (r2 & Hrun2 & Hs2 & Hf2 & Hr2 & Hb2 & He2 & Hh2).
  assert (good_until (observer r2)) as Hg2 by (unfold good_until; by rewrite He2, He1).
  pose proof (vote_hosts _ Hh2 Hg2) as Hh2'. destruct Hh2 as (Hsub2 & _ & Hph2). rewrite bool_decide_eq_false_2 in Hph2 by done.
  pose proof (close_opens subject Hsubject r2 (proj1 Hph2) Hsub2) as Hclose. set (r2' := set_observer r2 _) in *.
  destruct (stage_every BindingSupport 2 voting_clock r2' ltac:(lia)) as (r3 & Hrun3 & Hs3 & Hf3 & _ & Hb3 & _ & _); [exact (Hr2 ltac:(done))|exact Hh2'|].
  exists r1, r2, r3. split_and!; try done.
  - unfold three_stages. cbv zeta. rewrite Hrun1. cbn [mbind option_bind]. rewrite Hrun2. cbn [mbind option_bind]. fold voting_clock.
    rewrite Hclose, Hrun3. done.
  - rewrite Hf3. change (refusals r2') with (refusals r2). by rewrite Hf2, Hf1.
  - rewrite Hb3. change (Case.binding (observer r2')) with (Case.binding (observer r2)). rewrite Hb2, Hb1, Hb0. done.
Qed.
End honest.

(** C10: The protocol gets there. A fleet of honest members in reach of each other, in slots
    counted from the frame that opened the round, with no residual loss and a case that
    outlives the vote, runs two stages of consultation and the vote with exactly one frame
    a member in each, all of them admitted and none refused, and endorses with the support of
    every member -- no sooner than 331 seconds after the claim. *)
Theorem honest_deliberation_endorses
    `{Digest, Ed25519Laws, AeadLaws, SerdeLaws SignedCompactEnvelope.t, Libm} (d : Deliberation.t) (subject : Subject.t) (guard : Z) :
  deliberation_subject = Some subject -> ideal d subject guard ->
  exists rep, deliberate d = Some rep /\ DeliberationReport.endorsed rep = true
  /\ DeliberationReport.binding_supporters rep = Z.of_nat (Deliberation.fleet d)
  /\ (let '(s1, s2, s3) := DeliberationReport.stages rep in
      Forall (fun x => StageReport.frames_sent x = Z.of_nat (Deliberation.fleet d)
        /\ StageReport.admitted x = Z.of_nat (Deliberation.fleet d)
        /\ StageReport.collided x = 0 /\ StageReport.lost x = 0 /\ StageReport.refused x = 0) [s1; s2; s3]
      /\ DeliberationReport.elapsed_s rep = 331 + StageReport.elapsed_ms s3 / 1000)
  /\ TransitionErrorCount.total (DeliberationReport.refusals rep) = 0.
Proof.
  intros Hsubject Hideal. destruct (all_three_stages d subject guard Hideal Hsubject) as (r1 & r2 & r3 & Hstages & Hs1 & Hs2 & Hs3 & Hf3 & Hb3).
  pose proof (i_size _ _ _ Hideal) as Hsize. destruct (i_window _ _ _ Hideal) as [size Hwindow].
  set (n := Deliberation.fleet d) in *.
  assert (Case.binding_supporters (observer r3) = member_id <$> seq 0 n) as Hv.
  { unfold Case.binding_supporters. rewrite Hb3. unfold everyone. fold n. clear. induction (seq 0 n) as [|i l IH]; [done|].
    rewrite !fmap_cons, filter_cons, decide_True by done. by rewrite fmap_cons, IH. }
  assert (Forall (fun i => i < n)%nat (seq 0 n)) as Hin by (apply Forall_forall; intros i Hi%elem_of_seq; lia).
  assert (exists q, evaluate (policy_of (equals n) DEFAULT_BYZANTINE_BPS DEFAULT_MAX_COMPETENCE_RATIO) (member_id <$> seq 0 n) = Ok q
    /\ approved q = true) as (q & Hq & Happ).
  { destruct (fleet_verdict n ltac:(lia) ltac:(width; lia) (member_id <$> seq 0 n)) as (q & Hq & Hverdict).
    - apply (ids_nodup n); [lia|width; lia|done|apply NoDup_seq].
    - apply Forall_fmap, Forall_forall. intros i Hi. apply list_elem_of_fmap. by exists i.
    - exists q. split; [done|]. rewrite Hverdict. unfold len. rewrite length_fmap, length_seq.
      destruct (fleet_majority n ltac:(lia) ltac:(width; lia) ltac:(lia)) as [_ Hle]. apply andb_true_iff. rewrite Z.leb_le, Z.ltb_lt. lia. }
  unfold deliberate. rewrite Hsubject. cbn [mbind option_bind]. fold n. rewrite policy_for_ok by (width; lia). rewrite Hstages.
  cbn [mbind option_bind]. fold n. rewrite keys_lookup by lia. cbn [mbind option_bind]. rewrite Hwindow. cbn [mbind option_bind].
  unfold deliberation_report. rewrite Hv, Hq. eexists. split; [done|].
  cbn [DeliberationReport.endorsed DeliberationReport.binding_supporters DeliberationReport.stages DeliberationReport.elapsed_s DeliberationReport.refusals].
  split; [done|]. split; [unfold len; by rewrite length_fmap, length_seq|]. split; [|done]. split; [|done].
  unfold all_spoke in Hs1, Hs2, Hs3. exact (Forall_cons_2 _ _ _ Hs1 (Forall_cons_2 _ _ _ Hs2 (Forall_cons_2 _ _ _ Hs3 (Forall_nil_2 _)))).
Qed.

(** * Instances *)

#[local] Existing Instances toy_digest toy_ed25519 toy_ed25519_laws clear_aead clear_aead_laws wide_serde wide_serde_laws flat_libm.
Definition slotted_deliberation : Deliberation.t := Deliberation.with_slots (Deliberation.new 5) 20.
Definition toy_subject : Subject.t := Subject.mk (lit "mission") (lit "evt-1") 0 (replicate 32 0x22) STARTED_AT.
Definition stages3 : list Stage := [Independent; Consultation; BindingSupport].
(** Every frame of the fleet, as the toy wire encodes them. *)
Definition toy_frames : list (option bytes) :=
  s ← stages3; q ← [0; 1; 2]; i ← seq 0 5; [spoken toy_subject s q i].
Lemma toy_frame_listed stage q i : 0 <= q <= 2 -> (i < 5)%nat -> spoken toy_subject stage q i ∈ toy_frames.
Proof.
  intros Hq Hi. unfold toy_frames. apply list_elem_of_bind. exists stage. split; [|destruct stage; unfold stages3; set_solver].
  apply list_elem_of_bind. exists q. split; [|assert (q = 0 \/ q = 1 \/ q = 2) as [->|[->| ->]] by lia; set_solver].
  apply list_elem_of_bind. exists i. split; [by apply list_elem_of_singleton|apply elem_of_seq; lia].
Qed.
Definition measures (n : Z) (o : option bytes) : bool := match o with Some b => len b =? n | None => false end.
Lemma toy_frames_alike : forallb (measures 140) toy_frames = true.
Proof. vm_compute. reflexivity. Qed.
Lemma toy_frame_measures stage q i : 0 <= q <= 2 -> (i < 5)%nat -> measures 140 (spoken toy_subject stage q i) = true.
Proof.
  intros Hq Hi. apply (proj1 (forallb_forall _ _) toy_frames_alike), list_elem_of_In. by apply toy_frame_listed.
Qed.
Lemma toy_air stage q i : 0 <= q <= 2 -> (i < 5)%nat -> air toy_subject stage q i = airtime_ms 140.
Proof.
  intros Hq Hi. pose proof (toy_frame_measures stage q i Hq Hi) as Hm. unfold air, frame.
  destruct (spoken _ _ _ _) as [b|]; [|done]. apply Z.eqb_eq in Hm. cbn [default]. exact (f_equal airtime_ms Hm).
Qed.
Lemma slotted_ideal : ideal slotted_deliberation toy_subject 20.
Proof.
  apply Build_ideal.
  - vm_compute. split; congruence.
  - exact toy_keys_apart.
  - reflexivity.
  - lia.
  - reflexivity.
  - reflexivity.
  - reflexivity.
  - reflexivity.
  - reflexivity.
  - reflexivity.
  - reflexivity.
  - intros v [=].
  - intros stage q i Hq Hi. pose proof (toy_frame_measures stage q i Hq Hi) as Hm. destruct (spoken _ _ _ _); [by eexists|discriminate].
  - eexists. vm_compute. reflexivity.
  - intros stage q i j Hq Hij. change (Deliberation.fleet slotted_deliberation) with 5%nat in Hij. rewrite !toy_air by lia. reflexivity.
Qed.
Lemma honest_deliberation_endorses_witness :
  match deliberate slotted_deliberation with
  | Some rep => DeliberationReport.endorsed rep = true /\ DeliberationReport.binding_supporters rep = 5
  | None => False
  end.
Proof.
  destruct (honest_deliberation_endorses slotted_deliberation toy_subject 20 eq_refl slotted_ideal) as (rep & -> & He & Hs & _).
  exact (conj He Hs).
Defined.
