(* ===== verification/Manifest.v ===== *)
(** The signed fleet manifest (src/src/application/manifest.rs): the parser of its
    text, the canonical form that is signed, verification and signing. *)
From S2P Require Import Prelude Time Quorum Crypto Codec Hand Radio.

Definition MANIFEST_VERSION : Z := 2.
Definition CANONICAL_DOMAIN : bytes := lit "lcq-manifest-v2".
Definition VERSION_BYTE : Z := 2.
Definition MAX_LABEL_BYTES : Z := 32.

Inductive ManifestError :=
| UnknownDirective (line : Z) (word : str)
| Malformed (line : Z) (expected : str)
| NotANumber (line : Z) (field : str)
| NotCanonicalNumber (line : Z) (field : str)
| NotHex (line : Z) (field : str) (bytes_ : Z)
| MissingDirective (directive : str)
| UnsupportedVersion (line version : Z)
| Repeated (line : Z) (directive : str)
| OutOfOrder (line : Z) (directive : str)
| LabelCharset (line : Z) (id : str)
| LabelTooLong (line found : Z)
| NotAKey (line index : Z)
| DuplicateIndex (line index : Z)
| DuplicateId (line : Z) (id : str)
| DuplicateKey (line index : Z)
| NoMembers
| IndicesNotContiguous (missing size : Z)
| FleetTooLarge (size max : Z)
| PhyProfileMismatch (line : Z) (found expected : str)
| HeardCapacityMismatch (line found expected : Z)
| ValidityInverted (from until : Z)
| BadManifestSignature
| NotYetValid (from now : Z)
| Expired (until now : Z)
| BadPolicy (e : PolicyError).

Module Member.
Record t := mk { index : Z; competence : Z; key : VerifyingKey.t; id : str }.
#[global] Instance t_eq_dec : EqDecision t.
Proof. solve_decision. Defined.
End Member.

(** * Text *)

(** [str::lines]: pieces up to and including each newline, without the newline and
    the carriage return before it. *)
Fixpoint split_inclusive (s : str) : list (str * bool) :=
  match s with
  | [] => []
  | c :: s =>
      if c =? 10 then ([], true) :: split_inclusive s
      else match split_inclusive s with
           | (l, nl) :: rest => (c :: l, nl) :: rest
           | [] => [([c], false)]
           end
  end.
Definition strip_cr (l : str) : str :=
  match reverse l with c :: r => if c =? 13 then reverse r else l | [] => l end.
Definition lines (s : str) : list str :=
  (fun p : str * bool => if p.2 then strip_cr p.1 else p.1) <$> split_inclusive s.

(** [split('#').next()]. *)
Fixpoint before_hash (l : str) : str :=
  match l with [] => [] | c :: l => if c =? 35 then [] else c :: before_hash l end.
(** [split_whitespace]; a text has no words exactly when it is blank once
    trimmed. *)
Fixpoint split_words (l : str) (word : str) : list str :=
  match l with
  | [] => if bool_decide (word = []) then [] else [word]
  | c :: l =>
      if Hand.is_whitespace c
      then (if bool_decide (word = []) then [] else [word]) ++ split_words l []
      else split_words l (word ++ [c])
  end.
Definition split_whitespace (l : str) : list str := split_words l [].
Definition words_of (raw : str) : list str := split_whitespace (before_hash raw).

(** * Fields *)

Definition once (held : bool) (line : Z) (directive : str) : result ManifestError unit :=
  if held then Err (Repeated line directive) else Ok tt.

Definition one_word (words : list str) (line : Z) (expected : str) : result ManifestError str :=
  match words with
  | [word] => Ok word
  | _ => Err (Malformed line expected)
  end.

(** [word.parse()] for an unsigned type, on a word without a sign. *)
Definition is_digit (c : char) : bool := (48 <=? c) && (c <=? 57).
Definition parse_uint (max : Z) (word : str) : option Z :=
  if bool_decide (word = []) || negb (forallb is_digit word) then None
  else if of_decimal word <=? max then Some (of_decimal word) else None.
Definition starts_with (c : char) (word : str) : bool :=
  match word with d :: _ => d =? c | [] => false end.
Definition canonical_number (max : Z) (word : str) (line : Z) (field : str) : result ManifestError Z :=
  if starts_with 43 word || starts_with 45 word then Err (NotCanonicalNumber line field)
  else if (1 <? str_len word) && starts_with 48 word then Err (NotCanonicalNumber line field)
  else ok_or (parse_uint max word) (NotANumber line field).
Definition number (max : Z) (words : list str) (line : Z) (field : str) : result ManifestError Z :=
  word ← one_word words line (lit "a directive and one number");
  canonical_number max word line field.
Definition bounded (words : list str) (line : Z) (field : str) : result ManifestError Z :=
  value ← number U32_MAX words line field;
  if value <=? U16_MAX then Ok value else Err (NotANumber line field).

Definition label_byte (b : Z) : bool :=
  ((48 <=? b) && (b <=? 57)) || ((65 <=? b) && (b <=? 90)) || ((97 <=? b) && (b <=? 122))
  || (b =? 45) || (b =? 95).
Definition check_label (id : str) (line : Z) : result ManifestError unit :=
  if MAX_LABEL_BYTES <? str_len id then Err (LabelTooLong line (str_len id))
  else if bool_decide (id = []) || negb (forallb label_byte (as_bytes id)) then Err (LabelCharset line id)
  else Ok tt.

Definition nibble (byte : Z) : option Z :=
  if (48 <=? byte) && (byte <=? 57) then Some (byte - 48)
  else if (97 <=? byte) && (byte <=? 102) then Some (byte - 97 + 10)
  else None.
Fixpoint hex_pairs (raw : bytes) : option bytes :=
  match raw with
  | h :: l :: raw =>
      high ← nibble h; low ← nibble l; rest ← hex_pairs raw;
      Some (Z.lor (Z.shiftl high 4) low :: rest)
  | _ => Some []
  end.
Definition hex_bytes (n : Z) (word : str) (line : Z) (field : str) : result ManifestError bytes :=
  if negb (str_len word =? n * 2) then Err (NotHex line field n)
  else ok_or (hex_pairs (as_bytes word)) (NotHex line field n).
Definition hex_word (n : Z) (words : list str) (line : Z) (field : str) : result ManifestError bytes :=
  word ← one_word words line (lit "a directive and one hexadecimal field");
  hex_bytes n word line field.

(** * The canonical form *)

(** One length byte, [text.len() as u8], then the bytes. *)
Definition push_text (text : str) : bytes := str_len text mod 256 :: as_bytes text.
Definition push_member (m : Member.t) : bytes :=
  be_bytes 2 (Member.index m) ++ [Member.competence m] ++ VerifyingKey.to_bytes (Member.key m)
  ++ push_text (Member.id m).
Definition canonical (epoch valid_from valid_until : Z) (group_key_id : bytes)
    (byzantine_bps max_competence_ratio : Z) (phy_profile : str) (heard_capacity : Z)
    (members : list Member.t) : bytes :=
  CANONICAL_DOMAIN ++ [VERSION_BYTE] ++ be_bytes 2 epoch ++ be_bytes 8 valid_from
  ++ be_bytes 8 valid_until ++ group_key_id ++ be_bytes 4 byzantine_bps
  ++ be_bytes 4 max_competence_ratio ++ push_text phy_profile ++ be_bytes 2 heard_capacity
  ++ be_bytes 2 (len members mod 65536) ++ concat (push_member <$> members).

Module Manifest.
Record t := mk {
  epoch : Z;
  valid_from : Z;
  valid_until : Z;
  group_key_id : bytes;
  byzantine_bps : Z;
  max_competence_ratio : Z;
  phy_profile : str;
  heard_capacity : Z;
  members : list Member.t;
  issuer : str;
  signature : bytes;
}.
Definition size (m : t) : Z := len (members m).
Definition id_of (m : t) (index : nat) : option str := Member.id <$> members m !! index.
Definition key_of (m : t) (index : nat) : option VerifyingKey.t := Member.key <$> members m !! index.

Definition canonical_bytes (m : t) : bytes :=
  canonical (epoch m) (valid_from m) (valid_until m) (group_key_id m) (byzantine_bps m)
    (max_competence_ratio m) (phy_profile m) (heard_capacity m) (members m).
Definition digest `{Digest} (m : t) : bytes := blake2s256 (canonical_bytes m).

Definition verify `{Ed25519} (m : t) (admin : VerifyingKey.t) (now : Z) : result ManifestError unit :=
  _ ← map_err (fun _ => BadManifestSignature) (VerifyingKey.verify admin (canonical_bytes m) (signature m));
  if now <? valid_from m then Err (NotYetValid (valid_from m) now)
  else if valid_until m <=? now then Err (Expired (valid_until m) now)
  else Ok tt.

Definition policy (m : t) : result PolicyError Policy :=
  with_settings ((fun x => (Member.id x, Member.competence x)) <$> members m)
    (byzantine_bps m) (max_competence_ratio m).
End Manifest.

(** * The parser *)

Module Parts.
Record t := mk {
  version : option Z;           (* the reader's local, threaded with the rest *)
  epoch : option Z;
  valid_from : option Z;
  valid_until : option Z;
  group_key_id : option bytes;
  byzantine_bps : option Z;
  max_competence_ratio : option Z;
  phy_profile : option str;
  heard_capacity : option Z;
  members : list Member.t;
  issuer : option str;
  signature : option bytes;
}.
Definition empty : t := mk None None None None None None None None None [] None None.

Definition set_version p v := mk (Some v) (epoch p) (valid_from p) (valid_until p) (group_key_id p)
  (byzantine_bps p) (max_competence_ratio p) (phy_profile p) (heard_capacity p) (members p) (issuer p) (signature p).
Definition set_epoch p v := mk (version p) (Some v) (valid_from p) (valid_until p) (group_key_id p)
  (byzantine_bps p) (max_competence_ratio p) (phy_profile p) (heard_capacity p) (members p) (issuer p) (signature p).
Definition set_from p v := mk (version p) (epoch p) (Some v) (valid_until p) (group_key_id p)
  (byzantine_bps p) (max_competence_ratio p) (phy_profile p) (heard_capacity p) (members p) (issuer p) (signature p).
Definition set_until p v := mk (version p) (epoch p) (valid_from p) (Some v) (group_key_id p)
  (byzantine_bps p) (max_competence_ratio p) (phy_profile p) (heard_capacity p) (members p) (issuer p) (signature p).
Definition set_group p v := mk (version p) (epoch p) (valid_from p) (valid_until p) (Some v)
  (byzantine_bps p) (max_competence_ratio p) (phy_profile p) (heard_capacity p) (members p) (issuer p) (signature p).
Definition set_bps p v := mk (version p) (epoch p) (valid_from p) (valid_until p) (group_key_id p)
  (Some v) (max_competence_ratio p) (phy_profile p) (heard_capacity p) (members p) (issuer p) (signature p).
Definition set_ratio p v := mk (version p) (epoch p) (valid_from p) (valid_until p) (group_key_id p)
  (byzantine_bps p) (Some v) (phy_profile p) (heard_capacity p) (members p) (issuer p) (signature p).
Definition set_phy p v := mk (version p) (epoch p) (valid_from p) (valid_until p) (group_key_id p)
  (byzantine_bps p) (max_competence_ratio p) (Some v) (heard_capacity p) (members p) (issuer p) (signature p).
Definition set_capacity p v := mk (version p) (epoch p) (valid_from p) (valid_until p) (group_key_id p)
  (byzantine_bps p) (max_competence_ratio p) (phy_profile p) (Some v) (members p) (issuer p) (signature p).
Definition set_members p v := mk (version p) (epoch p) (valid_from p) (valid_until p) (group_key_id p)
  (byzantine_bps p) (max_competence_ratio p) (phy_profile p) (heard_capacity p) v (issuer p) (signature p).
Definition set_issuer p v := mk (version p) (epoch p) (valid_from p) (valid_until p) (group_key_id p)
  (byzantine_bps p) (max_competence_ratio p) (phy_profile p) (heard_capacity p) (members p) v (signature p).
Definition set_signature p v := mk (version p) (epoch p) (valid_from p) (valid_until p) (group_key_id p)
  (byzantine_bps p) (max_competence_ratio p) (phy_profile p) (heard_capacity p) (members p) (issuer p) v.

Definition SHAPE : str := lit "member <index> <competence> <public key> <label>".

Section parser.
Context `{Ed25519}.

Definition add_member (p : t) (words : list str) (line : Z) : result ManifestError t :=
  match words with
  | [index; competence; key; id] =>
      index ← canonical_number U16_MAX index line (lit "index");
      competence ← canonical_number U8_MAX competence line (lit "competence");
      bs ← hex_bytes 32 key line (lit "member key");
      key ← map_err (fun _ => NotAKey line index) (VerifyingKey.from_bytes bs);
      _ ← check_label id line;
      if existsb (fun held => Member.index held =? index) (members p) then Err (DuplicateIndex line index)
      else if existsb (fun held => bool_decide (Member.id held = id)) (members p)
      then Err (DuplicateId line id)
      else if existsb (fun held => bool_decide (Member.key held = key)) (members p)
      then Err (DuplicateKey line index)
      else Ok (set_members p (members p ++ [Member.mk index competence key id]))
  | _ => Err (Malformed line SHAPE)
  end.

Definition is_some {A} (o : option A) : bool := match o with Some _ => true | None => false end.
Definition word_is (w : str) (s : String.string) : bool := bool_decide (w = lit s).
#[local] Arguments word_is w s%_string_scope.

Definition apply (p : t) (directive : str) (words : list str) (line : Z) : result ManifestError t :=
  if word_is directive "version" then
    _ ← once (is_some (version p)) line (lit "version");
    value ← number U32_MAX words line (lit "version");
    if negb (value =? MANIFEST_VERSION) then Err (UnsupportedVersion line value)
    else Ok (set_version p value)
  else if word_is directive "epoch" then
    _ ← once (is_some (epoch p)) line (lit "epoch");
    v ← bounded words line (lit "epoch"); Ok (set_epoch p v)
  else if word_is directive "valid-from" then
    _ ← once (is_some (valid_from p)) line (lit "valid-from");
    v ← number U64_MAX words line (lit "valid-from"); Ok (set_from p v)
  else if word_is directive "valid-until" then
    _ ← once (is_some (valid_until p)) line (lit "valid-until");
    v ← number U64_MAX words line (lit "valid-until"); Ok (set_until p v)
  else if word_is directive "group-key" then
    _ ← once (is_some (group_key_id p)) line (lit "group-key");
    v ← hex_word 32 words line (lit "group-key"); Ok (set_group p v)
  else if word_is directive "byzantine-bps" then
    _ ← once (is_some (byzantine_bps p)) line (lit "byzantine-bps");
    v ← number U32_MAX words line (lit "byzantine-bps"); Ok (set_bps p v)
  else if word_is directive "max-competence-ratio" then
    _ ← once (is_some (max_competence_ratio p)) line (lit "max-competence-ratio");
    v ← number U32_MAX words line (lit "max-competence-ratio"); Ok (set_ratio p v)
  else if word_is directive "phy-profile" then
    _ ← once (is_some (phy_profile p)) line (lit "phy-profile");
    found ← one_word words line (lit "phy-profile <name>");
    let expected := PhyProfile.name PhyProfile.eu868_sf10 in
    if negb (bool_decide (found = expected)) then Err (PhyProfileMismatch line found expected)
    else Ok (set_phy p found)
  else if word_is directive "heard-capacity" then
    _ ← once (is_some (heard_capacity p)) line (lit "heard-capacity");
    found ← bounded words line (lit "heard-capacity");
    if negb (found =? Heard.CAPACITY) then Err (HeardCapacityMismatch line found Heard.CAPACITY)
    else Ok (set_capacity p found)
  else if word_is directive "member" then add_member p words line
  else if word_is directive "issuer" then
    _ ← once (is_some (issuer p)) line (lit "issuer");
    v ← one_word words line (lit "issuer <fingerprint>"); Ok (set_issuer p (Some v))
  else if word_is directive "signature" then
    v ← hex_word 64 words line (lit "signature"); Ok (set_signature p (Some v))
  else Err (UnknownDirective line directive).

(** The order a line must respect, before it is applied. *)
Definition in_order (p : t) (directive : str) (line : Z) : result ManifestError unit :=
  if is_some (signature p) then Err (OutOfOrder line (lit "signature"))
  else if negb (word_is directive "member") && negb (word_is directive "issuer")
          && negb (word_is directive "signature") then
    if negb (bool_decide (members p = [])) then Err (OutOfOrder line (lit "a header directive"))
    else if negb (word_is directive "version") && negb (is_some (version p))
    then Err (MissingDirective (lit "version"))
    else Ok tt
  else Ok tt.

(** One line of the file, and the loop over them. *)
Definition read_line (p : t) (raw : str) (line : Z) : result ManifestError t :=
  match words_of raw with
  | [] => Ok p
  | directive :: words => _ ← in_order p directive line; apply p directive words line
  end.
Fixpoint read_lines (p : t) (raws : list str) (line : Z) : result ManifestError t :=
  match raws with
  | [] => Ok p
  | raw :: raws => p ← read_line p raw line; read_lines p raws (line + 1)
  end.
Definition read (text : str) (want_signature : bool) : result ManifestError t :=
  p ← read_lines empty (lines text) 1;
  if negb (is_some (version p)) then Err (MissingDirective (lit "version"))
  else if want_signature && negb (is_some (signature p)) then Err (MissingDirective (lit "signature"))
  else Ok p.

(** ** Settling *)

Definition required (p : t) : list (bool * str) :=
  [(is_some (epoch p), lit "epoch"); (is_some (valid_from p), lit "valid-from");
   (is_some (valid_until p), lit "valid-until"); (is_some (group_key_id p), lit "group-key");
   (is_some (byzantine_bps p), lit "byzantine-bps");
   (is_some (max_competence_ratio p), lit "max-competence-ratio");
   (is_some (phy_profile p), lit "phy-profile"); (is_some (heard_capacity p), lit "heard-capacity")].
Fixpoint all_present (l : list (bool * str)) : result ManifestError unit :=
  match l with
  | [] => Ok tt
  | (held, directive) :: l => if held then all_present l else Err (MissingDirective directive)
  end.
Fixpoint contiguous (ms : list Member.t) (expected size : Z) : result ManifestError unit :=
  match ms with
  | [] => Ok tt
  | m :: ms => if negb (Member.index m =? expected) then Err (IndicesNotContiguous expected size)
               else contiguous ms (expected + 1) size
  end.
Definition by_index (ms : list Member.t) : list Member.t := merge_sort (key_le Member.index) ms.

Definition settle (p : t) : result ManifestError t :=
  _ ← all_present (required p);
  let from := default 0 (valid_from p) in
  let until := default 0 (valid_until p) in
  if until <=? from then Err (ValidityInverted from until)
  else if bool_decide (members p = []) then Err NoMembers
  else if Heard.CAPACITY <? len (members p) then Err (FleetTooLarge (len (members p)) Heard.CAPACITY)
  else
    let p := set_members p (by_index (members p)) in
    _ ← contiguous (members p) 0 (len (members p));
    Ok p.

Definition manifest_of (p : t) : Manifest.t :=
  Manifest.mk (default 0 (epoch p)) (default 0 (valid_from p)) (default 0 (valid_until p))
    (default (replicate 32 0) (group_key_id p)) (default 0 (byzantine_bps p))
    (default 0 (max_competence_ratio p)) (default [] (phy_profile p)) (default 0 (heard_capacity p))
    (members p) (default [] (issuer p)) (default (replicate 64 0) (signature p)).

(** [Parts::canonical]: settled, a lawful policy, and then the bytes. *)
Definition canonical_of (p : t) : result ManifestError bytes :=
  p ← settle p;
  _ ← map_err BadPolicy (Manifest.policy (manifest_of p));
  Ok (Manifest.canonical_bytes (manifest_of p)).
Definition finish (p : t) : result ManifestError Manifest.t :=
  p ← settle p;
  let manifest := manifest_of p in
  _ ← map_err BadPolicy (Manifest.policy manifest);
  Ok manifest.
End parser.
End Parts.

Section entry_points.
Context `{Ed25519}.

Definition parse (text : str) : result ManifestError Manifest.t :=
  p ← Parts.read text true; Parts.finish p.

Definition first_word (raw : str) : str := match words_of raw with w :: _ => w | [] => [] end.
Definition signing_line (raw : str) : bool :=
  bool_decide (first_word raw = lit "issuer") || bool_decide (first_word raw = lit "signature").
(** The text without its issuer and signature lines, a newline after each. *)
Definition unsigned_text (text : str) : str :=
  concat ((fun raw => raw ++ [10]) <$> filter (fun raw => signing_line raw = false) (lines text)).
Definition sign_text `{Digest} (text : str) (admin : SigningKey.t) : result ManifestError str :=
  parts ← Parts.read text false;
  bs ← Parts.canonical_of parts;
  let signature := SigningKey.sign admin bs in
  let issuer := Hand.fingerprint (VerifyingKey.to_bytes (verifying_key admin)) in
  Ok (unsigned_text text ++ lit "issuer " ++ issuer ++ [10] ++ lit "signature " ++ hex signature ++ [10]).
End entry_points.
