(* ===== verification/ManifestFields.v ===== *)
(** One value, one spelling (src/src/application/manifest.rs): the numbers and the
    hexadecimal fields of a manifest, and what its canonical form pins. *)
From S2P Require Import Prelude Time Quorum Crypto Codec Hand Radio Manifest.

(** * Decimal *)

(** No leading zero but in "0" itself. *)
Definition canonical_digits (w : str) : Prop :=
  Forall (fun d => 48 <= d <= 57) w /\ w <> [] /\ (starts_with 48 w = true -> length w = 1%nat).

Section decimal.
Lemma digit_iff d : is_digit d = true <-> 48 <= d <= 57.
Proof. unfold is_digit. rewrite andb_true_iff, !Z.leb_le. lia. Qed.
Lemma digits_iff w : forallb is_digit w = true <-> Forall (fun d => 48 <= d <= 57) w.
Proof.
  rewrite forallb_forall, Forall_forall. split; intros Hw d Hd.
  - apply digit_iff, Hw. by apply list_elem_of_In.
  - apply digit_iff, Hw. by apply list_elem_of_In.
Qed.
Lemma of_decimal_cons d w : of_decimal (d :: w) = (d - 48) * 10 ^ len w + of_decimal w.
Proof.
  unfold len. induction w as [|e w IH] using rev_ind; [simpl; unfold of_decimal; simpl; lia|].
  change (d :: w ++ [e]) with ((d :: w) ++ [e]). rewrite !of_decimal_snoc, IH, length_app. simpl.
  rewrite Nat2Z.inj_add. change (Z.of_nat 1) with 1. rewrite Z.pow_add_r by lia. lia.
Qed.
Lemma of_decimal_bounds w : Forall (fun d => 48 <= d <= 57) w -> 0 <= of_decimal w < 10 ^ len w.
Proof.
  unfold len. induction 1 as [|d w Hd _ IH]; [done|]. rewrite of_decimal_cons. unfold len.
  simpl length. rewrite Nat2Z.inj_succ, Z.pow_succ_r by lia. nia.
Qed.
Lemma digits_same_length v w : Forall (fun d => 48 <= d <= 57) v -> Forall (fun d => 48 <= d <= 57) w ->
  length v = length w -> of_decimal v = of_decimal w -> v = w.
Proof.
  intros Hv; revert w; induction Hv as [|d v Hd Hv IH]; intros [|e w] Hw Hlen Heq; try done.
  apply Forall_cons in Hw as [He Hw]. simpl in Hlen. injection Hlen as Hlen.
  rewrite !of_decimal_cons in Heq. unfold len in Heq. rewrite Hlen in Heq.
  pose proof (of_decimal_bounds v Hv) as Hbv. pose proof (of_decimal_bounds w Hw) as Hbw.
  unfold len in *. rewrite Hlen in Hbv.
  assert (d = e) as -> by nia. f_equal. apply IH; [done..|lia].
Qed.
Lemma canonical_low w : canonical_digits w -> (1 < length w)%nat -> 10 ^ (len w - 1) <= of_decimal w.
Proof.
  intros (Hw & _ & Hz) Hlen. destruct w as [|d w]; [done|]. apply Forall_cons in Hw as [Hd Hw].
  rewrite of_decimal_cons. pose proof (of_decimal_bounds w Hw). unfold len in *. simpl length in *.
  replace (Z.of_nat (S (length w)) - 1) with (Z.of_nat (length w)) by lia.
  assert (d <> 48) by (intros ->; specialize (Hz eq_refl); lia). nia.
Qed.
Lemma canonical_digits_inj v w : canonical_digits v -> canonical_digits w ->
  of_decimal v = of_decimal w -> v = w.
Proof.
  intros Hv Hw Heq. pose proof (of_decimal_bounds v (proj1 Hv)). pose proof (of_decimal_bounds w (proj1 Hw)).
  assert (forall a b, canonical_digits a -> canonical_digits b -> of_decimal a = of_decimal b ->
    (length a <= length b)%nat) as Hle.
  { intros a b Ha Hb Hab. destruct (decide (length a <= length b)%nat) as [|Hgt]; [done|].
    pose proof (of_decimal_bounds b (proj1 Hb)) as Hbb.
    destruct Hb as (Hb & Hbn & _). assert (0 < length b)%nat by (destruct b; [done|simpl; lia]).
    pose proof (canonical_low a Ha ltac:(lia)) as Hlow. unfold len in *.
    pose proof (Z.pow_le_mono_r 10 (Z.of_nat (length b)) (Z.of_nat (length a) - 1) ltac:(lia) ltac:(lia)). lia. }
  pose proof (Hle v w Hv Hw Heq). pose proof (Hle w v Hw Hv (eq_sym Heq)).
  apply digits_same_length; [apply Hv|apply Hw|lia|done].
Qed.

Lemma dec_loop_canonical fuel n acc : 0 <= n < 10 ^ Z.of_nat fuel -> (0 < fuel)%nat ->
  exists d ds, dec_loop fuel n acc = (d :: ds) ++ acc /\ (d = 48 -> n = 0 /\ ds = []).
Proof.
  revert n acc; induction fuel as [|fuel IH]; intros n acc Hn Hf; [lia|].
  rewrite Nat2Z.inj_succ, Z.pow_succ_r in Hn by lia.
  pose proof (Z.mod_pos_bound n 10 ltac:(lia)) as Hmod.
  pose proof (Z.div_mod n 10 ltac:(lia)) as Hdm. cbn [dec_loop].
  destruct (Z.eqb_spec (n / 10) 0) as [Hz|Hnz].
  - exists (48 + n mod 10), []. split; [done|]. intros. split; [lia|done].
  - assert (0 <= n / 10 < 10 ^ Z.of_nat fuel) as Hq.
    { split; [apply Z.div_pos; lia|apply Z.div_lt_upper_bound; lia]. }
    assert (0 < fuel)%nat by (destruct fuel; [simpl in Hq; lia|lia]).
    destruct (IH (n / 10) ((48 + n mod 10) :: acc) Hq ltac:(done)) as (d & ds & -> & Hd).
    exists d, (ds ++ [48 + n mod 10]). split; [cbn [app]; by rewrite <- app_assoc|]. intros Hd'.
    destruct (Hd Hd'). lia.
Qed.
Lemma decimal_canonical n : is_u64 n -> canonical_digits (decimal n).
Proof.
  intros Hn. destruct (decimal_spec n Hn) as (_ & Hd & Hne). split_and!; [done..|]. unfold decimal.
  destruct (dec_loop_canonical 20 n []) as (d & ds & -> & Hd0); [|lia|].
  { change (10 ^ Z.of_nat 20) with 100000000000000000000. width. lia. }
  rewrite app_nil_r. simpl. intros Heq%Z.eqb_eq. destruct (Hd0 Heq) as [_ ->]. done.
Qed.
Lemma digits_ascii w : Forall (fun d => 48 <= d <= 57) w -> str_len w = len w.
Proof.
  intros Hw. unfold str_len. rewrite as_bytes_ascii; [done|]. eapply Forall_impl; [exact Hw|]. simpl. lia.
Qed.
Lemma digit_not_sign w : Forall (fun d => 48 <= d <= 57) w ->
  starts_with 43 w = false /\ starts_with 45 w = false.
Proof.
  intros Hw. destruct w as [|d w]; [done|]. apply Forall_cons in Hw as [Hd _]. simpl.
  split; apply Z.eqb_neq; lia.
Qed.

(** A number in a manifest has one spelling: Rust's own. *)
Lemma canonical_number_iff max w line field n : max <= U64_MAX ->
  canonical_number max w line field = Ok n <-> 0 <= n <= max /\ w = decimal n.
Proof.
  intros Hmax. unfold canonical_number. split.
  - destruct (_ || _); [done|]. destruct (_ && starts_with 48 w) eqn:Hz; [done|].
    intros Hp%ok_or_ok. unfold parse_uint in Hp. case_bool_decide as Hne; [done|].
    cbn [orb] in Hp. destruct (forallb is_digit w) eqn:Hd; [|done]. simpl in Hp.
    apply digits_iff in Hd. destruct (Z.leb_spec (of_decimal w) max) as [Hle|]; [|done].
    injection Hp as <-. pose proof (of_decimal_bounds w Hd).
    assert (is_u64 (of_decimal w)) as Hu by (width; lia). split; [lia|].
    apply canonical_digits_inj; [|by apply decimal_canonical|by destruct (decimal_spec _ Hu) as [-> _]].
    split_and!; [done..|]. intros Hs. rewrite Hs, digits_ascii, andb_true_r in Hz by done.
    apply Z.ltb_ge in Hz. destruct w as [|d [|e w]]; [done..|]. unfold len in Hz. simpl in Hz. lia.
  - intros [Hn ->]. assert (is_u64 n) as Hu by (width; lia).
    destruct (decimal_spec n Hu) as (Hv & Hd & Hne). destruct (digit_not_sign _ Hd) as [-> ->].
    destruct (decimal_canonical n Hu) as (_ & _ & Hz). cbn [orb].
    destruct (starts_with 48 (decimal n)) eqn:Hs.
    + rewrite digits_ascii by done. unfold len. rewrite Hz by done. simpl.
      unfold parse_uint. rewrite bool_decide_eq_false_2 by done.
      rewrite (proj2 (digits_iff _) Hd), Hv. simpl. by destruct (Z.leb_spec n max); [|lia].
    + rewrite andb_false_r. unfold parse_uint. rewrite bool_decide_eq_false_2 by done.
      rewrite (proj2 (digits_iff _) Hd), Hv. simpl. by destruct (Z.leb_spec n max); [|lia].
Qed.
End decimal.

(** * Hexadecimal *)

Section hexadecimal.
Lemma nibble_range c v : nibble c = Some v -> 0 <= v < 16 /\ 0 <= c < 128 /\ nth (Z.to_nat v) HEX 0 = c.
Proof.
  unfold nibble. destruct (_ && _) eqn:Hd; [|destruct (_ && (c <=? 102)) eqn:Hl; [|done]]; intros [= <-].
  - apply andb_true_iff in Hd as [?%Z.leb_le ?%Z.leb_le]. split_and!; [lia..|].
    assert (c - 48 = 0 \/ c - 48 = 1 \/ c - 48 = 2 \/ c - 48 = 3 \/ c - 48 = 4 \/ c - 48 = 5
      \/ c - 48 = 6 \/ c - 48 = 7 \/ c - 48 = 8 \/ c - 48 = 9) as Hc by lia.
    repeat destruct Hc as [Hc|Hc]; rewrite Hc; vm_compute (nth _ _ _); lia.
  - apply andb_true_iff in Hl as [?%Z.leb_le ?%Z.leb_le]. split_and!; [lia..|].
    assert (c - 97 + 10 = 10 \/ c - 97 + 10 = 11 \/ c - 97 + 10 = 12 \/ c - 97 + 10 = 13
      \/ c - 97 + 10 = 14 \/ c - 97 + 10 = 15) as Hc by lia.
    repeat destruct Hc as [Hc|Hc]; rewrite Hc; vm_compute (nth _ _ _); lia.
Qed.
Lemma nibble_hex v : 0 <= v < 16 -> nibble (nth (Z.to_nat v) HEX 0) = Some v.
Proof.
  intros Hv. assert (Forall (fun v => nibble (nth (Z.to_nat v) HEX 0) = Some v) (seqZ 0 16)) as Hall.
  { apply (bool_decide_unpack _). vm_compute. exact I. }
  rewrite Forall_forall in Hall. apply Hall, elem_of_seqZ. lia.
Qed.
Lemma two_nibbles h l : 0 <= h < 16 -> 0 <= l < 16 ->
  let b := Z.lor (Z.shiftl h 4) l in is_u8 b /\ Z.shiftr b 4 = h /\ Z.land b 15 = l.
Proof.
  intros Hh Hl b.
  assert (Z.shiftr l 4 = 0) as Hsl.
  { rewrite Z.shiftr_div_pow2 by lia. apply Z.div_small. simpl. lia. }
  assert (Z.shiftr b 4 = h) as Hs.
  { unfold b. rewrite Z.shiftr_lor, Hsl, Z.lor_0_r. rewrite Z.shiftr_shiftl_l by lia. apply Z.shiftl_0_r. }
  assert (Z.land b 15 = l) as Hm.
  { unfold b. change 15 with (Z.ones 4). rewrite Z.land_lor_distr_l, !Z.land_ones by lia.
    rewrite Z.shiftl_mul_pow2, Z.mod_mul, Z.mod_small by (simpl; lia). apply Z.lor_0_l. }
  split_and!; [|done..]. rewrite Z.shiftr_div_pow2 in Hs by lia. change 15 with (Z.ones 4) in Hm.
  rewrite Z.land_ones in Hm by lia. width. simpl in *. Z.to_euclidean_division_equations; lia.
Qed.

Lemma hex_pairs_some raw bs : Nat.Even (length raw) -> hex_pairs raw = Some bs ->
  raw = hex bs /\ wf_bytes bs.
Proof.
  revert bs. induction raw as [raw IH] using (induction_ltof1 _ (@length Z)); unfold ltof in IH.
  intros bs Heven. destruct raw as [|h [|l raw]].
  - intros [= <-]. split; [done|constructor].
  - destruct Heven as [k Hk]. simpl in Hk. lia.
  - cbn [hex_pairs]. intros (hi & Hh & (lo & Hl & (rest & Hr & [= <-])%bind_Some)%bind_Some)%bind_Some.
    apply nibble_range in Hh as (Hhr & _ & Hhc). apply nibble_range in Hl as (Hlr & _ & Hlc).
    destruct (IH raw ltac:(simpl; lia) rest) as [Hraw Hwf]; [|done|].
    { destruct Heven as [k Hk]. exists (k - 1)%nat. simpl in Hk. lia. }
    destruct (two_nibbles hi lo Hhr Hlr) as (Hb & Hs & Hm).
    split; [|by constructor]. unfold hex. cbn [map concat]. unfold hex_byte at 1. rewrite Hs, Hm, Hhc, Hlc.
    cbn [app]. by rewrite Hraw.
Qed.
Lemma hex_pairs_hex bs : wf_bytes bs -> hex_pairs (hex bs) = Some bs.
Proof.
  induction 1 as [|b bs Hb _ IH]; [done|]. destruct (nibbles b Hb) as (Hh & Hl & Heq).
  change (hex (b :: bs)) with (hex_byte b ++ hex bs). unfold hex_byte. cbn [app hex_pairs].
  rewrite !nibble_hex by done. simpl. rewrite IH. simpl. do 2 f_equal.
  destruct (two_nibbles _ _ Hh Hl) as (Hb' & Hs & Hm). destruct (nibbles _ Hb') as (_ & _ & ->).
  rewrite Hs, Hm. lia.
Qed.
Lemma hex_ascii bs : wf_bytes bs -> as_bytes (hex bs) = hex bs.
Proof.
  intros Hb. apply as_bytes_ascii. eapply Forall_impl; [by apply hex_range|]. simpl. lia.
Qed.

(** A hexadecimal field has one spelling, in lower case. *)
Lemma hex_bytes_iff n w line field bs : 0 <= n -> wf_str w ->
  hex_bytes n w line field = Ok bs <-> w = hex bs /\ wf_bytes bs /\ len bs = n.
Proof.
  intros Hn Hw. unfold hex_bytes. split.
  - destruct (Z.eqb_spec (str_len w) (n * 2)) as [Hl|]; simpl; [|done].
    intros Hp%ok_or_ok. apply hex_pairs_some in Hp as [Hraw Hwf].
    + assert (w = hex bs) as ->.
      { apply as_bytes_inj; [done| |by rewrite Hraw, hex_ascii].
        eapply Forall_impl; [by apply hex_range|]. unfold is_scalar. simpl. lia. }
      split_and!; [done..|]. unfold str_len in Hl. rewrite hex_ascii in Hl by done.
      unfold len in *. rewrite length_hex in Hl. lia.
    + unfold str_len, len in Hl. exists (Z.to_nat n). lia.
  - intros (-> & Hwf & Hlen). unfold str_len. rewrite hex_ascii by done. unfold len in *.
    rewrite length_hex. destruct (Z.eqb_spec (Z.of_nat (2 * length bs)) (n * 2)); [|lia]. simpl.
    by rewrite hex_pairs_hex.
Qed.
End hexadecimal.

(** A number and a hexadecimal field have one spelling each: what is accepted is
    the decimal form of a value in range, or the lowercase form of that many
    bytes, and nothing else. *)
Theorem one_spelling (max n line : Z) (w field : str) (bs : bytes) (z : Z) :
  max <= U64_MAX -> 0 <= n -> wf_str w ->
  (canonical_number max w line field = Ok z <-> 0 <= z <= max /\ w = decimal z)
  /\ (hex_bytes n w line field = Ok bs <-> w = hex bs /\ wf_bytes bs /\ len bs = n).
Proof. intros. split; [by apply canonical_number_iff|by apply hex_bytes_iff]. Qed.

Lemma one_spelling_witness :
  (canonical_number U16_MAX (lit "65535") 3 (lit "epoch") = Ok 65535
     <-> 0 <= 65535 <= U16_MAX /\ lit "65535" = decimal 65535)
  /\ (hex_bytes 2 (lit "65535") 3 (lit "epoch") = Ok [1; 2]
     <-> lit "65535" = hex [1; 2] /\ wf_bytes [1; 2] /\ len [1; 2] = 2).
Proof.
  apply one_spelling; [vm_compute; discriminate|lia|].
  apply (bool_decide_unpack (wf_str _)). vm_compute. exact I.
Defined.
