(* ===== verification/ManifestProofs.v ===== *)
(** What a parsed manifest is (src/src/application/manifest.rs): a lawful fleet
    with one canonical form, good for one key and one window. *)
From S2P Require Import Prelude Time Quorum Crypto Codec Hand Radio Manifest ManifestFields.

(** * The canonical form *)

(** What the parser guarantees of one member. *)
Record member_ok (m : Member.t) : Prop := {
  mo_index : is_u16 (Member.index m);
  mo_competence : is_u8 (Member.competence m);
  mo_key : len (VerifyingKey.to_bytes (Member.key m)) = 32 /\ wf_bytes (VerifyingKey.to_bytes (Member.key m));
  mo_id : wf_str (Member.id m) /\ Member.id m <> [] /\ str_len (Member.id m) <= MAX_LABEL_BYTES
          /\ forallb label_byte (as_bytes (Member.id m)) = true;
}.
(** What the parser guarantees of a manifest. *)
Record manifest_ok (m : Manifest.t) : Prop := {
  ma_epoch : is_u16 (Manifest.epoch m);
  ma_from : is_u64 (Manifest.valid_from m);
  ma_until : is_u64 (Manifest.valid_until m);
  ma_window : Manifest.valid_from m < Manifest.valid_until m;
  ma_group : len (Manifest.group_key_id m) = 32 /\ wf_bytes (Manifest.group_key_id m);
  ma_bps : is_u32 (Manifest.byzantine_bps m);
  ma_ratio : is_u32 (Manifest.max_competence_ratio m);
  ma_profile : Manifest.phy_profile m = PhyProfile.name PhyProfile.eu868_sf10;
  ma_capacity : Manifest.heard_capacity m = Heard.CAPACITY;
  ma_members : Forall member_ok (Manifest.members m);
  ma_size : 1 <= len (Manifest.members m) <= Heard.CAPACITY;
  ma_indices : Member.index <$> Manifest.members m = seqZ 0 (len (Manifest.members m));
  ma_ids : NoDup (Member.id <$> Manifest.members m);
  ma_keys : NoDup (Member.key <$> Manifest.members m);
}.

Section canonical.
Lemma push_text_inj s t r1 r2 : wf_str s -> wf_str t -> str_len s <= 255 -> str_len t <= 255 ->
  push_text s ++ r1 = push_text t ++ r2 -> s = t /\ r1 = r2.
Proof.
  intros Hs Ht Hls Hlt. unfold push_text. cbn [app]. intros Heq. injection Heq as Hlen Heq.
  unfold str_len, len in *. rewrite !Z.mod_small in Hlen by lia.
  apply app_fixed_inj in Heq as [Hb ->]; [|lia]. split; [by apply as_bytes_inj|done].
Qed.
Lemma push_member_inj m1 m2 r1 r2 : member_ok m1 -> member_ok m2 ->
  push_member m1 ++ r1 = push_member m2 ++ r2 -> m1 = m2 /\ r1 = r2.
Proof.
  intros [Hi1 Hc1 [Hk1 _] (Hw1 & _ & Hl1 & _)] [Hi2 Hc2 [Hk2 _] (Hw2 & _ & Hl2 & _)].
  unfold push_member. rewrite <- !app_assoc. intros Heq. unfold MAX_LABEL_BYTES, len in *.
  apply be_bytes_app_inj in Heq as [Hi Heq]; [|byte_range..].
  apply byte_app_inj in Heq as [Hc Heq].
  apply app_fixed_inj in Heq as [Hk Heq]; [|lia].
  apply push_text_inj in Heq as [Hid ->]; [|done|done|lia..]. split; [|done].
  destruct m1 as [? ? [] ?], m2 as [? ? [] ?]; simpl in *; congruence.
Qed.
Lemma push_members_inj ms1 ms2 : Forall member_ok ms1 -> Forall member_ok ms2 ->
  length ms1 = length ms2 -> concat (push_member <$> ms1) = concat (push_member <$> ms2) -> ms1 = ms2.
Proof.
  intros H1; revert ms2; induction H1 as [|m1 ms1 Hm1 _ IH]; intros [|m2 ms2] H2 Hlen Heq; try done.
  apply Forall_cons in H2 as [Hm2 H2]. rewrite !fmap_cons in Heq. cbn [concat] in Heq.
  apply push_member_inj in Heq as [-> Heq]; [|done..]. f_equal. apply IH; [done| |done].
  simpl in Hlen. lia.
Qed.

(** What is signed. *)
Definition signed_part (m : Manifest.t) :=
  (Manifest.epoch m, Manifest.valid_from m, Manifest.valid_until m, Manifest.group_key_id m,
   Manifest.byzantine_bps m, Manifest.max_competence_ratio m, Manifest.phy_profile m,
   Manifest.heard_capacity m, Manifest.members m).

Lemma canonical_inj m1 m2 : manifest_ok m1 -> manifest_ok m2 ->
  Manifest.canonical_bytes m1 = Manifest.canonical_bytes m2 -> signed_part m1 = signed_part m2.
Proof.
  intros [He1 Hf1 Hu1 _ [Hg1 _] Hb1 Hr1 Hp1 Hc1 Hm1 Hs1 _ _ _] [He2 Hf2 Hu2 _ [Hg2 _] Hb2 Hr2 Hp2 Hc2 Hm2 Hs2 _ _ _].
  unfold Manifest.canonical_bytes, canonical. unfold len, Heard.CAPACITY in *. intros Heq.
  apply app_fixed_inj in Heq as [_ Heq]; [|done]. apply byte_app_inj in Heq as [_ Heq].
  apply be_bytes_app_inj in Heq as [Hep Heq]; [|byte_range..].
  apply be_bytes_app_inj in Heq as [Hfr Heq]; [|byte_range..].
  apply be_bytes_app_inj in Heq as [Hun Heq]; [|byte_range..].
  apply app_fixed_inj in Heq as [Hgr Heq]; [|lia].
  apply be_bytes_app_inj in Heq as [Hbp Heq]; [|byte_range..].
  apply be_bytes_app_inj in Heq as [Hra Heq]; [|byte_range..].
  rewrite Hp1, Hp2, Hc1, Hc2 in Heq. apply app_inv_head in Heq. apply app_inv_head in Heq.
  rewrite !Z.mod_small in Heq by lia.
  apply be_bytes_app_inj in Heq as [Hlen Heq]; [|byte_range..].
  apply push_members_inj in Heq; [|done|done|lia]. unfold signed_part. congruence.
Qed.
End canonical.

(** * The parser's invariant *)

Definition opt_all {A} (P : A -> Prop) (o : option A) : Prop := forall a, o = Some a -> P a.

Record parts_ok (p : Parts.t) : Prop := {
  po_epoch : opt_all is_u16 (Parts.epoch p);
  po_from : opt_all is_u64 (Parts.valid_from p);
  po_until : opt_all is_u64 (Parts.valid_until p);
  po_group : opt_all (fun bs => len bs = 32 /\ wf_bytes bs) (Parts.group_key_id p);
  po_bps : opt_all is_u32 (Parts.byzantine_bps p);
  po_ratio : opt_all is_u32 (Parts.max_competence_ratio p);
  po_phy : opt_all (eq (PhyProfile.name PhyProfile.eu868_sf10)) (Parts.phy_profile p);
  po_capacity : opt_all (eq Heard.CAPACITY) (Parts.heard_capacity p);
  po_members : Forall member_ok (Parts.members p);
  po_indices : NoDup (Member.index <$> Parts.members p);
  po_ids : NoDup (Member.id <$> Parts.members p);
  po_keys : NoDup (Member.key <$> Parts.members p);
}.

Section parser.
Context `{Ed25519}.

Lemma number_u max words line field v : max <= U64_MAX -> number max words line field = Ok v -> 0 <= v <= max.
Proof.
  intros Hm (w & _ & Hn)%result_bind_ok. by apply canonical_number_iff in Hn as [? _].
Qed.
Lemma bounded_u16 words line field v : bounded words line field = Ok v -> is_u16 v.
Proof.
  intros (w & Hn & Hv)%result_bind_ok. apply number_u in Hn; [|vm_compute; discriminate].
  destruct (Z.leb_spec w U16_MAX); simplify_eq. width. lia.
Qed.
Lemma hex_word_ok n words line field bs : 0 <= n -> Forall wf_str words ->
  hex_word n words line field = Ok bs -> len bs = n /\ wf_bytes bs.
Proof.
  intros Hn Hw (w & Hone & Hh)%result_bind_ok. destruct words as [|w' [|? ?]]; try done.
  injection Hone as ->. apply Forall_cons in Hw as [Hw _].
  apply hex_bytes_iff in Hh as (_ & ? & ?); [done|done|done].
Qed.
Lemma check_label_ok id line u : check_label id line = Ok u ->
  id <> [] /\ str_len id <= MAX_LABEL_BYTES /\ forallb label_byte (as_bytes id) = true.
Proof.
  unfold check_label. destruct (Z.ltb_spec MAX_LABEL_BYTES (str_len id)); [done|].
  case_bool_decide; [done|]. destruct (forallb _ _); [|done]. done.
Qed.
Lemma existsb_not_in {A B} `{EqDecision B} (f : A -> B) (l : list A) b :
  existsb (fun x => bool_decide (f x = b)) l = false -> b ∉ f <$> l.
Proof.
  intros He (x & -> & Hin)%list_elem_of_fmap. apply Bool.not_true_iff_false in He. apply He.
  apply existsb_exists. exists x. split; [by apply list_elem_of_In|by apply bool_decide_eq_true].
Qed.
Lemma nodup_snoc {A} (l : list A) a : NoDup l -> a ∉ l -> NoDup (l ++ [a]).
Proof.
  intros Hl Ha. apply NoDup_app. split_and!; [done| |by apply NoDup_singleton].
  intros x Hx ->%list_elem_of_singleton. done.
Qed.

Lemma add_member_ok p words line p' : Forall wf_str words -> parts_ok p ->
  Parts.add_member p words line = Ok p' -> parts_ok p'.
Proof.
  intros Hw Hp. unfold Parts.add_member.
  destruct words as [|wi [|wc [|wk [|id [|? ?]]]]]; try done.
  rewrite !Forall_cons in Hw. destruct Hw as (_ & _ & Hwk & Hwid & _).
  intros (i & Hi & (c & Hc & (bs & Hbs & (k & Hk & (u & Hl & Hrest)%result_bind_ok)%result_bind_ok)%result_bind_ok)%result_bind_ok)%result_bind_ok.
  apply canonical_number_iff in Hi as [Hi _]; [|vm_compute; discriminate].
  apply canonical_number_iff in Hc as [Hc _]; [|vm_compute; discriminate].
  apply hex_bytes_iff in Hbs as (_ & Hbw & Hbl); [|done|done].
  apply check_label_ok in Hl as (Hne & Hlen & Hset).
  assert (k = VerifyingKey.mk bs) as ->.
  { unfold VerifyingKey.from_bytes in Hk. destruct (ed_is_point bs); simpl in Hk; congruence. }
  destruct (existsb (fun held => Member.index held =? i) _) eqn:Hdi; [done|].
  destruct (existsb (fun held => bool_decide (Member.id held = id)) _) eqn:Hdn; [done|].
  destruct (existsb (fun held => bool_decide (Member.key held = VerifyingKey.mk bs)) _) eqn:Hdk; [done|].
  injection Hrest as <-. destruct Hp as [? ? ? ? ? ? ? ? Hms Hni Hnn Hnk].
  split; try done; simpl.
  - apply Forall_app. split; [done|]. constructor; [|constructor]. split; simpl.
    + width; lia.
    + width; lia.
    + done.
    + done.
  - rewrite fmap_app. apply nodup_snoc; [done|].
    intros (x & Hx & Hin)%list_elem_of_fmap. apply Bool.not_true_iff_false in Hdi. apply Hdi.
    apply existsb_exists. exists x. split; [by apply list_elem_of_In|]. apply Z.eqb_eq. symmetry. exact Hx.
  - rewrite fmap_app. apply nodup_snoc; [done|by apply existsb_not_in].
  - rewrite fmap_app. apply nodup_snoc; [done|by apply existsb_not_in].
Qed.

Lemma apply_parts_ok p directive words line p' : Forall wf_str words -> parts_ok p ->
  Parts.apply p directive words line = Ok p' -> parts_ok p'.
Proof.
  intros Hw Hp. unfold Parts.apply.
  assert (U16_MAX <= U64_MAX /\ U32_MAX <= U64_MAX /\ U64_MAX <= U64_MAX) as (Hm16 & Hm32 & Hm64) by (width; lia).
  repeat (match goal with |- (if ?b then _ else _) = _ -> _ => destruct b end);
    try (intros; eapply add_member_ok; eassumption); try done;
    intros Ha; repeat (apply result_bind_ok in Ha as (? & ? & Ha));
    repeat (match goal with H : (if negb ?b then _ else _) = _ |- _ => destruct b eqn:?; simpl in H; [|done] end);
    simplify_eq; destruct Hp; split; try done; simpl; intros ? [= <-];
    repeat (match goal with
            | H : number _ _ _ _ = Ok _ |- _ => apply number_u in H; [|done]
            | H : bounded _ _ _ = Ok _ |- _ => apply bounded_u16 in H
            | H : hex_word _ _ _ _ = Ok _ |- _ => apply hex_word_ok in H; [|done|done]
            | H : bool_decide _ = true |- _ => apply bool_decide_eq_true in H
            | H : (_ =? _) = true |- _ => apply Z.eqb_eq in H
            end); try done; width; lia.
Qed.
End parser.

(** * The words of a text *)

Section words.
Lemma wf_before_hash l : wf_str l -> wf_str (before_hash l).
Proof. induction 1 as [|c l Hc _ IH]; simpl; [constructor|]. destruct (c =? 35); by constructor. Qed.
Lemma wf_split_words l w : wf_str l -> wf_str w -> Forall wf_str (split_words l w).
Proof.
  intros Hl; revert w; induction Hl as [|c l Hc _ IH]; intros w Hw; cbn [split_words].
  - case_bool_decide; [constructor|by apply Forall_singleton].
  - destruct (Hand.is_whitespace c).
    + apply Forall_app. split; [|apply IH; constructor]. case_bool_decide; [constructor|by apply Forall_singleton].
    + apply IH. apply Forall_app. split; [done|by apply Forall_singleton].
Qed.
Lemma wf_words_of raw : wf_str raw -> Forall wf_str (words_of raw).
Proof. intros Hr. apply wf_split_words; [by apply wf_before_hash|constructor]. Qed.
Lemma wf_split_inclusive s : wf_str s -> Forall (fun p => wf_str p.1) (split_inclusive s).
Proof.
  induction 1 as [|c s Hc _ IH]; cbn [split_inclusive]; [constructor|].
  destruct (c =? 10); [by constructor; [constructor|]|]. destruct (split_inclusive s) as [|[l nl] rest].
  - apply Forall_singleton. by apply Forall_singleton.
  - apply Forall_cons in IH as [Hl Hr]. constructor; [by constructor|done].
Qed.
Lemma wf_strip_cr l : wf_str l -> wf_str (strip_cr l).
Proof.
  intros Hl. unfold strip_cr. destruct (reverse l) as [|c r] eqn:Hr; [done|]. destruct (c =? 13); [|done].
  apply Forall_reverse in Hl. rewrite Hr in Hl. apply Forall_cons in Hl as [_ Hl].
  by apply Forall_reverse.
Qed.
Lemma wf_lines s : wf_str s -> Forall wf_str (lines s).
Proof.
  intros Hs%wf_split_inclusive. unfold lines. apply Forall_fmap. eapply Forall_impl; [exact Hs|].
  intros [l []]; simpl; [apply wf_strip_cr|done].
Qed.
End words.

Section parse.
Context `{Ed25519}.

Lemma read_line_ok p raw line p' : wf_str raw -> parts_ok p ->
  Parts.read_line p raw line = Ok p' -> parts_ok p'.
Proof.
  intros Hw Hp. unfold Parts.read_line. pose proof (wf_words_of raw Hw) as Hws.
  destruct (words_of raw) as [|d words]; [by intros [= <-]|]. apply Forall_cons in Hws as [_ Hws].
  intros (_ & _ & Ha)%result_bind_ok. by eapply apply_parts_ok.
Qed.
Lemma read_lines_ok p raws line p' : Forall wf_str raws -> parts_ok p ->
  Parts.read_lines p raws line = Ok p' -> parts_ok p'.
Proof.
  intros Hw; revert p line; induction Hw as [|raw raws Hr _ IH]; intros p line Hp; cbn [Parts.read_lines].
  { by intros [= <-]. }
  intros (p1 & H1 & H2)%result_bind_ok. eapply IH; [|exact H2]. by eapply read_line_ok.
Qed.
Lemma empty_ok : parts_ok Parts.empty.
Proof. split; try (intros ? ?; done); try constructor. Qed.
Lemma read_ok text want p : wf_str text -> Parts.read text want = Ok p -> parts_ok p.
Proof.
  intros Hw (p' & Hr & Hrest)%result_bind_ok.
  assert (p' = p) as -> by (repeat case_match; simplify_eq; done).
  eapply read_lines_ok; [by apply wf_lines|apply empty_ok|exact Hr].
Qed.

Lemma contiguous_spec ms k size u : Parts.contiguous ms k size = Ok u <-> Member.index <$> ms = seqZ k (len ms).
Proof.
  destruct u. revert k; induction ms as [|m ms IH]; intros k; cbn [Parts.contiguous].
  { unfold len. simpl. split; done. }
  assert (len (m :: ms) = Z.succ (len ms)) as -> by (unfold len; rewrite length_cons; lia).
  rewrite seqZ_cons, Z.pred_succ by (unfold len; lia). rewrite fmap_cons.
  destruct (Z.eqb_spec (Member.index m) k) as [->|Hne]; simpl.
  - rewrite IH. rewrite Z.add_1_r. split; [by intros ->|by intros [=]].
  - split; [done|]. intros [=]; done.
Qed.
Lemma all_present_ok l u : Parts.all_present l = Ok u <-> Forall (fun x => x.1 = true) l.
Proof.
  destruct u. induction l as [|[held d] l IH]; cbn [Parts.all_present]; [by split; [constructor|]|].
  rewrite Forall_cons. simpl. destruct held; [|by split; [|intros []]]. rewrite IH. by split; [|intros []].
Qed.
End parse.

Section settle.
Context `{Ed25519}.

Lemma settle_ok p p' : Parts.settle p = Ok p' ->
  Forall (fun x => x.1 = true) (Parts.required p)
  /\ default 0 (Parts.valid_from p) < default 0 (Parts.valid_until p)
  /\ 1 <= len (Parts.members p) <= Heard.CAPACITY
  /\ p' = Parts.set_members p (Parts.by_index (Parts.members p))
  /\ Member.index <$> Parts.members p' = seqZ 0 (len (Parts.members p')).
Proof.
  intros (u & Hreq%all_present_ok & Hs)%result_bind_ok. cbv zeta in Hs.
  destruct (Z.leb_spec (default 0 (Parts.valid_until p)) (default 0 (Parts.valid_from p))); [done|].
  case_bool_decide as Hne; [done|].
  destruct (Z.ltb_spec Heard.CAPACITY (len (Parts.members p))); [done|].
  apply result_bind_ok in Hs as (u' & Hc%contiguous_spec & [= <-]).
  split_and!; try done. unfold len. destruct (Parts.members p) eqn:Hm; [by destruct Hne|].
  rewrite length_cons. lia.
Qed.
Lemma by_index_perm ms : Parts.by_index ms ≡ₚ ms.
Proof. apply merge_sort_Permutation. Qed.

Lemma finish_ok p m : parts_ok p -> Parts.finish p = Ok m ->
  manifest_ok m /\ exists pol, Manifest.policy m = Ok pol /\ policy_wf pol.
Proof.
  intros Hp (p' & Hs & (pol & Hpol & [= <-])%result_bind_ok)%result_bind_ok.
  apply settle_ok in Hs as (Hreq & Hwin & Hsize & -> & Hidx).
  pose proof (by_index_perm (Parts.members p)) as Hperm.
  destruct Hp as [Hep Hfr Hun Hgr Hbp Hra Hph Hca Hms Hni Hnn Hnk].
  unfold Parts.required in Hreq. rewrite !Forall_cons in Hreq. simpl in Hreq.
  destruct Hreq as (H1 & H2 & H3 & H4 & H5 & H6 & H7 & H8 & _).
  unfold Parts.is_some, opt_all in *. destruct p as [ver ep fr un gr bp ra ph ca ms iss sg].
  cbn [Parts.epoch Parts.valid_from Parts.valid_until Parts.group_key_id Parts.byzantine_bps
    Parts.max_competence_ratio Parts.phy_profile Parts.heard_capacity Parts.members Parts.set_members
    Parts.version Parts.issuer Parts.signature] in *.
  destruct ep, fr, un, gr, bp, ra, ph, ca; try done. clear H1 H2 H3 H4 H5 H6 H7 H8.
  assert (Forall member_ok (Parts.by_index ms)) as Hms' by by rewrite Hperm.
  assert (len (Parts.by_index ms) = len ms) as Hlen by (unfold len; by rewrite Hperm).
  split.
  - split; cbn [Parts.set_members Parts.manifest_of Manifest.epoch Manifest.valid_from Manifest.valid_until
      Manifest.group_key_id Manifest.byzantine_bps Manifest.max_competence_ratio Manifest.phy_profile
      Manifest.heard_capacity Manifest.members default Parts.epoch Parts.valid_from Parts.valid_until
      Parts.group_key_id Parts.byzantine_bps Parts.max_competence_ratio Parts.phy_profile
      Parts.heard_capacity Parts.members]; auto; try (symmetry; auto).
    + by rewrite Hlen.
    + by rewrite Hperm.
    + by rewrite Hperm.
  - unfold map_err in Hpol. destruct (Manifest.policy _) as [pol'|] eqn:Hpe; [|done].
    injection Hpol as ->. exists pol. split; [done|].
    eapply with_settings_wf; [|exact Hpe]. apply Forall_fmap. cbn [Parts.set_members Parts.manifest_of Manifest.members Parts.members].
    eapply Forall_impl; [exact Hms'|]. intros x [_ Hc _ _]. simpl. width. lia.
Qed.
Lemma parse_ok (text : str) (m : Manifest.t) : wf_str text -> parse text = Ok m ->
  manifest_ok m /\ exists pol, Manifest.policy m = Ok pol /\ policy_wf pol.
Proof.
  intros Hw Hp. apply result_bind_ok in Hp as (p & Hr & Hf). apply read_ok in Hr; [|done].
  by eapply finish_ok.
Qed.
End settle.

(** * Properties *)

(** C24: a manifest that parses is a lawful fleet: every field in range, the window
    open, one to sixty-four members whose indices are exactly [0..n], no key and
    no label twice, and a policy the domain accepts. *)
Theorem parse_yields_lawful_fleet `{Ed25519} (text : str) (m : Manifest.t) :
  wf_str text -> parse text = Ok m ->
  manifest_ok m /\ exists pol, Manifest.policy m = Ok pol /\ policy_wf pol.
Proof. apply parse_ok. Qed.

(** A manifest is good for one key and one half-open window: verification
    succeeds exactly when the canonical bytes carry that key's signature and the
    clock is in the window, and a bad signature is reported before either end. *)
Theorem verify_is_the_window `{Ed25519} (m : Manifest.t) (admin : VerifyingKey.t) (now : Z) :
  let signed := ed_verify (VerifyingKey.point admin) (Manifest.canonical_bytes m) (Manifest.signature m) in
  (Manifest.verify m admin now = Ok tt <->
     signed = true /\ Manifest.valid_from m <= now < Manifest.valid_until m)
  /\ (Manifest.verify m admin now = Err BadManifestSignature <-> signed = false)
  /\ (forall from n, Manifest.verify m admin now = Err (NotYetValid from n) <->
        signed = true /\ now < Manifest.valid_from m /\ from = Manifest.valid_from m /\ n = now)
  /\ (forall until n, Manifest.verify m admin now = Err (Expired until n) <->
        signed = true /\ Manifest.valid_from m <= now /\ Manifest.valid_until m <= now
        /\ until = Manifest.valid_until m /\ n = now).
Proof.
  intros signed. unfold Manifest.verify, VerifyingKey.verify. fold signed.
  destruct signed; simpl; [|split_and!; naive_solver].
  destruct (Z.ltb_spec now (Manifest.valid_from m)), (Z.leb_spec (Manifest.valid_until m) now);
    split_and!; naive_solver lia.
Qed.

(** Two manifests that parse and have one identity say the same thing about the
    epoch, the window, the key, the policy and every member, short of a collision
    of the digest; and one signature covers no two of them. *)
Theorem digest_is_identity `{Digest, Ed25519} (t1 t2 : str) (m1 m2 : Manifest.t) :
  wf_str t1 -> wf_str t2 -> parse t1 = Ok m1 -> parse t2 = Ok m2 ->
  (Manifest.digest m1 = Manifest.digest m2 -> signed_part m1 = signed_part m2 \/ collision)
  /\ (Manifest.canonical_bytes m1 = Manifest.canonical_bytes m2 <-> signed_part m1 = signed_part m2).
Proof.
  intros Hw1 Hw2 Hp1 Hp2. apply parse_ok in Hp1 as [Hm1 _]; [|done]. apply parse_ok in Hp2 as [Hm2 _]; [|done].
  split.
  - intros Heq. destruct (decide (Manifest.canonical_bytes m1 = Manifest.canonical_bytes m2)) as [Hc|Hc].
    + left. by apply canonical_inj.
    + right. by exists (Manifest.canonical_bytes m1), (Manifest.canonical_bytes m2).
  - split; [by apply canonical_inj|]. unfold signed_part. intros Heq. simplify_eq.
    unfold Manifest.canonical_bytes. congruence.
Qed.
