(* ===== verification/ManifestSign.v ===== *)
(** Signing a manifest (src/src/application/manifest.rs, [sign_text]): what an
    administrator's tool writes is what a vessel reads back and verifies. *)
From S2P Require Import Prelude Time Quorum Crypto Codec Hand Radio Manifest ManifestFields ManifestProofs.

(** * Lines and words *)

Section text.
Lemma lines_cons r s : 10 ∉ r -> lines (r ++ 10 :: s) = strip_cr r :: lines s.
Proof.
  intros Hr. unfold lines.
  assert (split_inclusive (r ++ 10 :: s) = (r, true) :: split_inclusive s) as ->; [|done].
  induction r as [|c r IH]; [done|]. cbn [app split_inclusive].
  destruct (Z.eqb_spec c 10) as [->|]; [destruct Hr; by left|].
  rewrite IH; [done|]. intros Hin. apply Hr. by right.
Qed.
Lemma lines_no_newline s : Forall (fun r => 10 ∉ r) (lines s).
Proof.
  assert (Forall (fun p : str * bool => 10 ∉ p.1) (split_inclusive s)) as Hs.
  { induction s as [|c s IH]; cbn [split_inclusive]; [constructor|].
    destruct (Z.eqb_spec c 10); [constructor; [apply not_elem_of_nil|done]|].
    destruct (split_inclusive s) as [|[l nl] rest].
    - apply Forall_singleton. simpl. by intros ?%list_elem_of_singleton.
    - apply Forall_cons in IH as [Hl Hr]. constructor; [|done]. simpl in *.
      by intros [?|?]%elem_of_cons. }
  unfold lines. apply Forall_fmap. eapply Forall_impl; [exact Hs|]. intros [l []]; simpl; [|done].
  intros Hl Hin. apply Hl. unfold strip_cr in Hin. destruct (reverse l) as [|c r] eqn:Hr; [done|].
  destruct (c =? 13); [|done]. apply (f_equal reverse) in Hr. rewrite reverse_involutive in Hr.
  rewrite Hr, reverse_cons. apply elem_of_app. by left.
Qed.
Lemma lines_concat (rs : list str) s : Forall (fun r => 10 ∉ r) rs ->
  lines (concat ((fun raw => raw ++ [10]) <$> rs) ++ s) = (strip_cr <$> rs) ++ lines s.
Proof.
  induction 1 as [|r rs Hr _ IH]; [done|]. rewrite !fmap_cons. cbn [concat].
  rewrite <- !app_assoc. cbn [app]. rewrite lines_cons by done. by rewrite IH.
Qed.

Lemma split_words_cr l w : split_words (l ++ [13]) w = split_words l w.
Proof.
  revert w; induction l as [|c l IH]; intros w; cbn [app split_words].
  - change (Hand.is_whitespace 13) with true. cbn [split_words].
    case_bool_decide; [done|]. by rewrite app_nil_r.
  - destruct (Hand.is_whitespace c); by rewrite IH.
Qed.
Lemma words_of_cr r : words_of (r ++ [13]) = words_of r.
Proof.
  unfold words_of, split_whitespace.
  assert (before_hash (r ++ [13]) = before_hash r \/ before_hash (r ++ [13]) = before_hash r ++ [13])
    as [->| ->]; [|done|apply split_words_cr].
  induction r as [|c r IH]; [by right|]. cbn [app before_hash]. destruct (c =? 35); [by left|].
  destruct IH as [->| ->]; [by left|by right].
Qed.
Lemma words_of_strip_cr r : words_of (strip_cr r) = words_of r.
Proof.
  unfold strip_cr. destruct (reverse r) as [|c q] eqn:Hr; [done|]. destruct (Z.eqb_spec c 13) as [->|]; [|done].
  apply (f_equal reverse) in Hr. rewrite reverse_involutive, reverse_cons in Hr. rewrite Hr.
  by rewrite words_of_cr.
Qed.

(** A character that is part of a word. *)
Definition plain (c : char) : Prop := Hand.is_whitespace c = false /\ c <> 35.
Lemma split_words_plain l w rest : Forall plain l ->
  split_words (l ++ rest) w = split_words rest (w ++ l).
Proof.
  intros Hl; revert w; induction Hl as [|c l [Hc _] _ IH]; intros w; [by rewrite app_nil_r|].
  cbn [app split_words]. rewrite Hc, IH. by rewrite <- app_assoc.
Qed.
Lemma before_hash_plain l rest : Forall (fun c => c <> 35) l -> before_hash (l ++ rest) = l ++ before_hash rest.
Proof.
  induction 1 as [|c l Hc _ IH]; [done|]. cbn [app before_hash].
  destruct (Z.eqb_spec c 35); [done|]. by rewrite IH.
Qed.
Lemma words_of_two d w : Forall plain d -> Forall plain w -> d <> [] -> w <> [] ->
  words_of (d ++ [32] ++ w) = [d; w].
Proof.
  intros Hd Hw Hdn Hwn. unfold words_of, split_whitespace.
  assert (Forall (fun c => c <> 35) d /\ Forall (fun c => c <> 35) w) as [Hd' Hw'].
  { split; (eapply Forall_impl; [eassumption|]); by intros ? []. }
  pose proof (before_hash_plain w [] Hw') as Hbw. rewrite !app_nil_r in Hbw.
  pose proof (fun a => split_words_plain w a [] Hw) as Hsw. rewrite app_nil_r in Hsw.
  rewrite before_hash_plain by done. cbn [app before_hash]. change (32 =? 35) with false. cbn iota.
  rewrite Hbw, split_words_plain by done. cbn [app split_words].
  change (Hand.is_whitespace 32) with true. cbn iota. rewrite bool_decide_eq_false_2 by done.
  rewrite Hsw. cbn [app split_words]. by rewrite bool_decide_eq_false_2.
Qed.
Lemma plain_hex bs : wf_bytes bs -> Forall plain (hex bs).
Proof.
  intros Hb. eapply Forall_impl; [by apply hex_range|]. simpl. intros c Hc. split; [|lia].
  unfold Hand.is_whitespace. repeat rewrite orb_false_iff. rewrite !andb_false_iff, !Z.eqb_neq, !Z.leb_gt. lia.
Qed.
Lemma plain_alphabet s : 0 <= s < 32 -> plain (nth (Z.to_nat s) ALPHABET 0).
Proof.
  intros Hs. assert (Forall (fun s => Hand.is_whitespace (nth (Z.to_nat s) ALPHABET 0) = false
    /\ nth (Z.to_nat s) ALPHABET 0 <> 35) (seqZ 0 32)) as Hall.
  { apply (bool_decide_unpack _). vm_compute. exact I. }
  rewrite Forall_forall in Hall. apply Hall, elem_of_seqZ. lia.
Qed.
Lemma plain_write i ss : Forall (fun s => 0 <= s < 32) ss -> Forall plain (Hand.write_from i ss).
Proof.
  intros Hs; revert i; induction Hs as [|s ss Hs _ IH]; intros i; cbn [Hand.write_from]; [constructor|].
  apply Forall_app. split.
  - destruct (_ && _); [|constructor]. by apply Forall_singleton.
  - apply Forall_app. split; [|apply IH]. apply Forall_singleton. by apply plain_alphabet.
Qed.
Lemma plain_fingerprint `{Digest} key : Forall plain (Hand.fingerprint key) /\ Hand.fingerprint key <> [].
Proof.
  split.
  - apply plain_write, Forall_fmap, Forall_true. intros i. apply symbol_at_range.
  - unfold Hand.fingerprint, Hand.write. cbn [fmap list_fmap seq FINGERPRINT_SYMBOLS]. done.
Qed.
End text.

(** * Line numbers matter to errors only *)

Section line_numbers.
Context `{Ed25519}.

Lemma once_line held n m d u : once held n d = Ok u -> once held m d = Ok u.
Proof. unfold once. by destruct held. Qed.
Lemma one_word_line ws n m e v : one_word ws n e = Ok v -> one_word ws m e = Ok v.
Proof. unfold one_word. by repeat case_match. Qed.
Lemma canonical_number_line mx w n m f v :
  canonical_number mx w n f = Ok v -> canonical_number mx w m f = Ok v.
Proof.
  unfold canonical_number. destruct (_ || _); [done|]. destruct (_ && starts_with 48 w); [done|].
  by destruct (parse_uint mx w).
Qed.
Lemma number_line mx ws n m f v : number mx ws n f = Ok v -> number mx ws m f = Ok v.
Proof.
  intros (w & Hw & Hn)%result_bind_ok. apply result_bind_ok. exists w.
  split; [by eapply one_word_line|by eapply canonical_number_line].
Qed.
Lemma bounded_line ws n m f v : bounded ws n f = Ok v -> bounded ws m f = Ok v.
Proof.
  intros (w & Hw & Hn)%result_bind_ok. apply result_bind_ok. exists w.
  split; [by eapply number_line|]. by destruct (w <=? U16_MAX).
Qed.
Lemma hex_bytes_line k w n m f v : hex_bytes k w n f = Ok v -> hex_bytes k w m f = Ok v.
Proof. unfold hex_bytes. destruct (negb _); [done|]. by destruct (hex_pairs _). Qed.
Lemma hex_word_line k ws n m f v : hex_word k ws n f = Ok v -> hex_word k ws m f = Ok v.
Proof.
  intros (w & Hw & Hn)%result_bind_ok. apply result_bind_ok. exists w.
  split; [by eapply one_word_line|by eapply hex_bytes_line].
Qed.
Lemma check_label_line id n m u : check_label id n = Ok u -> check_label id m = Ok u.
Proof. unfold check_label. destruct (_ <? _); [done|]. by destruct (_ || _). Qed.

(** * Without the issuer and the signature *)

Definition strip (p : Parts.t) : Parts.t := Parts.set_signature (Parts.set_issuer p None) None.

Lemma add_member_strip p ws n m q : Parts.add_member p ws n = Ok q ->
  Parts.add_member (strip p) ws m = Ok (strip q).
Proof.
  unfold Parts.add_member. destruct ws as [|wi [|wc [|wk [|id [|? ?]]]]]; try done.
  intros (i & Hi & (c & Hc & (bs & Hbs & (k & Hk & (u & Hl & Hrest)%result_bind_ok)%result_bind_ok)%result_bind_ok)%result_bind_ok)%result_bind_ok.
  rewrite (canonical_number_line _ _ _ m _ _ Hi). cbn [mbind result_bind].
  rewrite (canonical_number_line _ _ _ m _ _ Hc). cbn [mbind result_bind].
  rewrite (hex_bytes_line _ _ _ m _ _ Hbs). cbn [mbind result_bind].
  destruct (VerifyingKey.from_bytes bs); [|done]. simpl in Hk. injection Hk as ->.
  cbn [map_err mbind result_bind]. rewrite (check_label_line _ _ m _ Hl). cbn [mbind result_bind].
  cbn [strip Parts.set_signature Parts.set_issuer Parts.members].
  destruct (existsb _ _); [done|]. destruct (existsb _ _); [done|]. destruct (existsb _ _); [done|].
  injection Hrest as <-. done.
Qed.

Lemma add_member_signature p ws n q : Parts.add_member p ws n = Ok q ->
  Parts.signature q = Parts.signature p.
Proof.
  unfold Parts.add_member. destruct ws as [|wi [|wc [|wk [|id [|? ?]]]]]; try done.
  intros Ha. repeat (apply result_bind_ok in Ha as (? & _ & Ha)).
  destruct (existsb _ _); [done|]. destruct (existsb _ _); [done|]. destruct (existsb _ _); [done|].
  by injection Ha as <-.
Qed.

Definition signing_word (d : str) : bool := bool_decide (d = lit "issuer") || bool_decide (d = lit "signature").

Lemma apply_strip p d ws n m q : signing_word d = false -> Parts.apply p d ws n = Ok q ->
  Parts.apply (strip p) d ws m = Ok (strip q) /\ Parts.signature q = Parts.signature p.
Proof.
  intros Hd. apply orb_false_iff in Hd as [Hi Hs]. unfold Parts.apply, Parts.word_is. rewrite Hi, Hs.
  repeat match goal with |- (if bool_decide ?b then _ else _) = _ -> _ => destruct (bool_decide b) end;
    try done.
  10: { intros Ha. split; [by eapply add_member_strip|].
        by eapply add_member_signature. }
  all: intros Ha; repeat (apply result_bind_ok in Ha as (? & ? & Ha)).
  all: split;
    [|repeat (match goal with H : (if negb ?b then _ else _) = _ |- _ => destruct b; simpl in H; [|done] end);
      by simplify_eq].
  all: cbn [strip Parts.set_signature Parts.set_issuer Parts.version Parts.epoch Parts.valid_from
    Parts.valid_until Parts.group_key_id Parts.byzantine_bps Parts.max_competence_ratio
    Parts.phy_profile Parts.heard_capacity].
  all: repeat match goal with
         | H : once _ _ _ = Ok _ |- _ => apply (once_line _ _ m) in H; rewrite H; clear H; cbn [mbind result_bind]
         | H : number _ _ _ _ = Ok _ |- _ => apply (number_line _ _ _ m) in H; rewrite H; clear H; cbn [mbind result_bind]
         | H : bounded _ _ _ = Ok _ |- _ => apply (bounded_line _ _ m) in H; rewrite H; clear H; cbn [mbind result_bind]
         | H : hex_word _ _ _ _ = Ok _ |- _ => apply (hex_word_line _ _ _ m) in H; rewrite H; clear H; cbn [mbind result_bind]
         | H : one_word _ _ _ = Ok _ |- _ => apply (one_word_line _ _ m) in H; rewrite H; clear H; cbn [mbind result_bind]
         end.
  all: repeat (match goal with H : (if negb ?b then _ else _) = _ |- _ => destruct b; simpl in H; [|done] end).
  all: by simplify_eq.
Qed.
End line_numbers.

Section signing.
Context `{Ed25519}.

Lemma in_order_strip p d n m u : Parts.in_order p d n = Ok u -> Parts.in_order (strip p) d m = Ok u.
Proof.
  unfold Parts.in_order. destruct (Parts.is_some (Parts.signature p)); [done|].
  cbn [strip Parts.set_signature Parts.set_issuer Parts.signature Parts.members Parts.version Parts.is_some].
  destruct (_ && _); [|done]. destruct (negb (bool_decide _)); [done|]. by destruct (_ && _).
Qed.
Lemma signing_line_word raw d ws : words_of raw = d :: ws -> signing_line raw = signing_word d.
Proof. intros Hw. unfold signing_line, first_word. by rewrite Hw. Qed.
Lemma read_line_strip p raw n m q : Parts.read_line p raw n = Ok q ->
  if signing_line raw then strip q = strip p
  else Parts.read_line (strip p) (strip_cr raw) m = Ok (strip q).
Proof.
  unfold Parts.read_line. rewrite words_of_strip_cr. destruct (words_of raw) as [|d ws] eqn:Hw.
  { assert (signing_line raw = false) as ->.
    { unfold signing_line, first_word. by rewrite Hw. }
    by intros [= <-]. }
  rewrite (signing_line_word raw d ws Hw). intros (u & Ho & Ha)%result_bind_ok.
  destruct (signing_word d) eqn:Hd.
  - unfold signing_word in Hd. apply orb_true_iff in Hd as [Hd|Hd]; apply bool_decide_eq_true in Hd as ->;
      unfold Parts.apply, Parts.word_is in Ha;
      repeat match type of Ha with
        | (if bool_decide (?a = ?b) then _ else _) = _ =>
            first [rewrite (bool_decide_eq_false_2 (a = b)) in Ha by (vm_compute; discriminate)
                  |rewrite (bool_decide_eq_true_2 (a = b)) in Ha by done]
        end; repeat (apply result_bind_ok in Ha as (? & _ & Ha)); by injection Ha as <-.
  - rewrite (in_order_strip _ _ _ m _ Ho). cbn [mbind result_bind]. by eapply apply_strip.
Qed.
Lemma read_lines_strip p raws n m q : Parts.read_lines p raws n = Ok q ->
  Parts.read_lines (strip p) (strip_cr <$> filter (fun raw => signing_line raw = false) raws) m = Ok (strip q).
Proof.
  revert p n m; induction raws as [|raw raws IH]; intros p n m; cbn [Parts.read_lines].
  { by intros [= <-]. }
  intros (p1 & H1 & H2)%result_bind_ok. apply (read_line_strip _ _ _ m) in H1.
  rewrite filter_cons. destruct (signing_line raw); case_decide; try done.
  - rewrite <- H1. by eapply IH.
  - rewrite fmap_cons. cbn [Parts.read_lines]. rewrite H1. cbn [mbind result_bind]. by eapply IH.
Qed.
Lemma read_lines_app p a b n : Parts.read_lines p (a ++ b) n
  = (p' ← Parts.read_lines p a n; Parts.read_lines p' b (n + len a)).
Proof.
  revert p n; induction a as [|raw a IH]; intros p n; cbn [app Parts.read_lines].
  { simpl. f_equal. unfold len. simpl. lia. }
  destruct (Parts.read_line p raw n) as [p1|e]; [|done]. cbn [mbind result_bind]. rewrite IH.
  destruct (Parts.read_lines p1 a (n + 1)); [|done]. cbn [mbind result_bind]. f_equal.
  unfold len. rewrite length_cons. lia.
Qed.

(** The two lines the signer adds. *)
Lemma signing_lines_read p fp sig n : Parts.issuer p = None -> Parts.signature p = None ->
  Forall plain fp -> fp <> [] -> wf_bytes sig -> length sig = 64%nat ->
  Parts.read_lines p (lines (lit "issuer " ++ fp ++ [10] ++ lit "signature " ++ hex sig ++ [10])) n
  = Ok (Parts.set_signature (Parts.set_issuer p (Some fp)) (Some sig)).
Proof.
  intros Hi Hs Hp Hne Hw Hl.
  assert (hex sig <> []) as Hhex by (intros Hx%(f_equal length); rewrite length_hex, Hl in Hx; done).
  pose proof (plain_hex sig Hw) as Hph.
  assert (forall l, Forall plain l -> 10 ∉ l) as Hnl.
  { intros l Hf Hin. rewrite Forall_forall in Hf. by destruct (Hf 10 Hin). }
  assert (forall d l, Forall plain d -> Forall plain l -> 10 ∉ d ++ [32] ++ l) as Hnl2.
  { intros d l Hd Hf [Hin|[Hin|Hin]%elem_of_app]%elem_of_app;
      [by apply (Hnl d)|by apply list_elem_of_singleton in Hin|by apply (Hnl l)]. }
  assert (Forall plain (lit "issuer") /\ Forall plain (lit "signature")) as [Hpi Hps].
  { split; apply Forall_forall; intros c Hc; vm_compute in Hc;
      repeat (apply elem_of_cons in Hc as [->|Hc]; [by split|]); by apply not_elem_of_nil in Hc. }
  change (lit "issuer ") with (lit "issuer" ++ [32]). change (lit "signature ") with (lit "signature" ++ [32]).
  assert ((lit "issuer" ++ [32]) ++ fp ++ [10] ++ (lit "signature" ++ [32]) ++ hex sig ++ [10]
    = (lit "issuer" ++ [32] ++ fp) ++ 10 :: ((lit "signature" ++ [32] ++ hex sig) ++ 10 :: [])) as ->.
  { rewrite <- !app_assoc. done. }
  rewrite !lines_cons by by apply Hnl2. change (lines []) with (@nil str).
  cbn [Parts.read_lines]. unfold Parts.read_line. rewrite !words_of_strip_cr, !words_of_two by done.
  assert (forall q k, Parts.signature q = None -> Parts.in_order q (lit "issuer") k = Ok tt
    /\ Parts.in_order q (lit "signature") k = Ok tt) as Hord.
  { intros q k Hq. unfold Parts.in_order. rewrite Hq. split; reflexivity. }
  rewrite (proj1 (Hord p n Hs)). cbn [mbind result_bind].
  assert (forall k, Parts.apply p (lit "issuer") [fp] k = Ok (Parts.set_issuer p (Some fp))) as ->.
  { intros k. unfold Parts.apply. rewrite Hi. reflexivity. }
  cbn [mbind result_bind].
  rewrite (proj2 (Hord (Parts.set_issuer p (Some fp)) (n + 1) Hs)). cbn [mbind result_bind].
  assert (forall q k, Parts.apply q (lit "signature") [hex sig] k = Ok (Parts.set_signature q (Some sig))) as Hsig.
  { intros q k. assert (hex_word 64 [hex sig] k (lit "signature") = Ok sig) as Hx.
    { unfold hex_word. cbn [one_word mbind result_bind]. apply hex_bytes_iff; [done| |].
      - eapply Forall_impl; [by apply hex_range|]. unfold is_scalar. simpl. lia.
      - unfold len. rewrite Hl. done. }
    transitivity (v ← hex_word 64 [hex sig] k (lit "signature"); Ok (Parts.set_signature q (Some v)));
      [reflexivity|by rewrite Hx]. }
  rewrite Hsig. done.
Qed.
(** Finishing sees the issuer and the signature only to carry them. *)
Lemma finish_final q fp sig bs : Parts.canonical_of q = Ok bs ->
  exists m, Parts.finish (Parts.set_signature (Parts.set_issuer (strip q) (Some fp)) (Some sig)) = Ok m
    /\ Manifest.canonical_bytes m = bs /\ Manifest.issuer m = fp /\ Manifest.signature m = sig.
Proof.
  intros (q' & Hs & (pol & Hpol & [= <-])%result_bind_ok)%result_bind_ok.
  set (p := Parts.set_signature (Parts.set_issuer (strip q) (Some fp)) (Some sig)).
  assert (Parts.settle p = Ok (Parts.set_signature (Parts.set_issuer (strip q') (Some fp)) (Some sig))) as Hs'.
  { unfold Parts.settle in *. cbn [p Parts.set_signature Parts.set_issuer strip Parts.required Parts.epoch
      Parts.valid_from Parts.valid_until Parts.group_key_id Parts.byzantine_bps Parts.max_competence_ratio
      Parts.phy_profile Parts.heard_capacity Parts.members Parts.set_members] in *.
    destruct (Parts.all_present _) as [u|e]; [|done]. cbn [mbind result_bind] in *.
    destruct (_ <=? _); [done|]. destruct (bool_decide _); [done|]. destruct (_ <? _); [done|].
    destruct (Parts.contiguous _ _ _) as [v|e]; [|done]. cbn [mbind result_bind] in *.
    by injection Hs as <-. }
  eexists. unfold Parts.finish. rewrite Hs'. cbn [mbind result_bind]. unfold map_err in Hpol |- *.
  change (Manifest.policy (Parts.manifest_of (Parts.set_signature (Parts.set_issuer (strip q') (Some fp)) (Some sig))))
    with (Manifest.policy (Parts.manifest_of q')).
  destruct (Manifest.policy (Parts.manifest_of q')) as [pol'|]; [|done]. cbn [mbind result_bind].
  split; [reflexivity|]. done.
Qed.
End signing.

Lemma signed_manifest `{DigestLaws, Ed25519Laws} (text out : str) (admin : SigningKey.t) :
  sign_text text admin = Ok out ->
  exists parts m, Parts.read text false = Ok parts
    /\ parse out = Ok m
    /\ Parts.canonical_of parts = Ok (Manifest.canonical_bytes m)
    /\ Manifest.issuer m = Hand.fingerprint (VerifyingKey.to_bytes (verifying_key admin))
    /\ VerifyingKey.verify (verifying_key admin) (Manifest.canonical_bytes m) (Manifest.signature m) = Ok tt.
Proof.
  intros Hsign. apply result_bind_ok in Hsign as (q & Hread & Hrest).
  apply result_bind_ok in Hrest as (bs & Hcan & Hout).
  set (fp := Hand.fingerprint (VerifyingKey.to_bytes (verifying_key admin))) in *.
  set (sig := SigningKey.sign admin bs) in *.
  apply result_bind_ok in Hread as (q' & Hlines & Hver).
  destruct (Parts.is_some (Parts.version q')) eqn:Hv; [|done]. simpl in Hver. injection Hver as ->.
  assert (out = unsigned_text text ++ lit "issuer " ++ fp ++ [10] ++ lit "signature " ++ hex sig ++ [10])
    as -> by congruence. clear Hout.
  destruct (plain_fingerprint (VerifyingKey.to_bytes (verifying_key admin))) as [Hfp Hfpn].
  assert (wf_bytes sig /\ length sig = 64%nat) as [Hsw Hsl] by (split; [apply ed_sign_wf|apply ed_sign_length]).
  set (final := Parts.set_signature (Parts.set_issuer (strip q) (Some fp)) (Some sig)).
  assert (Parts.read (unsigned_text text ++ lit "issuer " ++ fp ++ [10] ++ lit "signature " ++ hex sig ++ [10]) true
    = Ok final) as Hread'.
  { unfold Parts.read, unsigned_text. rewrite lines_concat.
    - rewrite read_lines_app. change Parts.empty with (strip Parts.empty).
      rewrite (read_lines_strip _ _ 1 1 _ Hlines). cbn [mbind result_bind].
      rewrite signing_lines_read by done. cbn [mbind result_bind].
      cbn [final Parts.set_signature Parts.set_issuer strip Parts.version Parts.signature]. by rewrite Hv.
    - apply Forall_forall. intros raw [_ Hin]%list_elem_of_filter.
      pose proof (lines_no_newline text) as Hnl. rewrite Forall_forall in Hnl. by apply Hnl. }
  destruct (finish_final q fp sig bs Hcan) as (m & Hfin & Hbytes & Hiss & Hsig).
  exists q, m. split_and!.
  - unfold Parts.read. rewrite Hlines. cbn [mbind result_bind]. by rewrite Hv.
  - unfold parse. rewrite Hread'. exact Hfin.
  - by rewrite Hbytes.
  - done.
  - unfold VerifyingKey.verify. rewrite Hsig, Hbytes. unfold sig, SigningKey.sign. simpl. by rewrite ed_verify_sign.
Qed.

(** C7: what the administrator's tool writes is what a vessel accepts: the signed text
    parses, says what the text it was made from said, carries the fingerprint of
    the key that signed it, and verifies under that key at every instant of its
    window. *)
Theorem signed_text_verifies `{DigestLaws, Ed25519Laws} (text out : str) (admin : SigningKey.t) :
  sign_text text admin = Ok out ->
  exists parts m, Parts.read text false = Ok parts
    /\ parse out = Ok m
    /\ Parts.canonical_of parts = Ok (Manifest.canonical_bytes m)
    /\ Manifest.issuer m = Hand.fingerprint (VerifyingKey.to_bytes (verifying_key admin))
    /\ forall now, Manifest.valid_from m <= now < Manifest.valid_until m ->
         Manifest.verify m (verifying_key admin) now = Ok tt.
Proof.
  intros (parts & m & Hr & Hp & Hc & Hi & Hv)%signed_manifest. exists parts, m. split_and!; try done.
  intros now Hnow. unfold Manifest.verify. rewrite Hv. simpl.
  destruct (Z.ltb_spec now (Manifest.valid_from m)), (Z.leb_spec (Manifest.valid_until m) now); try lia; done.
Qed.

(** ** A concrete manifest *)

Definition demo_text : str := lit "version 2   # the format
epoch 7
valid-from 10
valid-until 20
group-key 0101010101010101010101010101010101010101010101010101010101010101
byzantine-bps 4000
max-competence-ratio 3
phy-profile eu868-sf10-v1
heard-capacity 64

member 1 66 0303030303030303030303030303030303030303030303030303030303030303 ship-bravo
member 0 100 0202020202020202020202020202020202020202020202020202020202020202 ship-alpha
issuer OLD-CARD
".
Definition demo_admin : SigningKey.t := SigningKey.from_seed (replicate 32 9).
Definition demo_out : str :=
  match @sign_text toy_ed25519 toy_digest demo_text demo_admin with Ok out => out | Err _ => [] end.
Definition demo_manifest : Manifest.t :=
  Manifest.mk 7 10 20 (replicate 32 1) 4000 3 (lit "eu868-sf10-v1") 64
    [Member.mk 0 100 (VerifyingKey.mk (replicate 32 2)) (lit "ship-alpha");
     Member.mk 1 66 (VerifyingKey.mk (replicate 32 3)) (lit "ship-bravo")]
    (@Hand.fingerprint toy_digest (replicate 32 9))
    (@SigningKey.sign toy_ed25519 demo_admin (Manifest.canonical_bytes (Manifest.mk 7 10 20 (replicate 32 1) 4000 3
       (lit "eu868-sf10-v1") 64
       [Member.mk 0 100 (VerifyingKey.mk (replicate 32 2)) (lit "ship-alpha");
        Member.mk 1 66 (VerifyingKey.mk (replicate 32 3)) (lit "ship-bravo")] [] []))).

Lemma signed_text_verifies_witness :
  exists m, @parse toy_ed25519 demo_out = Ok m
    /\ forall now, Manifest.valid_from m <= now < Manifest.valid_until m ->
         @Manifest.verify toy_ed25519 m (@verifying_key toy_ed25519 demo_admin) now = Ok tt.
Proof.
  destruct (@signed_text_verifies toy_digest toy_digest_laws toy_ed25519 toy_ed25519_laws demo_text demo_out demo_admin)
    as (q & m & _ & Hp & _ & _ & Hv).
  - vm_compute. reflexivity.
  - exists m. split; [exact Hp|exact Hv].
Defined.

Lemma parse_yields_lawful_fleet_witness :
  manifest_ok demo_manifest
  /\ exists pol, Manifest.policy demo_manifest = Ok pol /\ policy_wf pol.
Proof.
  apply (@parse_yields_lawful_fleet toy_ed25519 demo_out).
  - apply (bool_decide_unpack (wf_str _)). vm_compute. exact I.
  - vm_compute. reflexivity.
Defined.

Lemma digest_is_identity_witness :
  (@Manifest.digest toy_digest demo_manifest = @Manifest.digest toy_digest demo_manifest ->
     signed_part demo_manifest = signed_part demo_manifest \/ @collision toy_digest)
  /\ (Manifest.canonical_bytes demo_manifest = Manifest.canonical_bytes demo_manifest
      <-> signed_part demo_manifest = signed_part demo_manifest).
Proof.
  apply (@digest_is_identity toy_digest toy_ed25519 demo_out demo_out);
    first [apply (bool_decide_unpack (wf_str _)); vm_compute; exact I | vm_compute; reflexivity].
Defined.
