(* ===== verification/Args.v ===== *)
(** A process's arguments (the [from_args] of src/src/bin/lcq-node.rs, src/src/bin/lcq-hub.rs
    and src/src/bin/lcq-bridge.rs): a value follows the first argument that is its name. *)
From S2P Require Import Prelude Manifest.

Module Args.
(** [str::parse] for unsigned and signed integers: an optional sign, then digits. *)
Definition parse_unsigned (max : Z) (w : str) : option Z :=
  match w with 43 :: (_ :: _) as w' => parse_uint max (tl w') | _ => parse_uint max w end.
Definition parse_i64 (w : str) : option Z :=
  match w with
  | 45 :: w' => Z.opp <$> parse_uint (2 ^ 63) w'
  | _ => parse_unsigned (2 ^ 63 - 1) w
  end.

(** The value after the first argument that is [name]. *)
Definition value (args : list str) (name : str) : option str :=
  p ← list_find (fun a => a = name) args;
  args !! S (fst p).
Definition flag (args : list str) (name : str) : bool := bool_decide (name ∈ args).
Definition number (args : list str) (name : str) (parse : str -> option Z) (otherwise : Z) : Z :=
  default otherwise (v ← value args name; parse v).

(** A number printed is read back. *)
Lemma parse_unsigned_plain max d w : d <> 43 -> parse_unsigned max (d :: w) = parse_uint max (d :: w).
Proof.
  intros Hd. unfold parse_unsigned. destruct d as [|d|d]; try done.
  do 6 (destruct d as [d|d|]; try done).
Qed.
Lemma parse_unsigned_decimal max n : is_u64 n -> n <= max -> parse_unsigned max (decimal n) = Some n.
Proof.
  intros Hn Hmax. destruct (decimal_spec n Hn) as (Hv & Hd & Hne). destruct (decimal n) as [|d w] eqn:Hw; [done|].
  rewrite parse_unsigned_plain by (apply Forall_cons in Hd as [? _]; lia). unfold parse_uint.
  rewrite bool_decide_eq_false_2 by done. assert (forallb is_digit (d :: w) = true) as ->.
  { apply forallb_forall. intros c Hc. rewrite Forall_forall in Hd. specialize (Hd c). rewrite list_elem_of_In in Hd.
    specialize (Hd Hc). unfold is_digit. apply andb_true_iff. split; apply Z.leb_le; lia. }
  cbn [orb negb]. rewrite Hv. by rewrite (proj2 (Z.leb_le n max)).
Qed.
End Args.
