(* ===== verification/RNode.v ===== *)
(** An RNode modem (src/src/infrastructure/rnode.rs): KISS framing, the host
    protocol's link state, and what crosses it.

    The port thread is a step function ([RNodeRadio.pump_round]): what it reads and
    which writes the port accepts are its arguments. [RNodeRadio.open] waits for the device
    over what each of its looks finds. The serial port itself is not modelled. *)
From S2P Require Import Prelude Radio.

(** * KISS *)

Definition FEND : Z := 0xC0.
Definition FESC : Z := 0xDB.
Definition TFEND : Z := 0xDC.
Definition TFESC : Z := 0xDD.

Module Kiss.
Definition escape (byte : Z) : bytes :=
  if byte =? FEND then [FESC; TFEND] else if byte =? FESC then [FESC; TFESC] else [byte].
Definition encode (command : Z) (payload : bytes) : bytes :=
  FEND :: command :: concat (escape <$> payload) ++ [FEND].

Record Deframer := mk { frame : bytes; in_frame : bool; escaped : bool; limit : Z }.
Definition new (limit : Z) : Deframer := mk [] false false limit.

(** One byte; a completed frame comes out. *)
Definition push_byte (d : Deframer) (byte : Z) : Deframer * option bytes :=
  if byte =? FEND then
    (mk [] true false (limit d),
     if in_frame d && negb (bool_decide (frame d = [])) then Some (frame d) else None)
  else if negb (in_frame d) then (d, None)
  else if negb (escaped d) && (byte =? FESC) then (mk (frame d) (in_frame d) true (limit d), None)
  else
    let decoded := if escaped d
                   then (if byte =? TFEND then FEND else if byte =? TFESC then FESC else byte)
                   else byte in
    if limit d <=? len (frame d) then (mk [] false false (limit d), None)
    else (mk (frame d ++ [decoded]) (in_frame d) false (limit d), None).
Fixpoint push (d : Deframer) (bs : bytes) (out : list bytes) : Deframer * list bytes :=
  match bs with
  | [] => (d, out)
  | b :: bs =>
      let '(d, o) := push_byte d b in
      push d bs (out ++ match o with Some f => [f] | None => [] end)
  end.
End Kiss.

(** * The host protocol *)

Definition CMD_DATA : Z := 0x00.
Definition CMD_FREQUENCY : Z := 0x01.
Definition CMD_BANDWIDTH : Z := 0x02.
Definition CMD_TXPOWER : Z := 0x03.
Definition CMD_SPREADING_FACTOR : Z := 0x04.
Definition CMD_CODING_RATE : Z := 0x05.
Definition CMD_RADIO_STATE : Z := 0x06.
Definition CMD_DETECT : Z := 0x08.
Definition CMD_STAT_RSSI : Z := 0x23.
Definition CMD_STAT_SNR : Z := 0x24.
Definition CMD_PLATFORM : Z := 0x48.
Definition CMD_MCU : Z := 0x49.
Definition CMD_FW_VERSION : Z := 0x50.
Definition CMD_ERROR : Z := 0x90.
Definition DETECT_REQUEST : Z := 0x73.
Definition DETECT_RESPONSE : Z := 0x46.
Definition RSSI_OFFSET : Z := 157.
Definition MAX_PACKET_BYTES : Z := 254.
Definition FRAME_LIMIT : Z := 600.

Module RNodeLink.
Record t := mk {
  profile : PhyProfile.t;
  deframer : Kiss.Deframer;
  outbound : bytes;
  events : list RadioEvent;
  detected : bool;
  online : bool;
  firmware : option (Z * Z);
  pending_rssi : option Z;
  pending_snr : option Z;
}.
Definition new (profile : PhyProfile.t) : t :=
  mk profile (Kiss.new FRAME_LIMIT) [] [] false false None None None.

Definition queue (l : t) (command : Z) (payload : bytes) : t :=
  mk (profile l) (deframer l) (outbound l ++ Kiss.encode command payload) (events l) (detected l) (online l)
    (firmware l) (pending_rssi l) (pending_snr l).
Definition start (l : t) : t :=
  let p := profile l in
  let l := queue l CMD_DETECT [DETECT_REQUEST] in
  let l := queue l CMD_FW_VERSION [0] in
  let l := queue l CMD_PLATFORM [0] in
  let l := queue l CMD_MCU [0] in
  let l := queue l CMD_FREQUENCY (be_bytes 4 (PhyProfile.frequency_hz p)) in
  let l := queue l CMD_BANDWIDTH (be_bytes 4 (PhyProfile.bandwidth_hz p)) in
  let l := queue l CMD_TXPOWER [of_signed 8 (PhyProfile.tx_power_dbm p)] in
  let l := queue l CMD_SPREADING_FACTOR [PhyProfile.spreading_factor p] in
  let l := queue l CMD_CODING_RATE [PhyProfile.coding_rate_denominator p] in
  queue l CMD_RADIO_STATE [1].
Definition take_outbound (l : t) : t * bytes :=
  (mk (profile l) (deframer l) [] (events l) (detected l) (online l) (firmware l) (pending_rssi l)
     (pending_snr l), outbound l).

Definition event (l : t) (e : RadioEvent) : t :=
  mk (profile l) (deframer l) (outbound l) (events l ++ [e]) (detected l) (online l) (firmware l)
    (pending_rssi l) (pending_snr l).
Definition note (l : t) (body : str) : t := event l (EvNote body).
Definition set_flags (l : t) (d o : bool) (f : option (Z * Z)) : t :=
  mk (profile l) (deframer l) (outbound l) (events l) d o f (pending_rssi l) (pending_snr l).
Definition set_pending (l : t) (r s : option Z) : t :=
  mk (profile l) (deframer l) (outbound l) (events l) (detected l) (online l) (firmware l) r s.
Definition set_deframer (l : t) (d : Kiss.Deframer) : t :=
  mk (profile l) d (outbound l) (events l) (detected l) (online l) (firmware l) (pending_rssi l) (pending_snr l).

Definition on_frame (l : t) (frame : bytes) : t :=
  match frame with
  | [] => l
  | command :: payload =>
      if command =? CMD_DETECT then
        match payload with
        | b :: _ => if b =? DETECT_RESPONSE then set_flags l true (online l) (firmware l) else l
        | [] => l
        end
      else if command =? CMD_FW_VERSION then
        match payload with
        | major :: minor :: _ =>
            note (set_flags l (detected l) (online l) (Some (major, minor)))
              (event_name (lit "rnode_firmware") ++ lit "," ++ quoted (lit "major") ++ lit ":" ++ decimal major
               ++ lit "," ++ quoted (lit "minor") ++ lit ":" ++ decimal minor)
        | _ => l
        end
      else if command =? CMD_RADIO_STATE then
        let was := online l in
        let now := match payload with b :: _ => b =? 1 | [] => false end in
        let l := set_flags l (detected l) now (firmware l) in
        if Bool.eqb now was then l
        else note l (event_name (lit "rnode_radio") ++ lit "," ++ quoted (lit "online") ++ lit ":" ++ json_bool now)
      else if command =? CMD_STAT_RSSI then
        match payload with raw :: _ => set_pending l (Some (raw - RSSI_OFFSET)) (pending_snr l) | [] => l end
      else if command =? CMD_STAT_SNR then
        match payload with
        | raw :: _ => set_pending l (pending_rssi l) (Some (Z.quot (to_signed 8 raw) 4))
        | [] => l
        end
      else if command =? CMD_DATA then
        event (set_pending l None None)
          (EvReceived (Received.mk payload (default 0 (pending_rssi l)) (default 0 (pending_snr l))))
      else if command =? CMD_ERROR then
        note l (event_name (lit "rnode_error") ++ lit "," ++ quoted (lit "code") ++ lit ":"
                ++ decimal (match payload with b :: _ => b | [] => 0 end))
      else l
  end.
Definition on_serial (l : t) (bs : bytes) : t :=
  let '(d, frames) := Kiss.push (deframer l) bs [] in
  foldl on_frame (set_deframer l d) frames.

Definition transmit (l : t) (bs : bytes) : t * result RadioError unit :=
  if MAX_PACKET_BYTES <? len bs then (l, Err (TooLong (len bs) MAX_PACKET_BYTES))
  else if negb (online l) then (l, Err Offline)
  else (queue l CMD_DATA bs, Ok tt).
Definition poll (l : t) : t * option RadioEvent :=
  match events l with
  | [] => (l, None)
  | e :: es => (mk (profile l) (deframer l) (outbound l) es (detected l) (online l) (firmware l)
                  (pending_rssi l) (pending_snr l), Some e)
  end.
End RNodeLink.

(** The link behind a port thread: what the host has handed over, what has been
    written to the device, and whether the thread still runs. *)
Inductive PortRead := Quiet | Arrived (bs : bytes) | PortBroken.

Inductive RNodeError := NotDetected | RadioOff.
Module RNodeRadio.
Record t := mk { link : RNodeLink.t; to_port : list bytes; wire : bytes; pumping : bool }.

(** [Sender::send]: refused once the receiving thread has gone. *)
Definition send (r : t) (bs : bytes) : t * bool :=
  if pumping r then (mk (link r) (to_port r ++ [bs]) (wire r) true, true) else (r, false).
(** [open] up to the wait for the device. *)
Definition bring_up (profile : PhyProfile.t) : t :=
  let '(l, bs) := RNodeLink.take_outbound (RNodeLink.start (RNodeLink.new profile)) in
  (send (mk l [] [] true) bs).1.
Definition transmit (r : t) (bs : bytes) : t * result RadioError unit :=
  match RNodeLink.transmit (link r) bs with
  | (l, Err e) => (mk l (to_port r) (wire r) (pumping r), Err e)
  | (l, Ok _) =>
      let '(l, out) := RNodeLink.take_outbound l in
      let '(r, sent) := send (mk l (to_port r) (wire r) (pumping r)) out in
      (r, if sent then Ok tt else Err Offline)
  end.
Definition poll (r : t) : t * option RadioEvent :=
  let '(l, e) := RNodeLink.poll (link r) in (mk l (to_port r) (wire r) (pumping r), e).

(** [pump_port]: first everything handed over goes out; [oks] says which writes
    the port accepts (all of them once it runs out). The thread ends at the first
    one it refuses, and the receiver with it. *)
Definition next_ok (oks : list bool) : bool * list bool :=
  match oks with [] => (true, []) | ok :: oks => (ok, oks) end.
Definition stop (r : t) : t := mk (link r) [] (wire r) false.
Fixpoint drain (handed : list bytes) (r : t) (oks : list bool) : t * list bool :=
  match handed with
  | [] => (mk (link r) [] (wire r) (pumping r), oks)
  | bs :: handed =>
      let '(ok, oks) := next_ok oks in
      if ok then drain handed (mk (link r) handed (wire r ++ bs) (pumping r)) oks else (stop r, oks)
  end.
(** One round of its loop. *)
Definition pump_round (r : t) (read : PortRead) (oks : list bool) : t :=
  if negb (pumping r) then r
  else
    let '(r, oks) := drain (to_port r) r oks in
    if negb (pumping r) then r
    else match read with
         | Quiet => r
         | PortBroken => stop r
         | Arrived bs =>
             let '(l, pending) := RNodeLink.take_outbound (RNodeLink.on_serial (link r) bs) in
             let r := mk l (to_port r) (wire r) (pumping r) in
             if bool_decide (pending = []) then r
             else if (next_ok oks).1 then mk l (to_port r) (wire r ++ pending) (pumping r) else stop r
         end.
(** What the port thread does between two looks of [open]. *)
Definition pump (r : t) (rounds : list (PortRead * list bool)) : t := foldl (fun r x => pump_round r x.1 x.2) r rounds.
(** The wait of [open]: it looks, and while its deadline has not come the port thread works
    and it looks again. *)
Fixpoint await_online (r : t) (looks : list (list (PortRead * list bool))) : result RNodeError t :=
  if RNodeLink.online (link r) then Ok r
  else match looks with
       | [] => Err (if RNodeLink.detected (link r) then RadioOff else NotDetected)
       | rounds :: looks => await_online (pump r rounds) looks
       end.
Definition open (profile : PhyProfile.t) (looks : list (list (PortRead * list bool))) : result RNodeError t :=
  await_online (bring_up profile) looks.
End RNodeRadio.

#[global] Instance rnode_radio : Radio RNodeRadio.t := {
  radio_transmit := RNodeRadio.transmit;
  radio_poll := RNodeRadio.poll;
}.

(** * Framing *)

Section kiss.
Implicit Types d : Kiss.Deframer.

Lemma push_app d a b out : Kiss.push d (a ++ b) out
  = let '(d1, o1) := Kiss.push d a out in Kiss.push d1 b o1.
Proof.
  revert d out; induction a as [|x a IH]; intros d out; [done|]. cbn [app Kiss.push].
  destruct (Kiss.push_byte d x) as [d1 o]. apply IH.
Qed.
Lemma push_out d bs out : Kiss.push d bs out = ((Kiss.push d bs []).1, out ++ (Kiss.push d bs []).2).
Proof.
  revert d out; induction bs as [|x bs IH]; intros d out; cbn [Kiss.push]; [simpl; by rewrite app_nil_r|].
  destruct (Kiss.push_byte d x) as [d1 o]. rewrite IH. rewrite (IH d1 (_ ++ _)). simpl. by rewrite app_assoc.
Qed.

(** The escaped bytes of a payload are appended, one by one, unescaped. *)
Lemma push_escaped (payload f : bytes) lim out : len f + len payload <= lim ->
  Kiss.push (Kiss.mk f true false lim) (concat (Kiss.escape <$> payload)) out
  = (Kiss.mk (f ++ payload) true false lim, out).
Proof.
  revert f out; induction payload as [|b payload IH]; intros f out Hlen; [by rewrite app_nil_r|].
  rewrite fmap_cons. cbn [concat]. rewrite push_app.
  assert (Kiss.push (Kiss.mk f true false lim) (Kiss.escape b) out = (Kiss.mk (f ++ [b]) true false lim, out)) as ->.
  { unfold len in Hlen. rewrite length_cons in Hlen. unfold Kiss.escape.
    assert (lim <=? len f = false) as Hlim by (apply Z.leb_gt; unfold len; lia).
    destruct (Z.eqb_spec b FEND) as [->|Hf]; [|destruct (Z.eqb_spec b FESC) as [->|He]].
    - cbn [Kiss.push]. unfold Kiss.push_byte. cbn -[len Z.leb app]. rewrite Hlim. by rewrite !app_nil_r.
    - cbn [Kiss.push]. unfold Kiss.push_byte. cbn -[len Z.leb app]. rewrite Hlim. by rewrite !app_nil_r.
    - cbn [Kiss.push]. unfold Kiss.push_byte. rewrite (proj2 (Z.eqb_neq b FEND) Hf), (proj2 (Z.eqb_neq b FESC) He).
      cbn [Kiss.in_frame Kiss.escaped Kiss.frame Kiss.limit negb andb]. rewrite Hlim. cbn. by rewrite app_nil_r. }
  rewrite IH, <- app_assoc; [done|]. unfold len in *. rewrite length_app, length_cons in *. simpl. lia.
Qed.
Lemma push_encoded d command payload out :
  command <> FEND -> command <> FESC -> 1 + len payload <= Kiss.limit d ->
  Kiss.push d (Kiss.encode command payload) out
  = (Kiss.mk [] true false (Kiss.limit d),
     out ++ (if Kiss.in_frame d && negb (bool_decide (Kiss.frame d = [])) then [Kiss.frame d] else [])
     ++ [command :: payload]).
Proof.
  intros Hf He Hlen. unfold Kiss.encode. cbn [Kiss.push]. unfold Kiss.push_byte at 1. rewrite Z.eqb_refl.
  unfold Kiss.push_byte at 1. rewrite (proj2 (Z.eqb_neq command FEND) Hf), (proj2 (Z.eqb_neq command FESC) He).
  cbn [Kiss.in_frame Kiss.escaped Kiss.frame Kiss.limit negb andb].
  assert (Kiss.limit d <=? len (A := Z) [] = false) as ->.
  { apply Z.leb_gt. unfold len in *. simpl. lia. }
  rewrite push_app, app_nil_r. cbn [app]. rewrite push_escaped by (unfold len in *; simpl; lia).
  cbn [Kiss.push]. unfold Kiss.push_byte. rewrite Z.eqb_refl.
  cbn [Kiss.in_frame Kiss.frame Kiss.limit app].
  assert (bool_decide (command :: payload = []) = false) as -> by (by apply bool_decide_eq_false_2).
  cbn [negb andb]. rewrite <- app_assoc. by destruct (Kiss.in_frame d && _).
Qed.
Definition frame_fits (lim : Z) (f : Z * bytes) : Prop :=
  f.1 <> FEND /\ f.1 <> FESC /\ 1 + len f.2 <= lim.
Lemma push_frames fs lim out (d : Kiss.Deframer) : Kiss.limit d = lim -> Kiss.frame d = [] ->
  Forall (frame_fits lim) fs ->
  (Kiss.push d (concat ((fun f => Kiss.encode f.1 f.2) <$> fs)) out).2 = out ++ ((fun f => f.1 :: f.2) <$> fs).
Proof.
  intros Hlim Hempty Hfs. revert d out Hlim Hempty. induction Hfs as [|f fs (H1 & H2 & H3) _ IH]; intros d out Hlim Hempty.
  { simpl. by rewrite app_nil_r. }
  rewrite fmap_cons. cbn [concat]. rewrite push_app, push_encoded by (done || (try lia)).
  rewrite Hempty. rewrite bool_decide_eq_true_2 by done. rewrite andb_false_r. cbn [app].
  rewrite IH by done. rewrite fmap_cons. by rewrite <- app_assoc.
Qed.

(** What is buffered stays within the limit, and so does what comes out. *)
Definition frame_ok (d : Kiss.Deframer) : Prop := len (Kiss.frame d) <= Kiss.limit d.
Lemma push_byte_limit d b : 0 <= Kiss.limit d -> frame_ok d ->
  let '(d', o) := Kiss.push_byte d b in
  Kiss.limit d' = Kiss.limit d /\ frame_ok d' /\ (forall f, o = Some f -> f <> [] /\ len f <= Kiss.limit d).
Proof.
  intros Hpos Hok. unfold Kiss.push_byte, frame_ok in *.
  destruct (b =? FEND); [|destruct (Kiss.in_frame d); cbn [negb]; [|done]].
  - cbn. split_and!; [done|unfold len; simpl; lia|]. intros f. destruct (Kiss.in_frame d); [|done]. cbn [andb].
    case_bool_decide; [done|]. by intros [= <-].
  - destruct (negb (Kiss.escaped d) && (b =? FESC)); [by cbn|].
    destruct (Z.leb_spec (Kiss.limit d) (len (Kiss.frame d))); cbn; split_and!; try done; unfold len in *; simpl; try lia.
    rewrite length_app. simpl. lia.
Qed.
Lemma push_limit d bs out : 0 <= Kiss.limit d -> frame_ok d ->
  Forall (fun f => f <> [] /\ len f <= Kiss.limit d) out ->
  Forall (fun f => f <> [] /\ len f <= Kiss.limit d) (Kiss.push d bs out).2.
Proof.
  revert d out; induction bs as [|b bs IH]; intros d out Hpos Hok Hout; [done|]. cbn [Kiss.push].
  pose proof (push_byte_limit d b Hpos Hok) as Hb. destruct (Kiss.push_byte d b) as [d' o].
  destruct Hb as (Hl & Hok' & Ho). rewrite <- Hl in *. apply IH; [done|done|].
  apply Forall_app. split; [done|]. destruct o; [|constructor]. apply Forall_singleton, Ho. done.
Qed.

(** However the stream is cut into reads. *)
Fixpoint push_chunks (d : Kiss.Deframer) (chunks : list bytes) (out : list bytes) : Kiss.Deframer * list bytes :=
  match chunks with
  | [] => (d, out)
  | c :: chunks => let '(d, out) := Kiss.push d c out in push_chunks d chunks out
  end.
Lemma push_chunks_concat d chunks out : push_chunks d chunks out = Kiss.push d (concat chunks) out.
Proof.
  revert d out; induction chunks as [|c chunks IH]; intros d out; [done|]. cbn [push_chunks concat].
  rewrite push_app. destruct (Kiss.push d c out). apply IH.
Qed.
(** What a deframer interrupted in the middle of a frame still holds. *)
Definition leftover (d : Kiss.Deframer) : list bytes :=
  if Kiss.in_frame d && negb (bool_decide (Kiss.frame d = [])) then [Kiss.frame d] else [].
Lemma push_stream f fs d : Forall (frame_fits (Kiss.limit d)) (f :: fs) ->
  (Kiss.push d (concat ((fun f => Kiss.encode f.1 f.2) <$> (f :: fs))) []).2
  = leftover d ++ ((fun f => f.1 :: f.2) <$> (f :: fs)).
Proof.
  intros [(H1 & H2 & H3) Hfs]%Forall_cons. rewrite fmap_cons. cbn [concat].
  rewrite push_app, push_encoded by done. rewrite (push_frames fs (Kiss.limit d)) by done.
  rewrite fmap_cons. cbn [app]. rewrite <- app_assoc. done.
Qed.

(** Frames written one after another with [Kiss.encode] and cut into reads
    anywhere -- in the middle of an escape sequence included -- come out of the
    deframer exactly and in order, after at most the one frame it had been
    interrupted in; and every frame a deframer hands out, of any byte stream, is
    non-empty and within its limit. *)
Theorem kiss_stream_roundtrip f fs (chunks : list bytes) d :
  Forall (frame_fits (Kiss.limit d)) (f :: fs) ->
  concat chunks = concat ((fun f => Kiss.encode f.1 f.2) <$> (f :: fs)) ->
  (push_chunks d chunks []).2 = leftover d ++ ((fun f => f.1 :: f.2) <$> (f :: fs))
  /\ (forall d' (noise : bytes), frame_ok d' ->
        Forall (fun f => f <> [] /\ len f <= Kiss.limit d') (Kiss.push d' noise []).2).
Proof.
  intros Hfs Hcut. split.
  - rewrite push_chunks_concat, Hcut. by apply push_stream.
  - intros d' noise Hok. apply push_limit; [unfold frame_ok, len in Hok; lia|done|constructor].
Qed.
Lemma kiss_stream_roundtrip_witness :
  (push_chunks (Kiss.new 8) [[FEND; 0; FESC]; [TFEND; 7; FEND; FEND; 35]; [9; FEND]] []).2
  = [[0; 0xC0; 7]; [35; 9]].
Proof.
  apply (kiss_stream_roundtrip (0, [0xC0; 7]) [(35, [9])]); [|reflexivity].
  unfold frame_fits, FEND, FESC, len. repeat (constructor; [split_and!; cbn; lia|]). constructor.
Defined.
End kiss.

(** * The link *)

Section link.
Implicit Types l : RNodeLink.t.

(** Between two frames of what the device writes. *)
Definition between_frames l : Prop :=
  Kiss.limit (RNodeLink.deframer l) = FRAME_LIMIT /\ leftover (RNodeLink.deframer l) = [].
Lemma on_serial_frames l f fs : between_frames l -> Forall (frame_fits FRAME_LIMIT) (f :: fs) ->
  exists d, RNodeLink.on_serial l (concat ((fun f => Kiss.encode f.1 f.2) <$> (f :: fs)))
            = foldl RNodeLink.on_frame (RNodeLink.set_deframer l d) ((fun f => f.1 :: f.2) <$> (f :: fs)).
Proof.
  intros [Hlim Hleft] Hfs. unfold RNodeLink.on_serial.
  rewrite <- Hlim in Hfs. pose proof (push_stream f fs _ Hfs) as Hs. rewrite Hleft in Hs. cbn [app] in Hs.
  destruct (Kiss.push _ _ _) as [d frames]. simpl in Hs. subst. by exists d.
Qed.

(** A packet crosses the link with its signal: the device's RSSI, SNR and DATA
    frames become one [Received] event with the bytes untouched, the RSSI raw
    minus 157 (an [i16]) and the SNR the signed quarter (between -32 and 31). The
    statistics are spent on it: a second packet with none of its own reports
    zero, never its predecessor's. Nothing else about the link moves. *)
Theorem packet_keeps_its_signal l (r s : Z) (packet later : bytes) :
  between_frames l -> is_u8 r -> is_u8 s -> len packet < FRAME_LIMIT -> len later < FRAME_LIMIT ->
  let l' := RNodeLink.on_serial l
    (Kiss.encode CMD_STAT_RSSI [r] ++ Kiss.encode CMD_STAT_SNR [s] ++ Kiss.encode CMD_DATA packet
     ++ Kiss.encode CMD_DATA later) in
  let rssi := r - RSSI_OFFSET in
  let snr := Z.quot (to_signed 8 s) 4 in
  RNodeLink.events l' = RNodeLink.events l
    ++ [EvReceived (Received.mk packet rssi snr); EvReceived (Received.mk later 0 0)]
  /\ - 157 <= rssi <= 98 /\ - 32 <= snr <= 31
  /\ RNodeLink.online l' = RNodeLink.online l /\ RNodeLink.outbound l' = RNodeLink.outbound l
  /\ RNodeLink.pending_rssi l' = None /\ RNodeLink.pending_snr l' = None.
Proof.
  intros Hb Hr Hs Hp Hl l' rssi snr.
  destruct (on_serial_frames l (CMD_STAT_RSSI, [r]) [(CMD_STAT_SNR, [s]); (CMD_DATA, packet); (CMD_DATA, later)])
    as [d Hd]; [done| |].
  { unfold frame_fits, len, FRAME_LIMIT in *. repeat (constructor; [split_and!; cbn -[length]; try done; simpl; lia|]).
    constructor. }
  rewrite !fmap_cons in Hd. cbn [concat fst snd fmap list_fmap] in Hd. rewrite app_nil_r in Hd.
  unfold l'. rewrite Hd. cbn. rewrite <- app_assoc. unfold rssi, snr, RSSI_OFFSET, is_u8, U8_MAX in *.
  split_and!; try done; try lia.
  - unfold to_signed. destruct (Z.ltb_spec s (2 ^ (8 - 1))); change (2 ^ (8 - 1)) with 128 in *; change (2 ^ 8) with 256;
      Z.to_euclidean_division_equations; lia.
  - unfold to_signed. destruct (Z.ltb_spec s (2 ^ (8 - 1))); change (2 ^ (8 - 1)) with 128 in *; change (2 ^ 8) with 256;
      Z.to_euclidean_division_equations; lia.
Qed.
Lemma packet_keeps_its_signal_witness :
  RNodeLink.events (RNodeLink.on_serial (RNodeLink.new PhyProfile.eu868_sf10)
    (Kiss.encode CMD_STAT_RSSI [57] ++ Kiss.encode CMD_STAT_SNR [0xE0] ++ Kiss.encode CMD_DATA [1; 0xC0]
     ++ Kiss.encode CMD_DATA [2]))
  = [EvReceived (Received.mk [1; 0xC0] (-100) (-8)); EvReceived (Received.mk [2] 0 0)].
Proof.
  apply (packet_keeps_its_signal (RNodeLink.new PhyProfile.eu868_sf10) 57 0xE0 [1; 0xC0] [2]);
    unfold between_frames, is_u8, U8_MAX, FRAME_LIMIT, len; simpl; try lia. done.
Defined.

Lemma outbound_queue l c body : RNodeLink.outbound (RNodeLink.queue l c body) = RNodeLink.outbound l ++ Kiss.encode c body.
Proof. done. Qed.

Lemma read_queued (dev : Kiss.Deframer) c body : frame_fits (Kiss.limit dev) (c, body) -> leftover dev = [] ->
  (Kiss.push dev (Kiss.encode c body) []).2 = [c :: body].
Proof.
  intros Hfit Hleft. pose proof (push_stream (c, body) [] dev) as Hs. rewrite fmap_cons in Hs.
  cbn [concat fmap list_fmap] in Hs. rewrite app_nil_r, Hleft in Hs. apply Hs. by apply Forall_singleton.
Qed.

(** Bring-up reaches the device as meant: the first round of the port thread
    writes ten frames which a device's deframer reads back as detect, three probes,
    the profile's frequency and bandwidth big-endian, its power as a signed byte,
    its spreading factor and coding rate, and the radio switched on last. *)
Theorem device_reads_the_profile (p : PhyProfile.t) (dev : Kiss.Deframer) :
  FRAME_LIMIT <= Kiss.limit dev -> leftover dev = [] ->
  is_u32 (PhyProfile.frequency_hz p) -> is_u32 (PhyProfile.bandwidth_hz p) ->
  - 128 <= PhyProfile.tx_power_dbm p < 128 ->
  exists hz bw dbm,
    (Kiss.push dev (RNodeRadio.wire (RNodeRadio.pump_round (RNodeRadio.bring_up p) Quiet [])) []).2
    = [[CMD_DETECT; DETECT_REQUEST]; [CMD_FW_VERSION; 0]; [CMD_PLATFORM; 0]; [CMD_MCU; 0];
       CMD_FREQUENCY :: hz; CMD_BANDWIDTH :: bw; [CMD_TXPOWER; dbm];
       [CMD_SPREADING_FACTOR; PhyProfile.spreading_factor p];
       [CMD_CODING_RATE; PhyProfile.coding_rate_denominator p]; [CMD_RADIO_STATE; 1]]
    /\ of_be hz = PhyProfile.frequency_hz p /\ of_be bw = PhyProfile.bandwidth_hz p
    /\ to_signed 8 dbm = PhyProfile.tx_power_dbm p.
Proof.
  intros Hlim Hleft Hhz Hbw Hdbm.
  exists (be_bytes 4 (PhyProfile.frequency_hz p)), (be_bytes 4 (PhyProfile.bandwidth_hz p)),
    (of_signed 8 (PhyProfile.tx_power_dbm p)).
  split_and!; [|by apply of_be_be_bytes; rewrite pow256_4; unfold is_u32 in *; lia
               |by apply of_be_be_bytes; rewrite pow256_4; unfold is_u32 in *; lia|by apply signed_roundtrip].
  pose proof (push_stream (CMD_DETECT, [DETECT_REQUEST])
    [(CMD_FW_VERSION, [0]); (CMD_PLATFORM, [0]); (CMD_MCU, [0]);
     (CMD_FREQUENCY, be_bytes 4 (PhyProfile.frequency_hz p)); (CMD_BANDWIDTH, be_bytes 4 (PhyProfile.bandwidth_hz p));
     (CMD_TXPOWER, [of_signed 8 (PhyProfile.tx_power_dbm p)]);
     (CMD_SPREADING_FACTOR, [PhyProfile.spreading_factor p]);
     (CMD_CODING_RATE, [PhyProfile.coding_rate_denominator p]); (CMD_RADIO_STATE, [1])] dev) as Hs.
  rewrite Hleft in Hs. cbn [app] in Hs. etransitivity; [|apply Hs].
  - assert (forall l bs, RNodeRadio.wire (RNodeRadio.pump_round (RNodeRadio.mk l [bs] [] true) Quiet []) = bs) as Hwire by done.
    unfold RNodeRadio.bring_up, RNodeLink.take_outbound. unfold RNodeRadio.send.
    cbn [RNodeRadio.pumping fst RNodeRadio.to_port app RNodeRadio.wire]. rewrite Hwire.
    unfold RNodeLink.start. cbv zeta.
    rewrite !outbound_queue, !fmap_cons. cbn [fst snd concat RNodeLink.outbound RNodeLink.new RNodeLink.profile app].
    by rewrite <- !app_assoc.
  - assert (forall z, length (be_bytes 4 z) = 4%nat) as Hbe by (intros z; by rewrite length_be_bytes).
    unfold frame_fits, len, FRAME_LIMIT in *.
    repeat (constructor; [cbn [fst snd]; split_and!; [done|done|rewrite ?Hbe; simpl; lia]|]). constructor.
Qed.
Lemma device_reads_the_profile_witness :
  exists hz bw dbm,
    (Kiss.push (Kiss.new 600) (RNodeRadio.wire (RNodeRadio.pump_round (RNodeRadio.bring_up PhyProfile.eu868_sf10) Quiet [])) []).2
    = [[CMD_DETECT; DETECT_REQUEST]; [CMD_FW_VERSION; 0]; [CMD_PLATFORM; 0]; [CMD_MCU; 0];
       CMD_FREQUENCY :: hz; CMD_BANDWIDTH :: bw; [CMD_TXPOWER; dbm]; [CMD_SPREADING_FACTOR; 10];
       [CMD_CODING_RATE; 5]; [CMD_RADIO_STATE; 1]]
    /\ of_be hz = 868100000 /\ of_be bw = 125000 /\ to_signed 8 dbm = 14.
Proof.
  apply (device_reads_the_profile PhyProfile.eu868_sf10 (Kiss.new 600));
    unfold FRAME_LIMIT, is_u32, U32_MAX; simpl; try lia. done.
Defined.

Definition transmit_all (r : RNodeRadio.t) (packets : list bytes) : RNodeRadio.t :=
  foldl (fun r b => (RNodeRadio.transmit r b).1) r packets.
Lemma transmit_accepted r b : RNodeRadio.pumping r = true -> RNodeLink.online (RNodeRadio.link r) = true ->
  len b <= MAX_PACKET_BYTES ->
  exists l, RNodeLink.online l = true /\ RNodeLink.outbound l = []
    /\ RNodeRadio.transmit r b
       = (RNodeRadio.mk l (RNodeRadio.to_port r ++ [RNodeLink.outbound (RNodeRadio.link r) ++ Kiss.encode CMD_DATA b])
            (RNodeRadio.wire r) true, Ok tt).
Proof.
  intros Hp Ho Hb. unfold RNodeRadio.transmit, RNodeLink.transmit.
  destruct (Z.ltb_spec MAX_PACKET_BYTES (len b)); [lia|]. rewrite Ho. cbn [negb]. unfold RNodeLink.take_outbound.
  unfold RNodeRadio.send. cbn [RNodeRadio.pumping]. rewrite Hp. eexists. split; [|split; [|reflexivity]]; done.
Qed.
Lemma drain_all handed r : (RNodeRadio.drain handed r []).1
  = RNodeRadio.mk (RNodeRadio.link r) [] (RNodeRadio.wire r ++ concat handed) (RNodeRadio.pumping r).
Proof.
  revert r; induction handed as [|h handed IH]; intros r; cbn [RNodeRadio.drain concat fst]; [by rewrite app_nil_r|].
  cbn [RNodeRadio.next_ok]. rewrite IH. cbn. by rewrite app_assoc.
Qed.
Lemma transmit_all_queued r packets : RNodeRadio.pumping r = true -> RNodeLink.online (RNodeRadio.link r) = true ->
  RNodeLink.outbound (RNodeRadio.link r) = [] -> Forall (fun b => len b <= MAX_PACKET_BYTES) packets ->
  let r' := transmit_all r packets in
  RNodeRadio.pumping r' = true /\ RNodeRadio.wire r' = RNodeRadio.wire r
  /\ RNodeRadio.to_port r' = RNodeRadio.to_port r ++ (Kiss.encode CMD_DATA <$> packets).
Proof.
  intros Hp Ho Hout Hall. revert r Hp Ho Hout. induction Hall as [|b packets Hb _ IH]; intros r Hp Ho Hout r'.
  { unfold r'. cbn. by rewrite app_nil_r. }
  destruct (transmit_accepted r b Hp Ho Hb) as (l & Hl1 & Hl2 & Htx). unfold r', transmit_all. cbn [foldl].
  rewrite Htx. cbn [fst]. destruct (IH (RNodeRadio.mk l (RNodeRadio.to_port r
    ++ [RNodeLink.outbound (RNodeRadio.link r) ++ Kiss.encode CMD_DATA b]) (RNodeRadio.wire r) true)) as (I1 & I2 & I3); [done..|].
  unfold transmit_all in *. split_and!; [done|done|]. rewrite I3. cbn [RNodeRadio.to_port].
  rewrite Hout, fmap_cons. cbn [app]. by rewrite <- app_assoc.
Qed.

(** Transmission. A packet is refused exactly when it is over 254 bytes, the
    radio has not reported itself on, or the port thread has gone, and refusing it
    for its size or the radio's state changes nothing. Packets accepted one after
    another are on the wire after one round of the port thread, and the device
    reads back exactly those packets, in order. *)
Theorem packets_reach_the_device r (b : bytes) (packets : list bytes) (dev : Kiss.Deframer) :
  FRAME_LIMIT <= Kiss.limit dev -> leftover dev = [] ->
  RNodeRadio.to_port r = [] -> RNodeRadio.wire r = [] -> RNodeLink.outbound (RNodeRadio.link r) = [] ->
  (match radio_transmit r b with
   | (_, Ok tt) => len b <= MAX_PACKET_BYTES /\ RNodeLink.online (RNodeRadio.link r) = true /\ RNodeRadio.pumping r = true
   | (r', Err (TooLong n m)) => n = len b /\ m = MAX_PACKET_BYTES /\ m < n /\ r' = r
   | (r', Err Offline) => (RNodeLink.online (RNodeRadio.link r) = false /\ r' = r) \/ RNodeRadio.pumping r = false
   end)
  /\ (RNodeRadio.pumping r = true -> RNodeLink.online (RNodeRadio.link r) = true ->
      Forall (fun b => len b <= MAX_PACKET_BYTES) packets ->
      (Kiss.push dev (RNodeRadio.wire (RNodeRadio.pump_round (transmit_all r packets) Quiet [])) []).2
      = cons CMD_DATA <$> packets).
Proof.
  intros Hlim Hleft Hport Hwire Hout. split.
  - cbn [radio_transmit rnode_radio]. destruct (Z.ltb_spec MAX_PACKET_BYTES (len b)) as [Hb|Hb];
      [|destruct (RNodeLink.online (RNodeRadio.link r)) eqn:Ho; [destruct (RNodeRadio.pumping r) eqn:Hp|]].
    + unfold RNodeRadio.transmit, RNodeLink.transmit. destruct (Z.ltb_spec MAX_PACKET_BYTES (len b)); [|lia].
      destruct r. by split_and!.
    + destruct (transmit_accepted r b Hp Ho Hb) as (l & _ & _ & ->). done.
    + unfold RNodeRadio.transmit, RNodeLink.transmit. destruct (Z.ltb_spec MAX_PACKET_BYTES (len b)); [lia|].
      rewrite Ho. cbn [negb]. unfold RNodeLink.take_outbound, RNodeRadio.send. cbn [RNodeRadio.pumping]. rewrite Hp. by right.
    + unfold RNodeRadio.transmit, RNodeLink.transmit. destruct (Z.ltb_spec MAX_PACKET_BYTES (len b)); [lia|].
      rewrite Ho. cbn [negb]. left. split; [done|]. by destruct r.
  - intros Hp Ho Hall. destruct (transmit_all_queued r packets Hp Ho Hout Hall) as (H1 & H2 & H3).
    unfold RNodeRadio.pump_round. rewrite H1. cbn [negb].
    pose proof (drain_all (RNodeRadio.to_port (transmit_all r packets)) (transmit_all r packets)) as Hd.
    destruct (RNodeRadio.drain _ _ _) as [r1 oks]. cbn [fst] in Hd. subst r1. cbn [RNodeRadio.pumping]. rewrite H1.
    cbn [negb RNodeRadio.wire]. rewrite H2, H3, Hport, Hwire. cbn [app].
    destruct packets as [|b0 rest]; [done|].
    pose proof (push_stream (CMD_DATA, b0) (pair CMD_DATA <$> rest) dev) as Hs. rewrite Hleft in Hs.
    rewrite !fmap_cons, <- !list_fmap_compose in Hs. rewrite !fmap_cons. apply Hs.
    apply Forall_cons in Hall as [Hb0 Hall]. constructor; [|apply Forall_fmap; eapply Forall_impl; [exact Hall|]];
      [|intros x Hx]; unfold frame_fits, MAX_PACKET_BYTES, FRAME_LIMIT in *; cbn [compose fst snd]; split_and!; (done || (try lia)).
Qed.
Lemma packets_reach_the_device_witness :
  let r := RNodeRadio.mk (RNodeLink.on_serial (RNodeLink.new PhyProfile.eu868_sf10) (Kiss.encode CMD_RADIO_STATE [1]))
             [] [] true in
  (Kiss.push (Kiss.new 600) (RNodeRadio.wire (RNodeRadio.pump_round (transmit_all r [[5; 0xDB]; [6]]) Quiet [])) []).2
  = [[0; 5; 0xDB]; [0; 6]].
Proof.
  intros r. apply (packets_reach_the_device r [5] [[5; 0xDB]; [6]] (Kiss.new 600)); try done.
  apply (bool_decide_unpack _). vm_compute. exact I.
Defined.
End link.
(** * Opening the modem *)

Section opening.
(** Everything a link has been told is in [bs]: a radio it believes on, or a device it
    believes there, said so in a frame. *)
Definition said_in (bs : bytes) (command value : Z) : Prop :=
  exists more, (command :: value :: more) ∈ (Kiss.push (Kiss.new FRAME_LIMIT) bs []).2.
Definition told (l : RNodeLink.t) (bs : bytes) : Prop :=
  RNodeLink.deframer l = (Kiss.push (Kiss.new FRAME_LIMIT) bs []).1
  /\ (RNodeLink.online l = true -> said_in bs CMD_RADIO_STATE 1)
  /\ (RNodeLink.detected l = true -> said_in bs CMD_DETECT DETECT_RESPONSE).
Lemma said_later bs more c v : said_in bs c v -> said_in (bs ++ more) c v.
Proof.
  intros [rest Hin]. exists rest. rewrite push_app. destruct (Kiss.push _ bs []) as [d1 o1]. cbn [snd] in Hin.
  rewrite push_out. cbn [snd]. apply elem_of_app. by left.
Qed.
Lemma frame_flags l f : RNodeLink.deframer (RNodeLink.on_frame l f) = RNodeLink.deframer l
  /\ (RNodeLink.online (RNodeLink.on_frame l f) = true -> RNodeLink.online l = true \/ exists more, f = CMD_RADIO_STATE :: 1 :: more)
  /\ (RNodeLink.detected (RNodeLink.on_frame l f) = true -> RNodeLink.detected l = true \/ exists more, f = CMD_DETECT :: DETECT_RESPONSE :: more).
Proof.
  destruct f as [|c payload]; [by split_and!; auto|]. unfold RNodeLink.on_frame.
  destruct (Z.eqb_spec c CMD_DETECT) as [->|_].
  { destruct payload as [|b more]; [by split_and!; auto|]. destruct (Z.eqb_spec b DETECT_RESPONSE) as [->|_]; [|by split_and!; auto].
    split_and!; [done|by left|]. intros _. right. by exists more. }
  destruct (c =? CMD_FW_VERSION); [destruct payload as [|? [|? ?]]; by split_and!; auto|].
  destruct (Z.eqb_spec c CMD_RADIO_STATE) as [->|_].
  { cbv zeta. destruct payload as [|b more].
    - destruct (eqb false (RNodeLink.online l)); split_and!; try done; by left.
    - destruct (Z.eqb_spec b 1) as [->|_].
      + destruct (eqb true (RNodeLink.online l)); (split_and!; [done| |by left]); intros _; right; by exists more.
      + destruct (eqb false (RNodeLink.online l)); split_and!; try done; by left. }
  destruct (c =? CMD_STAT_RSSI); [destruct payload; by split_and!; auto|].
  destruct (c =? CMD_STAT_SNR); [destruct payload; by split_and!; auto|].
  destruct (c =? CMD_DATA); [by split_and!; auto|]. destruct (c =? CMD_ERROR); by split_and!; auto.
Qed.
Lemma frames_flags fs l : RNodeLink.deframer (foldl RNodeLink.on_frame l fs) = RNodeLink.deframer l
  /\ (RNodeLink.online (foldl RNodeLink.on_frame l fs) = true ->
      RNodeLink.online l = true \/ exists more, (CMD_RADIO_STATE :: 1 :: more) ∈ fs)
  /\ (RNodeLink.detected (foldl RNodeLink.on_frame l fs) = true ->
      RNodeLink.detected l = true \/ exists more, (CMD_DETECT :: DETECT_RESPONSE :: more) ∈ fs).
Proof.
  revert l; induction fs as [|f fs IH]; intros l; [by split_and!; auto|]. cbn [foldl].
  destruct (frame_flags l f) as (F1 & F2 & F3). destruct (IH (RNodeLink.on_frame l f)) as (I1 & I2 & I3).
  split_and!; [congruence| |].
  - intros Ho. destruct (I2 Ho) as [Ho'|[more Hin]]; [|right; exists more; by right].
    destruct (F2 Ho') as [|[more ->]]; [by left|right; exists more; left].
  - intros Hd. destruct (I3 Hd) as [Hd'|[more Hin]]; [|right; exists more; by right].
    destruct (F3 Hd') as [|[more ->]]; [by left|right; exists more; left].
Qed.
Lemma told_serial l bs more : told l bs -> told (RNodeLink.on_serial l more) (bs ++ more).
Proof.
  intros (Hd & Ho & Hdet). unfold RNodeLink.on_serial. rewrite Hd.
  assert (Kiss.push (Kiss.new FRAME_LIMIT) (bs ++ more) []
    = ((Kiss.push (Kiss.push (Kiss.new FRAME_LIMIT) bs []).1 more []).1,
       (Kiss.push (Kiss.new FRAME_LIMIT) bs []).2 ++ (Kiss.push (Kiss.push (Kiss.new FRAME_LIMIT) bs []).1 more []).2)) as Happ.
  { rewrite push_app. destruct (Kiss.push (Kiss.new FRAME_LIMIT) bs []) as [d1 o1]. cbn [fst snd]. apply push_out. }
  destruct (Kiss.push (Kiss.push _ bs []).1 more []) as [d2 frames] eqn:Hp. cbn [fst snd] in Happ.
  destruct (frames_flags frames (RNodeLink.set_deframer l d2)) as (F1 & F2 & F3). split_and!.
  - by rewrite F1, Happ.
  - intros Hon. destruct (F2 Hon) as [Hon'|[rest Hin]]; [by apply said_later, Ho|].
    exists rest. rewrite Happ. cbn [snd]. apply elem_of_app. by right.
  - intros Hdt. destruct (F3 Hdt) as [Hdt'|[rest Hin]]; [by apply said_later, Hdet|].
    exists rest. rewrite Happ. cbn [snd]. apply elem_of_app. by right.
Qed.
Lemma drain_link handed r oks : RNodeRadio.link (RNodeRadio.drain handed r oks).1 = RNodeRadio.link r
  /\ (RNodeRadio.pumping r = true -> RNodeRadio.pumping (RNodeRadio.drain handed r oks).1 = false \/ RNodeRadio.pumping (RNodeRadio.drain handed r oks).1 = true).
Proof.
  split; [|intros _; by destruct (RNodeRadio.pumping _); [right|left]].
  revert r oks; induction handed as [|bs handed IH]; intros r oks; [done|]. cbn [RNodeRadio.drain].
  destruct (RNodeRadio.next_ok oks) as [[] oks']; [by rewrite IH|done].
Qed.
(** The bytes a round reads, and those of all the looks. *)
Definition reads_of (x : PortRead * list bool) : bytes := match x.1 with Arrived bs => bs | Quiet | PortBroken => [] end.
Definition arrived (rounds : list (PortRead * list bool)) : bytes := concat (reads_of <$> rounds).
(** The thread has read everything so far, or has stopped after some of it. *)
Definition listening r (sofar : bytes) : Prop :=
  exists heard, told (RNodeRadio.link r) heard
  /\ if RNodeRadio.pumping r then heard = sofar else heard `prefix_of` sofar.
Lemma round_listens r sofar x : listening r sofar -> listening (RNodeRadio.pump_round r x.1 x.2) (sofar ++ reads_of x).
Proof.
  intros (heard & Ht & Hp). destruct x as [read oks]. cbn [fst snd]. unfold RNodeRadio.pump_round, reads_of. cbn [fst].
  destruct (RNodeRadio.pumping r) eqn:Hr; cbn [negb].
  2:{ exists heard. rewrite Hr. split; [done|]. by apply prefix_app_r. }
  subst heard. destruct (drain_link (RNodeRadio.to_port r) r oks) as [Hl _].
  destruct (RNodeRadio.drain _ r oks) as [r1 oks1]. cbn [fst] in Hl. rewrite <- Hl in Ht.
  destruct (RNodeRadio.pumping r1) eqn:Hr1; cbn [negb].
  2:{ exists sofar. rewrite Hr1. split; [done|]. by apply prefix_app_r. }
  destruct read as [|bs|].
  - exists sofar. rewrite Hr1, app_nil_r. done.
  - exists (sofar ++ bs). pose proof (told_serial (RNodeRadio.link r1) sofar bs Ht) as Hs.
    unfold RNodeLink.take_outbound. destruct (bool_decide _); [split; [exact Hs|]; cbn [RNodeRadio.pumping]; rewrite ?Hr1; done|].
    destruct (RNodeRadio.next_ok oks1).1; [split; [exact Hs|]; cbn [RNodeRadio.pumping]; rewrite ?Hr1; done|]. split; [exact Hs|]. by exists []; rewrite app_nil_r.
  - exists sofar. rewrite app_nil_r. split; [exact Ht|]. by exists []; rewrite app_nil_r.
Qed.
Lemma pump_listens r sofar rounds : listening r sofar -> listening (RNodeRadio.pump r rounds) (sofar ++ arrived rounds).
Proof.
  revert r sofar; induction rounds as [|x rounds IH]; intros r sofar Hl; [by rewrite app_nil_r|].
  unfold arrived. rewrite fmap_cons. cbn [concat]. rewrite app_assoc. apply (IH _ (sofar ++ reads_of x)). by apply round_listens.
Qed.
Lemma await_listens r sofar looks : listening r sofar ->
  match RNodeRadio.await_online r looks with
  | Ok r' => exists heard, heard `prefix_of` sofar ++ concat (arrived <$> looks) /\ said_in heard CMD_RADIO_STATE 1
  | Err RadioOff => exists heard, heard `prefix_of` sofar ++ concat (arrived <$> looks) /\ said_in heard CMD_DETECT DETECT_RESPONSE
  | Err NotDetected => True
  end.
Proof.
  revert r sofar; induction looks as [|rounds looks IH]; intros r sofar Hl; cbn [RNodeRadio.await_online];
    destruct (RNodeLink.online (RNodeRadio.link r)) eqn:Ho.
  1,3: destruct Hl as (heard & (_ & Hon & _) & Hp); exists heard; split; [|by apply Hon];
    destruct (RNodeRadio.pumping r); [subst heard|]; by eapply prefix_app_r.
  - destruct (RNodeLink.detected (RNodeRadio.link r)) eqn:Hd; [|done].
    destruct Hl as (heard & (_ & _ & Hdet) & Hp). exists heard. split; [|by apply Hdet].
    destruct (RNodeRadio.pumping r); [subst heard|]; by eapply prefix_app_r.
  - specialize (IH _ _ (pump_listens r sofar rounds Hl)). rewrite fmap_cons. cbn [concat]. by rewrite app_assoc.
Qed.
(** A modem is only opened when it says so: [open] answers with a radio only if among the
    frames read from the port the device reported its radio on, and blames the radio
    rather than the device only if the device had answered the probe. And a device that
    does both is opened at the next look, whatever the port did before. *)
Theorem open_believes_the_device (p : PhyProfile.t) (looks : list (list (PortRead * list bool))) :
  match RNodeRadio.open p looks with
  | Ok _ => exists heard, heard `prefix_of` concat (arrived <$> looks) /\ said_in heard CMD_RADIO_STATE 1
  | Err RadioOff => exists heard, heard `prefix_of` concat (arrived <$> looks) /\ said_in heard CMD_DETECT DETECT_RESPONSE
  | Err NotDetected => True
  end
  /\ exists r, RNodeRadio.open p ([(Arrived (Kiss.encode CMD_DETECT [DETECT_RESPONSE] ++ Kiss.encode CMD_RADIO_STATE [1]), [])] :: looks) = Ok r.
Proof.
  split.
  - apply (await_listens (RNodeRadio.bring_up p) [] looks). exists []. split; [|done]. split_and!; done.
  - unfold RNodeRadio.open. cbn [RNodeRadio.await_online].
    assert (RNodeLink.online (RNodeRadio.link (RNodeRadio.bring_up p)) = false) as -> by done.
    set (r := RNodeRadio.pump _ _). assert (RNodeLink.online (RNodeRadio.link r) = true) as Hon by reflexivity.
    destruct looks; cbn [RNodeRadio.await_online]; rewrite Hon; by eexists.
Qed.
End opening.
