(* ===== verification/Hub.v ===== *)
(** The channel emulator's socket (src/src/infrastructure/hub.rs), the radio on top
    of it (src/src/infrastructure/hub_radio.rs), and the loop with which the emulator
    reads its nodes (src/src/bin/lcq-hub.rs).

    A TCP connection is the bytes written to it so far and whether writes still
    succeed; reading one is a function of all the bytes that will ever arrive.
    [connect] takes what each of its attempts meets; the thread that reads for a radio is
    the loop it runs. *)
From S2P Require Import Prelude Radio.

Definition MAX_SOCKET_FRAME_BYTES : Z := 4096.
Definition DELIVERY_TAG : Z := 0x02.
Definition DELIVERY_HEADER_BYTES : nat := 9.
Definition PREAMBLE_TAG : Z := 0x03.
Definition PREAMBLE_BYTES : nat := 7.

(** * Messages from the hub *)

Module Verdict.
Inductive t := Decoded | HeaderError | CrcError.
#[global] Instance t_eq_dec : EqDecision t.
Proof. solve_decision. Defined.
Definition byte (v : t) : Z := match v with Decoded => 0 | HeaderError => 1 | CrcError => 2 end.
Definition from_byte (b : Z) : option t :=
  match b with 0 => Some Decoded | 1 => Some HeaderError | 2 => Some CrcError | _ => None end.
End Verdict.

Module Delivery.
Record t := mk { payload : bytes; rssi_dbm : Z; snr_db : Z; airtime_ms : Z; verdict : Verdict.t }.
#[global] Instance t_eq_dec : EqDecision t.
Proof. solve_decision. Defined.

Definition encode (d : t) : bytes :=
  [DELIVERY_TAG] ++ le_bytes 2 (of_signed 16 (rssi_dbm d)) ++ le_bytes 1 (of_signed 8 (snr_db d))
  ++ le_bytes 4 (airtime_ms d) ++ [Verdict.byte (verdict d)] ++ payload d.
Definition decode (encoded : bytes) : option t :=
  if (length encoded <? DELIVERY_HEADER_BYTES)%nat || negb (nth 0 encoded 0 =? DELIVERY_TAG) then None
  else
    let rssi_dbm := to_signed 16 (of_le [nth 1 encoded 0; nth 2 encoded 0]) in
    let snr_db := to_signed 8 (of_le [nth 3 encoded 0]) in
    let airtime_ms := of_le [nth 4 encoded 0; nth 5 encoded 0; nth 6 encoded 0; nth 7 encoded 0] in
    verdict ← Verdict.from_byte (nth 8 encoded 0);
    Some (mk (drop DELIVERY_HEADER_BYTES encoded) rssi_dbm snr_db airtime_ms verdict).
Definition wf (d : t) : Prop :=
  wf_bytes (payload d) /\ - 2 ^ 15 <= rssi_dbm d < 2 ^ 15 /\ - 2 ^ 7 <= snr_db d < 2 ^ 7 /\ is_u32 (airtime_ms d).
End Delivery.

Module Preamble.
Record t := mk { rssi_dbm : Z; airtime_ms : Z }.
#[global] Instance t_eq_dec : EqDecision t.
Proof. solve_decision. Defined.

Definition encode (p : t) : bytes :=
  [PREAMBLE_TAG] ++ le_bytes 2 (of_signed 16 (rssi_dbm p)) ++ le_bytes 4 (airtime_ms p).
Definition decode (encoded : bytes) : option t :=
  if negb (length encoded =? PREAMBLE_BYTES)%nat || negb (nth 0 encoded 0 =? PREAMBLE_TAG) then None
  else Some (mk (to_signed 16 (of_le [nth 1 encoded 0; nth 2 encoded 0]))
                (of_le [nth 3 encoded 0; nth 4 encoded 0; nth 5 encoded 0; nth 6 encoded 0])).
Definition wf (p : t) : Prop := - 2 ^ 15 <= rssi_dbm p < 2 ^ 15 /\ is_u32 (airtime_ms p).
End Preamble.

Module Inbound.
Inductive t := Delivery (d : Delivery.t) | Preamble (p : Preamble.t).
#[global] Instance t_eq_dec : EqDecision t.
Proof. solve_decision. Defined.

Definition decode (encoded : bytes) : option t :=
  match encoded with
  | tag :: _ =>
      if tag =? DELIVERY_TAG then Delivery <$> Delivery.decode encoded
      else if tag =? PREAMBLE_TAG then Preamble <$> Preamble.decode encoded
      else None
  | [] => None
  end.
(** What [write_delivery] and [write_preamble] put behind the length. *)
Definition encode (i : t) : bytes :=
  match i with Delivery d => Delivery.encode d | Preamble p => Preamble.encode p end.
Definition wf (i : t) : Prop := match i with Delivery d => Delivery.wf d | Preamble p => Preamble.wf p end.
End Inbound.

(** * The socket *)

(** The bytes a peer will read, and whether a write still goes through. *)
Record Stream := mk_stream { written : bytes; alive : bool }.
Definition write_all (s : Stream) (bs : bytes) : Stream :=
  if alive s then mk_stream (written s ++ bs) true else s.
(** [u32::try_from(len).unwrap_or(0).to_le_bytes()]. *)
Definition length_prefix (n : Z) : bytes := le_bytes 4 (if n <=? U32_MAX then n else 0).

(** [HubWriter::send], [write_delivery], [write_preamble]: a length, then the bytes. *)
Definition send (s : Stream) (bs : bytes) : Stream :=
  write_all (write_all s (length_prefix (len bs))) bs.
Definition write_delivery (s : Stream) (d : Delivery.t) : Stream :=
  let encoded := Delivery.encode d in write_all (write_all s (length_prefix (len encoded))) encoded.
Definition write_preamble (s : Stream) (p : Preamble.t) : Stream :=
  let encoded := Preamble.encode p in write_all (write_all s (length_prefix (len encoded))) encoded.

(** [read_exact] on what is left of a stream that ends. *)
Definition read_exact (n : Z) (s : bytes) : option (bytes * bytes) :=
  if len s <? n then None else Some (take (Z.to_nat n) s, drop (Z.to_nat n) s).

Section reading.
Context {A : Type} (parse : bytes -> option A).
(** A thread's loop over its connection: each round takes at least four bytes, so
    a stream's own length is fuel enough. *)
Fixpoint read_loop (fuel : nat) (s : bytes) : list A :=
  match fuel with
  | O => []
  | S fuel =>
      match read_exact 4 s with
      | None => []
      | Some (length, s) =>
          let size := of_le length in
          if (size =? 0) || (MAX_SOCKET_FRAME_BYTES <? size) then []
          else
            match read_exact size s with
            | None => []
            | Some (encoded, s) =>
                match parse encoded with
                | None => []
                | Some a => a :: read_loop fuel s
                end
            end
      end
  end.
End reading.
(** A node's reader thread, and the one the emulator runs per node. *)
Definition read_deliveries (s : bytes) : list Inbound.t := read_loop Inbound.decode (S (length s)) s.
Definition read_frames (s : bytes) : list bytes := read_loop Some (S (length s)) s.

(** [HubSocket::connect]: which of the attempts finds the emulator listening, whether the
    index goes through, and whether the socket can be shared with a reader. *)
Definition CONNECT_ATTEMPTS : nat := 300.
Inductive HubError := Unreachable (address : str) | Handshake.
Definition handshake (index : Z) : bytes := le_bytes 2 (if index <=? U16_MAX then index else 0).
Definition connect (address : str) (index : Z) (listening : nat -> bool) (handed cloned : bool) : result HubError Stream :=
  if existsb listening (seq 0 CONNECT_ATTEMPTS) then
    if handed && cloned then Ok (write_all (mk_stream [] true) (handshake index)) else Err Handshake
  else Err (Unreachable address).

Module HubRadio.
Record t := mk { writer : Stream; inbox : list Inbound.t }.
(** [HubRadio::connect]; nothing has arrived yet. *)
Definition join (address : str) (index : Z) (listening : nat -> bool) (handed cloned : bool) : result HubError t :=
  socket ← connect address index listening handed cloned; Ok (mk socket []).

(** [HubSocket::poll]: preamble notices are skipped. *)
Fixpoint next_delivery (inbox : list Inbound.t) : list Inbound.t * option Delivery.t :=
  match inbox with
  | [] => ([], None)
  | Inbound.Delivery d :: inbox => (inbox, Some d)
  | Inbound.Preamble _ :: inbox => next_delivery inbox
  end.
Definition event (d : Delivery.t) : RadioEvent :=
  match Delivery.verdict d with
  | Verdict.Decoded => EvReceived (Received.mk (Delivery.payload d) (Delivery.rssi_dbm d) (Delivery.snr_db d))
  | Verdict.HeaderError => EvHeaderError (Delivery.rssi_dbm d)
  | Verdict.CrcError => EvCrcError (Delivery.rssi_dbm d)
  end.
Definition transmit (r : t) (bs : bytes) : t * result RadioError unit :=
  if MAX_SOCKET_FRAME_BYTES <? len bs then (r, Err (TooLong (len bs) MAX_SOCKET_FRAME_BYTES))
  else (mk (send (writer r) bs) (inbox r), Ok tt).
Definition poll (r : t) : t * option RadioEvent :=
  let '(inbox, d) := next_delivery (inbox r) in (mk (writer r) inbox, event <$> d).
End HubRadio.

#[global] Instance hub_radio : Radio HubRadio.t := {
  radio_transmit := HubRadio.transmit;
  radio_poll := HubRadio.poll;
}.

(** * Formats *)

Ltac bytes_of_parts := unfold wf_bytes; repeat (apply Forall_cons_2; [assumption|]); apply Forall_nil_2.

Section formats.
Lemma of_signed_range w z : 0 <= w -> 0 <= of_signed w z < 2 ^ w.
Proof. intros. apply Z.mod_pos_bound, Z.pow_pos_nonneg; lia. Qed.
Lemma of_to_signed w z : 0 < w -> 0 <= z < 2 ^ w -> of_signed w (to_signed w z) = z.
Proof.
  intros Hw Hz. unfold of_signed, to_signed. destruct (z <? _); [by apply Z.mod_small|].
  symmetry. apply (Z.mod_unique_pos _ _ (-1)); lia.
Qed.
Lemma to_signed_range w z : 0 < w -> 0 <= z < 2 ^ w -> - 2 ^ (w - 1) <= to_signed w z < 2 ^ (w - 1).
Proof.
  intros Hw Hz. assert (2 ^ w = 2 * 2 ^ (w - 1)) as Hpow by (rewrite <- Z.pow_succ_r by lia; f_equal; lia).
  unfold to_signed. destruct (Z.ltb_spec z (2 ^ (w - 1))); lia.
Qed.
Lemma verdict_byte v : Verdict.from_byte (Verdict.byte v) = Some v.
Proof. by destruct v. Qed.
Lemma verdict_from_byte b v : Verdict.from_byte b = Some v -> Verdict.byte v = b.
Proof. unfold Verdict.from_byte. repeat case_match; intros Hv; by inversion Hv. Qed.


Lemma delivery_roundtrip d : Delivery.wf d -> Delivery.decode (Delivery.encode d) = Some d.
Proof.
  destruct d as [body r n a v]. intros (_ & Hr & Hn & Ha). cbn in Hr, Hn, Ha.
  unfold Delivery.encode, Delivery.decode. cbn [Delivery.payload Delivery.rssi_dbm Delivery.snr_db Delivery.airtime_ms Delivery.verdict].
  pose proof (of_le_le_bytes 2 (of_signed 16 r) (of_signed_range 16 r ltac:(lia))) as H2.
  pose proof (of_le_le_bytes 1 (of_signed 8 n) (of_signed_range 8 n ltac:(lia))) as H1.
  pose proof (of_le_le_bytes 4 a ltac:(rewrite pow256_4; unfold is_u32 in *; lia)) as H4.
  cbn [le_bytes] in *. cbn [app length nth drop DELIVERY_HEADER_BYTES Nat.ltb Nat.leb]. rewrite Z.eqb_refl. cbn [negb orb].
  rewrite H1, H2, H4, verdict_byte, !signed_roundtrip by (try done; lia). done.
Qed.
Lemma delivery_canonical e d : wf_bytes e -> Delivery.decode e = Some d -> Delivery.wf d /\ Delivery.encode d = e.
Proof.
  intros Hwf. unfold Delivery.decode.
  destruct (Nat.ltb_spec (length e) DELIVERY_HEADER_BYTES) as [|Hlen]; [done|]. cbn [orb].
  destruct (Z.eqb_spec (nth 0 e 0) DELIVERY_TAG) as [Htag|]; [|done]. cbn [negb]. cbv zeta.
  destruct (Verdict.from_byte (nth 8 e 0)) as [v|] eqn:Hv; [|done]. cbn [mbind option_bind]. intros Hd.
  apply verdict_from_byte in Hv. unfold DELIVERY_HEADER_BYTES in *.
  destruct e as [|b0 [|b1 [|b2 [|b3 [|b4 [|b5 [|b6 [|b7 [|b8 body]]]]]]]]]; cbn [length] in Hlen; try lia.
  cbn [nth drop] in *. rewrite drop_0 in Hd. subst b0. assert (d = Delivery.mk body (to_signed 16 (of_le [b1; b2])) (to_signed 8 (of_le [b3]))
    (of_le [b4; b5; b6; b7]) v) as -> by congruence.
  do 9 (apply Forall_cons in Hwf as [? Hwf]).
  assert (wf_bytes [b1; b2]) as W2 by bytes_of_parts. assert (wf_bytes [b3]) as W1 by bytes_of_parts.
  assert (wf_bytes [b4; b5; b6; b7]) as W4 by bytes_of_parts.
  pose proof (of_le_bound _ W2) as B2. pose proof (of_le_bound _ W1) as B1. pose proof (of_le_bound _ W4) as B4.
  cbn [length] in *. rewrite pow256_2 in B2. rewrite pow256_1 in B1. rewrite pow256_4 in B4. split.
  - unfold Delivery.wf; cbn -[to_signed of_le Z.pow]. split_and!; try done; try (unfold is_u32; lia);
      first [apply (to_signed_range 16) | apply (to_signed_range 8)]; unfold U16_MAX, U8_MAX in *; lia.
  - unfold Delivery.encode. cbn [Delivery.payload Delivery.rssi_dbm Delivery.snr_db Delivery.airtime_ms Delivery.verdict].
    rewrite !of_to_signed by (unfold U16_MAX, U8_MAX in *; lia).
    pose proof (le_bytes_of_le _ W2) as E2. pose proof (le_bytes_of_le _ W1) as E1. pose proof (le_bytes_of_le _ W4) as E4.
    cbn [length] in E1, E2, E4. rewrite E1, E2, E4, Hv. done.
Qed.
Lemma preamble_roundtrip p : Preamble.wf p -> Preamble.decode (Preamble.encode p) = Some p.
Proof.
  destruct p as [r a]. intros (Hr & Ha). cbn in Hr, Ha.
  unfold Preamble.encode, Preamble.decode. cbn [Preamble.rssi_dbm Preamble.airtime_ms].
  pose proof (of_le_le_bytes 2 (of_signed 16 r) (of_signed_range 16 r ltac:(lia))) as H2.
  pose proof (of_le_le_bytes 4 a ltac:(rewrite pow256_4; unfold is_u32 in *; lia)) as H4.
  cbn [le_bytes] in *. cbn [app length nth PREAMBLE_BYTES Nat.eqb]. rewrite Z.eqb_refl. cbn [negb orb].
  by rewrite H2, H4, signed_roundtrip by (try done; lia).
Qed.
Lemma preamble_canonical e p : wf_bytes e -> Preamble.decode e = Some p -> Preamble.wf p /\ Preamble.encode p = e.
Proof.
  intros Hwf. unfold Preamble.decode.
  destruct (Nat.eqb_spec (length e) PREAMBLE_BYTES) as [Hlen|]; [|done]. cbn [orb negb].
  destruct (Z.eqb_spec (nth 0 e 0) PREAMBLE_TAG) as [Htag|]; [|done]. cbn [negb]. intros Hd. unfold PREAMBLE_BYTES in *.
  destruct e as [|b0 [|b1 [|b2 [|b3 [|b4 [|b5 [|b6 [|]]]]]]]]; cbn [length] in Hlen; try lia.
  cbn [nth] in *. subst b0. assert (p = Preamble.mk (to_signed 16 (of_le [b1; b2])) (of_le [b3; b4; b5; b6])) as -> by congruence.
  do 7 (apply Forall_cons in Hwf as [? Hwf]).
  assert (wf_bytes [b1; b2]) as W2 by bytes_of_parts.
  assert (wf_bytes [b3; b4; b5; b6]) as W4 by bytes_of_parts.
  pose proof (of_le_bound _ W2) as B2. pose proof (of_le_bound _ W4) as B4.
  cbn [length] in *. rewrite pow256_2 in B2. rewrite pow256_4 in B4. split.
  - unfold Preamble.wf; cbn -[to_signed of_le Z.pow]. split; [|unfold is_u32; lia].
    apply (to_signed_range 16); unfold U16_MAX in *; lia.
  - unfold Preamble.encode. cbn [Preamble.rssi_dbm Preamble.airtime_ms].
    rewrite of_to_signed by (unfold U16_MAX in *; lia).
    pose proof (le_bytes_of_le _ W2) as E2. pose proof (le_bytes_of_le _ W4) as E4.
    cbn [length] in E2, E4. by rewrite E2, E4.
Qed.
Lemma inbound_decode_encode i : Inbound.wf i -> Inbound.decode (Inbound.encode i) = Some i.
Proof.
  destruct i as [d|p]; intros Hwf.
  - transitivity (Inbound.Delivery <$> Delivery.decode (Delivery.encode d)); [reflexivity|].
    by rewrite delivery_roundtrip.
  - transitivity (Inbound.Preamble <$> Preamble.decode (Preamble.encode p)); [reflexivity|].
    by rewrite preamble_roundtrip.
Qed.

(** What the hub sends is read back exactly, signed powers included, and the
    format has one spelling: any bytes a node accepts are the encoding of the
    message it made of them, whose fields are in range. *)
Theorem inbound_codec (i : Inbound.t) (e : bytes) : Inbound.wf i -> wf_bytes e ->
  Inbound.decode (Inbound.encode i) = Some i
  /\ (forall j, Inbound.decode e = Some j -> Inbound.wf j /\ Inbound.encode j = e).
Proof.
  intros Hi He. split; [by apply inbound_decode_encode|]. intros j. unfold Inbound.decode.
  destruct e as [|tag rest]; [done|]. destruct (tag =? DELIVERY_TAG); [|destruct (tag =? PREAMBLE_TAG); [|done]].
  - intros (d & Hd & ->)%fmap_Some. by apply delivery_canonical.
  - intros (p & Hp & ->)%fmap_Some. by apply preamble_canonical.
Qed.
Lemma inbound_codec_witness :
  Inbound.decode (Inbound.encode (Inbound.Delivery (Delivery.mk [1; 2] (-132) (-15) 370 Verdict.CrcError)))
  = Some (Inbound.Delivery (Delivery.mk [1; 2] (-132) (-15) 370 Verdict.CrcError)).
Proof.
  refine (proj1 (inbound_codec (Inbound.Delivery (Delivery.mk [1; 2] (-132) (-15) 370 Verdict.CrcError)) [] _ _)).
  - split_and!; [by apply (bool_decide_unpack _)|cbn; lia..|split; vm_compute; discriminate].
  - constructor.
Defined.
End formats.

(** * Streams of messages *)

(** One message as it is written: its length, then it. *)
Definition framed (bs : bytes) : bytes := length_prefix (len bs) ++ bs.
Definition socket_fits (bs : bytes) : Prop := 1 <= len bs <= MAX_SOCKET_FRAME_BYTES.

Section streams.
Context {A : Type} (parse : bytes -> option A).

Lemma read_exact_app (a b : bytes) : read_exact (len a) (a ++ b) = Some (a, b).
Proof.
  unfold read_exact, len. rewrite length_app.
  destruct (Z.ltb_spec (Z.of_nat (length a + length b)) (Z.of_nat (length a))); [lia|].
  rewrite Nat2Z.id. by rewrite take_app_length, drop_app_length.
Qed.
Lemma read_exact_prefix n (s : bytes) : len s < n -> read_exact n s = None.
Proof. intros H. unfold read_exact. by destruct (Z.ltb_spec (len s) n); [|lia]. Qed.
Lemma read_exact_some n (s a b : bytes) : 0 <= n -> read_exact n s = Some (a, b) -> s = a ++ b /\ len a = n.
Proof.
  intros Hn. unfold read_exact. destruct (Z.ltb_spec (len s) n) as [|H]; [done|]. intros Hab.
  assert (a = take (Z.to_nat n) s /\ b = drop (Z.to_nat n) s) as [-> ->] by (split; congruence).
  split; [by rewrite take_drop|]. unfold len in *. rewrite length_take. lia.
Qed.
Lemma length_prefix_read n : 0 <= n <= U32_MAX -> len (length_prefix n) = 4 /\ of_le (length_prefix n) = n.
Proof.
  intros Hn. unfold length_prefix. destruct (Z.leb_spec n U32_MAX); [|lia]. unfold len. rewrite length_le_bytes.
  split; [done|]. apply of_le_le_bytes. rewrite pow256_4. lia.
Qed.

(** One round of the loop. *)
Definition read_one (s : bytes) : option (A * bytes) :=
  '(length, s) ← read_exact 4 s;
  let size := of_le length in
  if (size =? 0) || (MAX_SOCKET_FRAME_BYTES <? size) then None
  else '(encoded, s) ← read_exact size s; a ← parse encoded; Some (a, s).
Lemma read_loop_S fuel s : read_loop parse (S fuel) s
  = match read_one s with Some (a, s) => a :: read_loop parse fuel s | None => [] end.
Proof.
  cbn [read_loop]. unfold read_one. destruct (read_exact 4 s) as [[l s1]|]; [|done]. cbn [mbind option_bind]. cbv zeta.
  destruct (_ || _); [done|]. destruct (read_exact _ s1) as [[e s2]|]; [|done]. cbn [mbind option_bind].
  by destruct (parse e).
Qed.
Lemma read_one_framed (m rest : bytes) : len m <= U32_MAX ->
  read_one (framed m ++ rest) = if decide (socket_fits m) then a ← parse m; Some (a, rest) else None.
Proof.
  intros Hm. assert (0 <= len m) by (unfold len; lia). destruct (length_prefix_read (len m)) as [H4 Hle]; [lia|].
  unfold read_one, framed. rewrite <- app_assoc, <- H4, read_exact_app. cbn [mbind option_bind]. cbv zeta. rewrite Hle.
  unfold socket_fits in *. destruct (Z.eqb_spec (len m) 0); destruct (Z.ltb_spec MAX_SOCKET_FRAME_BYTES (len m));
    case_decide; try lia; cbn [orb]; try done.
  by rewrite read_exact_app.
Qed.
Lemma read_one_shrinks s a s' : read_one s = Some (a, s') -> exists c, s = c ++ s' /\ (4 <= length c)%nat.
Proof.
  unfold read_one. destruct (read_exact 4 s) as [[l s1]|] eqn:E1; [|done]. cbn [mbind option_bind]. cbv zeta.
  destruct (Z.eqb_spec (of_le l) 0); [done|]. destruct (Z.ltb_spec MAX_SOCKET_FRAME_BYTES (of_le l)); [done|]. cbn [orb].
  destruct (read_exact (of_le l) s1) as [[e s2]|] eqn:E2; [|done]. cbn [mbind option_bind].
  destruct (parse e); [|done]. cbn [mbind option_bind]. intros H'. assert (s2 = s') as -> by congruence.
  apply read_exact_some in E1 as [-> H4]; [|lia]. exists (l ++ e). unfold len in H4.
  unfold read_exact in E2. destruct (Z.ltb_spec (len s1) (of_le l)); [done|].
  assert (e = take (Z.to_nat (of_le l)) s1 /\ s' = drop (Z.to_nat (of_le l)) s1) as [-> ->] by (split; congruence).
  rewrite <- app_assoc, take_drop, length_app. split; [done|lia].
Qed.
Definition read_all (s : bytes) : list A := read_loop parse (S (length s)) s.
Lemma read_loop_enough k n s : (length s < n)%nat -> (length s < k)%nat -> read_loop parse n s = read_loop parse k s.
Proof.
  revert k s; induction n as [|n IH]; intros [|k] s Hn Hk; [lia..|]. rewrite !read_loop_S.
  destruct (read_one s) as [[a s']|] eqn:E; [|done]. apply read_one_shrinks in E as (c & -> & Hc).
  rewrite length_app in *. f_equal. apply IH; lia.
Qed.
Lemma read_all_step s : read_all s = match read_one s with Some (a, s') => a :: read_all s' | None => [] end.
Proof.
  unfold read_all at 1. rewrite read_loop_S. destruct (read_one s) as [[a s']|] eqn:E; [|done].
  apply read_one_shrinks in E as (c & -> & Hc). f_equal. apply read_loop_enough; rewrite ?length_app; lia.
Qed.
Lemma read_all_framed (ms : list bytes) (out : list A) rest :
  Forall2 (fun m a => socket_fits m /\ parse m = Some a) ms out ->
  read_all (concat (framed <$> ms) ++ rest) = out ++ read_all rest.
Proof.
  induction 1 as [|m a ms out [Hfit Hp] _ IH]; [done|]. rewrite fmap_cons. cbn [concat]. rewrite <- app_assoc.
  rewrite read_all_step, read_one_framed by (unfold socket_fits, MAX_SOCKET_FRAME_BYTES, U32_MAX in *; lia).
  rewrite decide_True by done. rewrite Hp. cbn [mbind option_bind app]. by rewrite IH.
Qed.
(** A connection cut short delivers a prefix of what it would have. *)
Lemma read_exact_more n (p s a b : bytes) : p `prefix_of` s -> read_exact n p = Some (a, b) ->
  exists b', read_exact n s = Some (a, b') /\ b `prefix_of` b'.
Proof.
  intros [t ->]. unfold read_exact. destruct (Z.ltb_spec (len p) n); [done|]. intros Hab.
  assert (a = take (Z.to_nat n) p /\ b = drop (Z.to_nat n) p) as [-> ->] by (split; congruence).
  unfold len in *. rewrite length_app. destruct (Z.ltb_spec (Z.of_nat (length p + length t)) n); [lia|].
  rewrite take_app_le, drop_app_le by lia. eexists. split; [done|]. by apply prefix_app_r.
Qed.
Lemma read_all_prefix p s : p `prefix_of` s -> read_all p `prefix_of` read_all s.
Proof.
  assert (forall n p s, (length p < n)%nat -> p `prefix_of` s -> read_all p `prefix_of` read_all s) as H.
  2:{ apply (H (S (length p))). lia. }
  clear. induction n as [|n IH]; intros p s Hn Hps; [lia|]. rewrite (read_all_step p).
  destruct (read_one p) as [[a p']|] eqn:E; [|apply prefix_nil].
  pose proof (read_one_shrinks _ _ _ E) as (c & Hc & Hlen).
  assert (exists s', read_one s = Some (a, s') /\ p' `prefix_of` s') as (s' & Es & Hp').
  { unfold read_one in *. destruct (read_exact 4 p) as [[l p1]|] eqn:E1; [|done].
    destruct (read_exact_more _ _ s _ _ Hps E1) as (s1 & -> & Hps1). cbn [mbind option_bind] in *. cbv zeta in *.
    destruct (_ || _); [done|]. destruct (read_exact _ p1) as [[e p2]|] eqn:E2; [|done].
    destruct (read_exact_more _ _ s1 _ _ Hps1 E2) as (s2 & -> & Hps2). cbn [mbind option_bind] in *.
    destruct (parse e); [|done]. cbn [mbind option_bind] in *. exists s2. split; congruence. }
  rewrite (read_all_step s), Es. apply prefix_cons, IH; [|done]. subst p. rewrite length_app in Hn. lia.
Qed.
End streams.

(** The hub writing to a node, a node writing to the hub, and a node polling. *)
Definition hub_write (s : Stream) (i : Inbound.t) : Stream :=
  match i with Inbound.Delivery d => write_delivery s d | Inbound.Preamble p => write_preamble s p end.
Fixpoint poll_all (fuel : nat) (r : HubRadio.t) : list RadioEvent :=
  match fuel with
  | O => []
  | S fuel => match radio_poll r with (r, Some e) => e :: poll_all fuel r | (_, None) => [] end
  end.
Definition deliveries (msgs : list Inbound.t) : list Delivery.t :=
  omap (fun i => match i with Inbound.Delivery d => Some d | Inbound.Preamble _ => None end) msgs.

Section connection.
Lemma hub_writes s msgs : alive s = true ->
  foldl hub_write s msgs = mk_stream (written s ++ concat (framed <$> (Inbound.encode <$> msgs))) true.
Proof.
  revert s; induction msgs as [|i msgs IH]; intros [w a] Ha; cbn in Ha; subst a; [by rewrite app_nil_r|].
  rewrite !fmap_cons. cbn [foldl concat]. rewrite IH by (by destruct i). f_equal.
  destruct i; cbn -[framed Delivery.encode Preamble.encode]; rewrite <- !app_assoc; unfold framed; by rewrite <- app_assoc.
Qed.
Lemma radio_writes r fs : alive (HubRadio.writer r) = true -> Forall (fun f => len f <= MAX_SOCKET_FRAME_BYTES) fs ->
  HubRadio.writer (foldl (fun r f => (HubRadio.transmit r f).1) r fs)
  = mk_stream (written (HubRadio.writer r) ++ concat (framed <$> fs)) true.
Proof.
  intros Ha Hfs. revert r Ha. induction Hfs as [|f fs Hf _ IH]; intros [[w a] ib] Ha; cbn in Ha; subst a.
  { by rewrite app_nil_r. }
  rewrite fmap_cons. cbn [foldl concat]. unfold HubRadio.transmit at 2.
  destruct (Z.ltb_spec MAX_SOCKET_FRAME_BYTES (len f)); [lia|]. cbn [fst]. rewrite IH by done. f_equal.
  cbn. unfold framed. by rewrite <- !app_assoc.
Qed.
Lemma poll_everything r n : (length (HubRadio.inbox r) < n)%nat ->
  poll_all n r = HubRadio.event <$> deliveries (HubRadio.inbox r).
Proof.
  revert r; induction n as [|n IH]; intros [w ib] Hn; [lia|]. cbn [HubRadio.inbox] in *.
  cbn [poll_all radio_poll hub_radio]. unfold HubRadio.poll. cbn [HubRadio.inbox HubRadio.writer].
  assert (exists ib', (HubRadio.next_delivery ib = (ib', None) /\ deliveries ib = [])
          \/ (exists d, HubRadio.next_delivery ib = (ib', Some d) /\ deliveries ib = d :: deliveries ib'
              /\ (length ib' < length ib)%nat)) as (ib' & [[-> ->]|(d & -> & -> & Hl)]); [|done|].
  - clear. induction ib as [|[d|p] ib IH]; [exists []; by left|exists ib; right; exists d; simpl; split_and!; [done..|lia]|].
    destruct IH as (ib' & [[E1 E2]|(d & E1 & E2 & E3)]); exists ib'; [by left|right; exists d; simpl; split_and!; [done..|lia]].
  - cbn [fmap option_fmap option_map]. rewrite fmap_cons. f_equal. apply (IH (HubRadio.mk w ib')). cbn. lia.
Qed.
Lemma delivery_length d : len (Delivery.encode d) = 9 + len (Delivery.payload d).
Proof. unfold Delivery.encode, len. rewrite !length_app, !length_le_bytes. cbn [length]. lia. Qed.

(** Both directions of a node's connection carry whole frames in order: what a
    radio transmits (each frame non-empty and within the socket's limit) is what
    the emulator's loop reads; what the emulator writes -- preamble notices among
    deliveries whose payload leaves room for the header -- is what the node's radio
    reports when polled, one event per delivery; and a connection cut after any
    byte has delivered a prefix of that, never a torn or invented message. *)
Theorem connection_carries_frames (r : HubRadio.t) (s : Stream) (fs : list bytes) (msgs : list Inbound.t) :
  HubRadio.writer r = mk_stream [] true -> s = mk_stream [] true ->
  Forall socket_fits fs ->
  Forall (fun i => Inbound.wf i /\ match i with
                                   | Inbound.Delivery d => len (Delivery.payload d) + 9 <= MAX_SOCKET_FRAME_BYTES
                                   | _ => True
                                   end) msgs ->
  read_frames (written (HubRadio.writer (foldl (fun r f => (radio_transmit r f).1) r fs))) = fs
  /\ let arrived := written (foldl hub_write s msgs) in
     read_deliveries arrived = msgs
     /\ (forall w, poll_all (S (length msgs)) (HubRadio.mk w (read_deliveries arrived)) = HubRadio.event <$> deliveries msgs)
     /\ (forall cut, cut `prefix_of` arrived -> read_deliveries cut `prefix_of` msgs).
Proof.
  intros Hr -> Hfs His.
  assert (read_deliveries (written (foldl hub_write (mk_stream [] true) msgs)) = msgs) as Hread.
  { rewrite hub_writes by done. cbn [written app]. rewrite <- (app_nil_r (concat _)).
    transitivity (msgs ++ read_all Inbound.decode []); [|by rewrite app_nil_r].
    apply read_all_framed. apply Forall2_fmap_l, Forall_Forall2_diag. eapply Forall_impl; [exact His|].
    intros i [Hwf Hlen]. split; [|by apply inbound_decode_encode]. unfold socket_fits, MAX_SOCKET_FRAME_BYTES in *.
    destruct i as [d|p]; cbn [Inbound.encode]; [rewrite delivery_length; unfold len in *; lia|].
    unfold Preamble.encode, len. rewrite !length_app, !length_le_bytes. cbn [length]. lia. }
  split.
  - change (fun r f => (radio_transmit r f).1) with (fun r f => (HubRadio.transmit r f).1).
    rewrite radio_writes, Hr; [|by rewrite Hr|eapply Forall_impl; [exact Hfs|unfold socket_fits; lia]].
    cbn [written app]. rewrite <- (app_nil_r (concat _)).
    transitivity (fs ++ read_all Some []); [|by rewrite app_nil_r]. apply read_all_framed.
    apply Forall_Forall2_diag. eapply Forall_impl; [exact Hfs|]. done.
  - intros arrived. unfold arrived. rewrite Hread. split_and!; [done| |].
    + intros w. by rewrite poll_everything by (cbn; lia).
    + intros cut Hcut. rewrite <- Hread. by apply read_all_prefix.
Qed.
Lemma connection_carries_frames_witness :
  let d := Delivery.mk [7; 8] (-80) 12 300 Verdict.Decoded in
  let p := Preamble.mk (-80) 300 in
  poll_all 3 (HubRadio.mk (mk_stream [] true)
    (read_deliveries (written (foldl hub_write (mk_stream [] true) [Inbound.Preamble p; Inbound.Delivery d]))))
  = [EvReceived (Received.mk [7; 8] (-80) 12)].
Proof.
  intros d p. destruct (connection_carries_frames (HubRadio.mk (mk_stream [] true) []) (mk_stream [] true) []
    [Inbound.Preamble p; Inbound.Delivery d]) as (_ & _ & H & _); [done|done|constructor| |apply H].
  apply Forall_cons_2; [|apply Forall_singleton]; cbn; unfold Preamble.wf, Delivery.wf, is_u32, U32_MAX, MAX_SOCKET_FRAME_BYTES, len;
    cbn; split_and!; try lia; try done. by apply (bool_decide_unpack _).
Defined.

(** The socket's own bound is eight bytes too wide. A frame of 4088 to 4096
    bytes is accepted by [transmit] and read by the emulator, but the delivery
    that carries it is over the limit of the node's reader, whose thread ends
    there: that node hears nothing ever again. *)
Theorem oversize_frame_deafens (r : HubRadio.t) (bs : bytes) (rssi snr airtime : Z) (v : Verdict.t) (rest : bytes) :
  HubRadio.writer r = mk_stream [] true -> 4088 <= len bs <= MAX_SOCKET_FRAME_BYTES ->
  (radio_transmit r bs).2 = Ok tt
  /\ read_frames (written (HubRadio.writer (radio_transmit r bs).1)) = [bs]
  /\ read_deliveries (written (write_delivery (mk_stream [] true) (Delivery.mk bs rssi snr airtime v)) ++ rest) = [].
Proof.
  intros Hr Hlen. unfold MAX_SOCKET_FRAME_BYTES in Hlen. split_and!.
  - cbn. unfold HubRadio.transmit. by destruct (Z.ltb_spec MAX_SOCKET_FRAME_BYTES (len bs)); [unfold MAX_SOCKET_FRAME_BYTES in *; lia|].
  - pose proof (radio_writes r [bs] ltac:(by rewrite Hr)) as Hw. cbn [foldl] in Hw. cbn [radio_transmit hub_radio].
    rewrite Hw, Hr by (apply Forall_singleton; unfold MAX_SOCKET_FRAME_BYTES; lia). cbn [written app].
    rewrite <- (app_nil_r (concat _)). apply (read_all_framed Some [bs] [bs] []). constructor; [|constructor].
    unfold socket_fits, MAX_SOCKET_FRAME_BYTES. split; [lia|done].
  - cbn [write_delivery write_all alive written app].
    change (read_all Inbound.decode (framed (Delivery.encode (Delivery.mk bs rssi snr airtime v)) ++ rest) = []).
    rewrite read_all_step, read_one_framed by (rewrite delivery_length; cbn; unfold U32_MAX; lia).
    rewrite decide_False; [done|]. unfold socket_fits, MAX_SOCKET_FRAME_BYTES. rewrite delivery_length. cbn. lia.
Qed.
Lemma oversize_frame_deafens_witness :
  read_deliveries (written (write_delivery (mk_stream [] true) (Delivery.mk (replicate 4090 0) (-80) 5 370 Verdict.Decoded))
                   ++ framed (Preamble.encode (Preamble.mk (-80) 370))) = [].
Proof.
  apply (oversize_frame_deafens (HubRadio.mk (mk_stream [] true) []) (replicate 4090 0)); [done|].
  unfold len, MAX_SOCKET_FRAME_BYTES. rewrite length_replicate. lia.
Defined.
End connection.
