(* ===== verification/HubRelay.v ===== *)
(** The channel emulator itself (src/src/bin/lcq-hub.rs): the shared medium between the
    nodes' connections. A frame takes its airtime, and when it ends every receiver is told
    what became of it there, or nothing.

    Instants are nanoseconds. The relay reads a clock and takes a lock on the map of
    connections, which another thread fills; the [n]-th reading and what has become of
    the map at the [n]-th lock are those of the [Host]. The map is a list in its own
    order. [trace] is all the relay has done, in order. *)
From S2P Require Import Prelude Float Radio Crypto Channel Rng Phy Medium Manifest Args Hub.

Definition GARBLE : Z := 0xA5.
Definition NOMINAL_RSSI_DBM : f64 := F64.of_Z (-80).
Definition NANOS : Z := 1000000.
Definition as_millis (duration : Z) : Z := duration / NANOS.
Definition from_millis (ms : Z) : Z := ms * NANOS.
(** [saturating_duration_since] and [elapsed]. *)
Definition since (later earlier : Z) : Z := Z.max 0 (later - earlier).
(** [u32::try_from(n).unwrap_or(u32::MAX)]. *)
Definition saturated_u32 (n : Z) : Z := Z.min n U32_MAX.

Module Incoming.
Record t := mk { from : Z; payload : bytes; at_ : Z }.
End Incoming.

Module InFlight.
Record t := mk { from : Z; payload : bytes; starts_at : Z; ends_at : Z; done : bool }.
Definition finish (f : t) : t := mk (from f) (payload f) (starts_at f) (ends_at f) true.
Definition overlaps (f o : t) : bool := (starts_at o <? ends_at f) && (starts_at f <? ends_at o).
End InFlight.

Module Options.
Record t := mk {
  bind : str;
  port : Z;
  fleet : Z;
  scale : Z;
  loss : f64;
  partition : bool;
  quiet : bool;
  isolate_ms : Z;
  spacing_m : option f64;
}.
Import Args.
(** Parsing a float is the standard library's. *)
Definition from_args (parse_f64 : str -> option f64) (args : list str) : t := {|
  bind := default (lit "127.0.0.1") (value args (lit "--bind"));
  port := number args (lit "--port") (parse_unsigned U16_MAX) 0;
  fleet := number args (lit "--fleet") (parse_unsigned U64_MAX) 5;
  scale := number args (lit "--scale") (parse_unsigned U32_MAX) 100;
  loss := default (F64.of_Z 0) (v ← value args (lit "--loss"); parse_f64 v);
  partition := flag args (lit "--partition");
  quiet := flag args (lit "--quiet");
  isolate_ms := number args (lit "--isolate-for-ms") (parse_unsigned U64_MAX) 0;
  spacing_m := v ← value args (lit "--spacing-m"); parse_f64 v;
|}.
Definition rssi `{Libm} (o : t) (from to : Z) : f64 :=
  match spacing_m o with
  | None => NOMINAL_RSSI_DBM
  | Some spacing => rssi_dbm (Link.new (F64.mul spacing (F64.of_Z (Z.abs (from - to))))) TX_POWER_DBM
  end.
Definition same_half (o : t) (from to : Z) : bool := Bool.eqb (from <? fleet o / 2) (to <? fleet o / 2).
End Options.

(** A log line, as its fields. *)
Module Line.
Inductive t :=
| Lost (from to : Z) (why : str) (rssi_dbm : option f64)
| Collision (a b at_ : Z) (why : str)
| Delivered (from : Z) (author sequence : option Z) (size to : Z).
End Line.
Module Act.
Inductive t :=
| Judged (frame : InFlight.t) (overlappers : list InFlight.t)
| Logged (line : Line.t)
| Sent (target : Z) (message : Inbound.t) (ok : bool).
End Act.

(** What waiting on the nodes' channel gives. *)
Module Event.
Inductive t := Arrived (incoming : Incoming.t) | Timeout | Disconnected.
End Event.

(** What one receiver gets: the frame as sent, or its wreck. *)
Definition millis_i16 (power : f64) : Z := F64.as_i16 (F64.clamp (F64.round power) (F64.of_Z (-300)) (F64.of_Z 100)).
Definition delivery (frame : InFlight.t) (power : f64) (verdict : Verdict.t) : Delivery.t :=
  Delivery.mk
    (match verdict with
     | Verdict.Decoded => InFlight.payload frame
     | Verdict.CrcError => (fun byte => Z.lxor byte GARBLE) <$> InFlight.payload frame
     | Verdict.HeaderError => []
     end)
    (millis_i16 power) (F64.as_i8 (F64.round (snr_db power)))
    (saturated_u32 (as_millis (since (InFlight.ends_at frame) (InFlight.starts_at frame)))) verdict.

Definition next_f64 (seed : Z) : Z * f64 := Rng.next_f64 seed.

Class Host := { instant : nat -> Z; meanwhile : nat -> list (Z * Stream) -> list (Z * Stream) }.

Module Relay.
Record t := mk {
  frames : list InFlight.t;
  seed : Z;
  first_frame_at : option Z;
  writers : list (Z * Stream);
  readings : nat;
  locks : nat;
  trace : list Act.t;
}.
Definition set_frames (s : t) (frames : list InFlight.t) : t :=
  mk frames (seed s) (first_frame_at s) (writers s) (readings s) (locks s) (trace s).
Definition set_seed (s : t) (seed : Z) : t :=
  mk (frames s) seed (first_frame_at s) (writers s) (readings s) (locks s) (trace s).
Definition set_first (s : t) (first : Z) : t :=
  mk (frames s) (seed s) (Some first) (writers s) (readings s) (locks s) (trace s).
Definition act (s : t) (a : Act.t) : t :=
  mk (frames s) (seed s) (first_frame_at s) (writers s) (readings s) (locks s) (trace s ++ [a]).
Definition INITIAL_SEED : Z := 0x2545F4914F6CDD1D.
Definition start : t := mk [] INITIAL_SEED None [] 0 0 [].
End Relay.
Import Relay.
Implicit Types (s : Relay.t) (frame : InFlight.t).

Section relay.
Context `{Libm, Host}.
Context (options : Options.t).

Definition now (s : Relay.t) : Relay.t * Z :=
  (mk (frames s) (seed s) (first_frame_at s) (writers s) (S (readings s)) (locks s) (trace s), instant (readings s)).
Definition lock (s : Relay.t) : Relay.t :=
  mk (frames s) (seed s) (first_frame_at s) (meanwhile (locks s) (writers s)) (readings s) (S (locks s)) (trace s).
Definition log (s : Relay.t) (line : Line.t) : Relay.t := if negb (Options.quiet options) then act s (Act.Logged line) else s.
Definition targets (s : Relay.t) : list Z := (writers s).*1.

(** [get_mut], then a write. *)
Fixpoint stream_of (target : Z) (ws : list (Z * Stream)) : option Stream :=
  match ws with [] => None | (t, stream) :: ws => if t =? target then Some stream else stream_of target ws end.
Definition put_stream (target : Z) (stream : Stream) (ws : list (Z * Stream)) : list (Z * Stream) :=
  (fun w => if w.1 =? target then (w.1, stream) else w) <$> ws.
Definition hand_over (s : Relay.t) (target : Z) (message : Inbound.t) : Relay.t * bool :=
  match stream_of target (writers s) with
  | None => (s, false)
  | Some stream =>
      let s := mk (frames s) (seed s) (first_frame_at s) (put_stream target (hub_write stream message) (writers s))
                 (readings s) (locks s) (trace s) in
      (act s (Act.Sent target message (alive stream)), alive stream)
  end.

Definition reaches (s : Relay.t) (from to : Z) : Relay.t * bool :=
  let '(s, first) :=
    match first_frame_at s with
    | Some first => (s, first)
    | None => let '(s, first) := now s in (set_first s first, first)
    end in
  let '(s, at_) := now s in
  let isolated := since at_ first <? from_millis (Options.isolate_ms options) in
  (s, (negb (Options.partition options) && negb isolated) || Options.same_half options from to).

(** * The start of a frame *)

Fixpoint announce_loop (from air : Z) (targets : list Z) (s : Relay.t) : Relay.t :=
  match targets with
  | [] => s
  | target :: targets =>
      if target =? from then announce_loop from air targets s
      else
        let '(s, in_reach) := reaches s from target in
        if negb in_reach then announce_loop from air targets s
        else
          let power := Options.rssi options from target in
          if F64.ltb power SENSITIVITY_DBM then announce_loop from air targets s
          else
            let preamble := Preamble.mk (millis_i16 power) (saturated_u32 (as_millis air)) in
            announce_loop from air targets (hand_over s target (Inbound.Preamble preamble)).1
  end.
Definition announce_start (s : Relay.t) (incoming : Incoming.t) (air : Z) : Relay.t :=
  let s := lock s in announce_loop (Incoming.from incoming) air (targets s) s.

(** * The end of a frame *)

Definition least (l : list Z) (otherwise : Z) : Z := match l with [] => otherwise | x :: l => foldl Z.min x l end.
Definition origin_of (frames : list InFlight.t) (frame : InFlight.t) : Z := least (InFlight.starts_at <$> frames) (InFlight.starts_at frame).
(** [ms]: an instant on the medium's own milliseconds. *)
Definition ms (origin at_ : Z) : Z := as_millis (since at_ origin).
Definition airtime_between (origin : Z) (frame : InFlight.t) : Z :=
  sat_sub (ms origin (InFlight.ends_at frame)) (ms origin (InFlight.starts_at frame)).
Definition overlappers_of (frame : InFlight.t) (others : list InFlight.t) : list InFlight.t :=
  filter (fun o => InFlight.overlaps frame o = true) others.
Definition as_heard (origin target : Z) (o : InFlight.t) : Transmission.t :=
  if InFlight.from o =? target
  then Transmission.own_transmission (ms origin (InFlight.starts_at o)) (airtime_between origin o)
  else Transmission.new (ms origin (InFlight.starts_at o)) (airtime_between origin o) (Options.rssi options (InFlight.from o) target).
(** The overlapping frames a receiver can hear, as it hears them. *)
Fixpoint others_at (origin target : Z) (overlappers : list InFlight.t) (s : Relay.t) : Relay.t * list Transmission.t :=
  match overlappers with
  | [] => (s, [])
  | o :: overlappers =>
      let '(s, in_reach) := reaches s (InFlight.from o) target in
      let '(s, others) := others_at origin target overlappers s in
      (s, if in_reach then as_heard origin target o :: others else others)
  end.
Fixpoint first_interferer (overlappers : list InFlight.t) (target : Z) (s : Relay.t) : Relay.t * Z :=
  match overlappers with
  | [] => (s, U64_MAX)
  | o :: overlappers =>
      let '(s, in_reach) := reaches s (InFlight.from o) target in
      if in_reach then (s, InFlight.from o) else first_interferer overlappers target s
  end.
Definition collided (s : Relay.t) (frame : InFlight.t) (overlappers : list InFlight.t) (target : Z) (why : str) : Relay.t :=
  let '(s, b) := first_interferer overlappers target s in log s (Line.Collision (InFlight.from frame) b target why).
(** One receiver; whether the frame was delivered to it whole. *)
Definition settle_at (frame : InFlight.t) (overlappers : list InFlight.t) (origin target : Z) (s : Relay.t) : Relay.t * bool :=
  if target =? InFlight.from frame then (s, false)
  else
    let '(s, in_reach) := reaches s (InFlight.from frame) target in
    if negb in_reach then (s, false)
    else
      let power := Options.rssi options (InFlight.from frame) target in
      let heard := Transmission.new (ms origin (InFlight.starts_at frame)) (airtime_between origin frame) power in
      let '(s, others) := others_at origin target overlappers s in
      let reception := judge heard others (Acquisition.scaled Acquisition.default_profile (Options.scale options)) in
      match reception with
      | Reception.TooWeak => (log s (Line.Lost (InFlight.from frame) target (lit "weak") (Some power)), false)
      | Reception.NoLock => (collided s frame overlappers target (lit "no_lock"), false)
      | Reception.HeaderError =>
          let s := collided s frame overlappers target (lit "header") in
          ((hand_over s target (Inbound.Delivery (delivery frame power Verdict.HeaderError))).1, false)
      | Reception.CrcError =>
          let s := collided s frame overlappers target (lit "crc") in
          ((hand_over s target (Inbound.Delivery (delivery frame power Verdict.CrcError))).1, false)
      | Reception.Decoded =>
          let '(s, unlucky) :=
            if F64.ltb (F64.of_Z 0) (Options.loss options) then
              let '(seed, u) := next_f64 (seed s) in (set_seed s seed, F64.ltb u (Options.loss options))
            else (s, false) in
          if unlucky then (log s (Line.Lost (InFlight.from frame) target (lit "loss") None), false)
          else hand_over s target (Inbound.Delivery (delivery frame power Verdict.Decoded))
      end.
Fixpoint settle_loop (frame : InFlight.t) (overlappers : list InFlight.t) (origin : Z) (targets : list Z) (delivered_to : Z)
    (s : Relay.t) : Relay.t * Z :=
  match targets with
  | [] => (s, delivered_to)
  | target :: targets =>
      let '(s, delivered) := settle_at frame overlappers origin target s in
      settle_loop frame overlappers origin targets (if delivered then delivered_to + 1 else delivered_to) s
  end.
Definition settle (index : nat) (s : Relay.t) : Relay.t :=
  match frames s !! index with
  | None => s
  | Some frame =>
      let origin := origin_of (frames s) frame in
      let overlappers := overlappers_of frame (delete index (frames s)) in
      let s := act (lock s) (Act.Judged frame overlappers) in
      let '(s, delivered_to) := settle_loop frame overlappers origin (targets s) 0 s in
      if 0 <? delivered_to then
        let header := match peek_frame_header (InFlight.payload frame) with Ok h => Some h | Err _ => None end in
        log s (Line.Delivered (InFlight.from frame) (fst <$> header) (snd <$> header) (len (InFlight.payload frame)) delivered_to)
      else s
  end.

(** * The loop *)

Definition POLL_NS : Z := from_millis 250.
Definition LINGER_NS : Z := 5000000000.
(** How long the channel is waited on. *)
Definition wait_for (frames : list InFlight.t) (at_ : Z) : Z :=
  least ((fun f => since (InFlight.ends_at f) at_) <$> filter (fun f => InFlight.done f = false) frames) POLL_NS.
Definition air_of (incoming : Incoming.t) : Z :=
  from_millis (airtime_ms (len (Incoming.payload incoming)) / Z.max (Options.scale options) 1).
Definition flight_of (incoming : Incoming.t) : InFlight.t :=
  InFlight.mk (Incoming.from incoming) (Incoming.payload incoming) (Incoming.at_ incoming)
    (Incoming.at_ incoming + air_of incoming) false.
Definition has_ended (at_ : Z) (f : InFlight.t) : bool := negb (InFlight.done f) && (InFlight.ends_at f <=? at_).
(** The indices of the frames that have ended. *)
Fixpoint ended (at_ : Z) (index : nat) (frames : list InFlight.t) : list nat :=
  match frames with
  | [] => []
  | f :: frames => if has_ended at_ f then index :: ended at_ (S index) frames else ended at_ (S index) frames
  end.
Definition settle_one (s : Relay.t) (index : nat) : Relay.t :=
  let s := settle index s in set_frames s (alter InFlight.finish index (frames s)).
Definition keeps (at_ : Z) (f : InFlight.t) : bool := negb (InFlight.done f) || (at_ <? InFlight.ends_at f + LINGER_NS).

(** One turn of [relay]: the reading that times the wait, what the channel gave, then the
    frames that have ended. *)
Definition take_in (s : Relay.t) (incoming : Incoming.t) : Relay.t :=
  let s := announce_start s incoming (air_of incoming) in set_frames s (frames s ++ [flight_of incoming]).
Definition sweep (s : Relay.t) : Relay.t :=
  let '(s, at_) := now s in
  let s := foldl settle_one s (ended at_ 0 (frames s)) in
  set_frames s (filter (fun f => keeps at_ f = true) (frames s)).
Definition turn (s : Relay.t) (event : Event.t) : option Relay.t :=
  let '(s, _) := now s in
  match event with
  | Event.Arrived incoming => Some (sweep (take_in s incoming))
  | Event.Timeout => Some (sweep s)
  | Event.Disconnected => None
  end.
(** [relay], until the channel closes or the events run out. *)
Fixpoint relay (s : Relay.t) (events : list Event.t) : Relay.t :=
  match events with
  | [] => s
  | event :: events => match turn s event with Some s => relay s events | None => s end
  end.
End relay.

(** A node's connection: its index, then its frames; each is sent on as it is read. *)
Definition accept_node (sent : bytes) : option (Z * list bytes) :=
  '(index, rest) ← read_exact 2 sent; Some (of_le index, read_frames rest).

(** * Joining *)

Lemma accept_handshake (index : Z) (rest : bytes) : is_u16 index ->
  accept_node (handshake index ++ rest) = Some (index, read_frames rest).
Proof.
  intros Hi. unfold handshake. rewrite (proj2 (Z.leb_le index U16_MAX)) by apply Hi.
  assert (forall h : bytes, length h = 2%nat -> accept_node (h ++ rest) = Some (of_le h, read_frames rest)) as Hacc.
  { intros h Hh. unfold accept_node, read_exact, len. rewrite length_app, Hh.
    rewrite (proj2 (Z.ltb_ge _ _)) by lia. cbn [mbind option_bind]. change (Z.to_nat 2) with 2%nat.
    rewrite <- Hh. by rewrite take_app_length, drop_app_length. }
  rewrite Hacc by apply length_le_bytes. rewrite of_le_le_bytes by (rewrite pow256_2; unfold is_u16, U16_MAX in *; lia). done.
Qed.
(** A node that joins is known to the emulator by its own index, up to the width of the
    handshake, and its frames follow it there in order; it gives up only after three
    hundred attempts that all failed. *)
Theorem joined_as_itself (address : str) (index : Z) (listening : nat -> bool) (handed cloned : bool) (frames : list bytes) :
  is_u16 index -> Forall socket_fits frames ->
  match HubRadio.join address index listening handed cloned with
  | Ok r => accept_node (written (HubRadio.writer (foldl (fun r f => (radio_transmit r f).1) r frames))) = Some (index, frames)
  | Err (Unreachable _) => forall k, (k < 300)%nat -> listening k = false
  | Err Handshake => handed && cloned = false
  end.
Proof.
  intros Hi Hfs. unfold HubRadio.join, connect. destruct (existsb listening (seq 0 CONNECT_ATTEMPTS)) eqn:Hl; cbn [mbind result_bind].
  2:{ intros k Hk. destruct (listening k) eqn:Hlk; [|done]. assert (existsb listening (seq 0 CONNECT_ATTEMPTS) = true) as Hex; [|congruence].
      apply existsb_exists. exists k. split; [|done]. apply in_seq. unfold CONNECT_ATTEMPTS. lia. }
  destruct (handed && cloned) eqn:Hc; cbn [mbind result_bind]; [|done].
  change (fun r f => (radio_transmit r f).1) with (fun r f => (HubRadio.transmit r f).1).
  rewrite radio_writes; [|done|eapply Forall_impl; [exact Hfs|unfold socket_fits; lia]].
  cbn [written write_all alive HubRadio.writer app]. rewrite accept_handshake by done.
  do 2 f_equal. rewrite <- (app_nil_r (concat _)).
  transitivity (frames ++ read_all Some []); [|by rewrite app_nil_r]. apply read_all_framed.
  apply Forall_Forall2_diag. eapply Forall_impl; [exact Hfs|]. done.
Qed.
Lemma joined_as_itself_witness :
  match HubRadio.join (lit "127.0.0.1:9000") 5 (fun k => bool_decide (k = 7%nat)) true true with
  | Ok r => accept_node (written (HubRadio.writer (radio_transmit r [1; 2]).1)) = Some (5, [[1; 2]])
  | Err _ => False
  end.
Proof.
  refine (joined_as_itself (lit "127.0.0.1:9000") 5 (fun k => bool_decide (k = 7%nat)) true true [[1; 2]] _ _).
  - unfold is_u16, U16_MAX. lia.
  - apply Forall_singleton. unfold socket_fits, MAX_SOCKET_FRAME_BYTES, len. simpl. lia.
Defined.
