(* ===== verification/HubChannel.v ===== *)
(** What the channel emulator guarantees: each frame is judged once, when it has ended and
    against everything that overlapped it; nothing reaches a node that the medium would
    not carry there; and a frame alone on the air reaches everyone in range. *)
From S2P Require Import Prelude Float Radio Crypto Channel Rng Phy Medium Hub HubRelay.
Import Relay.

Class HostLaws (H : Host) : Prop := instant_mono i j : (i <= j)%nat -> instant i <= instant j.

(** * A list without some of its elements *)

Section thinned.
Context {A : Type}.
Implicit Types (P Q : A -> Prop).
Inductive thinned P : list A -> list A -> Prop :=
| thinned_nil : thinned P [] []
| thinned_keep x l h : thinned P l h -> thinned P (x :: l) (x :: h)
| thinned_drop x l h : P x -> thinned P l h -> thinned P l (x :: h).
Lemma thinned_snoc P l h x : thinned P l h -> thinned P (l ++ [x]) (h ++ [x]).
Proof. induction 1; cbn; [apply thinned_keep, thinned_nil|by apply thinned_keep|by apply thinned_drop]. Qed.
Lemma thinned_weaken P Q l h : (forall x, P x -> Q x) -> thinned P l h -> thinned Q l h.
Proof. intros HPQ. induction 1; [apply thinned_nil|by apply thinned_keep|apply thinned_drop; auto]. Qed.
Lemma thinned_elem P l h x : thinned P l h -> x ∈ l -> x ∈ h.
Proof. induction 1; [done| |]; rewrite ?elem_of_cons; [intros [->|?]; auto|auto]. Qed.
Lemma thinned_lookup P l h i x : thinned P l h -> l !! i = Some x -> exists k, h !! k = Some x /\ thinned P (delete i l) (delete k h).
Proof.
  intros Ht. revert i. induction Ht as [|y l h Ht IH|y l h Hy Ht IH]; intros i Hi; [done| |].
  - destruct i as [|i]; cbn in Hi; [injection Hi as ->; by exists 0%nat|].
    destruct (IH i Hi) as (k & Hk & Hd). exists (S k). split; [done|]. by apply thinned_keep.
  - destruct (IH i Hi) as (k & Hk & Hd). exists (S k). split; [done|]. by apply thinned_drop.
Qed.
Lemma thinned_same_filter P Q `{!forall x, Decision (Q x)} l h : (forall x, P x -> ~ Q x) -> thinned P l h -> filter Q l = filter Q h.
Proof.
  intros HPQ. induction 1 as [|x l h _ IH|x l h Hx _ IH]; [done| |]; rewrite !filter_cons; [by rewrite IH|].
  rewrite decide_False; [done|by apply HPQ].
Qed.
End thinned.
Lemma thinned_filter {A B} (f : B -> A) (P : A -> Prop) (Q : B -> Prop) `{!forall x, Decision (Q x)} l h :
  (forall x, ~ Q x -> P (f x)) -> thinned P (f <$> l) h -> thinned P (f <$> filter Q l) h.
Proof.
  intros HQ Ht. remember (f <$> l) as m eqn:Hm. revert l Hm. induction Ht as [|x m h _ IH|x m h Hx _ IH]; intros l Hm.
  - symmetry in Hm. apply fmap_nil_inv in Hm as ->. apply thinned_nil.
  - symmetry in Hm. apply fmap_cons_inv in Hm as (y & l' & -> & Hl & ->). rewrite filter_cons. case_decide.
    + rewrite fmap_cons. apply thinned_keep. by apply IH.
    + apply thinned_drop; [by apply HQ|by apply IH].
  - apply thinned_drop; [done|by apply IH].
Qed.

Lemma Forall_filtered {A} (P Q : A -> Prop) `{!forall x, Decision (Q x)} l : Forall P l -> Forall P (filter Q l).
Proof. rewrite !Forall_forall. intros Hl x [_ Hx]%list_elem_of_filter. by apply Hl. Qed.

(** * What a step adds *)

Section relay.
Context `{Lm : Libm, Ho : Host}.
Context (options : Options.t).

(** It leaves the frames alone and does only what [P] allows. *)
Definition adds (P : Act.t -> Prop) (s s' : Relay.t) : Prop :=
  frames s' = frames s /\ (readings s <= readings s')%nat /\ exists new, trace s' = trace s ++ new /\ Forall P new.
#[local] Instance adds_preorder P : PreOrder (adds P).
Proof.
  split.
  - intros s. split; [done|]. split; [done|]. exists []. by rewrite app_nil_r.
  - intros s1 s2 s3 (F1 & R1 & n1 & T1 & A1) (F2 & R2 & n2 & T2 & A2). split; [congruence|]. split; [lia|].
    exists (n1 ++ n2). split; [by rewrite T2, T1, app_assoc|by apply Forall_app_2].
Qed.
Lemma adds_weaken (P Q : Act.t -> Prop) s s' : (forall a, P a -> Q a) -> adds P s s' -> adds Q s s'.
Proof.
  intros HPQ (F & R & n & T & A). split; [done|]. split; [done|]. exists n. split; [done|]. eapply Forall_impl; [exact A|exact HPQ].
Qed.
Lemma adds_nothing (P : Act.t -> Prop) s s' : frames s' = frames s -> (readings s <= readings s')%nat -> trace s' = trace s -> adds P s s'.
Proof. intros F R T. split; [done|]. split; [done|]. exists []. by rewrite T, app_nil_r. Qed.
Lemma adds_act (P : Act.t -> Prop) s a : P a -> adds P s (act s a).
Proof. intros Ha. split; [done|]. split; [done|]. exists [a]. split; [done|]. by apply Forall_singleton. Qed.

Lemma reaches_adds P s from to : adds P s (reaches options s from to).1.
Proof. unfold reaches, now. destruct (first_frame_at s); apply adds_nothing; cbn; (done || lia). Qed.
Lemma reaches_half s from to : (reaches options s from to).2 = true -> Options.partition options = true ->
  Options.same_half options from to = true.
Proof. unfold reaches, now. destruct (first_frame_at s); cbn; intros H Hp; by rewrite Hp in H. Qed.
Lemma log_adds (P : Act.t -> Prop) s line : P (Act.Logged line) -> adds P s (log options s line).
Proof. intros HP. unfold log. destruct (Options.quiet options); cbn [negb]; [done|by apply adds_act]. Qed.
Lemma hand_over_adds (P : Act.t -> Prop) s target m : (forall ok, P (Act.Sent target m ok)) -> adds P s (hand_over s target m).1.
Proof.
  intros HP. unfold hand_over. destruct (stream_of target (writers s)) as [stream|]; [|done]. cbn [fst].
  transitivity (mk (frames s) (seed s) (first_frame_at s) (put_stream target (hub_write stream m) (writers s)) (readings s) (locks s) (trace s));
    [by apply adds_nothing|by apply adds_act].
Qed.
Lemma others_at_adds P origin target os s : adds P s (others_at options origin target os s).1.
Proof.
  revert s; induction os as [|o os IH]; intros s; cbn [others_at]; [done|].
  pose proof (reaches_adds P s (InFlight.from o) target) as H1. destruct (reaches _ _ _ _) as [s1 r]. cbn [fst] in H1.
  specialize (IH s1). destruct (others_at _ _ _ _ _) as [s2 l]. cbn [fst] in *. by transitivity s1.
Qed.
Lemma first_interferer_adds P os target s : adds P s (first_interferer options os target s).1.
Proof.
  revert s; induction os as [|o os IH]; intros s; cbn [first_interferer]; [done|].
  pose proof (reaches_adds P s (InFlight.from o) target) as H1. destruct (reaches _ _ _ _) as [s1 [|]]; cbn [fst] in *; [done|].
  transitivity s1; [done|apply IH].
Qed.
Lemma collided_adds (P : Act.t -> Prop) s frame os target why : (forall line, P (Act.Logged line)) ->
  adds P s (collided options s frame os target why).
Proof.
  intros HP. unfold collided. pose proof (first_interferer_adds P os target s) as H1.
  destruct (first_interferer _ _ _ _) as [s1 b]. cbn [fst] in H1. transitivity s1; [done|]. by apply log_adds.
Qed.

(** * What a receiver may be sent *)

Definition span (f : InFlight.t) : Z := since (InFlight.ends_at f) (InFlight.starts_at f).
(** Of frame [f], receiver [target] is sent [m]. *)
Definition of_frame (f : InFlight.t) (target : Z) (m : Inbound.t) : Prop :=
  let power := Options.rssi options (InFlight.from f) target in
  match m with
  | Inbound.Preamble p => p = Preamble.mk (millis_i16 power) (saturated_u32 (as_millis (span f)))
  | Inbound.Delivery d => exists v, d = delivery f power v
  end.
Definition may_hear (f : InFlight.t) (target : Z) : Prop :=
  target <> InFlight.from f
  /\ (Options.partition options = true -> Options.same_half options (InFlight.from f) target = true)
  /\ F64.ltb (Options.rssi options (InFlight.from f) target) SENSITIVITY_DBM = false.
Definition lawful (f : InFlight.t) (a : Act.t) : Prop :=
  match a with
  | Act.Judged _ _ => False
  | Act.Logged _ => True
  | Act.Sent target m _ => may_hear f target /\ of_frame f target m
  end.
Definition lawful_at (f : InFlight.t) (target : Z) (a : Act.t) : Prop :=
  lawful f a /\ match a with Act.Sent t _ _ => t = target | _ => True end.

Lemma judge_not_weak heard others a : judge heard others a <> Reception.TooWeak ->
  F64.ltb (Transmission.rssi_dbm heard) SENSITIVITY_DBM = false.
Proof. unfold judge. by destruct (F64.ltb _ _). Qed.
Lemma hand_over_lawful f target s m : may_hear f target -> of_frame f target m ->
  adds (lawful_at f target) s (hand_over s target m).1.
Proof. intros H1 H2. apply hand_over_adds. intros ok. exact (conj (conj H1 H2) eq_refl). Qed.
Lemma settle_at_lawful f os origin target s : adds (lawful_at f target) s (settle_at options f os origin target s).1.
Proof.
  unfold settle_at. destruct (Z.eqb_spec target (InFlight.from f)) as [|Hne]; [done|].
  pose proof (reaches_adds (lawful_at f target) s (InFlight.from f) target) as H1.
  pose proof (reaches_half s (InFlight.from f) target) as Hhalf.
  destruct (reaches _ _ _ _) as [s1 [|]]; cbn [fst snd negb] in *; [|done]. specialize (Hhalf eq_refl).
  cbv zeta. pose proof (others_at_adds (lawful_at f target) origin target os s1) as H2.
  destruct (others_at _ _ _ _ _) as [s2 others]. cbn [fst] in H2.
  transitivity s1; [done|]. transitivity s2; [done|]. clear H1 H2.
  assert (forall line, lawful_at f target (Act.Logged line)) as Hlog by done.
  set (power := Options.rssi options (InFlight.from f) target) in *.
  assert (forall heard, judge (Transmission.new (ms origin (InFlight.starts_at f)) (airtime_between origin f) power)
    others (Acquisition.scaled Acquisition.default_profile (Options.scale options)) = heard -> heard <> Reception.TooWeak -> may_hear f target) as Hmay.
  { intros heard Hj Hne'. split; [done|]. split; [done|]. rewrite <- Hj in Hne'. exact (judge_not_weak _ _ _ Hne'). }
  destruct (judge _ _ _); try specialize (Hmay _ eq_refl ltac:(discriminate)).
  - destruct (F64.ltb (F64.of_Z 0) (Options.loss options)).
    + destruct (next_f64 (seed s2)) as [g u]. transitivity (set_seed s2 g); [by apply adds_nothing|].
      destruct (F64.ltb u _); [apply log_adds, Hlog|apply hand_over_lawful; [exact Hmay|by eexists]].
    + apply hand_over_lawful; [exact Hmay|by eexists].
  - cbn [fst]. etransitivity; [apply collided_adds; exact Hlog|]. apply hand_over_lawful; [exact Hmay|by eexists].
  - cbn [fst]. etransitivity; [apply collided_adds; exact Hlog|]. apply hand_over_lawful; [exact Hmay|by eexists].
  - apply collided_adds; exact Hlog.
  - apply log_adds, Hlog.
Qed.

Lemma settle_loop_lawful f os origin ts n s : adds (lawful f) s (settle_loop options f os origin ts n s).1.
Proof.
  revert n s; induction ts as [|target ts IH]; intros n s; cbn [settle_loop]; [done|].
  pose proof (adds_weaken (lawful_at f target) (lawful f) _ _ (fun a => @proj1 _ _) (settle_at_lawful f os origin target s)) as H1.
  destruct (settle_at _ _ _ _ _ _) as [s1 d]. cbn [fst] in H1. transitivity s1; [done|apply IH].
Qed.
Lemma announce_lawful s i air : air = air_of options i -> 0 <= air ->
  adds (lawful (flight_of options i)) s (announce_start options s i air).
Proof.
  intros -> Hair. unfold announce_start. transitivity (lock s); [by apply adds_nothing|]. generalize (targets (lock s)).
  intros ts. generalize (lock s). clear s. induction ts as [|target ts IH]; intros s; cbn [announce_loop]; [done|].
  destruct (Z.eqb_spec target (Incoming.from i)) as [|Hne]; [apply IH|].
  pose proof (reaches_adds (lawful (flight_of options i)) s (Incoming.from i) target) as H1.
  pose proof (reaches_half s (Incoming.from i) target) as Hhalf.
  destruct (reaches _ _ _ _) as [s1 [|]]; cbn [fst snd negb] in *; [|transitivity s1; [done|apply IH]]. specialize (Hhalf eq_refl).
  cbv zeta. transitivity s1; [done|]. destruct (F64.ltb _ _) eqn:Hp; [apply IH|].
  etransitivity; [|apply IH]. eapply (adds_weaken (lawful_at (flight_of options i) target)); [exact (fun a => @proj1 _ _)|].
  apply (hand_over_lawful (flight_of options i)); [split; [exact Hne|split; [exact Hhalf|exact Hp]]|].
  cbn [of_frame]. unfold span, since. cbn [flight_of InFlight.ends_at InFlight.starts_at InFlight.from]. do 3 f_equal. lia.
Qed.

(** * The books *)

Definition judged (s : Relay.t) : list (InFlight.t * list InFlight.t) :=
  omap (fun a => match a with Act.Judged f os => Some (f, os) | _ => None end) (trace s).
Lemma judged_adds (P : Act.t -> Prop) s s' : (forall f os, ~ P (Act.Judged f os)) -> adds P s s' -> judged s' = judged s.
Proof.
  intros HP (_ & _ & new & T & A). unfold judged. rewrite T, omap_app. replace (omap _ new) with (@nil (InFlight.t * list InFlight.t)); [by rewrite app_nil_r|].
  symmetry. clear T. induction A as [|a new Ha _ IH]; [done|]. cbn. destruct a; [by destruct (HP _ _ Ha)|exact IH|exact IH].
Qed.

Definition pristine (f : InFlight.t) : InFlight.t :=
  InFlight.mk (InFlight.from f) (InFlight.payload f) (InFlight.starts_at f) (InFlight.ends_at f) false.
Notation pending f := (InFlight.done f = false).
Definition gone (T : Z) (f : InFlight.t) : Prop := InFlight.ends_at f + LINGER_NS <= T.
(** [f] was judged against every frame of [h] that overlapped it. *)
Definition judged_against (h : list InFlight.t) (v : InFlight.t * list InFlight.t) : Prop :=
  exists k, h !! k = Some v.1 /\ pristine <$> v.2 = overlappers_of v.1 (delete k h).
(** [h] are the frames taken so far, [T] the last reading at which any were forgotten. *)
Record books (T : Z) (h : list InFlight.t) (s : Relay.t) : Prop := {
  b_frames : thinned (gone T) (pristine <$> frames s) h;
  b_settled : (judged s).*1 ++ filter (fun f => pending f) (frames s) ≡ₚ h;
  b_pending : Forall (fun f => pending f -> T < InFlight.starts_at f + LINGER_NS) (frames s);
  b_air : Forall (fun f => InFlight.ends_at f <= InFlight.starts_at f + LINGER_NS) (frames s);
  b_read : T <= instant (readings s);
}.
Context {Hl : HostLaws Ho}.

Lemma pristine_pending f : pending f -> pristine f = f.
Proof. destruct f; cbn. by intros ->. Qed.
Lemma overlappers_pristine f os : pristine <$> overlappers_of f os = overlappers_of f (pristine <$> os).
Proof.
  unfold overlappers_of. induction os as [|o os IH]; [done|]. rewrite fmap_cons, !filter_cons.
  change (InFlight.overlaps f (pristine o)) with (InFlight.overlaps f o). case_decide; [by rewrite fmap_cons, IH|done].
Qed.
Lemma overlaps_iff f o : InFlight.overlaps f o = true <-> InFlight.starts_at o < InFlight.ends_at f /\ InFlight.starts_at f < InFlight.ends_at o.
Proof. unfold InFlight.overlaps. by rewrite andb_true_iff, !Z.ltb_lt. Qed.

Lemma pending_alter (l : list InFlight.t) i f : l !! i = Some f -> pending f ->
  filter (fun f => pending f) l ≡ₚ f :: filter (fun f => pending f) (alter InFlight.finish i l).
Proof.
  revert i; induction l as [|g l IH]; intros [|i] Hi Hf; [done..| |]; cbn in Hi.
  - injection Hi as ->. cbn [alter list_alter]. rewrite !filter_cons, (decide_True _ _ Hf). case_decide as Hd; [discriminate Hd|done].
  - change (alter InFlight.finish (S i) (g :: l)) with (g :: alter InFlight.finish i l). rewrite !filter_cons.
    case_decide; [rewrite (IH i Hi Hf); constructor|by apply IH].
Qed.
Lemma pristine_alter (l : list InFlight.t) i : pristine <$> alter InFlight.finish i l = pristine <$> l.
Proof. apply list_eq. intros j. rewrite !list_lookup_fmap. destruct (decide (i = j)) as [->|]; [rewrite list_lookup_alter_eq|by rewrite list_lookup_alter_ne]. by destruct (l !! j). Qed.

(** Judging one frame that has ended. *)
Lemma settle_one_books T h s i f : books T h s -> frames s !! i = Some f -> pending f ->
  let s' := settle_one options s i in
  books T h s' /\ frames s' = alter InFlight.finish i (frames s) /\ (readings s <= readings s')%nat
  /\ exists os, judged s' = judged s ++ [(f, os)] /\ judged_against h (f, os).
Proof.
  intros [Hthin Hsettled Hpend Hair Hread] Hi Hf. cbv zeta. unfold settle_one, settle. rewrite Hi. cbv zeta.
  set (os := overlappers_of f (delete i (frames s))). set (s0 := act (lock s) (Act.Judged f os)).
  pose proof (settle_loop_lawful f os (origin_of (frames s) f) (targets s0) 0 s0) as Hloop.
  destruct (settle_loop _ _ _ _ _ _ _) as [s1 n]. cbn [fst] in Hloop. set (s2 := if 0 <? n then _ else s1).
  assert (adds (lawful f) s0 s2) as Hadds.
  { transitivity s1; [done|]. unfold s2. destruct (0 <? n); [by apply log_adds|done]. }
  pose proof (judged_adds _ _ _ (fun g os => id) Hadds) as Hj. destruct Hadds as (Hframes & Hreads & _).
  change (frames s0) with (frames s) in Hframes. change (readings s0) with (readings s) in Hreads.
  assert (judged s0 = judged s ++ [(f, os)]) as Hj0 by (unfold judged, s0; cbn [act lock trace]; by rewrite omap_app).
  cbn [set_frames frames readings]. rewrite Hframes.
  assert (exists k, h !! k = Some f /\ pristine <$> os = overlappers_of f (delete k h)) as Hagainst.
  { destruct (thinned_lookup _ _ _ i f Hthin) as (k & Hk & Hd); [rewrite list_lookup_fmap, Hi; exact (f_equal Some (pristine_pending f Hf))|].
    exists k. split; [done|]. unfold os. rewrite overlappers_pristine. rewrite list_fmap_delete.
    apply (thinned_same_filter (gone T)); [|exact Hd]. intros o Hgone [Ho1 Ho2]%overlaps_iff. unfold gone in Hgone.
    rewrite Forall_forall in Hpend. specialize (Hpend f (list_elem_of_lookup_2 _ _ _ Hi) Hf). lia. }
  split; [|split; [done|split; [done|exists os; split; [|exact Hagainst]]]].
  2: { rewrite <- Hj0, <- Hj. done. }
  constructor; cbn [set_frames frames readings].
  - rewrite pristine_alter. exact Hthin.
  - change (judged (set_frames s2 (alter InFlight.finish i (frames s)))) with (judged s2). rewrite Hj, Hj0, fmap_app, <- app_assoc.
    rewrite <- Hsettled. cbn [fmap list_fmap app fst]. by rewrite <- (pending_alter _ _ _ Hi Hf).
  - apply Forall_alter; [done|]. by intros g _ Hg [=].
  - by apply Forall_alter.
  - etransitivity; [exact Hread|]. apply instant_mono. lia.
Qed.

(** * A turn *)

Lemma ended_S at_ k l : ended at_ (S k) l = S <$> ended at_ k l.
Proof.
  revert k; induction l as [|f l IH]; intros k; [done|]. cbn [ended]. rewrite (IH (S k)). by destruct (has_ended at_ f).
Qed.
Lemma ended_spec at_ l i : i ∈ ended at_ 0 l <-> exists f, l !! i = Some f /\ has_ended at_ f = true.
Proof.
  revert i; induction l as [|f l IH]; intros i; cbn [ended].
  { split; [by intros ?%not_elem_of_nil|]. by intros (? & [=] & _). }
  rewrite ended_S. assert (i ∈ S <$> ended at_ 0 l <-> exists j, i = S j /\ j ∈ ended at_ 0 l) as Hs by apply list_elem_of_fmap.
  destruct i as [|i].
  - assert (0%nat ∉ S <$> ended at_ 0 l) as Hn by (intros (j & ? & _)%Hs; done).
    destruct (has_ended at_ f) eqn:Hf; [rewrite elem_of_cons; split; [by exists f|by left]|].
    split; [done|]. intros (g & [= ->] & Hg). congruence.
  - assert (S i ∈ S <$> ended at_ 0 l <-> i ∈ ended at_ 0 l) as Hi.
    { rewrite Hs. split; [by intros (j & [= ->] & ?)|by exists i]. }
    cbn [lookup list_lookup]. rewrite <- IH, <- Hi. destruct (has_ended at_ f); [|done]. rewrite elem_of_cons. naive_solver.
Qed.
Lemma ended_nodup at_ l : NoDup (ended at_ 0 l).
Proof.
  induction l as [|f l IH]; cbn [ended]; [constructor|]. rewrite ended_S.
  assert (NoDup (S <$> ended at_ 0 l)) as Hn by (apply NoDup_fmap_2; [apply _|done]).
  destruct (has_ended at_ f); [|done]. apply NoDup_cons_2; [|done]. by intros (j & ? & _)%list_elem_of_fmap.
Qed.
Definition finish_at (l : list InFlight.t) (i : nat) : list InFlight.t := alter InFlight.finish i l.
Lemma finish_all_lookup idx l i : NoDup idx -> foldl finish_at l idx !! i = (if decide (i ∈ idx) then InFlight.finish <$> l !! i else l !! i).
Proof.
  revert l; induction idx as [|j idx IH]; intros l Hnd; [by rewrite decide_False by apply not_elem_of_nil|].
  apply NoDup_cons in Hnd as [Hj Hnd]. cbn [foldl]. rewrite IH by done. unfold finish_at. destruct (decide (i = j)) as [->|Hne].
  - rewrite decide_False, decide_True by (done || apply list_elem_of_here || by left). by rewrite list_lookup_alter_eq.
  - rewrite list_lookup_alter_ne by done. apply (decide_ext (i ∈ idx) (i ∈ j :: idx)). rewrite elem_of_cons. naive_solver.
Qed.
Lemma settle_all_books T h s idx : books T h s -> NoDup idx -> Forall (fun i => exists f, frames s !! i = Some f /\ pending f) idx ->
  let s' := foldl (settle_one options) s idx in
  books T h s' /\ frames s' = foldl finish_at (frames s) idx /\ (readings s <= readings s')%nat
  /\ exists new, judged s' = judged s ++ new /\ Forall (judged_against h) new /\ Forall2 (fun i v => frames s !! i = Some v.1) idx new.
Proof.
  cbv zeta. intros Hb Hnd Hall. revert s Hb Hall. induction idx as [|i idx IH]; intros s Hb Hall.
  { split; [done|]. split; [done|]. split; [done|]. exists []. by rewrite app_nil_r. }
  apply NoDup_cons in Hnd as [Hi Hnd]. apply Forall_cons in Hall as [(f & Hf & Hpend) Hall]. cbn [foldl].
  destruct (settle_one_books T h s i f Hb Hf Hpend) as (Hb1 & Hframes1 & Hr1 & os & Hj1 & Ha1).
  assert (forall j, j ∈ idx -> frames (settle_one options s i) !! j = frames s !! j) as Hsame.
  { intros j Hj. rewrite Hframes1. apply list_lookup_alter_ne. by intros ->. }
  destruct (IH Hnd _ Hb1) as (Hb2 & Hframes2 & Hr2 & new & Hj2 & Ha2 & Hw2).
  { rewrite Forall_forall in Hall |- *. intros j Hj. rewrite Hsame by done. by apply Hall. }
  split; [done|]. split; [by rewrite Hframes2, Hframes1|]. split; [lia|]. exists ((f, os) :: new).
  split; [by rewrite Hj2, Hj1, <- app_assoc|]. split; [by apply Forall_cons_2|]. constructor; [done|].
  clear -Hw2 Hsame. induction Hw2 as [|j v idx new Hv _ IH]; [done|]. constructor; [rewrite <- Hsame; [done|by left]|].
  apply IH. intros k Hk. apply Hsame. by right.
Qed.

Lemma sweep_books T h s : books T h s -> let at_ := instant (readings s) in let s' := sweep options s in
  books at_ h s' /\ (S (readings s) <= readings s')%nat /\ Forall (fun f => pending f -> at_ < InFlight.ends_at f) (frames s')
  /\ exists new, judged s' = judged s ++ new /\ Forall (fun v => judged_against h v /\ InFlight.ends_at v.1 <= at_) new.
Proof.
  intros Hb. cbv zeta. set (at_ := instant (readings s)). unfold sweep, now. fold at_. set (s0 := Relay.mk _ _ _ _ _ _ _).
  assert (books T h s0) as Hb0.
  { destruct Hb as [B1 B2 B3 B4 B5]. refine (Build_books T h s0 B1 B2 B3 B4 _). etransitivity; [exact B5|]. apply instant_mono. cbn. lia. }
  change (frames s0) with (frames s). assert (Forall (fun i => exists f, frames s0 !! i = Some f /\ pending f) (ended at_ 0 (frames s))) as Hall.
  { apply Forall_forall. intros i (f & Hf & He)%ended_spec. exists f. split; [done|]. unfold has_ended in He.
    apply andb_true_iff in He as [He _]. by apply negb_true_iff in He. }
  destruct (settle_all_books T h s0 _ Hb0 (ended_nodup at_ (frames s)) Hall) as (Hb1 & Hframes1 & Hr1 & new & Hj1 & Ha1 & Hw1).
  change (frames s0) with (frames s) in *. set (s1 := foldl _ s0 _) in *.
  assert (Forall (fun f => pending f -> at_ < InFlight.ends_at f) (frames s1)) as Hlate.
  { apply Forall_forall. intros f (i & Hi)%list_elem_of_lookup Hf. rewrite Hframes1, finish_all_lookup in Hi by apply ended_nodup.
    case_decide as Hin.
    - apply fmap_Some in Hi as (g & _ & ->). done.
    - apply Z.nle_gt. intros Hle. apply Hin, ended_spec. exists f. split; [done|]. unfold has_ended. rewrite Hf. by apply Z.leb_le. }
  assert (T <= at_) as HT by (destruct Hb; done).
  destruct Hb1 as [Hthin Hsettled Hpend Hair Hread].
  assert (forall f, ~ keeps at_ f = true -> InFlight.done f = true /\ gone at_ f) as Hforget.
  { intros f Hk. unfold keeps in Hk. rewrite orb_true_iff, negb_true_iff, Z.ltb_lt in Hk. unfold gone. destruct (InFlight.done f); [split; [done|lia]|naive_solver]. }
  split; [|split; [|split]].
  - constructor; cbn [set_frames frames readings].
    + apply thinned_filter; [|apply (thinned_weaken (gone T)); [intros g; unfold gone; lia|exact Hthin]].
      intros f Hk. exact (proj2 (Hforget f Hk)).
    + change (judged (set_frames s1 _)) with (judged s1). rewrite list_filter_filter_l; [exact Hsettled|].
      intros f Hf. destruct (decide (keeps at_ f = true)) as [|Hk]; [done|]. apply Hforget in Hk as [Hd _]. congruence.
    + apply Forall_filtered. rewrite Forall_forall in Hlate, Hair |- *. intros f Hf Hp. specialize (Hlate f Hf Hp). specialize (Hair f Hf). lia.
    + apply Forall_filtered. exact Hair.
    + apply instant_mono. cbn in Hr1. lia.
  - exact Hr1.
  - apply Forall_filtered. exact Hlate.
  - exists new. split; [exact Hj1|]. apply Forall_forall. intros v (k & Hk)%list_elem_of_lookup.
    destruct (Forall2_lookup_r _ _ _ _ _ Hw1 Hk) as (i & Hi & Hv). split; [by eapply Forall_lookup_1|].
    apply list_elem_of_lookup_2, ended_spec in Hi as (f & Hf & He). assert (f = v.1) as -> by (change (frames s0) with (frames s) in Hv; congruence).
    unfold has_ended in He. apply andb_true_iff in He as [_ He]. by apply Z.leb_le.
Qed.

Definition taken (events : list Event.t) : list InFlight.t :=
  omap (fun e => match e with Event.Arrived i => Some (flight_of options i) | _ => None end) events.
Lemma air_of_range i : 0 <= air_of options i <= LINGER_NS.
Proof.
  unfold air_of. set (n := len (Incoming.payload i)). assert (0 <= n) by (unfold n, len; lia).
  pose proof (airtime_nonneg n). pose proof (airtime_longest n ltac:(done)) as Hlong. unfold LONGEST_MS in Hlong.
  assert (0 <= airtime_ms n `div` Z.max (Options.scale options) 1 <= airtime_ms n) as [].
  { split; [apply Z.div_pos; lia|]. apply Z.div_le_upper_bound; [lia|nia]. }
  unfold from_millis, NANOS, LINGER_NS. lia.
Qed.
Lemma flight_span i : span (flight_of options i) = air_of options i.
Proof. pose proof (air_of_range i). unfold span, since, flight_of. cbn. lia. Qed.
Lemma take_in_books T h s i : books T h s -> T < Incoming.at_ i + LINGER_NS ->
  books T (h ++ [flight_of options i]) (take_in options s i) /\ judged (take_in options s i) = judged s
  /\ (readings s <= readings (take_in options s i))%nat.
Proof.
  intros [B1 B2 B3 B4 B5] Hprompt. pose proof (air_of_range i) as Hair. unfold take_in.
  pose proof (announce_lawful s i (air_of options i) eq_refl (proj1 Hair)) as Hadds. set (s1 := announce_start _ _ _ _) in *.
  pose proof (judged_adds _ _ _ (fun g os => id) Hadds) as Hj. destruct Hadds as (Hf & Hr & _). set (s2 := set_frames s1 _).
  assert (judged s2 = judged s) as Hj2 by exact Hj. split; [|by split].
  assert (frames s2 = frames s ++ [flight_of options i]) as Hf2 by (unfold s2; cbn [set_frames frames]; by rewrite Hf).
  constructor; rewrite ?Hf2.
  - rewrite fmap_app. by apply thinned_snoc.
  - rewrite Hj2, filter_app, filter_cons, decide_True by done. rewrite app_assoc. by rewrite B2.
  - apply Forall_app_2; [done|]. apply Forall_singleton. by intros _.
  - apply Forall_app_2; [done|]. apply Forall_singleton. cbn. lia.
  - etransitivity; [exact B5|]. by apply instant_mono.
Qed.
Lemma turn_books T h s e s' : books T h s -> turn options s e = Some s' ->
  (forall i, e = Event.Arrived i -> instant (readings s) < Incoming.at_ i + LINGER_NS) ->
  exists n, (readings s < n < readings s')%nat /\ books (instant n) (h ++ taken [e]) s'
  /\ Forall (fun f => pending f -> instant n < InFlight.ends_at f) (frames s')
  /\ exists new, judged s' = judged s ++ new /\ Forall (fun v => judged_against (h ++ taken [e]) v /\ InFlight.ends_at v.1 <= instant n) new.
Proof.
  intros Hb Hturn Hprompt. unfold turn, now in Hturn. set (s0 := Relay.mk _ _ _ _ _ _ _) in Hturn.
  assert (books T h s0) as Hb0.
  { destruct Hb as [B1 B2 B3 B4 B5]. refine (Build_books T h s0 B1 B2 B3 B4 _). etransitivity; [exact B5|]. apply instant_mono. cbn. lia. }
  assert (forall q, books T (h ++ taken [e]) q -> judged q = judged s -> (S (readings s) <= readings q)%nat -> s' = sweep options q ->
    exists n, (readings s < n < readings s')%nat /\ books (instant n) (h ++ taken [e]) s'
    /\ Forall (fun f => pending f -> instant n < InFlight.ends_at f) (frames s')
    /\ exists new, judged s' = judged s ++ new /\ Forall (fun v => judged_against (h ++ taken [e]) v /\ InFlight.ends_at v.1 <= instant n) new) as Hgo.
  { intros q Hq Hjq Hrq ->. destruct (sweep_books _ _ _ Hq) as (H1 & H2 & H3 & H4). exists (readings q). rewrite <- Hjq. split; [lia|]. done. }
  destruct e as [i| |]; [| |done]; injection Hturn as <-.
  - destruct (take_in_books T h s0 i Hb0) as (Hb1 & Hj1 & Hr1).
    { specialize (Hprompt i eq_refl). pose proof (b_read _ _ _ Hb). lia. }
    apply (Hgo (take_in options s0 i)); [exact Hb1|exact Hj1|exact Hr1|done].
  - apply (Hgo s0); [cbn [taken omap list_omap]; by rewrite app_nil_r|done|done|done].
Qed.

Definition prompt (events : list Event.t) : Prop := forall before i rest, events = before ++ Event.Arrived i :: rest ->
  instant (readings (relay options start before)) < Incoming.at_ i + LINGER_NS.
Lemma relay_snoc s before e : Event.Disconnected ∉ before ->
  relay options s (before ++ [e]) = match turn options (relay options s before) e with Some s' => s' | None => relay options s before end.
Proof.
  revert s; induction before as [|b before IH]; intros s Hd; cbn [app relay]; [by destruct (turn options s e)|].
  apply not_elem_of_cons in Hd as [Hb Hd]. destruct (turn options s b) as [s1|] eqn:Ht; [by apply IH|].
  destruct b; [discriminate Ht..|done].
Qed.
Lemma turn_going s e : e <> Event.Disconnected -> is_Some (turn options s e).
Proof. intros He. unfold turn. destruct (now s). destruct e; [by eexists|by eexists|done]. Qed.
Lemma relay_books before : Event.Disconnected ∉ before -> prompt before -> exists T, books T (taken before) (relay options start before).
Proof.
  induction before as [|e before IH] using rev_ind; intros Hd Hp.
  { exists (instant 0). constructor; [apply thinned_nil|done|constructor|constructor|done]. }
  apply not_elem_of_app in Hd as [Hd He]. rewrite elem_of_cons in He. destruct IH as [T HT]; [done| |].
  { intros b i rest ->. apply (Hp b i (rest ++ [e])). by rewrite <- app_assoc. }
  rewrite relay_snoc by done. destruct (turn_going (relay options start before) e) as [s' Hs']; [naive_solver|]. rewrite Hs'.
  destruct (turn_books _ _ _ _ _ HT Hs') as (n & _ & Hb & _); [intros i ->; by apply (Hp before i [])|].
  exists (instant n). unfold taken. rewrite omap_app. exact Hb.
Qed.

(** * Every receiver on its own *)

(** Whether a receiver is told anything, and what. *)
Definition verdict_of (heard : Reception.t) : option Verdict.t :=
  match heard with
  | Reception.TooWeak | Reception.NoLock => None
  | Reception.HeaderError => Some Verdict.HeaderError
  | Reception.CrcError => Some Verdict.CrcError
  | Reception.Decoded => Some Verdict.Decoded
  end.
(** What a frame leaves at a receiver, as the verdict has it. *)
Definition wreck (v : Verdict.t) (sent got : bytes) : Prop :=
  match v with
  | Verdict.Decoded => got = sent
  | Verdict.HeaderError => got = []
  | Verdict.CrcError => Forall2 (fun x y => x <> y) got sent
  end.
Lemma garbled x : Z.lxor x GARBLE <> x.
Proof.
  intros Heq. assert (Z.lxor (Z.lxor x GARBLE) x = GARBLE) as Hg by (rewrite (Z.lxor_comm x), Z.lxor_assoc, Z.lxor_nilpotent; apply Z.lxor_0_r).
  rewrite Heq, Z.lxor_nilpotent in Hg. discriminate.
Qed.
Lemma delivery_wreck f power v : wreck v (InFlight.payload f) (Delivery.payload (delivery f power v)).
Proof.
  destruct v; [done|done|]. cbn. induction (InFlight.payload f) as [|x l IH]; [constructor|]. constructor; [apply garbled|exact IH].
Qed.
Lemma take_in_frames s i : frames (take_in options s i) = frames s ++ [flight_of options i].
Proof.
  unfold take_in. cbn [set_frames frames]. f_equal.
  destruct (announce_lawful s i (air_of options i) eq_refl (proj1 (air_of_range i))) as [-> _]. done.
Qed.

(** All that was ever said to a node is of a frame that was taken. *)
Definition grounded (h : list InFlight.t) (a : Act.t) : Prop :=
  match a with Act.Sent target m _ => exists f, f ∈ h /\ may_hear f target /\ of_frame f target m | _ => True end.
Definition all_grounded (h : list InFlight.t) (s : Relay.t) : Prop :=
  Forall (grounded h) (trace s) /\ Forall (fun f => pristine f ∈ h) (frames s).
Lemma grounded_adds h f s s' : pristine f ∈ h -> adds (lawful f) s s' -> Forall (grounded h) (trace s) -> Forall (grounded h) (trace s').
Proof.
  intros Hf (_ & _ & new & -> & Hnew) Hs. apply Forall_app_2; [done|]. eapply Forall_impl; [exact Hnew|].
  intros [| |t m ok]; [done..|]. intros [Hmay Hof]. exists (pristine f). split; [done|]. by destruct f.
Qed.
Lemma settle_one_grounded h s i : all_grounded h s -> all_grounded h (settle_one options s i).
Proof.
  intros [Ht Hf]. unfold settle_one, settle. destruct (frames s !! i) as [f|] eqn:Hi.
  2: { split; [exact Ht|]. cbn [set_frames frames]. by apply Forall_alter. }
  cbv zeta. pose proof (proj1 (Forall_forall _ _) Hf f (list_elem_of_lookup_2 _ _ _ Hi)) as Hin. cbn beta in Hin.
  set (os := overlappers_of f (delete i (frames s))). set (s0 := act (lock s) (Act.Judged f os)).
  pose proof (settle_loop_lawful f os (origin_of (frames s) f) (targets s0) 0 s0) as Hloop.
  destruct (settle_loop _ _ _ _ _ _ _) as [s1 n]. cbn [fst] in Hloop. set (s2 := if 0 <? n then _ else s1).
  assert (adds (lawful f) s0 s2) as Hadds.
  { transitivity s1; [done|]. unfold s2. destruct (0 <? n); [by apply log_adds|done]. }
  pose proof (grounded_adds h f s0 s2 Hin Hadds) as Hg. destruct Hadds as (Hframes & _). change (frames s0) with (frames s) in Hframes.
  split; [apply Hg; apply Forall_app_2; [exact Ht|by apply Forall_singleton]|]. cbn [set_frames frames]. rewrite Hframes. by apply Forall_alter.
Qed.
Lemma sweep_grounded h s : all_grounded h s -> all_grounded h (sweep options s).
Proof.
  intros Hs. unfold sweep, now. set (s0 := Relay.mk _ _ _ _ _ _ _). set (at_ := instant _).
  assert (all_grounded h (foldl (settle_one options) s0 (ended at_ 0 (frames s0)))) as [Ht Hf].
  { generalize (ended at_ 0 (frames s0)). intros idx. assert (all_grounded h s0) as H0 by exact Hs. revert H0. generalize s0.
    induction idx as [|i idx IH]; intros q Hq; [done|]. by apply IH, settle_one_grounded. }
  split; [exact Ht|]. by apply Forall_filtered.
Qed.
Lemma all_grounded_more h h' s : all_grounded h s -> all_grounded (h ++ h') s.
Proof.
  intros [Ht Hf]. split; eapply Forall_impl; [exact Ht| |exact Hf|].
  - intros [| |t m ok]; [done..|]. intros (f & ? & ?). exists f. split; [apply elem_of_app; by left|done].
  - intros f ?. apply elem_of_app. by left.
Qed.
Lemma turn_grounded h s e s' : all_grounded h s -> turn options s e = Some s' -> all_grounded (h ++ taken [e]) s'.
Proof.
  intros Hs. apply (all_grounded_more h (taken [e])) in Hs. unfold turn, now. set (s0 := Relay.mk _ _ _ _ _ _ _). assert (all_grounded (h ++ taken [e]) s0) as [Ht Hf] by exact Hs.
  destruct e as [i| |]; [| |done]; intros [= <-]; apply sweep_grounded; [|by split].
  assert (pristine (flight_of options i) ∈ h ++ taken [Event.Arrived i]) as Hi by (apply elem_of_app; right; by left).
  split; [|rewrite take_in_frames; apply Forall_app_2; [done|by apply Forall_singleton]].
  exact (grounded_adds _ (flight_of options i) _ _ Hi (announce_lawful s0 i _ eq_refl (proj1 (air_of_range i))) Ht).
Qed.
Lemma relay_grounded h s events : all_grounded h s -> all_grounded (h ++ taken events) (relay options s events).
Proof.
  revert h s; induction events as [|e events IH]; intros h s Hs; cbn [relay]; [by apply all_grounded_more|].
  destruct (turn options s e) as [s'|] eqn:Ht; [|by apply all_grounded_more].
  replace (h ++ taken (e :: events)) with ((h ++ taken [e]) ++ taken events); [by apply IH, (turn_grounded _ s)|].
  rewrite <- app_assoc. f_equal. change (e :: events) with ([e] ++ events). unfold taken. by rewrite omap_app.
Qed.
End relay.

(** The wait ends when the next frame does. *)
Lemma least_attained l d : l <> [] -> least l d ∈ l.
Proof.
  destruct l as [|x l]; [done|]. intros _. cbn [least]. revert x. induction l as [|y l IH]; intros x; [by left|]. cbn [foldl].
  destruct (Z.min_spec x y) as [[_ ->]|[_ ->]]; [|by right].
  specialize (IH x). apply elem_of_cons in IH as [->|?]; [by left|by do 2 right].
Qed.
Lemma wait_covers l at_ late : at_ + wait_for l at_ <= late -> filter (fun f => InFlight.done f = false) l <> [] ->
  exists f, f ∈ filter (fun f => InFlight.done f = false) l /\ InFlight.ends_at f <= late.
Proof.
  intros Hlate Hne. unfold wait_for in Hlate. set (p := filter _ l) in *.
  assert (least ((fun f => since (InFlight.ends_at f) at_) <$> p) POLL_NS ∈ (fun f => since (InFlight.ends_at f) at_) <$> p) as Hin
    by (apply least_attained; by intros ?%fmap_nil_inv).
  apply list_elem_of_fmap in Hin as (f & Heq & Hf). exists f. split; [done|]. rewrite Heq in Hlate. unfold since in Hlate. lia.
Qed.

(** C17: Each frame is judged once, after it has ended, and against all it met. Whatever the
    clock reads and whoever connects meanwhile, after every turn of the emulator the
    frames taken from the nodes are exactly those judged and those still in flight, none
    of which has ended by the turn's reading of the clock; and a frame judged in the turn
    had ended, and was judged against precisely the frames taken so far whose time on
    the air overlapped its own -- those settled and forgotten long ago included, since
    five seconds are more than any frame lasts. A wait that ran its course ends with a
    verdict if anything was in flight. The one condition is that no frame waits five
    seconds to be taken. *)
Theorem each_frame_is_judged_once_against_all_it_met
    `{Libm, Ho : Host, !HostLaws Ho} (options : Options.t) (before : list Event.t) (e : Event.t) (s' : Relay.t) :
  Event.Disconnected ∉ before -> prompt options (before ++ [e]) -> turn options (relay options start before) e = Some s' ->
  let s := relay options start before in
  let k := readings s in
  exists n new, (k < n < readings s')%nat /\ judged s' = judged s ++ new
  /\ Forall (fun v => judged_against (taken options (before ++ [e])) v /\ InFlight.ends_at v.1 <= instant n) new
  /\ (judged s').*1 ++ filter (fun f => InFlight.done f = false) (frames s') ≡ₚ taken options (before ++ [e])
  /\ Forall (fun f => InFlight.done f = false -> instant n < InFlight.ends_at f) (frames s')
  /\ (e = Event.Timeout -> instant k + wait_for (frames s) (instant k) <= instant (S k) ->
      filter (fun f => InFlight.done f = false) (frames s) <> [] -> new <> []).
Proof.
  intros Hd Hp Ht s k. fold s in Ht. destruct (relay_books options before Hd) as [T HT].
  { intros b i rest ->. apply (Hp b i (rest ++ [e])). by rewrite <- app_assoc. }
  destruct (turn_books _ _ _ _ _ _ HT Ht) as (n & Hn & Hb & Hlate & new & Hj & Hnew); [intros i ->; by apply (Hp before i [])|].
  assert (taken options (before ++ [e]) = taken options before ++ taken options [e]) as -> by (unfold taken; by rewrite omap_app).
  exists n, new. split; [done|]. split; [done|]. split; [done|]. split; [exact (b_settled _ _ _ Hb)|]. split; [done|].
  intros -> Hwait Hne ->. destruct (wait_covers _ _ _ Hwait Hne) as (f & Hf & Hends).
  pose proof (b_settled _ _ _ Hb) as Hall. pose proof (b_settled _ _ _ HT) as Hall0. fold s in Hall0.
  rewrite Hj, app_nil_r in Hall. cbn [taken omap list_omap] in Hall. rewrite app_nil_r, <- Hall0 in Hall. apply Permutation_app_inv_l in Hall.
  assert (f ∈ filter (fun f => InFlight.done f = false) (frames s')) as [Hpend Hin]%list_elem_of_filter by (by rewrite Hall).
  rewrite Forall_forall in Hlate. specialize (Hlate f Hin Hpend).
  assert (instant (S k) <= instant n) by (apply instant_mono; unfold k, s; lia). lia.
Qed.

(** C18: Nothing is heard that was not said. Whatever arrives in whatever order, every message
    the emulator has written to a node is of a frame some other node sent it: of its start,
    or of its end with a verdict -- whole, garbled in every byte, or empty. It reaches the
    node at or above its sensitivity, and under a partition comes from its own half. *)
Theorem nothing_is_heard_that_was_not_said `{Libm, Host} (options : Options.t) (events : list Event.t) (target : Z) (m : Inbound.t) (ok : bool) :
  Act.Sent target m ok ∈ trace (relay options start events) ->
  exists f, f ∈ taken options events /\ may_hear options f target /\ of_frame options f target m
  /\ match m with
     | Inbound.Delivery d => wreck (Delivery.verdict d) (InFlight.payload f) (Delivery.payload d)
     | Inbound.Preamble _ => True
     end.
Proof.
  intros Hin. destruct (relay_grounded options [] start events) as [Ht _]; [by split|].
  rewrite Forall_forall in Ht. destruct (Ht _ Hin) as (f & Hf & Hmay & Hof). exists f. split; [done|]. split; [done|]. split; [done|].
  destruct m as [d|]; [|done]. destruct Hof as [v ->]. exact (delivery_wreck f _ v).
Qed.
