(* ===== verification/HubVerdicts.v ===== *)
(** Each receiver of the channel emulator hears the verdict the medium gives there, whatever
    is decided elsewhere; and what is heard on one side only when the emulator runs late. *)
From S2P Require Import Prelude Float Radio Crypto Channel Rng Phy Medium Hub HubRelay HubChannel.
Import Relay.

(** * One connection among many *)

Lemma stream_of_put t u stream ws :
  stream_of u (put_stream t stream ws) = (if u =? t then (fun _ => stream) <$> stream_of u ws else stream_of u ws).
Proof.
  induction ws as [|[v st] ws IH]; [by destruct (u =? t)|].
  change (put_stream t stream ((v, st) :: ws)) with ((if v =? t then (v, stream) else (v, st)) :: put_stream t stream ws).
  cbn [stream_of]. destruct (Z.eqb_spec v t) as [->|]; cbn [stream_of]; rewrite IH.
  - rewrite (Z.eqb_sym u t). by destruct (t =? u).
  - destruct (Z.eqb_spec v u) as [->|]; [|done]. by rewrite (proj2 (Z.eqb_neq u t)).
Qed.
Lemma stream_of_in u stream (ws : list (Z * Stream)) : NoDup ws.*1 -> (u, stream) ∈ ws -> stream_of u ws = Some stream.
Proof.
  induction ws as [|[v st] ws IH]; intros Hnd; [by intros ?%not_elem_of_nil|]. apply NoDup_cons in Hnd as [Hv Hnd].
  cbn [stream_of]. intros [[= <- <-]|Hin]%elem_of_cons; [by rewrite Z.eqb_refl|].
  destruct (Z.eqb_spec v u) as [->|]; [|by apply IH]. destruct Hv. apply list_elem_of_fmap. by exists (u, stream).
Qed.

Section verdicts.
Context `{Lm : Libm, Ho : Host}.
Context (options : Options.t).
Context (Hwhole : Options.isolate_ms options = 0) (Hlossless : F64.ltb (F64.of_Z 0) (Options.loss options) = false).
Implicit Types (f o : InFlight.t) (s : Relay.t).

(** Who can hear whom, once and for all. *)
Definition in_reach (from to : Z) : bool := negb (Options.partition options) || Options.same_half options from to.
(** The medium's verdict on [f] at one receiver, as a function of what overlapped it. *)
Definition told f (os : list InFlight.t) (origin target : Z) : option Delivery.t :=
  if (target =? InFlight.from f) || negb (in_reach (InFlight.from f) target) then None
  else
    delivery f (Options.rssi options (InFlight.from f) target) <$> verdict_of (judge (as_heard options origin target f)
      (as_heard options origin target <$> filter (fun o => in_reach (InFlight.from o) target = true) os)
      (Acquisition.scaled Acquisition.default_profile (Options.scale options))).
Definition tell (stream : Stream) (d : option Delivery.t) : Stream :=
  match d with Some d => hub_write stream (Inbound.Delivery d) | None => stream end.

Lemma reaches_static s from to : (reaches options s from to).2 = in_reach from to /\ writers (reaches options s from to).1 = writers s.
Proof.
  unfold reaches, now. rewrite Hwhole. assert (forall a b, (since a b <? from_millis 0) = false) as Hz.
  { intros a b. apply Z.ltb_ge. unfold since, from_millis. lia. }
  destruct (first_frame_at s); cbn [fst snd set_first readings writers]; rewrite Hz; unfold in_reach; by rewrite andb_true_r.
Qed.
Lemma others_at_static origin target os s :
  (others_at options origin target os s).2 = as_heard options origin target <$> filter (fun o => in_reach (InFlight.from o) target = true) os
  /\ writers (others_at options origin target os s).1 = writers s.
Proof.
  revert s; induction os as [|o os IH]; intros s; cbn [others_at]; [done|]. rewrite filter_cons.
  pose proof (reaches_static s (InFlight.from o) target) as [Hr Hw]. destruct (reaches _ _ _ _) as [s1 r]. cbn [fst snd] in *. subst r.
  destruct (IH s1) as [Ho2 Hw2]. destruct (others_at _ _ _ _ _) as [s2 l]. cbn [fst snd] in *. rewrite Ho2, Hw2, Hw.
  split; [|done]. by destruct (in_reach _ _).
Qed.
Lemma log_writers s line : writers (log options s line) = writers s.
Proof. unfold log. by destruct (Options.quiet options). Qed.
Lemma collided_writers s f os target why : writers (collided options s f os target why) = writers s.
Proof.
  unfold collided. assert (writers (first_interferer options os target s).1 = writers s) as Hw.
  { revert s; induction os as [|o os IH]; intros s; cbn [first_interferer]; [done|].
    pose proof (reaches_static s (InFlight.from o) target) as [_ Hw]. destruct (reaches _ _ _ _) as [s1 [|]]; cbn [fst] in *; [done|by rewrite IH]. }
  destruct (first_interferer _ _ _ _) as [s1 b]. cbn [fst] in Hw. by rewrite log_writers.
Qed.
Lemma hand_over_writers s target d u : stream_of u (writers (hand_over s target (Inbound.Delivery d)).1)
  = (if u =? target then (fun st => tell st (Some d)) <$> stream_of u (writers s) else stream_of u (writers s)).
Proof.
  unfold hand_over. destruct (stream_of target (writers s)) as [st|] eqn:Hst; cbn [fst act writers].
  - rewrite stream_of_put. destruct (Z.eqb_spec u target) as [->|]; [by rewrite Hst|done].
  - destruct (Z.eqb_spec u target) as [->|]; [by rewrite Hst|done].
Qed.
Lemma tell_nothing (x : option Stream) : (fun st => tell st None) <$> x = x.
Proof. by destruct x. Qed.
Lemma settle_at_told f os origin target s u : stream_of u (writers (settle_at options f os origin target s).1)
  = (if u =? target then (fun st => tell st (told f os origin target)) <$> stream_of u (writers s) else stream_of u (writers s)).
Proof.
  unfold settle_at, told. destruct (Z.eqb_spec target (InFlight.from f)) as [|Hne]; cbn [orb].
  { rewrite tell_nothing. by destruct (u =? target). }
  pose proof (reaches_static s (InFlight.from f) target) as [Hr Hw]. destruct (reaches _ _ _ _) as [s1 r]. cbn [fst snd] in *. subst r.
  destruct (in_reach (InFlight.from f) target); cbn [negb].
  2: { cbn [fst]. rewrite tell_nothing, Hw. by destruct (u =? target). }
  cbv zeta. pose proof (others_at_static origin target os s1) as [Hos Hw2]. destruct (others_at _ _ _ _ _) as [s2 others]. cbn [fst snd] in *.
  rewrite <- Hos. assert (as_heard options origin target f = Transmission.new (ms origin (InFlight.starts_at f)) (airtime_between origin f)
    (Options.rssi options (InFlight.from f) target)) as ->.
  { unfold as_heard. by rewrite (proj2 (Z.eqb_neq _ _) (not_eq_sym Hne)). }
  rewrite Hlossless. destruct (judge _ _ _); cbn [verdict_of fmap option_fmap option_map fst].
  - rewrite hand_over_writers. by rewrite Hw2, Hw.
  - rewrite hand_over_writers, collided_writers. by rewrite Hw2, Hw.
  - rewrite hand_over_writers, collided_writers. by rewrite Hw2, Hw.
  - rewrite collided_writers, tell_nothing, Hw2, Hw. by destruct (u =? target).
  - rewrite log_writers, tell_nothing, Hw2, Hw. by destruct (u =? target).
Qed.
Lemma settle_loop_told f os origin ts n s u : NoDup ts -> stream_of u (writers (settle_loop options f os origin ts n s).1)
  = (if decide (u ∈ ts) then (fun st => tell st (told f os origin u)) <$> stream_of u (writers s) else stream_of u (writers s)).
Proof.
  revert n s; induction ts as [|t ts IH]; intros n s Hnd; cbn [settle_loop]; [by rewrite decide_False by apply not_elem_of_nil|].
  apply NoDup_cons in Hnd as [Ht Hnd]. pose proof (settle_at_told f os origin t s u) as Hat.
  destruct (settle_at _ _ _ _ _ _) as [s1 b]. cbn [fst] in Hat. rewrite IH by done. destruct (Z.eqb_spec u t) as [->|Hne].
  - rewrite decide_False by done. rewrite decide_True by (by left). done.
  - rewrite Hat. apply decide_ext. rewrite elem_of_cons. naive_solver.
Qed.
Lemma alone_whole f origin target : target <> InFlight.from f -> in_reach (InFlight.from f) target = true ->
  F64.ltb (Options.rssi options (InFlight.from f) target) SENSITIVITY_DBM = false ->
  told f [] origin target = Some (delivery f (Options.rssi options (InFlight.from f) target) Verdict.Decoded).
Proof.
  intros Hne Hr Hs. unfold told. rewrite (proj2 (Z.eqb_neq _ _) Hne), Hr. cbn [orb negb filter list_filter fmap list_fmap].
  unfold judge, as_heard. rewrite (proj2 (Z.eqb_neq _ _) (not_eq_sym Hne)). cbn [Transmission.rssi_dbm]. by rewrite Hs.
Qed.
End verdicts.

(** C19: Every receiver hears its own verdict. When a frame is judged on a whole channel without
    residual loss, what each connected node is sent is the medium's verdict there -- a
    function of the frame, of the frames that overlapped it and the node can hear, of the
    instant they are counted from (the earliest start the relay remembers), and of nothing
    decided for anyone else, so neither the order of the connections nor that of
    the overlapping frames matters. A frame alone on the air is written whole, once, to every
    other node in reach of its sender and in range. *)
Theorem every_receiver_hears_its_own_verdict
    `{Libm, Host} (options : Options.t) (s : Relay.t) (i : nat) (f : InFlight.t) (u : Z) (stream : Stream) :
  Options.isolate_ms options = 0 -> F64.ltb (F64.of_Z 0) (Options.loss options) = false ->
  frames s !! i = Some f ->
  let ws := meanwhile (locks s) (writers s) in
  let os := overlappers_of f (delete i (frames s)) in
  let origin := origin_of (frames s) f in
  let power := Options.rssi options (InFlight.from f) u in
  NoDup ws.*1 -> (u, stream) ∈ ws ->
  stream_of u (writers (settle options i s)) = Some (tell stream (told options f os origin u))
  /\ (forall os', os ≡ₚ os' -> told options f os origin u = told options f os' origin u)
  /\ (os = [] -> u <> InFlight.from f -> in_reach options (InFlight.from f) u = true -> F64.ltb power SENSITIVITY_DBM = false ->
      alive stream = true ->
      stream_of u (writers (settle options i s))
      = Some (mk_stream (written stream ++ framed (Delivery.encode (delivery f power Verdict.Decoded))) true)).
Proof.
  intros Hwhole Hlossless Hi ws os origin power Hnd Hin.
  assert (stream_of u (writers (settle options i s)) = Some (tell stream (told options f os origin u))) as Htold.
  { unfold settle. rewrite Hi. cbv zeta. fold os origin. set (s0 := act (lock s) _).
    pose proof (settle_loop_told options Hwhole Hlossless f os origin (targets s0) 0 s0 u Hnd) as Hloop.
    destruct (settle_loop _ _ _ _ _ _ _) as [s1 n]. cbn [fst] in Hloop. change (writers s0) with ws in Hloop.
    rewrite decide_True in Hloop by (apply list_elem_of_fmap; by exists (u, stream)).
    rewrite (stream_of_in u stream ws Hnd Hin) in Hloop. destruct (0 <? n); rewrite ?log_writers; exact Hloop. }
  split; [exact Htold|]. split.
  - intros os' Hos. unfold told. destruct (_ || _); [done|]. do 2 f_equal. rewrite !judge_worst. destruct (F64.ltb (Transmission.rssi_dbm _) _); [done|].
    apply worst_permutation. by rewrite Hos.
  - intros Hos Hne Hr Hs Ha. rewrite Htold, Hos, alone_whole by done. f_equal.
    destruct stream as [w []]; [|done]. cbn. unfold framed. by rewrite <- app_assoc.
Qed.

(** * Instances *)

#[local] Existing Instance flat_libm.
Definition three_nodes : Options.t := Options.mk (lit "127.0.0.1") 0 3 100 (F64.of_Z 0) false false 0 None.
(** Three nodes connected, and a clock that reads each of these in turn, then a late instant. *)
Definition reading (readings : list Z) : Host := {|
  instant n := nth n readings 100000000;
  meanwhile n ws := match ws with [] => (fun i => (i, mk_stream [] true)) <$> [0; 1; 2] | _ => ws end;
|}.
Definition two_voices : list Event.t :=
  [Event.Arrived (Incoming.mk 0 (replicate 10 1) 0); Event.Arrived (Incoming.mk 1 (replicate 10 2) 1000000); Event.Timeout].
Definition deliveries_of (s : Relay.t) : list (Z * Verdict.t * bytes) :=
  omap (fun a => match a with Act.Sent t (Inbound.Delivery d) _ => Some (t, Delivery.verdict d, Delivery.payload d) | _ => None end) (trace s).

(** Two frames overlap for a millisecond: taken as they come, neither is heard anywhere.
    Taken a moment late, with the first over before the second is taken, the first is
    heard whole by everyone and only the second is destroyed. *)
Example a_late_turn_spares_the_first_frame :
  deliveries_of (@relay flat_libm (reading (replicate 9 1000000)) three_nodes start two_voices) = []
  /\ deliveries_of (@relay flat_libm (reading (replicate 4 1000000 ++ replicate 9 2500000)) three_nodes start two_voices)
     = [(1, Verdict.Decoded, replicate 10 1); (2, Verdict.Decoded, replicate 10 1)].
Proof. vm_compute. split; reflexivity. Qed.

(** A clock that moves on by a third of a millisecond at every reading. *)
Definition ticking : Host := {|
  instant n := 333333 * Z.of_nat n;
  meanwhile n ws := match ws with [] => (fun i => (i, mk_stream [] true)) <$> [0; 1; 2] | _ => ws end;
|}.
#[local] Existing Instance ticking.
#[local] Instance ticking_laws : HostLaws ticking.
Proof. intros i j Hij. cbn. lia. Qed.
Lemma two_voices_prompt : prompt three_nodes two_voices.
Proof.
  intros before i rest Heq. destruct before as [|x [|y [|z before]]]; cbn in Heq; injection Heq; intros; subst;
    [by vm_compute|by vm_compute|discriminate|by destruct before].
Qed.
Lemma each_frame_is_judged_once_against_all_it_met_witness :
  match turn three_nodes (relay three_nodes start (take 2 two_voices)) Event.Timeout with
  | Some s' => (judged s').*1 ++ filter (fun f => InFlight.done f = false) (frames s') ≡ₚ taken three_nodes two_voices
  | None => False
  end.
Proof.
  pose proof (each_frame_is_judged_once_against_all_it_met three_nodes (take 2 two_voices) Event.Timeout) as Hall.
  destruct (turn _ _ _) as [s'|] eqn:Ht; [|vm_compute in Ht; discriminate]. clear Ht.
  destruct (Hall s') as (n & new & _ & _ & _ & Hbooks & _); [|exact two_voices_prompt|reflexivity|exact Hbooks].
  cbn. intros Hin. repeat (apply elem_of_cons in Hin as [Hin|Hin]; [discriminate|]). by apply not_elem_of_nil in Hin.
Defined.
Lemma nothing_is_heard_that_was_not_said_witness :
  exists f, f ∈ taken three_nodes two_voices /\ InFlight.from f <> 2.
Proof.
  destruct (nothing_is_heard_that_was_not_said three_nodes two_voices 2 (Inbound.Preamble (Preamble.mk (-80) 2)) true) as (f & Hf & Hmay & _).
  - apply (list_elem_of_lookup_2 _ 1). vm_compute. reflexivity.
  - exists f. split; [exact Hf|]. intros Heq. apply (proj1 Hmay). rewrite Heq. reflexivity.
Defined.
Lemma every_receiver_hears_its_own_verdict_witness :
  let f := flight_of three_nodes (Incoming.mk 0 (replicate 10 1) 0) in
  stream_of 2 (writers (settle three_nodes 0 (set_frames start [f])))
  = Some (mk_stream (framed (Delivery.encode (delivery f NOMINAL_RSSI_DBM Verdict.Decoded))) true).
Proof.
  intros f. destruct (every_receiver_hears_its_own_verdict three_nodes (set_frames start [f]) 0 f 2 (mk_stream [] true)) as (_ & _ & Halone).
  - reflexivity.
  - reflexivity.
  - reflexivity.
  - apply (bool_decide_unpack _). vm_compute. constructor.
  - apply (list_elem_of_lookup_2 _ 2). reflexivity.
  - apply Halone; [reflexivity|discriminate|reflexivity|by vm_compute|reflexivity].
Defined.
