(* ===== verification/Chip.v ===== *)
(** The behavioural model of an SX126x (src/src/infrastructure/sx126x/chip.rs).

    Instants and durations are whole nanoseconds.  The mutex serialises every
    operation, so an operation is a function of the model and of the instant it runs
    at; a timer's thread is an armed timer, which may fire at any time, or never.
    The airtime arithmetic is the lora-modulation crate's, a parameter. *)
From S2P Require Import Prelude Radio Hub.

Definition OP_WRITE_REGISTER : Z := 0x0D.
Definition OP_READ_REGISTER : Z := 0x1D.
Definition OP_WRITE_BUFFER : Z := 0x0E.
Definition OP_READ_BUFFER : Z := 0x1E.
Definition OP_SET_SLEEP : Z := 0x84.
Definition OP_SET_STANDBY : Z := 0x80.
Definition OP_SET_FS : Z := 0xC1.
Definition OP_SET_TX : Z := 0x83.
Definition OP_SET_RX : Z := 0x82.
Definition OP_SET_RX_DUTY_CYCLE : Z := 0x94.
Definition OP_SET_CAD : Z := 0xC5.
Definition OP_SET_CAD_PARAMS : Z := 0x88.
Definition OP_GET_PACKET_TYPE : Z := 0x11.
Definition OP_SET_RF_FREQUENCY : Z := 0x86.
Definition OP_SET_BUFFER_BASE_ADDRESS : Z := 0x8F.
Definition OP_SET_MODULATION_PARAMS : Z := 0x8B.
Definition OP_SET_PACKET_PARAMS : Z := 0x8C.
Definition OP_GET_RX_BUFFER_STATUS : Z := 0x13.
Definition OP_GET_PACKET_STATUS : Z := 0x14.
Definition OP_GET_RSSI_INST : Z := 0x15.
Definition OP_GET_STATS : Z := 0x10.
Definition OP_CFG_DIO_IRQ : Z := 0x08.
Definition OP_GET_IRQ_STATUS : Z := 0x12.
Definition OP_CLR_IRQ_STATUS : Z := 0x02.
Definition OP_GET_STATUS : Z := 0xC0.
Definition OP_GET_DEVICE_ERRORS : Z := 0x17.
Definition OP_CLEAR_DEVICE_ERRORS : Z := 0x07.

Definition IRQ_TX_DONE : Z := 0x0001.
Definition IRQ_RX_DONE : Z := 0x0002.
Definition IRQ_PREAMBLE_DETECTED : Z := 0x0004.
Definition IRQ_SYNCWORD_VALID : Z := 0x0008.
Definition IRQ_HEADER_VALID : Z := 0x0010.
Definition IRQ_HEADER_ERR : Z := 0x0020.
Definition IRQ_CRC_ERR : Z := 0x0040.
Definition IRQ_CAD_DONE : Z := 0x0080.
Definition IRQ_CAD_DETECTED : Z := 0x0100.
Definition IRQ_TIMEOUT : Z := 0x0200.

Definition PACKET_TYPE_LORA : Z := 0x01.
Definition RX_CONTINUOUS_TICKS : Z := 0x00FFFFFF.
Definition micros (n : Z) : Z := n * 1000.
Definition millis (n : Z) : Z := n * 1000000.
Definition TICK : Z := 15625.
Definition BUSY : Z := micros 100.
Definition LATE_TOLERANCE_FLOOR : Z := millis 5.
Definition IDLE_RSSI_DBM : Z := -117.
Definition BUFFER_BYTES : nat := 256.

Inductive ChipMode := Sleep | StandbyRc | StandbyXosc | FrequencySynthesis | Transmit | Receive.
#[global] Instance ChipMode_eq_dec : EqDecision ChipMode.
Proof. solve_decision. Defined.
Definition status_bits (m : ChipMode) : Z :=
  match m with
  | Sleep => 0x00
  | StandbyRc => 0x20
  | StandbyXosc => 0x30
  | FrequencySynthesis => 0x40
  | Receive => 0x50
  | Transmit => 0x60
  end.

(** The lora-modulation crate: the settings it names, and its two figures. *)
Inductive SpreadingFactor := SF5 | SF6 | SF7 | SF8 | SF9 | SF10 | SF11 | SF12.
Inductive Bandwidth := BW7 | BW10 | BW15 | BW20 | BW31 | BW41 | BW62 | BW125 | BW250 | BW500.
Inductive CodingRate := CR4_5 | CR4_6 | CR4_7 | CR4_8.
Record BaseBandModulationParams := baseband { bb_sf : SpreadingFactor; bb_bw : Bandwidth; bb_cr : CodingRate }.
Class LoraModulation := {
  symbol_duration_us : BaseBandModulationParams -> Z;
  time_on_air_us : BaseBandModulationParams -> option Z -> bool -> Z -> Z;
}.

Definition spreading_factor_from_raw (value : Z) : option SpreadingFactor :=
  match value with
  | 0x05 => Some SF5 | 0x06 => Some SF6 | 0x07 => Some SF7 | 0x08 => Some SF8
  | 0x09 => Some SF9 | 0x0A => Some SF10 | 0x0B => Some SF11 | 0x0C => Some SF12
  | _ => None
  end.
Definition bandwidth_from_raw (value : Z) : option Bandwidth :=
  match value with
  | 0x00 => Some BW7 | 0x08 => Some BW10 | 0x01 => Some BW15 | 0x09 => Some BW20
  | 0x02 => Some BW31 | 0x0A => Some BW41 | 0x03 => Some BW62 | 0x04 => Some BW125
  | 0x05 => Some BW250 | 0x06 => Some BW500
  | _ => None
  end.
Definition coding_rate_from_raw (value : Z) : option CodingRate :=
  match value with
  | 0x01 => Some CR4_5 | 0x02 => Some CR4_6 | 0x03 => Some CR4_7 | 0x04 => Some CR4_8
  | _ => None
  end.

(** [RssiPkt] and [SnrPkt] as the chip encodes them. *)
Definition rssi_raw (rssi_dbm : Z) : Z := Z.max 0 (Z.min 255 (- rssi_dbm * 2)).
Definition snr_raw (snr_db : Z) : Z := of_signed 8 (Z.max (- 128) (Z.min 127 (snr_db * 4))).

(** u32 counters: [+= 1]. *)
Definition incr32 (n : Z) : Z := (n + 1) mod 2 ^ 32.
Module Counters.
Record t := mk {
  transmitted : Z;
  received : Z;
  crc_errors : Z;
  header_errors : Z;
  missed_transmitting : Z;
  missed_idle : Z;
  missed_late : Z;
  timeouts : Z;
  cad_runs : Z;
  cad_detections : Z;
}.
Definition default : t := mk 0 0 0 0 0 0 0 0 0 0.
Inductive field := Transmitted | Received | CrcErrors | HeaderErrors | MissedTransmitting | MissedIdle
                 | MissedLate | Timeouts | CadRuns | CadDetections.
Definition count (f : field) (c : t) : t :=
  let up (g : bool) (x : Z) := if g then incr32 x else x in
  let hit f' := match f, f' with
    | Transmitted, Transmitted | Received, Received | CrcErrors, CrcErrors | HeaderErrors, HeaderErrors
    | MissedTransmitting, MissedTransmitting | MissedIdle, MissedIdle | MissedLate, MissedLate
    | Timeouts, Timeouts | CadRuns, CadRuns | CadDetections, CadDetections => true
    | _, _ => false
    end in
  mk (up (hit Transmitted) (transmitted c)) (up (hit Received) (received c)) (up (hit CrcErrors) (crc_errors c))
    (up (hit HeaderErrors) (header_errors c)) (up (hit MissedTransmitting) (missed_transmitting c))
    (up (hit MissedIdle) (missed_idle c)) (up (hit MissedLate) (missed_late c)) (up (hit Timeouts) (timeouts c))
    (up (hit CadRuns) (cad_runs c)) (up (hit CadDetections) (cad_detections c)).
End Counters.

Record Packet := packet { preamble_symbols : Z; implicit_header : bool; payload_length : Z }.
Record OnAir := on_air_frame { oa_started : Z; oa_preamble_until : Z; oa_until : Z }.

Inductive Timer :=
| TxDone (after generation : Z)
| RxTimeout (after generation : Z)
| CadDone (after generation : Z) (detected : bool).
Definition timer_generation (t : Timer) : Z :=
  match t with TxDone _ g | RxTimeout _ g | CadDone _ g _ => g end.

Module Model.
Record t := mk {
  mode : ChipMode;
  registers : gmap Z Z;
  buffer : bytes;
  tx_base : Z;
  rx_base : Z;
  modulation : option BaseBandModulationParams;
  packet_ : Packet;
  frequency_raw : Z;
  irq_status : Z;
  irq_mask : Z;
  dio1_mask : Z;
  rx_len : Z;
  rx_offset : Z;
  rssi : Z;
  snr : Z;
  rx_since : option Z;
  rx_continuous : bool;
  generation : Z;
  busy_until : option Z;
  host_wake : bool;
  counters : Counters.t;
  on_air : list OnAir;
  cad_symbols : Z;
}.
Definition fresh : t :=
  mk StandbyRc ∅ (replicate BUFFER_BYTES 0) 0 0 None (packet 8 false 0) 0 0 0 0 0 0 0 0 None false 0 None false
    Counters.default [] 8.
(** Assignments to some of the fields. *)
Definition with_mode (m : t) (vmode : ChipMode) (vrx_since : option Z) (vgeneration : Z) : t :=
  mk vmode (registers m) (buffer m) (tx_base m) (rx_base m) (modulation m) (packet_ m)
    (frequency_raw m) (irq_status m) (irq_mask m) (dio1_mask m) (rx_len m) (rx_offset m) (rssi m)
    (snr m) vrx_since (rx_continuous m) vgeneration (busy_until m) (host_wake m) (counters m)
    (on_air m) (cad_symbols m).
Definition with_registers (m : t) (vregisters : gmap Z Z) : t :=
  mk (mode m) vregisters (buffer m) (tx_base m) (rx_base m) (modulation m) (packet_ m)
    (frequency_raw m) (irq_status m) (irq_mask m) (dio1_mask m) (rx_len m) (rx_offset m) (rssi m)
    (snr m) (rx_since m) (rx_continuous m) (generation m) (busy_until m) (host_wake m) (counters m)
    (on_air m) (cad_symbols m).
Definition with_buffer (m : t) (vbuffer : bytes) : t :=
  mk (mode m) (registers m) vbuffer (tx_base m) (rx_base m) (modulation m) (packet_ m)
    (frequency_raw m) (irq_status m) (irq_mask m) (dio1_mask m) (rx_len m) (rx_offset m) (rssi m)
    (snr m) (rx_since m) (rx_continuous m) (generation m) (busy_until m) (host_wake m) (counters m)
    (on_air m) (cad_symbols m).
Definition with_bases (m : t) (vtx_base : Z) (vrx_base : Z) : t :=
  mk (mode m) (registers m) (buffer m) vtx_base vrx_base (modulation m) (packet_ m) (frequency_raw
    m) (irq_status m) (irq_mask m) (dio1_mask m) (rx_len m) (rx_offset m) (rssi m) (snr m) (rx_since
    m) (rx_continuous m) (generation m) (busy_until m) (host_wake m) (counters m) (on_air m)
    (cad_symbols m).
Definition with_modulation (m : t) (vmodulation : option BaseBandModulationParams) : t :=
  mk (mode m) (registers m) (buffer m) (tx_base m) (rx_base m) vmodulation (packet_ m)
    (frequency_raw m) (irq_status m) (irq_mask m) (dio1_mask m) (rx_len m) (rx_offset m) (rssi m)
    (snr m) (rx_since m) (rx_continuous m) (generation m) (busy_until m) (host_wake m) (counters m)
    (on_air m) (cad_symbols m).
Definition with_packet (m : t) (vpacket : Packet) : t :=
  mk (mode m) (registers m) (buffer m) (tx_base m) (rx_base m) (modulation m) vpacket (frequency_raw
    m) (irq_status m) (irq_mask m) (dio1_mask m) (rx_len m) (rx_offset m) (rssi m) (snr m) (rx_since
    m) (rx_continuous m) (generation m) (busy_until m) (host_wake m) (counters m) (on_air m)
    (cad_symbols m).
Definition with_frequency (m : t) (vfrequency_raw : Z) : t :=
  mk (mode m) (registers m) (buffer m) (tx_base m) (rx_base m) (modulation m) (packet_ m)
    vfrequency_raw (irq_status m) (irq_mask m) (dio1_mask m) (rx_len m) (rx_offset m) (rssi m) (snr
    m) (rx_since m) (rx_continuous m) (generation m) (busy_until m) (host_wake m) (counters m)
    (on_air m) (cad_symbols m).
Definition with_irq (m : t) (virq_status : Z) : t :=
  mk (mode m) (registers m) (buffer m) (tx_base m) (rx_base m) (modulation m) (packet_ m)
    (frequency_raw m) virq_status (irq_mask m) (dio1_mask m) (rx_len m) (rx_offset m) (rssi m) (snr
    m) (rx_since m) (rx_continuous m) (generation m) (busy_until m) (host_wake m) (counters m)
    (on_air m) (cad_symbols m).
Definition with_masks (m : t) (virq_mask : Z) (vdio1_mask : Z) : t :=
  mk (mode m) (registers m) (buffer m) (tx_base m) (rx_base m) (modulation m) (packet_ m)
    (frequency_raw m) (irq_status m) virq_mask vdio1_mask (rx_len m) (rx_offset m) (rssi m) (snr m)
    (rx_since m) (rx_continuous m) (generation m) (busy_until m) (host_wake m) (counters m) (on_air
    m) (cad_symbols m).
Definition with_arrival (m : t) (vbuffer : bytes) (vrx_len : Z) (vrx_offset : Z) : t :=
  mk (mode m) (registers m) vbuffer (tx_base m) (rx_base m) (modulation m) (packet_ m)
    (frequency_raw m) (irq_status m) (irq_mask m) (dio1_mask m) vrx_len vrx_offset (rssi m) (snr m)
    (rx_since m) (rx_continuous m) (generation m) (busy_until m) (host_wake m) (counters m) (on_air
    m) (cad_symbols m).
Definition with_signal (m : t) (vrssi : Z) (vsnr : Z) : t :=
  mk (mode m) (registers m) (buffer m) (tx_base m) (rx_base m) (modulation m) (packet_ m)
    (frequency_raw m) (irq_status m) (irq_mask m) (dio1_mask m) (rx_len m) (rx_offset m) vrssi vsnr
    (rx_since m) (rx_continuous m) (generation m) (busy_until m) (host_wake m) (counters m) (on_air
    m) (cad_symbols m).
Definition with_listening (m : t) (vrx_since : option Z) (vrx_continuous : bool) : t :=
  mk (mode m) (registers m) (buffer m) (tx_base m) (rx_base m) (modulation m) (packet_ m)
    (frequency_raw m) (irq_status m) (irq_mask m) (dio1_mask m) (rx_len m) (rx_offset m) (rssi m)
    (snr m) vrx_since vrx_continuous (generation m) (busy_until m) (host_wake m) (counters m)
    (on_air m) (cad_symbols m).
Definition with_busy (m : t) (vbusy_until : option Z) : t :=
  mk (mode m) (registers m) (buffer m) (tx_base m) (rx_base m) (modulation m) (packet_ m)
    (frequency_raw m) (irq_status m) (irq_mask m) (dio1_mask m) (rx_len m) (rx_offset m) (rssi m)
    (snr m) (rx_since m) (rx_continuous m) (generation m) vbusy_until (host_wake m) (counters m)
    (on_air m) (cad_symbols m).
Definition with_host_wake (m : t) (vhost_wake : bool) : t :=
  mk (mode m) (registers m) (buffer m) (tx_base m) (rx_base m) (modulation m) (packet_ m)
    (frequency_raw m) (irq_status m) (irq_mask m) (dio1_mask m) (rx_len m) (rx_offset m) (rssi m)
    (snr m) (rx_since m) (rx_continuous m) (generation m) (busy_until m) vhost_wake (counters m)
    (on_air m) (cad_symbols m).
Definition with_counters (m : t) (vcounters : Counters.t) : t :=
  mk (mode m) (registers m) (buffer m) (tx_base m) (rx_base m) (modulation m) (packet_ m)
    (frequency_raw m) (irq_status m) (irq_mask m) (dio1_mask m) (rx_len m) (rx_offset m) (rssi m)
    (snr m) (rx_since m) (rx_continuous m) (generation m) (busy_until m) (host_wake m) vcounters
    (on_air m) (cad_symbols m).
Definition with_on_air (m : t) (von_air : list OnAir) : t :=
  mk (mode m) (registers m) (buffer m) (tx_base m) (rx_base m) (modulation m) (packet_ m)
    (frequency_raw m) (irq_status m) (irq_mask m) (dio1_mask m) (rx_len m) (rx_offset m) (rssi m)
    (snr m) (rx_since m) (rx_continuous m) (generation m) (busy_until m) (host_wake m) (counters m)
    von_air (cad_symbols m).
Definition with_cad (m : t) (vcad_symbols : Z) : t :=
  mk (mode m) (registers m) (buffer m) (tx_base m) (rx_base m) (modulation m) (packet_ m)
    (frequency_raw m) (irq_status m) (irq_mask m) (dio1_mask m) (rx_len m) (rx_offset m) (rssi m)
    (snr m) (rx_since m) (rx_continuous m) (generation m) (busy_until m) (host_wake m) (counters m)
    (on_air m) vcad_symbols.
End Model.

(** * Commands *)

(** [params.get(i).copied().unwrap_or(0)], and two of them big-endian. *)
Definition param (params : bytes) (i : nat) : Z := nth i params 0.
Definition param16 (params : bytes) (i : nat) : Z := of_be [param params i; param params (S i)].

(** Writing a run of bytes into the buffer, around its end. *)
Definition write_ring (buffer : bytes) (base : Z) (bs : bytes) : bytes :=
  foldl (fun buf ob => <[Z.to_nat ((base + Z.of_nat ob.1) mod Z.of_nat BUFFER_BYTES) := ob.2]> buf) buffer (imap pair bs).

Section model.
Implicit Types m : Model.t.

Definition register (m : Model.t) (address : Z) : Z := default 0 (Model.registers m !! address).
Definition raise (m : Model.t) (bits : Z) : Model.t :=
  Model.with_irq m (Z.lor (Model.irq_status m) (Z.land bits (Model.irq_mask m))).
Definition irq_on_dio1 (m : Model.t) : bool := negb (Z.land (Model.irq_status m) (Model.dio1_mask m) =? 0).
Definition set_mode (m : Model.t) (mode : ChipMode) : Model.t :=
  Model.with_mode m mode (if decide (mode = Receive) then Model.rx_since m else None)
    (wrap64 (Model.generation m + 1)).
Definition count (m : Model.t) (f : Counters.field) : Model.t :=
  Model.with_counters m (Counters.count f (Model.counters m)).

Definition configure (m : Model.t) (opcode : Z) (params : bytes) : Model.t :=
  if opcode =? OP_WRITE_REGISTER then
    let address := param16 params 0 in
    Model.with_registers m
      (foldl (fun r ob => <[(address + Z.min (Z.of_nat ob.1) U16_MAX) mod 2 ^ 16 := ob.2]> r)
         (Model.registers m) (imap pair (drop 2 params)))
  else if opcode =? OP_WRITE_BUFFER then
    Model.with_buffer m (write_ring (Model.buffer m) (param params 0) (drop 1 params))
  else if opcode =? OP_SET_SLEEP then set_mode m Sleep
  else if opcode =? OP_SET_STANDBY then
    set_mode m (if param params 0 =? 1 then StandbyXosc else StandbyRc)
  else if opcode =? OP_SET_FS then set_mode m FrequencySynthesis
  else if opcode =? OP_SET_RF_FREQUENCY then
    Model.with_frequency m (of_be [param params 0; param params 1; param params 2; param params 3])
  else if opcode =? OP_SET_BUFFER_BASE_ADDRESS then Model.with_bases m (param params 0) (param params 1)
  else if opcode =? OP_SET_MODULATION_PARAMS then
    match spreading_factor_from_raw (param params 0), bandwidth_from_raw (param params 1),
          coding_rate_from_raw (param params 2) with
    | Some sf, Some bw, Some cr => Model.with_modulation m (Some (baseband sf bw cr))
    | _, _, _ => m
    end
  else if opcode =? OP_SET_PACKET_PARAMS then
    Model.with_packet m (packet (param16 params 0) (param params 2 =? 1) (param params 3))
  else if opcode =? OP_CFG_DIO_IRQ then Model.with_masks m (param16 params 0) (param16 params 2)
  else if opcode =? OP_CLR_IRQ_STATUS then
    Model.with_irq m (Z.land (Model.irq_status m) (Z.lxor U16_MAX (param16 params 0)))
  else m.

Definition answer (m : Model.t) (opcode : Z) (params : bytes) : bytes :=
  let status := status_bits (Model.mode m) in
  if opcode =? OP_READ_REGISTER then
    let address := param16 params 0 in
    (fun offset => register m ((address + offset) mod 2 ^ 16)) <$> seqZ 0 256
  else if opcode =? OP_READ_BUFFER then drop (Z.to_nat (param params 0)) (Model.buffer m)
  else if opcode =? OP_GET_IRQ_STATUS then status :: be_bytes 2 (Model.irq_status m)
  else if opcode =? OP_GET_STATUS then [status]
  else if opcode =? OP_GET_RX_BUFFER_STATUS then [status; Model.rx_len m; Model.rx_offset m]
  else if opcode =? OP_GET_PACKET_STATUS then [status; Model.rssi m; Model.snr m; Model.rssi m]
  else if opcode =? OP_GET_RSSI_INST then [status; rssi_raw IDLE_RSSI_DBM]
  else if opcode =? OP_GET_PACKET_TYPE then [status; PACKET_TYPE_LORA]
  else if (opcode =? OP_GET_DEVICE_ERRORS) || (opcode =? OP_CLEAR_DEVICE_ERRORS) then [status; 0; 0]
  else if opcode =? OP_GET_STATS then [status; 0; 0; 0; 0; 0; 0]
  else [].
End model.

(** * The chip *)

Record Activity := activity { act_irq : bool; act_host : bool }.

Module Chip.
(** [timers] are the threads asleep in [arm], with the instant each wakes. *)
Record t := mk {
  model : Model.t;
  scale : Z;
  lock_symbols : Z;
  outbound : list bytes;
  events : list RadioEvent;
  timers : list (Z * Timer);
}.
Definition new (scale lock_symbols : Z) : t := mk Model.fresh (Z.max scale 1) lock_symbols [] [] [].
Definition with_model (c : t) (m : Model.t) : t :=
  mk m (scale c) (lock_symbols c) (outbound c) (events c) (timers c).
Definition send (c : t) (frame : bytes) : t :=
  mk (model c) (scale c) (lock_symbols c) (outbound c ++ [frame]) (events c) (timers c).
Definition tell (c : t) (e : RadioEvent) : t :=
  mk (model c) (scale c) (lock_symbols c) (outbound c) (events c ++ [e]) (timers c).
Definition with_timers (c : t) (ts : list (Z * Timer)) : t :=
  mk (model c) (scale c) (lock_symbols c) (outbound c) (events c) ts.

Definition scaled (c : t) (duration : Z) : Z := duration / scale c.

Definition reset (c : t) : t :=
  with_model c (Model.with_counters Model.fresh (Model.counters (model c))).
Definition wait_on_busy_until (c : t) : option Z := Model.busy_until (model c).
Definition irq_pending (c : t) : bool := irq_on_dio1 (model c).
Definition wake_host (c : t) : t := with_model c (Model.with_host_wake (model c) true).
(** [await_irq]: [None] while it still waits. *)
Definition await_irq (c : t) : option t :=
  if irq_on_dio1 (model c) || Model.host_wake (model c) then Some (with_model c (Model.with_host_wake (model c) false)) else None.
(** [wait_for_activity] once it returns. *)
Definition activity_seen (c : t) : t * Activity :=
  (with_model c (Model.with_host_wake (model c) false),
   activity (irq_on_dio1 (model c)) (Model.host_wake (model c))).

Section timed.
Context `{LoraModulation}.

Definition symbol_ns (m : Model.t) : Z :=
  match Model.modulation m with None => millis 8 | Some p => micros (symbol_duration_us p) end.

Definition airtime (c : t) (m : Model.t) : Z :=
  match Model.modulation m with
  | None => scaled c (millis 1000)
  | Some p =>
      let preamble := Z.min (preamble_symbols (Model.packet_ m)) U8_MAX in
      scaled c (micros (time_on_air_us p (Some preamble) (negb (implicit_header (Model.packet_ m)))
                          (payload_length (Model.packet_ m))))
  end.
Definition late_tolerance (c : t) (m : Model.t) : Z :=
  let spare := sat_sub (preamble_symbols (Model.packet_ m)) (lock_symbols c) in
  Z.max (scaled c (symbol_ns m) * spare) LATE_TOLERANCE_FLOOR.

(** The three commands that take time: the model after, what is sent, the timer. *)
Definition begin_transmit (c : t) (m : Model.t) : Model.t * bytes * Timer :=
  let base := Model.tx_base m in
  let payload := (fun offset => nth (Z.to_nat ((base + offset) mod Z.of_nat BUFFER_BYTES)) (Model.buffer m) 0)
                 <$> seqZ 0 (payload_length (Model.packet_ m)) in
  let air := airtime c m in
  let m := count (set_mode m Transmit) Counters.Transmitted in
  (m, payload, TxDone air (Model.generation m)).
Definition begin_receive (c : t) (m : Model.t) (now : Z) (ticks : Z) : Model.t * option Timer :=
  let m := set_mode m Receive in
  let m := Model.with_listening m (Some now) (ticks =? RX_CONTINUOUS_TICKS) in
  (m, if (ticks =? 0) || Model.rx_continuous m then None
      else Some (RxTimeout (scaled c (TICK * ticks)) (Model.generation m))).
Definition still_on_air (now : Z) (f : OnAir) : bool := now <? oa_until f.
Definition begin_cad (c : t) (m : Model.t) (now : Z) : Model.t * Timer :=
  let window := scaled c (symbol_ns m * Model.cad_symbols m) in
  let until := now + window in
  let m := Model.with_on_air m (filter (fun f => still_on_air now f = true) (Model.on_air m)) in
  let detected := existsb (fun f => (oa_started f <=? until) && (now <=? oa_preamble_until f)) (Model.on_air m) in
  let m := count (set_mode m FrequencySynthesis) Counters.CadRuns in
  let m := if detected then count m Counters.CadDetections else m in
  (m, CadDone window (Model.generation m) detected).

Definition timer_after (t : Timer) : Z :=
  match t with TxDone a _ | RxTimeout a _ | CadDone a _ _ => a end.
Definition arm (c : t) (now : Z) (timer : option Timer) : t :=
  match timer with None => c | Some t => with_timers c (timers c ++ [(now + timer_after t, t)]) end.

(** The commands [execute] answers without changing the model. *)
Definition reads (opcode : Z) : bool :=
  bool_decide (opcode ∈ [OP_READ_REGISTER; OP_READ_BUFFER; OP_GET_IRQ_STATUS; OP_GET_STATUS;
    OP_GET_RX_BUFFER_STATUS; OP_GET_PACKET_STATUS; OP_GET_RSSI_INST; OP_GET_PACKET_TYPE;
    OP_GET_DEVICE_ERRORS; OP_CLEAR_DEVICE_ERRORS; OP_GET_STATS]).
Definition cad_symbols_of (raw : Z) : Z :=
  match raw with 0 => 1 | 1 => 2 | 2 => 4 | 4 => 16 | _ => 8 end.

Definition execute (c : t) (now : Z) (opcode : Z) (params : bytes) : t * bytes :=
  let m := model c in
  let m := if decide (Model.mode m = Sleep) then set_mode m StandbyRc else m in
  let '(c, m, timer, reply) :=
    if reads opcode then (c, m, None, answer m opcode params)
    else if opcode =? OP_SET_TX then
      let '(m, payload, timer) := begin_transmit c m in (send c payload, m, Some timer, [])
    else if (opcode =? OP_SET_RX) || (opcode =? OP_SET_RX_DUTY_CYCLE) then
      let '(m, timer) := begin_receive c m now (of_be [0; param params 0; param params 1; param params 2]) in
      (c, m, timer, [])
    else if opcode =? OP_SET_CAD_PARAMS then (c, Model.with_cad m (cad_symbols_of (param params 0)), None, [])
    else if opcode =? OP_SET_CAD then
      let '(m, timer) := begin_cad c m now in (c, m, Some timer, [])
    else (c, configure m opcode params, None, []) in
  let m := if opcode =? OP_SET_SLEEP then m else Model.with_busy m (Some (now + BUSY)) in
  (arm (with_model c m) now timer, reply).

Definition notice_preamble (c : t) (now : Z) (p : Preamble.t) : t :=
  let m := model c in
  let symbols := preamble_symbols (Model.packet_ m) + 5 in
  let kept := filter (fun f => still_on_air now f = true) (Model.on_air m) in
  with_model c (Model.with_on_air m
    (kept ++ [on_air_frame now (now + scaled c (symbol_ns m * symbols)) (now + millis (Preamble.airtime_ms p))])).

(** What a sleeping timer does when it wakes. *)
Definition fire_model (m : Model.t) (timer : Timer) : Model.t :=
  match timer with
  | TxDone _ g =>
      if bool_decide (Model.mode m = Transmit) && (Model.generation m =? g)
      then raise (set_mode m StandbyRc) IRQ_TX_DONE else m
  | RxTimeout _ g =>
      if bool_decide (Model.mode m = Receive) && (Model.generation m =? g)
      then count (raise (set_mode m StandbyRc) IRQ_TIMEOUT) Counters.Timeouts else m
  | CadDone _ g detected =>
      if bool_decide (Model.mode m = FrequencySynthesis) && (Model.generation m =? g)
      then raise (set_mode m StandbyRc) (if detected then Z.lor IRQ_CAD_DONE IRQ_CAD_DETECTED else IRQ_CAD_DONE)
      else m
  end.
Definition fire (c : t) (i : nat) : t :=
  match timers c !! i with
  | None => c
  | Some (_, timer) =>
      with_timers (with_model c (fire_model (model c) timer)) (delete i (timers c))
  end.

Definition missed_note (why : str) (n : Z) : RadioEvent :=
  EvNote (event_name (lit "chip_missed") ++ lit "," ++ quoted (lit "why") ++ lit ":" ++ quoted why
          ++ lit "," ++ quoted (lit "bytes") ++ lit ":" ++ decimal n).
Definition listening_since (c : t) (now : Z) (d : Delivery.t) : bool :=
  let m := model c in
  let started := now - millis (Delivery.airtime_ms d) in
  bool_decide (Model.mode m = Receive)
  && match Model.rx_since m with None => false | Some since => since <=? started + late_tolerance c m end.
Definition deliver (c : t) (now : Z) (d : Delivery.t) : t :=
  let m := model c in
  if negb (listening_since c now d) then
    let '(m, why) :=
      match Model.mode m with
      | Transmit => (count m Counters.MissedTransmitting, lit "transmitting")
      | Receive => (count m Counters.MissedLate, lit "late")
      | _ => (count m Counters.MissedIdle, lit "idle")
      end in
    tell (with_model c m) (missed_note why (len (Delivery.payload d)))
  else
    let m := Model.with_signal m (rssi_raw (Delivery.rssi_dbm d)) (snr_raw (Delivery.snr_db d)) in
    if decide (Delivery.verdict d = Verdict.HeaderError) then
      let m := raise m (Z.lor (Z.lor IRQ_PREAMBLE_DETECTED IRQ_SYNCWORD_VALID) IRQ_HEADER_ERR) in
      with_model c (count m Counters.HeaderErrors)
    else
      let length := Z.min (len (Delivery.payload d)) U8_MAX in
      let m := Model.with_arrival m
                 (write_ring (Model.buffer m) (Model.rx_base m) (take (Z.to_nat length) (Delivery.payload d)))
                 length (Model.rx_base m) in
      let flags := Z.lor (Z.lor (Z.lor IRQ_PREAMBLE_DETECTED IRQ_SYNCWORD_VALID) IRQ_HEADER_VALID) IRQ_RX_DONE in
      let '(m, flags) :=
        if decide (Delivery.verdict d = Verdict.Decoded) then (count m Counters.Received, flags)
        else (count m Counters.CrcErrors, Z.lor flags IRQ_CRC_ERR) in
      let m := raise m flags in
      with_model c (if Model.rx_continuous m then m else set_mode m StandbyRc).
End timed.
End Chip.
