(* ===== verification/ChipProofs.v ===== *)
(** What the chip model guarantees (src/src/infrastructure/sx126x/chip.rs): every
    command that takes time completes once and only if nothing superseded it, as
    long as the chip is not reset; what is transmitted is what was written; what is
    received can be read back. *)
From S2P Require Import Prelude Radio Hub Chip.

(** * Runs *)

Inductive chip_op :=
| Execute (now opcode : Z) (params : bytes)
| Deliver (now : Z) (d : Delivery.t)
| Notice (now : Z) (p : Preamble.t)
| Fire (i : nat)
| WakeHost
| Observe.

Section runs.
Context `{LoraModulation}.
Definition step (c : Chip.t) (op : chip_op) : Chip.t :=
  match op with
  | Execute now opcode params => (Chip.execute c now opcode params).1
  | Deliver now d => Chip.deliver c now d
  | Notice now p => Chip.notice_preamble c now p
  | Fire i => Chip.fire c i
  | WakeHost => Chip.wake_host c
  | Observe => (Chip.activity_seen c).1
  end.
Definition run (c : Chip.t) (ops : list chip_op) : Chip.t := foldl step c ops.
End runs.

(** * One completion at a time *)

(** The mode a timer was armed in. *)
Definition timer_mode (t : Timer) : ChipMode :=
  match t with TxDone _ _ => Transmit | RxTimeout _ _ => Receive | CadDone _ _ _ => FrequencySynthesis end.
(** The command's completion, with no question asked. *)
Definition complete (m : Model.t) (t : Timer) : Model.t :=
  match t with
  | TxDone _ _ => raise (set_mode m StandbyRc) IRQ_TX_DONE
  | RxTimeout _ _ => count (raise (set_mode m StandbyRc) IRQ_TIMEOUT) Counters.Timeouts
  | CadDone _ _ detected =>
      raise (set_mode m StandbyRc) (if detected then Z.lor IRQ_CAD_DONE IRQ_CAD_DETECTED else IRQ_CAD_DONE)
  end.

Definition gens (c : Chip.t) : list Z := (fun at_t => timer_generation at_t.2) <$> Chip.timers c.
Record timers_inv (bound : Z) (c : Chip.t) : Prop := {
  ti_bound : 0 <= Model.generation (Chip.model c) <= bound;
  ti_past : Forall (fun g => g <= Model.generation (Chip.model c)) (gens c);
  ti_once : NoDup (gens c);
  ti_mode : Forall (fun at_t => timer_generation at_t.2 = Model.generation (Chip.model c) ->
                     timer_mode at_t.2 = Model.mode (Chip.model c)) (Chip.timers c);
}.

(** A transmission in progress has its timer among the sleepers. *)
Definition tx_inv (c : Chip.t) : Prop :=
  Model.mode (Chip.model c) = Transmit ->
  Exists (fun at_t => timer_generation at_t.2 = Model.generation (Chip.model c)) (Chip.timers c).

Section completion.
Context `{LoraModulation}.
Implicit Types (c : Chip.t) (m : Model.t).

(** How an operation moves the mode: not at all, or to later generations. *)
Definition moved (m m' : Model.t) : Prop :=
  (Model.generation m' = Model.generation m /\ Model.mode m' = Model.mode m)
  \/ (Model.generation m < Model.generation m' <= Model.generation m + 2 /\ Model.mode m' <> Transmit).
Lemma set_mode_generation m mode : 0 <= Model.generation m -> Model.generation m + 1 < 2 ^ 64 ->
  Model.generation (set_mode m mode) = Model.generation m + 1.
Proof. intros. unfold set_mode, wrap64. cbn [Model.with_mode Model.generation]. apply Z.mod_small. lia. Qed.
Lemma moved_refl m : moved m m. Proof. by left. Qed.

Lemma configure_moved m opcode params : 0 <= Model.generation m -> Model.generation m + 1 < 2 ^ 64 ->
  (Model.generation (configure m opcode params) = Model.generation m
   /\ Model.mode (configure m opcode params) = Model.mode m)
  \/ (Model.generation (configure m opcode params) = Model.generation m + 1
      /\ Model.mode (configure m opcode params) <> Transmit).
Proof.
  intros H0 H1. unfold configure. cbv zeta.
  repeat (destruct (opcode =? _); [first [by left | right; split; [by apply set_mode_generation|by cbn; try case_match]
    | by (left; repeat case_match)]|]). by left.
Qed.

(** Keeping the timers: nothing armed, any number of them gone. *)
Lemma timers_inv_moved b b' c c' : timers_inv b c -> moved (Chip.model c) (Chip.model c') ->
  Chip.timers c' = Chip.timers c -> b + 2 <= b' -> timers_inv b' c'.
Proof.
  intros [Hb Hp Ho Hm] Hmv Ht Hbb. unfold gens in *. constructor; unfold gens; rewrite ?Ht; [| |done|].
  - destruct Hmv as [[-> _]|[? _]]; lia.
  - eapply Forall_impl; [exact Hp|]. intros g Hg. cbn beta in *. destruct Hmv as [[-> _]|[[? ?] _]]; [done|lia].
  - destruct Hmv as [[-> ->]|[Hlt _]]; [done|]. rewrite Forall_fmap in Hp. eapply Forall_impl; [exact Hp|].
    intros [at_ t] Hle Heq. unfold compose in Hle. cbn in *. lia.
Qed.
Lemma timers_inv_armed b b' c c' now t : timers_inv b c ->
  Model.generation (Chip.model c) < Model.generation (Chip.model c') <= Model.generation (Chip.model c) + 2 ->
  Chip.timers c' = Chip.timers c ++ [(now, t)] -> timer_generation t = Model.generation (Chip.model c') ->
  timer_mode t = Model.mode (Chip.model c') -> b + 2 <= b' -> timers_inv b' c'.
Proof.
  intros [Hb Hp Ho Hm] Hlt Ht Hg Hmode Hbb. unfold gens in *.
  constructor; unfold gens; rewrite ?Ht, ?fmap_app; cbn [fmap list_fmap snd]; [lia| | |].
  - apply Forall_app. split; [|apply Forall_singleton; lia]. eapply Forall_impl; [exact Hp|]. intros g' Hg'. cbn beta in *. lia.
  - apply NoDup_app. split_and!; [done| |apply NoDup_singleton].
    intros g Hin ->%list_elem_of_singleton. rewrite Forall_forall in Hp. apply Hp in Hin. lia.
  - apply Forall_app. split; [|by apply Forall_singleton]. rewrite Forall_fmap in Hp.
    eapply Forall_impl; [exact Hp|]. intros [at_ t'] Hle Heq. unfold compose in Hle. cbn in *. lia.
Qed.

Lemma wake_moved m : 0 <= Model.generation m -> Model.generation m + 1 < 2 ^ 64 ->
  let m' := if decide (Model.mode m = Sleep) then set_mode m StandbyRc else m in
  (Model.generation m' = Model.generation m /\ Model.mode m' = Model.mode m)
  \/ (Model.generation m' = Model.generation m + 1 /\ Model.mode m' <> Transmit).
Proof. intros ? ? m'. unfold m'. case_decide; [right; split; [by apply set_mode_generation|done]|by left]. Qed.

(** What [execute] does to the mode and to the timers. *)
Lemma execute_moves c now opcode params : 0 <= Model.generation (Chip.model c) -> Model.generation (Chip.model c) + 2 < 2 ^ 64 ->
  let c' := (Chip.execute c now opcode params).1 in
  (moved (Chip.model c) (Chip.model c') /\ Chip.timers c' = Chip.timers c)
  \/ exists t at_, Model.generation (Chip.model c) < Model.generation (Chip.model c') <= Model.generation (Chip.model c) + 2
       /\ Chip.timers c' = Chip.timers c ++ [(at_, t)] /\ timer_generation t = Model.generation (Chip.model c')
       /\ timer_mode t = Model.mode (Chip.model c').
Proof.
  intros H0 H2. unfold Chip.execute. cbv zeta.
  pose proof (wake_moved (Chip.model c) H0 ltac:(lia)) as Hw. cbv zeta in Hw.
  set (m := if decide (Model.mode (Chip.model c) = Sleep) then _ else _) in *. clearbody m.
  assert (moved (Chip.model c) m) as Hm by (destruct Hw as [Hw|[Hw ?]]; [by left|right; split; [lia|done]]).
  assert (0 <= Model.generation m) as Hg0 by lia. assert (Model.generation m + 1 < 2 ^ 64) as Hg1 by lia.
  assert (forall mode, Model.generation (Chip.model c) < Model.generation (set_mode m mode) <= Model.generation (Chip.model c) + 2) as Hset.
  { intros mode. rewrite set_mode_generation by done. lia. }
  destruct (Chip.reads opcode); [left|].
  { cbn -[Z.eqb]. destruct (opcode =? OP_SET_SLEEP); by cbn. }
  destruct (opcode =? OP_SET_TX).
  { right. cbn -[Z.eqb set_mode Z.modulo]. eexists _, _. split_and!; [..|reflexivity| |];
      destruct (opcode =? OP_SET_SLEEP); cbn -[set_mode]; try done; by apply (Hset Transmit). }
  destruct ((opcode =? OP_SET_RX) || (opcode =? OP_SET_RX_DUTY_CYCLE)).
  { unfold Chip.begin_receive. cbv zeta. destruct ((_ =? 0) || _).
    - left. destruct (opcode =? OP_SET_SLEEP); cbn -[set_mode]; (split; [right; split; [by apply (Hset Receive)|done]|done]).
    - right. eexists _, _. destruct (opcode =? OP_SET_SLEEP); cbn -[set_mode of_be];
        (split_and!; [by apply (Hset Receive)..|reflexivity|done|done]). }
  destruct (opcode =? OP_SET_CAD_PARAMS).
  { left. destruct (opcode =? OP_SET_SLEEP); by cbn. }
  destruct (opcode =? OP_SET_CAD).
  { unfold Chip.begin_cad. cbv zeta. set (m1 := Model.with_on_air m _).
    assert (forall mode, Model.generation (set_mode m1 mode) = Model.generation (set_mode m mode)) as Hm1 by done.
    destruct (existsb _ _); right; eexists _, _; destruct (opcode =? OP_SET_SLEEP); cbn -[set_mode Z.modulo];
      (split_and!; [by apply (Hset FrequencySynthesis)..|reflexivity|done|done]). }
  left. pose proof (configure_moved m opcode params Hg0 Hg1) as Hc.
  assert (moved (Chip.model c) (configure m opcode params)) as Hcm.
  { destruct Hw as [[Hw1 Hw2]|[Hw ?]]; destruct Hc as [[Hc1 Hc2]|[Hc ?]]; unfold moved;
      [left; split; congruence|right; split; [lia|congruence]..]. }
  clear - Hcm. revert Hcm. generalize (configure m opcode params). intros m' Hcm.
  destruct (opcode =? OP_SET_SLEEP); cbn; by split.
Qed.

Lemma deliver_moved c now d : 0 <= Model.generation (Chip.model c) -> Model.generation (Chip.model c) + 1 < 2 ^ 64 ->
  moved (Chip.model c) (Chip.model (Chip.deliver c now d)) /\ Chip.timers (Chip.deliver c now d) = Chip.timers c.
Proof.
  intros H0 H1. unfold Chip.deliver. cbv zeta. destruct (negb _).
  { destruct (Model.mode (Chip.model c)) eqn:Hm; cbn; (split; [left; cbn; auto|done]). }
  case_decide; [by split; [left|]|].
  case_decide; cbn -[set_mode raise count];
    (destruct (Model.rx_continuous _); cbn -[set_mode]; (split; [|done]); [by left|right; split; [|done]];
     match goal with |- context [set_mode ?m' _] =>
       assert (Model.generation m' = Model.generation (Chip.model c)) as Hg by done;
       rewrite (set_mode_generation m') by (rewrite Hg; lia); rewrite Hg; lia end).
Qed.

Lemma fire_model_eq m t : 0 <= Model.generation m -> Model.generation m + 1 < 2 ^ 64 ->
  (Model.generation m = timer_generation t -> timer_mode t = Model.mode m) ->
  Chip.fire_model m t = if Model.generation m =? timer_generation t then complete m t else m.
Proof.
  intros H0 H1 Hmode. unfold Chip.fire_model, complete.
  destruct t; cbn [timer_generation timer_mode] in *; (destruct (Z.eqb_spec (Model.generation m) generation) as [Heq|Hne];
    [rewrite (bool_decide_eq_true_2 _ (eq_sym (Hmode Heq))); done|by rewrite andb_false_r]).
Qed.
Lemma complete_generation m t : 0 <= Model.generation m -> Model.generation m + 1 < 2 ^ 64 ->
  Model.generation (complete m t) = Model.generation m + 1.
Proof. intros. destruct t; unfold complete; cbn -[set_mode]; by apply set_mode_generation. Qed.

Lemma step_inv b c op : timers_inv b c -> b + 2 < 2 ^ 64 -> timers_inv (b + 2) (step c op).
Proof.
  intros Hinv Hb. pose proof (ti_bound _ _ Hinv). destruct op as [now opcode params|now d|now p|i| |]; cbn [step].
  - destruct (execute_moves c now opcode params) as [[Hmv Ht]|(t & at_ & Hlt & Ht & Hg & Hmode)]; [lia..| |].
    + by eapply timers_inv_moved.
    + by eapply timers_inv_armed.
  - destruct (deliver_moved c now d) as [Hmv Ht]; [lia..|]. by eapply timers_inv_moved.
  - eapply timers_inv_moved; [exact Hinv|by left|done|lia].
  - unfold Chip.fire. destruct (Chip.timers c !! i) as [[at_ t]|] eqn:Hi.
    2:{ eapply timers_inv_moved; [exact Hinv|by left|done|lia]. }
    assert (timers_inv b (Chip.with_timers c (delete i (Chip.timers c)))) as Hdel.
    { destruct Hinv as [Hb' Hp Ho Hm]. unfold gens in *.
      constructor; cbn; unfold gens; cbn; rewrite ?list_fmap_delete; [done|by apply Forall_delete| |by apply Forall_delete].
      eapply sublist_NoDup; [exact Ho|apply sublist_delete]. }
    eapply timers_inv_moved; [exact Hdel| |done|lia]. cbn. rewrite fire_model_eq; [|lia..|].
    + destruct (_ =? _); [|apply moved_refl]. right. rewrite complete_generation by lia. split; [lia|by destruct t].
    + intros Heq. pose proof (ti_mode _ _ Hinv) as Hm. rewrite Forall_forall in Hm.
      apply (Hm (at_, t)); [by eapply list_elem_of_lookup_2|done].
  - eapply timers_inv_moved; [exact Hinv|by left|done|lia].
  - eapply timers_inv_moved; [exact Hinv|by left|done|lia].
Qed.

Lemma tx_inv_moved c c' : tx_inv c -> moved (Chip.model c) (Chip.model c') -> Chip.timers c' = Chip.timers c -> tx_inv c'.
Proof. intros Htx [[Hg Hm]|[_ Hm]] Ht Hmode; [|done]. rewrite Ht, Hg. apply Htx. by rewrite <- Hm. Qed.
Lemma step_tx b c op : timers_inv b c -> b + 2 < 2 ^ 64 -> tx_inv c -> tx_inv (step c op).
Proof.
  intros Hinv Hb Htx. pose proof (ti_bound _ _ Hinv). destruct op as [now opcode params|now d|now p|i| |]; cbn [step].
  - destruct (execute_moves c now opcode params) as [[Hmv Ht]|(t & at_ & Hlt & Ht & Hg & Hmode)]; [lia..| |].
    + by eapply tx_inv_moved.
    + intros _. rewrite Ht. apply Exists_app. right. by apply Exists_cons_hd.
  - destruct (deliver_moved c now d) as [Hmv Ht]; [lia..|]. by eapply tx_inv_moved.
  - eapply tx_inv_moved; [exact Htx|by left|done].
  - unfold Chip.fire. destruct (Chip.timers c !! i) as [[at_ t]|] eqn:Hi; [|done].
    rewrite fire_model_eq; [|lia..|].
    2:{ intros Heq. pose proof (ti_mode _ _ Hinv) as Hm. rewrite Forall_forall in Hm.
        apply (Hm (at_, t)); [by eapply list_elem_of_lookup_2|done]. }
    destruct (Z.eqb_spec (Model.generation (Chip.model c)) (timer_generation t)) as [Heq|Hne]; [by destruct t|].
    intros Hmode. cbn in *. specialize (Htx Hmode). rewrite delete_take_drop.
    rewrite <- (take_drop_middle _ _ _ Hi) in Htx. rewrite Exists_app, Exists_cons in Htx. apply Exists_app.
    destruct Htx as [|[Hx|]]; [by left|cbn in Hx; congruence|by right].
  - eapply tx_inv_moved; [exact Htx|by left|done].
  - eapply tx_inv_moved; [exact Htx|by left|done].
Qed.
Lemma run_tx b c ops : timers_inv b c -> b + 2 * len ops < 2 ^ 64 -> tx_inv c -> tx_inv (run c ops).
Proof.
  revert b c; induction ops as [|op ops IH]; intros b c Hinv Hb Htx; [done|].
  unfold len in *. rewrite length_cons in *. cbn [run foldl]. apply (IH (b + 2)); [apply step_inv; [done|lia]|lia|].
  apply (step_tx b); [done|lia|done].
Qed.

Lemma new_inv scale lock : timers_inv 0 (Chip.new scale lock).
Proof. constructor; cbn; [lia|constructor..]. Qed.
Lemma chip_run_inv b c ops : timers_inv b c -> b + 2 * len ops < 2 ^ 64 -> timers_inv (b + 2 * len ops) (run c ops).
Proof.
  revert b c; induction ops as [|op ops IH]; intros b c Hinv Hb.
  { cbn. unfold len. cbn. by rewrite Z.add_0_r. }
  unfold len in *. rewrite length_cons in *. cbn [run foldl].
  replace (b + 2 * Z.of_nat (S (length ops))) with (b + 2 + 2 * Z.of_nat (length ops)) by lia.
  apply IH; [apply step_inv; [done|lia]|lia].
Qed.

(** C36: Commands that take time complete once, in their own mode, and only if nothing
    has superseded them. Whatever a host, a medium and the timers' threads do to a
    chip that is not reset, and however late a timer wakes, at most one sleeping timer
    is live; a live timer completes its command -- standby, its interrupt behind the
    mask -- without the check of the mode ever deciding; any other timer changes
    nothing but the list of sleepers; and a chip that is transmitting has a live timer
    asleep, so that no transmission lasts for ever. *)
Theorem one_completion_at_a_time (scale lock : Z) (ops : list chip_op) :
  2 * len ops + 1 < 2 ^ 64 ->
  let c := run (Chip.new scale lock) ops in
  (forall i j at_i at_j ti tj, Chip.timers c !! i = Some (at_i, ti) -> Chip.timers c !! j = Some (at_j, tj) ->
     timer_generation ti = timer_generation tj -> i = j)
  /\ (forall i at_ t, Chip.timers c !! i = Some (at_, t) ->
       let live := Model.generation (Chip.model c) =? timer_generation t in
       Chip.fire c i = Chip.with_timers (Chip.with_model c (if live then complete (Chip.model c) t else Chip.model c))
                         (delete i (Chip.timers c))
       /\ (live = true -> Model.mode (Chip.model c) = timer_mode t
                         /\ Model.mode (Chip.model (Chip.fire c i)) = StandbyRc
                         /\ (forall j at_j tj, Chip.timers (Chip.fire c i) !! j = Some (at_j, tj) ->
                               timer_generation tj < Model.generation (Chip.model (Chip.fire c i)))))
  /\ (Model.mode (Chip.model c) = Transmit ->
       exists i at_ air, Chip.timers c !! i = Some (at_, TxDone air (Model.generation (Chip.model c)))).
Proof.
  intros Hlen c. assert (tx_inv c) as Htx by (apply (run_tx 0); [apply new_inv|lia|done]). assert (timers_inv (2 * len ops) c) as Hinv.
  { pose proof (chip_run_inv 0 (Chip.new scale lock) ops (new_inv scale lock) ltac:(lia)) as Hr. by rewrite Z.add_0_l in Hr. }
  clearbody c. pose proof (ti_bound _ _ Hinv) as Hb. split_and!.
  - intros i j ai aj ti tj Hi Hj Heq. apply (NoDup_lookup _ i j (timer_generation ti) (ti_once _ _ Hinv));
      unfold gens; rewrite list_lookup_fmap; [by rewrite Hi|rewrite Hj; cbn; by rewrite Heq].
  - intros i at_ t Hi live.
    assert (Model.generation (Chip.model c) = timer_generation t -> timer_mode t = Model.mode (Chip.model c)) as Hm.
    { intros Heq. pose proof (ti_mode _ _ Hinv) as Hm. rewrite Forall_forall in Hm.
      apply (Hm (at_, t)); [by eapply list_elem_of_lookup_2|done]. }
    assert (Chip.fire c i = Chip.with_timers (Chip.with_model c (if live then complete (Chip.model c) t else Chip.model c))
                         (delete i (Chip.timers c))) as Hf.
    { unfold Chip.fire. rewrite Hi. by rewrite fire_model_eq by (done || lia). }
    split; [done|]. intros Hl. rewrite Hl in Hf. apply Z.eqb_eq in Hl. rewrite Hf. split_and!.
    + symmetry. by apply Hm.
    + by destruct t.
    + cbn. intros j aj tj Hj. rewrite complete_generation by lia.
      assert (timer_generation tj <= Model.generation (Chip.model c)); [|lia].
      pose proof (ti_past _ _ Hinv) as Hp. unfold gens in Hp. rewrite Forall_fmap, Forall_forall in Hp.
      apply (Hp (aj, tj)). eapply list_elem_of_lookup_2 in Hj. by eapply elem_of_submseteq, sublist_submseteq, sublist_delete.
  - intros Hmode. apply Exists_exists in Htx as ([at_ t] & Hin & Hg); [|done]. cbn in Hg.
    pose proof (ti_mode _ _ Hinv) as Hm. rewrite Forall_forall in Hm. specialize (Hm _ Hin Hg). cbn in Hm.
    apply list_elem_of_lookup in Hin as [i Hi]. exists i, at_. rewrite Hmode in Hm. destruct t as [air g| |]; [|done..].
    exists air. cbn in Hg. by rewrite <- Hg.
Qed.
End completion.

(** * Witnesses' airtime: a fixed symbol and a fixed frame *)

#[local] Instance demo_modulation : LoraModulation := {
  symbol_duration_us := fun _ => 8192;
  time_on_air_us := fun _ _ _ n => 250000 + 1000 * n;
}.

(** A timed receive superseded by a transmission: when its timer wakes, nothing
    happens. *)
Lemma one_completion_at_a_time_witness :
  let c := run (Chip.new 1 6) [Execute 0 OP_SET_RX [0; 0; 64]; Execute 5 OP_SET_TX []] in
  Chip.fire c 0 = Chip.with_timers (Chip.with_model c (Chip.model c)) (delete 0%nat (Chip.timers c)).
Proof.
  intros c. destruct (one_completion_at_a_time 1 6 [Execute 0 OP_SET_RX [0; 0; 64]; Execute 5 OP_SET_TX []])
    as (_ & H & _); [unfold len; cbn; lia|]. fold c in H.
  assert (Chip.timers c !! 0%nat = Some (1000000, RxTimeout 1000000 1)) as Ht by (vm_compute; reflexivity).
  assert ((Model.generation (Chip.model c) =? timer_generation (RxTimeout 1000000 1)) = false) as Hl by (vm_compute; reflexivity).
  pose proof (proj1 (H _ _ _ Ht)) as Hf. rewrite Hl in Hf. exact Hf.
Defined.

(** * Reset *)

(** A reset puts the generation back to zero, so a timer armed before it can be
    taken for one armed after it: a receive that was told to go on until told
    otherwise is ended, with a timeout reported, by the timer of a receive the reset
    had already forgotten. *)
Theorem reset_revives_stale_timers :
  let c := run (Chip.new 1 6) [Execute 0 OP_SET_RX [0; 0; 64]] in
  let c := run (Chip.reset c) [Execute 10 OP_CFG_DIO_IRQ [0xFF; 0xFF; 0xFF; 0xFF];
                               Execute 20 OP_SET_RX [0xFF; 0xFF; 0xFF]] in
  Model.mode (Chip.model c) = Receive /\ Model.rx_continuous (Chip.model c) = true
  /\ Chip.timers c = [(1000000, RxTimeout 1000000 1)]
  /\ Model.mode (Chip.model (Chip.fire c 0)) = StandbyRc
  /\ Model.irq_status (Chip.model (Chip.fire c 0)) = IRQ_TIMEOUT.
Proof. vm_compute. by split_and!. Qed.

(** * The buffer *)

Section ring.
Lemma write_ring_snoc buf base bs b : write_ring buf base (bs ++ [b])
  = <[Z.to_nat ((base + len bs) mod Z.of_nat BUFFER_BYTES) := b]> (write_ring buf base bs).
Proof.
  unfold write_ring. rewrite imap_app, foldl_app. cbn. unfold compose. by rewrite Nat.add_0_r.
Qed.
Lemma write_ring_length buf base bs : length (write_ring buf base bs) = length buf.
Proof. induction bs as [|b bs IH] using rev_ind; [done|]. by rewrite write_ring_snoc, length_insert. Qed.
Lemma ring_index base j k : 0 <= base -> 0 <= j < k -> k < 256 ->
  (base + j) mod 256 <> (base + k) mod 256.
Proof. intros. intros Heq. Z.to_euclidean_division_equations. lia. Qed.
Lemma write_ring_at buf base bs (j : nat) : length buf = BUFFER_BYTES -> 0 <= base -> (length bs <= BUFFER_BYTES)%nat ->
  (j < length bs)%nat ->
  nth (Z.to_nat ((base + Z.of_nat j) mod Z.of_nat BUFFER_BYTES)) (write_ring buf base bs) 0 = nth j bs 0.
Proof.
  intros Hbuf Hbase. change (Z.of_nat BUFFER_BYTES) with 256. unfold BUFFER_BYTES in *.
  induction bs as [|b bs IH] using rev_ind; intros Hlen Hj; [simpl in Hj; lia|].
  rewrite length_app in *. cbn [length] in *. rewrite write_ring_snoc. change (Z.of_nat BUFFER_BYTES) with 256. unfold len.
  assert (forall k, (Z.to_nat ((base + k) mod 256) < 256)%nat) as Hr.
  { intros k. pose proof (Z.mod_pos_bound (base + k) 256 ltac:(lia)). lia. }
  destruct (decide (j = length bs)) as [->|Hne].
  - rewrite (app_nth2 bs) by lia. rewrite Nat.sub_diag. cbn [nth]. apply nth_lookup_Some.
    apply list_lookup_insert_eq. rewrite write_ring_length, Hbuf. apply Hr.
  - rewrite (app_nth1 bs) by lia. rewrite <- IH by lia.
    rewrite !nth_lookup. rewrite list_lookup_insert_ne; [done|].
    pose proof (ring_index base (Z.of_nat j) (Z.of_nat (length bs)) ltac:(lia) ltac:(lia) ltac:(lia)).
    pose proof (Z.mod_pos_bound (base + Z.of_nat j) 256 ltac:(lia)).
    pose proof (Z.mod_pos_bound (base + Z.of_nat (length bs)) 256 ltac:(lia)). lia.
Qed.
Lemma seqZ_nth (f : Z -> Z) n : (f <$> seqZ 0 (Z.of_nat n)) = (fun j => f (Z.of_nat j)) <$> seq 0 n.
Proof. unfold seqZ. rewrite Nat2Z.id, <- list_fmap_compose. apply list_fmap_ext. intros i x _. cbn. f_equal. lia. Qed.
Lemma list_of_nth (bs : bytes) : (fun j => nth j bs 0) <$> seq 0 (length bs) = bs.
Proof.
  apply list_eq. intros i. rewrite list_lookup_fmap. destruct (decide (i < length bs)%nat) as [Hi|Hi].
  - rewrite lookup_seq_lt by done. cbn. destruct (lookup_lt_is_Some_2 bs i Hi) as [b Hb]. rewrite Hb. f_equal. by apply nth_lookup_Some.
  - rewrite !lookup_ge_None_2; [done|lia|rewrite length_seq; lia].
Qed.
Lemma read_straight buf base (bs : bytes) : length buf = BUFFER_BYTES -> 0 <= base -> base + len bs <= 256 ->
  take (length bs) (drop (Z.to_nat base) (write_ring buf base bs)) = bs.
Proof.
  intros Hbuf Hbase Hfit. unfold len in *. apply list_eq. intros i. destruct (decide (i < length bs)%nat) as [Hi|Hi].
  - rewrite lookup_take_lt by done. rewrite lookup_drop.
    assert (Z.to_nat base + i < length (write_ring buf base bs))%nat as Hlt by (rewrite write_ring_length, Hbuf; unfold BUFFER_BYTES; lia).
    destruct (lookup_lt_is_Some_2 _ _ Hlt) as [b Hb]. rewrite Hb.
    destruct (lookup_lt_is_Some_2 bs i Hi) as [b' Hb']. rewrite Hb'. f_equal.
    apply nth_lookup_Some with (d := 0) in Hb'. rewrite <- Hb'.
    rewrite <- (write_ring_at buf base bs i) by (unfold BUFFER_BYTES; (done || lia)).
    rewrite Z.mod_small by (unfold BUFFER_BYTES; lia). apply nth_lookup_Some with (d := 0) in Hb. rewrite <- Hb.
    f_equal. lia.
  - rewrite !lookup_ge_None_2; [done|lia|]. rewrite length_take. lia.
Qed.
Lemma read_ring buf base bs : length buf = BUFFER_BYTES -> 0 <= base -> (length bs <= BUFFER_BYTES)%nat ->
  (fun offset => nth (Z.to_nat ((base + offset) mod Z.of_nat BUFFER_BYTES)) (write_ring buf base bs) 0) <$> seqZ 0 (len bs) = bs.
Proof.
  intros. unfold len. rewrite seqZ_nth. etransitivity; [|apply list_of_nth]. apply list_fmap_ext. intros i j Hj.
  apply write_ring_at; try done. apply lookup_seq in Hj. lia.
Qed.
End ring.

(** * Frames through the buffer *)

Section frames.
Context `{LoraModulation}.
Implicit Types c : Chip.t.

Definition commands (c : Chip.t) (now : Z) (cmds : list (Z * bytes)) : Chip.t :=
  foldl (fun c cmd => (Chip.execute c now cmd.1 cmd.2).1) c cmds.
(** Two bytes big-endian, as parameters. *)
Definition two (z : Z) : bytes := be_bytes 2 z.

(** A sleeping chip wakes for any command. *)
Definition awake (m : Model.t) : Model.t := if decide (Model.mode m = Sleep) then set_mode m StandbyRc else m.
Definition plain_command (opcode : Z) : bool :=
  negb (Chip.reads opcode || (opcode =? OP_SET_TX) || (opcode =? OP_SET_RX) || (opcode =? OP_SET_RX_DUTY_CYCLE)
        || (opcode =? OP_SET_CAD_PARAMS) || (opcode =? OP_SET_CAD) || (opcode =? OP_SET_SLEEP)).
Lemma execute_plain c now opcode params : plain_command opcode = true ->
  (Chip.execute c now opcode params).1
  = Chip.with_model c (Model.with_busy (configure (awake (Chip.model c)) opcode params) (Some (now + BUSY))).
Proof.
  unfold plain_command. rewrite negb_true_iff, !orb_false_iff. intros [[[[[[H1 H2] H3] H4] H5] H6] H7].
  unfold Chip.execute. by rewrite H1, H2, H3, H4, H5, H6, H7.
Qed.
Lemma execute_tx c now params : let m := awake (Chip.model c) in
  Chip.outbound (Chip.execute c now OP_SET_TX params).1
  = Chip.outbound c ++ [(fun offset => nth (Z.to_nat ((Model.tx_base m + offset) mod Z.of_nat BUFFER_BYTES)) (Model.buffer m) 0)
                        <$> seqZ 0 (payload_length (Model.packet_ m))]
  /\ Model.mode (Chip.model (Chip.execute c now OP_SET_TX params).1) = Transmit
  /\ Model.counters (Chip.model (Chip.execute c now OP_SET_TX params).1)
     = Counters.count Counters.Transmitted (Model.counters m).
Proof. done. Qed.
Lemma awake_buffer m : Model.buffer (awake m) = Model.buffer m /\ Model.tx_base (awake m) = Model.tx_base m
  /\ Model.rx_base (awake m) = Model.rx_base m /\ Model.packet_ (awake m) = Model.packet_ m
  /\ Model.counters (awake m) = Model.counters m.
Proof. unfold awake. by case_decide. Qed.

(** What a configuring command leaves of the transmit path. *)
Record tx_path (c : Chip.t) (base : Z) (buffer : bytes) (p : Packet) (out : list bytes) (n : Z) : Prop := {
  txp_base : Model.tx_base (Chip.model c) = base;
  txp_buffer : Model.buffer (Chip.model c) = buffer;
  txp_packet : Model.packet_ (Chip.model c) = p;
  txp_out : Chip.outbound c = out;
  txp_count : Counters.transmitted (Model.counters (Chip.model c)) = n;
}.
Ltac tx_path_step :=
  intros [<- <- <- <- <-]; rewrite execute_plain by done;
  match goal with |- tx_path (Chip.with_model ?c _) _ _ _ _ _ =>
    destruct (awake_buffer (Chip.model c)) as (? & ? & ? & ? & ?) end;
  constructor; cbn -[awake write_ring param16]; rewrite ?drop_0; congruence.
Lemma set_base_path c now base b rx buffer p out n : tx_path c b buffer p out n ->
  tx_path (Chip.execute c now OP_SET_BUFFER_BASE_ADDRESS [base; rx]).1 base buffer p out n.
Proof. tx_path_step. Qed.
Lemma write_path c now base b buffer bs p out n : tx_path c base buffer p out n ->
  tx_path (Chip.execute c now OP_WRITE_BUFFER (b :: bs)).1 base (write_ring buffer b bs) p out n.
Proof. tx_path_step. Qed.
Lemma packet_path c now base buffer p out n params : tx_path c base buffer p out n ->
  tx_path (Chip.execute c now OP_SET_PACKET_PARAMS params).1 base buffer
    (packet (param16 params 0) (param params 2 =? 1) (param params 3)) out n.
Proof. tx_path_step. Qed.
Lemma transmit_path c now base buffer p out n params : tx_path c base buffer p out n ->
  let c' := (Chip.execute c now OP_SET_TX params).1 in
  Chip.outbound c' = out ++ [(fun offset => nth (Z.to_nat ((base + offset) mod Z.of_nat BUFFER_BYTES)) buffer 0)
                             <$> seqZ 0 (payload_length p)]
  /\ Model.mode (Chip.model c') = Transmit /\ Counters.transmitted (Model.counters (Chip.model c')) = incr32 n.
Proof.
  intros [<- <- <- <- <-] c'. destruct (execute_tx c now params) as (Ho & Hm & Hc). unfold c'. rewrite Ho, Hm, Hc.
  destruct (awake_buffer (Chip.model c)) as (-> & -> & _ & -> & ->). done.
Qed.

(** What is transmitted is what was written: a frame of up to 255 bytes written
    at any base address -- around the end of the buffer included -- and given that
    base and that length, leaves for the medium exactly once, byte for byte, as
    [SetTx] executes, and the chip is then transmitting. *)
Theorem transmits_what_was_written c now (base rx preamble : Z) (header : Z) (frame : bytes) :
  length (Model.buffer (Chip.model c)) = BUFFER_BYTES -> is_u8 base -> is_u16 preamble -> len frame <= U8_MAX ->
  let c' := commands c now [(OP_SET_BUFFER_BASE_ADDRESS, [base; rx]); (OP_WRITE_BUFFER, base :: frame);
                            (OP_SET_PACKET_PARAMS, two preamble ++ [header; len frame; 0; 0]); (OP_SET_TX, [0; 0; 0])] in
  Chip.outbound c' = Chip.outbound c ++ [frame] /\ Model.mode (Chip.model c') = Transmit
  /\ Counters.transmitted (Model.counters (Chip.model c')) = incr32 (Counters.transmitted (Model.counters (Chip.model c))).
Proof.
  intros Hbuf Hbase Hpre Hlen c'. unfold c', commands. cbn [foldl fst snd].
  assert (tx_path c (Model.tx_base (Chip.model c)) (Model.buffer (Chip.model c)) (Model.packet_ (Chip.model c))
            (Chip.outbound c) (Counters.transmitted (Model.counters (Chip.model c)))) as Hp by by constructor.
  apply (set_base_path c now base _ rx) in Hp. apply (write_path _ now _ base _ frame) in Hp.
  apply (packet_path _ now _ _ _ _ _ (two preamble ++ [header; len frame; 0; 0])) in Hp.
  apply (transmit_path _ now _ _ _ _ _ [0; 0; 0]) in Hp as (Ho & Hm & Hc).
  rewrite Ho, Hm, Hc. split_and!; [|done..]. do 2 f_equal. cbn [payload_length].
  assert (param (two preamble ++ [header; len frame; 0; 0]) 3 = len frame) as -> by done.
  unfold U8_MAX, is_u8, len in *. apply read_ring; unfold BUFFER_BYTES; [done|lia|lia].
Qed.

(** What the host clocks out of the receive path. *)
Lemma read_rx_status c now params : Model.mode (Chip.model c) <> Sleep ->
  (Chip.execute c now OP_GET_RX_BUFFER_STATUS params).2
  = [status_bits (Model.mode (Chip.model c)); Model.rx_len (Chip.model c); Model.rx_offset (Chip.model c)].
Proof. intros Hm. unfold Chip.execute. by rewrite decide_False by done. Qed.
Lemma read_buffer c now params :
  (Chip.execute c now OP_READ_BUFFER params).2 = drop (Z.to_nat (param params 0)) (Model.buffer (Chip.model c)).
Proof. unfold Chip.execute. by case_decide. Qed.
(** A frame taken into the buffer. *)
Lemma arrival_reads c now (m : Model.t) (f : Counters.field) flags (bs : bytes) base :
  Model.mode m = Receive -> length (Model.buffer m) = BUFFER_BYTES -> 0 <= base ->
  let m1 := raise (count (Model.with_arrival m (write_ring (Model.buffer m) base bs) (len bs) base) f) flags in
  let m2 := if Model.rx_continuous m1 then m1 else set_mode m1 StandbyRc in
  let c' := Chip.with_model c m2 in
  (Chip.execute c' now OP_GET_RX_BUFFER_STATUS []).2 = [status_bits (Model.mode m2); len bs; base]
  /\ (base + len bs <= 256 -> take (length bs) (Chip.execute c' now OP_READ_BUFFER [base; 0]).2 = bs)
  /\ Model.irq_status m2 = Z.lor (Model.irq_status m) (Z.land flags (Model.irq_mask m))
  /\ Model.mode m2 = (if Model.rx_continuous m then Receive else StandbyRc).
Proof.
  intros Hmode Hbuf Hbase m1 m2 c'.
  assert (Model.rx_continuous m1 = Model.rx_continuous m) as Hrc by done.
  assert (Model.mode m2 = (if Model.rx_continuous m then Receive else StandbyRc)) as Hm2.
  { unfold m2. rewrite Hrc. by destruct (Model.rx_continuous m). }
  split_and!; [| | |done].
  - rewrite read_rx_status; cbn [Chip.model Chip.with_model c']; [|rewrite Hm2; by destruct (Model.rx_continuous m)].
    unfold m2. by destruct (Model.rx_continuous m1).
  - intros Hfit. rewrite read_buffer. cbn [Chip.model Chip.with_model c'].
    assert (Model.buffer m2 = write_ring (Model.buffer m) base bs) as ->. { unfold m2. by destruct (Model.rx_continuous m1). }
    by apply read_straight.
  - unfold m2. by destruct (Model.rx_continuous m1).
Qed.

(** Reception, on every branch. A frame that ends while the chip has been
    listening since (nearly) its start is received: undamaged or with a bad payload it
    is in the buffer, where the host reads its length, its offset and -- as long as it
    does not run past the end of the buffer -- exactly its bytes back, with [RxDone]
    (and [CrcErr]) raised behind the mask, and a one-shot receive is over; with a bad
    header only the signal and the interrupt are left and the chip goes on listening.
    A frame that arrives otherwise changes nothing but one counter, and the host is
    told which. *)
Theorem reception_on_every_branch c now (d : Delivery.t) :
  length (Model.buffer (Chip.model c)) = BUFFER_BYTES -> is_u8 (Model.rx_base (Chip.model c)) ->
  len (Delivery.payload d) <= U8_MAX ->
  let m := Chip.model c in
  let c' := Chip.deliver c now d in
  let m' := Chip.model c' in
  let base := Model.rx_base m in
  if Chip.listening_since c now d then
    Chip.events c' = Chip.events c
    /\ match Delivery.verdict d with
       | Verdict.HeaderError =>
           Model.buffer m' = Model.buffer m /\ Model.mode m' = Receive
           /\ Model.irq_status m' = Z.lor (Model.irq_status m) (Z.land 0x2C (Model.irq_mask m))
       | v =>
           (Chip.execute c' now OP_GET_RX_BUFFER_STATUS []).2 = [status_bits (Model.mode m'); len (Delivery.payload d); base]
           /\ (base + len (Delivery.payload d) <= 256 ->
                take (length (Delivery.payload d)) (Chip.execute c' now OP_READ_BUFFER [base; 0]).2 = Delivery.payload d)
           /\ Model.irq_status m' = Z.lor (Model.irq_status m)
                (Z.land (if decide (v = Verdict.Decoded) then 0x1E else 0x5E) (Model.irq_mask m))
           /\ Model.mode m' = (if Model.rx_continuous m then Receive else StandbyRc)
       end
  else
    exists f why, c' = Chip.tell (Chip.with_model c (count m f)) (Chip.missed_note why (len (Delivery.payload d)))
      /\ (f, why) = match Model.mode m with
                    | Transmit => (Counters.MissedTransmitting, lit "transmitting")
                    | Receive => (Counters.MissedLate, lit "late")
                    | _ => (Counters.MissedIdle, lit "idle")
                    end.
Proof.
  intros Hbuf Hbase Hlen m c' m' base. change (Model.rx_base (Chip.model c)) with base in Hbase.
  unfold m', c', Chip.deliver. fold m. cbv zeta. change (Model.rx_base m) with base.
  destruct (Chip.listening_since c now d) eqn:Hl; cbn [negb].
  2:{ destruct (Model.mode m); eexists _, _; (split; [reflexivity|done]). }
  assert (Model.mode m = Receive) as Hmode.
  { unfold Chip.listening_since in Hl. apply andb_true_iff in Hl as [Hl _]. by apply bool_decide_eq_true in Hl. }
  assert (length (Delivery.payload d) <= 255)%nat as Hn by (unfold len, U8_MAX in Hlen; lia).
  assert (take (Z.to_nat (Z.min (len (Delivery.payload d)) U8_MAX)) (Delivery.payload d) = Delivery.payload d) as Htake.
  { apply take_ge. unfold len, U8_MAX in *. lia. }
  assert (Z.min (len (Delivery.payload d)) U8_MAX = len (Delivery.payload d)) as Hmin by lia. rewrite Htake, Hmin.
  set (ms := Model.with_signal m (rssi_raw (Delivery.rssi_dbm d)) (snr_raw (Delivery.snr_db d))).
  assert (0 <= base) by (unfold is_u8 in Hbase; lia).
  destruct (Delivery.verdict d) eqn:Hv.
  - rewrite decide_False, decide_True by done. split; [done|]. rewrite decide_True by done. by apply (arrival_reads c now ms).
  - rewrite decide_True by done. by split_and!.
  - rewrite !decide_False by done. split; [done|]. by apply (arrival_reads c now ms).
Qed.
End frames.

Lemma transmits_what_was_written_witness :
  Chip.outbound (commands (Chip.new 1 6) 0 [(OP_SET_BUFFER_BASE_ADDRESS, [254; 0]); (OP_WRITE_BUFFER, [254; 7; 8; 9]);
    (OP_SET_PACKET_PARAMS, two 8 ++ [0; 3; 0; 0]); (OP_SET_TX, [0; 0; 0])]) = [[7; 8; 9]].
Proof.
  refine (proj1 (transmits_what_was_written (Chip.new 1 6) 0 254 0 8 0 [7; 8; 9] _ _ _ _));
    [reflexivity|unfold is_u8, U8_MAX; lia|unfold is_u16, U16_MAX; lia|unfold len, U8_MAX; cbn; lia].
Defined.
Lemma reception_on_every_branch_witness :
  let c := run (Chip.new 1 6) [Execute 0 OP_CFG_DIO_IRQ [0xFF; 0xFF; 0xFF; 0xFF]; Execute 0 OP_SET_RX [0xFF; 0xFF; 0xFF]] in
  let d := Delivery.mk [7; 8; 9] (-80) 5 370 Verdict.CrcError in
  let c' := Chip.deliver c (millis 371) d in
  take 3 (Chip.execute c' (millis 371) OP_READ_BUFFER [0; 0]).2 = [7; 8; 9]
  /\ Model.irq_status (Chip.model c') = 0x5E.
Proof.
  intros c d c'. pose proof (reception_on_every_branch c (millis 371) d) as Hr. cbv zeta in Hr.
  assert (Chip.listening_since c (millis 371) d = true) as Hl by (vm_compute; reflexivity).
  rewrite Hl in Hr. destruct Hr as [_ (_ & Hread & Hirq & _)];
    [reflexivity|vm_compute; split; discriminate|unfold len, U8_MAX; cbn; lia|].
  split; [apply Hread; vm_compute; discriminate|]. refine (eq_trans Hirq _). vm_compute. reflexivity.
Defined.
