(* ===== verification/Driver.v ===== *)
(** The driver thread of an SX126x radio (src/src/infrastructure/sx126x/radio.rs) and the
    node's end of it: bring the chip up, then listen, service interrupts and transmit on
    request.

    The lora-phy crate the thread drives, with the bus and the watch below it, is a
    parameter: [LoraPhy], one operation per call the thread makes, each with the
    errors it may answer. What the thread waits on is an input of each of its rounds. *)
From S2P Require Import Prelude Radio Chip.

Definition MAX_PAYLOAD_BYTES : Z := 255.
Definition LONGEST_TIMED_RX_MS : Z := 262000.

(** * The crate's own types *)

Inductive RxMode := Continuous | SingleMs (ms : Z).
Inductive IrqState := PreambleReceived | Done.
Record PacketStatus := packet_status { rssi : Z; snr : Z }.

Inductive TcxoCtrlVoltage := Ctrl1V6 | Ctrl1V8 | Ctrl2V2 | Ctrl2V7 | Ctrl3V0 | Ctrl3V3.
Definition tcxo_control (millivolts : Z) : TcxoCtrlVoltage :=
  if millivolts <? 1700 then Ctrl1V6 else if millivolts <? 1900 then Ctrl1V8 else if millivolts <? 2500 then Ctrl2V2
  else if millivolts <? 2900 then Ctrl2V7 else if millivolts <? 3200 then Ctrl3V0 else Ctrl3V3.
(** [Config], less the chip it is for: every radio here is an SX1262. *)
Record Config := config { tcxo_ctrl : option TcxoCtrlVoltage; use_dcdc : bool; rx_boost : bool }.

Class LoraPhy (B M P E : Type) := {
  with_syncword : B -> Z -> B * result E unit;
  create_modulation_params : B -> SpreadingFactor -> Bandwidth -> CodingRate -> Z -> B * result E M;
  low_data_rate_optimize : M -> Z;
  create_tx_packet_params : B -> Z -> bool -> bool -> bool -> M -> B * result E P;
  create_rx_packet_params : B -> Z -> bool -> Z -> bool -> bool -> M -> B * result E P;
  prepare_for_rx : B -> RxMode -> M -> P -> B * result E unit;
  start_rx : B -> B * result E unit;
  prepare_for_tx : B -> M -> P -> Z -> bytes -> B * P * result E unit;
  lora_tx : B -> B * result E unit;
  process_irq_event : B -> B * result E (option IrqState);
  get_rx_result : B -> P -> bytes -> B * bytes * result E (Z * PacketStatus);
  clear_irq_status : B -> B * result E unit;
  (** The watch's view of the interrupt flags, if it has one. *)
  irq_flags : B -> B * option Z;
  is_receive_timeout : E -> bool;
  debug : E -> str;
}.

(** * Parameters the profile may name *)

Definition spreading_factor (value : Z) : option SpreadingFactor :=
  match value with
  | 5 => Some SF5 | 6 => Some SF6 | 7 => Some SF7 | 8 => Some SF8
  | 9 => Some SF9 | 10 => Some SF10 | 11 => Some SF11 | 12 => Some SF12
  | _ => None
  end.
Definition bandwidth (hz : Z) : option Bandwidth :=
  match hz with
  | 7800 => Some BW7 | 10400 => Some BW10 | 15600 => Some BW15 | 20800 => Some BW20 | 31250 => Some BW31
  | 41700 => Some BW41 | 62500 => Some BW62 | 125000 => Some BW125 | 250000 => Some BW250 | 500000 => Some BW500
  | _ => None
  end.
Definition coding_rate (denominator : Z) : option CodingRate :=
  match denominator with 5 => Some CR4_5 | 6 => Some CR4_6 | 7 => Some CR4_7 | 8 => Some CR4_8 | _ => None end.

Definition because (event why : str) : RadioEvent :=
  EvNote (event_name event ++ lit "," ++ quoted (lit "why") ++ lit ":" ++ quoted why).

(** * The driver *)

Module Driver.
Record t (B M P : Type) := mk {
  lora : B;
  modulation : M;
  tx_params : P;
  rx_params : P;
  power_dbm : Z;
  rx_continuous : bool;
}.
Arguments mk {B M P}.
Arguments lora {B M P}.
Arguments modulation {B M P}.
Arguments tx_params {B M P}.
Arguments rx_params {B M P}.
Arguments power_dbm {B M P}.
Arguments rx_continuous {B M P}.
Definition set_lora {B M P} (d : t B M P) (lora : B) : t B M P :=
  mk lora (modulation d) (tx_params d) (rx_params d) (power_dbm d) (rx_continuous d).
Definition set_tx_params {B M P} (d : t B M P) (tx_params : P) : t B M P :=
  mk (lora d) (modulation d) tx_params (rx_params d) (power_dbm d) (rx_continuous d).

Section driver.
Context `{LoraPhy B M P E}.

Definition listen (d : t B M P) : t B M P * result E unit :=
  let mode := if rx_continuous d then Continuous else SingleMs LONGEST_TIMED_RX_MS in
  let '(lora, prepared) := prepare_for_rx (lora d) mode (modulation d) (rx_params d) in
  let d := set_lora d lora in
  match prepared with
  | Err e => (d, Err e)
  | Ok _ => let '(lora, started) := start_rx lora in (set_lora d lora, started)
  end.
Definition transmit (d : t B M P) (frame : bytes) : t B M P * result E unit :=
  let '(lora, params, prepared) := prepare_for_tx (lora d) (modulation d) (tx_params d) (power_dbm d) frame in
  let d := set_tx_params (set_lora d lora) params in
  match prepared with
  | Err e => (d, Err e)
  | Ok _ => let '(lora, sent) := lora_tx lora in (set_lora d lora, sent)
  end.
(** [map_err] and [?]. *)
Definition failing {A} (what : str) (r : result E A) : result str A :=
  match r with Ok a => Ok a | Err e => Err (what ++ lit ": " ++ debug e) end.
Definition bring_up (lora : B) (profile : PhyProfile.t) : B * result str (t B M P) :=
  match spreading_factor (PhyProfile.spreading_factor profile) with
  | None => (lora, Err (lit "spreading factor " ++ decimal (PhyProfile.spreading_factor profile)))
  | Some sf =>
  match bandwidth (PhyProfile.bandwidth_hz profile) with
  | None => (lora, Err (lit "bandwidth " ++ decimal (PhyProfile.bandwidth_hz profile) ++ lit " Hz"))
  | Some bw =>
  match coding_rate (PhyProfile.coding_rate_denominator profile) with
  | None => (lora, Err (lit "coding rate 4/" ++ decimal (PhyProfile.coding_rate_denominator profile)))
  | Some cr =>
  let '(lora, up) := with_syncword lora (PhyProfile.sync_word profile) in
  match failing (lit "init") up with
  | Err why => (lora, Err why)
  | Ok _ =>
  let '(lora, made) := create_modulation_params lora sf bw cr (PhyProfile.frequency_hz profile) in
  match failing (lit "modulation") made with
  | Err why => (lora, Err why)
  | Ok modulation =>
  if negb (low_data_rate_optimize modulation =? (if PhyProfile.low_data_rate_optimize profile then 1 else 0)) then
    (lora, Err (lit "profile says low data rate optimisation " ++ json_bool (PhyProfile.low_data_rate_optimize profile)
                ++ lit ", the chip's rule says otherwise"))
  else
  let preamble := PhyProfile.preamble_symbols profile in
  let implicit := negb (PhyProfile.explicit_header profile) in
  let crc_on := PhyProfile.crc_on profile in
  let iq_inverted := PhyProfile.iq_inverted profile in
  let '(lora, tx_made) := create_tx_packet_params lora preamble implicit crc_on iq_inverted modulation in
  match failing (lit "tx packet params") tx_made with
  | Err why => (lora, Err why)
  | Ok tx_params =>
  let '(lora, rx_made) := create_rx_packet_params lora preamble implicit U8_MAX crc_on iq_inverted modulation in
  match failing (lit "rx packet params") rx_made with
  | Err why => (lora, Err why)
  | Ok rx_params =>
  let '(driver, listening) :=
    listen (mk lora modulation tx_params rx_params (PhyProfile.tx_power_dbm profile) (PhyProfile.rx_continuous profile)) in
  (Driver.lora driver, match failing (lit "listen") listening with Err why => Err why | Ok _ => Ok driver end)
  end end end end end end end.
End driver.
End Driver.

(** * The thread *)

Module Thread.
Record t (B M P : Type) := mk { driver : Driver.t B M P; buffer : bytes; events : list RadioEvent }.
Arguments mk {B M P}.
Arguments driver {B M P}.
Arguments buffer {B M P}.
Arguments events {B M P}.
Definition set_driver {B M P} (x : t B M P) (d : Driver.t B M P) : t B M P := mk d (buffer x) (events x).
Definition set_lora {B M P} (x : t B M P) (lora : B) : t B M P := set_driver x (Driver.set_lora (driver x) lora).
Definition set_buffer {B M P} (x : t B M P) (buffer : bytes) : t B M P := mk (driver x) buffer (events x).
Definition send {B M P} (x : t B M P) (e : RadioEvent) : t B M P := mk (driver x) (buffer x) (events x ++ [e]).

Section thread.
Context `{LoraPhy B M P E}.

Definition saturated_i8 (n : Z) : Z := if (- 2 ^ 7 <=? n) && (n <? 2 ^ 7) then n else if n <? 0 then - 2 ^ 7 else 2 ^ 7 - 1.
Definition flagged (mask : Z) (flags : option Z) : bool :=
  match flags with Some flags => negb (Z.land flags mask =? 0) | None => false end.
Definition read_flags (x : t B M P) : t B M P * option Z :=
  let '(lora, flags) := irq_flags (Driver.lora (driver x)) in (set_lora x lora, flags).
Definition get_result (x : t B M P) : t B M P * result E (Z * PacketStatus) :=
  let '(lora, buffer, got) := get_rx_result (Driver.lora (driver x)) (Driver.rx_params (driver x)) (buffer x) in
  (set_buffer (set_lora x lora) buffer, got).
Definition clear (x : t B M P) : t B M P :=
  let '(lora, _) := clear_irq_status (Driver.lora (driver x)) in set_lora x lora.
(** [listen], its error noted. *)
Definition listen_again (x : t B M P) : t B M P :=
  let '(d, listening) := Driver.listen (driver x) in
  let x := set_driver x d in
  match listening with Err why => send x (because (lit "chip_rx_failed") (debug why)) | Ok _ => x end.

Definition service_irq (x : t B M P) : t B M P :=
  let '(lora, irq) := process_irq_event (Driver.lora (driver x)) in
  let x := set_lora x lora in
  match irq with
  | Ok (Some Done) =>
      let '(x, flags) := read_flags x in
      let corrupted := flagged IRQ_CRC_ERR flags in
      let '(x, got) := get_result x in
      let x :=
        match got with
        | Ok (length, status) =>
            if corrupted then send x (EvCrcError (rssi status))
            else send x (EvReceived (Received.mk (take (Z.to_nat length) (buffer x)) (rssi status) (saturated_i8 (snr status))))
        | Err why => send x (because (lit "chip_rx_failed") (debug why))
        end in
      clear x
  | Ok (Some PreambleReceived) | Ok None =>
      let '(x, flags) := read_flags x in
      let x :=
        if flagged IRQ_HEADER_ERR flags then
          let '(x, got) := get_result x in
          send x (EvHeaderError (match got with Ok (_, status) => rssi status | Err _ => 0 end))
        else x in
      clear x
  | Err why =>
      if is_receive_timeout why then listen_again (clear x)
      else clear (send x (because (lit "chip_irq_failed") (debug why)))
  end.
Definition obey (x : t B M P) (frame : bytes) : t B M P :=
  let '(d, sent) := Driver.transmit (driver x) frame in
  let x := set_driver x d in
  let x := match sent with Err why => send x (because (lit "chip_tx_failed") (debug why)) | Ok _ => x end in
  listen_again x.
(** One round: whether an interrupt is pending, and the commands found waiting. *)
Definition round (x : t B M P) (irq : bool) (commands : list bytes) : t B M P :=
  foldl obey (if irq then service_irq x else x) commands.
Fixpoint run (x : t B M P) (rounds : list (bool * list bytes)) : t B M P :=
  match rounds with [] => x | (irq, commands) :: rounds => run (round x irq commands) rounds end.

(** [drive], until the node lets go of the radio. *)
Definition up_note (profile : PhyProfile.t) : RadioEvent :=
  EvNote (event_name (lit "chip_up") ++ lit "," ++ quoted (lit "phy") ++ lit ":" ++ quoted (PhyProfile.name profile)
          ++ lit "," ++ quoted (lit "sf") ++ lit ":" ++ decimal (PhyProfile.spreading_factor profile)
          ++ lit "," ++ quoted (lit "bw_hz") ++ lit ":" ++ decimal (PhyProfile.bandwidth_hz profile)
          ++ lit "," ++ quoted (lit "frequency_hz") ++ lit ":" ++ decimal (PhyProfile.frequency_hz profile)).
Definition drive (lora : B) (profile : PhyProfile.t) (rounds : list (bool * list bytes)) : B * list RadioEvent :=
  match Driver.bring_up lora profile with
  | (lora, Err why) => (lora, [because (lit "chip_failed") why])
  | (_, Ok driver) =>
      let x := run (mk driver (replicate (Z.to_nat MAX_PAYLOAD_BYTES) 0) [up_note profile]) rounds in
      (Driver.lora (Thread.driver x), events x)
  end.
End thread.
End Thread.

(** * The node's end *)

Module DriverHandle.
(** Commands sent and not taken, events sent and not polled, and whether the thread still
    holds its end. *)
Record t := mk { commands : list bytes; events : list RadioEvent; attached : bool }.
Definition transmit (h : t) (frame : bytes) : t * result RadioError unit :=
  if MAX_PAYLOAD_BYTES <? len frame then (h, Err (TooLong (len frame) MAX_PAYLOAD_BYTES))
  else if negb (attached h) then (h, Err Offline)
  else (mk (commands h ++ [frame]) (events h) (attached h), Ok tt).
Definition poll (h : t) : t * option RadioEvent :=
  match events h with [] => (h, None) | e :: events => (mk (commands h) events (attached h), Some e) end.
End DriverHandle.
#[global] Instance driver_radio : Radio DriverHandle.t := {
  radio_transmit := DriverHandle.transmit;
  radio_poll := DriverHandle.poll;
}.
