(* ===== verification/DriverProofs.v ===== *)
(** What the driver thread does on any board: it attempts each frame once and in order, it
    is receiving as its profile asks whenever it waits -- or has said why not -- and it hands up exactly
    the frames the chip received whole. *)
From S2P Require Import Prelude Radio Chip Driver.

(** * A board that keeps a record *)

Inductive Call (E : Type) :=
| CPrepareRx (mode : RxMode) (r : result E unit)
| CStartRx (r : result E unit)
| CPrepareTx (frame : bytes) (r : result E unit)
| CTx (r : result E unit)
| CIrq (r : result E (option IrqState))
| CFlags (flags : option Z)
| CGet (r : result E (Z * PacketStatus)) (buffer : bytes)
| CClear.
Arguments CPrepareRx {E}.
Arguments CStartRx {E}.
Arguments CPrepareTx {E}.
Arguments CTx {E}.
Arguments CIrq {E}.
Arguments CFlags {E}.
Arguments CGet {E}.
Arguments CClear {E}.

Section recorded.
Context {B M P E : Type} (Lp : LoraPhy B M P E).
Definition Recorded : Type := B * list (Call E).
(** The same board, its calls written down. *)
Definition recorded : LoraPhy Recorded M P E := {|
  with_syncword b w := let '(l, r) := with_syncword b.1 w in ((l, b.2), r);
  create_modulation_params b sf bw cr f := let '(l, r) := create_modulation_params b.1 sf bw cr f in ((l, b.2), r);
  low_data_rate_optimize := low_data_rate_optimize;
  create_tx_packet_params b n i c q m := let '(l, r) := create_tx_packet_params b.1 n i c q m in ((l, b.2), r);
  create_rx_packet_params b n i s c q m := let '(l, r) := create_rx_packet_params b.1 n i s c q m in ((l, b.2), r);
  prepare_for_rx b mode m p := let '(l, r) := prepare_for_rx b.1 mode m p in ((l, b.2 ++ [CPrepareRx mode r]), r);
  start_rx b := let '(l, r) := start_rx b.1 in ((l, b.2 ++ [CStartRx r]), r);
  prepare_for_tx b m p w frame := let '(l, q, r) := prepare_for_tx b.1 m p w frame in ((l, b.2 ++ [CPrepareTx frame r]), q, r);
  lora_tx b := let '(l, r) := lora_tx b.1 in ((l, b.2 ++ [CTx r]), r);
  process_irq_event b := let '(l, r) := process_irq_event b.1 in ((l, b.2 ++ [CIrq r]), r);
  get_rx_result b p buffer := let '(l, buffer, r) := get_rx_result b.1 p buffer in ((l, b.2 ++ [CGet r buffer]), buffer, r);
  clear_irq_status b := let '(l, r) := clear_irq_status b.1 in ((l, b.2 ++ [CClear]), r);
  irq_flags b := let '(l, f) := irq_flags b.1 in ((l, b.2 ++ [CFlags f]), f);
  is_receive_timeout := is_receive_timeout;
  debug := debug;
|}.
End recorded.

(** * What a record says *)

Section record.
Context {B M P E : Type} {Lp : LoraPhy B M P E}.
Implicit Types (c : Call E).

(** The frames whose transmission was attempted. *)
Definition attempted (calls : list (Call E)) : list bytes :=
  omap (fun c => match c with CPrepareTx frame _ => Some frame | _ => None end) calls.

(** Whether the chip can hear: a receive that is timed is spent on the first frame. *)
Inductive Ear := Idle | Spent | Ready (mode : RxMode) | Hearing (mode : RxMode) | Broken (why : E).
Definition listens (ear : Ear) (c : Call E) : Ear :=
  match c with
  | CPrepareRx mode (Ok _) => Ready mode
  | CPrepareRx _ (Err e) => Broken e
  | CStartRx (Ok _) => match ear with Ready mode => Hearing mode | ear => ear end
  | CStartRx (Err e) => Broken e
  | CPrepareTx _ _ | CTx _ => Idle
  | CIrq (Ok (Some Done)) => match ear with Hearing (SingleMs _) => Spent | ear => ear end
  | CIrq (Err e) => if is_receive_timeout e then Idle else ear
  | _ => ear
  end.
Definition ear_of (calls : list (Call E)) : Ear := foldl listens Idle calls.

(** The frames received whole: the interrupt said done, the flags did not say the checksum
    failed, and the board gave the frame. *)
Inductive Stage := Quiet | SawDone | SawFlags (flags : option Z).
Definition receives (s : Stage * list Received.t) (c : Call E) : Stage * list Received.t :=
  match s.1, c with
  | _, CIrq (Ok (Some Done)) => (SawDone, s.2)
  | SawDone, CFlags f => (SawFlags f, s.2)
  | SawFlags f, CGet (Ok (n, status)) buffer =>
      (Quiet, if Thread.flagged IRQ_CRC_ERR f then s.2
              else s.2 ++ [Received.mk (take (Z.to_nat n) buffer) (rssi status) (Thread.saturated_i8 (snr status))])
  | _, _ => (Quiet, s.2)
  end.
Definition received_by (calls : list (Call E)) : Stage * list Received.t := foldl receives (Quiet, []) calls.
Definition received_in (events : list RadioEvent) : list Received.t :=
  omap (fun e => match e with EvReceived r => Some r | _ => None end) events.
End record.
#[global] Arguments Ear : clear implicits.

(** * The thread keeps it so *)

Section thread.
Context {B M P E : Type} {Lp : LoraPhy B M P E}.
#[local] Existing Instance recorded.
Notation Thread := (Thread.t (Recorded (B := B) (E := E)) M P).
Notation driver x := (Thread.driver x).
Notation events x := (Thread.events x).
Definition calls (x : Thread) : list (Call E) := (Driver.lora (driver x)).2.
Definition deaf_note (e : E) : RadioEvent := because (lit "chip_rx_failed") (debug e).
(** Hearing in the mode the profile asks for, or the reason is among the events; only a
    timed receive ends, with the frame it heard. *)
Definition owned (continuous : bool) (ear : Ear E) (events : list RadioEvent) : Prop :=
  match ear with
  | Hearing Continuous => continuous = true
  | Hearing (SingleMs ms) => continuous = false /\ ms = LONGEST_TIMED_RX_MS
  | Spent => continuous = false
  | Idle | Ready _ => False
  | Broken e => deaf_note e ∈ events
  end.
Record sound (continuous : bool) (frames : list bytes) (x : Thread) : Prop := {
  so_frames : attempted (calls x) = frames;
  so_ear : owned continuous (ear_of (Lp := Lp) (calls x)) (events x);
  so_heard : received_by (calls x) = (Quiet, received_in (events x));
  so_mode : Driver.rx_continuous (driver x) = continuous;
}.
(** What one operation added to the record and to the events. *)
Definition added (cs : list (Call E)) (es : list RadioEvent) (x x' : Thread) : Prop :=
  calls x' = calls x ++ cs /\ events x' = events x ++ es /\ Driver.rx_continuous (driver x') = Driver.rx_continuous (driver x).
Lemma added_trans cs1 es1 cs2 es2 x1 x2 x3 : added cs1 es1 x1 x2 -> added cs2 es2 x2 x3 -> added (cs1 ++ cs2) (es1 ++ es2) x1 x3.
Proof. intros (C1 & E1 & R1) (C2 & E2 & R2). unfold added. rewrite C2, E2, C1, E1, !app_assoc. split_and!; [done..|congruence]. Qed.
Lemma sound_added c cs es frames x x' : sound c frames x -> added cs es x x' ->
  owned c (foldl (listens (Lp := Lp)) (ear_of (Lp := Lp) (calls x)) cs) (events x ++ es) ->
  foldl receives (Quiet, received_in (events x)) cs = (Quiet, received_in (events x) ++ received_in es) ->
  sound c (frames ++ attempted cs) x'.
Proof.
  intros [S1 S2 S3 S4] (C & Ev & R) Hear Hheard. constructor.
  - rewrite C. unfold attempted in *. rewrite omap_app. by rewrite S1.
  - rewrite C, Ev. unfold ear_of in *. by rewrite foldl_app.
  - rewrite C, Ev. unfold received_by, received_in in *. rewrite foldl_app, S3, Hheard. by rewrite omap_app.
  - congruence.
Qed.

(** Listening again, from whatever state. *)
Lemma listen_again_added x : exists cs es, added cs es x (Thread.listen_again x) /\ attempted cs = [] /\ received_in es = []
  /\ (forall ear, owned (Driver.rx_continuous (driver x)) (foldl (listens (Lp := Lp)) ear cs) es) /\ (forall out, foldl receives (Quiet, out) cs = (Quiet, out)).
Proof.
  unfold Thread.listen_again, Driver.listen. set (mode := if Driver.rx_continuous (driver x) then _ else _). cbn [prepare_for_rx recorded].
  destruct (prepare_for_rx _ _ _ _) as [l1 [[]|e]].
  2: { exists [CPrepareRx mode (Err e)], [deaf_note e]. split_and!; try done. by left. }
  cbn [Driver.set_lora Driver.lora start_rx recorded fst snd]. destruct (start_rx l1) as [l2 [[]|e]].
  - exists [CPrepareRx mode (Ok tt); CStartRx (Ok tt)], []. split_and!; try done.
    + unfold added, calls. cbn. rewrite <- app_assoc, app_nil_r. by split_and!.
    + intros ear. unfold mode. by destruct (Driver.rx_continuous (driver x)).
  - exists [CPrepareRx mode (Ok tt); CStartRx (Err e)], [deaf_note e]. split_and!; try done.
    + unfold added, calls. cbn. rewrite <- app_assoc. by split_and!.
    + intros ear. by left.
Qed.
Lemma owned_more c ear es es' : owned c ear es -> owned c ear (es ++ es').
Proof. destruct ear as [| | |[]|]; cbn; try done. intros Hin. apply elem_of_app. by left. Qed.
Lemma owned_latest c ear es es' : owned c ear es' -> owned c ear (es ++ es').
Proof. destruct ear as [| | |[]|]; cbn; try done. intros Hin. apply elem_of_app. by right. Qed.

Lemma obey_sound c frames x frame : sound c frames x -> sound c (frames ++ [frame]) (Thread.obey x frame).
Proof.
  intros Hs. pose proof (so_mode _ _ _ Hs) as Hmode. unfold Thread.obey, Driver.transmit. cbn [prepare_for_tx recorded].
  destruct (prepare_for_tx _ _ _ _ _) as [[l1 q] [[]|e]].
  - cbn [Driver.set_lora Driver.set_tx_params Driver.lora lora_tx recorded fst snd]. destruct (lora_tx l1) as [l2 sent].
    set (x1 := match sent with Ok _ => _ | Err _ => _ end).
    assert (exists es, added [CPrepareTx frame (Ok tt); CTx sent] es x x1 /\ received_in es = []) as (es & Hadd & Hes).
    { unfold x1. destruct sent as [[]|e]; [exists []|exists [because (lit "chip_tx_failed") (debug e)]]; (split; [|done]);
        unfold added, calls; cbn; rewrite <- app_assoc, ?app_nil_r; by split_and!. }
    destruct (listen_again_added x1) as (cs & es' & Hadd' & Hatt & Hrec & Hear & Hheard).
    replace (Driver.rx_continuous (driver x1)) with c in Hear by (destruct Hadd as (_ & _ & R); congruence).
    change [frame] with (attempted [CPrepareTx (E := E) frame (Ok tt); CTx sent] ++ []). rewrite <- Hatt. unfold attempted. rewrite <- omap_app.
    eapply (sound_added c _ (es ++ es') _ _ _ Hs); [exact (added_trans _ _ _ _ _ _ _ Hadd Hadd')| |].
    + rewrite foldl_app, app_assoc. apply owned_latest, Hear.
    + rewrite foldl_app. cbn [foldl receives fst snd]. rewrite Hheard. unfold received_in in *. rewrite omap_app, Hes, Hrec. by rewrite app_nil_r.
  - set (x1 := Thread.send _ _).
    assert (added [CPrepareTx frame (Err e)] [because (lit "chip_tx_failed") (debug e)] x x1) as Hadd by (unfold added, x1, calls; cbn; by split_and!).
    destruct (listen_again_added x1) as (cs & es' & Hadd' & Hatt & Hrec & Hear & Hheard).
    replace (Driver.rx_continuous (driver x1)) with c in Hear by (destruct Hadd as (_ & _ & R); congruence).
    change [frame] with (attempted [CPrepareTx (E := E) frame (Err e)] ++ []). rewrite <- Hatt. unfold attempted. rewrite <- omap_app.
    eapply (sound_added c _ (_ ++ es') _ _ _ Hs); [exact (added_trans _ _ _ _ _ _ _ Hadd Hadd')| |].
    + rewrite foldl_app, app_assoc. apply owned_latest, Hear.
    + rewrite foldl_app. cbn [foldl receives fst snd]. rewrite Hheard. unfold received_in in *. rewrite omap_app, Hrec. cbn. by rewrite app_nil_r.
Qed.
(** An interrupt with no reception: the flags, and the strength of a failed header. *)
Lemma header_added x : exists cs es,
  added cs es x
    (let '(x, flags) := Thread.read_flags x in
     let x :=
       if Thread.flagged IRQ_HEADER_ERR flags then
         let '(x, got) := Thread.get_result x in
         Thread.send x (EvHeaderError (match got with Ok (_, status) => rssi status | Err _ => 0 end))
       else x in
     Thread.clear x)
  /\ attempted cs = [] /\ received_in es = [] /\ (forall ear, foldl (listens (Lp := Lp)) ear cs = ear)
  /\ (forall out, foldl receives (Quiet, out) cs = (Quiet, out)).
Proof.
  unfold Thread.read_flags, Thread.get_result, Thread.clear. cbn [irq_flags get_rx_result clear_irq_status recorded].
  destruct (irq_flags _) as [l2 f]. destruct (Thread.flagged IRQ_HEADER_ERR f).
  - cbn [Thread.set_lora Thread.set_driver Thread.driver Driver.set_lora Driver.lora fst snd].
    destruct (get_rx_result l2 _ _) as [[l3 buf] got]. cbn [Thread.send Thread.set_buffer Thread.set_lora Thread.set_driver Thread.driver Driver.set_lora Driver.lora fst snd].
    destruct (clear_irq_status l3) as [l4 r].
    exists [CFlags f; CGet got buf; CClear], [EvHeaderError (match got with Ok (_, status) => rssi status | Err _ => 0 end)].
    split; [|by destruct got as [[]|]]. unfold added, calls. cbn. rewrite <- !app_assoc. by split_and!.
  - cbn [Thread.set_lora Thread.set_driver Thread.driver Driver.set_lora Driver.lora fst snd]. destruct (clear_irq_status l2) as [l4 r].
    exists [CFlags f; CClear], []. split; [|done]. unfold added, calls. cbn. rewrite <- !app_assoc, app_nil_r. by split_and!.
Qed.
Lemma service_sound c frames x : sound c frames x -> sound c frames (Thread.service_irq x).
Proof.
  intros Hs. pose proof (so_mode _ _ _ Hs) as Hmode. pose proof (so_ear _ _ _ Hs) as Hear0.
  assert (forall cs es x', attempted cs = [] -> added cs es x x' ->
    owned c (foldl (listens (Lp := Lp)) (ear_of (Lp := Lp) (calls x)) cs) (events x ++ es) ->
    foldl receives (Quiet, received_in (events x)) cs = (Quiet, received_in (events x) ++ received_in es) -> sound c frames x') as Hdone.
  { intros cs es x' Hatt Hadd H1 H2. rewrite <- (app_nil_r frames), <- Hatt. by apply (sound_added c cs es frames x). }
  assert (forall irq es, irq = CIrq (Ok (Some Done)) \/ (exists o, irq = CIrq (E := E) (Ok o)) -> owned c (listens (Lp := Lp) (ear_of (Lp := Lp) (calls x)) irq) (events x ++ es)) as Hkeep.
  { intros irq es Hirq. apply owned_more. destruct (ear_of (calls x)) as [| | |[]|]; cbn in Hear0; destruct Hirq as [->|[[[]|] ->]]; cbn; try done; by destruct Hear0. }
  unfold Thread.service_irq. cbn [process_irq_event recorded]. destruct (process_irq_event _) as [l1 [[[]|]|e]].
  - destruct (header_added (Thread.set_lora x (l1, (Driver.lora (driver x)).2 ++ [CIrq (Ok (Some PreambleReceived))]))) as (cs & es & Hadd & Hatt & Hrec & Hear & Hheard).
    apply (Hdone (CIrq (Ok (Some PreambleReceived)) :: cs) es); [exact Hatt| | |].
    + eapply (added_trans [CIrq (Ok (Some PreambleReceived))] []); [|exact Hadd]. unfold added, calls. cbn. by rewrite app_nil_r.
    + cbn [foldl]. rewrite Hear. apply (Hkeep (CIrq (Ok (Some PreambleReceived)))). right. by eexists.
    + cbn [foldl]. replace (receives _ (CIrq (Ok (Some PreambleReceived)))) with (Quiet, received_in (events x)) by done. rewrite Hheard, Hrec. by rewrite app_nil_r.
  - cbv beta iota zeta delta [Thread.read_flags Thread.get_result Thread.clear].
    cbn [irq_flags get_rx_result clear_irq_status recorded Thread.set_lora Thread.set_driver Thread.driver Driver.set_lora Driver.lora fst snd].
    destruct (irq_flags l1) as [l2 f]. cbn [Thread.set_lora Thread.set_driver Thread.driver Driver.set_lora Driver.lora Driver.rx_params Thread.buffer fst snd].
    destruct (get_rx_result l2 _ _) as [[l3 buf] got].
    set (es := match got with
               | Ok (n, st) => if Thread.flagged IRQ_CRC_ERR f then [EvCrcError (rssi st)]
                   else [EvReceived (Received.mk (take (Z.to_nat n) buf) (rssi st) (Thread.saturated_i8 (snr st)))]
               | Err e => [deaf_note e] end).
    apply (Hdone [CIrq (Ok (Some Done)); CFlags f; CGet got buf; CClear] es); [done| | |].
    + unfold added, calls, es. destruct got as [[n st]|e]; [destruct (Thread.flagged _ f)|]; cbn; destruct (clear_irq_status l3) as [l4 r]; cbn;
        rewrite <- !app_assoc; by split_and!.
    + cbn [foldl listens]. apply (Hkeep (CIrq (Ok (Some Done)))). by left.
    + unfold es. destruct got as [[n st]|e]; [destruct (Thread.flagged _ f) eqn:Hf|]; cbn; rewrite ?Hf; by rewrite ?app_nil_r.
  - destruct (header_added (Thread.set_lora x (l1, (Driver.lora (driver x)).2 ++ [CIrq (Ok None)]))) as (cs & es & Hadd & Hatt & Hrec & Hear & Hheard).
    apply (Hdone (CIrq (Ok None) :: cs) es); [exact Hatt| | |].
    + eapply (added_trans [CIrq (Ok None)] []); [|exact Hadd]. unfold added, calls. cbn. by rewrite app_nil_r.
    + cbn [foldl]. rewrite Hear. apply (Hkeep (CIrq (Ok None))). right. by eexists.
    + cbn [foldl]. replace (receives _ (CIrq (Ok None))) with (Quiet, received_in (events x)) by done. rewrite Hheard, Hrec. by rewrite app_nil_r.
  - cbn [is_receive_timeout recorded debug]. destruct (is_receive_timeout e) eqn:Htime.
    + set (x1 := Thread.clear _).
      assert (added [CIrq (Err e); CClear] [] x x1) as Hadd.
      { unfold x1, Thread.clear. cbn [clear_irq_status recorded Thread.set_lora Thread.set_driver Thread.driver Driver.set_lora Driver.lora fst snd].
        destruct (clear_irq_status l1) as [l4 r]. unfold added, calls. cbn. rewrite <- !app_assoc, app_nil_r. by split_and!. }
      destruct (listen_again_added x1) as (cs & es & Hadd' & Hatt & Hrec & Hear & Hheard).
      replace (Driver.rx_continuous (driver x1)) with c in Hear by (destruct Hadd as (_ & _ & R); congruence).
      apply (Hdone ([CIrq (Err e); CClear] ++ cs) ([] ++ es)); [exact Hatt|exact (added_trans _ _ _ _ _ _ _ Hadd Hadd')| |].
      * rewrite foldl_app. apply owned_latest, Hear.
      * rewrite foldl_app. cbn [foldl receives fst snd]. rewrite Hheard. cbn [app]. rewrite Hrec. by rewrite app_nil_r.
    + apply (Hdone [CIrq (Err e); CClear] [because (lit "chip_irq_failed") (debug e)]); [done| | |].
      * unfold Thread.clear. cbn [clear_irq_status recorded Thread.send Thread.set_lora Thread.set_driver Thread.driver Driver.set_lora Driver.lora fst snd].
        destruct (clear_irq_status l1) as [l4 r]. unfold added, calls. cbn. rewrite <- !app_assoc. by split_and!.
      * cbn [foldl listens]. rewrite Htime. by apply owned_more.
      * cbn. by rewrite app_nil_r.
Qed.

Lemma run_sound c frames x rounds : sound c frames x -> sound c (frames ++ concat (snd <$> rounds)) (Thread.run x rounds).
Proof.
  revert frames x; induction rounds as [|[irq commands] rounds IH]; intros frames x Hs; [by rewrite app_nil_r|].
  rewrite fmap_cons. cbn [concat snd Thread.run]. rewrite app_assoc. apply IH. unfold Thread.round.
  assert (sound c frames (if irq then Thread.service_irq x else x)) as Hs' by (destruct irq; [by apply service_sound|done]).
  clear Hs. revert frames Hs'. generalize (if irq then Thread.service_irq x else x). clear.
  induction commands as [|frame commands IH]; intros x frames Hs; [by rewrite app_nil_r|]. cbn [foldl].
  change (frame :: commands) with ([frame] ++ commands). rewrite app_assoc. by apply IH, obey_sound.
Qed.
Lemma bring_up_sound b profile lora d buffer note :
  Driver.bring_up (b, []) profile = (lora, Ok d) ->
  is_Some (spreading_factor (PhyProfile.spreading_factor profile)) /\ is_Some (bandwidth (PhyProfile.bandwidth_hz profile))
  /\ is_Some (coding_rate (PhyProfile.coding_rate_denominator profile)) /\ sound (PhyProfile.rx_continuous profile) [] (Thread.mk d buffer [EvNote note]).
Proof.
  unfold Driver.bring_up.
  destruct (spreading_factor _) as [sf|]; [|done]. destruct (bandwidth _) as [bw|]; [|done]. destruct (coding_rate _) as [cr|]; [|done].
  cbn [with_syncword recorded fst snd]. destruct (with_syncword b _) as [l1 [[]|e]]; cbn [Driver.failing]; [|done].
  cbn [create_modulation_params recorded fst snd]. destruct (create_modulation_params l1 _ _ _ _) as [l2 [m|e]]; cbn [Driver.failing]; [|done].
  destruct (negb _); [done|]. cbv zeta. cbn [create_tx_packet_params recorded fst snd].
  destruct (create_tx_packet_params l2 _ _ _ _ _) as [l3 [tp|e]]; cbn [Driver.failing]; [|done].
  cbn [create_rx_packet_params recorded fst snd]. destruct (create_rx_packet_params l3 _ _ _ _ _ _) as [l4 [rp|e]]; cbn [Driver.failing]; [|done].
  unfold Driver.listen. cbn [Driver.rx_continuous Driver.lora Driver.modulation Driver.rx_params].
  cbn [prepare_for_rx recorded fst snd]. destruct (prepare_for_rx l4 _ _ _) as [l5 [[]|e]]; [|done].
  cbn [Driver.set_lora Driver.lora start_rx recorded fst snd]. destruct (start_rx l5) as [l6 [[]|e]]; [|done].
  intros [= <- <-]. split; [by eexists|]. split; [by eexists|]. split; [by eexists|].
  constructor; [done| |done..]. cbn. by destruct (PhyProfile.rx_continuous profile).
Qed.

(** * Recording changes nothing *)

Definition erase (d : Driver.t (Recorded (B := B) (E := E)) M P) : Driver.t B M P :=
  Driver.mk (Driver.lora d).1 (Driver.modulation d) (Driver.tx_params d) (Driver.rx_params d) (Driver.power_dbm d) (Driver.rx_continuous d).
Definition erased (x : Thread) : Thread.t B M P := Thread.mk (erase (driver x)) (Thread.buffer x) (events x).
Lemma erase_listen_again x : erased (Thread.listen_again x) = Thread.listen_again (H := Lp) (erased x).
Proof.
  unfold Thread.listen_again, Driver.listen, erased. cbn. destruct (prepare_for_rx _ _ _ _) as [l1 [[]|e]]; cbn; [|done].
  by destruct (start_rx l1) as [l2 [[]|e]].
Qed.
Lemma erase_obey x frame : erased (Thread.obey x frame) = Thread.obey (H := Lp) (erased x) frame.
Proof.
  unfold Thread.obey, Driver.transmit. cbn [prepare_for_tx recorded erased erase Thread.driver Driver.lora Driver.modulation Driver.tx_params Driver.power_dbm].
  destruct (prepare_for_tx _ _ _ _ _) as [[l1 q] [[]|e]]; cbn [Driver.set_lora Driver.set_tx_params Driver.lora lora_tx recorded fst snd].
  - destruct (lora_tx l1) as [l2 [[]|e]]; rewrite erase_listen_again; done.
  - rewrite erase_listen_again. done.
Qed.
Lemma erase_service x : erased (Thread.service_irq x) = Thread.service_irq (H := Lp) (erased x).
Proof.
  unfold Thread.service_irq. cbn [process_irq_event recorded erased erase Thread.driver Driver.lora].
  unfold Thread.read_flags, Thread.get_result, Thread.clear. cbn [irq_flags get_rx_result clear_irq_status is_receive_timeout debug recorded].
  destruct (process_irq_event _) as [l1 [[[]|]|e]]; cbn.
  1-3: destruct (irq_flags l1) as [l2 f]; cbn.
  1,3: destruct (Thread.flagged _ f); cbn; [destruct (get_rx_result l2 _ _) as [[l3 buf] got]; cbn; by destruct (clear_irq_status l3)|by destruct (clear_irq_status l2)].
  - destruct (get_rx_result l2 _ _) as [[l3 buf] [[n st]|e]]; cbn; [destruct (Thread.flagged _ f)|]; cbn; by destruct (clear_irq_status l3).
  - destruct (is_receive_timeout e).
    + destruct (clear_irq_status l1) as [l2 r]. rewrite erase_listen_again. done.
    + by destruct (clear_irq_status l1).
Qed.
Lemma erase_run x rounds : erased (Thread.run x rounds) = Thread.run (H := Lp) (erased x) rounds.
Proof.
  revert x; induction rounds as [|[irq commands] rounds IH]; intros x; [done|]. cbn [Thread.run]. rewrite IH. f_equal. unfold Thread.round.
  assert (erased (if irq then Thread.service_irq x else x) = (if irq then Thread.service_irq (H := Lp) (erased x) else erased x)) as <-
    by (destruct irq; [apply erase_service|done]).
  generalize (if irq then Thread.service_irq x else x). induction commands as [|frame commands IHc]; intros y; [done|]. cbn [foldl].
  by rewrite IHc, erase_obey.
Qed.
End thread.

(** C35: What the driver thread does on any board, whatever the board answers and whenever
    interrupts and commands come. It comes up only on a profile whose settings the
    chip has. From then on it attempts to transmit each frame it is given exactly once
    and in order, failures included. Whenever it goes back to waiting, the last attempt to
    listen failed and a note says why, or it is receiving as the profile asks:
    continuously; or, on a profile that does not receive continuously, by the chip's longest
    timed receive, unless that has ended with a frame it heard. And the frames it hands up
    are exactly those the chip received whole, once each and in order -- never one whose
    checksum the interrupt flags say failed. *)
Theorem driver_thread_contract {B M P E} (Lp : LoraPhy B M P E) (board : B) (profile : PhyProfile.t)
    (lora : Recorded) (d : Driver.t Recorded M P) (rounds : list (bool * list bytes)) :
  Driver.bring_up (H := recorded Lp) (board, []) profile = (lora, Ok d) ->
  let x := Thread.run (H := recorded Lp) (Thread.mk d (replicate (Z.to_nat MAX_PAYLOAD_BYTES) 0) [Thread.up_note profile]) rounds in
  attempted (calls x) = concat (snd <$> rounds)
  /\ owned (Lp := Lp) (PhyProfile.rx_continuous profile) (ear_of (Lp := Lp) (calls x)) (Thread.events x)
  /\ received_by (calls x) = (Quiet, received_in (Thread.events x))
  /\ erased x = Thread.run (H := Lp) (Thread.mk (erase d) (replicate (Z.to_nat MAX_PAYLOAD_BYTES) 0) [Thread.up_note profile]) rounds
  /\ is_Some (spreading_factor (PhyProfile.spreading_factor profile)) /\ is_Some (bandwidth (PhyProfile.bandwidth_hz profile))
  /\ is_Some (coding_rate (PhyProfile.coding_rate_denominator profile)).
Proof.
  intros Hup. cbv zeta. destruct (bring_up_sound (Lp := Lp) board profile lora d (replicate (Z.to_nat MAX_PAYLOAD_BYTES) 0)
    (event_name (lit "chip_up") ++ lit "," ++ quoted (lit "phy") ++ lit ":" ++ quoted (PhyProfile.name profile)
     ++ lit "," ++ quoted (lit "sf") ++ lit ":" ++ decimal (PhyProfile.spreading_factor profile)
     ++ lit "," ++ quoted (lit "bw_hz") ++ lit ":" ++ decimal (PhyProfile.bandwidth_hz profile)
     ++ lit "," ++ quoted (lit "frequency_hz") ++ lit ":" ++ decimal (PhyProfile.frequency_hz profile)) Hup) as (Hsf & Hbw & Hcr & Hs).
  apply (run_sound _ _ _ rounds) in Hs as [S1 S2 S3 _]. split_and!; [exact S1|exact S2|exact S3|apply erase_run|done..].
Qed.

(** * Instances *)

(** A board whose every interrupt is a frame of three bytes, with these flags. *)
Definition toy_board (flags : option Z) : LoraPhy unit unit unit unit := {|
  with_syncword b _ := (b, Ok tt);
  create_modulation_params b _ _ _ _ := (b, Ok tt);
  low_data_rate_optimize _ := 0;
  create_tx_packet_params b _ _ _ _ _ := (b, Ok tt);
  create_rx_packet_params b _ _ _ _ _ _ := (b, Ok tt);
  prepare_for_rx b _ _ _ := (b, Ok tt);
  start_rx b := (b, Ok tt);
  prepare_for_tx b _ q _ _ := (b, q, Ok tt);
  lora_tx b := (b, Err tt);
  process_irq_event b := (b, Ok (Some Done));
  get_rx_result b _ buffer := (b, [1; 2; 3] ++ drop 3 buffer, Ok (3, packet_status (-70) 9));
  clear_irq_status b := (b, Ok tt);
  irq_flags b := (b, flags);
  is_receive_timeout _ := true;
  debug _ := lit "Timeout";
|}.
Definition toy_rounds : list (bool * list bytes) := [(true, [[7]]); (true, [[8]; [9]])].
Lemma driver_thread_contract_witness :
  match Driver.bring_up (H := recorded (toy_board (Some 0))) (tt, []) PhyProfile.eu868_sf10 with
  | (_, Ok d) =>
      let x := Thread.run (H := recorded (toy_board (Some 0)))
        (Thread.mk d (replicate (Z.to_nat MAX_PAYLOAD_BYTES) 0) [Thread.up_note PhyProfile.eu868_sf10]) toy_rounds in
      attempted (calls x) = [[7]; [8]; [9]]
      /\ received_by (calls x) = (Quiet, received_in (Thread.events x))
  | (_, Err _) => False
  end.
Proof.
  pose proof (driver_thread_contract (toy_board (Some 0)) tt PhyProfile.eu868_sf10) as Hall.
  destruct (Driver.bring_up _ _) as [lora [d|why]] eqn:Hup; [|vm_compute in Hup; discriminate]. clear Hup.
  destruct (Hall lora d toy_rounds eq_refl) as (Hatt & _ & Hrec & _). exact (conj Hatt Hrec).
Defined.

(** A profile that does not listen continuously hears one frame: a timed receive ends with
    it, and nothing but a transmission starts the next. *)
Definition timed_profile : PhyProfile.t :=
  let p := PhyProfile.eu868_sf10 in
  PhyProfile.mk (PhyProfile.name p) (PhyProfile.spreading_factor p) (PhyProfile.bandwidth_hz p) (PhyProfile.coding_rate_denominator p)
    (PhyProfile.preamble_symbols p) (PhyProfile.explicit_header p) (PhyProfile.crc_on p) (PhyProfile.iq_inverted p)
    (PhyProfile.low_data_rate_optimize p) (PhyProfile.frequency_hz p) (PhyProfile.tx_power_dbm p) (PhyProfile.sync_word p) false
    (PhyProfile.cad_symbols p) (PhyProfile.cad_detect_peak p) (PhyProfile.cad_detect_min p) (PhyProfile.preamble_symbols_to_lock p)
    (PhyProfile.capture_threshold_db p).
Example a_timed_receive_is_not_renewed :
  match Driver.bring_up (H := recorded (toy_board None)) (tt, []) timed_profile with
  | (_, Ok d) =>
      let x := Thread.run (H := recorded (toy_board None))
        (Thread.mk d (replicate (Z.to_nat MAX_PAYLOAD_BYTES) 0) [Thread.up_note timed_profile]) [(true, [])] in
      ear_of (Lp := toy_board None) (calls x) = Spent
      /\ Thread.events x = [Thread.up_note timed_profile; EvReceived (Received.mk [1; 2; 3] (-70) 9)]
  | (_, Err _) => False
  end.
Proof. vm_compute. split; reflexivity. Qed.
