(* ===== verification/Bridge.v ===== *)
(** The bridge to an SX126x on the far end of a USB cable
    (src/src/infrastructure/sx126x/bridge.rs), and the virtual bus it stands in for
    (src/src/infrastructure/sx126x/bus.rs).

    The serial port is two byte streams.  What the reader thread puts into the link's
    inbox is explicit: [inbox] holds what has arrived and was not yet received, and
    [arriving] says, for each wait in turn, what arrives before its deadline; a wait
    that exhausts both times out.  The device is a function of the frame it handles
    and of the instant.  Thread creation is not modelled; the driver is [Driver], the pre-flight [Preflight]. *)
From S2P Require Import Prelude Radio RNode Hub Chip.

(** The embedded-hal operations of one SPI transaction; a read carries the buffer it
    fills. *)
Inductive Operation :=
| Write (bs : bytes)
| Read (buffer : bytes)
| Transfer (read write : bytes)
| TransferInPlace (buffer : bytes)
| DelayNs (ns : Z).

(** * The virtual bus *)

Module VirtualSpi.
Definition command_of (op : Operation) : bytes :=
  match op with
  | Write bs | Transfer _ bs | TransferInPlace bs => bs
  | Read _ | DelayNs _ => []
  end.
(** [reply.next().unwrap_or(0)], once per byte of a buffer. *)
Definition next_bytes (n : nat) (reply : bytes) : bytes := take n (reply ++ replicate n 0).
Fixpoint fill (ops : list Operation) (reply : bytes) : list Operation :=
  match ops with
  | [] => []
  | Read b :: ops => Read (next_bytes (length b) reply) :: fill ops (drop (length b) reply)
  | TransferInPlace b :: ops => TransferInPlace (next_bytes (length b) reply) :: fill ops (drop (length b) reply)
  | Transfer b w :: ops => Transfer (next_bytes (length b) reply) w :: fill ops (drop (length b) reply)
  | op :: ops => op :: fill ops reply
  end.
Definition run_command `{LoraModulation} (c : Chip.t) (now : Z) (command : bytes) : Chip.t * bytes :=
  match command with
  | opcode :: params => Chip.execute c now opcode params
  | [] => (c, [])
  end.
Definition transaction `{LoraModulation} (c : Chip.t) (now : Z) (ops : list Operation) : Chip.t * list Operation :=
  let '(c, reply) := run_command c now (concat (command_of <$> ops)) in
  (c, fill ops reply).
End VirtualSpi.

(** The control lines of the virtual bus never fail; a wait for an interrupt that has not
    come yet is [None], and a wait on BUSY ends at the instant it gives. *)
Module VirtualIv.
Definition reset (c : Chip.t) : Chip.t := Chip.reset c.
Definition wait_on_busy (c : Chip.t) (now : Z) : Z := Z.max now (default now (Chip.wait_on_busy_until c)).
Definition await_irq (c : Chip.t) : option Chip.t := Chip.await_irq c.
Definition enable_rf_switch_rx (c : Chip.t) : Chip.t := c.
Definition enable_rf_switch_tx (c : Chip.t) : Chip.t := c.
Definition disable_rf_switch (c : Chip.t) : Chip.t := c.
End VirtualIv.

(** * The protocol *)

Module Protocol.
Definition VERSION : Z := 2.
Definition HELLO : Z := 0x01.
Definition RESET : Z := 0x02.
Definition BUSY : Z := 0x03.
Definition PINS : Z := 0x04.
Definition RF : Z := 0x05.
Definition SPI : Z := 0x06.
Definition EVENTS : Z := 0x07.
Definition REPLY : Z := 0x80.
Definition EVENT_DIO1 : Z := 0xE1.
Definition EVENT_ERROR : Z := 0xEE.
Definition STATUS_OK : Z := 0.
Definition STATUS_TIMEOUT : Z := 1.
Definition STATUS_BAD_REQUEST : Z := 2.
Definition STATUS_TOO_LONG : Z := 3.
Definition STATUS_UNKNOWN_COMMAND : Z := 4.
Definition OP_WRITE : Z := 0.
Definition OP_READ : Z := 1.
Definition OP_TRANSFER : Z := 2.
Definition OP_DELAY : Z := 3.
Definition RF_OFF : Z := 0.
Definition RF_RX : Z := 1.
Definition RF_TX : Z := 2.
Definition BOARD_VIRTUAL : Z := 0xFE.
Definition FRAME_LIMIT : Z := 1100.
Definition BUSY_LIMIT_MS : Z := 100.

(** The [push] closure, and one operation. *)
Definition push (kind length : Z) (bs : bytes) : bytes :=
  kind :: le_bytes 2 (if length <=? U16_MAX then length else U16_MAX) ++ bs.
Definition resize (bs : bytes) (n : nat) : bytes := take n (bs ++ replicate n 0).
Definition encode_operation (op : Operation) : bytes :=
  match op with
  | Write bs => push OP_WRITE (len bs) bs
  | Read buffer => push OP_READ (len buffer) []
  | Transfer read write =>
      let n := Nat.max (length read) (length write) in
      push OP_TRANSFER (Z.of_nat n) (resize write n)
  | TransferInPlace buffer => push OP_TRANSFER (len buffer) buffer
  | DelayNs ns => push OP_DELAY ((ns + 999) / 1000) []
  end.
Definition encode_operations (ops : list Operation) : bytes := concat (encode_operation <$> ops).

Record Op := op { kind : Z; op_length : Z; op_bytes : bytes }.
(** One operation off the front of a payload. *)
Definition decode_operation (payload : bytes) : option (Op * bytes) :=
  match payload with
  | kind :: low :: high :: after =>
      let length := of_le [low; high] in
      if (kind =? OP_WRITE) || (kind =? OP_TRANSFER) then
        if len after <? length then None
        else Some (op kind length (take (Z.to_nat length) after), drop (Z.to_nat length) after)
      else if (kind =? OP_READ) || (kind =? OP_DELAY) then Some (op kind length [], after)
      else None
  | _ => None
  end.
(** The loop; each round takes three bytes, so the payload's length is fuel enough. *)
Fixpoint decode_loop (fuel : nat) (rest : bytes) : option (list Op) :=
  match rest, fuel with
  | [], _ => Some []
  | _, O => None
  | _, S fuel => '(o, rest) ← decode_operation rest; ops ← decode_loop fuel rest; Some (o :: ops)
  end.
Definition decode_operations (payload : bytes) : option (list Op) := decode_loop (length payload) payload.
End Protocol.

Module Hello.
Record t := mk {
  protocol : Z;
  firmware : Z * Z;
  board : Z;
  session : Z;
  busy : bool;
  dio1 : bool;
}.
#[global] Instance t_eq_dec : EqDecision t.
Proof. solve_decision. Defined.
Definition version (body : bytes) : option Z := head body.
Definition parse (body : bytes) : option t :=
  match body with
  | protocol :: major :: minor :: board :: s0 :: s1 :: s2 :: s3 :: busy :: dio1 :: _ =>
      Some (mk protocol (major, minor) board (of_le [s0; s1; s2; s3]) (negb (busy =? 0)) (negb (dio1 =? 0)))
  | _ => None
  end.
Definition encode (h : t) : bytes :=
  [protocol h; (firmware h).1; (firmware h).2; board h] ++ le_bytes 4 (session h)
  ++ [if busy h then 1 else 0; if dio1 h then 1 else 0].
End Hello.

Inductive BridgeError :=
| PortError
| Timeout (command : Z)
| GoneError
| Status (command status : Z)
| Device (command code : Z)
| ProtocolError (what : str)
| Reset (met now : Z).
#[global] Instance BridgeError_eq_dec : EqDecision BridgeError.
Proof. solve_decision. Defined.

(** * The device *)

Definition FIRMWARE : Z * Z := (0, 2).

Module Device.
Record t := mk {
  chip : Chip.t;
  session : Z;
  events_on : bool;
  reported : bool;
  sent : bytes;
}.
Definition with_chip (d : t) (c : Chip.t) : t := mk c (session d) (events_on d) (reported d) (sent d).
Definition with_events (d : t) (on reported : bool) : t := mk (chip d) (session d) on reported (sent d).
Definition send (d : t) (command : Z) (payload : bytes) : t :=
  mk (chip d) (session d) (events_on d) (reported d) (sent d ++ Kiss.encode command payload).
Definition status (d : t) (command st : Z) : t := send d (Z.lor command Protocol.REPLY) [st].
Definition level (b : bool) : Z := if b then 1 else 0.
(** A session for each boot, from what the host's entropy drew; and a chip served, if the
    host grants the two threads. *)
Definition session_id (drawn : Z) : Z := Z.lor (drawn mod 2 ^ 32) 1.
Definition serve (drawn : Z) (c : Chip.t) (pump edges : bool) : option t :=
  if pump && edges then Some (mk c (session_id drawn) false false []) else None.

(** One round of the thread that watches DIO1. *)
Definition edge_round (d : t) : t :=
  let d := with_chip d (Chip.activity_seen (chip d)).1 in
  if Chip.irq_pending (chip d) then
    if events_on d && negb (reported d) then
      let d := with_events d (events_on d) true in
      send d Protocol.EVENT_DIO1 [level (Chip.irq_pending (chip d))]
    else d
  else with_events d (events_on d) false.

Section handling.
Context `{LoraModulation}.
(** [wait_on_busy] returns once BUSY is low. *)
Definition after_busy (c : Chip.t) (now : Z) : Z := Z.max now (default now (Chip.wait_on_busy_until c)).
Definition returns_bytes (o : Protocol.Op) : bool :=
  (Protocol.kind o =? Protocol.OP_READ) || (Protocol.kind o =? Protocol.OP_TRANSFER).
Definition wanted (ops : list Protocol.Op) : Z :=
  zsum (Protocol.op_length <$> filter (fun o => returns_bytes o = true) ops).
Fixpoint reply_bytes (ops : list Protocol.Op) (answer : bytes) : bytes :=
  match ops with
  | [] => []
  | o :: ops =>
      if returns_bytes o then
        let n := Z.to_nat (Protocol.op_length o) in
        VirtualSpi.next_bytes n answer ++ reply_bytes ops (drop n answer)
      else reply_bytes ops answer
  end.
Definition spi (d : t) (now : Z) (payload : bytes) : t :=
  match Protocol.decode_operations payload with
  | None => status d Protocol.SPI Protocol.STATUS_BAD_REQUEST
  | Some ops =>
      if Protocol.FRAME_LIMIT <? wanted ops + 1 then status d Protocol.SPI Protocol.STATUS_TOO_LONG
      else
        let command := concat (Protocol.op_bytes <$> ops) in
        let '(c, answer) := VirtualSpi.run_command (chip d) (after_busy (chip d) now) command in
        send (with_chip d c) (Z.lor Protocol.SPI Protocol.REPLY) (Protocol.STATUS_OK :: reply_bytes ops answer)
  end.

Definition handle (d : t) (now : Z) (frame : bytes) : t :=
  match frame with
  | [] => d
  | command :: payload =>
      if command =? Protocol.HELLO then
        let pending := Chip.irq_pending (chip d) in
        let d := with_events d true pending in
        send d (Z.lor Protocol.HELLO Protocol.REPLY)
          (Hello.encode (Hello.mk Protocol.VERSION FIRMWARE Protocol.BOARD_VIRTUAL (session d) false pending))
      else if command =? Protocol.RESET then
        status (with_chip d (Chip.reset (chip d))) Protocol.RESET Protocol.STATUS_OK
      else if command =? Protocol.BUSY then
        status d Protocol.BUSY (if (length payload =? 2)%nat then Protocol.STATUS_OK else Protocol.STATUS_BAD_REQUEST)
      else if command =? Protocol.PINS then
        send d (Z.lor Protocol.PINS Protocol.REPLY) [0; level (Chip.irq_pending (chip d))]
      else if command =? Protocol.RF then
        status d Protocol.RF
          match payload with
          | [mode] => if bool_decide (mode ∈ [Protocol.RF_OFF; Protocol.RF_RX; Protocol.RF_TX])
                      then Protocol.STATUS_OK else Protocol.STATUS_BAD_REQUEST
          | _ => Protocol.STATUS_BAD_REQUEST
          end
      else if command =? Protocol.SPI then spi d now payload
      else if command =? Protocol.EVENTS then
        match payload with
        | [on] =>
            let pending := Chip.irq_pending (chip d) in
            let d := with_events d (negb (on =? 0)) pending in
            send d (Z.lor Protocol.EVENTS Protocol.REPLY) [level pending]
        | _ => status d Protocol.EVENTS Protocol.STATUS_BAD_REQUEST
        end
      else send d Protocol.EVENT_ERROR [Protocol.STATUS_UNKNOWN_COMMAND; command]
  end.
(** [pump] on one read, with the deframer it keeps between reads. *)
Definition pump (df : Kiss.Deframer) (d : t) (now : Z) (bs : bytes) : Kiss.Deframer * t :=
  let '(df, frames) := Kiss.push df bs [] in (df, foldl (fun d f => handle d now f) d frames).
End handling.
End Device.

(** * The host *)

Inductive Inbound := Frame (bs : bytes) | Wake | Gone.

(** [read_frames]: what the reader thread makes of its reads, and of the port's end. *)
Fixpoint port_frames (df : Kiss.Deframer) (reads : list bytes) : list Inbound :=
  match reads with
  | [] => [Gone]
  | bs :: reads => let '(df, frames) := Kiss.push df bs [] in (Frame <$> frames) ++ port_frames df reads
  end.

Module Link.
(** [port_ok] says whether writes to the port still go through. *)
Record t := mk {
  written : bytes;
  port_ok : bool;
  inbox : list Inbound;
  arriving : list (list Inbound);
  irq : bool;
  woken : bool;
  session : Z;
  poisoned : bool;
}.
Definition open (arriving : list (list Inbound)) : t := mk [] true [] arriving false false 0 false.

Definition with_inbox (l : t) (inbox : list Inbound) : t :=
  mk (written l) (port_ok l) inbox (arriving l) (irq l) (woken l) (session l) (poisoned l).
Definition with_flags (l : t) (irq woken : bool) : t :=
  mk (written l) (port_ok l) (inbox l) (arriving l) irq woken (session l) (poisoned l).
Definition with_session (l : t) (session : Z) (poisoned : bool) : t :=
  mk (written l) (port_ok l) (inbox l) (arriving l) (irq l) (woken l) session poisoned.
(** The next wait's arrivals join the inbox. *)
Definition await_arrivals (l : t) : t :=
  mk (written l) (port_ok l) (inbox l ++ default [] (head (arriving l))) (tail (arriving l)) (irq l) (woken l)
    (session l) (poisoned l).
Definition write (l : t) (bs : bytes) : t :=
  mk (written l ++ bs) (port_ok l) (inbox l) (arriving l) (irq l) (woken l) (session l) (poisoned l).

Definition guard (l : t) : result BridgeError unit :=
  if poisoned l then Err (Reset (session l) (session l)) else Ok tt.

(** A notice whose level says the line has fallen is not an interrupt. *)
Definition raised (level : bytes) : bool := negb (nth 0 level 1 =? 0).

(** The receiving loop of [call]: the rest of the inbox, the flags, the answer. *)
Fixpoint receive (command : Z) (inbox : list Inbound) (irq woken : bool)
    : list Inbound * bool * bool * result BridgeError bytes :=
  match inbox with
  | [] => ([], irq, woken, Err (Timeout command))
  | Gone :: inbox => (inbox, irq, woken, Err GoneError)
  | Wake :: inbox => receive command inbox irq true
  | Frame [] :: inbox => receive command inbox irq woken
  | Frame (head :: body) :: inbox =>
      if head =? Z.lor command Protocol.REPLY then (inbox, irq, woken, Ok body)
      else if head =? Protocol.EVENT_DIO1 then receive command inbox (irq || raised body) woken
      else if head =? Protocol.EVENT_ERROR then
        if nth 1 body command =? command then (inbox, irq, woken, Err (Device command (nth 0 body 0)))
        else receive command inbox irq woken
      else receive command inbox irq woken
  end.
Definition call (l : t) (command : Z) (payload : bytes) : t * result BridgeError bytes :=
  match guard l with
  | Err e => (l, Err e)
  | Ok _ =>
      if negb (port_ok l) then (l, Err PortError)
      else
        let l := await_arrivals (write l (Kiss.encode command payload)) in
        let '(rest, irq, woken, r) := receive command (inbox l) (irq l) (woken l) in
        (with_flags (with_inbox l rest) irq woken, r)
  end.
Definition drain (l : t) : t := with_inbox l [].

Definition verify_session (l : t) : t * result BridgeError unit :=
  match guard l with
  | Err e => (l, Err e)
  | Ok _ =>
      let met := session l in
      match call l Protocol.HELLO [] with
      | (l, Err e) => (l, Err e)
      | (l, Ok body) =>
          match Hello.parse body with
          | None => (l, Err (ProtocolError (lit "short HELLO reply")))
          | Some hello =>
              if Hello.session hello =? met then (l, Ok tt)
              else (with_session l (session l) true, Err (Reset met (Hello.session hello)))
          end
      end
  end.
Definition call_checked (l : t) (command : Z) (payload : bytes) : t * result BridgeError bytes :=
  match call l command payload with
  | (l, Err (Timeout command)) =>
      match verify_session l with
      | (l, Err e) => (l, Err e)
      | (l, Ok _) => (l, Err (Timeout command))
      end
  | other => other
  end.
Definition hex_command (command : Z) : str := lit "0x" ++ hex_byte command.
Definition expect_ok (l : t) (command : Z) (payload : bytes) : t * result BridgeError unit :=
  match call_checked l command payload with
  | (l, Err e) => (l, Err e)
  | (l, Ok []) => (l, Err (ProtocolError (lit "empty reply to command " ++ hex_command command)))
  | (l, Ok (status :: _)) => (l, if status =? Protocol.STATUS_OK then Ok tt else Err (Status command status))
  end.

(** [hello]: [attempts] is how many times the deadline lets it ask again. *)
Fixpoint hello_loop (attempts : nat) (l : t) : t * result BridgeError Hello.t :=
  match call l Protocol.HELLO [] with
  | (l, Ok body) =>
      match Hello.version body with
      | None => (l, Err (ProtocolError (lit "empty HELLO reply")))
      | Some version =>
          if negb (version =? Protocol.VERSION) then
            (l, Err (ProtocolError (lit "the device speaks protocol version " ++ decimal version
                                    ++ lit ", this adapter version " ++ decimal Protocol.VERSION)))
          else match Hello.parse body with
               | None => (l, Err (ProtocolError (lit "short HELLO reply")))
               | Some hello =>
                   let l := with_session l (Hello.session hello) (poisoned l) in
                   (with_flags l (irq l || Hello.dio1 hello) (woken l), Ok hello)
               end
      end
  | (l, Err (Timeout c)) =>
      match attempts with O => (l, Err (Timeout c)) | S attempts => hello_loop attempts l end
  | (l, Err e) => (l, Err e)
  end.
Definition hello (l : t) (attempts : nat) : t * result BridgeError Hello.t := hello_loop attempts (drain l).

Definition dio1_level (l : t) : t * result BridgeError bool :=
  match call_checked l Protocol.PINS [] with
  | (l, Err e) => (l, Err e)
  | (l, Ok body) =>
      (l, match body !! 1%nat with
          | Some level => Ok (negb (level =? 0))
          | None => Err (ProtocolError (lit "short PINS reply"))
          end)
  end.

(** [wait]: a pending flag at once, else the first thing that matters. *)
Fixpoint first_activity (inbox : list Inbound) : list Inbound * Activity :=
  match inbox with
  | [] => ([], activity false false)
  | Gone :: inbox => (inbox, activity false false)
  | Wake :: inbox => (inbox, activity false true)
  | Frame (head :: level) :: inbox =>
      if (head =? Protocol.EVENT_DIO1) && raised level then (inbox, activity true false) else first_activity inbox
  | Frame [] :: inbox => first_activity inbox
  end.
Definition wait (l : t) : t * Activity :=
  let pending := activity (irq l) (woken l) in
  let l := with_flags l false false in
  if act_irq pending || act_host pending then (l, pending)
  else
    let l := await_arrivals l in
    let '(rest, a) := first_activity (inbox l) in
    (with_inbox l rest, a).
Definition wake (l : t) : t := with_inbox l (inbox l ++ [Wake]).
End Link.

(** The driver's SPI device. *)
Module BridgeSpi.
Fixpoint copy_out (ops : list Operation) (bs : bytes) : result BridgeError (list Operation) :=
  let taken buffer skip (k : bytes -> bytes -> result BridgeError (list Operation)) :=
    let wanted := (length buffer + skip)%nat in
    if (length bs <? wanted)%nat then
      Err (ProtocolError (lit "SPI reply short by " ++ decimal (Z.of_nat (wanted - length bs)) ++ lit " bytes"))
    else k (take (length buffer) bs) (drop wanted bs) in
  match ops with
  | [] => Ok []
  | Read b :: ops => taken b 0%nat (fun filled rest => ops ← copy_out ops rest; Ok (Read filled :: ops))
  | TransferInPlace b :: ops =>
      taken b 0%nat (fun filled rest => ops ← copy_out ops rest; Ok (TransferInPlace filled :: ops))
  | Transfer r w :: ops =>
      taken r (length w - length r)%nat (fun filled rest => ops ← copy_out ops rest; Ok (Transfer filled w :: ops))
  | op :: ops => ops ← copy_out ops bs; Ok (op :: ops)
  end.
Definition transaction (l : Link.t) (ops : list Operation) : Link.t * result BridgeError (list Operation) :=
  match Link.call_checked l Protocol.SPI (Protocol.encode_operations ops) with
  | (l, Err e) => (l, Err e)
  | (l, Ok []) => (l, Err (ProtocolError (lit "empty SPI reply")))
  | (l, Ok (status :: bs)) =>
      (l, if status =? Protocol.STATUS_OK then copy_out ops bs else Err (Status Protocol.SPI status))
  end.
End BridgeSpi.

(** The driver's control lines.  [DriverError] lists the errors of the crate's type
    that the adapter returns. *)
Inductive DriverError := DrReset | DrBusy | DrDIO1 | DrIrq | DrRfSwitchRx | DrRfSwitchTx.
Module BridgeIv.
Definition map_err {A} (e : DriverError) (r : result BridgeError A) : result DriverError A :=
  match r with Ok a => Ok a | Err _ => Err e end.
Definition reset (l : Link.t) : Link.t * result DriverError unit :=
  let '(l, r) := Link.expect_ok l Protocol.RESET [] in (l, map_err DrReset r).
Definition wait_on_busy (l : Link.t) : Link.t * result DriverError unit :=
  let '(l, r) := Link.expect_ok l Protocol.BUSY (le_bytes 2 Protocol.BUSY_LIMIT_MS) in (l, map_err DrBusy r).
Definition enable_rf_switch_rx (l : Link.t) : Link.t * result DriverError unit :=
  let '(l, r) := Link.expect_ok l Protocol.RF [Protocol.RF_RX] in (l, map_err DrRfSwitchRx r).
Definition enable_rf_switch_tx (l : Link.t) : Link.t * result DriverError unit :=
  let '(l, r) := Link.expect_ok l Protocol.RF [Protocol.RF_TX] in (l, map_err DrRfSwitchTx r).
Definition disable_rf_switch (l : Link.t) : Link.t * result DriverError unit :=
  let '(l, r) := Link.expect_ok l Protocol.RF [Protocol.RF_OFF] in (l, map_err DrRfSwitchRx r).
(** [rounds]: how many more times the deadline lets the loop go round. *)
Fixpoint await_loop (rounds : nat) (host_wanted : bool) (l : Link.t) : Link.t * result DriverError unit :=
  let '(l, a) := Link.wait l in
  let host_wanted := host_wanted || act_host a in
  match Link.dio1_level l with
  | (l, Ok true) => (if host_wanted then Link.wake l else l, Ok tt)
  | (l, Ok false) => match rounds with O => (l, Err DrIrq) | S rounds => await_loop rounds host_wanted l end
  | (l, Err _) => (l, Err DrDIO1)
  end.
Definition await_irq (rounds : nat) (l : Link.t) : Link.t * result DriverError unit := await_loop rounds false l.
End BridgeIv.

(** What the driver thread waits on. *)
Module BridgeWatch.
Definition wait_for_activity (l : Link.t) (announced : bool) : Link.t * bool * list RadioEvent * Activity :=
  let '(l, a) := Link.wait l in
  let '(l, level) := Link.dio1_level l in
  let irq := match level with Ok b => b | Err _ => false end in
  let report := Link.poisoned l && negb announced in
  (l, announced || Link.poisoned l,
   if report then [EvNote (event_name (lit "bridge_reset") ++ lit "," ++ quoted (lit "why") ++ lit ":"
                           ++ quoted (lit "the device restarted; this radio is offline"))] else [],
   activity irq (act_host a)).
Definition irq_flags (l : Link.t) : Link.t * option Z :=
  let payload := Protocol.encode_operations [Write [OP_GET_IRQ_STATUS]; Read [0; 0; 0]] in
  match Link.call l Protocol.SPI payload with
  | (l, Ok [st; _; high; low]) => (l, if st =? Protocol.STATUS_OK then Some (of_be [high; low]) else None)
  | (l, _) => (l, None)
  end.
End BridgeWatch.
