(* ===== verification/BridgeProofs.v ===== *)
(** What the bridge promises: operations survive their encoding, a transaction over
    the cable is the virtual bus's transaction, and a device that restarted is never
    spoken to again. *)
From S2P Require Import Prelude Radio RNode Hub Chip ChipProofs Bridge.

(** * Operations on the wire *)

Section operations.
Import Protocol.

Definition op_fits (o : Operation) : Prop :=
  match o with
  | Write bs | Read bs | TransferInPlace bs => len bs <= U16_MAX
  | Transfer r w => len r <= U16_MAX /\ len w <= U16_MAX
  | DelayNs ns => 0 <= ns <= U16_MAX * 1000
  end.
(** What the device makes of an operation. *)
Definition decoded (o : Operation) : Op :=
  match o with
  | Write bs => op OP_WRITE (len bs) bs
  | Read buffer => op OP_READ (len buffer) []
  | Transfer r w => let n := Nat.max (length r) (length w) in op OP_TRANSFER (Z.of_nat n) (resize w n)
  | TransferInPlace b => op OP_TRANSFER (len b) b
  | DelayNs ns => op OP_DELAY ((ns + 999) / 1000) []
  end.

Lemma length_resize (w : bytes) n : length (resize w n) = n.
Proof. unfold resize. rewrite length_take, length_app, length_replicate. lia. Qed.
Lemma resize_same (w : bytes) : resize w (length w) = w.
Proof. unfold resize. by rewrite take_app_length. Qed.
Lemma decode_pushed kind n bs rest : 0 <= n <= U16_MAX ->
  decode_operation (push kind n bs ++ rest)
  = if (kind =? OP_WRITE) || (kind =? OP_TRANSFER) then
      if len (bs ++ rest) <? n then None
      else Some (op kind n (take (Z.to_nat n) (bs ++ rest)), drop (Z.to_nat n) (bs ++ rest))
    else if (kind =? OP_READ) || (kind =? OP_DELAY) then Some (op kind n [], bs ++ rest) else None.
Proof.
  intros Hn. unfold push. rewrite (proj2 (Z.leb_le n U16_MAX)) by lia.
  pose proof (length_le_bytes 2 n) as Hl. pose proof (of_le_le_bytes 2 n ltac:(byte_range)) as Hv.
  destruct (le_bytes 2 n) as [|low [|high [|? ?]]]; try discriminate Hl. cbn [app decode_operation]. by rewrite Hv.
Qed.
Lemma decode_carried kind (n : nat) bs rest : Z.of_nat n <= U16_MAX -> length bs = n ->
  (kind =? OP_WRITE) || (kind =? OP_TRANSFER) = true ->
  decode_operation (push kind (Z.of_nat n) bs ++ rest) = Some (op kind (Z.of_nat n) bs, rest).
Proof.
  intros Hn <- Hk. rewrite decode_pushed, Hk by lia. unfold len. rewrite length_app.
  rewrite (proj2 (Z.ltb_ge _ _)) by lia. by rewrite Nat2Z.id, take_app_length, drop_app_length.
Qed.
Lemma decode_encode_operation o rest : op_fits o ->
  decode_operation (encode_operation o ++ rest) = Some (decoded o, rest).
Proof.
  destruct o as [bs|b|r w|b|ns]; cbn [op_fits encode_operation decoded]; intros Hfit.
  - by apply decode_carried.
  - by rewrite decode_pushed by (unfold len in *; lia).
  - apply decode_carried; [unfold len in Hfit; lia|apply length_resize|done].
  - by apply decode_carried.
  - rewrite decode_pushed; [done|]. unfold U16_MAX in *. split; [apply Z.div_pos; lia|].
    apply Z.lt_succ_r, Z.div_lt_upper_bound; lia.
Qed.
Lemma encode_operation_not_nil o : exists k rest, encode_operation o = k :: rest.
Proof. by destruct o; eexists _, _. Qed.

Lemma decode_loop_encoded ops fuel : Forall op_fits ops -> (length (encode_operations ops) <= fuel)%nat ->
  decode_loop fuel (encode_operations ops) = Some (decoded <$> ops).
Proof.
  intros Hops. revert fuel. induction Hops as [|o ops Ho _ IH]; intros fuel Hfuel; [by destruct fuel|].
  unfold encode_operations in *. rewrite fmap_cons in *. cbn [concat] in *.
  pose proof (decode_encode_operation o (concat (encode_operation <$> ops)) Ho) as Hd.
  destruct (encode_operation_not_nil o) as (k & rest & He). rewrite He in Hd, Hfuel |- *.
  destruct fuel as [|fuel]; [simpl in Hfuel; lia|]. cbn [app] in Hd |- *. cbn [decode_loop].
  rewrite Hd. cbn [mbind option_bind]. rewrite IH; [done|]. cbn [app length] in Hfuel. rewrite length_app in Hfuel. lia.
Qed.
Lemma decode_encode_operations ops : Forall op_fits ops ->
  decode_operations (encode_operations ops) = Some (decoded <$> ops).
Proof. intros Hops. by apply decode_loop_encoded. Qed.

(** Decoding never reads past its payload and accounts for every byte of it. *)
Definition op_size (o : Op) : nat := 3 + length (op_bytes o).
Lemma decode_operation_size payload o rest : decode_operation payload = Some (o, rest) ->
  length payload = (op_size o + length rest)%nat /\ (op_bytes o = [] \/ len (op_bytes o) = op_length o).
Proof.
  destruct payload as [|kind [|low [|high after]]]; cbn [decode_operation]; try done. cbv zeta.
  destruct (_ || (kind =? OP_TRANSFER)); [|destruct (_ || _); [intros [= <- <-]; split; [done|by left]|done]].
  destruct (Z.ltb_spec (len after) (of_le [low; high])) as [|Hlen]; [done|]. intros Heq.
  assert (o = op kind (of_le [low; high]) (take (Z.to_nat (of_le [low; high])) after)) as -> by congruence.
  assert (rest = drop (Z.to_nat (of_le [low; high])) after) as -> by congruence.
  cbn [op_bytes op_length]. unfold op_size, len in *. cbn [op_bytes length]. rewrite length_drop, length_take.
  destruct (Z.le_gt_cases 0 (of_le [low; high])); [split; [lia|right; lia]|].
  split; [lia|left]. apply length_zero_iff_nil. rewrite length_take. lia.
Qed.
Lemma decode_loop_size fuel payload ops : decode_loop fuel payload = Some ops ->
  length payload = sum_list (op_size <$> ops).
Proof.
  revert payload ops; induction fuel as [|fuel IH]; intros [|b payload] ops; cbn [decode_loop]; try by intros [= <-].
  destruct (decode_operation (b :: payload)) as [[o rest]|] eqn:Ho; cbn [mbind option_bind]; [|done].
  destruct (decode_loop fuel rest) as [os|] eqn:Hr; cbn [mbind option_bind]; [|done]. intros [= <-].
  apply decode_operation_size in Ho as [-> _]. rewrite (IH _ _ Hr). done.
Qed.

(** A transaction survives its encoding: what the driver asked for is what the
    device decodes, operation by operation, a transfer with the zeros the contract
    clocks out for a longer read side.  And whatever arrives, the decoder either
    refuses it or accounts for every byte: three per operation and the bytes it
    carries. *)
Theorem operations_roundtrip (ops : list Operation) (payload : bytes) (got : list Op) :
  Forall op_fits ops -> decode_operations payload = Some got ->
  decode_operations (encode_operations ops) = Some (decoded <$> ops)
  /\ length payload = sum_list (op_size <$> got).
Proof. intros Hops Hgot. split; [by apply decode_encode_operations|by eapply decode_loop_size]. Qed.
Lemma operations_roundtrip_witness :
  decode_operations (encode_operations [Write [0x1E; 0]; Transfer [0; 0; 0] [7]; DelayNs 1500])
  = Some [op 0 2 [0x1E; 0]; op 2 3 [7; 0; 0]; op 3 2 []].
Proof.
  refine (proj1 (operations_roundtrip [Write [0x1E; 0]; Transfer [0; 0; 0] [7]; DelayNs 1500] [1; 4; 0] [op 1 4 []] _ _)).
  - repeat constructor; vm_compute; done.
  - reflexivity.
Defined.

Lemma hello_roundtrip (h : Hello.t) (more : bytes) : is_u32 (Hello.session h) ->
  Hello.parse (Hello.encode h ++ more) = Some h.
Proof.
  destruct h as [p [mj mn] b s busy dio1]. cbn [Hello.session]. intros Hs. unfold Hello.encode.
  cbn [Hello.protocol Hello.firmware Hello.board Hello.session Hello.busy Hello.dio1 fst snd].
  pose proof (of_le_le_bytes 4 s ltac:(byte_range)) as Hv. pose proof (length_le_bytes 4 s) as Hl.
  destruct (le_bytes 4 s) as [|s0 [|s1 [|s2 [|s3 [|? ?]]]]]; try discriminate Hl.
  cbn [app Hello.parse]. rewrite Hv. by destruct busy, dio1.
Qed.
End operations.

(** * A transaction over the cable *)

Section transparency.
Context `{LoraModulation}.
Import Protocol.

(** A transfer whose sides are of one length, as the driver's are. *)
Definition symmetric (o : Operation) : Prop :=
  match o with Transfer r w => length r = length w | _ => True end.
(** The bytes an operation reads back. *)
Definition reads_back (o : Operation) : Z :=
  match o with Read b | Transfer b _ | TransferInPlace b => len b | Write _ | DelayNs _ => 0 end.

Lemma decoded_command ops : Forall symmetric ops ->
  concat (op_bytes <$> (decoded <$> ops)) = concat (VirtualSpi.command_of <$> ops).
Proof.
  induction 1 as [|o ops Ho _ IH]; [done|]. rewrite !fmap_cons. cbn [concat]. rewrite IH. f_equal.
  destruct o as [| |r w| |]; try done. cbn [symmetric] in Ho. cbn [decoded op_bytes VirtualSpi.command_of].
  rewrite Ho, Nat.max_id. apply resize_same.
Qed.
Lemma decoded_wanted ops : Forall symmetric ops ->
  Device.wanted (decoded <$> ops) = zsum (reads_back <$> ops).
Proof.
  unfold Device.wanted. induction 1 as [|o ops Ho _ IH]; [done|]. rewrite !fmap_cons, filter_cons, zsum_cons, <- IH.
  destruct o as [bs|b|r w|b|ns]; cbn [decoded symmetric reads_back] in *; case_decide as Hd; try (by vm_compute in Hd);
    rewrite ?fmap_cons, ?zsum_cons; cbn [op_length]; unfold len; try lia.
Qed.
Lemma length_next_bytes n reply : length (VirtualSpi.next_bytes n reply) = n.
Proof. unfold VirtualSpi.next_bytes. rewrite length_take, length_app, length_replicate. lia. Qed.
Lemma length_reply_bytes ops answer : Forall symmetric ops ->
  len (Device.reply_bytes (decoded <$> ops) answer) = zsum (reads_back <$> ops).
Proof.
  intros Hops. revert answer. induction Hops as [|o ops Ho _ IH]; intros answer; [done|].
  rewrite !fmap_cons, zsum_cons. unfold len in *.
  destruct o as [bs|b|r w|b|ns]; cbn [decoded symmetric reads_back Device.reply_bytes] in *;
    match goal with |- context [if Device.returns_bytes ?o then _ else _] =>
      let v := eval cbv in (Device.returns_bytes (op (kind o) 0 [])) in
      change (Device.returns_bytes o) with v end;
    cbv iota; cbn [op_length]; unfold len in *;
    rewrite ?length_app, ?length_next_bytes, ?Nat2Z.inj_add, IH; lia.
Qed.

(** The host copies out of the reply what the virtual bus fills in. *)
Lemma copy_out_fill ops answer : Forall symmetric ops ->
  BridgeSpi.copy_out ops (Device.reply_bytes (decoded <$> ops) answer) = Ok (VirtualSpi.fill ops answer).
Proof.
  intros Hops. revert answer. induction Hops as [|o ops Ho _ IH]; intros answer; [done|]. rewrite fmap_cons.
  assert (forall n rest, (length (VirtualSpi.next_bytes n answer ++ rest) <? n + 0)%nat = false) as Hshort.
  { intros. apply Nat.ltb_ge. rewrite length_app, length_next_bytes. lia. }
  assert (forall n rest, take n (VirtualSpi.next_bytes n answer ++ rest) = VirtualSpi.next_bytes n answer) as Htake.
  { intros. apply take_app_length'. by rewrite length_next_bytes. }
  assert (forall n rest, drop (n + 0) (VirtualSpi.next_bytes n answer ++ rest) = rest) as Hdrop.
  { intros. rewrite Nat.add_0_r. apply drop_app_length'. by rewrite length_next_bytes. }
  destruct o as [bs|b|r w|b|ns]; cbn [decoded symmetric Device.reply_bytes BridgeSpi.copy_out VirtualSpi.fill] in *.
  - change (Device.returns_bytes _) with false. cbv iota. by rewrite IH.
  - change (Device.returns_bytes _) with true. cbv iota zeta. cbn [op_length]. unfold len. rewrite Nat2Z.id.
    by rewrite Hshort, Htake, Hdrop, IH.
  - change (Device.returns_bytes _) with true. cbv iota zeta. cbn [op_length].
    rewrite <- Ho, Nat.max_id, Nat.sub_diag, Nat2Z.id. by rewrite Hshort, Htake, Hdrop, IH.
  - change (Device.returns_bytes _) with true. cbv iota zeta. cbn [op_length]. unfold len. rewrite Nat2Z.id.
    by rewrite Hshort, Htake, Hdrop, IH.
  - change (Device.returns_bytes _) with false. cbv iota. by rewrite IH.
Qed.

(** The device's side. *)
Lemma spi_answers (d : Device.t) now ops : Forall op_fits ops -> Forall symmetric ops ->
  zsum (reads_back <$> ops) + 1 <= FRAME_LIMIT ->
  let '(c, answer) := VirtualSpi.run_command (Device.chip d) (Device.after_busy (Device.chip d) now)
                        (concat (VirtualSpi.command_of <$> ops)) in
  Device.spi d now (encode_operations ops)
  = Device.send (Device.with_chip d c) (Z.lor SPI REPLY) (STATUS_OK :: Device.reply_bytes (decoded <$> ops) answer).
Proof.
  intros Hfit Hsym Hwanted. unfold Device.spi. rewrite decode_encode_operations by done.
  rewrite decoded_wanted, decoded_command by done. rewrite (proj2 (Z.ltb_ge _ _)) by done.
  by destruct (VirtualSpi.run_command _ _ _).
Qed.
Lemma handle_spi (d : Device.t) now payload : Device.handle d now (SPI :: payload) = Device.spi d now payload.
Proof. done. Qed.

(** What a call reads past while it waits: everything but its reply, an error about
    it, and the end of the port. *)
Definition passed_over (command : Z) (i : Inbound) : bool :=
  match i with
  | Gone => false
  | Wake | Frame [] => true
  | Frame (head :: body) =>
      negb (head =? Z.lor command REPLY) && negb ((head =? EVENT_ERROR) && (nth 1 body command =? command))
  end.
Definition rises (i : Inbound) : bool :=
  match i with Frame (head :: level) => (head =? EVENT_DIO1) && Link.raised level | _ => false end.
Definition wakes (i : Inbound) : bool := match i with Wake => true | _ => false end.

Lemma receive_passes command pre rest irq woken : forallb (passed_over command) pre = true ->
  Link.receive command (pre ++ rest) irq woken
  = Link.receive command rest (irq || existsb rises pre) (woken || existsb wakes pre).
Proof.
  revert irq woken; induction pre as [|i pre IH]; intros irq woken; cbn [forallb existsb app]; [by rewrite !orb_false_r|].
  intros [Hi Hpre]%andb_true_iff. destruct i as [[|head body]| |]; cbn [passed_over rises wakes Link.receive] in *; [| | |done].
  - by rewrite IH.
  - apply andb_true_iff in Hi as [H1 H2]. apply negb_true_iff in H1, H2. rewrite H1.
    destruct (head =? EVENT_DIO1); cbn [andb orb]; [rewrite IH by done; by rewrite orb_assoc|].
    destruct (head =? EVENT_ERROR); [cbn [andb] in H2; rewrite H2|]; by rewrite IH.
  - rewrite IH by done. cbn [orb]. by rewrite orb_true_r.
Qed.
(** A call on a quiet inbox whose answer is on the way. *)
Lemma call_answered l command payload pre body rest more : Link.poisoned l = false -> Link.port_ok l = true ->
  Link.inbox l = [] -> Link.arriving l = (pre ++ Frame (Z.lor command REPLY :: body) :: rest) :: more ->
  forallb (passed_over command) pre = true ->
  Link.call l command payload
  = (Link.mk (Link.written l ++ Kiss.encode command payload) true rest more (Link.irq l || existsb rises pre)
       (Link.woken l || existsb wakes pre) (Link.session l) false, Ok body).
Proof.
  intros Hp Hok Hin Harr Hpre. unfold Link.call, Link.guard. rewrite Hp, Hok. cbn [negb]. cbv zeta.
  cbn [Link.await_arrivals Link.write Link.inbox Link.irq Link.woken Link.arriving].
  rewrite Hin, Harr. cbn [app head from_option id]. rewrite receive_passes by done. cbn [Link.receive]. rewrite Z.eqb_refl.
  unfold Link.with_flags, Link.with_inbox, Link.await_arrivals, Link.write.
  cbn [Link.written Link.port_ok Link.inbox Link.arriving Link.session Link.poisoned].
  by rewrite Hp, Hok, Harr.
Qed.

(** A deframer between two frames. *)
Definition idle (df : Kiss.Deframer) : Prop := Kiss.limit df = FRAME_LIMIT /\ leftover df = [].
(** What the device writes while it handles what arrived. *)
Definition answer_to (dev : Kiss.Deframer) (d : Device.t) (now : Z) (bs : bytes) : bytes :=
  drop (length (Device.sent d)) (Device.sent (Device.pump dev d now bs).2).
Lemma pump_request (dev : Kiss.Deframer) d now command payload : idle dev -> frame_fits FRAME_LIMIT (command, payload) ->
  (Device.pump dev d now (Kiss.encode command payload)).2 = Device.handle d now (command :: payload).
Proof.
  intros [Hlim Hleft] Hfit. unfold Device.pump.
  assert ((Kiss.push dev (Kiss.encode command payload) []).2 = [command :: payload]) as Hf.
  { apply read_queued; [by rewrite Hlim|done]. }
  destruct (Kiss.push _ _ _) as [dev' frames]. cbn [snd] in Hf. by subst frames.
Qed.

(** The host's side: the answer, cut out of the stream, is what the virtual bus fills in. *)
Lemma transaction_answered l (host : Kiss.Deframer) ops answer pre more : Forall symmetric ops ->
  zsum (reads_back <$> ops) + 2 <= FRAME_LIMIT -> idle host ->
  Link.poisoned l = false -> Link.port_ok l = true -> Link.inbox l = [] ->
  let reply := Kiss.encode (Z.lor SPI REPLY) (STATUS_OK :: Device.reply_bytes (decoded <$> ops) answer) in
  Link.arriving l = (pre ++ (Frame <$> (Kiss.push host reply []).2)) :: more ->
  forallb (passed_over SPI) pre = true ->
  BridgeSpi.transaction l ops
  = (Link.mk (Link.written l ++ Kiss.encode SPI (encode_operations ops)) true [] more (Link.irq l || existsb rises pre)
       (Link.woken l || existsb wakes pre) (Link.session l) false, Ok (VirtualSpi.fill ops answer)).
Proof.
  intros Hsym Hwanted [Hlim Hleft] Hp Hok Hin reply. unfold reply.
  rewrite read_queued; [|split_and!; [done|done|]|done].
  2:{ rewrite Hlim. cbn [snd]. unfold len in *. rewrite length_cons, Nat2Z.inj_succ. fold (len (A := Z)).
      pose proof (length_reply_bytes ops answer Hsym) as Hr. unfold len in Hr. rewrite Hr. lia. }
  intros Harr Hpre. unfold BridgeSpi.transaction, Link.call_checked.
  rewrite (call_answered l SPI (encode_operations ops) pre _ [] more) by done.
  cbv beta iota. rewrite Z.eqb_refl. by rewrite copy_out_fill.
Qed.

(** C28: The driver cannot tell the cable from the virtual bus. Let the host send, over
    a healthy link, a transaction within the protocol's limits -- a request, with its
    command byte, of at most 1100 bytes, at most 1098 bytes read back, operations and delays
    that fit sixteen bits, and transfers whose two sides are of one length, as the
    driver's are; a byte more read back and the answer is lost
    ([reply_lost_at_the_limit]). Let the device read it off its port, run it on its
    chip and answer, and whatever notices were in flight arrive before the answer:
    the transaction returns exactly what the virtual bus would have filled in on the
    same chip at the same moment, the chip is left in the same state, every notice of
    a risen DIO1 and every wake met on the way is kept, and nothing stays in the
    inbox. *)
Theorem bridge_is_transparent (l : Link.t) (d : Device.t) (host dev : Kiss.Deframer) (now : Z)
    (ops : list Operation) (pre : list Inbound) (more : list (list Inbound)) :
  Forall op_fits ops -> Forall symmetric ops ->
  len (encode_operations ops) + 1 <= FRAME_LIMIT -> zsum (reads_back <$> ops) + 2 <= FRAME_LIMIT ->
  idle host -> idle dev -> Link.poisoned l = false -> Link.port_ok l = true -> Link.inbox l = [] ->
  let request := Kiss.encode SPI (encode_operations ops) in
  Link.arriving l = (pre ++ (Frame <$> (Kiss.push host (answer_to dev d now request) []).2)) :: more ->
  forallb (passed_over SPI) pre = true ->
  let '(c, filled) := VirtualSpi.transaction (Device.chip d) (Device.after_busy (Device.chip d) now) ops in
  Device.chip (Device.pump dev d now request).2 = c
  /\ BridgeSpi.transaction l ops
     = (Link.mk (Link.written l ++ request) true [] more (Link.irq l || existsb rises pre)
          (Link.woken l || existsb wakes pre) (Link.session l) false, Ok filled).
Proof.
  intros Hfit Hsym Hlen Hwanted Hhost Hdev Hp Hok Hin request. unfold answer_to, request.
  rewrite pump_request by (done || (split_and!; try done; unfold snd; lia)). rewrite handle_spi.
  pose proof (spi_answers d now ops Hfit Hsym ltac:(lia)) as Hspi. unfold VirtualSpi.transaction.
  destruct (VirtualSpi.run_command _ _ _) as [c answer]. rewrite Hspi.
  unfold Device.send. cbn [Device.sent Device.chip Device.with_chip]. rewrite drop_app_length.
  intros Harr Hpre. split; [done|]. by apply (transaction_answered l host).
Qed.

(** A payload one byte too long for the deframer is dropped at its last byte. *)
Lemma push_overlong (df : Kiss.Deframer) command payload b : command <> FEND -> command <> FESC ->
  leftover df = [] -> 1 + len payload = Kiss.limit df ->
  (Kiss.push df (Kiss.encode command (payload ++ [b])) []).2 = [].
Proof.
  intros Hf He Hleft Hlen. unfold Kiss.encode. rewrite fmap_app, concat_app. cbn [fmap list_fmap concat].
  rewrite app_nil_r, <- app_assoc. cbn [Kiss.push]. unfold Kiss.push_byte at 1. rewrite Z.eqb_refl.
  unfold Kiss.push_byte at 1. rewrite (proj2 (Z.eqb_neq command FEND) Hf), (proj2 (Z.eqb_neq command FESC) He).
  cbn [Kiss.in_frame Kiss.escaped Kiss.frame Kiss.limit negb andb].
  assert (Kiss.limit df <=? len (A := Z) [] = false) as ->.
  { apply Z.leb_gt. unfold len in *. simpl. lia. }
  unfold leftover in Hleft. destruct (Kiss.in_frame df && _); [done|]. cbn [app].
  rewrite push_app, push_escaped by (unfold len in *; simpl; lia). rewrite push_app.
  assert (Kiss.limit df <=? len ([command] ++ payload) = true) as Hfull.
  { apply Z.leb_le. unfold len in *. rewrite length_app. simpl. lia. }
  assert (Kiss.push (Kiss.mk ([command] ++ payload) true false (Kiss.limit df)) (Kiss.escape b) []
          = (Kiss.mk [] false false (Kiss.limit df), [])) as ->; [|done].
  unfold Kiss.escape. destruct (Z.eqb_spec b FEND) as [->|Hb]; [|destruct (Z.eqb_spec b FESC) as [->|Hc]].
  - cbn [Kiss.push]. unfold Kiss.push_byte. cbn -[len Z.leb app]. by rewrite Hfull.
  - cbn [Kiss.push]. unfold Kiss.push_byte. cbn -[len Z.leb app]. by rewrite Hfull.
  - cbn [Kiss.push]. unfold Kiss.push_byte.
    rewrite (proj2 (Z.eqb_neq b FEND) Hb), (proj2 (Z.eqb_neq b FESC) Hc).
    cbn [Kiss.in_frame Kiss.escaped Kiss.frame Kiss.limit negb andb]. by rewrite Hfull.
Qed.

(** The device's own length check is off by one. A transaction that reads back
    exactly [FRAME_LIMIT - 1] bytes passes it and is run on the chip, and the device
    answers [STATUS_OK] in a frame of one byte more than the host's deframer holds;
    the host drops the answer and, once the device has been asked who it is, reports
    a timeout for a command that was carried out. *)
Theorem reply_lost_at_the_limit (l : Link.t) (d : Device.t) (host dev : Kiss.Deframer) (now : Z)
    (ops : list Operation) (h : Hello.t) (more : list (list Inbound)) :
  Forall op_fits ops -> Forall symmetric ops ->
  len (encode_operations ops) + 1 <= FRAME_LIMIT -> zsum (reads_back <$> ops) = FRAME_LIMIT - 1 ->
  idle host -> idle dev -> Link.poisoned l = false -> Link.port_ok l = true -> Link.inbox l = [] ->
  is_u32 (Hello.session h) -> Hello.session h = Link.session l ->
  let request := Kiss.encode SPI (encode_operations ops) in
  Link.arriving l = (Frame <$> (Kiss.push host (answer_to dev d now request) []).2)
                    :: [Frame (Z.lor HELLO REPLY :: Hello.encode h)] :: more ->
  Device.chip (Device.pump dev d now request).2
  = (VirtualSpi.transaction (Device.chip d) (Device.after_busy (Device.chip d) now) ops).1
  /\ (exists bs, answer_to dev d now request = Kiss.encode (Z.lor SPI REPLY) (STATUS_OK :: bs))
  /\ (BridgeSpi.transaction l ops).2 = Err (Timeout SPI).
Proof.
  intros Hfit Hsym Hlen Hwanted [Hlim Hleft] Hdev Hp Hok Hin Hu Hsame request. unfold answer_to, request.
  rewrite pump_request by (done || (split_and!; try done; unfold snd; lia)). rewrite handle_spi.
  pose proof (spi_answers d now ops Hfit Hsym ltac:(lia)) as Hspi. unfold VirtualSpi.transaction.
  destruct (VirtualSpi.run_command _ _ _) as [c answer]. rewrite Hspi.
  unfold Device.send. cbn [Device.sent Device.chip Device.with_chip]. rewrite drop_app_length.
  pose proof (length_reply_bytes ops answer Hsym) as Hr. rewrite Hwanted in Hr.
  set (reply := Device.reply_bytes (decoded <$> ops) answer) in *.
  assert (exists bs b, reply = bs ++ [b]) as (bs & b & Hb).
  { destruct reply as [|b bs] using rev_ind; [by vm_compute in Hr|by eexists _, _]. }
  assert ((Kiss.push host (Kiss.encode (Z.lor SPI REPLY) (STATUS_OK :: reply)) []).2 = []) as ->.
  { rewrite Hb, app_comm_cons. apply push_overlong; [done|done|done|]. rewrite Hlim. rewrite Hb in Hr.
    unfold len in *. rewrite length_app in Hr. simpl in *. lia. }
  intros Harr. split_and!; [done|by eexists|]. unfold BridgeSpi.transaction, Link.call_checked.
  unfold Link.call at 1. unfold Link.guard. rewrite Hp, Hok. cbn [negb]. cbv zeta.
  cbn [Link.await_arrivals Link.write Link.inbox Link.irq Link.woken Link.arriving].
  rewrite Hin, Harr. cbn [app head from_option id fmap list_fmap Link.receive].
  set (l1 := Link.with_flags _ _ _). assert (Link.poisoned l1 = false) as Hp1 by done.
  unfold Link.verify_session, Link.guard. rewrite Hp1.
  rewrite (call_answered l1 HELLO [] [] (Hello.encode h) [] more); try done.
  - rewrite <- (app_nil_r (Hello.encode h)), hello_roundtrip by done. cbn [Link.session l1].
    by rewrite (proj2 (Z.eqb_eq (Hello.session h) (Link.session l1)) Hsame).
  - cbn. by rewrite Harr.
Qed.
End transparency.

#[local] Existing Instance demo_modulation.
Lemma bridge_is_transparent_witness :
  let d := Device.mk (Chip.with_model (Chip.new 1 6) (Model.with_irq Model.fresh 0x0102)) 7 true true [9] in
  let ops := [Write [OP_GET_IRQ_STATUS]; Read [0; 0; 0]] in
  let host := Kiss.new Protocol.FRAME_LIMIT in
  let request := Kiss.encode Protocol.SPI (Protocol.encode_operations ops) in
  let reply := Frame <$> (Kiss.push host (answer_to host d 5 request) []).2 in
  let l := Link.mk [1] true [] [[Frame [Protocol.EVENT_DIO1; 1]; Wake] ++ reply] false false 7 false in
  (BridgeSpi.transaction l ops).2 = Ok [Write [OP_GET_IRQ_STATUS]; Read [0x20; 0x01; 0x02]]
  /\ Link.irq (BridgeSpi.transaction l ops).1 = true.
Proof.
  intros d ops host request reply l.
  pose proof (bridge_is_transparent l d host host 5 ops [Frame [Protocol.EVENT_DIO1; 1]; Wake] []) as Ht.
  assert ((VirtualSpi.transaction (Device.chip d) (Device.after_busy (Device.chip d) 5) ops).2
          = [Write [OP_GET_IRQ_STATUS]; Read [0x20; 0x01; 0x02]]) as Hv by (vm_compute; reflexivity).
  destruct (VirtualSpi.transaction _ _ _) as [c filled]. cbn [snd] in Hv. subst filled.
  destruct Ht as [_ Ht]; [..|rewrite Ht; split; reflexivity]; try done.
  - repeat constructor; vm_compute; discriminate.
  - repeat constructor.
Defined.
Lemma reply_lost_at_the_limit_witness :
  let d := Device.mk (Chip.new 1 6) 7 true true [] in
  let ops := [Write [OP_READ_BUFFER; 0; 0]; Read (replicate 1099 0)] in
  let host := Kiss.new Protocol.FRAME_LIMIT in
  let l := Link.mk [] true [] [[]; [Frame (0x81 :: Hello.encode (Hello.mk 2 (0, 2) 0xFE 7 false false))]] false false 7 false in
  (BridgeSpi.transaction l ops).2 = Err (Timeout Protocol.SPI).
Proof.
  intros d ops host l.
  refine (proj2 (proj2 (reply_lost_at_the_limit l d host host 5 ops (Hello.mk 2 (0, 2) 0xFE 7 false false) []
                          _ _ _ _ _ _ _ _ _ _ _ _))); try done.
  - repeat constructor; vm_compute; discriminate.
  - repeat constructor.
Defined.

(** * A device that restarted *)

Section restart.
Implicit Types l : Link.t.

(** Everything the program does with a link. *)
Inductive link_op :=
| DoCall (command : Z) (payload : bytes)
| DoChecked (command : Z) (payload : bytes)
| DoExpect (command : Z) (payload : bytes)
| DoVerify
| DoHello (attempts : nat)
| DoLevel
| DoWait
| DoWake
| DoTransaction (ops : list Operation)
| DoFlags
| DoWatch (announced : bool).
Definition link_step l (o : link_op) : Link.t :=
  match o with
  | DoCall c p => (Link.call l c p).1
  | DoChecked c p => (Link.call_checked l c p).1
  | DoExpect c p => (Link.expect_ok l c p).1
  | DoVerify => (Link.verify_session l).1
  | DoHello n => (Link.hello l n).1
  | DoLevel => (Link.dio1_level l).1
  | DoWait => (Link.wait l).1
  | DoWake => Link.wake l
  | DoTransaction ops => (BridgeSpi.transaction l ops).1
  | DoFlags => (BridgeWatch.irq_flags l).1
  | DoWatch a => let '(l, _, _, _) := BridgeWatch.wait_for_activity l a in l
  end.
Definition link_run l (ops : list link_op) : Link.t := foldl link_step l ops.

(** A poisoned link stays poisoned and writes nothing. *)
Definition silenced l l' : Prop :=
  Link.poisoned l' = true /\ Link.written l' = Link.written l /\ Link.session l' = Link.session l.
Lemma silenced_trans l1 l2 l3 : silenced l1 l2 -> silenced l2 l3 -> silenced l1 l3.
Proof. intros (H1 & H2 & H3) (K1 & K2 & K3). split_and!; congruence. Qed.
Section poisoned.
Context l (Hp : Link.poisoned l = true).
Lemma call_poisoned c p : Link.call l c p = (l, Err (Reset (Link.session l) (Link.session l))).
Proof. unfold Link.call, Link.guard. by rewrite Hp. Qed.
Lemma checked_poisoned c p : Link.call_checked l c p = (l, Err (Reset (Link.session l) (Link.session l))).
Proof. unfold Link.call_checked. by rewrite call_poisoned. Qed.
Lemma level_poisoned : Link.dio1_level l = (l, Err (Reset (Link.session l) (Link.session l))).
Proof. unfold Link.dio1_level. by rewrite checked_poisoned. Qed.
Lemma wait_silenced : silenced l (Link.wait l).1.
Proof.
  unfold Link.wait. destruct (act_irq _ || _); [done|]. cbv zeta.
  destruct (Link.first_activity _) as [rest a]. done.
Qed.
End poisoned.
Lemma step_silenced l o : Link.poisoned l = true -> silenced l (link_step l o).
Proof.
  intros Hp. destruct o as [c p|c p|c p| |n| | | |ops| |a]; cbn [link_step].
  - by rewrite call_poisoned.
  - by rewrite checked_poisoned.
  - unfold Link.expect_ok. by rewrite checked_poisoned.
  - unfold Link.verify_session, Link.guard. by rewrite Hp.
  - unfold Link.hello. destruct n; cbn [Link.hello_loop]; by rewrite call_poisoned.
  - by rewrite level_poisoned.
  - by apply wait_silenced.
  - done.
  - unfold BridgeSpi.transaction. by rewrite checked_poisoned.
  - unfold BridgeWatch.irq_flags. by rewrite call_poisoned.
  - unfold BridgeWatch.wait_for_activity. pose proof (wait_silenced l Hp) as Hw.
    destruct (Link.wait l) as [l1 act]. cbn [fst] in Hw. rewrite level_poisoned by apply Hw. done.
Qed.
Lemma run_silenced l ops : Link.poisoned l = true -> silenced l (link_run l ops).
Proof.
  revert l; induction ops as [|o ops IH]; intros l Hp; [done|].
  pose proof (step_silenced l o Hp) as Hs. eapply silenced_trans; [exact Hs|]. apply IH, Hs.
Qed.

(** Frames still to be heard. *)
Definition to_hear l : list Inbound := Link.inbox l ++ concat (Link.arriving l).
Definition met_another l : Prop := exists body h, Frame (Z.lor Protocol.HELLO Protocol.REPLY :: body) ∈ to_hear l
  /\ Hello.parse body = Some h /\ Hello.session h <> Link.session l.
(** The link goes on with the same device, unless another one introduced itself. *)
Definition sound l l' : Prop :=
  Link.session l' = Link.session l
  /\ (forall bs, Frame bs ∈ to_hear l' -> Frame bs ∈ to_hear l)
  /\ (Link.poisoned l' = Link.poisoned l \/ met_another l).
Lemma sound_refl l : sound l l.
Proof. split; [done|split; [done|by left]]. Qed.
Lemma sound_trans l1 l2 l3 : sound l1 l2 -> sound l2 l3 -> sound l1 l3.
Proof.
  intros (Hs & Hh & Hp) (Ks & Kh & Kp). split; [congruence|]. split; [by auto|].
  destruct Kp as [Kp|(body & h & Hin & Hb & Hne)]; [destruct Hp; [left; congruence|by right]|].
  right. exists body, h. rewrite <- Hs. by auto.
Qed.

Lemma receive_suffix c inbox irq woken rest irq' woken' r :
  Link.receive c inbox irq woken = (rest, irq', woken', r) ->
  (forall i, i ∈ rest -> i ∈ inbox) /\ (forall body, r = Ok body -> Frame (Z.lor c Protocol.REPLY :: body) ∈ inbox).
Proof.
  revert irq woken; induction inbox as [|i inbox IH]; intros irq woken; cbn [Link.receive]; [by intros [= <- <- <- <-]|].
  assert (forall irq woken, Link.receive c inbox irq woken = (rest, irq', woken', r) ->
    (forall j, j ∈ rest -> j ∈ i :: inbox)
    /\ (forall body, r = Ok body -> Frame (Z.lor c Protocol.REPLY :: body) ∈ i :: inbox)) as Hgo.
  { intros irq0 woken0 Hr. destruct (IH _ _ Hr) as [H1 H2]. split; intros; right; auto. }
  destruct i as [[|head body]| |]; [by apply Hgo| |by apply Hgo|].
  - destruct (Z.eqb_spec head (Z.lor c Protocol.REPLY)) as [->|].
    { intros [= <- <- <- <-]. split; [by right|]. intros body' Hb. assert (body' = body) as -> by congruence. left. }
    destruct (head =? Protocol.EVENT_DIO1); [by apply Hgo|]. destruct (head =? Protocol.EVENT_ERROR); [|by apply Hgo].
    destruct (nth 1 body c =? c); [|by apply Hgo]. intros [= <- <- <- <-]. split; [by right|done].
  - intros [= <- <- <- <-]. split; [by right|done].
Qed.
Lemma arrivals_heard l i : i ∈ Link.inbox (Link.await_arrivals l) ++ concat (Link.arriving (Link.await_arrivals l)) ->
  i ∈ to_hear l.
Proof.
  unfold to_hear, Link.await_arrivals. cbn [Link.inbox Link.arriving].
  destruct (Link.arriving l) as [|a more]; cbn [head tail from_option concat id]; [by rewrite !app_nil_r|].
  by rewrite <- app_assoc.
Qed.
Lemma call_sound l c p :
  sound l (Link.call l c p).1 /\ Link.poisoned (Link.call l c p).1 = Link.poisoned l
  /\ (forall body, (Link.call l c p).2 = Ok body -> Frame (Z.lor c Protocol.REPLY :: body) ∈ to_hear l).
Proof.
  unfold Link.call. destruct (Link.guard l); [|by split; [apply sound_refl|]].
  destruct (Link.port_ok l); cbn [negb]; [|by split; [apply sound_refl|]]. cbv zeta.
  set (l1 := Link.await_arrivals (Link.write l (Kiss.encode c p))).
  destruct (Link.receive _ _ _ _) as [[[rest irq] woken] r] eqn:Hr.
  apply receive_suffix in Hr as [Hrest Hok]. cbn [fst snd].
  assert (forall i, i ∈ Link.inbox l1 ++ concat (Link.arriving l1) -> i ∈ to_hear l) as Hheard.
  { intros i Hi. by apply (arrivals_heard (Link.write l (Kiss.encode c p)) i) in Hi. }
  split_and!; [|done|].
  - split; [done|]. split; [|by left]. unfold to_hear at 1. cbn [Link.with_flags Link.with_inbox Link.inbox Link.arriving].
    intros bs [Hi|Hi]%elem_of_app; apply Hheard, elem_of_app; [left; by apply Hrest|by right].
  - intros body Hb. apply Hheard, elem_of_app. left. by apply Hok.
Qed.
Lemma verify_sound l : sound l (Link.verify_session l).1.
Proof.
  unfold Link.verify_session. destruct (Link.guard l); [|apply sound_refl]. cbv zeta.
  destruct (call_sound l Protocol.HELLO []) as (Hs & _ & Hbody).
  destruct (Link.call l Protocol.HELLO []) as [l1 [body|e]]; cbn [fst snd] in *; [|done].
  destruct (Hello.parse body) as [h|] eqn:Hh; [|done].
  destruct (Z.eqb_spec (Hello.session h) (Link.session l)) as [|Hne]; [done|]. cbn [fst].
  destruct Hs as (Hsess & Hhear & _). split; [done|]. split; [done|]. right. exists body, h. by auto.
Qed.
Lemma checked_sound l c p : sound l (Link.call_checked l c p).1.
Proof.
  unfold Link.call_checked. destruct (call_sound l c p) as (Hs & _).
  destruct (Link.call l c p) as [l1 [body|[]]]; cbn [fst] in *; try done.
  pose proof (verify_sound l1) as Hv. destruct (Link.verify_session l1) as [l2 []]; by eapply sound_trans.
Qed.
Lemma level_sound l : sound l (Link.dio1_level l).1.
Proof. unfold Link.dio1_level. pose proof (checked_sound l Protocol.PINS []). by destruct (Link.call_checked _ _ _) as [? []]. Qed.
Lemma first_activity_suffix inbox i : i ∈ (Link.first_activity inbox).1 -> i ∈ inbox.
Proof.
  induction inbox as [|j inbox IH]; [done|]. cbn [Link.first_activity].
  destruct j as [[|head level]| |]; try (right; by auto). destruct (_ && _); right; by auto.
Qed.
Lemma wait_sound l : sound l (Link.wait l).1.
Proof.
  unfold Link.wait. destruct (act_irq _ || _); [split; [done|split; [done|by left]]|]. cbv zeta.
  set (l1 := Link.await_arrivals (Link.with_flags l false false)).
  pose proof (first_activity_suffix (Link.inbox l1)) as Hrest.
  destruct (Link.first_activity (Link.inbox l1)) as [rest a]. cbn [fst] in *. split; [done|]. split; [|by left].
  unfold to_hear at 1. cbn [Link.with_inbox Link.inbox Link.arriving]. intros bs Hin.
  apply (arrivals_heard (Link.with_flags l false false)). apply elem_of_app in Hin. apply elem_of_app.
  destruct Hin; [left; by apply Hrest|by right].
Qed.
Lemma hello_poisoned n l : Link.poisoned (Link.hello_loop n l).1 = Link.poisoned l.
Proof.
  revert l; induction n as [|n IH]; intros l; cbn [Link.hello_loop];
    pose proof (call_sound l Protocol.HELLO []) as (_ & Hp & _);
    destruct (Link.call l Protocol.HELLO []) as [l1 [body|[]]]; cbn [fst] in *; try done.
  - destruct (Hello.version body); [|done]. destruct (negb _); [done|]. by destruct (Hello.parse body).
  - destruct (Hello.version body); [|done]. destruct (negb _); [done|]. by destruct (Hello.parse body).
  - by rewrite IH.
Qed.

(** Whatever is done with a link, it is poisoned only by another device. *)
Lemma step_poisons l o : Link.poisoned l = false -> Link.poisoned (link_step l o) = true -> met_another l.
Proof.
  intros Hp Hp'. assert (forall l', sound l l' -> Link.poisoned l' = true -> met_another l) as Hsound.
  { intros l' (_ & _ & [Heq|]) ?; [congruence|done]. }
  destruct o as [c p|c p|c p| |n| | | |ops| |a]; cbn [link_step] in Hp'.
  - by eapply Hsound, Hp'; apply call_sound.
  - by eapply Hsound, Hp'; apply checked_sound.
  - eapply Hsound, Hp'. unfold Link.expect_ok. pose proof (checked_sound l c p).
    by destruct (Link.call_checked l c p) as [? [[]|]].
  - by eapply Hsound, Hp'; apply verify_sound.
  - unfold Link.hello in Hp'. rewrite hello_poisoned in Hp'. cbn in Hp'. congruence.
  - by eapply Hsound, Hp'; apply level_sound.
  - by eapply Hsound, Hp'; apply wait_sound.
  - cbn in Hp'. congruence.
  - eapply Hsound, Hp'. unfold BridgeSpi.transaction.
    pose proof (checked_sound l Protocol.SPI (Protocol.encode_operations ops)).
    by destruct (Link.call_checked l _ _) as [? [[]|]].
  - eapply Hsound, Hp'. unfold BridgeWatch.irq_flags. destruct (call_sound l Protocol.SPI
      (Protocol.encode_operations [Write [OP_GET_IRQ_STATUS]; Read [0; 0; 0]])) as (Hs & _).
    destruct (Link.call l Protocol.SPI _) as [l1 [[|? [|? [|? [|? [|? ?]]]]]|?]]; done.
  - eapply Hsound, Hp'. unfold BridgeWatch.wait_for_activity. pose proof (wait_sound l) as Hw.
    destruct (Link.wait l) as [l1 act]. cbn [fst] in Hw. pose proof (level_sound l1) as Hl.
    destruct (Link.dio1_level l1) as [l2 r]. cbn [fst] in Hl. by eapply sound_trans.
Qed.

(** A call nothing answers in time. *)
Lemma call_unanswered l c p more : Link.poisoned l = false -> Link.port_ok l = true ->
  Link.inbox l = [] -> Link.arriving l = [] :: more ->
  Link.call l c p = (Link.mk (Link.written l ++ Kiss.encode c p) true [] more (Link.irq l) (Link.woken l)
                       (Link.session l) false, Err (Timeout c)).
Proof.
  intros Hp Hok Hin Harr. unfold Link.call, Link.guard. rewrite Hp, Hok. cbn [negb]. cbv zeta.
  cbn [Link.await_arrivals Link.write Link.inbox Link.irq Link.woken Link.arriving].
  rewrite Hin, Harr. cbn [app head from_option id Link.receive].
  unfold Link.with_flags, Link.with_inbox, Link.await_arrivals, Link.write.
  cbn [Link.written Link.port_ok Link.inbox Link.arriving Link.session Link.poisoned].
  by rewrite Hp, Hok, Harr.
Qed.

(** A device that restarted is noticed and never spoken to again. When a checked
    call is met with silence the device is asked who it is, and everything it had
    said too late -- the answer to that very call included -- is thrown away on the
    way: the same session leaves the link usable and the call timed out; another one
    poisons it. From then on nothing the program does puts a byte on the wire or
    makes the link usable again. And no operation ever poisons a link unless a device
    with another session had introduced itself. *)
Theorem restart_is_final (l : Link.t) (command : Z) (payload : bytes) (pre rest : list Inbound) (h : Hello.t)
    (more : list (list Inbound)) (ops : list link_op) :
  Link.poisoned l = false -> Link.port_ok l = true -> Link.inbox l = [] ->
  Link.arriving l = [] :: (pre ++ Frame (Z.lor Protocol.HELLO Protocol.REPLY :: Hello.encode h) :: rest) :: more ->
  forallb (passed_over Protocol.HELLO) pre = true -> is_u32 (Hello.session h) ->
  let '(l', r) := Link.call_checked l command payload in
  Link.written l' = Link.written l ++ Kiss.encode command payload ++ Kiss.encode Protocol.HELLO []
  /\ Link.inbox l' = rest
  /\ (if Hello.session h =? Link.session l then Link.poisoned l' = false /\ r = Err (Timeout command)
      else r = Err (Reset (Link.session l) (Hello.session h))
           /\ Link.written (link_run l' ops) = Link.written l' /\ Link.poisoned (link_run l' ops) = true)
  /\ (forall l0 o, Link.poisoned l0 = false -> Link.poisoned (link_step l0 o) = true -> met_another l0).
Proof.
  intros Hp Hok Hin Harr Hpre Hu. unfold Link.call_checked. rewrite (call_unanswered l command payload _ Hp Hok Hin Harr).
  unfold Link.verify_session, Link.guard. cbn [Link.poisoned Link.session]. cbv zeta.
  rewrite (call_answered _ Protocol.HELLO [] pre (Hello.encode h) rest more) by done.
  cbv beta iota. rewrite <- (app_nil_r (Hello.encode h)), hello_roundtrip by done. cbn [Link.session Link.written Link.irq Link.woken].
  destruct (Hello.session h =? Link.session l); cbn [Link.written Link.with_session Link.inbox Link.poisoned].
  - rewrite app_assoc. split_and!; try done. apply step_poisons.
  - rewrite app_assoc. split_and!; try done; [| |apply step_poisons];
      match goal with |- context [link_run ?l0 ops] => destruct (run_silenced l0 ops eq_refl) as (H1 & H2 & H3) end; done.
Qed.
Lemma restart_is_final_witness :
  let l := Link.mk [] true [] [[]; [Frame [0x86; 0; 9]; Frame (0x81 :: Hello.encode (Hello.mk 2 (0, 2) 0xFE 8 false false))]]
             false false 7 false in
  (Link.call_checked l Protocol.SPI [4]).2 = Err (Reset 7 8)
  /\ Link.written (link_run (Link.call_checked l Protocol.SPI [4]).1 [DoTransaction []; DoHello 3; DoWatch false])
     = Link.written (Link.call_checked l Protocol.SPI [4]).1.
Proof.
  intros l. pose proof (restart_is_final l Protocol.SPI [4] [Frame [0x86; 0; 9]] [] (Hello.mk 2 (0, 2) 0xFE 8 false false) []
                          [DoTransaction []; DoHello 3; DoWatch false]) as Ht.
  destruct (Link.call_checked l Protocol.SPI [4]) as [l' r].
  destruct Ht as (_ & _ & (Hr & Hw & _) & _); try done.
Defined.

(** The unchecked read of the interrupt flags has no such guard: when its answer
    comes late it is taken, whatever it says, for the answer to the driver's next
    transaction. *)
Theorem late_flags_answer_the_next_transaction (l : Link.t) (stale : bytes) (ops : list Operation)
    (fresh : list Inbound) (more : list (list Inbound)) :
  Link.poisoned l = false -> Link.port_ok l = true -> Link.inbox l = [] ->
  Link.arriving l = [] :: (Frame (Z.lor Protocol.SPI Protocol.REPLY :: Protocol.STATUS_OK :: stale) :: fresh) :: more ->
  let '(l1, flags) := BridgeWatch.irq_flags l in
  flags = None /\ (BridgeSpi.transaction l1 ops).2 = BridgeSpi.copy_out ops stale
  /\ Link.inbox (BridgeSpi.transaction l1 ops).1 = fresh.
Proof.
  intros Hp Hok Hin Harr. unfold BridgeWatch.irq_flags. cbv zeta. rewrite (call_unanswered l _ _ _ Hp Hok Hin Harr).
  cbv beta iota. split; [done|]. unfold BridgeSpi.transaction, Link.call_checked.
  rewrite (call_answered _ Protocol.SPI _ [] (Protocol.STATUS_OK :: stale) fresh more) by done.
  cbv beta iota. by rewrite Z.eqb_refl.
Qed.
Lemma late_flags_answer_the_next_transaction_witness :
  let l := Link.mk [] true [] [[]; [Frame [0x86; 0; 0x22; 2; 1]; Frame [0x86; 0; 3; 4; 5]]] false false 7 false in
  (BridgeSpi.transaction (BridgeWatch.irq_flags l).1 [Write [OP_GET_RX_BUFFER_STATUS]; Read [0; 0; 0]]).2
  = Ok [Write [OP_GET_RX_BUFFER_STATUS]; Read [0x22; 2; 1]].
Proof.
  intros l. pose proof (late_flags_answer_the_next_transaction l [0x22; 2; 1] [Write [OP_GET_RX_BUFFER_STATUS]; Read [0; 0; 0]]
                          [Frame [0x86; 0; 3; 4; 5]] []) as Ht.
  destruct (BridgeWatch.irq_flags l) as [l1 flags]. cbn [fst]. by destruct Ht as (_ & -> & _).
Defined.

(** * Waiting for the chip *)

(** The host asked for attention and has not been attended to. *)
Definition owed l : Prop := Link.woken l = true \/ Wake ∈ to_hear l.
Lemma receive_owed c inbox irq woken rest irq' woken' r :
  Link.receive c inbox irq woken = (rest, irq', woken', r) ->
  woken = true \/ Wake ∈ inbox -> woken' = true \/ Wake ∈ rest.
Proof.
  revert irq woken; induction inbox as [|i inbox IH]; intros irq woken; cbn [Link.receive].
  { intros [= <- <- <- <-]. done. }
  assert (i <> Wake -> woken = true \/ Wake ∈ i :: inbox -> woken = true \/ Wake ∈ inbox) as Hskip.
  { intros Hj [?|Hw]; [by left|]. right. by apply elem_of_cons in Hw as [<-|]. }
  destruct i as [[|head body]| |].
  - intros Hr Hw. eapply IH; [exact Hr|]. by apply Hskip.
  - destruct (head =? _); [intros [= <- _ <- _]; by apply Hskip|].
    destruct (head =? _); [intros Hr Hw; eapply IH; [exact Hr|]; by apply Hskip|].
    destruct (head =? _); [|intros Hr Hw; eapply IH; [exact Hr|]; by apply Hskip].
    destruct (nth 1 body c =? c); [intros [= <- _ <- _]; by apply Hskip|].
    intros Hr Hw; eapply IH; [exact Hr|]; by apply Hskip.
  - intros Hr _. eapply IH; [exact Hr|]. by left.
  - intros [= <- _ <- _]. by apply Hskip.
Qed.
Lemma owed_arrivals l : Wake ∈ to_hear l -> Wake ∈ Link.inbox (Link.await_arrivals l) ++ concat (Link.arriving (Link.await_arrivals l)).
Proof.
  unfold to_hear, Link.await_arrivals. cbn [Link.inbox Link.arriving].
  destruct (Link.arriving l) as [|a more]; cbn [head tail from_option concat id]; [by rewrite !app_nil_r|].
  by rewrite <- app_assoc.
Qed.
Lemma call_owed l c p : owed l -> owed (Link.call l c p).1.
Proof.
  intros Ho. unfold Link.call. destruct (Link.guard l); [|done]. destruct (Link.port_ok l); cbn [negb]; [|done]. cbv zeta.
  pose proof (owed_arrivals (Link.write l (Kiss.encode c p))) as Harr.
  set (l1 := Link.await_arrivals (Link.write l (Kiss.encode c p))) in *.
  destruct (Link.receive _ _ _ _) as [[[rest irq] woken] r] eqn:Hr. pose proof (receive_owed _ _ _ _ _ _ _ _ Hr) as Hk.
  unfold owed, to_hear. cbn [fst Link.with_flags Link.with_inbox Link.inbox Link.arriving Link.woken]. rewrite elem_of_app.
  destruct Ho as [Ho|Ho]; [destruct Hk; [by left|by left|by right; left]|].
  destruct (elem_of_app (Link.inbox l1) (concat (Link.arriving l1)) Wake) as [Hin _].
  destruct (Hin (Harr Ho)); [destruct Hk; [by right|by left|by right; left]|by right; right].
Qed.
Lemma checked_owed l c p : owed l -> owed (Link.call_checked l c p).1.
Proof.
  intros Ho. unfold Link.call_checked. pose proof (call_owed l c p Ho) as H1.
  destruct (Link.call l c p) as [l1 [body|[]]]; cbn [fst] in *; try done.
  assert (owed (Link.verify_session l1).1) as H2; [|by destruct (Link.verify_session l1) as [l2 []]].
  unfold Link.verify_session. destruct (Link.guard l1); [|done]. cbv zeta.
  pose proof (call_owed l1 Protocol.HELLO [] H1) as H2. destruct (Link.call l1 _ _) as [l2 [body|e]]; cbn [fst] in *; [|done].
  destruct (Hello.parse body); [|done]. by destruct (_ =? _).
Qed.
Lemma first_activity_owed inbox : Wake ∈ inbox ->
  act_host (Link.first_activity inbox).2 = true \/ Wake ∈ (Link.first_activity inbox).1.
Proof.
  induction inbox as [|i inbox IH]; intros Hw; [by apply elem_of_nil in Hw|].
  destruct i as [[|head level]| |]; cbn [Link.first_activity]; [| |by left|];
    apply elem_of_cons in Hw as [Hw|Hw]; try done; [by apply IH| |by right].
  destruct (_ && _); [by right|by apply IH].
Qed.
Lemma wait_owed l : owed l -> act_host (Link.wait l).2 = true \/ owed (Link.wait l).1.
Proof.
  intros Ho. unfold Link.wait. cbv zeta. cbn [act_irq act_host].
  destruct Ho as [->|Ho]; [rewrite orb_true_r; by left|].
  destruct (Link.irq l || Link.woken l); [right; by right|].
  set (l1 := Link.await_arrivals (Link.with_flags l false false)).
  pose proof (first_activity_owed (Link.inbox l1)) as Hf. destruct (Link.first_activity (Link.inbox l1)) as [rest a].
  cbn [fst snd] in *. apply (owed_arrivals (Link.with_flags l false false)), elem_of_app in Ho as [Ho|Ho].
  - destruct (Hf Ho); [by left|]. right. right. unfold to_hear. apply elem_of_app. by left.
  - right. right. unfold to_hear. apply elem_of_app. by right.
Qed.
Lemma level_owed l : owed l -> owed (Link.dio1_level l).1.
Proof. unfold Link.dio1_level. intros Ho. pose proof (checked_owed l Protocol.PINS [] Ho). by destruct (Link.call_checked _ _ _) as [? []]. Qed.

(** A level read as high was so reported by the device. *)
Definition pins_high l : Prop := exists busy level more,
  Frame (Z.lor Protocol.PINS Protocol.REPLY :: busy :: level :: more) ∈ to_hear l /\ level <> 0.
Lemma level_read l : (Link.dio1_level l).2 = Ok true -> pins_high l.
Proof.
  unfold Link.dio1_level, Link.call_checked. destruct (call_sound l Protocol.PINS []) as (_ & _ & Hbody).
  destruct (Link.call l Protocol.PINS []) as [l1 [body|[]]]; cbn [snd] in *; try done;
    [|destruct (Link.verify_session l1) as [? []]; done].
  destruct body as [|busy [|level more]]; cbn; try done. intros Hl. exists busy, level, more. split; [by apply Hbody|].
  intros ->. by vm_compute in Hl.
Qed.
Lemma pins_high_sound l l' : sound l l' -> pins_high l' -> pins_high l.
Proof. intros (_ & Hh & _) (busy & level & more & Hin & Hne). exists busy, level, more. auto. Qed.
Lemma wake_owed l : owed (Link.wake l).
Proof. right. unfold to_hear, Link.wake. cbn [Link.with_inbox Link.inbox]. rewrite !elem_of_app. left; right. left. Qed.

Lemma await_loop_ok rounds host l l' : BridgeIv.await_loop rounds host l = (l', Ok tt) ->
  pins_high l /\ (host = true \/ owed l -> owed l').
Proof.
  revert host l; induction rounds as [|rounds IH]; intros host l; cbn [BridgeIv.await_loop];
    pose proof (wait_sound l) as Hws; pose proof (wait_owed l) as Hwo; destruct (Link.wait l) as [l1 a]; cbn [fst snd] in *;
    pose proof (level_sound l1) as Hls; pose proof (level_owed l1) as Hlo; pose proof (level_read l1) as Hlr;
    destruct (Link.dio1_level l1) as [l2 [[|]|]]; cbn [fst snd] in *; try done; intros Hend.
  1,2: split; [by eapply pins_high_sound, Hlr; [exact Hws|]|]; intros Ho;
    assert (l' = (if host || act_host a then Link.wake l2 else l2)) as -> by congruence;
    destruct (host || act_host a) eqn:Ha; [apply wake_owed|]; apply orb_false_iff in Ha as [-> Ha]; rewrite Ha in Hwo;
    destruct Ho as [|Ho]; [done|]; apply Hlo; by destruct (Hwo Ho).
  apply IH in Hend as [Hp Ho]. split.
  - eapply pins_high_sound; [exact Hws|]. by eapply pins_high_sound.
  - intros Hh. apply Ho. destruct host; [by left|]. destruct Hh as [|Hh]; [done|]. cbn [orb].
    destruct (Hwo Hh); [by left|right; by apply Hlo].
Qed.

(** The wait for the end of a transmission is decided by the line and loses no
    wake. However often a notice or a host cuts a round short, the wait succeeds only
    on a PINS answer that says DIO1 is high, and a host that had asked for attention
    -- before the wait or during it -- is still owed it afterwards. *)
Theorem await_irq_reads_the_line (l l' : Link.t) (rounds : nat) :
  BridgeIv.await_irq rounds l = (l', Ok tt) -> pins_high l /\ (owed l -> owed l').
Proof. intros Hok. destruct (await_loop_ok _ _ _ _ Hok) as [Hp Ho]. split; [done|]. intros. apply Ho. by right. Qed.
Lemma await_irq_reads_the_line_witness :
  let l := Link.mk [] true [Wake] [[Frame [0xE1; 1]]; [Frame [0x84; 0; 0]]; [Frame [0xE1]; Frame [0x84; 0; 1]]]
             false false 7 false in
  pins_high l /\ owed (BridgeIv.await_irq 5 l).1.
Proof.
  intros l. assert ((BridgeIv.await_irq 5 l).2 = Ok tt) as Hr by (vm_compute; reflexivity).
  destruct (BridgeIv.await_irq 5 l) as [l' r] eqn:Hl. cbn [fst snd] in *. subst r.
  destruct (await_irq_reads_the_line l l' 5 Hl) as [Hp Ho]. split; [done|]. apply Ho. right.
  unfold to_hear. apply elem_of_app. left. left.
Defined.

(** On its error paths the wait does forget the host: a wake met before the line stayed
    low to the deadline is gone. The driver empties its command queue after every
    transmission, failed or not, so nothing waits on that wake. *)
Theorem await_irq_forgets_a_wake :
  let l := Link.mk [] true [Wake] [[]; [Frame [0x84; 0; 0]]] false false 7 false in
  let l' := (BridgeIv.await_irq 0 l).1 in
  (BridgeIv.await_irq 0 l).2 = Err DrIrq /\ owed l /\ Link.woken l' = false /\ to_hear l' = [].
Proof. intros l l'. split_and!; [reflexivity|right; left|reflexivity|reflexivity]. Qed.
End restart.

(** * A session for each boot *)

(** A board that is served has a session, and its number is a non-zero word whatever was
    drawn: the host's own [0], for no session met yet, is never a board's. *)
Theorem served_board_has_a_session (drawn : Z) (c : Chip.t) (d : Device.t) :
  Device.serve drawn c true true = Some d ->
  is_u32 (Device.session d) /\ Z.odd (Device.session d) = true /\ Device.chip d = c /\ Device.events_on d = false.
Proof.
  unfold Device.serve, Device.session_id. intros [= <-]. cbn [Device.session Device.chip Device.events_on].
  pose proof (Z.mod_pos_bound drawn (2 ^ 32) ltac:(lia)) as Hb.
  split_and!; [|by rewrite <- Z.bit0_odd, Z.lor_spec, orb_true_r|done|done].
  unfold is_u32, U32_MAX. split; [by apply Z.lor_nonneg; lia|].
  assert (Z.lor (drawn mod 2 ^ 32) 1 < 2 ^ 32); [|lia].
  assert (Z.lor (drawn mod 2 ^ 32) 1 = Z.lor (drawn mod 2 ^ 32) 1 mod 2 ^ 32) as ->; [|apply Z.mod_pos_bound; lia].
  apply Z.bits_inj'. intros i Hi. rewrite <- !Z.land_ones by lia. rewrite Z.land_spec, !Z.lor_spec, Z.land_spec.
  destruct (Z.testbit (Z.ones 32) i) eqn:Ho; [by rewrite !andb_true_r|]. rewrite andb_false_r.
  assert (32 <= i) as Hi'. { destruct (decide (i < 32)); [|lia]. rewrite Z.ones_spec_low in Ho by lia. done. }
  rewrite andb_false_r. cbn [orb]. rewrite Z.bits_above_log2; [done|lia|cbn; lia].
Qed.
Lemma served_board_has_a_session_witness :
  match Device.serve 4294967296 (Chip.new 1 6) true true with Some d => Z.odd (Device.session d) = true | None => False end.
Proof.
  destruct (Device.serve 4294967296 (Chip.new 1 6) true true) as [d|] eqn:Hd; [|discriminate].
  exact (proj1 (proj2 (served_board_has_a_session 4294967296 (Chip.new 1 6) d Hd))).
Defined.
