(* ===== verification/Firmware.v ===== *)
(** The firmware of the bridge's board (src/firmware/bridge/bridge.ino, board.h, board.cpp and
    boards/xiao_s3_wio_sx1262.h): the same protocol as [Bridge.Device], on a microcontroller.

    The wires are a parameter, [Wires]: what the pins read, what the SPI host clocks back,
    and time, which passes between any two statements that look at a pin. The interrupt
    routine runs whenever DIO1 has risen. [sent] is every frame handed to the serial
    port. *)
From S2P Require Import Prelude RNode Bridge.

(** * The wires *)

Class Wires (W : Type) := {
  busy : W -> bool;
  dio1 : W -> bool;
  (** How often DIO1 has risen, and the clock. *)
  edges : W -> Z;
  micros : W -> Z;
  (** A delay of that many microseconds, or the time a statement takes. *)
  pass : Z -> W -> W;
  set_nreset : bool -> W -> W;
  set_nss : bool -> W -> W;
  spi_write : bytes -> W -> W;
  spi_transfer : bytes -> W -> W * bytes;
  rf_switch : Z -> W -> W;
  board_id : Z;
}.

Definition BOARD_XIAO_S3_WIO_SX1262 : Z := 0x01.
Definition FIRMWARE_MAJOR : Z := 0.
Definition FIRMWARE_MINOR : Z := 2.

(** * The frame in progress *)

Module Request.
(** [request] up to [request_len]. *)
Record t := mk { held : bytes; in_frame : bool; escaped : bool; overflow : bool }.
Definition none : t := mk [] false false false.
Inductive event := Whole (frame : bytes) | Overlong (command : Z).
Definition feed (r : t) (byte : Z) : t * option event :=
  if byte =? FEND then
    (mk [] true false false,
     if in_frame r && overflow r then Some (Overlong (match held r with b :: _ => b | [] => 0 end))
     else if in_frame r && (0 <? len (held r)) then Some (Whole (held r))
     else None)
  else if negb (in_frame r) then (r, None)
  else if negb (escaped r) && (byte =? FESC) then (mk (held r) (in_frame r) true (overflow r), None)
  else
    let decoded := if escaped r then (if byte =? TFEND then FEND else if byte =? TFESC then FESC else byte) else byte in
    if Protocol.FRAME_LIMIT <=? len (held r) then (mk (held r) (in_frame r) false true, None)
    else (mk (held r ++ [decoded]) (in_frame r) false (overflow r), None).
End Request.

(** * The board *)

Module Sketch.
Record t (W : Type) := mk {
  request : Request.t;
  session : Z;
  dio1_rose : bool;
  events_on : bool;
  sent : list (Z * bytes);
  wires : W;
}.
Arguments mk {W}.
Arguments request {W}.
Arguments session {W}.
Arguments dio1_rose {W}.
Arguments events_on {W}.
Arguments sent {W}.
Arguments wires {W}.
Definition set_request {W} (b : t W) (r : Request.t) : t W := mk r (session b) (dio1_rose b) (events_on b) (sent b) (wires b).
Definition set_latch {W} (b : t W) (rose : bool) : t W := mk (request b) (session b) rose (events_on b) (sent b) (wires b).
Definition set_events {W} (b : t W) (on : bool) : t W := mk (request b) (session b) (dio1_rose b) on (sent b) (wires b).
Definition send {W} (b : t W) (command : Z) (payload : bytes) : t W :=
  mk (request b) (session b) (dio1_rose b) (events_on b) (sent b ++ [(command, payload)]) (wires b).
(** [Serial.write(encoded)], frame after frame. *)
Definition written {W} (b : t W) : bytes := concat ((fun f => Kiss.encode f.1 f.2) <$> sent b).
Definition level (high : bool) : Z := if high then 1 else 0.

Section board.
Context `{Wires W}.
Implicit Types b : t W.

(** Anything that takes time or touches a pin; the interrupt routine runs if DIO1 rose. *)
Definition act {A} (b : t W) (f : W -> W * A) : t W * A :=
  let '(w, a) := f (wires b) in
  (mk (request b) (session b) (dio1_rose b || (edges (wires b) <? edges w)) (events_on b) (sent b) w, a).
Definition act_ (b : t W) (f : W -> W) : t W := (act b (fun w => (f w, tt))).1.
(** [digitalRead]: the level at some moment of the call. *)
Definition digital_read (b : t W) (pin : W -> bool) : t W * bool :=
  act b (fun w => let w := pass 0 w in (pass 0 w, pin w)).
Definition reply_status b (command status : Z) : t W := send b (Z.lor command Protocol.REPLY) [status].
Definition report_error b (code command : Z) : t W := send b Protocol.EVENT_ERROR [code; command].
(** [uint32_t] milliseconds. *)
Definition millis b : Z := (micros (wires b) / 1000) mod 2 ^ 32.

Fixpoint wait_loop (fuel : nat) (start limit_ms : Z) b : t W * bool :=
  let '(b, high) := digital_read b busy in
  if negb high then (b, true)
  else if limit_ms <? (millis b - start) mod 2 ^ 32 then (b, false)
  else match fuel with O => (b, false) | S fuel => wait_loop fuel start limit_ms (act_ b (pass 50)) end.
(** Twenty polls a millisecond, and one that finds the limit passed. *)
Definition polls (limit_ms : Z) : nat := Z.to_nat (20 * (limit_ms + 2)).
Definition wait_busy_low b (limit_ms : Z) : t W * bool := wait_loop (polls limit_ms) (millis b) limit_ms b.

Definition handle_hello b : t W :=
  let b := set_latch (set_events b true) false in
  let '(b, busy_) := digital_read b busy in
  let '(b, level_) := digital_read b dio1 in
  send b (Z.lor Protocol.HELLO Protocol.REPLY)
    ([Protocol.VERSION; FIRMWARE_MAJOR; FIRMWARE_MINOR; board_id] ++ le_bytes 4 (session b) ++ [level busy_; level level_]).
Definition handle_reset b : t W :=
  let b := act_ (act_ b (set_nreset false)) (pass 2000) in
  let b := act_ (act_ b (set_nreset true)) (pass 5000) in
  let b := set_latch b false in
  let '(b, low) := wait_busy_low b Protocol.BUSY_LIMIT_MS in
  reply_status b Protocol.RESET (if low then Protocol.STATUS_OK else Protocol.STATUS_TIMEOUT).
Definition handle_busy b (p : bytes) : t W :=
  match p with
  | [low; high] =>
      let '(b, low) := wait_busy_low b (Z.lor low (Z.shiftl high 8)) in
      reply_status b Protocol.BUSY (if low then Protocol.STATUS_OK else Protocol.STATUS_TIMEOUT)
  | _ => reply_status b Protocol.BUSY Protocol.STATUS_BAD_REQUEST
  end.
Definition handle_pins b : t W :=
  let '(b, busy_) := digital_read b busy in
  let '(b, level_) := digital_read b dio1 in
  send b (Z.lor Protocol.PINS Protocol.REPLY) [level busy_; level level_].
Definition handle_rf b (p : bytes) : t W :=
  match p with
  | [mode] =>
      if Protocol.RF_TX <? mode then reply_status b Protocol.RF Protocol.STATUS_BAD_REQUEST
      else reply_status (act_ b (rf_switch mode)) Protocol.RF Protocol.STATUS_OK
  | _ => reply_status b Protocol.RF Protocol.STATUS_BAD_REQUEST
  end.
Definition handle_events b (p : bytes) : t W :=
  match p with
  | [on] =>
      let b := set_latch (set_events b (negb (on =? 0))) false in
      let '(b, level_) := digital_read b dio1 in
      send b (Z.lor Protocol.EVENTS Protocol.REPLY) [level level_]
  | _ => reply_status b Protocol.EVENTS Protocol.STATUS_BAD_REQUEST
  end.

(** The check of an operation list: each round takes three bytes, so the payload's length is
    fuel enough. [size_t] is 32 bits wide, and so is [long]. *)
Fixpoint total_from (fuel : nat) (p : bytes) (total : Z) : option Z :=
  match p, fuel with
  | [], _ => Some total
  | _, O => None
  | kind :: low :: high :: p, S fuel =>
      let n := Z.lor low (Z.shiftl high 8) in
      if kind =? Protocol.OP_WRITE then
        if len p <? n then None else total_from fuel (drop (Z.to_nat n) p) total
      else if kind =? Protocol.OP_READ then total_from fuel p ((total + n) mod 2 ^ 32)
      else if kind =? Protocol.OP_TRANSFER then
        if len p <? n then None else total_from fuel (drop (Z.to_nat n) p) ((total + n) mod 2 ^ 32)
      else if kind =? Protocol.OP_DELAY then total_from fuel p total
      else None
  | _, S _ => None
  end.
Definition spi_read_total (p : bytes) : Z :=
  match total_from (length p) p 0 with Some total => to_signed 32 total | None => -1 end.
(** The operations themselves, with NSS low. *)
Fixpoint clock_from (fuel : nat) (p reply : bytes) b : t W * bytes :=
  match p, fuel with
  | kind :: low :: high :: p, S fuel =>
      let n := Z.lor low (Z.shiftl high 8) in
      if kind =? Protocol.OP_WRITE then
        clock_from fuel (drop (Z.to_nat n) p) reply (act_ b (spi_write (take (Z.to_nat n) p)))
      else if kind =? Protocol.OP_READ then
        let '(b, got) := act b (spi_transfer (replicate (Z.to_nat n) 0)) in clock_from fuel p (reply ++ got) b
      else if kind =? Protocol.OP_TRANSFER then
        let '(b, got) := act b (spi_transfer (take (Z.to_nat n) p)) in
        clock_from fuel (drop (Z.to_nat n) p) (reply ++ got) b
      else if kind =? Protocol.OP_DELAY then clock_from fuel p reply (act_ b (pass n))
      else clock_from fuel p reply b
  | _, _ => (b, reply)
  end.
Definition handle_spi b (p : bytes) : t W :=
  let total := spi_read_total p in
  if total <? 0 then reply_status b Protocol.SPI Protocol.STATUS_BAD_REQUEST
  else if Protocol.FRAME_LIMIT <? total + 1 then reply_status b Protocol.SPI Protocol.STATUS_TOO_LONG
  else
    let '(b, low) := wait_busy_low b Protocol.BUSY_LIMIT_MS in
    if negb low then reply_status b Protocol.SPI Protocol.STATUS_TIMEOUT
    else
      let '(b, reply) := clock_from (length p) p [Protocol.STATUS_OK] (act_ b (set_nss false)) in
      send (act_ b (set_nss true)) (Z.lor Protocol.SPI Protocol.REPLY) reply.

Definition handle_frame b (frame : bytes) : t W :=
  match frame with
  | [] => b
  | command :: p =>
      if command =? Protocol.HELLO then handle_hello b
      else if command =? Protocol.RESET then handle_reset b
      else if command =? Protocol.BUSY then handle_busy b p
      else if command =? Protocol.PINS then handle_pins b
      else if command =? Protocol.RF then handle_rf b p
      else if command =? Protocol.SPI then handle_spi b p
      else if command =? Protocol.EVENTS then handle_events b p
      else report_error b Protocol.STATUS_UNKNOWN_COMMAND command
  end.
Definition feed b (byte : Z) : t W :=
  let '(r, e) := Request.feed (request b) byte in
  let b := set_request b r in
  match e with
  | None => b
  | Some (Request.Overlong command) => report_error b Protocol.STATUS_TOO_LONG command
  | Some (Request.Whole frame) => handle_frame b frame
  end.
(** The pins the board starts with: NSS and NRESET high, the antenna switch off. *)
Definition begin (w : W) : W := rf_switch Protocol.RF_OFF (set_nreset true (set_nss true w)).
(** [setup], from what the generator drew, and one [loop] over the bytes it finds. *)
Definition setup (drawn : Z) (w : W) : t W := mk Request.none (Z.lor (drawn mod 2 ^ 32) 1) false false [] (begin w).
Definition announce b : t W :=
  if events_on b && dio1_rose b then
    let '(b, level_) := digital_read (set_latch b false) dio1 in send b Protocol.EVENT_DIO1 [level level_]
  else b.
Definition loop b (available : bytes) : t W := announce (act_ (foldl feed b available) (pass 0)).
End board.
End Sketch.
