(* ===== verification/FirmwareProofs.v ===== *)
(** What the firmware of the bridge's board guarantees (src/firmware/bridge/): its buffers hold
    what is put in them, it answers as the reference device of bridge.rs does, it never loses a
    rise of DIO1, and where it does differ. *)
From S2P Require Import Prelude RNode Hub Chip Bridge BridgeProofs Firmware.

(** * Arithmetic of a request *)

Lemma le16 low high : is_u8 low -> is_u8 high -> Z.lor low (Z.shiftl high 8) = of_le [low; high].
Proof.
  intros Hl Hh. cbn [of_le]. rewrite Z.shiftl_mul_pow2 by lia. change (2 ^ 8) with 256.
  rewrite Z.mul_0_r, Z.add_0_r, (Z.mul_comm high).
  rewrite <- Z.lxor_lor, <- Z.add_nocarry_lxor; [done|..];
    (apply Z.bits_inj'; intros i Hi; rewrite Z.land_spec, Z.bits_0;
     replace (256 * high) with (Z.shiftl high 8) by (rewrite Z.shiftl_mul_pow2 by lia; lia);
     rewrite Z.shiftl_spec by lia; destruct (decide (i < 8)) as [Hlt|Hge];
     [rewrite (Z.testbit_neg_r high) by lia; apply andb_false_r|];
     replace (Z.testbit low i) with false; [done|]; symmetry;
     destruct (decide (low = 0)) as [->|]; [apply Z.bits_0|];
     apply Z.bits_above_log2; [width; lia|]; apply (Z.log2_lt_pow2 low i); [width; lia|];
     apply (Z.lt_le_trans _ (2 ^ 8)); [width; lia|apply Z.pow_le_mono_r; lia]).
Qed.

Lemma wf_drop n (p : bytes) : wf_bytes p -> wf_bytes (drop n p).
Proof. apply Forall_drop. Qed.
Lemma wf_take n (p : bytes) : wf_bytes p -> wf_bytes (take n p).
Proof. apply Forall_take. Qed.

Lemma wanted_nil : Device.wanted [] = 0.
Proof. done. Qed.
Lemma wanted_cons o ops : Device.wanted (o :: ops) = (if Device.returns_bytes o then Protocol.op_length o else 0) + Device.wanted ops.
Proof. unfold Device.wanted. rewrite filter_cons. by destruct (Device.returns_bytes o). Qed.

(** The check finds what [decode_operations] parses, and the sum the host asked for: with at
    most as many bytes as a request may hold, nothing wraps. *)
Lemma total_decodes fuel p total : wf_bytes p -> 0 <= total -> total + 65535 * len p < 2 ^ 31 ->
  Sketch.total_from fuel p total
  = match Protocol.decode_loop fuel p with Some ops => Some (total + Device.wanted ops) | None => None end
  /\ (forall ops, Protocol.decode_loop fuel p = Some ops -> 0 <= Device.wanted ops <= 65535 * len p).
Proof.
  revert p total; induction fuel as [|fuel IH]; intros p total Hwf Ht Hsum.
  { destruct p as [|? [|? [|? ?]]]; [|by cbn..]. split; [cbn; by rewrite Z.add_0_r|]. intros ops [= <-]. by rewrite wanted_nil. }
  destruct p as [|kind [|low [|high p]]].
  { split; [cbn; by rewrite Z.add_0_r|]. intros ops [= <-]. by rewrite wanted_nil. }
  1,2: by cbn.
  apply Forall_cons in Hwf as [Hk Hwf]. apply Forall_cons in Hwf as [Hl Hwf]. apply Forall_cons in Hwf as [Hh Hwf].
  assert (0 <= of_le [low; high] <= 65535) as Hn.
  { pose proof (of_le_bound [low; high]) as Hb. cbn [length] in Hb. rewrite pow256_2 in Hb. unfold U16_MAX in Hb.
    assert (wf_bytes [low; high]) as W by (apply Forall_cons_2; [done|]; apply Forall_cons_2; [done|]; apply Forall_nil_2). specialize (Hb W). lia. }
  assert (len (kind :: low :: high :: p) = len p + 3) as Hlen by (unfold len; cbn [length]; lia). rewrite Hlen in *.
  assert (forall k, len (drop k p) <= len p) as Hdrop by (intros k; unfold len; rewrite length_drop; lia).
  cbn [Sketch.total_from Protocol.decode_loop Protocol.decode_operation]. rewrite le16 by done. cbv zeta.
  set (n := of_le [low; high]) in *.
  assert (forall q t o, wf_bytes q -> len q <= len p -> 0 <= t -> t <= total + 65535 ->
    t = (if Device.returns_bytes o then total + Protocol.op_length o else total) ->
    0 <= Protocol.op_length o <= 65535 ->
    Sketch.total_from fuel q t = match (ops ← Protocol.decode_loop fuel q; Some (o :: ops)) with
                                 | Some ops => Some (total + Device.wanted ops) | None => None end
    /\ (forall ops, (ops ← Protocol.decode_loop fuel q; Some (o :: ops)) = Some ops -> 0 <= Device.wanted ops <= 65535 * (len p + 3))) as Hgo.
  { intros q t o Hq Hlq Ht0 Ht1 -> Ho. destruct (IH q _ Hq Ht0) as [E B]; [lia|]. rewrite E.
    destruct (Protocol.decode_loop fuel q) as [ops|]; cbn [mbind option_bind].
    - specialize (B ops eq_refl). split; [rewrite wanted_cons; destruct (Device.returns_bytes o); f_equal; lia|].
      intros ops' [= <-]. rewrite wanted_cons. destruct (Device.returns_bytes o); lia.
    - done. }
  assert (0 <= len p) as Hp by (unfold len; lia).
  assert (0 <= total + n < 2 ^ 32) as Hsmall by lia.
  destruct (Z.eqb_spec kind Protocol.OP_WRITE) as [->|N0]; [|destruct (Z.eqb_spec kind Protocol.OP_TRANSFER) as [->|N2]];
    cbn [orb]; rewrite ?(Z.eqb_refl), ?(proj2 (Z.eqb_neq kind Protocol.OP_WRITE)) by done.
  - destruct (len p <? n); [by cbn|]. cbn [mbind option_bind].
    apply (Hgo _ total (Protocol.op Protocol.OP_WRITE n _)); [by apply wf_drop|done|lia|lia|done|done].
  - change (Protocol.OP_TRANSFER =? Protocol.OP_READ) with false. cbn [orb].
    destruct (len p <? n); [by cbn|]. cbn [mbind option_bind]. rewrite (Z.mod_small (total + n)) by lia.
    apply (Hgo _ _ (Protocol.op Protocol.OP_TRANSFER n _)); [by apply wf_drop|done|lia|lia|done|done].
  - rewrite ?(proj2 (Z.eqb_neq kind Protocol.OP_TRANSFER)) by done.
    destruct (Z.eqb_spec kind Protocol.OP_READ) as [->|N1]; [|destruct (Z.eqb_spec kind Protocol.OP_DELAY) as [->|N3]]; cbn [orb mbind option_bind].
    + rewrite (Z.mod_small (total + n)) by lia.
      apply (Hgo _ _ (Protocol.op Protocol.OP_READ n [])); [done|lia|lia|lia|done|done].
    + apply (Hgo _ total (Protocol.op Protocol.OP_DELAY n [])); [done|lia|lia|lia|done|done].
    + by cbn.
Qed.
Lemma read_total_decodes p : wf_bytes p -> len p <= Protocol.FRAME_LIMIT ->
  Sketch.spi_read_total p = match Protocol.decode_operations p with Some ops => Device.wanted ops | None => -1 end
  /\ (forall ops, Protocol.decode_operations p = Some ops -> 0 <= Device.wanted ops < 2 ^ 31).
Proof.
  intros Hwf Hlen. unfold Protocol.FRAME_LIMIT in Hlen. assert (0 <= len p) by (unfold len; lia).
  destruct (total_decodes (length p) p 0 Hwf) as [E B]; [lia|lia|].
  unfold Sketch.spi_read_total, Protocol.decode_operations in *. rewrite E.
  destruct (Protocol.decode_loop (length p) p) as [ops|]; [|done]. specialize (B ops eq_refl). rewrite Z.add_0_l.
  split; [|intros ops' [= <-]; lia]. unfold to_signed. destruct (Z.ltb_spec (Device.wanted ops) (2 ^ (32 - 1))); lia.
Qed.

(** * The operations, once checked *)

Section clocking.
Context `{Wires W}.
Implicit Types b : Sketch.t W.

(** One operation, on the wires and the reply so far. *)
Definition clock_op (s : Sketch.t W * bytes) (o : Protocol.Op) : Sketch.t W * bytes :=
  let n := Z.to_nat (Protocol.op_length o) in
  if Protocol.kind o =? Protocol.OP_WRITE then (Sketch.act_ s.1 (spi_write (Protocol.op_bytes o)), s.2)
  else if Protocol.kind o =? Protocol.OP_READ then
    let '(b, got) := Sketch.act s.1 (spi_transfer (replicate n 0)) in (b, s.2 ++ got)
  else if Protocol.kind o =? Protocol.OP_TRANSFER then
    let '(b, got) := Sketch.act s.1 (spi_transfer (Protocol.op_bytes o)) in (b, s.2 ++ got)
  else (Sketch.act_ s.1 (pass (Protocol.op_length o)), s.2).

(** The clocking loop never runs off a request the check has passed: it does what the
    request decodes to. *)
Lemma clock_decodes fuel p ops reply b : wf_bytes p -> Protocol.decode_loop fuel p = Some ops ->
  Sketch.clock_from fuel p reply b = foldl clock_op (b, reply) ops.
Proof.
  revert p ops reply b; induction fuel as [|fuel IH]; intros p ops reply b Hwf E.
  { destruct p as [|? [|? [|? ?]]]; [injection E as <-; done|discriminate E..]. }
  destruct p as [|kind [|low [|high p]]]; [injection E as <-; done|discriminate E..|].
  apply Forall_cons in Hwf as [Hk Hwf]. apply Forall_cons in Hwf as [Hl Hwf]. apply Forall_cons in Hwf as [Hh Hwf].
  cbn [Sketch.clock_from]. cbn [Protocol.decode_loop Protocol.decode_operation] in E. rewrite le16 by done. cbv zeta in *.
  set (n := of_le [low; high]) in *.
  destruct (Z.eqb_spec kind Protocol.OP_WRITE) as [->|N0]; [|destruct (Z.eqb_spec kind Protocol.OP_TRANSFER) as [->|N2]];
    cbn [orb] in E; rewrite ?Z.eqb_refl.
  - destruct (len p <? n); [discriminate E|]. cbn [mbind option_bind] in E.
    destruct (Protocol.decode_loop fuel (drop (Z.to_nat n) p)) as [rest|] eqn:R; [|discriminate E]. injection E as <-.
    rewrite (IH _ _ _ _ (wf_drop _ _ Hwf) R). done.
  - destruct (len p <? n); [discriminate E|]. cbn [mbind option_bind] in E.
    destruct (Protocol.decode_loop fuel (drop (Z.to_nat n) p)) as [rest|] eqn:R; [|discriminate E]. injection E as <-.
    change (Protocol.OP_TRANSFER =? Protocol.OP_READ) with false. cbn [foldl clock_op Protocol.kind Protocol.op_bytes fst snd].
    unfold clock_op at 2; cbn [Protocol.kind Protocol.op_bytes fst snd]. change (Protocol.OP_TRANSFER =? Protocol.OP_WRITE) with false.
    change (Protocol.OP_TRANSFER =? Protocol.OP_READ) with false. rewrite Z.eqb_refl.
    destruct (Sketch.act b _) as [b1 got]. by rewrite (IH _ _ _ _ (wf_drop _ _ Hwf) R).
  - rewrite ?(proj2 (Z.eqb_neq kind Protocol.OP_TRANSFER)) by done.
    destruct (Z.eqb_spec kind Protocol.OP_READ) as [->|N1]; [|destruct (Z.eqb_spec kind Protocol.OP_DELAY) as [->|N3]];
      cbn [orb mbind option_bind] in E; [| |discriminate E];
      (destruct (Protocol.decode_loop fuel p) as [rest|] eqn:R; [|discriminate E]); injection E as <-.
    + cbn [foldl]. unfold clock_op at 2. cbn [Protocol.kind Protocol.op_length fst snd].
      change (Protocol.OP_READ =? Protocol.OP_WRITE) with false. rewrite Z.eqb_refl.
      destruct (Sketch.act b _) as [b1 got]. by rewrite (IH _ _ _ _ Hwf R).
    + by rewrite (IH _ _ _ _ Hwf R).
Qed.
End clocking.

(** * What is known of the wires *)

(** DIO1 does not come up without an edge. *)
Definition moves `{Wires W} (w w' : W) : Prop :=
  edges w <= edges w' /\ (dio1 w = false -> dio1 w' = true -> edges w < edges w').
Class Lawful (W : Type) `{Wires W} : Prop := {
  pass_moves us (w : W) : moves w (pass us w);
  nreset_moves on (w : W) : moves w (set_nreset on w);
  nss_moves on (w : W) : moves w (set_nss on w);
  write_moves bs (w : W) : moves w (spi_write bs w);
  transfer_moves bs (w : W) : moves w (spi_transfer bs w).1;
  rf_moves mode (w : W) : moves w (rf_switch mode w);
  (** A transfer fills the buffer it was given. *)
  transfer_length bs (w : W) : length (spi_transfer bs w).2 = length bs;
  (** A chip just out of its reset has raised nothing. *)
  reset_lowers (w : W) : dio1 (pass 5000 (set_nreset true w)) = false;
  (** A delay takes as long as it was asked to. *)
  pass_takes us (w : W) : micros w + us <= micros (pass us w);
}.
Create HintDb wires.
#[export] Hint Resolve pass_moves nreset_moves nss_moves write_moves transfer_moves rf_moves : wires.

Section board.
Context `{Lawful W}.
Implicit Types (b : Sketch.t W) (w : W).

Lemma moves_trans w1 w2 w3 : moves w1 w2 -> moves w2 w3 -> moves w1 w3.
Proof. intros [M1 R1] [M2 R2]. split; [lia|]. intros L Hi. destruct (dio1 w2); [specialize (R1 L eq_refl)|specialize (R2 eq_refl Hi)]; lia. Qed.
Hint Resolve moves_trans : wires.

(** Only pins and time: the host hears nothing of it, and a rise is latched. *)
Record quiet b b' : Prop := {
  quiet_request : Sketch.request b' = Sketch.request b;
  quiet_session : Sketch.session b' = Sketch.session b;
  quiet_events : Sketch.events_on b' = Sketch.events_on b;
  quiet_sent : Sketch.sent b' = Sketch.sent b;
  quiet_moves : moves (Sketch.wires b) (Sketch.wires b');
  quiet_latch : Sketch.dio1_rose b' = Sketch.dio1_rose b || (edges (Sketch.wires b) <? edges (Sketch.wires b'));
}.
Lemma quiet_trans b1 b2 b3 : quiet b1 b2 -> quiet b2 b3 -> quiet b1 b3.
Proof.
  intros [R1 S1 E1 O1 M1 L1] [R2 S2 E2 O2 M2 L2]. split; [congruence..|by eapply moves_trans|].
  rewrite L2, L1. destruct M1 as [M1 _], M2 as [M2 _]. rewrite <- orb_assoc. f_equal.
  destruct (Z.ltb_spec (edges (Sketch.wires b1)) (edges (Sketch.wires b2))), (Z.ltb_spec (edges (Sketch.wires b2)) (edges (Sketch.wires b3))),
    (Z.ltb_spec (edges (Sketch.wires b1)) (edges (Sketch.wires b3))); done || lia.
Qed.
Lemma act_quiet {A} b (f : W -> W * A) : moves (Sketch.wires b) (f (Sketch.wires b)).1 -> quiet b (Sketch.act b f).1.
Proof. intros M. unfold Sketch.act. destruct (f (Sketch.wires b)) as [w a]. by split. Qed.
Lemma act__quiet b f : moves (Sketch.wires b) (f (Sketch.wires b)) -> quiet b (Sketch.act_ b f).
Proof. intros M. by apply (act_quiet b (fun w => (f w, tt))). Qed.
Lemma read_moves w : moves w (pass 0 (pass 0 w)).
Proof. eauto with wires. Qed.
Lemma read_quiet b pin : quiet b (Sketch.digital_read b pin).1.
Proof. apply act_quiet, read_moves. Qed.

(** The reading of a line: a rise after it is latched. *)
Lemma read_dio1 b : let '(b', level) := Sketch.digital_read b dio1 in
  quiet b b' /\ (level = false -> dio1 (Sketch.wires b') = true -> Sketch.dio1_rose b' = true).
Proof.
  pose proof (read_quiet b dio1) as Q. destruct (Sketch.digital_read b dio1) as [b' level] eqn:E.
  split; [done|]. unfold Sketch.digital_read, Sketch.act in E. injection E as <- <-. cbn. intros L Hi.
  destruct (pass_moves 0 (Sketch.wires b)) as [M1 _], (pass_moves 0 (pass 0 (Sketch.wires b))) as [_ R].
  specialize (R L Hi). apply orb_true_iff. right. apply Z.ltb_lt. lia.
Qed.

Lemma wait_quiet fuel start limit b : quiet b (Sketch.wait_loop fuel start limit b).1.
Proof.
  revert b; induction fuel as [|fuel IH]; intros b; cbn [Sketch.wait_loop];
    pose proof (read_quiet b busy) as Q; destruct (Sketch.digital_read b busy) as [b1 high]; destruct high; cbn [negb]; try done;
    (destruct (limit <? _); [done|]); [done|].
  eapply quiet_trans; [exact Q|]. eapply quiet_trans; [|apply IH]. apply act__quiet, pass_moves.
Qed.

(** The clocking: what it puts in the reply. *)
Definition carried (o : Protocol.Op) : Prop :=
  if (Protocol.kind o =? Protocol.OP_WRITE) || (Protocol.kind o =? Protocol.OP_TRANSFER)
  then len (Protocol.op_bytes o) = Protocol.op_length o else Protocol.op_bytes o = [].
Lemma clock_op_quiet s o : quiet s.1 (clock_op s o).1.
Proof.
  unfold clock_op. destruct (_ =? _); [apply act__quiet, write_moves|].
  destruct (_ =? _); [|destruct (_ =? _); [|apply act__quiet, pass_moves]];
    (match goal with |- context [Sketch.act ?b ?f] => pose proof (act_quiet b f (transfer_moves _ _)) as Q; by destruct (Sketch.act b f) end).
Qed.
Lemma clock_op_length s o : 0 <= Protocol.op_length o -> carried o ->
  len (clock_op s o).2 = len s.2 + (if Device.returns_bytes o then Protocol.op_length o else 0).
Proof.
  intros Hn Hc. unfold clock_op, Device.returns_bytes, carried in *.
  destruct (Z.eqb_spec (Protocol.kind o) Protocol.OP_WRITE) as [->|]; [cbn; lia|].
  destruct (Z.eqb_spec (Protocol.kind o) Protocol.OP_READ) as [E|]; [|destruct (Z.eqb_spec (Protocol.kind o) Protocol.OP_TRANSFER) as [E|]; [|cbn; lia]];
    unfold Sketch.act; cbn [orb];
    (match goal with |- context [spi_transfer ?bs ?w] => pose proof (transfer_length bs w) as Hl; destruct (spi_transfer bs w) as [w' got] end);
    cbn [fst snd] in *; unfold len in *; rewrite length_app, Hl, ?length_replicate; [lia|].
  cbn in Hc. unfold len in Hc. lia.
Qed.
Lemma clock_ops ops s : Forall (fun o => 0 <= Protocol.op_length o) ops -> Forall carried ops ->
  quiet s.1 (foldl clock_op s ops).1 /\ len (foldl clock_op s ops).2 = len s.2 + Device.wanted ops.
Proof.
  intros Hn Hc. revert s. induction ops as [|o ops IH]; intros s; cbn [foldl].
  { rewrite wanted_nil. split; [|lia]. split; try done; [by split; [|congruence]|]. by rewrite Z.ltb_irrefl, orb_false_r. }
  apply Forall_cons in Hn as [Hn Hns]. apply Forall_cons in Hc as [Hc Hcs].
  destruct (IH Hns Hcs (clock_op s o)) as [Q L]. split; [eapply quiet_trans; [apply clock_op_quiet|exact Q]|].
  rewrite L, wanted_cons, clock_op_length by done. lia.
Qed.
End board.

Lemma decode_carried_ops fuel p ops : wf_bytes p -> Protocol.decode_loop fuel p = Some ops ->
  Forall (fun o => 0 <= Protocol.op_length o) ops /\ Forall carried ops.
Proof.
  revert p ops; induction fuel as [|fuel IH]; intros p ops Hwf E; (destruct p as [|k p]; [by injection E as <-|]); [discriminate E|].
  cbn [Protocol.decode_loop] in E. destruct (Protocol.decode_operation (k :: p)) as [[o rest]|] eqn:Ho; cbn [mbind option_bind] in E; [|done].
  destruct (Protocol.decode_loop fuel rest) as [os|] eqn:Hr; cbn [mbind option_bind] in E; [|done]. injection E as <-.
  destruct p as [|low [|high p]]; [done..|]. apply Forall_cons in Hwf as [_ Hwf]. apply Forall_cons in Hwf as [Hl Hwf].
  apply Forall_cons in Hwf as [Hh Hwf].
  assert (0 <= of_le [low; high]) as Hn by (apply of_le_bound, Forall_cons_2; [done|]; by apply Forall_cons_2, Forall_nil_2).
  cbn [Protocol.decode_operation] in Ho. cbv zeta in Ho. set (n := of_le [low; high]) in *.
  destruct (_ || (k =? Protocol.OP_TRANSFER)) eqn:Hk.
  - destruct (Z.ltb_spec (len p) n) as [|Hlen]; [done|].
    assert (o = Protocol.op k n (take (Z.to_nat n) p)) as -> by congruence.
    assert (rest = drop (Z.to_nat n) p) as -> by congruence. destruct (IH _ _ (wf_drop _ _ Hwf) Hr) as [IH1 IH2].
    split; apply Forall_cons_2; try done. unfold carried. cbn [Protocol.kind Protocol.op_bytes Protocol.op_length]. rewrite Hk.
    unfold len in *. rewrite length_take. lia.
  - destruct ((k =? Protocol.OP_READ) || _); [|done]. assert (o = Protocol.op k n []) as -> by congruence. assert (rest = p) as -> by congruence.
    destruct (IH _ _ Hwf Hr) as [IH1 IH2]. split; apply Forall_cons_2; try done. unfold carried. cbn [Protocol.kind]. by rewrite Hk.
Qed.

Section answering.
Context `{Lawful W}.
Implicit Types (b : Sketch.t W) (w : W).

(** One frame has been sent, and the parser was left alone. *)
Definition answered b b' (f : Z * bytes) : Prop :=
  Sketch.sent b' = Sketch.sent b ++ [f] /\ Sketch.request b' = Sketch.request b /\ Sketch.session b' = Sketch.session b.
Lemma answered_send b b1 c p : Sketch.sent b1 = Sketch.sent b -> Sketch.request b1 = Sketch.request b ->
  Sketch.session b1 = Sketch.session b -> answered b (Sketch.send b1 c p) (c, p).
Proof. intros S R E. unfold answered, Sketch.send. cbn. by rewrite S. Qed.
Lemma answered_quiet b b1 c p : quiet b b1 -> answered b (Sketch.send b1 c p) (c, p).
Proof. intros [R S E O M L]. by apply answered_send. Qed.
Lemma quiet_reset b : quiet (Sketch.act_ (Sketch.act_ b (set_nreset false)) (pass 2000))
  (Sketch.act_ (Sketch.act_ (Sketch.act_ (Sketch.act_ b (set_nreset false)) (pass 2000)) (set_nreset true)) (pass 5000)).
Proof. eapply quiet_trans; apply act__quiet; eauto with wires. Qed.

(** What [handle_spi] does with a request that passes its checks. *)
Lemma handle_spi_eq b p ops : wf_bytes p -> len p <= Protocol.FRAME_LIMIT -> Protocol.decode_operations p = Some ops ->
  Device.wanted ops + 1 <= Protocol.FRAME_LIMIT ->
  Sketch.handle_spi b p
  = let '(b, low) := Sketch.wait_busy_low b Protocol.BUSY_LIMIT_MS in
    if negb low then Sketch.reply_status b Protocol.SPI Protocol.STATUS_TIMEOUT
    else let '(b, reply) := foldl clock_op (Sketch.act_ b (set_nss false), [Protocol.STATUS_OK]) ops in
         Sketch.send (Sketch.act_ b (set_nss true)) (Z.lor Protocol.SPI Protocol.REPLY) reply.
Proof.
  intros Hwf Hlen D Hw. unfold Sketch.handle_spi. destruct (read_total_decodes p Hwf Hlen) as [-> B]. rewrite D.
  specialize (B ops D). cbv zeta. rewrite (proj2 (Z.ltb_ge (Device.wanted ops) 0)) by lia.
  rewrite (proj2 (Z.ltb_ge Protocol.FRAME_LIMIT _)) by lia. destruct (Sketch.wait_busy_low b _) as [b1 low]. destruct low; [|done].
  cbn [negb]. by rewrite (clock_decodes _ _ ops) by done.
Qed.
Lemma handle_spi_refuses b p : wf_bytes p -> len p <= Protocol.FRAME_LIMIT ->
  (Protocol.decode_operations p = None -> Sketch.handle_spi b p = Sketch.reply_status b Protocol.SPI Protocol.STATUS_BAD_REQUEST)
  /\ (forall ops, Protocol.decode_operations p = Some ops -> Protocol.FRAME_LIMIT < Device.wanted ops + 1 ->
      Sketch.handle_spi b p = Sketch.reply_status b Protocol.SPI Protocol.STATUS_TOO_LONG).
Proof.
  intros Hwf Hlen. unfold Sketch.handle_spi. destruct (read_total_decodes p Hwf Hlen) as [-> B]. split.
  - by intros ->.
  - intros ops D Hw. rewrite D. specialize (B ops D). cbv zeta. rewrite (proj2 (Z.ltb_ge (Device.wanted ops) 0)) by lia.
    by rewrite (proj2 (Z.ltb_lt Protocol.FRAME_LIMIT _)) by lia.
Qed.

Lemma spi_answered b p : wf_bytes p -> len p <= Protocol.FRAME_LIMIT ->
  exists reply, answered b (Sketch.handle_spi b p) (Z.lor Protocol.SPI Protocol.REPLY, reply) /\ len reply <= Protocol.FRAME_LIMIT.
Proof.
  intros Hwf Hlen. destruct (handle_spi_refuses b p Hwf Hlen) as [R1 R2].
  assert (forall st, answered b (Sketch.reply_status b Protocol.SPI st) (Z.lor Protocol.SPI Protocol.REPLY, [st])) as Hst by (intros; by apply answered_send).
  destruct (Protocol.decode_operations p) as [ops|] eqn:D; [|rewrite R1 by done; by eexists; split; [apply Hst|]].
  destruct (Z_lt_ge_dec Protocol.FRAME_LIMIT (Device.wanted ops + 1)) as [Hw|Hw]; [rewrite (R2 ops) by done; by eexists; split; [apply Hst|]|].
  rewrite (handle_spi_eq b p ops) by (done || lia). pose proof (wait_quiet (Sketch.polls Protocol.BUSY_LIMIT_MS) (Sketch.millis b) Protocol.BUSY_LIMIT_MS b) as Q.
  unfold Sketch.wait_busy_low. destruct (Sketch.wait_loop _ _ _ b) as [b1 low]. cbn [fst] in Q.
  destruct low; cbn [negb]; [|eexists; split; [by apply answered_quiet|done]].
  destruct (decode_carried_ops _ _ _ Hwf D) as [Hn Hc].
  destruct (clock_ops ops (Sketch.act_ b1 (set_nss false), [Protocol.STATUS_OK]) Hn Hc) as [Qc Lc].
  destruct (foldl clock_op _ ops) as [b2 reply]. cbn [fst snd] in *. exists reply. split; [|rewrite Lc; change (len [Protocol.STATUS_OK]) with 1; lia].
  apply answered_quiet. eapply quiet_trans; [exact Q|]. eapply quiet_trans; [apply act__quiet, nss_moves|].
  eapply quiet_trans; [exact Qc|]. apply act__quiet, nss_moves.
Qed.

(** A whole request gets exactly one frame in answer. *)
Lemma handle_answered b command p : wf_bytes p -> len p <= Protocol.FRAME_LIMIT ->
  exists f, answered b (Sketch.handle_frame b (command :: p)) f /\ len f.2 <= Protocol.FRAME_LIMIT
    /\ (f.1 = Z.lor command Protocol.REPLY \/ f = (Protocol.EVENT_ERROR, [Protocol.STATUS_UNKNOWN_COMMAND; command])).
Proof.
  intros Hwf Hlen. cbn [Sketch.handle_frame].
  assert (forall b1 c st, quiet b b1 -> exists f, answered b (Sketch.reply_status b1 c st) f /\ len f.2 <= Protocol.FRAME_LIMIT
    /\ (f.1 = Z.lor c Protocol.REPLY \/ f = (Protocol.EVENT_ERROR, [Protocol.STATUS_UNKNOWN_COMMAND; c]))) as Hst.
  { intros b1 c st Q. eexists. split; [by apply answered_quiet|]. split; [done|by left]. }
  assert (quiet b b) as Qb. { destruct (clock_ops [] (b, []) (Forall_nil_2 _) (Forall_nil_2 _)) as [Q _]. exact Q. }
  destruct (Z.eqb_spec command Protocol.HELLO) as [->|_].
  { unfold Sketch.handle_hello. cbv zeta. set (b0 := Sketch.set_latch _ false).
    pose proof (read_quiet b0 busy) as Q1. destruct (Sketch.digital_read b0 busy) as [b1 v1]. cbn [fst] in Q1.
    pose proof (read_quiet b1 dio1) as Q2. destruct (Sketch.digital_read b1 dio1) as [b2 v2]. cbn [fst] in Q2.
    pose proof (quiet_trans _ _ _ Q1 Q2) as [R S E O M L]. eexists. split; [by apply answered_send|]. by split; [|left]. }
  destruct (Z.eqb_spec command Protocol.RESET) as [->|_].
  { unfold Sketch.handle_reset. cbv zeta. set (b0 := Sketch.set_latch _ false).
    pose proof (wait_quiet (Sketch.polls Protocol.BUSY_LIMIT_MS) (Sketch.millis b0) Protocol.BUSY_LIMIT_MS b0) as Q.
    unfold Sketch.wait_busy_low. destruct (Sketch.wait_loop _ _ _ b0) as [b1 low]. destruct Q as [R S E O M L].
    eexists. split; [by apply answered_send|]. by split; [|left]. }
  destruct (Z.eqb_spec command Protocol.BUSY) as [->|_].
  { unfold Sketch.handle_busy. destruct p as [|low [|high [|? ?]]]; try by apply Hst.
    match goal with |- context [Sketch.wait_busy_low b ?l] => pose proof (wait_quiet (Sketch.polls l) (Sketch.millis b) l b) as Q end.
    unfold Sketch.wait_busy_low. destruct (Sketch.wait_loop _ _ _ b) as [b1 v]. by apply Hst. }
  destruct (Z.eqb_spec command Protocol.PINS) as [->|_].
  { unfold Sketch.handle_pins. pose proof (read_quiet b busy) as Q1. destruct (Sketch.digital_read b busy) as [b1 v1]. cbn [fst] in Q1.
    pose proof (read_quiet b1 dio1) as Q2. destruct (Sketch.digital_read b1 dio1) as [b2 v2]. cbn [fst] in Q2.
    eexists. split; [apply answered_quiet; by eapply quiet_trans|]. by split; [|left]. }
  destruct (Z.eqb_spec command Protocol.RF) as [->|_].
  { unfold Sketch.handle_rf. destruct p as [|mode [|? ?]]; try by apply Hst. destruct (_ <? mode); apply Hst; [done|].
    apply act__quiet, rf_moves. }
  destruct (Z.eqb_spec command Protocol.SPI) as [->|_].
  { destruct (spi_answered b p Hwf Hlen) as (reply & A & L). eexists. split; [exact A|]. by split; [|left]. }
  destruct (Z.eqb_spec command Protocol.EVENTS) as [->|_].
  { unfold Sketch.handle_events. destruct p as [|on [|? ?]]; try by apply Hst. cbv zeta. set (b0 := Sketch.set_latch _ false).
    pose proof (read_quiet b0 dio1) as Q1. destruct (Sketch.digital_read b0 dio1) as [b1 v1]. destruct Q1 as [R S E O M L].
    eexists. split; [by apply answered_send|]. by split; [|left]. }
  eexists. split; [by apply answered_send|]. split; [done|by right].
Qed.
End answering.

(** * What the buffers hold *)

Lemma encode_length c p : len (Kiss.encode c p) <= 3 + 2 * len p.
Proof.
  unfold Kiss.encode, len. rewrite !length_cons, length_app. cbn [length].
  enough (Z.of_nat (length (concat (Kiss.escape <$> p))) <= 2 * Z.of_nat (length p)) by lia.
  induction p as [|x p IH]; [done|]. rewrite fmap_cons. cbn [concat]. rewrite length_app, length_cons.
  assert (length (Kiss.escape x) <= 2)%nat by (unfold Kiss.escape; repeat case_match; cbn; lia). lia.
Qed.

Section buffers.
Context `{Lawful W}.
Implicit Types (b : Sketch.t W) (w : W).

Definition frame_holds (f : Z * bytes) : Prop := len f.2 <= Protocol.FRAME_LIMIT.
Definition held_ok (r : Request.t) : Prop := wf_bytes (Request.held r) /\ len (Request.held r) <= Protocol.FRAME_LIMIT.
Definition within b : Prop := held_ok (Sketch.request b) /\ Forall frame_holds (Sketch.sent b).

Lemma request_fits r x : held_ok r -> is_u8 x ->
  held_ok (Request.feed r x).1
  /\ (forall frame, (Request.feed r x).2 = Some (Request.Whole frame) -> frame = Request.held r /\ frame <> []).
Proof.
  intros [Hwf Hl] Hx. unfold Request.feed. assert (held_ok (Request.mk [] true false false)) as Hfresh.
  { split; [by apply Forall_nil_2|]. by vm_compute. }
  destruct (x =? FEND).
  { split; [done|]. intros frame. cbn [snd]. destruct (_ && Request.overflow r); [done|].
    destruct (Request.in_frame r && (0 <? len (Request.held r))) eqn:E; [|done]. intros [= <-]. split; [done|].
    intros N. rewrite N in E. cbn in E. by rewrite andb_false_r in E. }
  destruct (negb (Request.in_frame r)); [done|]. destruct (negb (Request.escaped r) && (x =? FESC)); [done|]. cbv zeta.
  destruct (Z.leb_spec Protocol.FRAME_LIMIT (len (Request.held r))); [done|]. split; [|done]. split; cbn [Request.held fst].
  - apply Forall_app. split; [done|]. apply Forall_singleton. destruct (Request.escaped r); [|done].
    destruct (x =? TFEND); [done|]. by destruct (x =? TFESC).
  - unfold len in *. rewrite length_app. cbn [length]. lia.
Qed.
Lemma feed_within b x : is_u8 x -> within b -> within (Sketch.feed b x).
Proof.
  intros Hx [Hr Hs]. unfold Sketch.feed. destruct (request_fits _ x Hr Hx) as [Hr' Hw].
  destruct (Request.feed (Sketch.request b) x) as [r e]. cbn [fst snd] in *.
  destruct e as [[frame|command]|]; [|split; [done|apply Forall_app; split; [done|by apply Forall_singleton]]|done].
  destruct (Hw frame eq_refl) as [-> Hne]. destruct Hr as [Hwf Hl].
  destruct (Request.held (Sketch.request b)) as [|c p] eqn:Hh; [done|].
  apply Forall_cons in Hwf as [_ Hwf].
  destruct (handle_answered (Sketch.set_request b r) c p Hwf) as (f & (S & R & _) & Hf & _).
  { unfold len in *. cbn [length] in Hl. lia. }
  split; [by rewrite R|]. rewrite S. apply Forall_app. split; [done|]. by apply Forall_singleton.
Qed.
Lemma loop_within b available : wf_bytes available -> within b -> within (Sketch.loop b available).
Proof.
  intros Hwf Hb. unfold Sketch.loop. assert (within (foldl Sketch.feed b available)) as Hf.
  { revert b Hb. induction Hwf as [|x xs Hx Hxs IH]; intros b Hb; [done|]. cbn [foldl]. apply IH. by apply feed_within. }
  set (b1 := foldl _ _ _) in *. destruct (act__quiet b1 (pass 0) (pass_moves _ _)) as [R _ _ S _ _].
  assert (within (Sketch.act_ b1 (pass 0))) as Hb2. { unfold within. by rewrite R, S. }
  clear Hf. set (b2 := Sketch.act_ b1 (pass 0)) in *. unfold Sketch.announce. destruct (Sketch.events_on b2 && _); [|done].
  pose proof (read_quiet (Sketch.set_latch b2 false) dio1) as [R' _ _ S' _ _].
  destruct (Sketch.digital_read _ dio1) as [b3 v]. cbn [fst] in *. destruct Hb2 as [Hr Hs]. split; cbn [Sketch.send Sketch.request Sketch.sent].
  - by rewrite R'.
  - rewrite S'. apply Forall_app. split; [done|]. by apply Forall_singleton.
Qed.

(** C38: The board's memory is safe whatever the host sends: over any number of turns of the
    loop, on any pins and an SPI host that fills the buffer it is given, a request never outgrows [request], a reply never outgrows [reply], and no frame
    encoded outgrows [encoded]. *)
Theorem firmware_buffers_hold (drawn : Z) (w : W) (turns : list bytes) : Forall wf_bytes turns ->
  let b := foldl Sketch.loop (Sketch.setup drawn w) turns in
  len (Request.held (Sketch.request b)) <= Protocol.FRAME_LIMIT
  /\ Forall (fun f => len f.2 <= Protocol.FRAME_LIMIT /\ len (Kiss.encode f.1 f.2) <= 2 * Protocol.FRAME_LIMIT + 4) (Sketch.sent b).
Proof.
  intros Hwf b. assert (within b) as [[_ Hr] Hs].
  { unfold b. assert (within (Sketch.setup drawn w)) as Hb.
    { split; [split; [by apply Forall_nil_2|by vm_compute]|by apply Forall_nil_2]. }
    revert Hb. generalize (Sketch.setup drawn w). clear b. induction Hwf as [|t ts Ht Hts IH]; intros b Hb; [done|].
    cbn [foldl]. apply IH. by apply loop_within. }
  split; [done|]. eapply Forall_impl; [exact Hs|]. intros f Hf. split; [done|]. unfold frame_holds in Hf.
  pose proof (encode_length f.1 f.2). lia.
Qed.
End buffers.

(** * The latch *)

Section latch.
Context `{Lawful W}.
Implicit Types (b : Sketch.t W) (w : W).

(** The level of DIO1 the host was told last. *)
Definition level_of (f : Z * bytes) : option Z :=
  if f.1 =? Z.lor Protocol.HELLO Protocol.REPLY then f.2 !! 9%nat
  else if f.1 =? Z.lor Protocol.PINS Protocol.REPLY then f.2 !! 1%nat
  else if (f.1 =? Protocol.EVENT_DIO1) || (f.1 =? Z.lor Protocol.EVENTS Protocol.REPLY) then f.2 !! 0%nat
  else None.
Definition heard (told : Z) (f : Z * bytes) : Z :=
  match level_of f with Some 0 => 0 | Some 1 => 1 | _ => told end.
Definition told b : Z := foldl heard 0 (Sketch.sent b).
(** While the line is high, the host was told so or is about to be. *)
Definition attentive b : Prop := dio1 (Sketch.wires b) = true -> Sketch.dio1_rose b = true \/ told b = 1.

Lemma told_send b c p : told (Sketch.send b c p) = heard (told b) (c, p).
Proof. unfold told, Sketch.send. cbn. by rewrite foldl_app. Qed.
Lemma quiet_attentive b b' : quiet b b' -> attentive b -> attentive b'.
Proof.
  intros [R S E O [M1 M2] L] I Hi. unfold told in *. rewrite O, L.
  destruct (dio1 (Sketch.wires b)) eqn:Hb; [destruct (I Hb) as [->|T]; [by left|by right]|].
  left. specialize (M2 eq_refl Hi). apply orb_true_iff. right. by apply Z.ltb_lt.
Qed.
(** An answer that speaks of no level. *)
Lemma silent_attentive b c p : level_of (c, p) = None \/ (exists st, p = [st] /\ 2 <= st) -> attentive b -> attentive (Sketch.send b c p).
Proof.
  intros Hl I Hi. rewrite told_send. cbn. destruct (I Hi) as [T|T]; [by left|right]. unfold heard.
  destruct Hl as [->|(st & -> & Hst)]; [done|]. rewrite T. unfold level_of. cbn [fst snd lookup list_lookup].
  repeat case_match; try done; simplify_eq; lia.
Qed.
(** An answer that tells what was just read. *)
Lemma telling_attentive b b1 (level : bool) c p : let '(b', v) := Sketch.digital_read b dio1 in
  b' = b1 -> v = level -> level_of (c, p) = Some (Sketch.level level) -> attentive (Sketch.send b1 c p).
Proof.
  pose proof (read_dio1 b) as R. destruct (Sketch.digital_read b dio1) as [b' v]. destruct R as [Q R].
  intros -> -> Hl Hi. rewrite told_send. unfold heard. rewrite Hl. cbn in *. destruct level; [by right|left]. by apply R.
Qed.
Lemma status_attentive b command st : level_of (Z.lor command Protocol.REPLY, [st]) = None \/ 2 <= st ->
  attentive b -> attentive (Sketch.reply_status b command st).
Proof. intros Hl. apply silent_attentive. destruct Hl; [by left|right; by exists st]. Qed.

Lemma spi_attentive b p : attentive b -> wf_bytes p -> len p <= Protocol.FRAME_LIMIT -> attentive (Sketch.handle_spi b p).
Proof.
  intros I Hwf Hlen. destruct (handle_spi_refuses b p Hwf Hlen) as [R1 R2].
  destruct (Protocol.decode_operations p) as [ops|] eqn:D; [|rewrite R1 by done; apply status_attentive; [by left|done]].
  destruct (Z_lt_ge_dec Protocol.FRAME_LIMIT (Device.wanted ops + 1)) as [Hw|Hw].
  { rewrite (R2 ops) by done. apply status_attentive; [by left|done]. }
  rewrite (handle_spi_eq b p ops) by (done || lia). pose proof (wait_quiet (Sketch.polls Protocol.BUSY_LIMIT_MS) (Sketch.millis b) Protocol.BUSY_LIMIT_MS b) as Q.
  unfold Sketch.wait_busy_low. destruct (Sketch.wait_loop _ _ _ b) as [b1 low]. cbn [fst] in Q. apply (quiet_attentive _ _ Q) in I.
  destruct low; cbn [negb]; [|apply status_attentive; [by left|done]].
  destruct (decode_carried_ops _ _ _ Hwf D) as [Hn Hc].
  destruct (clock_ops ops (Sketch.act_ b1 (set_nss false), [Protocol.STATUS_OK]) Hn Hc) as [Qc _].
  destruct (foldl clock_op _ ops) as [b2 reply]. cbn [fst snd] in *. apply silent_attentive; [by left|].
  apply (quiet_attentive b2); [apply act__quiet, nss_moves|]. apply (quiet_attentive _ _ Qc).
  apply (quiet_attentive b1); [apply act__quiet, nss_moves|done].
Qed.
Lemma frame_attentive b frame : attentive b -> wf_bytes frame -> len frame <= Protocol.FRAME_LIMIT ->
  attentive (Sketch.handle_frame b frame).
Proof.
  intros I Hwf Hlen. destruct frame as [|command p]; [done|]. apply Forall_cons in Hwf as [_ Hwf].
  assert (len p <= Protocol.FRAME_LIMIT) as Hp by (unfold len in *; cbn [length] in Hlen; lia). cbn [Sketch.handle_frame].
  destruct (Z.eqb_spec command Protocol.HELLO) as [->|_].
  { unfold Sketch.handle_hello. cbv zeta. destruct (Sketch.digital_read _ busy) as [b1 v1].
    pose proof (telling_attentive b1) as T. destruct (Sketch.digital_read b1 dio1) as [b2 v2]. by apply (T b2 v2). }
  destruct (Z.eqb_spec command Protocol.RESET) as [->|_].
  { unfold Sketch.handle_reset. cbv zeta. set (b0 := Sketch.act_ _ (pass 5000)).
    assert (attentive (Sketch.set_latch b0 false)) as I0 by (intros Hi; cbn in Hi; by rewrite reset_lowers in Hi).
    set (b1 := Sketch.set_latch b0 false) in *.
    pose proof (wait_quiet (Sketch.polls Protocol.BUSY_LIMIT_MS) (Sketch.millis b1) Protocol.BUSY_LIMIT_MS b1) as Q.
    unfold Sketch.wait_busy_low. destruct (Sketch.wait_loop _ _ _ b1) as [b2 low]. apply status_attentive; [by left|].
    by apply (quiet_attentive _ _ Q). }
  destruct (Z.eqb_spec command Protocol.BUSY) as [->|_].
  { unfold Sketch.handle_busy. destruct p as [|low [|high [|? ?]]]; try (apply status_attentive; [by left|done]).
    match goal with |- context [Sketch.wait_busy_low b ?l] => pose proof (wait_quiet (Sketch.polls l) (Sketch.millis b) l b) as Q end.
    unfold Sketch.wait_busy_low. destruct (Sketch.wait_loop _ _ _ b) as [b1 v]. apply status_attentive; [by left|].
    by apply (quiet_attentive _ _ Q). }
  destruct (Z.eqb_spec command Protocol.PINS) as [->|_].
  { unfold Sketch.handle_pins. destruct (Sketch.digital_read _ busy) as [b1 v1].
    pose proof (telling_attentive b1) as T. destruct (Sketch.digital_read b1 dio1) as [b2 v2]. by apply (T b2 v2). }
  destruct (Z.eqb_spec command Protocol.RF) as [->|_].
  { unfold Sketch.handle_rf. destruct p as [|mode [|? ?]]; try (apply status_attentive; [by left|done]).
    destruct (_ <? mode); (apply status_attentive; [by left|]); [done|]. apply (quiet_attentive b); [apply act__quiet, rf_moves|done]. }
  destruct (Z.eqb_spec command Protocol.SPI) as [->|_]; [by apply spi_attentive|].
  destruct (Z.eqb_spec command Protocol.EVENTS) as [->|_].
  { unfold Sketch.handle_events. destruct p as [|on [|? ?]]; try (apply status_attentive; [by right|done]). cbv zeta.
    set (b0 := Sketch.set_latch _ false). pose proof (telling_attentive b0) as T. destruct (Sketch.digital_read b0 dio1) as [b1 v1]. by apply (T b1 v1). }
  apply silent_attentive; [by left|done].
Qed.
Lemma feed_attentive b x : is_u8 x -> within b -> attentive b -> attentive (Sketch.feed b x).
Proof.
  intros Hx [Hr _] I. unfold Sketch.feed. destruct (request_fits _ x Hr Hx) as [_ Hw].
  destruct (Request.feed (Sketch.request b) x) as [r e]. cbn [fst snd] in *.
  destruct e as [[frame|command]|]; [|by apply silent_attentive; [left|]|done].
  destruct (Hw frame eq_refl) as [-> _]. destruct Hr as [Hwf Hl]. by apply frame_attentive.
Qed.
Lemma feeds_attentive b xs : wf_bytes xs -> within b -> attentive b -> attentive (foldl Sketch.feed b xs) /\ within (foldl Sketch.feed b xs).
Proof.
  intros Hwf. revert b. induction Hwf as [|x xs Hx Hxs IH]; intros b Hb I; [done|]. cbn [foldl].
  apply IH; [by apply feed_within|by apply feed_attentive].
Qed.
Lemma loop_attentive b available : wf_bytes available -> within b -> attentive b -> attentive (Sketch.loop b available).
Proof.
  intros Hwf Hb I. unfold Sketch.loop. destruct (feeds_attentive b available Hwf Hb I) as [If _].
  set (b1 := foldl _ _ _) in *. apply (quiet_attentive b1 (Sketch.act_ b1 (pass 0))) in If; [|apply act__quiet, pass_moves].
  set (b2 := Sketch.act_ b1 (pass 0)) in *. unfold Sketch.announce. destruct (Sketch.events_on b2 && _); [|done].
  pose proof (telling_attentive (Sketch.set_latch b2 false)) as T. destruct (Sketch.digital_read _ dio1) as [b3 v]. by apply (T b3 v).
Qed.

(** No rise of DIO1 is lost between the clearing of the latch and the reading of the line,
    whatever the host asks for and whenever the line moves: at the end of every turn of the
    loop a line that is high has been told to the host, in the last level it was given, or
    is latched, and then, with events on, the next turn tells it. *)
Theorem no_rise_is_lost (drawn : Z) (w : W) (turns : list bytes) : dio1 (Sketch.begin w) = false -> Forall wf_bytes turns ->
  let b := foldl Sketch.loop (Sketch.setup drawn w) turns in
  (dio1 (Sketch.wires b) = true -> told b = 1 \/ Sketch.dio1_rose b = true)
  /\ (Sketch.events_on b = true -> Sketch.dio1_rose b = true ->
      exists level, Sketch.sent (Sketch.loop b []) = Sketch.sent b ++ [(Protocol.EVENT_DIO1, [Sketch.level level])]
        /\ (level = false -> dio1 (Sketch.wires (Sketch.loop b [])) = true -> Sketch.dio1_rose (Sketch.loop b []) = true)).
Proof.
  intros Hlow Hwf b. split.
  - assert (attentive b) as I.
    { unfold b. assert (within (Sketch.setup drawn w)) as Hb.
      { split; [split; [by apply Forall_nil_2|by vm_compute]|by apply Forall_nil_2]. }
      assert (attentive (Sketch.setup drawn w)) as Hi by (intros Hi; cbn in Hi; congruence).
      revert Hb Hi. generalize (Sketch.setup drawn w). clear b. induction Hwf as [|t ts Ht Hts IH]; intros b Hb Hi; [done|].
      cbn [foldl]. apply IH; [by apply loop_within|by apply loop_attentive]. }
    intros Hi. destruct (I Hi); [by right|by left].
  - clearbody b. intros On Rose. unfold Sketch.loop. cbn [foldl].
    destruct (act__quiet b (pass 0) (pass_moves _ _)) as [R S E O M L]. rewrite Rose in L. cbn [orb] in L.
    unfold Sketch.announce. rewrite E, L, On. cbn [andb].
    set (b2 := Sketch.set_latch _ false) in *. pose proof (read_dio1 b2) as T. destruct (Sketch.digital_read b2 dio1) as [b3 level].
    destruct T as [[_ _ _ O3 _ _] T]. exists level. split; [|exact T]. assert (Sketch.sent b2 = Sketch.sent b) as O2 by exact O. cbn. by rewrite O3, O2.
Qed.
End latch.

(** * The wait for BUSY *)

Lemma millis_apart m0 m limit : 0 <= m0 <= m -> m - m0 < 2 ^ 41 -> 0 <= limit ->
  ((m / 1000) mod 2 ^ 32 - (m0 / 1000) mod 2 ^ 32) mod 2 ^ 32 <= limit -> m - m0 < 1000 * (limit + 1).
Proof.
  intros Hm Hd Hl. rewrite <- Zminus_mod. rewrite Z.mod_small; [Z.to_euclidean_division_equations; lia|].
  split; [Z.to_euclidean_division_equations; lia|]. Z.to_euclidean_division_equations. lia.
Qed.

Section waiting.
Context `{Lawful W}.
(** The clock counts from the boot, and a delay oversleeps by a second at most. *)
Hypothesis from_boot : forall w : W, 0 <= micros w.
Hypothesis oversleeps : forall us (w : W), micros (pass us w) <= micros w + us + 1000000.
Implicit Types b : Sketch.t W.

Notation clock b := (micros (Sketch.wires b)).
Lemma read_clock b pin : clock b <= clock (Sketch.digital_read b pin).1 <= clock b + 2000000.
Proof.
  unfold Sketch.digital_read, Sketch.act. cbn. pose proof (pass_takes 0 (Sketch.wires b)). pose proof (pass_takes 0 (pass 0 (Sketch.wires b))).
  pose proof (oversleeps 0 (Sketch.wires b)). pose proof (oversleeps 0 (pass 0 (Sketch.wires b))). lia.
Qed.
Lemma wait_loop_limit m0 limit fuel b : 0 <= m0 <= clock b -> 0 <= limit <= 65535 ->
  clock b < m0 + 1000 * (limit + 1) + 2000000 -> m0 + 1000 * (limit + 1) <= clock b + 50 * Z.of_nat fuel ->
  let '(b', low) := Sketch.wait_loop fuel ((m0 / 1000) mod 2 ^ 32) limit b in
  low = false -> limit < (Sketch.millis b' - (m0 / 1000) mod 2 ^ 32) mod 2 ^ 32.
Proof.
  intros Hm Hl. revert b Hm. induction fuel as [|fuel IH]; intros b Hm Hc Hf; cbn [Sketch.wait_loop];
    pose proof (read_clock b busy) as Q; destruct (Sketch.digital_read b busy) as [b1 high]; cbn [fst] in Q; destruct high; cbn [negb]; try done;
    (destruct (Z.ltb_spec limit ((Sketch.millis b1 - (m0 / 1000) mod 2 ^ 32) mod 2 ^ 32)) as [|Hlim]; [done|]);
    (apply millis_apart in Hlim; [|lia|change (2 ^ 41) with 2199023255552; lia|lia]).
  - intros _. lia.
  - pose proof (pass_takes 50 (Sketch.wires b1)) as T. pose proof (oversleeps 50 (Sketch.wires b1)) as O.
    apply IH; cbn; lia.
Qed.
(** The wait gives up only once its limit has passed, and it does end: twenty polls a
    millisecond are enough. *)
Theorem wait_keeps_to_its_limit b (limit_ms : Z) : 0 <= limit_ms <= 65535 ->
  let '(b', low) := Sketch.wait_busy_low b limit_ms in
  low = false -> limit_ms < (Sketch.millis b' - Sketch.millis b) mod 2 ^ 32.
Proof.
  intros Hl. apply (wait_loop_limit (clock b)); [pose proof (from_boot (Sketch.wires b)); lia|done|lia|].
  unfold Sketch.polls. lia.
Qed.
End waiting.
