(* ===== verification/FirmwareBench.v ===== *)
(** The firmware of the bridge's board on the virtual chip: [Bench] puts bus.rs's chip behind
    the board's pins, and the board then answers, byte for byte, as the reference device of
    bridge.rs does on the same chip (src/firmware/bridge/bridge.ino,
    src/src/infrastructure/sx126x/bridge.rs). *)
From S2P Require Import Prelude RNode Hub Chip ChipProofs Bridge BridgeProofs Firmware FirmwareProofs.

(** * The bench *)

(** The chip, the clock in nanoseconds, how often DIO1 has risen, and the transaction in
    progress: what was written since NSS fell, when that was, and what is left of the
    answer once it has run. *)
Module Bench.
Record t := mk {
  chip : Chip.t;
  now : Z;
  rises : Z;
  command : bytes;
  selected : Z;
  answer : option bytes;
}.
Definition at_ (w : t) (now : Z) : t := mk (chip w) now (rises w) (command w) (selected w) (answer w).
Definition become (w : t) (c : Chip.t) : t :=
  mk c (now w) (if negb (Chip.irq_pending (chip w)) && Chip.irq_pending c then rises w + 1 else rises w)
    (command w) (selected w) (answer w).
Definition busy (w : t) : bool := now w <? default 0 (Chip.wait_on_busy_until (chip w)).

Section wires.
Context `{LoraModulation}.
(** A statement takes [tick] nanoseconds. *)
Variable tick : Z.
Definition pass (us : Z) (w : t) : t := at_ w (now w + us * 1000 + tick).
Definition select (low : bool) (w : t) : t :=
  if low then mk (chip w) (now w) (rises w) [] (now w) None else w.
(** The command runs when its answer is first asked for, or at the latest when NSS rises. *)
Definition ran (w : t) : t :=
  match answer w with
  | Some _ => w
  | None =>
      let '(c, reply) := VirtualSpi.run_command (chip w) (selected w) (command w) in
      let w := become w c in mk (chip w) (now w) (rises w) (command w) (selected w) (Some reply)
  end.
Definition write (bs : bytes) (w : t) : t :=
  mk (chip w) (now w) (rises w) (command w ++ bs) (selected w) (answer w).
Definition transfer (bs : bytes) (w : t) : t * bytes :=
  let w := ran w in
  let reply := default [] (answer w) in
  (mk (chip w) (now w) (rises w) (command w) (selected w) (Some (drop (length bs) reply)),
   VirtualSpi.next_bytes (length bs) reply).
Definition wired : Wires t := {|
  Firmware.busy := busy;
  dio1 w := Chip.irq_pending (chip w);
  edges := rises;
  Firmware.micros w := now w / 1000;
  Firmware.pass := pass;
  set_nreset on w := if on then become w (Chip.reset (chip w)) else w;
  set_nss high w := if high then ran w else select true w;
  spi_write := write;
  spi_transfer := transfer;
  rf_switch _ w := w;
  board_id := Protocol.BOARD_VIRTUAL;
|}.
End wires.
End Bench.

Section bench.
Context `{LoraModulation}.
Variable tick : Z.
Hypothesis tick_bound : 0 <= tick <= 500000.
#[local] Instance bench_wires : Wires Bench.t := Bench.wired tick.
Implicit Types (w : Bench.t) (b : Sketch.t Bench.t) (d : Device.t).

Lemma still_moves w w' : Bench.chip w' = Bench.chip w -> Bench.rises w' = Bench.rises w -> moves w w'.
Proof. unfold moves. cbn. intros -> ->. split; [lia|congruence]. Qed.
Lemma become_moves w w' c : Bench.chip w' = c -> Bench.rises w' = Bench.rises (Bench.become w c) -> moves w w'.
Proof.
  unfold moves. cbn. intros -> ->. destruct (Chip.irq_pending (Bench.chip w)), (Chip.irq_pending c); cbn; split; lia || done.
Qed.
Lemma ran_moves w : moves w (Bench.ran w).
Proof.
  unfold Bench.ran. destruct (Bench.answer w); [by apply still_moves|].
  destruct (VirtualSpi.run_command _ _ _) as [c reply]. by apply (become_moves _ _ c).
Qed.
#[local] Instance bench_lawful : Lawful Bench.t.
Proof.
  split; intros; cbn [Firmware.pass set_nreset set_nss spi_write spi_transfer rf_switch bench_wires Bench.wired].
  - by apply still_moves.
  - destruct on; [by eapply become_moves|by apply still_moves].
  - destruct on; [apply ran_moves|by apply still_moves].
  - by apply still_moves.
  - pose proof (ran_moves w) as M. unfold Bench.transfer. cbn [fst]. exact M.
  - by apply still_moves.
  - apply length_next_bytes.
  - done.
  - cbn. Z.to_euclidean_division_equations. lia.
Qed.

(** * The chip's BUSY *)

(** A command keeps the chip busy for [BUSY] from its start, and nothing else does. *)
Definition settled w : Prop :=
  0 <= Bench.now w /\ default 0 (Chip.wait_on_busy_until (Bench.chip w)) <= Bench.now w + BUSY.
Lemma execute_busy (c : Chip.t) now opcode params :
  let c' := (Chip.execute c now opcode params).1 in
  Chip.wait_on_busy_until c' = Some (now + BUSY) \/ Chip.wait_on_busy_until c' = Chip.wait_on_busy_until c.
Proof.
  unfold Chip.execute. cbv zeta. set (m := if decide (Model.mode (Chip.model c) = Sleep) then _ else _).
  assert (Model.busy_until m = Model.busy_until (Chip.model c)) as Hm by (unfold m; by destruct (decide _)).
  clearbody m. destruct (opcode =? OP_SET_SLEEP) eqn:E.
  - apply Z.eqb_eq in E. subst opcode. right. exact Hm.
  - left. match goal with |- context [if Chip.reads opcode then ?a else ?e] => destruct (if Chip.reads opcode then a else e) as [[[c1 m1] t1] r1] end.
    by destruct t1.
Qed.
Lemma run_command_busy (c : Chip.t) now command :
  let c' := (VirtualSpi.run_command c now command).1 in
  Chip.wait_on_busy_until c' = Some (now + BUSY) \/ Chip.wait_on_busy_until c' = Chip.wait_on_busy_until c.
Proof. destruct command as [|opcode params]; [by right|]. apply execute_busy. Qed.

(** Only the clock has moved. *)
Definition later b b' : Prop :=
  Bench.now (Sketch.wires b) <= Bench.now (Sketch.wires b') /\ Sketch.wires b' = Bench.at_ (Sketch.wires b) (Bench.now (Sketch.wires b')).
Lemma later_trans b1 b2 b3 : later b1 b2 -> later b2 b3 -> later b1 b3.
Proof. intros [L1 E1] [L2 E2]. split; [lia|]. rewrite E2 at 1. rewrite E1. done. Qed.
Lemma act_pass_later b us : 0 <= us -> later b (Sketch.act_ b (pass us)) /\ Bench.now (Sketch.wires (Sketch.act_ b (pass us))) = Bench.now (Sketch.wires b) + us * 1000 + tick.
Proof. intros Hus. split; [split; [cbn; lia|done]|done]. Qed.
Lemma read_later b pin : let '(b', v) := Sketch.digital_read b pin in
  later b b' /\ Bench.now (Sketch.wires b') = Bench.now (Sketch.wires b) + 2 * tick
  /\ v = pin (Bench.at_ (Sketch.wires b) (Bench.now (Sketch.wires b) + tick)).
Proof. cbn. unfold later, Bench.pass, Bench.at_. cbn. split_and!; [lia|done|lia|]. do 2 f_equal. lia. Qed.

Lemma millis_within m0 m limit : 1 <= limit -> m0 <= m -> m - m0 <= 1000000 ->
  (((m / 1000) / 1000) mod 2 ^ 32 - ((m0 / 1000) / 1000) mod 2 ^ 32) mod 2 ^ 32 <= limit.
Proof.
  intros Hl Hm Hd. rewrite <- Zminus_mod. rewrite !Z.div_div by lia. change (1000 * 1000) with 1000000.
  rewrite Z.mod_small; Z.to_euclidean_division_equations; lia.
Qed.
(** The wait ends with BUSY low, well inside any limit. *)
Lemma wait_loop_bench fuel n0 limit b : 1 <= limit ->
  let until := default 0 (Chip.wait_on_busy_until (Bench.chip (Sketch.wires b))) in
  n0 <= Bench.now (Sketch.wires b) -> until <= n0 + BUSY -> until <= Bench.now (Sketch.wires b) + 50000 * Z.of_nat fuel ->
  let '(b', low) := Sketch.wait_loop fuel ((n0 / 1000 / 1000) mod 2 ^ 32) limit b in
  low = true /\ later b b' /\ until <= Bench.now (Sketch.wires b').
Proof.
  intros Hl. revert b. induction fuel as [|fuel IH]; intros b until Hn Hu Hf; cbn [Sketch.wait_loop];
    pose proof (read_later b Firmware.busy) as R; destruct (Sketch.digital_read b Firmware.busy) as [b1 high]; destruct R as (L & N & ->);
    destruct (Firmware.busy _) eqn:B; cbn [negb]; try (apply Z.ltb_ge in B; cbn [Bench.now Bench.at_ Bench.chip] in B; split_and!; [done|done|fold until in B; lia]);
    apply Z.ltb_lt in B; cbn [Bench.now Bench.at_ Bench.chip] in B; fold until in B; [lia|].
  assert (BUSY = 100000) as HB by done. rewrite HB in *.
  assert (limit <? (Sketch.millis b1 - (n0 / 1000 / 1000) mod 2 ^ 32) mod 2 ^ 32 = false) as ->.
  { apply Z.ltb_ge. unfold Sketch.millis. cbn [Firmware.micros bench_wires Bench.wired]. apply millis_within; lia. }
  destruct (act_pass_later b1 50 ltac:(lia)) as [L2 N2]. pose proof (IH (Sketch.act_ b1 (pass 50))) as IH'.
  destruct L as [Le Eb]. assert (Bench.chip (Sketch.wires (Sketch.act_ b1 (pass 50))) = Bench.chip (Sketch.wires b)) as Ec by (cbn; by rewrite Eb).
  rewrite Ec in IH'. fold until in IH'. cbv zeta in IH'. specialize (IH' ltac:(lia) ltac:(rewrite ?HB; lia) ltac:(lia)).
  destruct (Sketch.wait_loop fuel _ limit _) as [b' low]. destruct IH' as (-> & L' & U). split_and!; [done| |done].
  eapply later_trans; [split; [exact Le|exact Eb]|]. by eapply later_trans.
Qed.
Lemma wait_bench b limit : 1 <= limit -> settled (Sketch.wires b) ->
  let '(b', low) := Sketch.wait_busy_low b limit in
  low = true /\ later b b' /\ default 0 (Chip.wait_on_busy_until (Bench.chip (Sketch.wires b))) <= Bench.now (Sketch.wires b').
Proof.
  intros Hl [_ S]. apply (wait_loop_bench (Sketch.polls limit) (Bench.now (Sketch.wires b))); [done|lia|done|].
  assert (BUSY = 100000) as HB by done. rewrite HB in *. unfold Sketch.polls. lia.
Qed.

(** * A transaction *)

(** What is written goes before what is read, as every command of the chip has it. *)
Fixpoint ordered (reading : bool) (ops : list Protocol.Op) : bool :=
  match ops with
  | [] => true
  | o :: ops =>
      if Protocol.kind o =? Protocol.OP_WRITE then negb reading && ordered reading ops
      else if Protocol.kind o =? Protocol.OP_READ then ordered true ops
      else (Protocol.kind o =? Protocol.OP_DELAY) && ordered reading ops
  end.
Lemma ordered_reads ops : ordered true ops = true -> Forall carried ops -> concat (Protocol.op_bytes <$> ops) = [].
Proof.
  induction ops as [|o ops IH]; [done|]. intros Ho Hc. apply Forall_cons in Hc as [Hc Hcs]. rewrite fmap_cons. cbn [concat ordered] in *.
  unfold carried in Hc. destruct (Z.eqb_spec (Protocol.kind o) Protocol.OP_WRITE) as [|_]; [done|]. cbn [orb] in Hc.
  destruct (Z.eqb_spec (Protocol.kind o) Protocol.OP_READ) as [E|_].
  - rewrite E in Hc. cbn in Hc. rewrite Hc. by apply IH.
  - apply andb_true_iff in Ho as [E Ho]. apply Z.eqb_eq in E. rewrite E in Hc. cbn in Hc. rewrite Hc. by apply IH.
Qed.


Lemma read_step s o c a : Protocol.kind o = Protocol.OP_READ -> let w := Sketch.wires s.1 in
  match Bench.answer w with
  | Some a' => a' = a /\ Bench.chip w = c
  | None => VirtualSpi.run_command (Bench.chip w) (Bench.selected w) (Bench.command w) = (c, a)
  end ->
  let n := Z.to_nat (Protocol.op_length o) in
  exists b', clock_op s o = (b', s.2 ++ VirtualSpi.next_bytes n a) /\ Bench.answer (Sketch.wires b') = Some (drop n a)
    /\ Bench.chip (Sketch.wires b') = c /\ Bench.now (Sketch.wires b') = Bench.now w.
Proof.
  intros E w Hw n. unfold clock_op. rewrite E. cbn -[VirtualSpi.next_bytes drop Z.to_nat]. unfold Bench.transfer, Bench.ran. fold w n.
  destruct (Bench.answer w) as [a'|] eqn:A; [destruct Hw as [-> <-]; rewrite A|rewrite Hw; cbn [Bench.answer]];
    cbn [Bench.chip Bench.now default]; rewrite length_replicate; eexists; (split_and!; [done|by cbn..]).
Qed.
Lemma delay_step s o : Protocol.kind o = Protocol.OP_DELAY -> 0 <= Protocol.op_length o ->
  exists b', clock_op s o = (b', s.2) /\ later s.1 b'.
Proof.
  intros E Hn. exists (Sketch.act_ s.1 (pass (Protocol.op_length o))). split; [unfold clock_op; by rewrite E|].
  by apply act_pass_later.
Qed.

Lemma clock_reads ops s a : ordered true ops = true -> Forall (fun o => 0 <= Protocol.op_length o) ops ->
  Bench.answer (Sketch.wires s.1) = Some a ->
  let s' := foldl clock_op s ops in
  s'.2 = s.2 ++ Device.reply_bytes ops a /\ Bench.chip (Bench.ran (Sketch.wires s'.1)) = Bench.chip (Sketch.wires s.1)
  /\ Bench.now (Sketch.wires s.1) <= Bench.now (Sketch.wires s'.1).
Proof.
  revert s a. induction ops as [|o ops IH]; intros s a Ho Hn Ha; cbn [foldl Device.reply_bytes ordered] in *.
  { rewrite app_nil_r. split_and!; [done| |lia]. unfold Bench.ran. by rewrite Ha. }
  apply Forall_cons in Hn as [Hn Hns].
  unfold Device.returns_bytes. destruct (Z.eqb_spec (Protocol.kind o) Protocol.OP_WRITE) as [|Nw]; [done|].
  destruct (Z.eqb_spec (Protocol.kind o) Protocol.OP_READ) as [E|Nr]; cbn [orb].
  - destruct (read_step s o (Bench.chip (Sketch.wires s.1)) a E) as (b' & -> & A & C & N); [by rewrite Ha|].
    destruct (IH (b', s.2 ++ VirtualSpi.next_bytes (Z.to_nat (Protocol.op_length o)) a) _ Ho Hns A) as (R & C' & N').
    cbn [fst snd] in *. rewrite R, C', C, <- app_assoc. split_and!; [done|done|lia].
  - apply andb_true_iff in Ho as [E Ho]. apply Z.eqb_eq in E. destruct (delay_step s o E Hn) as (b' & -> & [L Eb]). rewrite E.
    change (Protocol.OP_DELAY =? Protocol.OP_TRANSFER) with false. cbv iota.
    destruct (IH (b', s.2) a Ho Hns) as (R & C & N); [cbn [fst]; by rewrite Eb|]. cbn [fst snd] in *. rewrite R, C.
    split_and!; [done|by rewrite Eb|lia].
Qed.
(** The whole transaction: the chip runs what was written, once, at the instant NSS fell. *)
Lemma clock_bench ops s c a : ordered false ops = true -> Forall carried ops -> Forall (fun o => 0 <= Protocol.op_length o) ops ->
  let w := Sketch.wires s.1 in
  Bench.answer w = None ->
  VirtualSpi.run_command (Bench.chip w) (Bench.selected w) (Bench.command w ++ concat (Protocol.op_bytes <$> ops)) = (c, a) ->
  let s' := foldl clock_op s ops in
  s'.2 = s.2 ++ Device.reply_bytes ops a /\ Bench.chip (Bench.ran (Sketch.wires s'.1)) = c
  /\ Bench.now w <= Bench.now (Sketch.wires s'.1).
Proof.
  revert s. induction ops as [|o ops IH]; intros s Ho Hc Hn w Ha Hr; cbn [foldl Device.reply_bytes ordered] in *.
  { cbn [fmap list_fmap concat] in Hr. rewrite app_nil_r in *. split_and!; [done| |apply Z.le_refl]. unfold Bench.ran. fold w. by rewrite Ha, Hr. }
  apply Forall_cons in Hn as [Hn Hns]. apply Forall_cons in Hc as [Hc Hcs]. rewrite fmap_cons in Hr. cbn [concat] in Hr.
  unfold Device.returns_bytes. unfold carried in Hc. destruct (Z.eqb_spec (Protocol.kind o) Protocol.OP_WRITE) as [E|Nw].
  - rewrite E. change (Protocol.OP_WRITE =? Protocol.OP_READ) with false. change (Protocol.OP_WRITE =? Protocol.OP_TRANSFER) with false.
    cbn [orb]. assert (clock_op s o = (Sketch.act_ s.1 (spi_write (Protocol.op_bytes o)), s.2)) as -> by (unfold clock_op; by rewrite E).
    destruct (IH (Sketch.act_ s.1 (spi_write (Protocol.op_bytes o)), s.2) Ho Hcs Hns) as (R & C & N);
      [cbn; exact Ha|cbn; rewrite <- app_assoc; exact Hr|].
    split_and!; [exact R|exact C|exact N].
  - cbn [orb] in *. destruct (Z.eqb_spec (Protocol.kind o) Protocol.OP_READ) as [E|Nr]; cbn [orb].
    + rewrite E in Hc. cbn in Hc. rewrite Hc, (ordered_reads ops Ho Hcs), !app_nil_r in Hr.
      destruct (read_step s o c a E) as (b' & -> & A & C & N); [fold w; by rewrite Ha|].
      destruct (clock_reads ops (b', s.2 ++ VirtualSpi.next_bytes (Z.to_nat (Protocol.op_length o)) a) _ Ho Hns A) as (R & C' & N').
      cbn [fst snd] in *. rewrite R, C', C, <- app_assoc. fold w in N. split_and!; [done|done|lia].
    + apply andb_true_iff in Ho as [E Ho]. apply Z.eqb_eq in E. rewrite E in Hc. cbn in Hc. rewrite Hc in Hr. cbn [app] in Hr.
      destruct (delay_step s o E Hn) as (b' & -> & [L Eb]). rewrite E. change (Protocol.OP_DELAY =? Protocol.OP_TRANSFER) with false. cbv iota.
      destruct (IH (b', s.2) Ho Hcs Hns) as (R & C & N); [cbn [fst]; rewrite Eb; exact Ha|cbn [fst]; rewrite Eb; exact Hr|].
      cbn [fst snd] in *. rewrite R, C. fold w in L. split_and!; [done|done|lia].
Qed.

(** * One request *)

(** The board and the reference device hold the same chip and have sent the same bytes. *)
Record same b d : Prop := {
  same_chip : Bench.chip (Sketch.wires b) = Device.chip d;
  same_session : Sketch.session b = Device.session d;
  same_events : Sketch.events_on b = Device.events_on d;
  same_sent : Sketch.written b = Device.sent d;
  same_settled : settled (Sketch.wires b);
}.
(** The reference device never looks at BUSY, so a request that does is compared while it is
    low; and its transactions write before they read. *)
Definition ready b (frame : bytes) : bool :=
  match frame with
  | [] => true
  | command :: p =>
      if bool_decide (command ∈ [Protocol.HELLO; Protocol.BUSY; Protocol.PINS]) then negb (Bench.busy (Sketch.wires b))
      else if command =? Protocol.SPI then match Protocol.decode_operations p with Some ops => ordered false ops | None => true end
      else true
  end.
(** Answered alike, at some instant of the handling. *)
Definition alike b b' (answer : Z -> Device.t) : Prop :=
  exists at_, Bench.now (Sketch.wires b) <= at_ <= Bench.now (Sketch.wires b') /\ same b' (answer at_).

Lemma written_send b c p : Sketch.written (Sketch.send b c p) = Sketch.written b ++ Kiss.encode c p.
Proof. unfold Sketch.written, Sketch.send. cbn. rewrite fmap_app, concat_app. cbn. by rewrite app_nil_r. Qed.
Lemma same_send b d c p : same b d -> same (Sketch.send b c p) (Device.send d c p).
Proof. intros [C S E O T]. split; [done..| |done]. rewrite written_send, O. done. Qed.
Lemma same_later b b' d : same b d -> quiet b b' -> later b b' -> same b' d.
Proof.
  intros [C S E O T] [_ QS QE QO _ _] [L Eb]. split; [by rewrite Eb|congruence|congruence| |].
  - unfold Sketch.written in *. by rewrite QO.
  - destruct T as [T0 T]. unfold settled. rewrite Eb. cbn [Bench.chip Bench.at_ Bench.now]. lia.
Qed.
Lemma not_busy_later b b' : Bench.busy (Sketch.wires b) = false -> later b b' -> Bench.busy (Sketch.wires b') = false.
Proof.
  unfold Bench.busy. intros B [L Eb]. apply Z.ltb_ge in B. apply Z.ltb_ge. rewrite Eb at 1. cbn [Bench.chip Bench.at_]. lia.
Qed.
(** Reading the two lines, BUSY being low. *)
Lemma read_low b : Bench.busy (Sketch.wires b) = false ->
  let '(b', v) := Sketch.digital_read b Firmware.busy in quiet b b' /\ later b b' /\ v = false.
Proof.
  intros B. pose proof (read_quiet b Firmware.busy) as Q. pose proof (read_later b Firmware.busy) as R.
  destruct (Sketch.digital_read b Firmware.busy) as [b' v]. destruct R as (L & N & ->). split_and!; [done|done|].
  cbn. unfold Bench.busy in *. apply Z.ltb_ge in B. apply Z.ltb_ge. cbn. lia.
Qed.
Lemma read_line b : let '(b', v) := Sketch.digital_read b dio1 in
  quiet b b' /\ later b b' /\ v = Chip.irq_pending (Bench.chip (Sketch.wires b)).
Proof.
  pose proof (read_quiet b dio1) as Q. pose proof (read_later b dio1) as R.
  destruct (Sketch.digital_read b dio1) as [b' v]. by destruct R as (L & N & ->).
Qed.
Lemma wait_low b limit : Bench.busy (Sketch.wires b) = false ->
  let '(b', v) := Sketch.wait_busy_low b limit in quiet b b' /\ later b b' /\ v = true.
Proof.
  intros B. unfold Sketch.wait_busy_low. destruct (Sketch.polls limit); cbn [Sketch.wait_loop];
    pose proof (read_low b B) as R; destruct (Sketch.digital_read b Firmware.busy) as [b1 v]; destruct R as (Q & L & ->); by cbn.
Qed.
Lemma same_flags b d rose : same b d -> same (Sketch.set_latch b rose) d.
Proof. intros [C S E O T]. by split. Qed.
Lemma same_switched b d on reported : same b d -> same (Sketch.set_events b on) (Device.with_events d on reported).
Proof. intros [C S E O T]. by split. Qed.
Lemma alike_now b b' answer : later b b' -> same b' (answer (Bench.now (Sketch.wires b))) -> alike b b' answer.
Proof. intros [L _] S. exists (Bench.now (Sketch.wires b)). split; [lia|done]. Qed.

Lemma hello_alike b d p : same b d -> Bench.busy (Sketch.wires b) = false ->
  alike b (Sketch.handle_hello b) (fun at_ => Device.handle d at_ (Protocol.HELLO :: p)).
Proof.
  intros S B. unfold Sketch.handle_hello. cbv zeta. set (b0 := Sketch.set_latch (Sketch.set_events b true) false).
  assert (same b0 (Device.with_events d true (Chip.irq_pending (Device.chip d)))) as S0 by (by apply same_flags, same_switched).
  pose proof (read_low b0 B) as R1. destruct (Sketch.digital_read b0 Firmware.busy) as [b1 v1]. destruct R1 as (Q1 & L1 & ->).
  pose proof (read_line b1) as R2. destruct (Sketch.digital_read b1 dio1) as [b2 v2]. destruct R2 as (Q2 & L2 & ->).
  pose proof (same_later _ _ _ S0 Q1 L1) as S1. pose proof (same_later _ _ _ S1 Q2 L2) as S2.
  apply alike_now; [exact (later_trans _ _ _ L1 L2)|]. rewrite (same_chip _ _ S1), (same_session _ _ S2). by apply same_send.
Qed.
Lemma pins_alike b d p : same b d -> Bench.busy (Sketch.wires b) = false ->
  alike b (Sketch.handle_pins b) (fun at_ => Device.handle d at_ (Protocol.PINS :: p)).
Proof.
  intros S B. unfold Sketch.handle_pins.
  pose proof (read_low b B) as R1. destruct (Sketch.digital_read b Firmware.busy) as [b1 v1]. destruct R1 as (Q1 & L1 & ->).
  pose proof (read_line b1) as R2. destruct (Sketch.digital_read b1 dio1) as [b2 v2]. destruct R2 as (Q2 & L2 & ->).
  pose proof (same_later _ _ _ S Q1 L1) as S1. pose proof (same_later _ _ _ S1 Q2 L2) as S2.
  apply alike_now; [exact (later_trans _ _ _ L1 L2)|]. rewrite (same_chip _ _ S1). by apply same_send.
Qed.
Lemma events_alike b d p : same b d ->
  alike b (Sketch.handle_events b p) (fun at_ => Device.handle d at_ (Protocol.EVENTS :: p)).
Proof.
  intros S. assert (later b b) as Lb by (split; [lia|by destruct (Sketch.wires b)]).
  destruct p as [|on [|? ?]]; try (apply alike_now; [exact Lb|by apply (same_send b d)]).
  cbn [Sketch.handle_events]. cbv zeta. set (b0 := Sketch.set_latch (Sketch.set_events b (negb (on =? 0))) false).
  assert (same b0 (Device.with_events d (negb (on =? 0)) (Chip.irq_pending (Device.chip d)))) as S0 by (by apply same_flags, same_switched).
  pose proof (read_line b0) as R1. destruct (Sketch.digital_read b0 dio1) as [b1 v1]. destruct R1 as (Q1 & L1 & ->).
  pose proof (same_later _ _ _ S0 Q1 L1) as S1. apply alike_now; [exact L1|]. rewrite (same_chip _ _ S0). by apply same_send.
Qed.
Lemma busy_alike b d p : same b d -> Bench.busy (Sketch.wires b) = false ->
  alike b (Sketch.handle_busy b p) (fun at_ => Device.handle d at_ (Protocol.BUSY :: p)).
Proof.
  intros S B. assert (later b b) as Lb by (split; [lia|by destruct (Sketch.wires b)]).
  destruct p as [|low [|high [|? ?]]]; try (apply alike_now; [exact Lb|by apply (same_send b d)]).
  cbn [Sketch.handle_busy].
  match goal with |- context [Sketch.wait_busy_low b ?l] => pose proof (wait_low b l B) as R; destruct (Sketch.wait_busy_low b l) as [b1 v] end.
  destruct R as (Q & L & ->). apply alike_now; [exact L|]. apply (same_send b1 d). by eapply same_later.
Qed.
Lemma rf_alike b d p : wf_bytes p -> same b d ->
  alike b (Sketch.handle_rf b p) (fun at_ => Device.handle d at_ (Protocol.RF :: p)).
Proof.
  intros Hwf S. assert (later b b) as Lb by (split; [lia|by destruct (Sketch.wires b)]).
  destruct p as [|mode [|? ?]]; try (apply alike_now; [exact Lb|by apply (same_send b d)]).
  apply Forall_cons in Hwf as [Hm _]. cbn [Sketch.handle_rf].
  assert (bool_decide (mode ∈ [Protocol.RF_OFF; Protocol.RF_RX; Protocol.RF_TX]) = negb (Protocol.RF_TX <? mode)) as E.
  { unfold Protocol.RF_TX, Protocol.RF_OFF, Protocol.RF_RX in *. width. destruct (Z.ltb_spec 2 mode); cbn [negb]; [apply bool_decide_eq_false_2|apply bool_decide_eq_true_2];
      rewrite !elem_of_cons, elem_of_nil; [intros [?|[?|[?|[]]]]; lia|]; destruct (decide (mode = 0)); [by left|]; destruct (decide (mode = 1)); [by right; left|]; right; right; left; lia. }
  destruct (Protocol.RF_TX <? mode); cbn [negb] in E; (apply alike_now; [exact Lb|]); unfold Device.handle;
    cbn [Z.eqb Protocol.RF Protocol.HELLO Protocol.RESET Protocol.BUSY Protocol.PINS Pos.eqb]; rewrite E.
  - by apply (same_send b d).
  - apply (same_send (Sketch.act_ b (rf_switch mode)) d). eapply same_later; [exact S| |exact Lb]. apply act__quiet. apply rf_moves.
Qed.
Lemma reset_alike b d p : same b d ->
  alike b (Sketch.handle_reset b) (fun at_ => Device.handle d at_ (Protocol.RESET :: p)).
Proof.
  intros S. unfold Sketch.handle_reset. cbv zeta. set (b0 := Sketch.set_latch _ false).
  assert (Sketch.wires b0 = Bench.pass tick 5000 (Bench.become (Bench.pass tick 2000 (Sketch.wires b)) (Chip.reset (Bench.chip (Sketch.wires b))))) as W0 by done.
  assert (same b0 (Device.with_chip d (Chip.reset (Device.chip d)))) as S0.
  { destruct S as [C S E O T]. destruct T as [T _]. assert (BUSY = 100000) as HB by done.
    split; [by rewrite W0, <- C|done..|]. unfold settled. rewrite W0, HB. cbn. lia. }
  assert (Bench.busy (Sketch.wires b0) = false) as B0.
  { destruct S as [_ _ _ _ [T _]]. unfold Bench.busy. rewrite W0. cbn. apply Z.ltb_ge. lia. }
  pose proof (wait_low b0 Protocol.BUSY_LIMIT_MS B0) as R. destruct (Sketch.wait_busy_low b0 _) as [b1 v]. destruct R as (Q & L & ->).
  exists (Bench.now (Sketch.wires b)). split; [split; [lia|]|].
  - destruct L as [L _]. rewrite W0 in L. cbn in L. cbn. lia.
  - apply (same_send b1 (Device.with_chip d (Chip.reset (Device.chip d)))). by eapply same_later.
Qed.
Lemma ran_now w : Bench.now (Bench.ran w) = Bench.now w.
Proof.
  unfold Bench.ran. destruct (Bench.answer w); [done|].
  by destruct (VirtualSpi.run_command (Bench.chip w) (Bench.selected w) (Bench.command w)).
Qed.
Lemma spi_alike b d p : wf_bytes p -> len p <= Protocol.FRAME_LIMIT -> ready b (Protocol.SPI :: p) = true -> same b d ->
  alike b (Sketch.handle_spi b p) (fun at_ => Device.handle d at_ (Protocol.SPI :: p)).
Proof.
  intros Hwf Hlen Hready S. assert (later b b) as Lb by (split; [lia|by destruct (Sketch.wires b)]).
  assert (forall at_, Device.handle d at_ (Protocol.SPI :: p) = Device.spi d at_ p) as E by (intros; apply BridgeProofs.handle_spi).
  destruct (handle_spi_refuses b p Hwf Hlen) as [R1 R2]. cbn in Hready.
  destruct (Protocol.decode_operations p) as [ops|] eqn:D.
  2:{ rewrite R1 by done. apply alike_now; [exact Lb|]. rewrite E. unfold Device.spi. rewrite D. by apply same_send. }
  destruct (Z_lt_ge_dec Protocol.FRAME_LIMIT (Device.wanted ops + 1)) as [Hw|Hw].
  { rewrite (R2 ops) by done. apply alike_now; [exact Lb|]. rewrite E. unfold Device.spi. rewrite D, (proj2 (Z.ltb_lt _ _)) by done.
    by apply same_send. }
  rewrite (handle_spi_eq b p ops) by (done || lia). destruct (decode_carried_ops _ _ _ Hwf D) as [Hn Hc].
  pose proof (wait_quiet (Sketch.polls Protocol.BUSY_LIMIT_MS) (Sketch.millis b) Protocol.BUSY_LIMIT_MS b) as Q.
  pose proof (wait_bench b Protocol.BUSY_LIMIT_MS ltac:(done) (same_settled _ _ S)) as R. unfold Sketch.wait_busy_low in *.
  destruct (Sketch.wait_loop _ _ _ b) as [b1 low]. destruct R as (-> & L & U). cbn [negb fst] in *.
  pose proof (same_later _ _ _ S Q L) as S1. set (b2 := Sketch.act_ b1 (set_nss false)).
  assert (Sketch.wires b2 = Bench.select true (Sketch.wires b1)) as W2 by done.
  destruct (VirtualSpi.run_command (Device.chip d) (Bench.now (Sketch.wires b1)) (concat (Protocol.op_bytes <$> ops))) as [c a] eqn:Hr.
  destruct (clock_ops ops (b2, [Protocol.STATUS_OK]) Hn Hc) as [Qc _].
  pose proof (clock_bench ops (b2, [Protocol.STATUS_OK]) c a Hready Hc Hn) as K. cbn [fst snd] in K. rewrite W2 in K.
  specialize (K eq_refl). cbn [Bench.select Bench.chip Bench.selected Bench.command Bench.now app] in K.
  rewrite (same_chip _ _ S1) in K. specialize (K Hr). destruct (foldl clock_op _ ops) as [b3 reply]. cbn [fst snd app] in *.
  destruct K as (-> & Kc & Kn). set (b4 := Sketch.act_ b3 (set_nss true)).
  assert (quiet b1 b4) as Q4.
  { eapply quiet_trans; [apply act__quiet; apply (nss_moves false)|]. eapply quiet_trans; [exact Qc|]. apply act__quiet. apply (nss_moves true). }
  assert (Bench.now (Sketch.wires b4) = Bench.now (Sketch.wires b3)) as N4.
  { change (Bench.now (Bench.ran (Sketch.wires b3)) = Bench.now (Sketch.wires b3)). apply ran_now. }
  exists (Bench.now (Sketch.wires b1)). split; [split; [by destruct L|]|].
  { change (Bench.now (Sketch.wires b1) <= Bench.now (Sketch.wires b4)). lia. }
  assert (Device.after_busy (Device.chip d) (Bench.now (Sketch.wires b1)) = Bench.now (Sketch.wires b1)) as A.
  { unfold Device.after_busy. rewrite <- (same_chip _ _ S). destruct (Chip.wait_on_busy_until _); cbn in *; lia. }
  rewrite E. unfold Device.spi. rewrite D, (proj2 (Z.ltb_ge Protocol.FRAME_LIMIT _)), A by lia. cbv zeta. rewrite Hr.
  apply (same_send b4). destruct S1 as [C1 S1 E1 O1 T1], Q4 as [_ QS QE QO _ _].
  split; [exact Kc|by rewrite QS|by rewrite QE| |].
  - unfold Sketch.written in *. by rewrite QO.
  - unfold settled. change (Bench.chip (Sketch.wires b4)) with (Bench.chip (Bench.ran (Sketch.wires b3))). rewrite Kc, N4.
    pose proof (run_command_busy (Device.chip d) (Bench.now (Sketch.wires b1)) (concat (Protocol.op_bytes <$> ops))) as B.
    rewrite Hr in B. cbn [fst] in B. destruct T1 as [T1 T2]. rewrite C1 in T2. split; [lia|]. destruct B as [-> | ->]; cbn; lia.
Qed.

Lemma handle_alike b d frame : wf_bytes frame -> len frame <= Protocol.FRAME_LIMIT -> ready b frame = true -> same b d ->
  alike b (Sketch.handle_frame b frame) (fun at_ => Device.handle d at_ frame).
Proof.
  intros Hwf Hlen Hr S. assert (later b b) as Lb by (split; [lia|by destruct (Sketch.wires b)]).
  destruct frame as [|command p]; [by apply alike_now|]. apply Forall_cons in Hwf as [_ Hwf].
  assert (len p <= Protocol.FRAME_LIMIT) as Hp by (unfold len in *; cbn [length] in Hlen; lia). cbn [Sketch.handle_frame].
  destruct (Z.eqb_spec command Protocol.HELLO) as [->|N1]; [apply hello_alike; [done|by apply negb_true_iff in Hr]|].
  destruct (Z.eqb_spec command Protocol.RESET) as [->|N2]; [by apply reset_alike|].
  destruct (Z.eqb_spec command Protocol.BUSY) as [->|N3]; [apply busy_alike; [done|by apply negb_true_iff in Hr]|].
  destruct (Z.eqb_spec command Protocol.PINS) as [->|N4]; [apply pins_alike; [done|by apply negb_true_iff in Hr]|].
  destruct (Z.eqb_spec command Protocol.RF) as [->|N5]; [by apply rf_alike|].
  destruct (Z.eqb_spec command Protocol.SPI) as [->|N6]; [by apply spi_alike|].
  destruct (Z.eqb_spec command Protocol.EVENTS) as [->|N7]; [by apply events_alike|].
  apply alike_now; [exact Lb|]. unfold Device.handle.
  rewrite !(proj2 (Z.eqb_neq _ _)) by done. by apply (same_send b d).
Qed.

(** * A stream of requests *)

(** What happens to the board: a byte from the host, time, and what comes over the air. *)
Inductive happening := Byte (x : Z) | Idle (us : Z) | Air (op : chip_op).
Definition over_the_air (op : chip_op) : bool := match op with Deliver _ _ | Notice _ _ | Fire _ => true | _ => false end.
Definition board_step b (h : happening) : Sketch.t Bench.t :=
  match h with
  | Byte x => Sketch.feed b x
  | Idle us => Sketch.act_ b (pass us)
  | Air op => Sketch.act_ b (fun w => Bench.become w (step (Bench.chip w) op))
  end.
Definition reference_step (s : Kiss.Deframer * Device.t) (h : happening * Z) : Kiss.Deframer * Device.t :=
  match h.1 with
  | Byte x => Device.pump s.1 s.2 h.2 [x]
  | Idle _ => s
  | Air op => (s.1, Device.with_chip s.2 (step (Device.chip s.2) op))
  end.
(** No request is longer than the limit, and each finds the board ready for it. *)
Definition fair_step b (h : happening) : bool :=
  match h with
  | Byte x => (0 <=? x) && (x <=? U8_MAX) &&
      match (Request.feed (Sketch.request b) x).2 with
      | None => true
      | Some (Request.Whole frame) => ready b frame
      | Some (Request.Overlong _) => false
      end
  | Idle us => 0 <=? us
  | Air op => over_the_air op
  end.
Fixpoint fair b (hs : list happening) : bool :=
  match hs with [] => true | h :: hs => fair_step b h && fair (board_step b h) hs end.

(** The two parsers hear the same requests, until one outgrows the limit: the reference
    device then waits for the next delimiter and says nothing. *)
Definition hears (r : Request.t) (df : Kiss.Deframer) : Prop :=
  Kiss.limit df = Protocol.FRAME_LIMIT
  /\ if Request.overflow r then Request.in_frame r = true /\ Kiss.in_frame df = false /\ Kiss.frame df = []
     else Request.held r = Kiss.frame df /\ Request.in_frame r = Kiss.in_frame df /\ Request.escaped r = Kiss.escaped df.
Definition whole (e : option Request.event) : option bytes :=
  match e with Some (Request.Whole frame) => Some frame | _ => None end.
Lemma feed_hears r df x : hears r df ->
  hears (Request.feed r x).1 (Kiss.push_byte df x).1 /\ (Kiss.push_byte df x).2 = whole (Request.feed r x).2.
Proof.
  intros [Hl Hr]. unfold Request.feed, Kiss.push_byte. destruct (x =? FEND).
  { split; [by split|]. cbn [snd]. destruct (Request.overflow r).
    - destruct Hr as (-> & -> & ->). by cbn.
    - destruct Hr as (Eh & -> & _). rewrite andb_false_r, Eh. destruct (Kiss.in_frame df); cbn [andb]; [|done].
      destruct (Kiss.frame df); [done|]. rewrite bool_decide_eq_false_2 by done. by rewrite (proj2 (Z.ltb_lt 0 _)) by (unfold len; cbn; lia). }
  destruct (Request.overflow r) eqn:O.
  - destruct Hr as (I & I' & F). rewrite I, I'. cbn [negb].
    destruct (negb (Request.escaped r) && (x =? FESC)); [by split; [split|]|]. cbv zeta. rewrite ?O.
    by destruct (_ <=? _); split; split.
  - destruct Hr as (Eh & Ei & Ee). rewrite Ei, Ee. destruct (Kiss.in_frame df) eqn:K; cbn [negb]; [|split; [|done]; split; [done|]; cbn; rewrite ?O; split_and!; congruence].
    destruct (negb (Kiss.escaped df) && (x =? FESC)); [split; [|done]; split; [done|]; cbn; rewrite ?O; split_and!; congruence|]. cbv zeta. rewrite Hl, Eh.
    destruct (Z.leb_spec Protocol.FRAME_LIMIT (len (Kiss.frame df))); (split; [|done]; split; [done|]; cbn; rewrite ?O, ?Eh; split_and!; congruence).
Qed.

Lemma air_busy (c : Chip.t) op : over_the_air op = true -> Chip.wait_on_busy_until (step c op) = Chip.wait_on_busy_until c.
Proof.
  destruct op as [|now dl|now pr|i| |]; try done; intros _; cbn [step].
  - unfold Chip.deliver. cbv zeta. destruct (negb _); [by destruct (Model.mode (Chip.model c))|].
    destruct (decide (Delivery.verdict dl = Verdict.HeaderError)); [done|].
    destruct (decide (Delivery.verdict dl = Verdict.Decoded)); by destruct (Model.rx_continuous _).
  - unfold Chip.fire. destruct (Chip.timers c !! i) as [[at_ timer]|]; [|done].
    change (Model.busy_until (Chip.fire_model (Chip.model c) timer) = Model.busy_until (Chip.model c)).
    destruct timer; cbn [Chip.fire_model]; by destruct (_ && _).
Qed.

(** What ties the run of the board to that of the reference device. *)
Record tied b (s : Kiss.Deframer * Device.t) : Prop := {
  tied_same : same b s.2;
  tied_hears : hears (Sketch.request b) s.1;
  tied_within : within b;
}.
Lemma same_request b d r : same b d -> same (Sketch.set_request b r) d.
Proof. intros [C S E O T]. by split. Qed.
Lemma byte_tied b s x : tied b s -> fair_step b (Byte x) = true ->
  exists at_, Bench.now (Sketch.wires b) <= at_ <= Bench.now (Sketch.wires (Sketch.feed b x))
    /\ tied (Sketch.feed b x) (Device.pump s.1 s.2 at_ [x]).
Proof.
  intros [S Hh Hw] Hf. cbn [fair_step] in Hf. apply andb_true_iff in Hf as [Hx Hf]. apply andb_true_iff in Hx as [X1 X2].
  assert (is_u8 x) as Hx by (split; lia). pose proof (feed_within b x Hx Hw) as Hw'.
  destruct (feed_hears _ _ x Hh) as [Hh' Ho]. destruct Hw as [Hr Hsent]. destruct (request_fits _ x Hr Hx) as [_ Hfr].
  assert (forall at_, Device.pump s.1 s.2 at_ [x]
    = ((Kiss.push_byte s.1 x).1, match whole (Request.feed (Sketch.request b) x).2 with Some f => Device.handle s.2 at_ f | None => s.2 end)) as P.
  { intros at_. unfold Device.pump. cbn [Kiss.push]. rewrite <- Ho. destruct (Kiss.push_byte s.1 x) as [df [f|]]; by cbn. }
  unfold Sketch.feed in *. destruct (Request.feed (Sketch.request b) x) as [r e]. cbn [fst snd] in *.
  destruct e as [[frame|command]|]; [|done|].
  - destruct (Hfr frame eq_refl) as [-> Hne]. destruct Hr as [Hwf Hl]. apply (same_request b s.2 r) in S.
    destruct (handle_alike (Sketch.set_request b r) s.2 (Request.held (Sketch.request b)) Hwf Hl Hf S) as (at_ & Hat & S').
    exists at_. split; [exact Hat|]. rewrite P. cbn [whole]. split; [exact S'| |exact Hw']. cbn [fst].
    destruct (Request.held (Sketch.request b)) as [|c p] eqn:Hhe; [done|]. apply Forall_cons in Hwf as [_ Hwf].
    destruct (handle_answered (Sketch.set_request b r) c p Hwf) as (f & (_ & R & _) & _); [|by rewrite R].
    unfold len in *. cbn [length] in Hl. lia.
  - exists (Bench.now (Sketch.wires b)). split; [cbn; lia|]. rewrite P. cbn [whole]. by split; [apply same_request| |].
Qed.
Lemma quiet_within b b' : quiet b b' -> within b -> within b'.
Proof. intros [R _ _ O _ _] [Hr Hs]. unfold within. by rewrite R, O. Qed.
Lemma step_tied b s h : tied b s -> fair_step b h = true ->
  exists at_, Bench.now (Sketch.wires b) <= at_ <= Bench.now (Sketch.wires (board_step b h)) /\ tied (board_step b h) (reference_step s (h, at_)).
Proof.
  destruct h as [x|us|op]; [apply byte_tied|..]; intros [S Hh Hw] Hf; cbn [fair_step] in Hf.
  - apply Z.leb_le in Hf. destruct (act_pass_later b us Hf) as [L _]. exists (Bench.now (Sketch.wires b)). split; [destruct L; cbn [board_step]; lia|].
    assert (quiet b (Sketch.act_ b (pass us))) as Q by (apply act__quiet; apply pass_moves).
    split; [by eapply same_later|exact Hh|by eapply quiet_within].
  - exists (Bench.now (Sketch.wires b)). split; [cbn; lia|].
    assert (quiet b (board_step b (Air op))) as Q by (apply act__quiet; by eapply become_moves).
    split; [|exact Hh|by eapply quiet_within]. destruct S as [C Se E O [T1 T2]]. split; [cbn; by rewrite C|done|done| |].
    + unfold Sketch.written in *. destruct Q as [_ _ _ Q _ _]. by rewrite Q.
    + split; [exact T1|]. cbn. by rewrite air_busy.
Qed.

(** Both at their boot, the chip just powered up. *)
Definition boot (drawn : Z) (c : Chip.t) : Sketch.t Bench.t := Sketch.setup drawn (Bench.mk c 0 0 [] 0 None).
Lemma run_tied hs b s : tied b s -> fair b hs = true ->
  exists instants, length instants = length hs /\ Forall (fun at_ => Bench.now (Sketch.wires b) <= at_) instants
    /\ Bench.now (Sketch.wires b) <= Bench.now (Sketch.wires (foldl board_step b hs))
    /\ Forall (fun at_ => at_ <= Bench.now (Sketch.wires (foldl board_step b hs))) instants
    /\ tied (foldl board_step b hs) (foldl reference_step s (zip hs instants)).
Proof.
  revert b s. induction hs as [|h hs IH]; intros b s T Hf; cbn [fair foldl] in *.
  { exists []. split_and!; [done|done|lia|done|done]. }
  apply andb_true_iff in Hf as [Hf Hfs]. destruct (step_tied b s h T Hf) as (at_ & Ha & T').
  destruct (IH _ _ T' Hfs) as (ats & Hl & Hge & Hle & Hup & Ht). exists (at_ :: ats).
  split_and!; [cbn; by rewrite Hl| |lia|apply Forall_cons_2; [lia|done]|done].
  apply Forall_cons_2; [lia|]. eapply Forall_impl; [exact Hge|]. cbn. lia.
Qed.

(** C27: The board answers as the reference device of bridge.rs does, which is what the firmware
    must match. Let both boot with the same random draw, on the same chip, and let any
    bytes come from the host, mixed with time and with what the chip hears over the air,
    so long as a statement takes half a millisecond at most, no request outgrows the limit, a
    request that looks at BUSY finds it low, and a transaction writes before it reads. Then there are instants, each within the
    run, at which the reference device takes the same bytes one by one, writes the same
    bytes back, and is left with the same chip, the same session and the same switch of
    its events. *)
Theorem the_board_answers_as_the_reference (drawn scale lock : Z) (d : Device.t) (hs : list happening) :
  Device.serve drawn (Chip.new scale lock) true true = Some d ->
  let b0 := boot drawn (Chip.new scale lock) in
  fair b0 hs = true ->
  let b := foldl board_step b0 hs in
  exists instants, length instants = length hs
    /\ Forall (fun at_ => 0 <= at_ <= Bench.now (Sketch.wires b)) instants
    /\ let '(df, d') := foldl reference_step (Kiss.new Protocol.FRAME_LIMIT, d) (zip hs instants) in
       Device.sent d' = Sketch.written b /\ Device.chip d' = Bench.chip (Sketch.wires b)
       /\ Device.session d' = Sketch.session b /\ Device.events_on d' = Sketch.events_on b.
Proof.
  intros Hd b0 Hf b. assert (d = Device.mk (Chip.new scale lock) (Device.session_id drawn) false false []) as -> by (cbn in Hd; congruence).
  assert (tied b0 (Kiss.new Protocol.FRAME_LIMIT, Device.mk (Chip.new scale lock) (Device.session_id drawn) false false [])) as T.
  { split; [split; try done|by split|]. split; [split; [by apply Forall_nil_2|by vm_compute]|by apply Forall_nil_2]. }
  destruct (run_tied hs b0 _ T Hf) as (ats & Hl & Hge & _ & Hup & [S _ _]). fold b in Hup, S. exists ats. split; [done|]. split.
  { apply Forall_forall. intros at_ Hat. split; [by apply (proj1 (Forall_forall _ _) Hge)|by apply (proj1 (Forall_forall _ _) Hup)]. }
  destruct (foldl reference_step _ _) as [df d']. destruct S as [C Se E O _]. by split_and!.
Qed.
End bench.

(** * A run *)

#[local] Instance bench_modulation : LoraModulation := {
  symbol_duration_us := fun _ => 8192;
  time_on_air_us := fun _ _ _ n => 250000 + 1000 * n;
}.
Definition said (command : Z) (p : bytes) : list happening := Byte <$> Kiss.encode command p.
(** Hello; a status read; a reset at once, the chip still busy; a frame written and sent,
    which the air timer completes; the flags read; and three requests refused. *)
Definition morning : list happening :=
  said Protocol.HELLO [] ++ said Protocol.SPI [0; 1; 0; OP_GET_STATUS; 1; 1; 0]
  ++ said Protocol.RESET [] ++ said Protocol.SPI [0; 9; 0; OP_CFG_DIO_IRQ; 255; 255; 255; 255; 0; 0; 0; 0]
  ++ said Protocol.SPI [0; 4; 0; OP_SET_TX; 0; 0; 0] ++ [Idle 500; Air (Fire 0)]
  ++ said Protocol.PINS [] ++ said Protocol.SPI [0; 1; 0; OP_GET_IRQ_STATUS; 3; 5; 0; 1; 3; 0]
  ++ [Idle 500] ++ said Protocol.BUSY [0xC0; 0] ++ said Protocol.EVENTS [0]
  ++ said Protocol.RF [3] ++ said Protocol.SPI [7] ++ said 0x55 [].

Lemma the_board_answers_as_the_reference_witness :
  let b := foldl (board_step 1000) (boot 1000 7 (Chip.new 1 6)) morning in
  len (Sketch.sent b) = 12 /\ Chip.irq_pending (Bench.chip (Sketch.wires b)) = true
  /\ exists instants, length instants = length morning
    /\ Forall (fun at_ => 0 <= at_ <= Bench.now (Sketch.wires b)) instants
    /\ let '(df, d') := foldl reference_step (Kiss.new Protocol.FRAME_LIMIT, Device.mk (Chip.new 1 6) 7 false false []) (zip morning instants) in
       Device.sent d' = Sketch.written b /\ Device.chip d' = Bench.chip (Sketch.wires b)
       /\ Device.session d' = Sketch.session b /\ Device.events_on d' = Sketch.events_on b.
Proof.
  split_and!; [vm_compute; reflexivity..|].
  apply (the_board_answers_as_the_reference 1000 ltac:(lia) 7 1 6); [reflexivity|vm_compute; reflexivity].
Defined.

(** * The other theorems, on the bench *)

#[local] Instance demo_wires : Wires Bench.t := Bench.wired 1000.
#[local] Instance demo_lawful : Lawful Bench.t := bench_lawful 1000 ltac:(lia).
Definition bytes_of (hs : list happening) : bytes := omap (fun h => match h with Byte x => Some x | _ => None end) hs.
Definition is_byte (x : Z) : bool := (0 <=? x) && (x <=? U8_MAX).
Lemma bytes_ok bs : forallb is_byte bs = true -> wf_bytes bs.
Proof.
  intros Hb. apply Forall_forall. intros x Hx. apply list_elem_of_In in Hx. apply (proj1 (forallb_forall _ _) Hb), andb_true_iff in Hx as [H1 H2].
  split; lia.
Qed.
Lemma turns_ok turns : forallb (forallb is_byte) turns = true -> Forall wf_bytes turns.
Proof. intros Hb. apply Forall_forall. intros t Ht. apply list_elem_of_In in Ht. apply bytes_ok, (proj1 (forallb_forall _ _) Hb), Ht. Qed.
(** Three turns of the loop, the second with a request that is too long. *)
Definition turns : list bytes := [bytes_of morning; FEND :: replicate 1200 0x55; [FEND]].

Lemma firmware_buffers_hold_witness :
  let b := foldl Sketch.loop (boot 1000 7 (Chip.new 1 6)) turns in
  (last (Sketch.sent b) = Some (Protocol.EVENT_ERROR, [Protocol.STATUS_TOO_LONG; 0x55])
   /\ len (Sketch.sent b) = 13)
  /\ len (Request.held (Sketch.request b)) <= Protocol.FRAME_LIMIT
  /\ Forall (fun f => len f.2 <= Protocol.FRAME_LIMIT /\ len (Kiss.encode f.1 f.2) <= 2 * Protocol.FRAME_LIMIT + 4) (Sketch.sent b).
Proof.
  split; [vm_compute; split; reflexivity|]. apply (firmware_buffers_hold 7 (Bench.mk (Chip.new 1 6) 0 0 [] 0 None) turns), turns_ok.
  vm_compute. reflexivity.
Defined.
Lemma no_rise_is_lost_witness :
  let b := foldl Sketch.loop (boot 1000 7 (Chip.new 1 6)) turns in
  (dio1 (Sketch.wires b) = true -> told b = 1 \/ Sketch.dio1_rose b = true)
  /\ (Sketch.events_on b = true -> Sketch.dio1_rose b = true ->
      exists level, Sketch.sent (Sketch.loop b []) = Sketch.sent b ++ [(Protocol.EVENT_DIO1, [Sketch.level level])]
        /\ (level = false -> dio1 (Sketch.wires (Sketch.loop b [])) = true -> Sketch.dio1_rose (Sketch.loop b []) = true)).
Proof. apply no_rise_is_lost; [reflexivity|apply turns_ok; vm_compute; reflexivity]. Defined.
(** A request one byte too long: the board says so, the reference device says nothing. *)
Example an_overlong_request_tells_them_apart :
  let request := FEND :: replicate 1101 0x55 ++ [FEND] in
  let board := foldl Sketch.feed (boot 1000 7 (Chip.new 1 6)) request in
  let d := Device.mk (Chip.new 1 6) 7 false false [] in
  Sketch.sent board = [(Protocol.EVENT_ERROR, [Protocol.STATUS_TOO_LONG; 0x55])]
  /\ Device.sent (Device.pump (Kiss.new Protocol.FRAME_LIMIT) d 0 request).2 = [].
Proof. vm_compute. split; reflexivity. Qed.
