(* ===== verification/FirmwareLink.v ===== *)
(** The host, the cable and the board together: a transaction of the driver over the bridge,
    with the firmware of the board at the other end of the cable, is the virtual bus's
    transaction (src/firmware/bridge/bridge.ino, src/src/infrastructure/sx126x/bridge.rs,
    bus.rs). *)
From S2P Require Import Prelude RNode Hub Chip Bridge BridgeProofs Firmware FirmwareProofs FirmwareBench.

(** * The board reads a request *)

Section reading.
Context `{Wires W}.
Implicit Types (b : Sketch.t W).

Definition reading (held : bytes) : Request.t := Request.mk held true false false.
(** Nothing of a request has been read. *)
Definition fresh (r : Request.t) : Prop := Request.overflow r = false /\ (Request.in_frame r = false \/ Request.held r = []).

Lemma feed_held b f x : Sketch.request b = reading f -> len f < Protocol.FRAME_LIMIT ->
  foldl Sketch.feed b (Kiss.escape x) = Sketch.set_request b (reading (f ++ [x])).
Proof.
  intros E Hl. assert (Protocol.FRAME_LIMIT <=? len f = false) as L by (by apply Z.leb_gt). unfold Kiss.escape.
  destruct (Z.eqb_spec x FEND) as [->|N1]; [|destruct (Z.eqb_spec x FESC) as [->|N2]]; cbn [foldl]; unfold Sketch.feed; rewrite E; unfold Request.feed.
  - cbn -[len Z.leb]. rewrite L. done.
  - cbn -[len Z.leb]. rewrite L. done.
  - rewrite (proj2 (Z.eqb_neq x FEND) N1), (proj2 (Z.eqb_neq x FESC) N2). cbn -[len Z.leb]. rewrite L. done.
Qed.
Lemma feeds_held p b f : Sketch.request b = reading f -> len f + len p <= Protocol.FRAME_LIMIT ->
  foldl Sketch.feed b (concat (Kiss.escape <$> p)) = Sketch.set_request b (reading (f ++ p)).
Proof.
  revert b f. induction p as [|x p IH]; intros b f E Hl.
  { cbn. rewrite app_nil_r, <- E. by destruct b. }
  unfold len in *. rewrite length_cons in Hl. rewrite fmap_cons. cbn [concat]. rewrite foldl_app, (feed_held b f) by (done || (unfold len; lia)).
  rewrite (IH _ (f ++ [x])); [by rewrite <- app_assoc|done|]. rewrite length_app. cbn [length]. lia.
Qed.
(** A request comes out whole. *)
Lemma feed_request b c p : fresh (Sketch.request b) -> frame_fits Protocol.FRAME_LIMIT (c, p) ->
  foldl Sketch.feed b (Kiss.encode c p) = Sketch.handle_frame (Sketch.set_request b (reading [])) (c :: p).
Proof.
  intros [O I] (N1 & N2 & Hl). cbn [fst snd] in *. unfold Kiss.encode. cbn [foldl].
  assert (Sketch.feed b FEND = Sketch.set_request b (reading [])) as ->.
  { unfold Sketch.feed, Request.feed. rewrite O, Z.eqb_refl, andb_false_r. destruct I as [-> | ->]; [done|].
    cbn [len length]. by rewrite andb_false_r. }
  pose proof (feed_held (Sketch.set_request b (reading [])) [] c eq_refl ltac:(by vm_compute)) as F. unfold Kiss.escape in F.
  rewrite (proj2 (Z.eqb_neq c FEND) N1), (proj2 (Z.eqb_neq c FESC) N2) in F. cbn [foldl app] in F. rewrite F, foldl_app.
  rewrite (feeds_held p _ [c]); [|done|unfold len in *; cbn [length]; lia]. cbn [foldl app].
  unfold Sketch.feed at 1, Request.feed at 1. cbn [Sketch.request Sketch.set_request reading Request.in_frame Request.overflow Request.held andb].
  rewrite Z.eqb_refl. rewrite (proj2 (Z.ltb_lt 0 _)) by (unfold len; cbn [length]; lia). done.
Qed.
End reading.

(** * The driver and the board *)

Section together.
Context `{LoraModulation}.
Variable tick : Z.
Hypothesis tick_bound : 0 <= tick <= 500000.
#[local] Instance link_wires : Wires Bench.t := Bench.wired tick.
Implicit Types (b : Sketch.t Bench.t) (l : Link.t).

(** A transaction that writes before it reads has no transfers. *)
Lemma ordered_symmetric reading ops : ordered reading (decoded <$> ops) = true -> Forall symmetric ops.
Proof.
  revert reading. induction ops as [|o ops IH]; intros reading Hord; [by apply Forall_nil_2|]. rewrite fmap_cons in Hord.
  destruct o; cbn in Hord; try done; apply Forall_cons_2; try done; try by eapply IH.
  apply andb_true_iff in Hord as [_ Hord]. by eapply IH.
Qed.

(** What the board writes while it reads those bytes. *)
Definition written_for b (bs : bytes) : bytes :=
  drop (length (Sketch.written b)) (Sketch.written (foldl Sketch.feed b bs)).

(** C22: The driver cannot tell the whole of the bridge from the virtual bus: the adapter on the
    host, the cable, the firmware on its microcontroller and the chip behind its pins. Let
    the driver ask for a transaction that writes before it reads, without full-duplex
    transfers, and is within the protocol's limits: a request, with its command byte, of at
    most 1100 bytes, at most 1098 bytes read back, and delays that fit sixteen bits of
    microseconds. Let it do so on a healthy link to a board that waits for a request and
    whose statements take half a millisecond at most, its chip perhaps still busy with the
    last one, and let whatever notices were in flight arrive before the answer: the driver gets back what the
    virtual bus would have filled in at some instant while the board was at work, once the
    chip was no longer busy, and the chip is left as the virtual bus would leave it. *)
Theorem a_board_is_transparent l b (host : Kiss.Deframer) (ops : list Operation) (pre : list Inbound) (more : list (list Inbound)) :
  settled (Sketch.wires b) -> fresh (Sketch.request b) ->
  Forall op_fits ops -> wf_bytes (Protocol.encode_operations ops) -> ordered false (decoded <$> ops) = true ->
  len (Protocol.encode_operations ops) + 1 <= Protocol.FRAME_LIMIT -> zsum (reads_back <$> ops) + 2 <= Protocol.FRAME_LIMIT ->
  idle host -> Link.poisoned l = false -> Link.port_ok l = true -> Link.inbox l = [] ->
  let request := Kiss.encode Protocol.SPI (Protocol.encode_operations ops) in
  let b' := foldl Sketch.feed b request in
  Link.arriving l = (pre ++ (Frame <$> (Kiss.push host (written_for b request) []).2)) :: more ->
  forallb (passed_over Protocol.SPI) pre = true ->
  exists at_, Bench.now (Sketch.wires b) <= at_ <= Bench.now (Sketch.wires b') /\
    let c0 := Bench.chip (Sketch.wires b) in
    let '(c, filled) := VirtualSpi.transaction c0 (Device.after_busy c0 at_) ops in
    Bench.chip (Sketch.wires b') = c
    /\ BridgeSpi.transaction l ops
       = (Link.mk (Link.written l ++ request) true [] more (Link.irq l || existsb rises pre)
            (Link.woken l || existsb wakes pre) (Link.session l) false, Ok filled).
Proof.
  intros Hset Hfresh Hfit Hwf Hord Hlen Hwanted Hhost Hp Hok Hin request b'. unfold written_for. fold b'.
  pose proof (ordered_symmetric false ops Hord) as Hsym.
  set (p := Protocol.encode_operations ops) in *. set (b0 := Sketch.set_request b (reading [])).
  set (d := Device.mk (Bench.chip (Sketch.wires b)) (Sketch.session b) (Sketch.events_on b) false (Sketch.written b)).
  assert (b' = Sketch.handle_spi b0 p) as Eb.
  { unfold b', request. rewrite feed_request; [done|done|]. split_and!; [done|done|unfold snd; lia]. }
  pose proof (decode_encode_operations ops Hfit) as D. fold p in D.
  assert (ready b0 (Protocol.SPI :: p) = true) as Hready by (cbn; by rewrite D).
  destruct (spi_alike tick tick_bound b0 d p Hwf ltac:(lia) Hready) as (at_ & Hat & S); [by split|].
  change (Bench.now (Sketch.wires b) <= at_ <= Bench.now (Sketch.wires (Sketch.handle_spi b0 p))) in Hat.
  change (same (Sketch.handle_spi b0 p) (Device.handle d at_ (Protocol.SPI :: p))) in S.
  rewrite <- Eb in Hat, S. rewrite BridgeProofs.handle_spi in S.
  pose proof (spi_answers d at_ ops Hfit Hsym ltac:(lia)) as Hspi. fold p in Hspi. unfold VirtualSpi.transaction.
  intros Harr Hpre. exists at_. split; [exact Hat|]. cbv zeta.
  change (Device.chip d) with (Bench.chip (Sketch.wires b)) in Hspi.
  destruct (VirtualSpi.run_command _ _ _) as [c answer]. rewrite Hspi in S. destruct S as [C _ _ O _].
  split; [exact C|]. rewrite O in Harr. cbn [Device.send Device.sent Device.with_chip d] in Harr. rewrite drop_app_length in Harr.
  by apply (transaction_answered l host).
Qed.
End together.

(** * A transaction, from the driver to the chip and back *)

#[local] Instance link_modulation : LoraModulation := {
  symbol_duration_us := fun _ => 8192;
  time_on_air_us := fun _ _ _ n => 250000 + 1000 * n;
}.
(** The board after its morning, with one command more, and a link that will hear it. *)
Definition busy_board : Sketch.t Bench.t :=
  let w := Bench.wired 1000 in
  foldl (board_step 1000) (boot 1000 7 (Chip.new 1 6)) (morning ++ said Protocol.SPI [0; 1; 0; OP_GET_STATUS]).
Definition flags_read : list Operation := [Write [OP_GET_IRQ_STATUS]; DelayNs 700; Read [0; 0; 0]].
Definition board_link : Link.t :=
  let request := Kiss.encode Protocol.SPI (Protocol.encode_operations flags_read) in
  let answer := Frame <$> (Kiss.push (Kiss.new Protocol.FRAME_LIMIT) (written_for 1000 busy_board request) []).2 in
  Link.mk [] true [] [[Frame [Protocol.EVENT_DIO1; 1]] ++ answer] false false 7 false.

Lemma a_board_is_transparent_witness :
  Bench.busy (Sketch.wires busy_board) = true
  /\ (BridgeSpi.transaction board_link flags_read).2 = Ok [Write [OP_GET_IRQ_STATUS]; DelayNs 700; Read [0x20; 0x00; 0x01]]
  /\ exists at_ : Z, (BridgeSpi.transaction board_link flags_read).2
       = Ok (VirtualSpi.transaction (Bench.chip (Sketch.wires busy_board))
               (Device.after_busy (Bench.chip (Sketch.wires busy_board)) at_) flags_read).2.
Proof.
  split; [vm_compute; reflexivity|]. split; [vm_compute; reflexivity|].
  destruct (a_board_is_transparent 1000 ltac:(lia) board_link busy_board (Kiss.new Protocol.FRAME_LIMIT) flags_read
              [Frame [Protocol.EVENT_DIO1; 1]] []) as (at_ & _ & T);
    [vm_compute; split; discriminate|vm_compute; split; [reflexivity|right; reflexivity]
    |repeat constructor; vm_compute; discriminate|apply bytes_ok; vm_compute; reflexivity
    |reflexivity|vm_compute; discriminate|vm_compute; discriminate|split; reflexivity|reflexivity..|].
  exists at_. cbv zeta in T. destruct (VirtualSpi.transaction _ _ flags_read) as [c filled]. destruct T as [_ ->]. reflexivity.
Defined.
