(* ===== verification/Board.v ===== *)
(** The bus of a real board (src/src/infrastructure/sx126x/linux.rs) and what its driver
    thread waits on (src/src/infrastructure/sx126x/hardware.rs).

    The kernel is a parameter: what it grants when the board is opened, what the [k]-th
    reading of a line gives ([None]: it fails), whether the host has asked for attention by
    then, and what a list of transfers reads back. *)
From S2P Require Import Prelude Radio Chip Driver Bridge.

(** * SPI *)

(** The transfers of the spidev crate. *)
Inductive SpidevTransfer :=
| TxWrite (bs : bytes)
| RxRead (n : nat)
| TxRx (write : bytes) (n : nat)
| Pause (micros : Z).

Module LinuxSpi.
Definition transfer_of (op : Operation) : SpidevTransfer :=
  match op with
  | Write bs => TxWrite bs
  | Read buffer => RxRead (length buffer)
  | Transfer read write => TxRx write (length read)
  | TransferInPlace buffer => TxRx buffer (length buffer)
  | DelayNs ns => Pause (if ns / 1000 <=? U16_MAX then ns / 1000 else U16_MAX)
  end.
(** What each transfer read goes into its operation's buffer. *)
Definition filled (op : Operation) (got : bytes) : Operation :=
  match op with
  | Read _ => Read got
  | Transfer _ write => Transfer got write
  | TransferInPlace _ => TransferInPlace got
  | op => op
  end.
Definition transaction (transfer_multiple : list SpidevTransfer -> option (list bytes)) (ops : list Operation)
    : option (list Operation) :=
  got ← transfer_multiple (transfer_of <$> ops); Some (zip_with filled ops got).
End LinuxSpi.

(** * The control lines *)

Module LinuxIv.
(** The two writes to the reset line. *)
Definition reset (low high : bool) : result DriverError unit := if low && high then Ok tt else Err DrReset.
(** The loop from the [k]-th reading; [polls] more before its deadline. *)
Fixpoint busy_from (busy : nat -> option Z) (k polls : nat) : result DriverError unit :=
  match busy k with
  | None => Err DrBusy
  | Some level =>
      if level =? 0 then Ok tt
      else match polls with O => Err DrBusy | S polls => busy_from busy (S k) polls end
  end.
Definition wait_on_busy (busy : nat -> option Z) (polls : nat) : result DriverError unit := busy_from busy 0 polls.
(** Without a deadline: [None] if it still waits after [fuel] polls. The answer says at
    which poll it ended, and whether it took the host's wake. *)
Fixpoint irq_from (dio1 : nat -> option Z) (wanted : nat -> bool) (k fuel : nat) : option (nat * result DriverError bool) :=
  match fuel with
  | O => None
  | S fuel =>
      match dio1 k with
      | None => Some (k, Err DrDIO1)
      | Some level =>
          if negb (level =? 0) then Some (k, Ok false)
          else if wanted k then Some (k, Ok true)
          else irq_from dio1 wanted (S k) fuel
      end
  end.
Definition await_irq (dio1 : nat -> option Z) (wanted : nat -> bool) (fuel : nat) : option (nat * result DriverError bool) :=
  irq_from dio1 wanted 0 fuel.
Definition enable_rf_switch_rx : result DriverError unit := Ok tt.
Definition enable_rf_switch_tx : result DriverError unit := Ok tt.
Definition disable_rf_switch : result DriverError unit := Ok tt.
End LinuxIv.

Module LinuxWatch.
Definition raised (reading : option Z) : bool := match reading with Some level => negb (level =? 0) | None => false end.
(** [polls] more before the deadline; the answer says at which poll it ended. *)
Fixpoint activity_from (dio1 : nat -> option Z) (wanted : nat -> bool) (k polls : nat) : nat * Activity :=
  let irq := raised (dio1 k) in
  let host := wanted k in
  match polls with
  | O => (k, activity irq host)
  | S polls => if irq || host then (k, activity irq host) else activity_from dio1 wanted (S k) polls
  end.
Definition wait_for_activity (dio1 : nat -> option Z) (wanted : nat -> bool) (polls : nat) : nat * Activity :=
  activity_from dio1 wanted 0 polls.
Definition irq_flags : option Z := None.
End LinuxWatch.

(** * Opening *)

Module Pins.
Record t := mk { chip : str; busy : Z; dio1 : Z; reset : Z }.
End Pins.
(** What the spidev and gpio-cdev crates are asked for. *)
Record SpidevOptions := spidev_options { bits_per_word : Z; max_speed_hz : Z; spi_mode : Z }.
Inductive LineRequestFlags := LINE_INPUT | LINE_OUTPUT.
Record LineRequest := line_request { line : Z; flags : LineRequestFlags; initial : Z; consumer : str }.
Module Kernel.
Record t := mk {
  spi_open : str -> bool;
  configure : SpidevOptions -> bool;
  gpio_chip : str -> bool;
  get_line : Z -> bool;
  request : LineRequest -> bool;
  thread : bool;
}.
End Kernel.
Definition SPI_SPEED_HZ : Z := 2000000.

Inductive HardwareError := HwSpi | HwGpio | HwThread.
Module HardwareRadio.
(** What the driver thread was given -- the bus, the lines, the crate's settings -- and the
    node's end of it. *)
Record Control := control { busy : LineRequest; dio1 : LineRequest; reset : LineRequest }.
Record t := mk { spi : SpidevOptions; iv : Control; settings : Config; profile : PhyProfile.t; handle : DriverHandle.t }.
Section open.
Context (k : Kernel.t).
(** [LinuxSpi::open]. *)
Definition open_spi (path : str) : option SpidevOptions :=
  let options := spidev_options 8 SPI_SPEED_HZ 0 in
  if Kernel.spi_open k path && Kernel.configure k options then Some options else None.
Definition claim (r : LineRequest) : option LineRequest :=
  if Kernel.get_line k (line r) && Kernel.request k r then Some r else None.
(** [LinuxIv::open]. *)
Definition open_iv (pins : Pins.t) : option Control :=
  if negb (Kernel.gpio_chip k (Pins.chip pins)) then None
  else
    busy ← claim (line_request (Pins.busy pins) LINE_INPUT 0 (lit "lcq-busy"));
    dio1 ← claim (line_request (Pins.dio1 pins) LINE_INPUT 0 (lit "lcq-dio1"));
    reset ← claim (line_request (Pins.reset pins) LINE_OUTPUT 1 (lit "lcq-reset"));
    Some (control busy dio1 reset).
Definition open (spi_path : str) (pins : Pins.t) (tcxo : option TcxoCtrlVoltage) (profile : PhyProfile.t) : result HardwareError t :=
  spi ← ok_or (open_spi spi_path) HwSpi;
  iv ← ok_or (open_iv pins) HwGpio;
  if Kernel.thread k then Ok (mk spi iv (config tcxo true false) profile (DriverHandle.mk [] [] true)) else Err HwThread.
End open.
Definition transmit (r : t) (frame : bytes) : t * result RadioError unit :=
  let '(h, sent) := DriverHandle.transmit (handle r) frame in (mk (spi r) (iv r) (settings r) (profile r) h, sent).
Definition poll (r : t) : t * option RadioEvent :=
  let '(h, e) := DriverHandle.poll (handle r) in (mk (spi r) (iv r) (settings r) (profile r) h, e).
End HardwareRadio.
#[global] Instance hardware_radio : Radio HardwareRadio.t := {
  radio_transmit := HardwareRadio.transmit;
  radio_poll := HardwareRadio.poll;
}.

(** A board is up when the kernel has granted all of it, and an error names the first layer it
    refused. BUSY and DIO1 are only ever inputs, and the reset line is driven high from its
    first instant, so that opening the board does not hold the chip in reset. *)
Theorem board_opens_layer_by_layer (k : Kernel.t) (path : str) (pins : Pins.t) (tcxo : option TcxoCtrlVoltage) (profile : PhyProfile.t) :
  let lines := [line_request (Pins.busy pins) LINE_INPUT 0 (lit "lcq-busy"); line_request (Pins.dio1 pins) LINE_INPUT 0 (lit "lcq-dio1");
                line_request (Pins.reset pins) LINE_OUTPUT 1 (lit "lcq-reset")] in
  let spi := Kernel.spi_open k path && Kernel.configure k (spidev_options 8 SPI_SPEED_HZ 0) in
  let gpio := Kernel.gpio_chip k (Pins.chip pins) && forallb (fun r => Kernel.get_line k (line r) && Kernel.request k r) lines in
  match HardwareRadio.open k path pins tcxo profile with
  | Ok r => spi && gpio && Kernel.thread k = true
            /\ [HardwareRadio.busy (HardwareRadio.iv r); HardwareRadio.dio1 (HardwareRadio.iv r); HardwareRadio.reset (HardwareRadio.iv r)] = lines
  | Err HwSpi => spi = false
  | Err HwGpio => spi = true /\ gpio = false
  | Err HwThread => spi && gpio = true /\ Kernel.thread k = false
  end.
Proof.
  intros lines spi gpio. unfold HardwareRadio.open, HardwareRadio.open_spi. cbv zeta. fold spi.
  destruct spi; cbn [ok_or mbind result_bind andb]; [|done].
  unfold HardwareRadio.open_iv, gpio, HardwareRadio.claim. cbn [forallb lines].
  destruct (Kernel.gpio_chip k _); [|done].
  do 3 (match goal with |- context [if Kernel.get_line k ?l && Kernel.request k ?r then _ else _] =>
          change (Kernel.get_line k (line r)) with (Kernel.get_line k l); destruct (Kernel.get_line k l && Kernel.request k r); [|done] end).
  cbn. by destruct (Kernel.thread k).
Qed.

(** * The board's bus is the virtual bus *)

Definition clocked_out (t : SpidevTransfer) : bytes :=
  match t with TxWrite bs | TxRx bs _ => bs | RxRead _ | Pause _ => [] end.
(** A kernel that clocks out the chip's answer, one transfer after another. *)
Fixpoint clocked_in (ts : list SpidevTransfer) (reply : bytes) : list bytes :=
  match ts with
  | [] => []
  | RxRead n :: ts | TxRx _ n :: ts => VirtualSpi.next_bytes n reply :: clocked_in ts (drop n reply)
  | _ :: ts => [] :: clocked_in ts reply
  end.

(** One transaction puts the same command on the wire as on the virtual bus, and when the
    kernel clocks in what the chip answers, the driver's buffers hold what the virtual bus
    would have filled in. *)
Theorem board_clocks_the_virtual_bus (ops : list Operation) (reply : bytes) :
  concat (clocked_out <$> (LinuxSpi.transfer_of <$> ops)) = concat (VirtualSpi.command_of <$> ops)
  /\ LinuxSpi.transaction (fun ts => Some (clocked_in ts reply)) ops = Some (VirtualSpi.fill ops reply).
Proof.
  split.
  - rewrite <- list_fmap_compose. f_equal. apply list_fmap_ext. intros _ [bs|b|r w|b|ns] _; done.
  - unfold LinuxSpi.transaction. cbn [mbind option_bind]. f_equal. revert reply.
    induction ops as [|o ops IH]; intros reply; [done|]. destruct o as [bs|b|r w|b|ns]; cbn; by rewrite IH.
Qed.

(** * What the waits answer *)

Lemma busy_from_spec busy k polls :
  LinuxIv.busy_from busy k polls = Ok tt
  <-> exists j, (k <= j <= k + polls)%nat /\ busy j = Some 0 /\ forall i, (k <= i < j)%nat -> exists level, busy i = Some level /\ level <> 0.
Proof.
  revert k; induction polls as [|polls IH]; intros k; cbn [LinuxIv.busy_from]; destruct (busy k) as [level|] eqn:Hk.
  2,4: split; [done|]; intros (j & Hj & H0 & Hbefore); destruct (decide (j = k)) as [->|]; [congruence|];
    destruct (Hbefore k) as (? & ? & _); [lia|congruence].
  - destruct (Z.eqb_spec level 0) as [->|Hne]; split; try done.
    + intros _. exists k. split_and!; [lia|lia|done|intros i Hi; lia].
    + intros (j & Hj & H0 & _). assert (j = k) as -> by lia. congruence.
  - destruct (Z.eqb_spec level 0) as [->|Hne].
    + split; [intros _; exists k; split_and!; [lia|lia|done|intros i Hi; lia]|done].
    + rewrite IH. split; intros (j & Hj & H0 & Hb); exists j.
      * split_and!; [lia|lia|done|]. intros i Hi. destruct (decide (i = k)) as [->|]; [by exists level|]. apply Hb. lia.
      * destruct (decide (j = k)) as [->|]; [congruence|]. split_and!; [lia|lia|done|]. intros i Hi. apply Hb. lia.
Qed.
Lemma activity_from_spec dio1 wanted k polls :
  let '(j, a) := LinuxWatch.activity_from dio1 wanted k polls in
  (k <= j <= k + polls)%nat /\ act_irq a = LinuxWatch.raised (dio1 j) /\ act_host a = wanted j
  /\ (forall i, (k <= i < j)%nat -> LinuxWatch.raised (dio1 i) = false /\ wanted i = false)
  /\ (j = (k + polls)%nat \/ act_irq a || act_host a = true).
Proof.
  revert k; induction polls as [|polls IH]; intros k; cbn [LinuxWatch.activity_from].
  { split_and!; try done; try lia. }
  destruct (LinuxWatch.raised (dio1 k) || wanted k) eqn:Hany.
  - split_and!; try done; try lia. by right.
  - specialize (IH (S k)). destruct (LinuxWatch.activity_from dio1 wanted (S k) polls) as [j a].
    destruct IH as (H1 & H2 & H3 & H4 & H5). apply orb_false_iff in Hany as [Hi Hw]. split_and!; try done; try lia.
    + intros i Hr. destruct (decide (i = k)) as [->|]; [done|]. apply H4. lia.
    + destruct H5 as [->|]; [left; lia|by right].
Qed.
Lemma irq_from_spec dio1 wanted k fuel j : (k <= j < k + fuel)%nat ->
  (forall i, (k <= i < j)%nat -> dio1 i = Some 0 /\ wanted i = false) ->
  LinuxWatch.raised (dio1 j) = true \/ dio1 j = None \/ wanted j = true ->
  LinuxIv.irq_from dio1 wanted k fuel
  = Some (j, match dio1 j with None => Err DrDIO1 | Some level => Ok (level =? 0) end).
Proof.
  revert k; induction fuel as [|fuel IH]; intros k Hj Hbefore Hat; [lia|]. cbn [LinuxIv.irq_from].
  destruct (decide (j = k)) as [->|Hne].
  - destruct (dio1 k) as [level|] eqn:Hk; [|done]. destruct (Z.eqb_spec level 0) as [->|]; [|done]. cbn [negb].
    destruct Hat as [Hr|[Hn|Hw]]; [done|done|by rewrite Hw].
  - destruct (Hbefore k) as [Hd Hw]; [lia|]. rewrite Hd, Hw. cbn [Z.eqb negb]. apply IH; [lia| |done]. intros i Hi. apply Hbefore. lia.
Qed.

(** The waits of the board answer what the lines say. BUSY is low, or was not at any poll
    to the deadline, or could not be read. The driver thread is woken at the first poll at
    which DIO1 is high or the host wants it, never later, and told which; a line that
    cannot be read is not an interrupt. The wait for a transmission ends at the first
    poll with a high line, an unreadable one or a wake, which it takes. *)
Theorem board_waits_on_the_lines (busy dio1 : nat -> option Z) (wanted : nat -> bool) (polls j : nat) :
  (LinuxIv.wait_on_busy busy polls = Ok tt
   <-> exists i, (i <= polls)%nat /\ busy i = Some 0 /\ forall k, (k < i)%nat -> exists level, busy k = Some level /\ level <> 0)
  /\ (let '(i, a) := LinuxWatch.wait_for_activity dio1 wanted polls in
      (i <= polls)%nat /\ act_irq a = LinuxWatch.raised (dio1 i) /\ act_host a = wanted i
      /\ (forall k, (k < i)%nat -> LinuxWatch.raised (dio1 k) = false /\ wanted k = false)
      /\ (i = polls \/ act_irq a || act_host a = true))
  /\ ((forall i, (i < j)%nat -> dio1 i = Some 0 /\ wanted i = false) ->
      LinuxWatch.raised (dio1 j) = true \/ dio1 j = None \/ wanted j = true ->
      LinuxIv.await_irq dio1 wanted (S j) = Some (j, match dio1 j with None => Err DrDIO1 | Some level => Ok (level =? 0) end)).
Proof.
  split_and!.
  - unfold LinuxIv.wait_on_busy. rewrite busy_from_spec. split; intros (i & Hi & H0 & Hb); exists i; (split_and!; [lia..|done|]);
      intros k Hk; apply Hb; lia.
  - unfold LinuxWatch.wait_for_activity. pose proof (activity_from_spec dio1 wanted 0 polls) as Hs.
    destruct (LinuxWatch.activity_from dio1 wanted 0 polls) as [i a]. destruct Hs as (H1 & H2 & H3 & H4 & H5).
    split_and!; [lia|done|done| |done]. intros k Hk. apply H4. lia.
  - intros Hb Hat. apply irq_from_spec; [lia| |done]. intros i Hi. apply Hb. lia.
Qed.

(** A delay is rounded down to whole microseconds, where the bridge's protocol rounds up:
    the board waits for less than the driver asked. *)
Example a_delay_is_cut_short :
  LinuxSpi.transfer_of (DelayNs 1999) = Pause 1 /\ LinuxSpi.transfer_of (DelayNs 999) = Pause 0
  /\ Protocol.encode_operation (DelayNs 1999) = Protocol.push Protocol.OP_DELAY 2 [].
Proof. split_and!; reflexivity. Qed.
