(* ===== verification/Station.v ===== *)
(** The virtual radio of a node, put together (src/src/infrastructure/sx126x/radio.rs,
    [Sx126xRadio::start]): the chip, the connection to the channel emulator, the two
    threads between them and the node's end of the driver thread.

    The driver thread itself is in [Driver]; here it is whoever clocks transactions over
    the chip's bus. The threads interleave in any order: a run is a list of turns. A
    channel is the list of what was put in, with the number of items taken out where
    both ends matter. *)
From S2P Require Import Prelude Radio Hub HubRelay Chip ChipProofs Bridge Driver.

Inductive StartError := StartHub (e : HubError) | StartThread.

Module Sx126xRadio.
(** [handle], [chip]; the antenna thread's writer and how many of the chip's frames it has
    taken; what the reader thread has handed to the listener thread. *)
Record t := mk {
  handle : DriverHandle.t;
  chip : Chip.t;
  writer : Stream;
  taken : nat;
  deliveries : list Inbound.t;
}.
(** [threads] says which of the three threads the host grants. *)
Definition start (hub : str) (index : Z) (profile : PhyProfile.t) (scale : Z) (listening : nat -> bool)
    (handed cloned : bool) (threads : nat -> bool) : result StartError t :=
  match connect hub index listening handed cloned with
  | Err e => Err (StartHub e)
  | Ok writer =>
      let chip := Chip.new scale (PhyProfile.preamble_symbols_to_lock profile) in
      if threads 0%nat && threads 1%nat && threads 2%nat then Ok (mk (DriverHandle.mk [] [] true) chip writer 0 [])
      else Err StartThread
  end.

Definition with_handle (r : t) (handle : DriverHandle.t) : t := mk handle (chip r) (writer r) (taken r) (deliveries r).
Definition say (r : t) (es : list RadioEvent) : t :=
  let h := handle r in
  with_handle r (DriverHandle.mk (DriverHandle.commands h) (DriverHandle.events h ++ es) (DriverHandle.attached h)).
(** The chip tells the node's own channel what it missed. *)
Definition with_chip (r : t) (c : Chip.t) : t :=
  say (mk (handle r) c (writer r) (taken r) (deliveries r)) (drop (length (Chip.events (chip r))) (Chip.events c)).

Definition transmit (r : t) (frame : bytes) : t * result RadioError unit :=
  match DriverHandle.transmit (handle r) frame with
  | (handle, Ok _) => (with_chip (with_handle r handle) (Chip.wake_host (chip r)), Ok tt)
  | (handle, Err e) => (with_handle r handle, Err e)
  end.
Definition poll (r : t) : t * option RadioEvent :=
  let '(handle, e) := DriverHandle.poll (handle r) in (with_handle r handle, e).

Section threads.
Context `{LoraModulation}.
(** The listener thread's next message, and the antenna thread's next frame. *)
Definition listener (r : t) (now : Z) : t :=
  match deliveries r with
  | [] => r
  | inbound :: rest =>
      let r := mk (handle r) (chip r) (writer r) (taken r) rest in
      match inbound with
      | Inbound.Delivery d => with_chip r (Chip.deliver (chip r) now d)
      | Inbound.Preamble p => with_chip r (Chip.notice_preamble (chip r) now p)
      end
  end.
Definition antenna (r : t) : t :=
  match Chip.outbound (chip r) !! taken r with
  | None => r
  | Some frame => mk (handle r) (chip r) (send (writer r) frame) (S (taken r)) (deliveries r)
  end.
End threads.
End Sx126xRadio.
#[global] Instance sx126x_radio : Radio Sx126xRadio.t := {
  radio_transmit := Sx126xRadio.transmit;
  radio_poll := Sx126xRadio.poll;
}.

(** * Turns *)

Module Turn.
Inductive t :=
| Clocked (now : Z) (ops : list Operation)
| Reset
| Watched
| Interrupted
| Timer (i : nat)
| Took (n : nat)
| Said (e : RadioEvent)
| Antenna
| Arrived (message : Inbound.t)
| Listener (now : Z)
| Transmit (frame : bytes)
| Poll.
(** What goes over the bus is bytes. *)
Definition wf (x : t) : Prop :=
  match x with Clocked _ ops => wf_bytes (concat (VirtualSpi.command_of <$> ops)) | _ => True end.
End Turn.

Section turns.
Context `{LoraModulation}.
Implicit Types r : Sx126xRadio.t.
Definition turn (r : Sx126xRadio.t) (x : Turn.t) : Sx126xRadio.t :=
  let c := Sx126xRadio.chip r in
  match x with
  | Turn.Clocked now ops => Sx126xRadio.with_chip r (VirtualSpi.transaction c now ops).1
  | Turn.Reset => Sx126xRadio.with_chip r (VirtualIv.reset c)
  | Turn.Watched => Sx126xRadio.with_chip r (Chip.activity_seen c).1
  | Turn.Interrupted => Sx126xRadio.with_chip r (default c (VirtualIv.await_irq c))
  | Turn.Timer i => Sx126xRadio.with_chip r (Chip.fire c i)
  | Turn.Took n =>
      let h := Sx126xRadio.handle r in
      Sx126xRadio.with_handle r (DriverHandle.mk (drop n (DriverHandle.commands h)) (DriverHandle.events h) (DriverHandle.attached h))
  | Turn.Said e => Sx126xRadio.say r [e]
  | Turn.Antenna => Sx126xRadio.antenna r
  | Turn.Arrived message =>
      Sx126xRadio.mk (Sx126xRadio.handle r) c (Sx126xRadio.writer r) (Sx126xRadio.taken r) (Sx126xRadio.deliveries r ++ [message])
  | Turn.Listener now => Sx126xRadio.listener r now
  | Turn.Transmit frame => (radio_transmit r frame).1
  | Turn.Poll => (radio_poll r).1
  end.
Definition turns (r : Sx126xRadio.t) (xs : list Turn.t) : Sx126xRadio.t := foldl turn r xs.
End turns.

(** * What a run keeps *)

Section bounds.
Context `{LoraModulation}.
Implicit Types (c : Chip.t) (m : Model.t).

Record sound_model m : Prop := {
  sm_buffer : length (Model.buffer m) = BUFFER_BYTES;
  sm_base : is_u8 (Model.rx_base m);
  sm_payload : is_u8 (payload_length (Model.packet_ m));
}.
(** A chip that can only send frames a socket can carry. *)
Definition sound c : Prop := sound_model (Chip.model c) /\ Forall (fun f => len f <= U8_MAX) (Chip.outbound c).
(** What any turn does to it. *)
Definition onward c c' : Prop := (sound c -> sound c') /\ Chip.outbound c `prefix_of` Chip.outbound c'.

Lemma param_u8 params i : wf_bytes params -> is_u8 (param params i).
Proof.
  intros Hwf. unfold param. destruct (nth_in_or_default i params 0) as [Hin| ->]; [|width; lia].
  eapply Forall_forall in Hwf; [done|]. by apply list_elem_of_In.
Qed.
Lemma sound_mode m mode since g : sound_model m -> sound_model (Model.with_mode m mode since g).
Proof. by intros [? ? ?]. Qed.
Lemma sound_awake m : sound_model m -> sound_model (awake m).
Proof. intros Hm. unfold awake. case_decide; [|done]. by apply sound_mode. Qed.
Lemma configure_sound m opcode params : wf_bytes params -> sound_model m -> sound_model (configure m opcode params).
Proof.
  intros Hwf [Hb Hr Hp]. unfold configure. pose proof (param_u8 params 1 Hwf). pose proof (param_u8 params 3 Hwf).
  repeat case_match; constructor; cbn; rewrite ?write_ring_length; done.
Qed.
Lemma fresh_sound : sound_model Model.fresh.
Proof. constructor; [done|..]; cbn; width; lia. Qed.
Lemma prefix_same {A} (l : list A) : l `prefix_of` l.
Proof. exists []. by rewrite app_nil_r. Qed.
Lemma onward_refl c : onward c c.
Proof. split; [done|apply prefix_same]. Qed.
Lemma onward_trans c1 c2 c3 : onward c1 c2 -> onward c2 c3 -> onward c1 c3.
Proof. intros [S1 P1] [S2 P2]. split; [auto|]. by etrans. Qed.
Lemma onward_model c c' : (sound_model (Chip.model c) -> sound_model (Chip.model c')) -> Chip.outbound c' = Chip.outbound c -> onward c c'.
Proof. intros Hm Ho. unfold onward, sound. rewrite Ho. split; [|apply prefix_same]. intros [? ?]. auto. Qed.

Lemma arm_same c now t : Chip.model (Chip.arm c now t) = Chip.model c /\ Chip.outbound (Chip.arm c now t) = Chip.outbound c.
Proof. by destruct t. Qed.
Lemma busy_sound m opcode until : sound_model m ->
  sound_model (if opcode =? OP_SET_SLEEP then m else Model.with_busy m until).
Proof. intros Hm. case_match; [done|]. by destruct Hm. Qed.
Lemma execute_onward c now opcode params : wf_bytes params -> onward c (Chip.execute c now opcode params).1.
Proof.
  intros Hwf. unfold Chip.execute. fold (awake (Chip.model c)).
  pose proof (sound_awake (Chip.model c)) as Haw. set (m := awake (Chip.model c)) in *.
  destruct (Chip.reads opcode); [|destruct (opcode =? OP_SET_TX); [|destruct ((opcode =? OP_SET_RX) || _);
    [|destruct (opcode =? OP_SET_CAD_PARAMS); [|destruct (opcode =? OP_SET_CAD)]]]].
  2:{ split; [|cbn; by eexists]. intros [Hm Hout]. specialize (Haw Hm). split; [by apply busy_sound; destruct Haw|].
      cbn. apply Forall_app. split; [done|]. apply Forall_singleton.
      unfold len. rewrite length_fmap, length_seqZ. destruct Haw as [_ _ Hp]. width. lia. }
  all: cbn [Chip.begin_receive Chip.begin_cad fst]; apply onward_model;
    [intros Hm; rewrite (proj1 (arm_same _ _ _)); cbn [Chip.model Chip.with_model]; apply busy_sound; specialize (Haw Hm)
    |by rewrite (proj2 (arm_same _ _ _))].
  - done.
  - by destruct Haw.
  - by destruct Haw.
  - case_match; by destruct Haw.
  - by apply configure_sound.
Qed.
Lemma deliver_onward c now d : onward c (Chip.deliver c now d).
Proof.
  apply onward_model.
  - intros [? ? ?]. unfold Chip.deliver. repeat case_match; simplify_eq; constructor; cbn; rewrite ?write_ring_length; done.
  - unfold Chip.deliver. by repeat case_match.
Qed.
Lemma fire_onward c i : onward c (Chip.fire c i).
Proof.
  unfold Chip.fire. destruct (Chip.timers c !! i) as [[at_ t]|]; [|apply onward_refl]. apply onward_model; [|done].
  intros [? ? ?]. unfold Chip.fire_model. repeat case_match; done.
Qed.
Lemma transaction_onward c now ops : wf_bytes (concat (VirtualSpi.command_of <$> ops)) ->
  onward c (VirtualSpi.transaction c now ops).1.
Proof.
  unfold VirtualSpi.transaction, VirtualSpi.run_command. intros Hwf.
  destruct (concat _) as [|opcode params]; [apply onward_refl|]. apply Forall_cons in Hwf as [_ Hwf].
  pose proof (execute_onward c now opcode params Hwf) as Ho. by destruct (Chip.execute c now opcode params).
Qed.

(** A turn of anything but the antenna thread. *)
Ltac same_bounds := apply onward_model; [by intros [? ? ?]|done].
Lemma turn_chip r x : Turn.wf x -> onward (Sx126xRadio.chip r) (Sx126xRadio.chip (turn r x))
  /\ (x <> Turn.Antenna -> Sx126xRadio.writer (turn r x) = Sx126xRadio.writer r /\ Sx126xRadio.taken (turn r x) = Sx126xRadio.taken r).
Proof.
  intros Hwf. split.
  - destruct x; cbn [turn]; try apply onward_refl.
    + by apply transaction_onward.
    + apply onward_model; [|done]. intros _. destruct fresh_sound. by constructor.
    + same_bounds.
    + unfold VirtualIv.await_irq, Chip.await_irq. case_match; [same_bounds|apply onward_refl].
    + apply fire_onward.
    + unfold Sx126xRadio.antenna. case_match; apply onward_refl.
    + unfold Sx126xRadio.listener. destruct (Sx126xRadio.deliveries r) as [|[d|p] rest]; [apply onward_refl|apply deliver_onward|].
      same_bounds.
    + cbn. unfold Sx126xRadio.transmit, DriverHandle.transmit. repeat case_match; simplify_eq; try apply onward_refl; same_bounds.
    + cbn. unfold Sx126xRadio.poll, DriverHandle.poll. repeat case_match; simplify_eq; apply onward_refl.
  - intros Hne. destruct x; cbn [turn]; try done.
    + unfold Sx126xRadio.listener. by destruct (Sx126xRadio.deliveries r) as [|[d|p] rest].
    + cbn. unfold Sx126xRadio.transmit. by repeat case_match.
    + cbn. unfold Sx126xRadio.poll. by repeat case_match.
Qed.
End bounds.

(** * From the chip to the emulator *)

(** A frame of no bytes is a message of no bytes, on which the emulator's reader ends. *)
Fixpoint until_empty (frames : list bytes) : list bytes :=
  match frames with [] | [] :: _ => [] | frame :: frames => frame :: until_empty frames end.

Section medium.
Context `{LoraModulation}.
Implicit Types r : Sx126xRadio.t.

Lemma reads_until_empty frames : Forall (fun f => len f <= U8_MAX) frames ->
  read_frames (concat (framed <$> frames)) = until_empty frames.
Proof.
  change (read_frames (concat (framed <$> frames))) with (read_all Some (concat (framed <$> frames))).
  induction 1 as [|f frames Hf _ IH]; [done|]. rewrite fmap_cons. cbn [concat]. unfold U8_MAX in Hf.
  rewrite read_all_step, read_one_framed by (unfold U32_MAX; lia). unfold socket_fits, MAX_SOCKET_FRAME_BYTES, len in *.
  destruct f as [|b f]; [by rewrite decide_False by (cbn; lia)|].
  rewrite decide_True by (cbn [length] in *; lia). cbn [mbind option_bind until_empty]. by rewrite IH.
Qed.
Lemma until_empty_all frames : Forall (fun f => f <> []) frames -> until_empty frames = frames.
Proof. induction 1 as [|[|b f] frames Hf _ IH]; [done|done|]. cbn [until_empty]. by rewrite IH. Qed.

(** The radio of member [index], running. *)
Definition on_duty (index : Z) r : Prop :=
  exists hub profile scale listening handed cloned threads xs r0,
    Sx126xRadio.start hub index profile scale listening handed cloned threads = Ok r0
    /\ Forall Turn.wf xs /\ r = turns r0 xs.
(** Its connection holds the handshake and the frames its antenna thread has taken. *)
Record connected (index : Z) r : Prop := {
  cn_sound : sound (Sx126xRadio.chip r);
  cn_taken : (Sx126xRadio.taken r <= length (Chip.outbound (Sx126xRadio.chip r)))%nat;
  cn_writer : Sx126xRadio.writer r = mk_stream (handshake index
    ++ concat (framed <$> take (Sx126xRadio.taken r) (Chip.outbound (Sx126xRadio.chip r)))) true;
}.
Lemma connected_antenna index r : connected index r -> connected index (turn r Turn.Antenna).
Proof.
  intros [Hs Ht Hw]. cbn [turn]. unfold Sx126xRadio.antenna.
  destruct (Chip.outbound (Sx126xRadio.chip r) !! Sx126xRadio.taken r) as [frame|] eqn:Hf; [|by constructor].
  constructor; cbn [Sx126xRadio.chip Sx126xRadio.taken Sx126xRadio.writer]; [done|by apply lookup_lt_Some in Hf|].
  rewrite (take_S_r _ _ _ Hf), fmap_app, concat_app, Hw. unfold send, write_all, framed. cbn. by rewrite !app_nil_r, <- !app_assoc.
Qed.
Lemma connected_turn index r x : Turn.wf x -> connected index r -> connected index (turn r x).
Proof.
  intros Hwf Hc. destruct (turn_chip r x Hwf) as [[Hs Hp] Hsame].
  assert (x = Turn.Antenna \/ x <> Turn.Antenna) as [->|Hne] by (destruct x; auto; by right); [by apply connected_antenna|].
  destruct (Hsame Hne) as [Hw Ht]. destruct Hc as [Hs0 Ht0 Hw0]. destruct Hp as [more Hp].
  constructor; rewrite ?Hp; [auto|rewrite Ht, length_app; lia|]. rewrite Hw, Ht, take_app_le by done. done.
Qed.
Lemma connected_turns index r xs : Forall Turn.wf xs -> connected index r -> connected index (turns r xs).
Proof. intros Hxs. revert r; induction Hxs as [|x xs Hx _ IH]; intros r Hc; [done|]. by apply IH, connected_turn. Qed.
Lemma on_duty_connected index r : on_duty index r -> connected index r.
Proof.
  intros (hub & profile & scale & listening & handed & cloned & threads & xs & r0 & Hstart & Hxs & ->).
  apply connected_turns; [done|]. unfold Sx126xRadio.start in Hstart.
  destruct (connect hub index listening handed cloned) as [w|e] eqn:Hc; [|done]. destruct (_ && _ && _); [|done].
  assert (r0 = Sx126xRadio.mk (DriverHandle.mk [] [] true)
    (Chip.new scale (PhyProfile.preamble_symbols_to_lock profile)) w 0 []) as -> by congruence.
  unfold connect in Hc. destruct (existsb _ _); [|done]. destruct (handed && cloned); [|done].
  assert (w = write_all (mk_stream [] true) (handshake index)) as -> by congruence.
  constructor; [split; [apply fresh_sound|apply Forall_nil_2]|cbn; lia|]. cbn [Sx126xRadio.writer Sx126xRadio.taken take fmap list_fmap concat]. by rewrite app_nil_r.
Qed.
Lemma connected_reads index r : is_u16 index -> connected index r ->
  accept_node (written (Sx126xRadio.writer r))
  = Some (index, until_empty (take (Sx126xRadio.taken r) (Chip.outbound (Sx126xRadio.chip r)))).
Proof.
  intros Hi [[_ Hout] _ Hw]. rewrite Hw. cbn [written]. rewrite accept_handshake by done.
  rewrite reads_until_empty; [done|by apply Forall_take].
Qed.
(** A connection cut short. *)
Lemma accept_cut (cut rest : bytes) index frames : accept_node (cut ++ rest) = Some (index, frames) ->
  match accept_node cut with Some (member, read) => member = index /\ read `prefix_of` frames | None => len cut < 2 end.
Proof.
  unfold accept_node. destruct (read_exact 2 cut) as [[h more]|] eqn:Hh.
  - destruct (read_exact_more 2 cut (cut ++ rest) h more) as (more' & -> & Hm); [by apply prefix_app_r, prefix_same|done|].
    cbn [mbind option_bind]. intros Heq. assert (of_le h = index /\ read_frames more' = frames) as [<- <-] by (split; congruence).
    split; [done|]. by apply (read_all_prefix Some).
  - intros _. cbn [mbind option_bind]. unfold read_exact in Hh. by destruct (Z.ltb_spec (len cut) 2).
Qed.
(** Enough turns of the antenna thread take everything. *)
Lemma antenna_drains r k : (length (Chip.outbound (Sx126xRadio.chip r)) - Sx126xRadio.taken r <= k)%nat ->
  (Sx126xRadio.taken r <= length (Chip.outbound (Sx126xRadio.chip r)))%nat ->
  let r' := turns r (replicate k Turn.Antenna) in
  Sx126xRadio.chip r' = Sx126xRadio.chip r /\ Sx126xRadio.taken r' = length (Chip.outbound (Sx126xRadio.chip r)).
Proof.
  revert r; induction k as [|k IH]; intros r Hk Ht r'; [split; [done|cbn; lia]|].
  unfold r'. cbn [replicate turns foldl turn]. unfold Sx126xRadio.antenna.
  destruct (Chip.outbound (Sx126xRadio.chip r) !! Sx126xRadio.taken r) as [frame|] eqn:Hf.
  - apply lookup_lt_Some in Hf as Hlt.
    apply (IH (Sx126xRadio.mk _ _ _ _ _)); cbn [Sx126xRadio.chip Sx126xRadio.taken]; lia.
  - apply lookup_ge_None in Hf. apply IH; lia.
Qed.

(** The emulator reads what the chip sent. Whatever the driver thread clocks over the bus,
    whatever arrives, and however the threads interleave: under the member's own index the
    emulator reads the frames the chip has put out, each once, whole and in their order, as
    far as the antenna thread has got -- and no frame it has not -- up to the first frame of
    no bytes, on which it stops listening to that member for good. A connection cut after any
    byte has delivered a prefix of that. The antenna thread gets to every frame. *)
Theorem emulator_reads_what_the_chip_sent (index : Z) r : is_u16 index -> on_duty index r ->
  let frames := Chip.outbound (Sx126xRadio.chip r) in
  accept_node (written (Sx126xRadio.writer r)) = Some (index, until_empty (take (Sx126xRadio.taken r) frames))
  /\ (forall cut, cut `prefix_of` written (Sx126xRadio.writer r) ->
        match accept_node cut with
        | Some (member, read) => member = index /\ read `prefix_of` until_empty (take (Sx126xRadio.taken r) frames)
        | None => len cut < 2
        end)
  /\ (forall k, (length frames - Sx126xRadio.taken r <= k)%nat ->
        let r' := turns r (replicate k Turn.Antenna) in
        Sx126xRadio.chip r' = Sx126xRadio.chip r
        /\ accept_node (written (Sx126xRadio.writer r')) = Some (index, until_empty frames))
  /\ Forall (fun f => len f <= U8_MAX) frames.
Proof.
  intros Hi Hr%on_duty_connected frames. split; [by apply connected_reads|].
  split; [|split; [|apply Hr]].
  { intros cut Hcut. pose proof (connected_reads index r Hi Hr) as Hall. destruct Hcut as [rest Hcut]. rewrite Hcut in Hall.
    by apply (accept_cut cut rest). }
  intros k Hk r'. destruct (antenna_drains r k Hk (cn_taken _ _ Hr)) as [Hc Ht]. split; [done|].
  rewrite (connected_reads index r' Hi).
  - unfold r'. rewrite Hc, Ht. by rewrite take_ge.
  - apply connected_turns; [|done]. by apply Forall_replicate.
Qed.
End medium.

(** * From one host to another *)

Section crossing.
Context `{LoraModulation}.
Implicit Types r : Sx126xRadio.t.

(** The transactions with which a driver sends a frame. *)
Definition sending_commands (base rx preamble header : Z) (frame : bytes) : list (Z * bytes) :=
  [(OP_SET_BUFFER_BASE_ADDRESS, [base; rx]); (OP_WRITE_BUFFER, base :: frame);
   (OP_SET_PACKET_PARAMS, two preamble ++ [header; len frame; 0; 0]); (OP_SET_TX, [0; 0; 0])].
Definition sending (now base rx preamble header : Z) (frame : bytes) : list Turn.t :=
  (fun cmd => Turn.Clocked now [Write (cmd.1 :: cmd.2)]) <$> sending_commands base rx preamble header frame.
Lemma clocked_chip r now opcode params : Sx126xRadio.chip (turn r (Turn.Clocked now [Write (opcode :: params)]))
  = (Chip.execute (Sx126xRadio.chip r) now opcode params).1.
Proof.
  cbn [turn]. unfold VirtualSpi.transaction. cbn [fmap list_fmap VirtualSpi.command_of concat]. rewrite app_nil_r.
  cbn [VirtualSpi.run_command]. by destruct (Chip.execute (Sx126xRadio.chip r) now opcode params).
Qed.
Lemma clocked_commands r now cmds :
  Sx126xRadio.chip (turns r ((fun cmd => Turn.Clocked now [Write (cmd.1 :: cmd.2)]) <$> cmds)) = commands (Sx126xRadio.chip r) now cmds.
Proof.
  revert r; induction cmds as [|[opcode params] cmds IH]; intros r; [done|]. rewrite fmap_cons. unfold turns, commands. cbn [foldl].
  unfold turns in IH. by rewrite IH, clocked_chip.
Qed.
Lemma sending_wf now base rx preamble header frame : is_u8 base -> is_u8 rx -> is_u8 header -> wf_bytes frame -> len frame <= U8_MAX ->
  Forall Turn.wf (sending now base rx preamble header frame).
Proof.
  intros. apply Forall_fmap, Forall_forall. intros [opcode params] Hin. cbn. rewrite app_nil_r. unfold wf_bytes in *.
  assert (is_u8 (len frame)) by (unfold is_u8, len in *; lia).
  assert (forall z, 0 <= z <= 255 -> is_u8 z) as Hb by (intros z Hz; width; lia).
  assert (Forall is_u8 (two preamble)) by apply wf_be_bytes.
  unfold sending_commands in Hin. repeat (apply elem_of_cons in Hin as [Hin|Hin]; [simplify_eq|]); [..|by apply elem_of_nil in Hin];
    repeat match goal with
           | |- Forall _ (_ :: _) => apply Forall_cons_2
           | |- Forall _ (_ ++ _) => apply Forall_app_2
           | |- Forall _ [] => apply Forall_nil_2
           end; try done; apply Hb; unfold OP_SET_BUFFER_BASE_ADDRESS,
    OP_WRITE_BUFFER, OP_SET_PACKET_PARAMS, OP_SET_TX; lia.
Qed.
(** A read over the bus of as many bytes as the chip answers, or fewer. *)
Lemma clocked_read c now opcode params n : (n <= length (Chip.execute c now opcode params).2)%nat ->
  (VirtualSpi.transaction c now [Write (opcode :: params); Read (replicate n 0)]).2
  = [Write (opcode :: params); Read (take n (Chip.execute c now opcode params).2)].
Proof.
  intros Hn. unfold VirtualSpi.transaction. cbn [fmap list_fmap VirtualSpi.command_of concat]. rewrite app_nil_r.
  cbn [VirtualSpi.run_command]. destruct (Chip.execute c now opcode params) as [c' reply]. cbn [snd VirtualSpi.fill] in *.
  unfold VirtualSpi.next_bytes. by rewrite length_replicate, take_app_le.
Qed.

(** C21: A frame crosses two chips and the wires to them. Two members are up, whatever they did
    before, except that the first has never sent an empty frame: the emulator takes one for
    the end of the connection ([an_empty_frame_hangs_up]). Its driver writes a frame of 1 to
    255 bytes into its chip -- at any base, round the end of the buffer included -- and
    sends it: once its antenna thread has run, that is the next and last frame the emulator
    reads from that member. And when the emulator writes a delivery of it, with any
    verdict but a bad header, to the other, whose chip has been listening since (nearly)
    its start, has no earlier delivery waiting, and has its receive base low enough for the
    frame to end inside the buffer, the other's driver clocks the length and the frame
    out of its chip, byte for byte, and finds the interrupt raised, with the bad checksum
    if that was the verdict. *)
Theorem frame_crosses_two_chips (ia ib : Z) (ra rb : Sx126xRadio.t) (nowa nowb base rx preamble header : Z)
    (frame : bytes) (d : Delivery.t) :
  is_u16 ia -> on_duty ia ra -> on_duty ib rb ->
  is_u8 base -> is_u8 rx -> is_u16 preamble -> is_u8 header -> wf_bytes frame -> len frame <= U8_MAX -> frame <> [] ->
  Forall (fun f => f <> []) (Chip.outbound (Sx126xRadio.chip ra)) ->
  Delivery.wf d -> Delivery.payload d = frame -> Delivery.verdict d <> Verdict.HeaderError ->
  Sx126xRadio.deliveries rb = [] -> Chip.listening_since (Sx126xRadio.chip rb) nowb d = true ->
  let base' := Model.rx_base (Chip.model (Sx126xRadio.chip rb)) in
  base' + len frame <= 256 ->
  let sent := turns ra (sending nowa base rx preamble header frame) in
  let aired := turns sent (replicate (length (Chip.outbound (Sx126xRadio.chip sent))) Turn.Antenna) in
  let heard := turns rb ((Turn.Arrived <$> read_deliveries (written (write_delivery (mk_stream [] true) d))) ++ [Turn.Listener nowb]) in
  let chip := Sx126xRadio.chip heard in
  accept_node (written (Sx126xRadio.writer aired)) = Some (ia, Chip.outbound (Sx126xRadio.chip ra) ++ [frame])
  /\ (VirtualSpi.transaction chip nowb [Write [OP_GET_RX_BUFFER_STATUS]; Read (replicate 3 0)]).2
     = [Write [OP_GET_RX_BUFFER_STATUS]; Read [status_bits (Model.mode (Chip.model chip)); len frame; base']]
  /\ (VirtualSpi.transaction chip nowb [Write [OP_READ_BUFFER; base'; 0]; Read (replicate (length frame) 0)]).2
     = [Write [OP_READ_BUFFER; base'; 0]; Read frame]
  /\ Model.irq_status (Chip.model chip)
     = Z.lor (Model.irq_status (Chip.model (Sx126xRadio.chip rb)))
         (Z.land (if decide (Delivery.verdict d = Verdict.Decoded) then 0x1E else 0x5E) (Model.irq_mask (Chip.model (Sx126xRadio.chip rb)))).
Proof.
  intros Hi Ha%on_duty_connected Hb%on_duty_connected Hbase Hrx Hpre Hhdr Hframe Hlen Hne Hall Hd Hpay Hv Hidle Hlis base' Hfit
    sent aired heard chip.
  split.
  - assert (connected ia sent) as Hs by (apply connected_turns; [by apply sending_wf|done]).
    assert (Chip.outbound (Sx126xRadio.chip sent) = Chip.outbound (Sx126xRadio.chip ra) ++ [frame]) as Hout.
    { unfold sent, sending. rewrite clocked_commands. apply transmits_what_was_written; try done. apply Ha. }
    assert (on_air : connected ia aired) by (apply connected_turns; [by apply Forall_replicate|done]).
    destruct (antenna_drains sent (length (Chip.outbound (Sx126xRadio.chip sent))) ltac:(lia) (cn_taken _ _ Hs)) as [Hc Ht].
    rewrite (connected_reads ia aired Hi on_air). unfold aired. rewrite Hc, Ht, take_ge by lia. rewrite Hout.
    rewrite until_empty_all; [done|]. apply Forall_app. split; [done|by apply Forall_singleton].
  - assert (read_deliveries (written (write_delivery (mk_stream [] true) d)) = [Inbound.Delivery d]) as Hread.
    { pose proof (hub_writes (mk_stream [] true) [Inbound.Delivery d] eq_refl) as Hw. cbn [foldl hub_write] in Hw.
      rewrite Hw. cbn [written app]. rewrite <- (app_nil_r (concat _)).
      apply (read_all_framed Inbound.decode [Inbound.encode (Inbound.Delivery d)] [Inbound.Delivery d] []).
      constructor; [|constructor]. split; [|by apply inbound_decode_encode].
      unfold socket_fits. cbn [Inbound.encode]. rewrite delivery_length, Hpay. unfold MAX_SOCKET_FRAME_BYTES, U8_MAX, len in *. lia. }
    assert (chip = Chip.deliver (Sx126xRadio.chip rb) nowb d) as Hchip.
    { unfold chip, heard. rewrite Hread. cbn. unfold Sx126xRadio.listener. cbn. by rewrite Hidle. }
    destruct Hb as [[[Hbuf Hrb _] _] _ _].
    pose proof (reception_on_every_branch (Sx126xRadio.chip rb) nowb d Hbuf Hrb ltac:(by rewrite Hpay)) as Hrec.
    cbv zeta in Hrec. rewrite Hlis, <- Hchip, Hpay in Hrec. fold base' in Hrec. destruct Hrec as [_ Hrec].
    assert ((Chip.execute chip nowb OP_GET_RX_BUFFER_STATUS []).2 = [status_bits (Model.mode (Chip.model chip)); len frame; base']
      /\ take (length frame) (Chip.execute chip nowb OP_READ_BUFFER [base'; 0]).2 = frame
      /\ Model.irq_status (Chip.model chip) = Z.lor (Model.irq_status (Chip.model (Sx126xRadio.chip rb)))
         (Z.land (if decide (Delivery.verdict d = Verdict.Decoded) then 0x1E else 0x5E) (Model.irq_mask (Chip.model (Sx126xRadio.chip rb)))))
      as (Hst & Hbytes & Hirq) by (destruct (Delivery.verdict d); [|done|]; destruct Hrec as (? & Hr & ? & _); split_and!; auto).
    split_and!; [|etrans; [apply clocked_read|by rewrite Hbytes]|done].
    + rewrite clocked_read by (rewrite Hst; cbn; lia). by rewrite Hst.
    + rewrite <- Hbytes at 1. rewrite length_take. lia.
Qed.
End crossing.

(** * Two members *)

#[local] Instance station_modulation : LoraModulation := {
  symbol_duration_us := fun _ => 8192;
  time_on_air_us := fun _ _ _ n => 250000 + 1000 * n;
}.
Definition member_up (index : Z) : result StartError Sx126xRadio.t :=
  Sx126xRadio.start (lit "127.0.0.1:9000") index PhyProfile.eu868_sf10 1 (fun k => bool_decide (k = 2%nat)) true true (fun _ => true).
Definition after (index : Z) (xs : list Turn.t) : Sx126xRadio.t :=
  match member_up index with
  | Ok r => turns r xs
  | Err _ => Sx126xRadio.mk (DriverHandle.mk [] [] false) (Chip.new 1 0) (mk_stream [] false) 0 []
  end.
Definition listening_turns : list Turn.t :=
  [Turn.Clocked 0 [Write [OP_CFG_DIO_IRQ; 0xFF; 0xFF; 0xFF; 0xFF]]; Turn.Clocked 0 [Write [OP_SET_RX; 0xFF; 0xFF; 0xFF]]].
Lemma after_on_duty index xs : Forall Turn.wf xs -> on_duty index (after index xs).
Proof.
  intros Hxs. exists (lit "127.0.0.1:9000"), PhyProfile.eu868_sf10, 1, (fun k => bool_decide (k = 2%nat)), true, true, (fun _ => true), xs.
  eexists. split; [reflexivity|by split].
Qed.
Lemma listening_wf : Forall Turn.wf listening_turns.
Proof. repeat constructor; cbn; apply (bool_decide_unpack _); vm_compute; exact I. Qed.
Definition demo_sending : list Turn.t := sending 0 254 0 8 0 [7; 8; 9].
Lemma demo_sending_wf : Forall Turn.wf demo_sending.
Proof.
  apply sending_wf; first [apply (bool_decide_unpack _); vm_compute; exact I | vm_compute; discriminate].
Qed.

Lemma emulator_reads_what_the_chip_sent_witness :
  accept_node (written (Sx126xRadio.writer (after 5 (demo_sending ++ [Turn.Antenna])))) = Some (5, [[7; 8; 9]]).
Proof.
  refine (proj1 (emulator_reads_what_the_chip_sent 5 (after 5 (demo_sending ++ [Turn.Antenna])) _ _)).
  - apply (bool_decide_unpack _). vm_compute. exact I.
  - apply after_on_duty, Forall_app_2; [exact demo_sending_wf|by repeat constructor].
Defined.
(** A chip told to send before it is told what: the emulator hears nothing more of that
    member, whatever it sends. *)
Example an_empty_frame_hangs_up :
  let r := after 5 ([Turn.Clocked 0 [Write [OP_SET_TX; 0; 0; 0]]] ++ demo_sending ++ [Turn.Antenna; Turn.Antenna]) in
  Chip.outbound (Sx126xRadio.chip r) = [[]; [7; 8; 9]] /\ Sx126xRadio.taken r = 2%nat
  /\ accept_node (written (Sx126xRadio.writer r)) = Some (5, []).
Proof. vm_compute. by split_and!. Qed.
Lemma frame_crosses_two_chips_witness :
  let d := Delivery.mk [7; 8; 9] (-80) 5 370 Verdict.CrcError in
  let heard := turns (after 6 listening_turns)
    ((Turn.Arrived <$> read_deliveries (written (write_delivery (mk_stream [] true) d))) ++ [Turn.Listener (millis 371)]) in
  (VirtualSpi.transaction (Sx126xRadio.chip heard) (millis 371) [Write [OP_READ_BUFFER; 0; 0]; Read (replicate 3 0)]).2
  = [Write [OP_READ_BUFFER; 0; 0]; Read [7; 8; 9]]
  /\ Model.irq_status (Chip.model (Sx126xRadio.chip heard)) = 0x5E.
Proof.
  intros d heard.
  destruct (frame_crosses_two_chips 5 6 (after 5 []) (after 6 listening_turns) 0 (millis 371) 254 0 8 0 [7; 8; 9] d)
    as (_ & _ & Hread & Hirq).
  1,4,5,6,7,8: apply (bool_decide_unpack _); vm_compute; exact I.
  - by apply after_on_duty.
  - apply after_on_duty, listening_wf.
  - vm_compute. discriminate.
  - discriminate.
  - constructor.
  - unfold d, Delivery.wf, is_u32. cbn. split_and!; try (unfold U32_MAX; lia). apply (bool_decide_unpack _). vm_compute. exact I.
  - reflexivity.
  - discriminate.
  - reflexivity.
  - vm_compute. reflexivity.
  - vm_compute. discriminate.
  - split; [exact Hread|]. refine (eq_trans Hirq _). vm_compute. reflexivity.
Defined.
