(* ===== verification/Preflight.v ===== *)
(** The radio behind the bridge as a node opens it, and the pre-flight that says which
    layer is at fault when it does not come up (the module diagnostic and [BridgeRadio]
    of src/src/infrastructure/sx126x/bridge.rs, src/src/bin/lcq-bridge.rs).

    A step's time is read off the host's clock; the text of an error of the operating
    system is not the program's.  Both are inputs. *)
From S2P Require Import Prelude Manifest Radio Float Args Chip Driver Bridge.

(** * Text *)

(** [{:?}] of a duration in nanoseconds: its largest unit, and the rest as decimals
    without trailing zeros. *)
Fixpoint fraction (fuel : nat) (part divisor : Z) : str :=
  match fuel with
  | O => []
  | S fuel => if part <=? 0 then [] else (48 + part / divisor) :: fraction fuel (part mod divisor) (divisor / 10)
  end.
Definition in_units (n unit : Z) (suffix : str) : str :=
  let decimals := fraction 9 (n mod unit) (unit / 10) in
  decimal (n / unit) ++ (if bool_decide (decimals = []) then [] else lit "." ++ decimals) ++ suffix.
Definition debug_duration (n : Z) : str :=
  if 1000000000 <=? n then in_units n 1000000000 (lit "s")
  else if 1000000 <=? n then in_units n 1000000 (lit "ms")
  else if 1000 <=? n then in_units n 1000 [181; 115]
  else in_units n 1 (lit "ns").
Definition debug_byte (b : option Z) : str :=
  match b with Some b => lit "Some(" ++ decimal b ++ lit ")" | None => lit "None" end.
Definition hex_of (n : nat) (z : Z) : str := lit "0x" ++ hex (be_bytes n z).
Definition bit (b : bool) : str := decimal (if b then 1 else 0).

(** [Display] of an error; [io] is what the operating system says of its own. *)
Definition display (io : str) (e : BridgeError) : str :=
  match e with
  | PortError => lit "serial port: " ++ io
  | Timeout command => lit "no reply to command " ++ hex_of 1 command
  | GoneError => lit "the port closed"
  | Status command status => lit "command " ++ hex_of 1 command ++ lit " failed with status " ++ decimal status
  | Device command code => lit "the device reported error " ++ decimal code ++ lit " during command " ++ hex_of 1 command
  | ProtocolError what => lit "protocol: " ++ what
  | Reset met now => lit "the device restarted mid-operation: session " ++ hex_of 4 met ++ lit " became " ++ hex_of 4 now
  end.

(** * The pre-flight *)

Module Step.
Record t := mk { name : str; outcome : result str str; took : Z }.
Definition passed (s : t) : bool := is_ok (outcome s).
End Step.
Module Report.
Record t := mk { steps : list Step.t }.
Definition passed (r : t) : bool := forallb Step.passed (steps r).
Definition first_failure (r : t) : option Step.t :=
  snd <$> list_find (fun s => Step.passed s = false) (steps r).
End Report.

Module Diagnostic.
Definition PROBE_ROUNDS : nat := 20.

Section diagnostic.
(** How often the two seconds of patience let a hello be repeated, what the operating
    system says of its errors, and the clock: how long each step and each probe took. *)
Context (attempts : nat) (io : str) (took : nat -> Z) (probed : nat -> Z).

Definition spi (l : Link.t) (opcode : Z) (reads : nat) : Link.t * result str bytes :=
  let ops := [Write [opcode]; Read (replicate reads 0)] in
  match Link.call_checked l Protocol.SPI (Protocol.encode_operations ops) with
  | (l, Err e) => (l, Err (display io e))
  | (l, Ok []) => (l, Err (lit "empty reply"))
  | (l, Ok (status :: bs)) =>
      (l, if status =? Protocol.STATUS_OK then Ok bs
          else Err (lit "the device refused the transaction: status " ++ decimal status))
  end.
Definition step (k : nat) (name : str) (body : Link.t -> Link.t * result str str) (l : Link.t) : Link.t * Step.t :=
  let '(l, outcome) := body l in (l, Step.mk name outcome (took k)).

(** [speaks]. *)
Definition say_hello (l : Link.t) : Link.t * result str str :=
  match Link.hello l attempts with
  | (l, Err e) => (l, Err (display io e))
  | (l, Ok h) =>
      (l, Ok (lit "protocol " ++ decimal (Hello.protocol h) ++ lit ", firmware " ++ decimal (Hello.firmware h).1 ++ lit "."
              ++ decimal (Hello.firmware h).2 ++ lit ", board " ++ hex_of 1 (Hello.board h) ++ lit ", session "
              ++ hex_of 4 (Hello.session h) ++ lit ", BUSY " ++ bit (Hello.busy h) ++ lit ", DIO1 " ++ bit (Hello.dio1 h)))
  end.
Definition pulse_reset (l : Link.t) : Link.t * result str str :=
  match Link.call_checked l Protocol.RESET [] with
  | (l, Err e) => (l, Err (display io e))
  | (l, Ok []) => (l, Err (lit "empty reply"))
  | (l, Ok (status :: _)) =>
      (l, if status =? Protocol.STATUS_OK then Ok (lit "NRESET pulsed, BUSY low") else Err (lit "status " ++ decimal status))
  end.
Definition busy_low (l : Link.t) : Link.t * result str str :=
  match Link.call_checked l Protocol.BUSY (le_bytes 2 Protocol.BUSY_LIMIT_MS) with
  | (l, Err e) => (l, Err (display io e))
  | (l, Ok []) => (l, Err (lit "empty reply"))
  | (l, Ok (status :: _)) =>
      (l, if status =? Protocol.STATUS_OK then Ok (lit "the chip is ready for a command")
          else if status =? Protocol.STATUS_TIMEOUT then
            Err (lit "BUSY stayed high: the module may be unpowered or unseated")
          else Err (lit "status " ++ decimal status))
  end.
Definition speaks (l : Link.t) : Link.t * list Step.t :=
  let '(l, s0) := step 0 (lit "hello") say_hello l in
  let '(l, s1) := step 1 (lit "reset") pulse_reset l in
  let '(l, s2) := step 2 (lit "busy low") busy_low l in
  (l, [s0; s1; s2]).

(** [answers]. *)
Definition get_status (l : Link.t) : Link.t * result str str :=
  match spi l OP_GET_STATUS 1 with
  | (l, Err why) => (l, Err why)
  | (l, Ok bs) =>
      let status := nth 0 bs 0 in
      (l, Ok (hex_of 1 status ++ lit ": mode 0x" ++ decimal (Z.land (Z.shiftr status 4) 7)
              ++ lit ", command status 0x" ++ decimal (Z.land (Z.shiftr status 1) 7)))
  end.
Definition get_device_errors (l : Link.t) : Link.t * result str str :=
  match spi l OP_GET_DEVICE_ERRORS 3 with
  | (l, Err why) => (l, Err why)
  | (l, Ok [_; high; low]) =>
      let errors := of_be [high; low] in
      (l, if errors =? 0 then Ok (lit "none") else Err (hex_of 2 errors ++ lit ": the chip reports a fault"))
  | (l, Ok _) => (l, Err (lit "short reply"))
  end.
Definition get_irq_status (l : Link.t) : Link.t * result str str :=
  match spi l OP_GET_IRQ_STATUS 3 with
  | (l, Err why) => (l, Err why)
  | (l, Ok [_; high; low]) => (l, Ok (hex_of 2 (of_be [high; low])))
  | (l, Ok _) => (l, Err (lit "short reply"))
  end.
Definition dio1_reads_low (l : Link.t) : Link.t * result str str :=
  match Link.dio1_level l with
  | (l, Err e) => (l, Err (display io e))
  | (l, Ok true) => (l, Err (lit "DIO1 is high with no IRQ set: the line may be misassigned or stuck"))
  | (l, Ok false) => (l, Ok (lit "no interrupt pending"))
  end.
Definition answers (l : Link.t) : Link.t * list Step.t :=
  let '(l, s3) := step 3 (lit "get status") get_status l in
  let '(l, s4) := step 4 (lit "get device errors") get_device_errors l in
  let '(l, s5) := step 5 (lit "get irq status") get_irq_status l in
  let '(l, s6) := step 6 (lit "dio1 reads low") dio1_reads_low l in
  (l, [s3; s4; s5; s6]).

(** [switches]. *)
Fixpoint try_switch (modes : list (str * Z)) (l : Link.t) : Link.t * result str str :=
  match modes with
  | [] => (l, Ok (lit "receive, transmit and off all accepted"))
  | (name, mode) :: modes =>
      match Link.call_checked l Protocol.RF [mode] with
      | (l, Err e) => (l, Err (name ++ lit ": " ++ display io e))
      | (l, Ok body) =>
          if bool_decide (head body = Some Protocol.STATUS_OK) then try_switch modes l
          else (l, Err (name ++ lit ": status " ++ debug_byte (head body)))
      end
  end.
Definition rf_switch : Link.t -> Link.t * result str str :=
  try_switch [(lit "receive", Protocol.RF_RX); (lit "transmit", Protocol.RF_TX); (lit "off", Protocol.RF_OFF)].
(** The probes from number [k] on, and what they took. *)
Fixpoint probe (rounds k : nat) (l : Link.t) : Link.t * result str (list Z) :=
  match rounds with
  | O => (l, Ok [])
  | S rounds =>
      match spi l OP_GET_STATUS 1 with
      | (l, Err why) => (l, Err why)
      | (l, Ok _) =>
          match probe rounds (S k) l with
          | (l, Err why) => (l, Err why)
          | (l, Ok times) => (l, Ok (probed k :: times))
          end
      end
  end.
Definition at_percent (times : list Z) (percent : nat) : Z :=
  nth (Nat.min (length times * percent / 100) (length times - 1)) times 0.
Definition round_trip (l : Link.t) : Link.t * result str str :=
  match probe PROBE_ROUNDS 0 l with
  | (l, Err why) => (l, Err why)
  | (l, Ok times) =>
      let times := merge_sort Z.le times in
      (l, Ok (decimal (Z.of_nat PROBE_ROUNDS) ++ lit " status reads: median " ++ debug_duration (at_percent times 50)
              ++ lit ", p95 " ++ debug_duration (at_percent times 95)
              ++ lit ", max " ++ debug_duration (nth (length times - 1) times 0)))
  end.
Definition switches (l : Link.t) : Link.t * list Step.t :=
  let '(l, s7) := step 7 (lit "rf switch") rf_switch l in
  let '(l, s8) := step 8 (lit "round trip") round_trip l in
  (l, [s7; s8]).

Definition run (l : Link.t) : Link.t * Report.t :=
  let '(l, first) := speaks l in
  let '(l, second) := answers l in
  let '(l, third) := switches l in
  (l, Report.mk (first ++ second ++ third)).
End diagnostic.
End Diagnostic.

(** * The radio behind the bridge *)

Definition BRIDGE_MARGIN_US : Z := 1000000.
Definition FALLBACK_IRQ_TIMEOUT_US : Z := 12000000.
Definition irq_timeout `{LoraModulation} (profile : PhyProfile.t) : Z :=
  match spreading_factor (PhyProfile.spreading_factor profile), bandwidth (PhyProfile.bandwidth_hz profile),
        coding_rate (PhyProfile.coding_rate_denominator profile) with
  | Some sf, Some bw, Some cr =>
      let preamble := Z.min (PhyProfile.preamble_symbols profile) U8_MAX in
      time_on_air_us (baseband sf bw cr) (Some preamble) (PhyProfile.explicit_header profile) MAX_PAYLOAD_BYTES + BRIDGE_MARGIN_US
  | _, _, _ => FALLBACK_IRQ_TIMEOUT_US
  end.

(** The driver crate's oscillator voltages. *)
Module BridgeOptions.
Record t := mk { tcxo : option TcxoCtrlVoltage; use_dcdc : bool; rx_boost : bool; patience_ms : Z }.
Definition default : t := mk (Some Ctrl1V8) true false 4000.
End BridgeOptions.

Module BridgeRadio.
Definition up_note (h : Hello.t) : RadioEvent :=
  EvNote (event_name (lit "bridge_up") ++ lit "," ++ quoted (lit "protocol") ++ lit ":" ++ decimal (Hello.protocol h)
          ++ lit "," ++ quoted (lit "firmware") ++ lit ":" ++ quoted (decimal (Hello.firmware h).1 ++ lit "." ++ decimal (Hello.firmware h).2)
          ++ lit "," ++ quoted (lit "board") ++ lit ":" ++ decimal (Hello.board h)
          ++ lit "," ++ quoted (lit "session") ++ lit ":" ++ quoted (hex_of 4 (Hello.session h))).
(** [open] up to the driver thread: the device found, and the first event on its way. *)
Definition open (l : Link.t) (attempts : nat) : Link.t * result BridgeError (Hello.t * DriverHandle.t) :=
  match Link.hello l attempts with
  | (l, Err e) => (l, Err e)
  | (l, Ok h) => (l, Ok (h, DriverHandle.mk [] [up_note h] true))
  end.
(** With the serial port opened, and its reads given a time limit, or not. *)
Definition open_path (l : Link.t) (opened timed : bool) (attempts : nat) : Link.t * result BridgeError (Hello.t * DriverHandle.t) :=
  if opened && timed then open l attempts else (l, Err PortError).
End BridgeRadio.

(** * The tool *)

Module BridgeTool.
Module Options.
Record t := mk { port : str; radio : bool; tcxo_millivolts : option Z; use_dcdc : bool }.
End Options.
(** [None] is a panic: the voltage is not a number. *)
Definition millivolts (parse_f64 : str -> option f64) (volts : str) : option Z :=
  v ← parse_f64 volts;
  Some (F64.as_u32 (F64.round (F64.mul (F64.clamp v (F64.of_Z 0) (F64.of_Z 5)) (F64.of_Z 1000)))).
Definition options (parse_f64 : str -> option f64) (args : list str) : option Options.t :=
  tcxo ← match Args.value args (lit "--tcxo") with
         | Some volts => if bool_decide (volts = lit "none") then Some None else Some <$> millivolts parse_f64 volts
         | None => Some (Some 1800)
         end;
  Some (Options.mk (default (lit "/dev/ttyACM0") (Args.value args (lit "--port"))) (Args.flag args (lit "--radio"))
          tcxo (negb (Args.flag args (lit "--ldo")))).
Definition settings (o : Options.t) : BridgeOptions.t :=
  BridgeOptions.mk (tcxo_control <$> Options.tcxo_millivolts o) (Options.use_dcdc o)
    (BridgeOptions.rx_boost BridgeOptions.default) (BridgeOptions.patience_ms BridgeOptions.default).

Inductive ExitCode := SUCCESS | FAILURE | Code (n : Z).

(** [str::contains]. *)
Fixpoint contains (s sub : str) : bool :=
  bool_decide (take (length sub) s = sub) || match s with [] => false | _ :: s => contains s sub end.
(** The loop over what the radio says until the deadline, one entry per poll. *)
Fixpoint bring_up (polls : list (option RadioEvent)) : ExitCode :=
  match polls with
  | [] => FAILURE
  | Some (EvNote note) :: polls =>
      if contains note (lit "chip_up") then SUCCESS
      else if contains note (lit "chip_failed") then FAILURE
      else bring_up polls
  | _ :: polls => bring_up polls
  end.

Section main.
Context (attempts : nat) (io : str) (took probed : nat -> Z).
(** The port twice, as the pre-flight and then the radio take it ([None]: it does not
    open), and what the polls of the radio find. *)
Definition main (o : Options.t) (port : option Link.t) (again : Link.t) (patience : nat)
    (polls : Hello.t -> list (option RadioEvent)) : ExitCode :=
  match port with
  | None => Code 2
  | Some l =>
      let '(_, report) := Diagnostic.run attempts io took probed l in
      match Report.first_failure report with
      | Some _ => FAILURE
      | None =>
          if negb (Options.radio o) then SUCCESS
          else match BridgeRadio.open again patience with
               | (_, Err _) => FAILURE
               | (_, Ok (h, _)) => bring_up (polls h)
               end
      end
  end.
End main.
End BridgeTool.
