(* ===== verification/PreflightProofs.v ===== *)
(** What a pre-flight is worth: a pass is evidence, sentence by sentence, that the device
    said so; and the reference device passes, whatever state its chip was left in. *)
From S2P Require Import Prelude Manifest Radio RNode Float Args Chip ChipProofs Driver Bridge BridgeProofs Preflight.

(** * A pass is evidence *)

Section evidence.
Context (attempts : nat) (io : str) (took probed : nat -> Z).
Implicit Types l : Link.t.

(** Nothing is heard later that was not on its way before. *)
Definition later l l' : Prop :=
  (forall bs, Frame bs ∈ to_hear l' -> Frame bs ∈ to_hear l)
  /\ (Link.poisoned l = true -> Link.poisoned l' = true).
#[global] Instance later_preorder : PreOrder later.
Proof. split; [by split|]. intros x y z [A B] [C D]. split; auto. Qed.
Definition answered l (command : Z) (body : bytes) : Prop := Frame (Z.lor command Protocol.REPLY :: body) ∈ to_hear l.
Lemma answered_before l l' c body : later l l' -> answered l' c body -> answered l c body.
Proof. intros [H _]. apply H. Qed.

Lemma call_later l c p : later l (Link.call l c p).1.
Proof. destruct (call_sound l c p) as ((_ & Hh & _) & Hp & _). split; [exact Hh|]. by rewrite Hp. Qed.
Lemma checked_later l c p : later l (Link.call_checked l c p).1
  /\ (forall body, (Link.call_checked l c p).2 = Ok body -> answered l c body /\ Link.poisoned l = false
      /\ Link.session (Link.call_checked l c p).1 = Link.session l).
Proof.
  split.
  - destruct (checked_sound l c p) as (_ & Hh & _). split; [exact Hh|]. intros Hp. by rewrite checked_poisoned.
  - unfold Link.call_checked. destruct (call_sound l c p) as ((Hs & _) & _ & Hok).
    destruct (Link.poisoned l) eqn:Hp; [by rewrite call_poisoned|].
    destruct (Link.call l c p) as [l1 [body|[]]]; cbn [fst snd] in *; intros body' Hb; try discriminate.
    + assert (body' = body) as -> by congruence. split; [by apply Hok|done].
    + by destruct (Link.verify_session l1) as [l2 []].
Qed.
Lemma hello_later n l : later l (Link.hello l n).1
  /\ (forall h, (Link.hello l n).2 = Ok h -> exists body, answered l Protocol.HELLO body /\ Hello.parse body = Some h
      /\ Hello.version body = Some Protocol.VERSION /\ Link.session (Link.hello l n).1 = Hello.session h
      /\ Link.poisoned l = false).
Proof.
  unfold Link.hello.
  assert (later l (Link.drain l)) as Hd.
  { split; [|done]. unfold to_hear. cbn [Link.drain Link.with_inbox Link.inbox Link.arriving]. intros bs Hin. apply elem_of_app. by right. }
  assert (forall l1, later l1 (Link.hello_loop n l1).1
    /\ (forall h, (Link.hello_loop n l1).2 = Ok h -> exists body, answered l1 Protocol.HELLO body /\ Hello.parse body = Some h
        /\ Hello.version body = Some Protocol.VERSION /\ Link.session (Link.hello_loop n l1).1 = Hello.session h
        /\ Link.poisoned l1 = false)) as Hl.
  { clear. induction n as [|n IH]; intros l; cbn [Link.hello_loop];
      pose proof (call_later l Protocol.HELLO []) as Hlater; destruct (call_sound l Protocol.HELLO []) as (_ & Hpois & Hok);
      (destruct (Link.poisoned l) eqn:Hp; [by rewrite call_poisoned|]);
      destruct (Link.call l Protocol.HELLO []) as [l1 [body|[]]]; cbn [fst snd] in *; try (by split).
    1,2: destruct (Hello.version body) as [v|] eqn:Hv; [|done]; destruct (Z.eqb_spec v Protocol.VERSION) as [->|]; cbn [negb]; [|done];
      destruct (Hello.parse body) as [h|] eqn:Hh; [|done]; split; [exact Hlater|]; cbn [snd]; intros h' Heq;
      assert (h' = h) as -> by congruence; exists body; (split; [by apply Hok|by split_and!]).
    destruct (IH l1) as [H1 H2]. split; [by transitivity l1|]. intros h Hr.
    destruct (H2 h Hr) as (body & Hb & Hrest & Hv & Hs & Hp1). exists body. split_and!; try done. by eapply answered_before. }
  destruct (Hl (Link.drain l)) as [H1 H2]. split; [by transitivity (Link.drain l)|]. intros h Hr.
  destruct (H2 h Hr) as (body & Hb & Hrest & Hv & Hs & Hp1). exists body. split_and!; try done. by eapply answered_before.
Qed.

(** A step hears nothing new, keeps the session, fails on a poisoned link, and when it
    passes [said] held of what was on its way. *)
Definition honest (body : Link.t -> Link.t * result str str) (said : Link.t -> Prop) : Prop := forall l,
  later l (body l).1
  /\ (is_ok (body l).2 = true -> said l /\ Link.poisoned l = false /\ Link.session (body l).1 = Link.session l).
Definition spi_said (bs : bytes) l : Prop := answered l Protocol.SPI (Protocol.STATUS_OK :: bs).
Definition said_ok (command : Z) l : Prop := exists more, answered l command (Protocol.STATUS_OK :: more).

Lemma spi_honest l opcode reads :
  later l (Diagnostic.spi io l opcode reads).1
  /\ (forall bs, (Diagnostic.spi io l opcode reads).2 = Ok bs -> spi_said bs l /\ Link.poisoned l = false
      /\ Link.session (Diagnostic.spi io l opcode reads).1 = Link.session l).
Proof.
  unfold Diagnostic.spi. destruct (checked_later l Protocol.SPI (Protocol.encode_operations [Write [opcode]; Read (replicate reads 0)])) as [H1 H2].
  destruct (Link.call_checked l _ _) as [l1 [[|status bs]|e]]; cbn [fst snd] in *; split; try done. intros bs' Hb.
  destruct (Z.eqb_spec status Protocol.STATUS_OK) as [->|]; [|done]. assert (bs' = bs) as -> by congruence. by apply H2.
Qed.
Lemma hello_honest l : later l (Diagnostic.say_hello attempts io l).1
  /\ (is_ok (Diagnostic.say_hello attempts io l).2 = true -> exists h body, answered l Protocol.HELLO body
      /\ Hello.parse body = Some h /\ Hello.version body = Some Protocol.VERSION
      /\ Link.session (Diagnostic.say_hello attempts io l).1 = Hello.session h /\ Link.poisoned l = false).
Proof.
  unfold Diagnostic.say_hello. destruct (hello_later attempts l) as [H1 H2].
  destruct (Link.hello l attempts) as [l1 [h|e]]; cbn [fst snd] in *; split; try done. intros _.
  destruct (H2 h eq_refl) as (body & Hb & Hp & Hv & Hs & Hl). by exists h, body.
Qed.
Lemma reset_honest : honest (Diagnostic.pulse_reset io) (said_ok Protocol.RESET).
Proof.
  intros l. unfold Diagnostic.pulse_reset. destruct (checked_later l Protocol.RESET []) as [H1 H2].
  destruct (Link.call_checked l _ _) as [l1 [[|status more]|e]]; cbn [fst snd] in *; split; try done.
  destruct (Z.eqb_spec status Protocol.STATUS_OK) as [->|]; [|done]. intros _. destruct (H2 _ eq_refl) as (? & ? & ?). split; [by exists more|done].
Qed.
Lemma busy_honest : honest (Diagnostic.busy_low io) (said_ok Protocol.BUSY).
Proof.
  intros l. unfold Diagnostic.busy_low. destruct (checked_later l Protocol.BUSY (le_bytes 2 Protocol.BUSY_LIMIT_MS)) as [H1 H2].
  destruct (Link.call_checked l _ _) as [l1 [[|status more]|e]]; cbn [fst snd] in *; split; try done.
  destruct (Z.eqb_spec status Protocol.STATUS_OK) as [->|]; [|by destruct (_ =? _)].
  intros _. destruct (H2 _ eq_refl) as (? & ? & ?). split; [by exists more|done].
Qed.
Lemma status_honest : honest (Diagnostic.get_status io) (fun l => exists bs, spi_said bs l).
Proof.
  intros l. unfold Diagnostic.get_status. destruct (spi_honest l OP_GET_STATUS 1) as [H1 H2].
  destruct (Diagnostic.spi io l _ _) as [l1 [bs|why]]; cbn [fst snd] in *; split; try done. intros _.
  destruct (H2 bs eq_refl) as (? & ? & ?). split; [by exists bs|done].
Qed.
Lemma errors_honest : honest (Diagnostic.get_device_errors io)
  (fun l => exists status high low, spi_said [status; high; low] l /\ of_be [high; low] = 0).
Proof.
  intros l. unfold Diagnostic.get_device_errors. destruct (spi_honest l OP_GET_DEVICE_ERRORS 3) as [H1 H2].
  destruct (Diagnostic.spi io l _ _) as [l1 [[|status [|high [|low [|? ?]]]]|why]]; cbn [fst snd] in *; split; try done.
  destruct (Z.eqb_spec (of_be [high; low]) 0) as [Hz|]; [|done]. intros _. destruct (H2 _ eq_refl) as (? & ? & ?).
  split; [by exists status, high, low|done].
Qed.
Lemma flags_honest : honest (Diagnostic.get_irq_status io) (fun l => exists status high low, spi_said [status; high; low] l).
Proof.
  intros l. unfold Diagnostic.get_irq_status. destruct (spi_honest l OP_GET_IRQ_STATUS 3) as [H1 H2].
  destruct (Diagnostic.spi io l _ _) as [l1 [[|status [|high [|low [|? ?]]]]|why]]; cbn [fst snd] in *; split; try done.
  intros _. destruct (H2 _ eq_refl) as (? & ? & ?). split; [by exists status, high, low|done].
Qed.
Lemma dio1_honest : honest (Diagnostic.dio1_reads_low io) (fun l => exists busy more, answered l Protocol.PINS (busy :: 0 :: more)).
Proof.
  intros l. unfold Diagnostic.dio1_reads_low, Link.dio1_level. destruct (checked_later l Protocol.PINS []) as [H1 H2].
  destruct (Link.call_checked l _ _) as [l1 [[|busy [|level more]]|e]]; cbn [fst snd lookup list_lookup] in *; split; try done.
  - cbn. destruct (Z.eqb_spec level 0); done.
  - cbn. destruct (Z.eqb_spec level 0) as [->|]; [|done]. intros _. destruct (H2 _ eq_refl) as (? & ? & ?). split; [by exists busy, more|done].
Qed.
Lemma switch_honest : honest (Diagnostic.rf_switch io) (said_ok Protocol.RF).
Proof.
  unfold Diagnostic.rf_switch. assert (forall name mode modes,
    honest (Diagnostic.try_switch io ((name, mode) :: modes)) (said_ok Protocol.RF)) as Hall; [|apply Hall].
  intros name mode modes. revert name mode; induction modes as [|[name' mode'] modes IH]; intros name mode l; cbn [Diagnostic.try_switch];
    destruct (checked_later l Protocol.RF [mode]) as [H1 H2];
    destruct (Link.call_checked l _ _) as [l1 [body|e]]; cbn [fst snd] in *; try (by split);
    (case_bool_decide as Hh; [|by split]); destruct body as [|status more]; try discriminate;
    assert (status = Protocol.STATUS_OK) as -> by (cbn in Hh; congruence); destruct (H2 _ eq_refl) as (? & ? & Hs).
  - split; [done|]. intros _. split; [by exists more|done].
  - destruct (IH name' mode' l1) as [I1 I2]. cbn [Diagnostic.try_switch] in I1, I2. split; [by transitivity l1|].
    intros Hok. destruct (I2 Hok) as (_ & _ & Hs'). split; [by exists more|]. split; [done|congruence].
Qed.
Lemma trip_honest : honest (Diagnostic.round_trip io probed) (fun l => exists bs, spi_said bs l).
Proof.
  assert (forall rounds k l, later l (Diagnostic.probe io probed rounds k l).1
    /\ (is_ok (Diagnostic.probe io probed rounds k l).2 = true ->
        (rounds <> 0%nat -> (exists bs, spi_said bs l) /\ Link.poisoned l = false)
        /\ Link.session (Diagnostic.probe io probed rounds k l).1 = Link.session l)) as Hall.
  { induction rounds as [|rounds IH]; intros k l; cbn [Diagnostic.probe]; [by split|].
    destruct (spi_honest l OP_GET_STATUS 1) as [H1 H2]. destruct (Diagnostic.spi io l _ _) as [l1 [bs|why]]; cbn [fst snd] in *; [|by split].
    destruct (IH (S k) l1) as [I1 I2]. destruct (H2 bs eq_refl) as (? & ? & Hs).
    destruct (Diagnostic.probe io probed rounds (S k) l1) as [l2 [times|why]]; cbn [fst snd] in *; (split; [by transitivity l1|]); try done.
    intros _. destruct (I2 eq_refl) as [_ Hs']. split; [|congruence]. intros _. split; [by exists bs|done]. }
  intros l. unfold Diagnostic.round_trip. destruct (Hall Diagnostic.PROBE_ROUNDS 0%nat l) as [H1 H2].
  destruct (Diagnostic.probe _ _ _ _ l) as [l1 [times|why]]; cbn [fst snd] in *; split; try done. intros _.
  destruct (H2 eq_refl) as [H3 H4]. destruct H3 as [? ?]; [by unfold Diagnostic.PROBE_ROUNDS|]. done.
Qed.

(** The nine steps, one after another. *)
Definition bodies : list (str * (Link.t -> Link.t * result str str)) :=
  [(lit "hello", Diagnostic.say_hello attempts io); (lit "reset", Diagnostic.pulse_reset io); (lit "busy low", Diagnostic.busy_low io);
   (lit "get status", Diagnostic.get_status io); (lit "get device errors", Diagnostic.get_device_errors io);
   (lit "get irq status", Diagnostic.get_irq_status io); (lit "dio1 reads low", Diagnostic.dio1_reads_low io);
   (lit "rf switch", Diagnostic.rf_switch io); (lit "round trip", Diagnostic.round_trip io probed)].
Fixpoint walk (k : nat) (todo : list (str * (Link.t -> Link.t * result str str))) l : Link.t * list Step.t :=
  match todo with
  | [] => (l, [])
  | (name, body) :: todo => let '(l, s) := Diagnostic.step took k name body l in let '(l, ss) := walk (S k) todo l in (l, s :: ss)
  end.
Lemma run_walk l : Diagnostic.run attempts io took probed l = let '(l, ss) := walk 0 bodies l in (l, Report.mk ss).
Proof.
  unfold Diagnostic.run, Diagnostic.speaks, Diagnostic.answers, Diagnostic.switches, bodies. cbn [walk].
  repeat match goal with |- context [Diagnostic.step took ?k ?n ?b ?l] => destruct (Diagnostic.step took k n b l) as [? ?] end. done.
Qed.
Lemma walk_names k todo l : Step.name <$> (walk k todo l).2 = todo.*1.
Proof.
  revert k l; induction todo as [|[name body] todo IH]; intros k l; [done|]. cbn [walk]. unfold Diagnostic.step.
  destruct (body l) as [l1 o]. specialize (IH (S k) l1). destruct (walk (S k) todo l1) as [l2 ss]. cbn [snd] in *.
  rewrite !fmap_cons. cbn [Step.name fst]. by rewrite IH.
Qed.
Lemma walk_sound k todo claims l : Forall2 (fun nb P => honest nb.2 P) todo claims ->
  later l (walk k todo l).1
  /\ (forallb Step.passed (walk k todo l).2 = true ->
      Forall (fun P : Link.t -> Prop => exists l0, later l l0 /\ P l0) claims /\ Link.session (walk k todo l).1 = Link.session l)
  /\ (Link.poisoned l = true -> Forall (fun s => Step.passed s = false) (walk k todo l).2).
Proof.
  intros Hall. revert k l; induction Hall as [|[name body] P todo claims Hb _ IH]; intros k l; [by split_and!|].
  cbn [walk]. unfold Diagnostic.step. destruct (Hb l) as [H1 H2]. cbn [snd] in H1, H2. destruct (body l) as [l1 o]. cbn [fst snd] in *.
  destruct (IH (S k) l1) as (I1 & I2 & I3). destruct (walk (S k) todo l1) as [l2 ss]. cbn [fst snd] in *. split_and!.
  - by transitivity l1.
  - cbn [forallb]. intros [Ho Hss]%andb_true_iff. destruct (H2 Ho) as (HP & _ & Hs). destruct (I2 Hss) as [Hc Hs']. split; [|congruence].
    constructor; [by exists l|]. eapply Forall_impl; [exact Hc|]. intros Q (l0 & Hl & HQ). exists l0. split; [by transitivity l1|done].
  - intros Hp. constructor; [|by apply I3, H1]. unfold Step.passed at 1. cbn [Step.outcome].
    destruct (is_ok o) eqn:Ho; [|done]. destruct (H2 eq_refl) as (_ & Hp' & _). congruence.
Qed.
Lemma said_before l l' c : later l l' -> said_ok c l' -> said_ok c l.
Proof. intros Hl [more Hm]. exists more. by eapply answered_before. Qed.
Lemma first_failure_none (r : Report.t) : Report.first_failure r = None <-> Report.passed r = true.
Proof.
  unfold Report.first_failure, Report.passed. rewrite fmap_None, list_find_None, forallb_forall, Forall_forall.
  setoid_rewrite list_elem_of_In. setoid_rewrite not_false_iff_true. done.
Qed.
Lemma later_steps_honest : Forall2 (fun nb P => honest nb.2 P) (tail bodies)
  [said_ok Protocol.RESET; said_ok Protocol.BUSY; (fun l => exists bs, spi_said bs l);
   (fun l => exists status high low, spi_said [status; high; low] l /\ of_be [high; low] = 0);
   (fun l => exists status high low, spi_said [status; high; low] l); (fun l => exists busy more, answered l Protocol.PINS (busy :: 0 :: more));
   said_ok Protocol.RF; (fun l => exists bs, spi_said bs l)].
Proof.
  unfold bodies. cbn [tail].
  repeat apply Forall2_cons_2; cbn [snd]; first [apply reset_honest|apply busy_honest|apply status_honest|apply errors_honest
    |apply flags_honest|apply dio1_honest|apply switch_honest|apply trip_honest|constructor].
Qed.
Lemma walk_bodies l : walk 0 bodies l
  = let '(l1, o) := Diagnostic.say_hello attempts io l in
    let '(l2, ss) := walk 1 (tail bodies) l1 in (l2, Step.mk (lit "hello") o (took 0%nat) :: ss).
Proof.
  change bodies with ((lit "hello", Diagnostic.say_hello attempts io) :: tail bodies) at 1. cbn [walk]. unfold Diagnostic.step at 1.
  by destruct (Diagnostic.say_hello attempts io l).
Qed.
End evidence.

(** C39: The pre-flight tells one layer from another and never says more than the device did.
    On any link it makes its nine steps in order, whatever fails. On a link whose device
    has restarted none passes, and the one to blame is the first. It reports no failure
    exactly when every step passed, and then the device had said everything a pass means:
    a hello of the protocol's version, whose session the link now keeps; that it was reset
    and that BUSY is low; that the chip reports no error, with its interrupt flags; that
    DIO1 is low; and that it threw the antenna switch. *)
Theorem a_pass_is_evidence (attempts : nat) (io : str) (took probed : nat -> Z) (l l' : Link.t) (report : Report.t) :
  Diagnostic.run attempts io took probed l = (l', report) ->
  Step.name <$> Report.steps report
  = [lit "hello"; lit "reset"; lit "busy low"; lit "get status"; lit "get device errors"; lit "get irq status";
     lit "dio1 reads low"; lit "rf switch"; lit "round trip"]
  /\ (Link.poisoned l = true -> Forall (fun s => Step.passed s = false) (Report.steps report)
      /\ Step.name <$> Report.first_failure report = Some (lit "hello"))
  /\ (Report.first_failure report = None <-> Report.passed report = true)
  /\ (Report.passed report = true ->
      (exists h body, answered l Protocol.HELLO body /\ Hello.parse body = Some h /\ Hello.version body = Some Protocol.VERSION
         /\ Link.session l' = Hello.session h)
      /\ said_ok Protocol.RESET l /\ said_ok Protocol.BUSY l
      /\ (exists status high low, spi_said [status; high; low] l /\ of_be [high; low] = 0)
      /\ (exists busy more, answered l Protocol.PINS (busy :: 0 :: more))
      /\ said_ok Protocol.RF l).
Proof.
  rewrite run_walk. intros Hrun. pose proof (walk_names took 0 (bodies attempts io probed) l) as Hnames.
  destruct (walk took 0 _ l) as [l9 ss] eqn:Hw. assert (l9 = l') as -> by congruence. assert (report = Report.mk ss) as -> by congruence.
  clear Hrun. split; [exact Hnames|]. clear Hnames. rewrite first_failure_none.
  rewrite walk_bodies in Hw. destruct (hello_honest attempts io l) as [H1 H2].
  destruct (Diagnostic.say_hello attempts io l) as [l1 o]. cbn [fst snd] in H1, H2.
  destruct (walk_sound took 1 _ _ l1 (later_steps_honest attempts io probed)) as (_ & I2 & I3).
  destruct (walk took 1 _ l1) as [l2 rest]. cbn [fst snd] in I2, I3. assert (l2 = l') as -> by congruence.
  assert (ss = Step.mk (lit "hello") o (took 0%nat) :: rest) as -> by congruence. clear Hw. cbn [Report.steps]. split_and!; [|done|].
  - intros Hp. assert (is_ok o = false) as Ho.
    { destruct (is_ok o); [|done]. destruct (H2 eq_refl) as (? & ? & _ & _ & _ & _ & Hp'). congruence. }
    split; [constructor; [exact Ho|by apply I3, H1]|]. unfold Report.first_failure. cbn [Report.steps list_find].
    rewrite decide_True by exact Ho. done.
  - unfold Report.passed. cbn [Report.steps forallb]. intros [Ho Hss]%andb_true_iff.
    destruct (H2 Ho) as (h & body & Hb & Hparse & Hv & Hs & _). destruct (I2 Hss) as [Hc Hs'].
    apply Forall_cons in Hc as [(l2 & L2 & R2) Hc]. apply Forall_cons in Hc as [(l3 & L3 & R3) Hc].
    apply Forall_cons in Hc as [_ Hc]. apply Forall_cons in Hc as [(l5 & L5 & st & high & low & R5 & Z5) Hc].
    apply Forall_cons in Hc as [_ Hc]. apply Forall_cons in Hc as [(l7 & L7 & busy & more & R7) Hc].
    apply Forall_cons in Hc as [(l8 & L8 & R8) _].
    split; [exists h, body; split_and!; congruence|]. split; [eapply said_before, R2; by transitivity l1|].
    split; [eapply said_before, R3; by transitivity l1|]. split.
    { exists st, high, low. split; [|done]. eapply answered_before, R5; by transitivity l1. }
    split; [|eapply said_before, R8; by transitivity l1]. exists busy, more. eapply answered_before, R7; by transitivity l1.
Qed.

(** * The reference device passes *)

Section reference.
Context `{LoraModulation} (at_ : nat -> Z).
Implicit Types (l : Link.t) (d : Device.t).

(** What arrives at each wait when the device at the far end answers one request after
    another, the [k]th at the instant [at_ k], through a deframer at either end. *)
Fixpoint conversation (host dev : Kiss.Deframer) d (k : nat) (requests : list (Z * bytes)) : list (list Inbound) :=
  match requests with
  | [] => []
  | (c, p) :: requests =>
      let request := Kiss.encode c p in
      let '(host', frames) := Kiss.push host (answer_to dev d (at_ k) request) [] in
      let '(dev', d') := Device.pump dev d (at_ k) request in
      (Frame <$> frames) :: conversation host' dev' d' (S k) requests
  end.
Definition talking l d (k : nat) (requests : list (Z * bytes)) : Prop :=
  Link.poisoned l = false /\ Link.port_ok l = true /\ Link.inbox l = []
  /\ exists host dev, idle host /\ idle dev /\ Link.arriving l = conversation host dev d k requests.

Lemma idle_after df c p : idle df -> frame_fits Protocol.FRAME_LIMIT (c, p) ->
  exists df', idle df' /\ Kiss.push df (Kiss.encode c p) [] = (df', [c :: p]).
Proof.
  intros [Hlim Hleft] (H1 & H2 & H3). cbn [fst snd] in *.
  eexists. split; [|rewrite push_encoded by (rewrite ?Hlim; done); unfold leftover in Hleft; rewrite Hleft; reflexivity].
  split; [exact Hlim|done].
Qed.

(** The device's answer to one request: its new state, and the body of the reply. *)
Definition answers d (k : nat) (request : Z * bytes) d' (body : bytes) : Prop :=
  Device.handle d (at_ k) (request.1 :: request.2) = Device.send d' (Z.lor request.1 Protocol.REPLY) body
  /\ Device.sent d' = Device.sent d
  /\ frame_fits Protocol.FRAME_LIMIT request /\ frame_fits Protocol.FRAME_LIMIT (Z.lor request.1 Protocol.REPLY, body).
Lemma exchange l d k request requests d' body : talking l d k (request :: requests) -> answers d k request d' body ->
  exists l', Link.call l request.1 request.2 = (l', Ok body)
    /\ talking l' (Device.send d' (Z.lor request.1 Protocol.REPLY) body) (S k) requests
    /\ Link.session l' = Link.session l /\ Link.written l' = Link.written l ++ Kiss.encode request.1 request.2.
Proof.
  destruct request as [c p]. cbn [fst snd]. intros (Hp & Hok & Hin & host & dev & Hhost & Hdev & Harr) (Hh & Hs & Hf1 & Hf2).
  cbn [fst snd] in *. destruct (idle_after dev c p Hdev Hf1) as (dev' & Hdev' & Hpush).
  destruct (idle_after host _ body Hhost Hf2) as (host' & Hhost' & Hpush').
  assert (Device.pump dev d (at_ k) (Kiss.encode c p) = (dev', Device.send d' (Z.lor c Protocol.REPLY) body)) as Hpump.
  { unfold Device.pump. rewrite Hpush. cbn [foldl]. by rewrite Hh. }
  cbn [conversation] in Harr. unfold answer_to in Harr. rewrite Hpump in Harr. cbn [snd] in Harr.
  assert (Device.sent (Device.send d' (Z.lor c Protocol.REPLY) body) = Device.sent d ++ Kiss.encode (Z.lor c Protocol.REPLY) body) as Hsent
    by (by rewrite <- Hs).
  rewrite Hsent, drop_app_length, Hpush' in Harr.
  eexists. split; [apply (call_answered l c p [] body [] (conversation host' dev' (Device.send d' (Z.lor c Protocol.REPLY) body) (S k) requests));
    try done; rewrite Harr; reflexivity|].
  split; [|done]. split_and!; try done. by exists host', dev'.
Qed.
Lemma exchange_checked l d k request requests d' body : talking l d k (request :: requests) -> answers d k request d' body ->
  exists l', Link.call_checked l request.1 request.2 = (l', Ok body)
    /\ talking l' (Device.send d' (Z.lor request.1 Protocol.REPLY) body) (S k) requests
    /\ Link.session l' = Link.session l /\ Link.written l' = Link.written l ++ Kiss.encode request.1 request.2.
Proof.
  intros Ht Ha. destruct (exchange l d k request requests d' body Ht Ha) as (l' & Hc & Hrest).
  exists l'. split; [|done]. unfold Link.call_checked. by rewrite Hc.
Qed.

(** A chip that has been reset: in standby, without an interrupt. *)
Definition rested d : Prop := Model.mode (Chip.model (Device.chip d)) = StandbyRc /\ Model.irq_status (Chip.model (Device.chip d)) = 0.
Definition read_command (opcode : Z) (n : nat) : Z * bytes :=
  (Protocol.SPI, Protocol.encode_operations [Write [opcode]; Read (replicate n 0)]).
Lemma rested_reads c now opcode : Model.mode (Chip.model c) = StandbyRc -> Model.irq_status (Chip.model c) = 0 ->
  opcode = OP_GET_STATUS \/ opcode = OP_GET_DEVICE_ERRORS \/ opcode = OP_GET_IRQ_STATUS ->
  exists c', VirtualSpi.run_command c now [opcode] = (c', if opcode =? OP_GET_STATUS then [32] else [32; 0; 0])
    /\ Model.mode (Chip.model c') = StandbyRc /\ Model.irq_status (Chip.model c') = 0.
Proof.
  intros Hm Hi Hop. cbn [VirtualSpi.run_command]. unfold Chip.execute. rewrite decide_False by (rewrite Hm; discriminate).
  assert (Chip.reads opcode = true) as -> by (by destruct Hop as [->|[->| ->]]).
  assert (Chip.answer (Chip.model c) opcode [] = if opcode =? OP_GET_STATUS then [32] else [32; 0; 0]) as ->.
  { unfold Chip.answer. rewrite Hm, Hi. by destruct Hop as [->|[->| ->]]. }
  eexists. split; [reflexivity|]. cbn [Chip.arm]. by destruct (opcode =? OP_SET_SLEEP).
Qed.
Lemma answers_read d k opcode : rested d -> opcode = OP_GET_STATUS \/ opcode = OP_GET_DEVICE_ERRORS \/ opcode = OP_GET_IRQ_STATUS ->
  let n := if opcode =? OP_GET_STATUS then 1%nat else 3%nat in
  exists d', answers d k (read_command opcode n) d' (Protocol.STATUS_OK :: if opcode =? OP_GET_STATUS then [32] else [32; 0; 0]) /\ rested d'.
Proof.
  intros [Hm Hi] Hop n. pose proof (spi_answers d (at_ k) [Write [opcode]; Read (replicate n 0)]) as Hspi.
  destruct (rested_reads (Device.chip d) (Device.after_busy (Device.chip d) (at_ k)) opcode Hm Hi Hop) as (c' & Hrun & Hm' & Hi').
  assert (concat (VirtualSpi.command_of <$> [Write [opcode]; Read (replicate n 0)]) = [opcode]) as Hcmd by done.
  rewrite Hcmd, Hrun in Hspi. exists (Device.with_chip d c'). split; [|done]. unfold answers, read_command. cbn [fst snd].
  rewrite handle_spi, Hspi.
  - split; [|split; [done|]]; destruct Hop as [->|[->| ->]]; vm_compute; repeat split; congruence.
  - destruct Hop as [->|[->| ->]]; repeat constructor; vm_compute; discriminate.
  - repeat constructor.
  - destruct Hop as [->|[->| ->]]; vm_compute; discriminate.
Qed.

Lemma answers_hello d k : is_u32 (Device.session d) ->
  exists d' h, answers d k (Protocol.HELLO, []) d' (Hello.encode h) /\ Hello.session h = Device.session d
    /\ Hello.protocol h = Protocol.VERSION.
Proof.
  intros Hs. pose (pending := Chip.irq_pending (Device.chip d)).
  exists (Device.with_events d true pending), (Hello.mk Protocol.VERSION FIRMWARE Protocol.BOARD_VIRTUAL (Device.session d) false pending).
  split; [|done]. split; [done|]. split; [done|]. split; [by vm_compute|]. unfold frame_fits. cbn [fst snd].
  split; [done|]. split; [done|]. unfold Hello.encode, len. rewrite !length_app, length_le_bytes. by vm_compute.
Qed.
Lemma answers_reset d k : exists d', answers d k (Protocol.RESET, []) d' [Protocol.STATUS_OK] /\ rested d'.
Proof. exists (Device.with_chip d (Chip.reset (Device.chip d))). split; [|done]. repeat split; by vm_compute. Qed.
Lemma answers_busy d k : rested d ->
  exists d', answers d k (Protocol.BUSY, le_bytes 2 Protocol.BUSY_LIMIT_MS) d' [Protocol.STATUS_OK] /\ rested d'.
Proof. intros Hr. exists d. split; [|exact Hr]. repeat split; by vm_compute. Qed.
Lemma answers_pins d k : rested d -> exists d', answers d k (Protocol.PINS, []) d' [0; 0] /\ rested d'.
Proof.
  intros Hr. exists d. split; [|exact Hr]. split; [|repeat split; by vm_compute]. cbn [fst snd]. unfold Device.handle. cbn [Z.eqb Pos.eqb].
  unfold Chip.irq_pending, irq_on_dio1. destruct Hr as [_ ->]. done.
Qed.
Lemma answers_rf d k mode : rested d -> mode = Protocol.RF_RX \/ mode = Protocol.RF_TX \/ mode = Protocol.RF_OFF ->
  exists d', answers d k (Protocol.RF, [mode]) d' [Protocol.STATUS_OK] /\ rested d'.
Proof. intros Hr Hm. exists d. split; [|exact Hr]. destruct Hm as [->|[->| ->]]; repeat split; by vm_compute. Qed.

(** A step that, on the reference device at rest, sends [sends] and passes saying [text]. *)
Definition passes (body : Link.t -> Link.t * result str str) (sends : list (Z * bytes)) (text : str) : Prop :=
  forall l d k requests, talking l d k (sends ++ requests) -> rested d ->
  exists l' d', body l = (l', Ok text) /\ talking l' d' (length sends + k) requests /\ rested d'
    /\ Link.session l' = Link.session l /\ Link.written l' = Link.written l ++ concat ((fun r => Kiss.encode r.1 r.2) <$> sends).
Context (attempts : nat) (io : str) (took probed : nat -> Z).
Lemma spi_reads opcode n l d k requests : talking l d k (read_command opcode n :: requests) -> rested d ->
  opcode = OP_GET_STATUS \/ opcode = OP_GET_DEVICE_ERRORS \/ opcode = OP_GET_IRQ_STATUS ->
  n = (if opcode =? OP_GET_STATUS then 1%nat else 3%nat) ->
  exists l' d', Diagnostic.spi io l opcode n = (l', Ok (if opcode =? OP_GET_STATUS then [32] else [32; 0; 0]))
    /\ talking l' d' (S k) requests /\ rested d' /\ Link.session l' = Link.session l
    /\ Link.written l' = Link.written l ++ Kiss.encode (read_command opcode n).1 (read_command opcode n).2.
Proof.
  intros Ht Hr Hop ->. destruct (answers_read d k opcode Hr Hop) as (d' & Ha & Hr').
  destruct (exchange_checked l d k _ requests d' _ Ht Ha) as (l' & Hc & Ht' & Hs & Hw).
  eexists l', _. split; [|split; [exact Ht'|done]]. unfold Diagnostic.spi. cbv zeta. unfold read_command in Hc. cbn [fst snd] in Hc. by rewrite Hc.
Qed.
Lemma status_passes : passes (Diagnostic.get_status io) [read_command OP_GET_STATUS 1] (lit "0x20: mode 0x2, command status 0x0").
Proof.
  intros l d k requests Ht Hr. destruct (spi_reads _ _ l d k requests Ht Hr) as (l' & d' & Hspi & Ht' & Hr' & Hs & Hw); [by left|done|].
  exists l', d'. unfold Diagnostic.get_status. rewrite Hspi. cbn [fmap list_fmap concat app]. rewrite app_nil_r. done.
Qed.
Lemma errors_passes : passes (Diagnostic.get_device_errors io) [read_command OP_GET_DEVICE_ERRORS 3] (lit "none").
Proof.
  intros l d k requests Ht Hr. destruct (spi_reads _ _ l d k requests Ht Hr) as (l' & d' & Hspi & Ht' & Hr' & Hs & Hw); [by right; left|done|].
  exists l', d'. unfold Diagnostic.get_device_errors. rewrite Hspi. cbn [fmap list_fmap concat app]. rewrite app_nil_r. done.
Qed.
Lemma flags_passes : passes (Diagnostic.get_irq_status io) [read_command OP_GET_IRQ_STATUS 3] (lit "0x0000").
Proof.
  intros l d k requests Ht Hr. destruct (spi_reads _ _ l d k requests Ht Hr) as (l' & d' & Hspi & Ht' & Hr' & Hs & Hw); [by right; right|done|].
  exists l', d'. unfold Diagnostic.get_irq_status. rewrite Hspi. cbn [fmap list_fmap concat app]. rewrite app_nil_r. done.
Qed.
Lemma busy_passes : passes (Diagnostic.busy_low io) [(Protocol.BUSY, le_bytes 2 Protocol.BUSY_LIMIT_MS)] (lit "the chip is ready for a command").
Proof.
  intros l d k requests Ht Hr. destruct (answers_busy d k Hr) as (d' & Ha & Hr').
  destruct (exchange_checked l d k _ requests d' _ Ht Ha) as (l' & Hc & Ht' & Hs & Hw). eexists l', _.
  unfold Diagnostic.busy_low. cbn [fst snd] in Hc. rewrite Hc. cbn [fmap list_fmap concat app]. rewrite app_nil_r. by split; [|split; [exact Ht'|]].
Qed.
Lemma dio1_passes : passes (Diagnostic.dio1_reads_low io) [(Protocol.PINS, [])] (lit "no interrupt pending").
Proof.
  intros l d k requests Ht Hr. destruct (answers_pins d k Hr) as (d' & Ha & Hr').
  destruct (exchange_checked l d k _ requests d' _ Ht Ha) as (l' & Hc & Ht' & Hs & Hw). eexists l', _.
  unfold Diagnostic.dio1_reads_low, Link.dio1_level. cbn [fst snd] in Hc. rewrite Hc. cbn [fmap list_fmap concat app]. rewrite app_nil_r.
  by split; [|split; [exact Ht'|]].
Qed.
Lemma reset_passes l d k requests : talking l d k ((Protocol.RESET, []) :: requests) ->
  exists l' d', Diagnostic.pulse_reset io l = (l', Ok (lit "NRESET pulsed, BUSY low")) /\ talking l' d' (S k) requests /\ rested d'
    /\ Link.session l' = Link.session l /\ Link.written l' = Link.written l ++ Kiss.encode Protocol.RESET [].
Proof.
  intros Ht. destruct (answers_reset d k) as (d' & Ha & Hr').
  destruct (exchange_checked l d k _ requests d' _ Ht Ha) as (l' & Hc & Ht' & Hs & Hw). eexists l', _.
  unfold Diagnostic.pulse_reset. cbn [fst snd] in Hc. rewrite Hc. by split; [|split; [exact Ht'|]].
Qed.
Lemma rf_once l d k mode requests : talking l d k ((Protocol.RF, [mode]) :: requests) -> rested d ->
  mode = Protocol.RF_RX \/ mode = Protocol.RF_TX \/ mode = Protocol.RF_OFF ->
  exists l' d', Link.call_checked l Protocol.RF [mode] = (l', Ok [Protocol.STATUS_OK]) /\ talking l' d' (S k) requests /\ rested d'
    /\ Link.session l' = Link.session l /\ Link.written l' = Link.written l ++ Kiss.encode Protocol.RF [mode].
Proof.
  intros Ht Hr Hm. destruct (answers_rf d k mode Hr Hm) as (d' & Ha & Hr').
  destruct (exchange_checked l d k _ _ d' _ Ht Ha) as (l' & Hc & Ht' & Hs & Hw). eexists l', _. split; [exact Hc|]. by split; [exact Ht'|].
Qed.
Lemma switch_passes : passes (Diagnostic.rf_switch io)
  [(Protocol.RF, [Protocol.RF_RX]); (Protocol.RF, [Protocol.RF_TX]); (Protocol.RF, [Protocol.RF_OFF])]
  (lit "receive, transmit and off all accepted").
Proof.
  intros l d k requests Ht Hr. cbn [app] in Ht.
  destruct (rf_once l d k _ _ Ht Hr ltac:(by left)) as (l1 & d1 & Hc1 & Ht1 & Hr1 & Hs1 & Hw1).
  destruct (rf_once l1 d1 (S k) _ _ Ht1 Hr1 ltac:(by right; left)) as (l2 & d2 & Hc2 & Ht2 & Hr2 & Hs2 & Hw2).
  destruct (rf_once l2 d2 (S (S k)) _ _ Ht2 Hr2 ltac:(by right; right)) as (l3 & d3 & Hc3 & Ht3 & Hr3 & Hs3 & Hw3).
  exists l3, d3. unfold Diagnostic.rf_switch. cbn [Diagnostic.try_switch]. rewrite Hc1, bool_decide_true by done.
  rewrite Hc2, bool_decide_true by done. rewrite Hc3, bool_decide_true by done. split; [done|]. split; [exact Ht3|]. split; [exact Hr3|].
  split; [congruence|]. rewrite Hw3, Hw2, Hw1. rewrite !fmap_cons. cbn [concat fmap list_fmap fst snd]. by rewrite app_nil_r, <- !app_assoc.
Qed.
Lemma trip_passes : exists text, passes (Diagnostic.round_trip io probed) (replicate Diagnostic.PROBE_ROUNDS (read_command OP_GET_STATUS 1)) text.
Proof.
  assert (forall rounds j, exists times, forall l d k requests,
    talking l d k (replicate rounds (read_command OP_GET_STATUS 1) ++ requests) -> rested d ->
    exists l' d', Diagnostic.probe io probed rounds j l = (l', Ok times) /\ talking l' d' (rounds + k) requests /\ rested d'
      /\ Link.session l' = Link.session l
      /\ Link.written l' = Link.written l ++ concat ((fun r => Kiss.encode r.1 r.2) <$> replicate rounds (read_command OP_GET_STATUS 1))) as Hall.
  { induction rounds as [|rounds IH]; intros j.
    - exists []. intros l d k requests Ht Hr. exists l, d. cbn. rewrite app_nil_r. done.
    - destruct (IH (S j)) as [times Htimes]. exists (probed j :: times). intros l d k requests Ht Hr. cbn [replicate app] in Ht.
      destruct (spi_reads _ _ l d k _ Ht Hr) as (l1 & d1 & Hspi & Ht1 & Hr1 & Hs1 & Hw1); [by left|done|].
      destruct (Htimes l1 d1 (S k) requests Ht1 Hr1) as (l2 & d2 & Hp & Ht2 & Hr2 & Hs2 & Hw2).
      exists l2, d2. cbn [Diagnostic.probe]. rewrite Hspi, Hp. split; [done|]. rewrite Nat.add_succ_r in Ht2. split; [exact Ht2|].
      split; [done|]. split; [congruence|]. rewrite Hw2, Hw1. cbn [replicate]. rewrite fmap_cons. cbn [concat]. by rewrite <- app_assoc. }
  destruct (Hall Diagnostic.PROBE_ROUNDS 0%nat) as [times Htimes]. eexists. intros l d k requests Ht Hr.
  destruct (Htimes l d k requests Ht Hr) as (l' & d' & Hp & Ht' & Hrest). exists l', d'. unfold Diagnostic.round_trip. rewrite Hp.
  split; [reflexivity|]. rewrite length_replicate. done.
Qed.

(** A step, what it sends and what it says when it passes. *)
Record plan := planned { plan_name : str; plan_body : Link.t -> Link.t * result str str; plan_sends : list (Z * bytes); plan_says : str }.
Definition entry (p : plan) : str * (Link.t -> Link.t * result str str) := (plan_name p, plan_body p).
Definition encodes (requests : list (Z * bytes)) : bytes := concat ((fun r => Kiss.encode r.1 r.2) <$> requests).
Lemma encodes_app a b : encodes (a ++ b) = encodes a ++ encodes b.
Proof. unfold encodes. by rewrite fmap_app, concat_app. Qed.
Lemma walk_passes j plans : Forall (fun p => passes (plan_body p) (plan_sends p) (plan_says p)) plans ->
  forall l d k requests, talking l d k (concat (plan_sends <$> plans) ++ requests) -> rested d ->
  Step.outcome <$> (walk took j (entry <$> plans) l).2 = Ok <$> (plan_says <$> plans)
  /\ Link.session (walk took j (entry <$> plans) l).1 = Link.session l
  /\ Link.poisoned (walk took j (entry <$> plans) l).1 = false
  /\ Link.written (walk took j (entry <$> plans) l).1 = Link.written l ++ encodes (concat (plan_sends <$> plans)).
Proof.
  intros Hall. revert j; induction Hall as [|p plans Hp _ IH]; intros j l d k requests Ht Hr.
  { split_and!; [done|done|apply Ht|]. unfold encodes. cbn. by rewrite app_nil_r. }
  rewrite !fmap_cons in *. cbn [concat] in Ht |- *. rewrite <- app_assoc in Ht.
  destruct (Hp l d k _ Ht Hr) as (l1 & d1 & Hb & Ht1 & Hr1 & Hs1 & Hw1).
  unfold entry at 1 3 5 7. cbn [walk]. unfold Diagnostic.step. rewrite Hb.
  destruct (IH (S j) l1 d1 _ requests Ht1 Hr1) as (I1 & I2 & I3 & I4).
  destruct (walk took (S j) (entry <$> plans) l1) as [l2 ss]. cbn [fst snd] in *. rewrite fmap_cons, I1. cbn [Step.outcome].
  split_and!; [done|congruence|done|]. by rewrite I4, Hw1, encodes_app, <- app_assoc.
Qed.
Lemma hello_passes l d k requests : talking (Link.drain l) d k ((Protocol.HELLO, []) :: requests) -> is_u32 (Device.session d) ->
  exists l' d' text, Diagnostic.say_hello attempts io l = (l', Ok text) /\ talking l' d' (S k) requests
    /\ Link.session l' = Device.session d /\ Link.written l' = Link.written l ++ Kiss.encode Protocol.HELLO [].
Proof.
  intros Ht Hs. destruct (answers_hello d k Hs) as (d' & h & Ha & Hh & Hv).
  destruct (exchange _ d k _ requests d' _ Ht Ha) as (l1 & Hc & Ht1 & Hs1 & Hw1). cbn [fst snd] in *.
  eexists _, _, _. unfold Diagnostic.say_hello, Link.hello.
  assert (Link.hello_loop attempts (Link.drain l)
    = (Link.with_flags (Link.with_session l1 (Hello.session h) (Link.poisoned l1)) (Link.irq l1 || Hello.dio1 h) (Link.woken l1), Ok h)) as ->.
  { assert (Hello.version (Hello.encode h) = Some Protocol.VERSION) as Hver by (rewrite <- Hv; done).
    pose proof (hello_roundtrip h [] ltac:(by rewrite Hh)) as Hparse. rewrite app_nil_r in Hparse.
    destruct attempts; cbn [Link.hello_loop]; by rewrite Hc, Hver, Hparse. }
  split; [reflexivity|]. split; [exact Ht1|]. split; [exact Hh|exact Hw1].
Qed.
End reference.
#[global] Arguments plan : clear implicits.

(** Everything a pre-flight asks, in order. *)
Definition preflight_requests : list (Z * bytes) :=
  [(Protocol.HELLO, []); (Protocol.RESET, []); (Protocol.BUSY, le_bytes 2 Protocol.BUSY_LIMIT_MS);
   read_command OP_GET_STATUS 1; read_command OP_GET_DEVICE_ERRORS 3; read_command OP_GET_IRQ_STATUS 3; (Protocol.PINS, []);
   (Protocol.RF, [Protocol.RF_RX]); (Protocol.RF, [Protocol.RF_TX]); (Protocol.RF, [Protocol.RF_OFF])]
  ++ replicate Diagnostic.PROBE_ROUNDS (read_command OP_GET_STATUS 1).

Lemma reference_walk `{LoraModulation} (at_ : nat -> Z) (attempts : nat) (io : str) (took probed : nat -> Z) (l : Link.t) (d : Device.t) :
  talking at_ (Link.drain l) d 0 preflight_requests -> is_u32 (Device.session d) ->
  exists hello trip l' ss, walk took 0 (bodies attempts io probed) l = (l', ss)
    /\ Step.outcome <$> ss
       = Ok <$> [hello; lit "NRESET pulsed, BUSY low"; lit "the chip is ready for a command"; lit "0x20: mode 0x2, command status 0x0";
                 lit "none"; lit "0x0000"; lit "no interrupt pending"; lit "receive, transmit and off all accepted"; trip]
    /\ Link.session l' = Device.session d /\ Link.poisoned l' = false /\ Link.written l' = Link.written l ++ encodes preflight_requests.
Proof.
  intros Ht Hu. destruct (trip_passes at_ io probed) as [trip Htrip]. set (plans :=
    [planned (lit "busy low") (Diagnostic.busy_low io) [(Protocol.BUSY, le_bytes 2 Protocol.BUSY_LIMIT_MS)] (lit "the chip is ready for a command");
     planned (lit "get status") (Diagnostic.get_status io) [read_command OP_GET_STATUS 1] (lit "0x20: mode 0x2, command status 0x0");
     planned (lit "get device errors") (Diagnostic.get_device_errors io) [read_command OP_GET_DEVICE_ERRORS 3] (lit "none");
     planned (lit "get irq status") (Diagnostic.get_irq_status io) [read_command OP_GET_IRQ_STATUS 3] (lit "0x0000");
     planned (lit "dio1 reads low") (Diagnostic.dio1_reads_low io) [(Protocol.PINS, [])] (lit "no interrupt pending");
     planned (lit "rf switch") (Diagnostic.rf_switch io)
       [(Protocol.RF, [Protocol.RF_RX]); (Protocol.RF, [Protocol.RF_TX]); (Protocol.RF, [Protocol.RF_OFF])]
       (lit "receive, transmit and off all accepted");
     planned (lit "round trip") (Diagnostic.round_trip io probed)
       (replicate Diagnostic.PROBE_ROUNDS (read_command OP_GET_STATUS 1)) trip]).
  assert (Forall (fun p => passes at_ (plan_body p) (plan_sends p) (plan_says p)) plans) as Hplans.
  { repeat apply Forall_cons_2; cbn [plan_body plan_sends plan_says]; first [apply busy_passes|apply status_passes|apply errors_passes
      |apply flags_passes|apply dio1_passes|apply switch_passes|exact Htrip|constructor]. }
  assert (preflight_requests = (Protocol.HELLO, []) :: (Protocol.RESET, []) :: concat (plan_sends <$> plans) ++ []) as Hreq by reflexivity.
  rewrite Hreq in *. destruct (hello_passes at_ attempts io l d 0 _ Ht Hu) as (l1 & d1 & hello & Hh & Ht1 & Hs1 & Hw1).
  destruct (reset_passes at_ io l1 d1 1 _ Ht1) as (l2 & d2 & Hr & Ht2 & Hr2 & Hs2 & Hw2).
  destruct (walk_passes at_ took 2 plans Hplans l2 d2 2 [] Ht2 Hr2) as (W1 & W2 & W3 & W4).
  rewrite walk_bodies, Hh. assert (tail (bodies attempts io probed) = (lit "reset", Diagnostic.pulse_reset io) :: (entry <$> plans)) as -> by reflexivity.
  cbn [walk]. unfold Diagnostic.step at 1. rewrite Hr. destruct (walk took 2 (entry <$> plans) l2) as [l3 ss]. cbn [fst snd] in *.
  exists hello, trip, l3. eexists. split; [reflexivity|]. rewrite !fmap_cons, W1. cbn [Step.outcome]. split; [reflexivity|].
  split; [congruence|]. split; [done|]. rewrite W4, Hw2, Hw1, <- !app_assoc, app_nil_r. reflexivity.
Qed.

Lemma outcomes_passed (ss : list Step.t) (texts : list str) : Step.outcome <$> ss = Ok <$> texts -> forallb Step.passed ss = true.
Proof.
  revert texts; induction ss as [|s ss IH]; intros [|text texts]; try done. rewrite !fmap_cons. intros [= Ho Hss].
  cbn [forallb]. unfold Step.passed at 1. rewrite Ho. by eapply IH.
Qed.

(** C31: The tool passes the reference device, whatever state its chip was left in. Over a
    healthy link, whatever had been said before, let the device read each request off its
    port, handle it and answer, at any instants: every step passes. The link then knows the device's session and has sent exactly
    the thirty requests; the reset has put the chip in standby, without an error, an
    interrupt or a raised line; and a run of the tool that stops there succeeds. *)
Theorem reference_device_passes `{LoraModulation} (at_ : nat -> Z) (attempts : nat) (io : str) (took probed : nat -> Z)
    (l : Link.t) (d : Device.t) (host dev : Kiss.Deframer) (o : BridgeTool.Options.t) (again : Link.t) (patience : nat)
    (polls : Hello.t -> list (option RadioEvent)) :
  is_u32 (Device.session d) -> idle host -> idle dev -> Link.poisoned l = false -> Link.port_ok l = true ->
  Link.arriving l = conversation at_ host dev d 0 preflight_requests -> BridgeTool.Options.radio o = false ->
  let '(l', report) := Diagnostic.run attempts io took probed l in
  Report.passed report = true
  /\ Link.session l' = Device.session d /\ Link.poisoned l' = false
  /\ Link.written l' = Link.written l ++ encodes preflight_requests
  /\ Step.outcome <$> take 6 (drop 1 (Report.steps report))
     = Ok <$> [lit "NRESET pulsed, BUSY low"; lit "the chip is ready for a command"; lit "0x20: mode 0x2, command status 0x0";
               lit "none"; lit "0x0000"; lit "no interrupt pending"]
  /\ BridgeTool.main attempts io took probed o (Some l) again patience polls = BridgeTool.SUCCESS.
Proof.
  intros Hu Hhost Hdev Hp Hok Harr Hradio. unfold BridgeTool.main. rewrite run_walk.
  destruct (reference_walk at_ attempts io took probed l d) as (hello & trip & l' & ss & -> & Hout & Hs & Hpois & Hwr);
    [split_and!; try done; by exists host, dev|done|].
  pose proof (outcomes_passed _ _ Hout) as Hpass. split; [exact Hpass|]. split; [exact Hs|]. split; [exact Hpois|]. split; [exact Hwr|].
  cbn [Report.steps]. rewrite fmap_take, fmap_drop, Hout. split; [reflexivity|].
  rewrite (proj2 (first_failure_none (Report.mk ss)) Hpass), Hradio. done.
Qed.

(** * Instances *)

#[local] Existing Instance demo_modulation.
(** A device whose chip was left with interrupts pending, and the far end of its cable,
    where a reply to somebody else is still waiting. *)
Definition left_over_device : Device.t :=
  Device.mk (Chip.with_model (Chip.new 1 6) (Model.with_irq Model.fresh 0x0102)) 7 true true [9].
Definition demo_line : Link.t :=
  let host := Kiss.new Protocol.FRAME_LIMIT in
  Link.mk [] true [Frame [0x81; 1]] (conversation (fun k => Z.of_nat k) host host left_over_device 0 preflight_requests)
    false false 0 false.
Definition demo_options : BridgeTool.Options.t := BridgeTool.Options.mk (lit "/dev/ttyACM0") false (Some 1800) true.
Lemma reference_device_passes_witness :
  Report.passed (Diagnostic.run 3 [] (fun _ => 0) (fun _ => 0) demo_line).2 = true
  /\ Link.session (Diagnostic.run 3 [] (fun _ => 0) (fun _ => 0) demo_line).1 = 7
  /\ BridgeTool.main 3 [] (fun _ => 0) (fun _ => 0) demo_options (Some demo_line) demo_line 3 (fun _ => []) = BridgeTool.SUCCESS.
Proof.
  pose proof (reference_device_passes (fun k => Z.of_nat k) 3 [] (fun _ => 0) (fun _ => 0) demo_line left_over_device
    (Kiss.new Protocol.FRAME_LIMIT) (Kiss.new Protocol.FRAME_LIMIT) demo_options demo_line 3 (fun _ => [])) as Ht.
  destruct (Diagnostic.run 3 [] (fun _ => 0) (fun _ => 0) demo_line) as [l' report]. cbn [fst snd].
  destruct Ht as (Hpass & Hs & _ & _ & _ & Hmain); [unfold is_u32; vm_compute; split; discriminate|split; reflexivity|split; reflexivity|reflexivity..|].
  exact (conj Hpass (conj Hs Hmain)).
Defined.
Lemma a_pass_is_evidence_witness : said_ok Protocol.RESET demo_line
  /\ (exists busy more, answered demo_line Protocol.PINS (busy :: 0 :: more)).
Proof.
  pose proof (a_pass_is_evidence 3 [] (fun _ => 0) (fun _ => 0) demo_line) as Ht.
  assert (Report.passed (Diagnostic.run 3 [] (fun _ => 0) (fun _ => 0) demo_line).2 = true) as Hpass by (vm_compute; reflexivity).
  destruct (Diagnostic.run 3 [] (fun _ => 0) (fun _ => 0) demo_line) as [l' report]. cbn [snd] in Hpass.
  destruct (Ht l' report eq_refl) as (_ & _ & _ & Hsaid). destruct (Hsaid Hpass) as (_ & Hreset & _ & _ & Hpins & _).
  exact (conj Hreset Hpins).
Defined.

(** How the tool renders what it measured. *)
Example durations_read_well :
  debug_duration 1500000 = lit "1.5ms" /\ debug_duration 999 = lit "999ns" /\ debug_duration 2000000000 = lit "2s".
Proof. split_and!; reflexivity. Qed.
