(* ===== verification/NodeRadio.v ===== *)
(** Which adapter carries a node's frames ([RadioChoice] and [open_radio] of
    src/src/bin/lcq-node.rs): the option that names it, and what is opened for it.

    A refusal is a panic there, [None] here. The adapters are parameters: each is
    modelled where it is written. *)
From S2P Require Import Prelude Manifest Radio Float Args Driver Preflight Board.

(** [str::split] and [str::split_once] at one character, [str::starts_with]. *)
Fixpoint split_on (sep : char) (s : str) : list str :=
  match s with
  | [] => [[]]
  | c :: s =>
      if c =? sep then [] :: split_on sep s
      else match split_on sep s with w :: ws => (c :: w) :: ws | [] => [[c]] end
  end.
Fixpoint split_once (sep : char) (s : str) : option (str * str) :=
  match s with
  | [] => None
  | c :: s => if c =? sep then Some ([], s) else '(a, b) ← split_once sep s; Some (c :: a, b)
  end.
Definition has_prefix (p s : str) : bool := bool_decide (take (length p) s = p).
Definition COMMA : char := 44.
Definition EQUALS : char := 61.

Module RadioChoice.
Inductive t :=
| Hub
| Sx1262
| RNode (port : str)
| Bridge (port : str) (tcxo_millivolts : option Z) (use_dcdc : bool)
| Spi (device gpiochip : str) (busy dio1 reset : Z) (tcxo_millivolts : option Z).
#[global] Instance t_eq_dec : EqDecision t.
Proof. solve_decision. Defined.

Section parse.
Context (parse_f64 : str -> option f64).
Definition millivolts (volts : str) : option Z :=
  v ← parse_f64 volts;
  Some (F64.as_u32 (F64.round (F64.mul (F64.clamp v (F64.of_Z 0) (F64.of_Z 5)) (F64.of_Z 1000)))).

Fixpoint bridge_options (parts : list str) (tcxo : option Z) (use_dcdc : bool) : option (option Z * bool) :=
  match parts with
  | [] => Some (tcxo, use_dcdc)
  | part :: parts =>
      match split_once EQUALS part with
      | Some (name, volts) =>
          if bool_decide (name = lit "tcxo") then
            if bool_decide (volts = lit "none") then bridge_options parts None use_dcdc
            else v ← millivolts volts; bridge_options parts (Some v) use_dcdc
          else None
      | None => if bool_decide (part = lit "ldo") then bridge_options parts tcxo false else None
      end
  end.
Definition parse_bridge (spec : str) : option t :=
  match split_on COMMA spec with
  | port :: parts =>
      guard (port <> []);;
      '(tcxo, use_dcdc) ← bridge_options parts (Some 1800) true;
      Some (Bridge port tcxo use_dcdc)
  | [] => None
  end.

Fixpoint spi_options (parts : list str) (busy dio1 reset tcxo : option Z)
    : option (option Z * option Z * option Z * option Z) :=
  match parts with
  | [] => Some (busy, dio1, reset, tcxo)
  | part :: parts =>
      match split_once EQUALS part with
      | Some (name, n) =>
          let parsed := Args.parse_unsigned U32_MAX n in
          if bool_decide (name = lit "busy") then spi_options parts parsed dio1 reset tcxo
          else if bool_decide (name = lit "dio1") then spi_options parts busy parsed reset tcxo
          else if bool_decide (name = lit "reset") then spi_options parts busy dio1 parsed tcxo
          else if bool_decide (name = lit "tcxo") then v ← millivolts n; spi_options parts busy dio1 reset (Some v)
          else spi_options parts busy dio1 reset tcxo
      | None => spi_options parts busy dio1 reset tcxo
      end
  end.
Definition parse_spi (spec : str) : option t :=
  let parts := split_on COMMA spec in
  let device := nth 0 parts [] in
  let gpiochip := nth 1 parts [] in
  '(busy, dio1, reset, tcxo) ← spi_options (drop 2 parts) None None None None;
  match busy, dio1, reset with
  | Some busy, Some dio1, Some reset =>
      if bool_decide (device <> []) && bool_decide (gpiochip <> []) then Some (Spi device gpiochip busy dio1 reset tcxo) else None
  | _, _, _ => None
  end.

Definition parse (value : option str) : option t :=
  match value with
  | Some spec =>
      if bool_decide (spec = lit "sx1262") then Some Sx1262
      else if has_prefix (lit "rnode:") spec then Some (RNode (drop 6 spec))
      else if has_prefix (lit "spi:") spec then parse_spi (drop 4 spec)
      else if has_prefix (lit "bridge:") spec then parse_bridge (drop 7 spec)
      else Some Hub
  | None => Some Hub
  end.
End parse.
Definition name (c : t) : str :=
  match c with
  | Hub => lit "hub"
  | Sx1262 => lit "sx1262"
  | RNode _ => lit "rnode"
  | Bridge _ _ _ => lit "bridge"
  | Spi _ _ _ _ _ _ => lit "spi"
  end.
End RadioChoice.

(** The adapters, each [None] when it does not come up. *)
Class Adapters (R : Type) := {
  hub_connect : str -> Z -> option R;
  sx126x_start : str -> Z -> PhyProfile.t -> Z -> option R;
  rnode_open_path : str -> PhyProfile.t -> option R;
  hardware_open : str -> Pins.t -> option TcxoCtrlVoltage -> PhyProfile.t -> option R;
  bridge_open_path : str -> BridgeOptions.t -> PhyProfile.t -> option R;
}.
Definition open_radio `{Adapters R} (hub : str) (index scale : Z) (radio : RadioChoice.t) : option R :=
  match radio with
  | RadioChoice.Hub => hub_connect hub index
  | RadioChoice.Sx1262 => sx126x_start hub index PhyProfile.eu868_sf10 scale
  | RadioChoice.RNode port => rnode_open_path port PhyProfile.eu868_sf10
  | RadioChoice.Spi device gpiochip busy dio1 reset tcxo =>
      hardware_open device (Pins.mk gpiochip busy dio1 reset) (tcxo_control <$> tcxo) PhyProfile.eu868_sf10
  | RadioChoice.Bridge port tcxo use_dcdc =>
      bridge_open_path port
        (BridgeOptions.mk (tcxo_control <$> tcxo) use_dcdc (BridgeOptions.rx_boost BridgeOptions.default)
           (BridgeOptions.patience_ms BridgeOptions.default)) PhyProfile.eu868_sf10
  end.

(** * What is spelled is what is parsed *)

Section spelling.
Context (parse_f64 : str -> option f64).

Lemma split_on_last sep a : sep ∉ a -> split_on sep a = [a].
Proof.
  induction a as [|c a IH]; intros Ha; [done|]. apply not_elem_of_cons in Ha as [Hc Ha]. cbn [split_on].
  rewrite (proj2 (Z.eqb_neq c sep)) by congruence. by rewrite IH.
Qed.
Lemma split_on_cons sep a s : sep ∉ a -> split_on sep (a ++ sep :: s) = a :: split_on sep s.
Proof.
  induction a as [|c a IH]; intros Ha; cbn [app split_on]; [by rewrite Z.eqb_refl|]. apply not_elem_of_cons in Ha as [Hc Ha].
  rewrite (proj2 (Z.eqb_neq c sep)) by congruence. by rewrite IH.
Qed.
Lemma split_once_at sep a s : sep ∉ a -> split_once sep (a ++ sep :: s) = Some (a, s).
Proof.
  induction a as [|c a IH]; intros Ha; cbn [app split_once]; [by rewrite Z.eqb_refl|]. apply not_elem_of_cons in Ha as [Hc Ha].
  rewrite (proj2 (Z.eqb_neq c sep)) by congruence. by rewrite IH.
Qed.
Lemma decimal_plain n sep : is_u64 n -> sep < 48 -> sep ∉ decimal n.
Proof. intros Hn Hs Hin. destruct (decimal_spec n Hn) as (_ & Hd & _). rewrite Forall_forall in Hd. specialize (Hd _ Hin). lia. Qed.

(** How a choice is written, a voltage as [volts]. *)
Definition spell_bridge (port volts : str) (tcxo : option Z) (use_dcdc : bool) : str :=
  port ++ COMMA :: lit "tcxo=" ++ (match tcxo with Some _ => volts | None => lit "none" end)
  ++ (if use_dcdc then [] else COMMA :: lit "ldo").
Definition spell_spi (device gpiochip volts : str) (busy dio1 reset : Z) (tcxo : option Z) : str :=
  device ++ COMMA :: gpiochip ++ COMMA :: (lit "busy=" ++ decimal busy) ++ COMMA :: (lit "dio1=" ++ decimal dio1)
  ++ COMMA :: (lit "reset=" ++ decimal reset) ++ (match tcxo with Some _ => COMMA :: lit "tcxo=" ++ volts | None => [] end).
Definition spell (volts : str) (c : RadioChoice.t) : str :=
  match c with
  | RadioChoice.Hub => lit "hub"
  | RadioChoice.Sx1262 => lit "sx1262"
  | RadioChoice.RNode port => lit "rnode:" ++ port
  | RadioChoice.Bridge port tcxo use_dcdc => lit "bridge:" ++ spell_bridge port volts tcxo use_dcdc
  | RadioChoice.Spi device gpiochip busy dio1 reset tcxo => lit "spi:" ++ spell_spi device gpiochip volts busy dio1 reset tcxo
  end.
Definition path_ok (path : str) : Prop := path <> [] /\ COMMA ∉ path.
Definition volts_ok (volts : str) (tcxo : option Z) : Prop :=
  match tcxo with
  | Some v => COMMA ∉ volts /\ volts <> lit "none" /\ RadioChoice.millivolts parse_f64 volts = Some v
  | None => True
  end.
Definition choice_ok (volts : str) (c : RadioChoice.t) : Prop :=
  match c with
  | RadioChoice.Bridge port tcxo _ => path_ok port /\ volts_ok volts tcxo
  | RadioChoice.Spi device gpiochip busy dio1 reset tcxo =>
      path_ok device /\ path_ok gpiochip /\ is_u32 busy /\ is_u32 dio1 /\ is_u32 reset /\ volts_ok volts tcxo
  | _ => True
  end.

Lemma plain_app (c : char) (a b : str) : c ∉ a -> c ∉ b -> c ∉ a ++ b.
Proof. rewrite elem_of_app. tauto. Qed.
Lemma literal_plain (c : char) (s : str) : bool_decide (c ∉ s) = true -> c ∉ s.
Proof. apply bool_decide_eq_true_1. Qed.

Lemma option_at (name : str) value : EQUALS ∉ name -> split_once EQUALS (name ++ EQUALS :: value) = Some (name, value).
Proof. apply split_once_at. Qed.
Lemma split_on_pieces (pieces : list str) (final : str) : Forall (fun p => COMMA ∉ p) pieces -> COMMA ∉ final ->
  split_on COMMA (foldr (fun p rest => p ++ COMMA :: rest) final pieces) = pieces ++ [final].
Proof.
  intros Hp Hf. induction Hp as [|p pieces Hp _ IH]; cbn [foldr app]; [by apply split_on_last|]. by rewrite split_on_cons, IH.
Qed.

Lemma bridge_reads_back port volts tcxo use_dcdc : path_ok port -> volts_ok volts tcxo ->
  RadioChoice.parse_bridge parse_f64 (spell_bridge port volts tcxo use_dcdc) = Some (RadioChoice.Bridge port tcxo use_dcdc).
Proof.
  intros [Hne Hport] Hv. set (v := match tcxo with Some _ => volts | None => lit "none" end).
  assert (COMMA ∉ lit "tcxo" ++ EQUALS :: v) as Htcxo.
  { apply plain_app; [by apply literal_plain|]. apply not_elem_of_cons. split; [done|]. destruct tcxo; [apply Hv|by apply literal_plain]. }
  assert (forall more, RadioChoice.bridge_options parse_f64 ((lit "tcxo" ++ EQUALS :: v) :: more) (Some 1800) true
    = RadioChoice.bridge_options parse_f64 more tcxo true) as Hopt.
  { intros more. cbn [RadioChoice.bridge_options]. rewrite option_at by (by apply literal_plain || (apply (bool_decide_unpack _); vm_compute; exact I)).
    rewrite bool_decide_eq_true_2 by done. destruct tcxo as [mv|]; subst v.
    - destruct Hv as (_ & Hn & Hmv). rewrite bool_decide_eq_false_2 by done. by rewrite Hmv.
    - by rewrite bool_decide_eq_true_2. }
  unfold RadioChoice.parse_bridge. destruct use_dcdc.
  - change (spell_bridge port volts tcxo true) with (port ++ COMMA :: (lit "tcxo" ++ EQUALS :: v ++ [])).
    rewrite app_nil_r, split_on_cons, split_on_last by done. cbv iota. rewrite Hopt. cbn [RadioChoice.bridge_options].
    by case_guard.
  - change (spell_bridge port volts tcxo false) with (port ++ COMMA :: (lit "tcxo" ++ EQUALS :: v ++ COMMA :: lit "ldo")).
    rewrite split_on_cons by done.
    assert (lit "tcxo" ++ EQUALS :: v ++ COMMA :: lit "ldo" = (lit "tcxo" ++ EQUALS :: v) ++ COMMA :: lit "ldo") as -> by (by rewrite <- app_assoc).
    rewrite split_on_cons, split_on_last by (done || by apply literal_plain). cbv iota. rewrite Hopt.
    assert (RadioChoice.bridge_options parse_f64 [lit "ldo"] tcxo true = Some (tcxo, false)) as -> by reflexivity.
    by case_guard.
Qed.
(** One pin of the spec. *)
Definition pin (name : str) (n : Z) : str := name ++ EQUALS :: decimal n.
Lemma pin_plain name n : bool_decide (COMMA ∉ name) = true -> is_u32 n -> COMMA ∉ pin name n.
Proof.
  intros Hname Hn. unfold pin. apply plain_app; [by apply literal_plain|]. apply not_elem_of_cons. split; [done|].
  apply decimal_plain; [|done]. unfold is_u32, is_u64, U32_MAX, U64_MAX in *. lia.
Qed.
Lemma pins_read busy dio1 reset more : is_u32 busy -> is_u32 dio1 -> is_u32 reset ->
  RadioChoice.spi_options parse_f64 (pin (lit "busy") busy :: pin (lit "dio1") dio1 :: pin (lit "reset") reset :: more) None None None None
  = RadioChoice.spi_options parse_f64 more (Some busy) (Some dio1) (Some reset) None.
Proof.
  intros Hb Hd Hr. assert (forall n, is_u32 n -> Args.parse_unsigned U32_MAX (decimal n) = Some n) as Hparse.
  { intros n Hn. apply Args.parse_unsigned_decimal; unfold is_u32, is_u64, U32_MAX, U64_MAX in *; lia. }
  assert (forall name : str, bool_decide (EQUALS ∉ name) = true -> EQUALS ∉ name) as Hname by (intros name; apply bool_decide_eq_true_1).
  cbn [RadioChoice.spi_options]. unfold pin. rewrite !option_at by (by apply Hname). cbv zeta. by rewrite !Hparse.
Qed.
Lemma spi_reads_back device gpiochip volts busy dio1 reset tcxo :
  choice_ok volts (RadioChoice.Spi device gpiochip busy dio1 reset tcxo) ->
  RadioChoice.parse_spi parse_f64 (spell_spi device gpiochip volts busy dio1 reset tcxo)
  = Some (RadioChoice.Spi device gpiochip busy dio1 reset tcxo).
Proof.
  intros ([Hd Hdc] & [Hg Hgc] & Hb & Hi & Hr & Hv). unfold RadioChoice.parse_spi.
  set (pins := [pin (lit "busy") busy; pin (lit "dio1") dio1]).
  assert (Forall (fun p => COMMA ∉ p) (device :: gpiochip :: pins)) as Hpieces by (repeat constructor; by try apply pin_plain).
  assert (COMMA ∉ pin (lit "reset") reset) as Hreset by (by apply pin_plain).
  assert (split_on COMMA (spell_spi device gpiochip volts busy dio1 reset tcxo)
    = device :: gpiochip :: pin (lit "busy") busy :: pin (lit "dio1") dio1 :: pin (lit "reset") reset
      :: match tcxo with Some _ => [lit "tcxo" ++ EQUALS :: volts] | None => [] end) as Hsplit.
  { destruct tcxo as [mv|].
    - assert (COMMA ∉ lit "tcxo" ++ EQUALS :: volts) as Ht.
      { apply plain_app; [by apply literal_plain|]. apply not_elem_of_cons. split; [done|]. apply Hv. }
      refine (split_on_pieces (device :: gpiochip :: pins ++ [pin (lit "reset") reset]) (lit "tcxo" ++ EQUALS :: volts) _ Ht).
      change (Forall (fun p => COMMA ∉ p) ((device :: gpiochip :: pins) ++ [pin (lit "reset") reset])).
      apply Forall_app_2; [exact Hpieces|by constructor].
    - unfold spell_spi. rewrite app_nil_r. exact (split_on_pieces (device :: gpiochip :: pins) (pin (lit "reset") reset) Hpieces Hreset). }
  rewrite Hsplit. cbn [drop nth]. rewrite pins_read by done.
  assert (RadioChoice.spi_options parse_f64 match tcxo with Some _ => [lit "tcxo" ++ EQUALS :: volts] | None => [] end
    (Some busy) (Some dio1) (Some reset) None = Some (Some busy, Some dio1, Some reset, tcxo)) as ->.
  { destruct tcxo as [mv|]; [|done]. cbn [RadioChoice.spi_options].
    rewrite option_at by (apply (bool_decide_eq_true_1 (EQUALS ∉ lit "tcxo")); reflexivity). destruct Hv as (_ & _ & Hmv).
    cbv zeta. rewrite Hmv. reflexivity. }
  cbn [mbind option_bind]. by rewrite !bool_decide_eq_true_2.
Qed.

(** Every choice that can be written is read back as itself, options and all. *)
Theorem radio_reads_back (volts : str) (c : RadioChoice.t) : choice_ok volts c -> RadioChoice.parse parse_f64 (Some (spell volts c)) = Some c.
Proof.
  destruct c as [| |port|port tcxo use_dcdc|device gpiochip busy dio1 reset tcxo]; cbn [choice_ok spell]; intros Hok; [reflexivity..| |].
  - etransitivity; [|apply bridge_reads_back; apply Hok]. reflexivity.
  - etransitivity; [|apply spi_reads_back; exact Hok]. reflexivity.
Qed.
End spelling.

Lemma radio_reads_back_witness :
  RadioChoice.parse (fun _ => Some (F64.of_Z 3)) (Some (lit "spi:/dev/spidev0.0,/dev/gpiochip0,busy=24,dio1=16,reset=18,tcxo=3"))
  = Some (RadioChoice.Spi (lit "/dev/spidev0.0") (lit "/dev/gpiochip0") 24 16 18 (Some 3000)).
Proof.
  refine (radio_reads_back (fun _ => Some (F64.of_Z 3)) (lit "3")
    (RadioChoice.Spi (lit "/dev/spidev0.0") (lit "/dev/gpiochip0") 24 16 18 (Some 3000)) _).
  unfold choice_ok, path_ok, volts_ok, is_u32. split_and!;
    first [by apply (bool_decide_eq_true_1 (_ ∉ _))|discriminate|vm_compute; discriminate|reflexivity].
Defined.

(** The SPI spec is less strict than its comment: an option it does not know is dropped
    without a word, so a board whose oscillator was misspelt is opened without one. And a
    radio it does not know is the emulator's socket. *)
Example a_misspelt_option_is_ignored (parse_f64 : str -> option f64) :
  RadioChoice.parse parse_f64 (Some (lit "spi:/dev/spidev0.0,/dev/gpiochip0,busy=24,dio1=16,reset=18,txco=1.8"))
  = Some (RadioChoice.Spi (lit "/dev/spidev0.0") (lit "/dev/gpiochip0") 24 16 18 None)
  /\ RadioChoice.parse parse_f64 (Some (lit "brigde:/dev/ttyACM0")) = Some RadioChoice.Hub.
Proof. split; reflexivity. Qed.
