(* ===== verification/NodeConfig.v ===== *)
(** How a node is configured (src/src/bin/lcq-node.rs): the fleet it is in, the
    options it was started with and the schedule arithmetic they determine, and the
    keys it may speak with.

    A panic of the process is [None]; the files it reads are two functions, from a
    path to its text and to its permission bits.  Durations are whole milliseconds. *)
From S2P Require Import Prelude Time Contracts Quorum Crypto Codec Hand Manifest Args Radio Channel.
Module Mf := Manifest.Manifest.

Definition GROUP_KEY : bytes := replicate 32 0x5a.
Definition CONTENT_HASH : bytes := replicate 32 0x22.
Definition TRIGGER_STAGE : Z := 0.
Definition NACK_STAGE : Z := 4.
Definition REPAIR_ROUNDS : Z := 3.
Definition MISSION_EPOCH : Z := 1.
Definition EVENT : Z := 1.
Definition REVISION : Z := 0.

(** * The fleet *)

Module Fleet.
Record t := mk { mission_epoch : Z; ids : list str; policy : Policy }.

Definition uniform (size : Z) : option t :=
  let ids := (fun index => lit "n" ++ decimal index) <$> seqZ 0 size in
  match Quorum.new ((fun id => (id, Competence.FULL)) <$> ids) with
  | Ok policy => Some (mk MISSION_EPOCH ids policy)
  | Err _ => None
  end.
Definition from_manifest (m : Mf.t) : option t :=
  match Mf.policy m with
  | Ok policy => Some (mk (Mf.epoch m) (Member.id <$> Mf.members m) policy)
  | Err _ => None
  end.
Definition size (f : t) : Z := len (ids f).
Definition id (f : t) (index : Z) : str := default (lit "?") (ids f !! Z.to_nat index).
(** [Iterator::position]. *)
Definition index_of (f : t) (name : str) : option Z :=
  (fun p : nat * str => Z.of_nat p.1) <$> list_find (fun held => held = name) (ids f).
End Fleet.

Definition seed_for (index : Z) : bytes := be_bytes 8 (index + 1) ++ replicate 24 0.

(** * Command-line options *)

Inductive Adversary := Honest | Forge | DoubleVote | LieAcks | Jam | Replay | Equivocate.
#[global] Instance Adversary_eq_dec : EqDecision Adversary.
Proof. solve_decision. Defined.

Definition adversary_parse (harness : bool) (name : option str) : option Adversary :=
  if negb harness then match name with None => Some Honest | Some _ => None end
  else Some match name with
       | Some w =>
           if bool_decide (w = lit "forge") then Forge
           else if bool_decide (w = lit "double-vote") then DoubleVote
           else if bool_decide (w = lit "lie-acks") then LieAcks
           else if bool_decide (w = lit "jam") then Jam
           else if bool_decide (w = lit "replay") then Replay
           else if bool_decide (w = lit "equivocate") then Equivocate
           else Honest
       | None => Honest
       end.

Module Options.
Record t := mk {
  index : Z;
  fleet : Z;
  hub : str;
  journal : str;
  manifest : option str;
  admin_key : option str;
  signing_key : option str;
  scale : Z;
  offset : Z;
  clock_epoch : Z;
  slots : bool;
  guard_ms : Z;
  trigger : bool;
  trigger_delay_ms : Z;
  attempts : Z;
  ignore_acks : bool;
  adversary : Adversary;
  prior_airtime_ms : Z;
}.

Import Args.
Definition from_args (harness : bool) (args : list str) : option t :=
  let u64 := parse_unsigned U64_MAX in
  adversary ← adversary_parse harness (value args (lit "--adversary"));
  Some {|
    index := number args (lit "--index") u64 0;
    fleet := number args (lit "--fleet") u64 5;
    hub := default (lit "127.0.0.1:9000") (value args (lit "--hub"));
    journal := default (lit "node.log") (value args (lit "--journal"));
    manifest := value args (lit "--manifest");
    admin_key := value args (lit "--admin-key");
    signing_key := value args (lit "--signing-key");
    scale := number args (lit "--scale") (parse_unsigned U32_MAX) 100;
    offset := number args (lit "--offset") parse_i64 0;
    clock_epoch := number args (lit "--clock-epoch") u64 1000000;
    slots := flag args (lit "--slots");
    guard_ms := number args (lit "--guard-ms") u64 200;
    trigger := flag args (lit "--trigger");
    trigger_delay_ms := number args (lit "--trigger-delay-ms") u64 5000;
    attempts := number args (lit "--attempts") u64 1;
    ignore_acks := flag args (lit "--ignore-acks");
    adversary := adversary;
    prior_airtime_ms := number args (lit "--prior-airtime-ms") u64 0;
  |}.
Definition with_fleet (o : t) (size : Z) : t :=
  mk (index o) size (hub o) (journal o) (manifest o) (admin_key o) (signing_key o) (scale o)
    (offset o) (clock_epoch o) (slots o) (guard_ms o) (trigger o) (trigger_delay_ms o) (attempts o)
    (ignore_acks o) (adversary o) (prior_airtime_ms o).

(** ** The schedule *)

Definition slot_ms (o : t) : Z := airtime_ms MAX_FRAME_BYTES + guard_ms o.
Definition stage_window_s (o : t) : Z :=
  if slots o then Competence.div_ceil (slot_ms o * fleet o) 1000 + 2 else 30.
Definition retry_gap_ms (o : t) (clock : ScaledClock.t) : Z :=
  ScaledClock.wall_ms clock (stage_window_s o * 1000).
Definition slot_offset_ms (o : t) : Z :=
  if slots o then slot_ms o * index o else (index o * 7919) mod 25000 + 500.
Definition rank (o : t) : Z :=
  let start := nth 0 CONTENT_HASH 0 mod Z.max (fleet o) 1 in
  (index o + fleet o - start) mod Z.max (fleet o) 1.
Definition open_deadline (o : t) (clock : ScaledClock.t) : Z :=
  let base := trigger_delay_ms o in
  if trigger o then base
  else
    let turn := ScaledClock.wall_ms clock (2 * slot_ms o) in
    base + (rank o + 1) * turn.

(** The instants, on the anchor's axis and in protocol seconds, at which the three
    stages open; and when the last repair window is over. *)
Definition lead_in : Z := 3.
Definition starts (o : t) : list Z :=
  [lead_in; lead_in + stage_window_s o; BINDING_STAGE_OPENS_SECONDS + 1].
Definition start_of (o : t) (stage : nat) : Z := nth stage (starts o) 0.
Definition finish (o : t) : Z :=
  start_of o 2 + stage_window_s o * (Z.max (attempts o) 1 + 2 * REPAIR_ROUNDS) + 5.
Definition schedule_unfit (o : t) : bool := ENDORSEMENT_TARGET_SECONDS <? finish o.
Definition offsets (o : t) (clock : ScaledClock.t) : list Z :=
  (fun start => ScaledClock.wall_ms clock (start * 1000 + slot_offset_ms o)) <$> starts o.
Definition repair_start_ms (o : t) (clock : ScaledClock.t) : Z :=
  ScaledClock.wall_ms clock ((start_of o 2 + stage_window_s o * Z.max (attempts o) 1) * 1000).
End Options.

(** * Keys *)

Module Provisioned.
Record t := mk {
  keyring : list VerifyingKey.t;
  signing : SigningKey.t;
  group : GroupKey.t;
  admin : option str;
  manifest_digest : option bytes;
}.
End Provisioned.

(** [str::trim]. *)
Fixpoint trim_start (s : str) : str :=
  match s with c :: s' => if Hand.is_whitespace c then trim_start s' else s | [] => [] end.
Definition trim (s : str) : str := reverse (trim_start (reverse (trim_start s))).

(** [u8::from_str_radix] at sixteen, on two bytes: a leading plus is a sign. *)
Definition hex_digit (b : Z) : option Z :=
  if is_digit b then Some (b - 48)
  else if (97 <=? b) && (b <=? 102) then Some (b - 87)
  else if (65 <=? b) && (b <=? 70) then Some (b - 55)
  else None.
Definition from_str_radix (a b : Z) : option Z :=
  if a =? 43 then hex_digit b else x ← hex_digit a; y ← hex_digit b; Some (16 * x + y).
Fixpoint seed_pairs (raw : bytes) : option bytes :=
  match raw with
  | a :: b :: rest => x ← from_str_radix a b; xs ← seed_pairs rest; Some (x :: xs)
  | _ => Some []
  end.

Section provision.
Context `{Digest, Ed25519}.
Context (file : str -> option str) (mode : str -> option Z).

Definition read_seed (path : str) : option bytes :=
  m ← mode path;
  guard (Z.land m 63 = 0);;
  text ← file path;
  let trimmed := as_bytes (trim text) in
  guard (len trimmed = 64);;
  seed_pairs trimmed.

Definition ok {E A} (r : result E A) : option A := match r with Ok a => Some a | Err _ => None end.

Definition provision (options : Options.t) (now : Z) : option (Fleet.t * Provisioned.t) :=
  match Options.manifest options with
  | None =>
      fleet ← Fleet.uniform (Options.fleet options);
      Some (fleet, {|
        Provisioned.keyring := (fun index => verifying_key (SigningKey.from_seed (seed_for index)))
                                 <$> seqZ 0 (Options.fleet options);
        Provisioned.signing := SigningKey.from_seed (seed_for (Options.index options));
        Provisioned.group := GroupKey.from_bytes GROUP_KEY;
        Provisioned.admin := None;
        Provisioned.manifest_digest := None |})
  | Some path =>
      admin_path ← Options.admin_key options;
      typed ← file admin_path;
      admin_bytes ← ok (Hand.decode typed);
      admin ← ok (VerifyingKey.from_bytes admin_bytes);
      text ← file path;
      manifest ← ok (parse text);
      _ ← ok (Mf.verify manifest admin now);
      guard (Options.index options < Mf.size manifest);;
      seed ← match Options.signing_key options with
             | Some path => read_seed path
             | None => Some (seed_for (Options.index options))
             end;
      let signing := SigningKey.from_seed seed in
      named ← Mf.key_of manifest (Z.to_nat (Options.index options));
      guard (verifying_key signing = named);;
      fleet ← Fleet.from_manifest manifest;
      Some (fleet, {|
        Provisioned.keyring := Member.key <$> Mf.members manifest;
        Provisioned.signing := signing;
        Provisioned.group := GroupKey.fixture_for_epoch (Mf.group_key_id manifest) (Mf.epoch manifest);
        Provisioned.admin := Some (Hand.fingerprint admin_bytes);
        Provisioned.manifest_digest := Some (Mf.digest manifest) |})
  end.

(** What [main] settles before its journal is opened: the fleet's size wins over the
    option, and a node outside its fleet, a fleet the acknowledgements cannot
    number, or a stopped clock refuses to run. *)
Definition assemble (options : Options.t) (now : Z) : option (Options.t * Fleet.t * Provisioned.t) :=
  '(fleet, provisioned) ← provision options now;
  let options := Options.with_fleet options (Fleet.size fleet) in
  guard (Options.index options < Fleet.size fleet);;
  guard (1 <= Options.fleet options <= Heard.CAPACITY);;
  guard (1 <= Options.scale options);;
  Some (options, fleet, provisioned).
End provision.
