(* ===== verification/ManifestTool.v ===== *)
(** The administrator's tool and the vessel's check (src/src/bin/lcq-manifest.rs): sign a
    manifest, print the card, verify.

    The operating system is a parameter: what a path holds, its permission bits, whether
    a write goes through, the clock. Standard output is text; what goes to standard error
    is a list of complaints, each the case of the message it prints. Where the tool
    panics, the answer is [None]. *)
From S2P Require Import Prelude Crypto Hand Manifest Args NodeConfig.

Module Host.
Record t := mk {
  file : str -> option str;
  mode : str -> option Z;
  writable : str -> bool;
  stdout_open : bool;
  clock : Z;
}.
End Host.

Inductive Why :=
| Usage
| NotACommand (other : str)
| NotAnOption (other : str)
| WantsValue (flag : str)
| WantsSeconds (raw : str)
| Required (flag : str)
| Unreadable (path : str)
| OpenToOthers (path : str) (mode : Z)
| NotSixtyFour (path : str)
| NotHexadecimal (path : str)
| BadCard (path : str) (e : HandError)
| NotAPublicKey (path : str)
| BadManifest (path : str) (e : ManifestError)
| Unwritable (path : str)
| StdoutGone.

(** What a run leaves behind. *)
Module Ran.
Record t := mk { out : str; complaints : list Why; written : list (str * str); success : bool }.
End Ran.
Definition fail (why : Why) : Ran.t := Ran.mk [] [why] [] false.
Definition println (s : str) : str := s ++ [10].

Module Options.
Record t := mk {
  key : option str;
  admin_key : option str;
  input : option str;
  output : option str;
  now : option Z;
}.
Definition default : t := mk None None None None None.
Fixpoint read_from (o : t) (args : list str) : result Why t :=
  match args with
  | [] => Ok o
  | flag :: args =>
      if bool_decide (flag ∈ [lit "--key"; lit "--admin-key"; lit "--in"; lit "--out"; lit "--now"]) then
        match args with
        | [] => Err (WantsValue flag)
        | value :: args =>
            if bool_decide (flag = lit "--key") then read_from (mk (Some value) (admin_key o) (input o) (output o) (now o)) args
            else if bool_decide (flag = lit "--admin-key") then read_from (mk (key o) (Some value) (input o) (output o) (now o)) args
            else if bool_decide (flag = lit "--in") then read_from (mk (key o) (admin_key o) (Some value) (output o) (now o)) args
            else if bool_decide (flag = lit "--out") then read_from (mk (key o) (admin_key o) (input o) (Some value) (now o)) args
            else match Args.parse_unsigned U64_MAX value with
                 | None => Err (WantsSeconds value)
                 | Some n => read_from (mk (key o) (admin_key o) (input o) (output o) (Some n)) args
                 end
        end
      else Err (NotAnOption flag)
  end.
Definition read (args : list str) : result Why t := read_from default args.
End Options.
Definition need (path : option str) (flag : str) : result Why str := ok_or path (Required flag).

(** A slice that would end inside a character is a panic: the byte after it continues
    one. *)
Definition continues (rest : bytes) : bool := match rest with b :: _ => (128 <=? b) && (b <? 192) | [] => false end.
Fixpoint read_pairs (raw : bytes) : option (option bytes) :=
  match raw with
  | a :: b :: rest =>
      if continues rest then None
      else match from_str_radix a b with
           | None => Some None
           | Some x => match read_pairs rest with
                       | Some (Some xs) => Some (Some (x :: xs))
                       | other => other
                       end
           end
  | _ => Some (Some [])
  end.

Section tool.
Context `{Digest, Ed25519} (host : Host.t).

Definition refuse_if_readable (path : str) : result Why unit :=
  mode ← ok_or (Host.mode host path) (Unreadable path);
  guard_err (negb (Z.land mode 63 =? 0)) (OpenToOthers path (Z.land mode 511)).
Definition read_secret (path : str) : option (result Why SigningKey.t) :=
  match refuse_if_readable path with
  | Err why => Some (Err why)
  | Ok _ =>
  match Host.file host path with
  | None => Some (Err (Unreadable path))
  | Some text =>
      let trimmed := as_bytes (trim text) in
      if negb (len trimmed =? 64) then Some (Err (NotSixtyFour path))
      else match read_pairs trimmed with
           | None => None
           | Some None => Some (Err (NotHexadecimal path))
           | Some (Some seed) => Some (Ok (SigningKey.from_seed seed))
           end
  end end.
Definition read_public (path : str) : result Why VerifyingKey.t :=
  text ← ok_or (Host.file host path) (Unreadable path);
  bs ← map_err (BadCard path) (Hand.decode text);
  map_err (fun _ => NotAPublicKey path) (VerifyingKey.from_bytes bs).

Definition fingerprint (o : Options.t) : option Ran.t :=
  match need (Options.key o) (lit "--key") with
  | Err why => Some (fail why)
  | Ok path =>
      r ← read_secret path;
      Some match r with
           | Err why => fail why
           | Ok key =>
               let public := VerifyingKey.to_bytes (verifying_key key) in
               Ran.mk (println (lit "# Put this on the card. A vessel's crew types it in once.") ++ println (Hand.encode public)
                       ++ println [] ++ println (lit "# And this is what the node prints back at every start.")
                       ++ println (Hand.fingerprint public)) [] [] true
           end
  end.
Definition sign (o : Options.t) : option Ran.t :=
  match need (Options.key o) (lit "--key"), need (Options.input o) (lit "--in") with
  | Err why, _ | Ok _, Err why => Some (fail why)
  | Ok key_path, Ok input =>
      r ← read_secret key_path;
      Some match r with
           | Err why => fail why
           | Ok key =>
               match Host.file host input with
               | None => fail (Unreadable input)
               | Some text =>
                   match sign_text text key with
                   | Err e => fail (BadManifest input e)
                   | Ok signed =>
                       match Options.output o with
                       | Some path =>
                           if Host.writable host path then Ran.mk [] [] [(path, signed)] true else fail (Unwritable path)
                       | None => if Host.stdout_open host then Ran.mk signed [] [] true else fail StdoutGone
                       end
                   end
               end
           end
  end.
(** What is printed of a manifest that verified. *)
Definition report (m : Manifest.t) (admin : VerifyingKey.t) (now : Z) : str :=
  println (lit "epoch " ++ decimal (Manifest.epoch m))
  ++ println (lit "valid " ++ decimal (Manifest.valid_from m) ++ lit " to " ++ decimal (Manifest.valid_until m)
              ++ lit " (now " ++ decimal now ++ lit ")")
  ++ println (lit "verified-by " ++ Hand.fingerprint (VerifyingKey.to_bytes admin))
  ++ println (lit "issuer-claims " ++ Manifest.issuer m ++ lit " (unsigned)")
  ++ println (lit "members " ++ decimal (Manifest.size m))
  ++ concat ((fun x => println (lit "  " ++ decimal (Member.index x) ++ lit " " ++ decimal (Member.competence x) ++ lit " "
                                ++ Member.id x)) <$> Manifest.members m)
  ++ lit "manifest " ++ hex (Manifest.digest m) ++ [10].
Definition verify (o : Options.t) : Ran.t :=
  match need (Options.admin_key o) (lit "--admin-key"), need (Options.input o) (lit "--in") with
  | Err why, _ | Ok _, Err why => fail why
  | Ok key_path, Ok input =>
      match read_public key_path with
      | Err why => fail why
      | Ok admin =>
          match Host.file host input with
          | None => fail (Unreadable input)
          | Some text =>
              match parse text with
              | Err e => fail (BadManifest input e)
              | Ok manifest =>
                  let now := default (Host.clock host) (Options.now o) in
                  match Manifest.verify manifest admin now with
                  | Err e => fail (BadManifest input e)
                  | Ok _ => Ran.mk (report manifest admin now) [] [] true
                  end
              end
          end
      end
  end.

Definition main (args : list str) : option Ran.t :=
  let command := default [] (head args) in
  match Options.read (tail args) with
  | Err why => Some (fail why)
  | Ok options =>
      if bool_decide (command = lit "fingerprint") then fingerprint options
      else if bool_decide (command = lit "sign") then sign options
      else if bool_decide (command = lit "verify") then Some (verify options)
      else Some (Ran.mk [] ((if bool_decide (command = []) then [] else [NotACommand command]) ++ [Usage]) [] false)
  end.
End tool.
