(* ===== verification/ManifestToolProofs.v ===== *)
(** What passes between an administrator and a vessel: a key file, a card and a signed
    text are all it takes, and a secret anybody else could read is not even opened. *)
From S2P Require Import Prelude Crypto Hand Manifest ManifestFields ManifestProofs ManifestSign Args NodeConfig ManifestTool.

(** * Reading the secret *)

Lemma hex_digit_nibble v : 0 <= v < 16 -> hex_digit (nth (Z.to_nat v) HEX 0) = Some v /\ nth (Z.to_nat v) HEX 0 <> 43.
Proof.
  intros Hv. assert (Forall (fun v => hex_digit (nth (Z.to_nat v) HEX 0) = Some v /\ nth (Z.to_nat v) HEX 0 <> 43) (seqZ 0 16)) as Hall.
  { apply (bool_decide_unpack _). vm_compute. exact I. }
  rewrite Forall_forall in Hall. apply Hall, elem_of_seqZ. lia.
Qed.
Lemma hex_continues bs : wf_bytes bs -> continues (hex bs) = false.
Proof.
  intros Hb. pose proof (hex_range bs Hb) as Hr. destruct (hex bs) as [|d ds]; [done|]. apply Forall_cons in Hr as [Hd _].
  unfold continues. destruct (Z.leb_spec 128 d); [lia|done].
Qed.
Lemma read_pairs_hex bs : wf_bytes bs -> read_pairs (hex bs) = Some (Some bs).
Proof.
  induction 1 as [|b bs Hb Hbs IH]; [done|]. destruct (nibbles b Hb) as (Hh & Hl & Heq).
  change (hex (b :: bs)) with (hex_byte b ++ hex bs). unfold hex_byte. cbn [app read_pairs].
  rewrite hex_continues by done. unfold from_str_radix.
  destruct (hex_digit_nibble _ Hh) as [-> Hne]. destruct (hex_digit_nibble _ Hl) as [-> _].
  rewrite (proj2 (Z.eqb_neq _ _) Hne). cbn [mbind option_bind]. rewrite IH. by rewrite <- Heq.
Qed.

Section tool.
Context `{Digest, Ed25519}.
Implicit Types (host : Host.t) (path : str).

Lemma read_secret_hex host path mode text seed : Host.mode host path = Some mode -> Z.land mode 63 = 0 ->
  Host.file host path = Some text -> trim text = hex seed -> wf_bytes seed -> length seed = 32%nat ->
  read_secret host path = Some (Ok (SigningKey.from_seed seed)).
Proof.
  intros Hm Hz Hf Ht Hw Hl. unfold read_secret, refuse_if_readable. rewrite Hm, Hf. cbn. rewrite Hz. cbn [Z.eqb negb guard_err].
  cbv zeta. rewrite Ht, hex_ascii by done. unfold len. rewrite length_hex, Hl. cbn [negb Z.eqb Pos.eqb Z.of_nat]. by rewrite read_pairs_hex.
Qed.
(** A secret somebody else can read is refused by its mode alone. *)
Lemma read_secret_open host path mode : Host.mode host path = Some mode -> Z.land mode 63 <> 0 ->
  read_secret host path = Some (Err (OpenToOthers path (Z.land mode 511))).
Proof.
  intros Hm Hz. unfold read_secret, refuse_if_readable. rewrite Hm. cbn. by rewrite (proj2 (Z.eqb_neq _ _) Hz).
Qed.
End tool.

(** * The ceremony *)

Definition the_card `{Digest} (public : bytes) : str :=
  println (lit "# Put this on the card. A vessel's crew types it in once.") ++ println (Hand.encode public)
  ++ println [] ++ println (lit "# And this is what the node prints back at every start.") ++ println (Hand.fingerprint public).

(** C30: The administrator's ceremony ends on the vessel. Let the key file hold a seed in
    hexadecimal, private to its owner, and the draft be one the signer accepts. One run of
    the tool prints the card, another writes the signed text. A vessel that holds that text,
    and whose crew typed the card in any case and grouping, is told by the tool exactly what
    its clock makes of the manifest, or any instant given in its place: not valid before
    its window, expired after it, and inside it everything the manifest says, under the
    administrator's fingerprint. *)
Theorem ceremony_ends_on_the_vessel `{DigestLaws, Ed25519Laws} (office vessel : Host.t)
    (key_path draft_path signed_path card_path key_text draft typed signed : str) (seed : bytes) (mode : Z) :
  let admin := SigningKey.from_seed seed in
  let public := VerifyingKey.to_bytes (verifying_key admin) in
  wf_bytes seed -> length seed = 32%nat -> wf_bytes public -> length public = 32%nat ->
  Host.mode office key_path = Some mode -> Z.land mode 63 = 0 -> Host.file office key_path = Some key_text -> trim key_text = hex seed ->
  Host.file office draft_path = Some draft -> sign_text draft admin = Ok signed -> Host.writable office signed_path = true ->
  Host.file vessel signed_path = Some signed -> Host.file vessel card_path = Some typed ->
  mapM Hand.value_of (typed_symbols typed) = mapM Hand.value_of (typed_symbols (Hand.encode public)) ->
  main office [lit "fingerprint"; lit "--key"; key_path] = Some (Ran.mk (the_card public) [] [] true)
  /\ main office [lit "sign"; lit "--key"; key_path; lit "--in"; draft_path; lit "--out"; signed_path]
     = Some (Ran.mk [] [] [(signed_path, signed)] true)
  /\ exists m, parse signed = Ok m /\ Manifest.issuer m = Hand.fingerprint public
     /\ let told now :=
          if now <? Manifest.valid_from m then fail (BadManifest signed_path (NotYetValid (Manifest.valid_from m) now))
          else if Manifest.valid_until m <=? now then fail (BadManifest signed_path (Expired (Manifest.valid_until m) now))
          else Ran.mk (report m (verifying_key admin) now) [] [] true in
        main vessel [lit "verify"; lit "--admin-key"; card_path; lit "--in"; signed_path] = Some (told (Host.clock vessel))
        /\ forall now, is_u64 now ->
           main vessel [lit "verify"; lit "--admin-key"; card_path; lit "--in"; signed_path; lit "--now"; decimal now] = Some (told now).
Proof.
  intros admin public Hws Hls Hwp Hlp Hmode Hpriv Hkey Htrim Hdraft Hsign Hwrite Hsigned Htyped Hsame.
  pose proof (read_secret_hex office key_path mode key_text seed Hmode Hpriv Hkey Htrim Hws Hls) as Hsecret. fold admin in Hsecret.
  destruct (card_reads_back public typed Hwp Hlp Hsame) as [Hcard _].
  destruct (signed_manifest draft signed admin Hsign) as (parts & m & _ & Hparse & _ & Hissuer & Hver).
  split_and!.
  - change (main office [lit "fingerprint"; lit "--key"; key_path])
      with (fingerprint office (Options.mk (Some key_path) None None None None)).
    unfold fingerprint. cbn [Options.key need ok_or]. by rewrite Hsecret.
  - change (main office [lit "sign"; lit "--key"; key_path; lit "--in"; draft_path; lit "--out"; signed_path])
      with (sign office (Options.mk (Some key_path) None (Some draft_path) (Some signed_path) None)).
    unfold sign. cbn [Options.key Options.input Options.output need ok_or]. rewrite Hsecret. cbn [mbind option_bind].
    by rewrite Hdraft, Hsign, Hwrite.
  - exists m. split; [done|]. split; [done|]. intros told.
    assert (forall given, verify vessel (Options.mk None (Some card_path) (Some signed_path) None given)
      = told (default (Host.clock vessel) given)) as Hverify.
    { intros given. unfold verify. cbn [Options.admin_key Options.input Options.now need ok_or].
      set (now := default (Host.clock vessel) given).
      unfold read_public. rewrite Htyped. cbn [ok_or mbind result_bind]. rewrite Hcard. cbn [map_err mbind result_bind].
      assert (VerifyingKey.from_bytes public = Ok (verifying_key admin)) as ->.
      { unfold VerifyingKey.from_bytes, public, VerifyingKey.to_bytes, verifying_key. cbn [VerifyingKey.point]. by rewrite ed_public_point. }
      cbn [map_err]. rewrite Hsigned, Hparse. unfold Manifest.verify. rewrite Hver. cbn [map_err mbind result_bind]. unfold told.
      destruct (now <? Manifest.valid_from m); [done|]. by destruct (Manifest.valid_until m <=? now). }
    split; [exact (f_equal Some (Hverify None))|]. intros now Hnow. rewrite <- (Hverify (Some now) : _ = told now). unfold main, Options.read.
    assert (Options.read_from Options.default
      (tail [lit "verify"; lit "--admin-key"; card_path; lit "--in"; signed_path; lit "--now"; decimal now])
      = match Args.parse_unsigned U64_MAX (decimal now) with
        | None => Err (WantsSeconds (decimal now))
        | Some n => Ok (Options.mk None (Some card_path) (Some signed_path) None (Some n)) end) as -> by reflexivity.
    by rewrite Args.parse_unsigned_decimal by (done || apply Hnow).
Qed.

(** A secret that anybody but its owner can read is refused before it is opened: whatever
    the file holds, the run prints nothing, writes nothing and says why. *)
Theorem a_readable_secret_stays_shut `{Digest, Ed25519} (host : Host.t) (command path : str) (rest : list str) (o : Options.t) (mode : Z)
    (content : str -> option str) :
  command = lit "fingerprint" \/ (command = lit "sign" /\ is_Some (Options.input o)) ->
  Options.read rest = Ok o -> Options.key o = Some path -> Host.mode host path = Some mode -> Z.land mode 63 <> 0 ->
  main (Host.mk content (Host.mode host) (Host.writable host) (Host.stdout_open host) (Host.clock host)) (command :: rest)
  = Some (fail (OpenToOthers path (Z.land mode 511))).
Proof.
  intros Hc Hread Hkey Hmode Hopen.
  set (other := Host.mk content (Host.mode host) (Host.writable host) (Host.stdout_open host) (Host.clock host)).
  pose proof (read_secret_open other path mode Hmode Hopen) as Hsecret. unfold main. cbn [head tail from_option id]. rewrite Hread.
  destruct Hc as [->|[-> [input Hin]]].
  - rewrite bool_decide_eq_true_2 by done. unfold fingerprint. rewrite Hkey. cbn [need ok_or]. by rewrite Hsecret.
  - rewrite bool_decide_eq_false_2, bool_decide_eq_true_2 by done. unfold sign. rewrite Hkey, Hin. cbn [need ok_or]. rewrite Hsecret. reflexivity.
Qed.

(** * Instances *)

#[local] Existing Instances toy_digest toy_ed25519 toy_digest_laws toy_ed25519_laws.
Definition seed_of_the_office : bytes := replicate 32 9.
Definition typed_card : str := lit " " ++ Hand.encode seed_of_the_office ++ [10].
Definition office_files (path : str) : option str :=
  if bool_decide (path = lit "admin.key") then Some (hex seed_of_the_office ++ [10])
  else if bool_decide (path = lit "fleet") then Some demo_text else None.
Definition office : Host.t := Host.mk office_files (fun _ => Some 384) (fun _ => true) true 0.
Definition vessel_files (path : str) : option str :=
  if bool_decide (path = lit "fleet") then Some demo_out
  else if bool_decide (path = lit "admin.pub") then Some typed_card else None.
Definition vessel : Host.t := Host.mk vessel_files (fun _ => Some 420) (fun _ => true) true 15.
Lemma ceremony_ends_on_the_vessel_witness :
  main office [lit "fingerprint"; lit "--key"; lit "admin.key"] = Some (Ran.mk (the_card seed_of_the_office) [] [] true)
  /\ exists m, parse demo_out = Ok m
     /\ main vessel [lit "verify"; lit "--admin-key"; lit "admin.pub"; lit "--in"; lit "fleet"]
        = Some (Ran.mk (report m (verifying_key (SigningKey.from_seed seed_of_the_office)) 15) [] [] true).
Proof.
  assert ((match parse demo_out with Ok m => (15 <? Manifest.valid_from m, Manifest.valid_until m <=? 15) | Err _ => (true, true) end)
          = (false, false)) as Hwindow by (vm_compute; reflexivity).
  destruct (ceremony_ends_on_the_vessel office vessel (lit "admin.key") (lit "fleet") (lit "fleet") (lit "admin.pub")
    (hex seed_of_the_office ++ [10]) demo_text typed_card demo_out seed_of_the_office 384) as (Hcard & _ & m & Hm & _ & Htold & _);
    [first [apply (bool_decide_unpack (wf_bytes _)); vm_compute; exact I|vm_compute; reflexivity]..|].
  split; [exact Hcard|]. exists m. split; [exact Hm|]. rewrite Hm in Hwindow. injection Hwindow as Hfrom Huntil.
  cbn [Host.clock vessel] in Htold. rewrite Hfrom, Huntil in Htold. exact Htold.
Defined.
Lemma a_readable_secret_stays_shut_witness :
  main (Host.mk office_files (fun _ => Some 420) (fun _ => true) true 0) [lit "fingerprint"; lit "--key"; lit "admin.key"]
  = Some (fail (OpenToOthers (lit "admin.key") 420)).
Proof.
  refine (a_readable_secret_stays_shut (Host.mk (fun _ => None) (fun _ => Some 420) (fun _ => true) true 0) (lit "fingerprint") (lit "admin.key")
    [lit "--key"; lit "admin.key"] (Options.mk (Some (lit "admin.key")) None None None None) 420 office_files _ _ _ _ _).
  - by left.
  - reflexivity.
  - reflexivity.
  - reflexivity.
  - discriminate.
Defined.

(** Two ways a key file is not what the tool takes it for. Sixty-four bytes that are not
    ASCII are sliced in the middle of a character: the tool panics instead of refusing.
    And a plus sign passes for a digit. *)
Definition holding (text : str) : Host.t := Host.mk (fun _ => Some text) (fun _ => Some 384) (fun _ => true) true 0.
Example a_key_file_can_panic : read_secret (holding ([97] ++ replicate 31 233 ++ [97])) (lit "k") = None.
Proof. vm_compute. reflexivity. Qed.
Example a_plus_passes_for_a_digit :
  read_secret (holding (concat (replicate 32 (lit "+f")))) (lit "k") = Some (Ok (SigningKey.from_seed (replicate 32 15))).
Proof. vm_compute. reflexivity. Qed.
