(* ===== verification/Messages.v ===== *)
(** What the errors say (their [Display], in the file of each under src/src/), and what the
    administrator's tool prints of them (src/src/bin/lcq-manifest.rs).

    [{:?}] of a text is the standard library's escaping, written out for ASCII; what it
    does with a character beyond ASCII is a parameter, as is what the operating
    system says of its own errors. *)
From S2P Require Import Prelude Contracts Quorum CaseState Journal Queue Crypto Codec Hand Radio Manifest ManifestProofs ManifestTool.
From S2P Require Import Hub RNode Station Board.

(** * Text *)

(** The standard library's tables of printable characters. *)
Class Unicode := { beyond_ascii : char -> str }.
(** [escape_unicode] below 128. *)
Definition code_escape (c : char) : str :=
  lit "\u{" ++ (if c <? 16 then [nth (Z.to_nat c) HEX 0] else hex_byte c) ++ lit "}".
Definition debug_char `{Unicode} (quote c : char) : str :=
  if c =? 0 then lit "\0"
  else if c =? 9 then lit "\t"
  else if c =? 10 then lit "\n"
  else if c =? 13 then lit "\r"
  else if (c =? quote) || (c =? 92) then [92; c]
  else if 128 <=? c then beyond_ascii c
  else if (32 <=? c) && (c <? 127) then [c]
  else code_escape c.
Definition debug_str `{Unicode} (s : str) : str := [34] ++ concat (debug_char 34 <$> s) ++ [34].
Definition debug_of_char `{Unicode} (c : char) : str := [39] ++ debug_char 39 c ++ [39].

(** * Messages *)

Module Message.
Definition subject_error (e : SubjectError) : str := lit "mission and event identifiers must be non-empty".
Definition policy_error (e : PolicyError) : str :=
  match e with
  | EmptyFleet => lit "fleet must not be empty"
  | BlankMemberId => lit "member IDs must be non-empty"
  | DuplicateMemberId => lit "member IDs must be unique"
  | CompetenceOutOfRange => lit "competence must be in 1..=100"
  | CompetenceRatioExceeded => lit "competence ratio exceeds policy cap"
  | FaultBudgetOutOfRange => lit "fault budget must be in [0, 10000) basis points"
  | NonPositiveCompetenceRatio => lit "competence ratio cap must be at least 1"
  end.
Definition evaluation_error : str := lit "signer is not a member of this fleet".
Definition transition_error (e : TransitionError) : str :=
  match e with
  | DifferentSubject => lit "utterance refers to a different subject"
  | WrongStageForPhase => lit "stage does not belong to the current phase"
  | ConsultationClosed => lit "consultation is closed"
  | CutoffNotReached => lit "consultation cutoff has not certainly passed"
  | CaseState.Expired => lit "subject has expired"
  | TimeUncertain => lit "clock uncertainty prevents establishing validity"
  | AlreadyVoted => lit "author already cast a binding vote"
  end.
Definition journal_error (e : JournalError) : str :=
  match e with
  | JAlreadyVoted => lit "a binding vote is already recorded for this case"
  | NotDurable => lit "the journal could not be made durable"
  end.
Definition queue_error (e : QueueError) : str :=
  match e with Full => lit "queue is at capacity" | Duplicate => lit "frame already seen" end.
Definition wire_error (e : WireError) : str :=
  match e with
  | BadSignature => lit "signature does not verify"
  | DecryptionFailed => lit "frame did not decrypt"
  | MalformedFrame => lit "frame is malformed"
  end.
Definition radio_error (e : RadioError) : str :=
  match e with
  | TooLong length max => lit "frame of " ++ decimal length ++ lit " bytes exceeds the radio's " ++ decimal max
  | Offline => lit "radio offline"
  end.
Definition hand_error `{Unicode} (e : HandError) : str :=
  match e with
  | UnknownSymbol found at_ =>
      lit "symbol " ++ decimal at_ ++ lit " is " ++ debug_of_char found ++ lit ", which is not in the alphabet"
  | WrongLength found expected => decimal found ++ lit " symbols, expected " ++ decimal expected
  | CheckFailed => lit "the check symbols do not match: something was mistyped"
  | NotCanonical => lit "the last symbol carries bits a key cannot"
  end.
(** [io] is what the operating system says. *)
Definition hub_error (io : str) (e : HubError) : str :=
  match e with
  | Unreachable address => lit "hub at " ++ address ++ lit " never became reachable"
  | Handshake => lit "hub handshake failed: " ++ io
  end.
Definition rnode_error (e : RNodeError) : str :=
  match e with
  | NotDetected => lit "no RNode answered the detect probe"
  | RadioOff => lit "the RNode did not turn its radio on"
  end.
Definition start_error (io : str) (e : StartError) : str :=
  match e with StartHub e => hub_error io e | StartThread => lit "radio thread: " ++ io end.
Definition hardware_error (io : str) (e : HardwareError) : str :=
  match e with HwSpi => lit "spi: " ++ io | HwGpio => lit "gpio: " ++ io | HwThread => lit "radio thread: " ++ io end.

Definition at_line (line : Z) (what : str) : str := lit "line " ++ decimal line ++ lit ": " ++ what.
Definition manifest_error `{Unicode} (e : ManifestError) : str :=
  match e with
  | UnknownDirective line word => at_line line (debug_str word ++ lit " is not a manifest directive")
  | Malformed line expected => at_line line (lit "expected " ++ expected)
  | NotANumber line field => at_line line (field ++ lit " is not a number in range")
  | NotCanonicalNumber line field =>
      at_line line (field ++ lit " must be plain decimal, without a sign or a leading zero")
  | NotHex line field bytes_ => at_line line (field ++ lit " must be " ++ decimal bytes_ ++ lit " bytes of hexadecimal")
  | MissingDirective directive => lit "no " ++ directive ++ lit " line"
  | UnsupportedVersion line version =>
      at_line line (lit "manifest version " ++ decimal version ++ lit ", this build understands " ++ decimal MANIFEST_VERSION)
  | Repeated line directive => at_line line (directive ++ lit " appears more than once")
  | OutOfOrder line directive =>
      at_line line (directive ++ lit " must come before the first member, and the signature last")
  | LabelCharset line id =>
      at_line line (lit "label " ++ debug_str id ++ lit " may hold only letters, digits, a dash and an underscore")
  | LabelTooLong line found =>
      at_line line (lit "a label of " ++ decimal found ++ lit " bytes is longer than " ++ decimal MAX_LABEL_BYTES)
  | NotAKey line index => at_line line (lit "member " ++ decimal index ++ lit "'s key is not a public key")
  | DuplicateIndex line index => at_line line (lit "index " ++ decimal index ++ lit " is already taken")
  | DuplicateId line id => at_line line (lit "member label " ++ debug_str id ++ lit " is already taken")
  | DuplicateKey line index =>
      at_line line (lit "member " ++ decimal index ++ lit " claims a public key another member already has")
  | NoMembers => lit "a manifest with no members is not a fleet"
  | IndicesNotContiguous missing size =>
      lit "a fleet of " ++ decimal size ++ lit " must name every index from 0 to " ++ decimal (size - 1) ++ lit "; "
      ++ decimal missing ++ lit " is missing"
  | FleetTooLarge size max =>
      lit "a fleet of " ++ decimal size ++ lit " is larger than the " ++ decimal max ++ lit " a frame can acknowledge"
  | PhyProfileMismatch line found expected =>
      at_line line (lit "this fleet flies " ++ debug_str found ++ lit ", this build flies " ++ debug_str expected)
  | HeardCapacityMismatch line found expected =>
      at_line line (lit "this fleet says a frame acknowledges " ++ decimal found ++ lit ", this build says " ++ decimal expected)
  | ValidityInverted from until =>
      lit "a window from " ++ decimal from ++ lit " to " ++ decimal until ++ lit " closes before it opens"
  | BadManifestSignature => lit "the signature does not check out against the administration key"
  | NotYetValid from now => lit "this manifest opens at " ++ decimal from ++ lit "; the clock says " ++ decimal now
  | Manifest.Expired until now => lit "this manifest closed at " ++ decimal until ++ lit "; the clock says " ++ decimal now
  | BadPolicy e => policy_error e
  end.

(** What the manifest tool prints to standard error; a refusal goes through [fail]. *)
Definition USAGE : str :=
  lit "usage:" ++ [10]
  ++ lit "  lcq-manifest fingerprint --key <secret>" ++ [10]
  ++ lit "  lcq-manifest sign        --key <secret> --in <manifest> [--out <file>]" ++ [10]
  ++ lit "  lcq-manifest verify      --admin-key <typed key> --in <manifest> [--now <seconds>]".
(** [{:o}] of a mode, as many digits as it has. *)
Fixpoint octal_loop (fuel : nat) (n : Z) (acc : str) : str :=
  match fuel with
  | O => acc
  | S fuel => let acc := (48 + n mod 8) :: acc in if n / 8 =? 0 then acc else octal_loop fuel (n / 8) acc
  end.
Definition octal (n : Z) : str := octal_loop 11 n [].
Definition why `{Unicode} (io : str) (w : Why) : str :=
  match w with
  | Usage => USAGE
  | NotACommand other => debug_str other ++ lit " is not a command"
  | NotAnOption other => debug_str other ++ lit " is not an option" ++ [10] ++ USAGE
  | WantsValue flag => flag ++ lit " wants a value"
  | WantsSeconds raw => lit "--now wants seconds, not " ++ debug_str raw
  | Required flag => flag ++ lit " is required" ++ [10] ++ USAGE
  | Unreadable path | Unwritable path => path ++ lit ": " ++ io
  | OpenToOthers path mode =>
      path ++ lit ": mode " ++ octal mode ++ lit " lets somebody else read the administration key; chmod 600 it"
  | NotSixtyFour path => path ++ lit ": an administration key is 32 bytes of hexadecimal, so 64 characters"
  | NotHexadecimal path => path ++ lit ": not hexadecimal"
  | BadCard path e => path ++ lit ": " ++ hand_error e
  | NotAPublicKey path => path ++ lit ": those are not a public key"
  | BadManifest path e => path ++ lit ": " ++ manifest_error e
  | StdoutGone => lit "stdout: " ++ io
  end.
(** A line of standard error; all but the usage goes through [fail] or reads as if it did. *)
Definition complaint `{Unicode} (io : str) (w : Why) : str :=
  println (match w with Usage => USAGE | w => lit "lcq-manifest: " ++ why io w end).
End Message.

(** * Where a refusal points *)

Definition line_of (e : ManifestError) : option Z :=
  match e with
  | UnknownDirective line _ | Malformed line _ | NotANumber line _ | NotCanonicalNumber line _ | NotHex line _ _
  | UnsupportedVersion line _ | Repeated line _ | OutOfOrder line _ | LabelCharset line _ | LabelTooLong line _
  | NotAKey line _ | DuplicateIndex line _ | DuplicateId line _ | DuplicateKey line _ | PhyProfileMismatch line _ _
  | HeardCapacityMismatch line _ _ => Some line
  | MissingDirective _ | NoMembers | IndicesNotContiguous _ _ | FleetTooLarge _ _ | ValidityInverted _ _
  | BadManifestSignature | NotYetValid _ _ | Manifest.Expired _ _ | BadPolicy _ => None
  end.

Section pointing.
(** What is refused on a line says so. *)
Definition points {A} (line : Z) (r : result ManifestError A) : Prop :=
  match r with Err e => line_of e = Some line | Ok _ => True end.
Lemma points_bind {A B} line (r : result ManifestError A) (k : A -> result ManifestError B) :
  points line r -> (forall a, points line (k a)) -> points line (r ≫= k).
Proof. destruct r; cbn; auto. Qed.
Lemma points_once held line directive : points line (once held line directive).
Proof. by destruct held. Qed.
Lemma points_one_word words line expected : points line (one_word words line expected).
Proof. by destruct words as [|? []]. Qed.
Lemma points_canonical max word line field : points line (canonical_number max word line field).
Proof. unfold canonical_number. repeat case_match; try done. by destruct (parse_uint max word). Qed.
Lemma points_hex n word line field : points line (hex_bytes n word line field).
Proof. unfold hex_bytes. case_match; [done|]. by destruct (hex_pairs _). Qed.
Lemma points_label id line : points line (check_label id line).
Proof. unfold check_label. by repeat case_match. Qed.
#[local] Hint Resolve points_once points_one_word points_canonical points_hex points_label : pointing.
Ltac pointing := repeat first [ apply points_bind; [|intros ?] | progress cbv zeta ]; auto with pointing;
  repeat case_match; try done; auto with pointing.
Lemma points_number max words line field : points line (number max words line field).
Proof. unfold number. pointing. Qed.
Lemma points_bounded words line field : points line (bounded words line field).
Proof. unfold bounded. apply points_bind; [apply points_number|]. intros. by case_match. Qed.
Lemma points_hex_word n words line field : points line (hex_word n words line field).
Proof. unfold hex_word. pointing. Qed.
#[local] Hint Resolve points_number points_bounded points_hex_word : pointing.

Context `{Ed25519}.
Lemma points_member p words line : points line (Parts.add_member p words line).
Proof.
  unfold Parts.add_member. destruct words as [|? [|? [|? [|? [|]]]]]; try done.
  repeat (apply points_bind; [solve [auto with pointing]|intros ?]).
  apply points_bind; [by unfold map_err; case_match|intros ?]. pointing.
Qed.
#[local] Hint Resolve points_member : pointing.
Lemma points_apply p directive words line : points line (Parts.apply p directive words line).
Proof. unfold Parts.apply. repeat (case_match; [pointing|]). done. Qed.
Lemma in_order_points p directive line e : Parts.in_order p directive line = Err e ->
  line_of e = Some line \/ e = MissingDirective (lit "version").
Proof. unfold Parts.in_order. repeat case_match; intros [= <-]; auto. Qed.

(** The first line that cannot be read, and what is wrong with it there. *)
Lemma read_lines_err p raws line e : Parts.read_lines p raws line = Err e <->
  exists k raw q, raws !! k = Some raw /\ Parts.read_lines p (take k raws) line = Ok q
    /\ Parts.read_line q raw (line + Z.of_nat k) = Err e.
Proof.
  revert p line; induction raws as [|raw raws IH]; intros p line; cbn [Parts.read_lines].
  { split; [done|]. intros (k & raw & q & Hk & _). by rewrite lookup_nil in Hk. }
  split.
  - destruct (Parts.read_line p raw line) as [q|e'] eqn:Hr; cbn [mbind result_bind].
    + intros (k & raw' & q' & Hk & Hp & He)%IH. exists (S k), raw', q'. split; [done|]. cbn [take Parts.read_lines].
      rewrite Hr. split; [done|]. by replace (line + Z.of_nat (S k)) with (line + 1 + Z.of_nat k) by lia.
    + intros [= ->]. exists 0%nat, raw, p. by rewrite Z.add_0_r.
  - intros ([|k] & raw' & q & Hk & Hp & He); cbn [lookup list_lookup take Parts.read_lines] in *.
    + assert (raw' = raw /\ p = q) as [-> ->] by (split; congruence). rewrite Z.add_0_r in He. by rewrite He.
    + apply result_bind_ok in Hp as (q1 & Hq1 & Hp). rewrite Hq1. cbn [mbind result_bind]. apply IH.
      exists k, raw', q. split_and!; [done|done|]. by replace (line + 1 + Z.of_nat k) with (line + Z.of_nat (S k)) by lia.
Qed.
Lemma read_line_points p raw line e n : Parts.read_line p raw line = Err e -> line_of e = Some n ->
  n = line /\ words_of raw <> [].
Proof.
  unfold Parts.read_line. destruct (words_of raw) as [|directive words]; [done|].
  destruct (Parts.in_order p directive line) as [u|e'] eqn:Ho; cbn [mbind result_bind].
  - intros Ha Hn. pose proof (points_apply p directive words line) as Hp. rewrite Ha in Hp. cbn in Hp. split; [congruence|done].
  - intros [= ->] Hn. apply in_order_points in Ho as [Ho| ->]; [|done]. split; [congruence|done].
Qed.
Lemma finish_points_nowhere p e : Parts.finish p = Err e -> line_of e = None.
Proof.
  assert (forall l e, Parts.all_present l = Err e -> line_of e = None) as Hall.
  { induction l as [|[held d] l IH]; intros e'; cbn [Parts.all_present]; [done|]. destruct held; [apply IH|by intros [= <-]]. }
  assert (forall ms k n e, Parts.contiguous ms k n = Err e -> line_of e = None) as Hc.
  { induction ms as [|m ms IH]; intros k n e'; cbn [Parts.contiguous]; [done|]. case_match; [by intros [= <-]|apply IH]. }
  unfold Parts.finish, Parts.settle. destruct (Parts.all_present (Parts.required p)) as [|e1] eqn:H1; cbn [mbind result_bind];
    [|intros [= <-]; by eapply Hall]. cbv zeta.
  repeat (case_match; cbn [mbind result_bind]; [by intros [= <-]|]).
  destruct (Parts.contiguous _ _ _) as [|e2] eqn:Hc2; cbn [mbind result_bind]; [|intros [= <-]; by eapply Hc].
  unfold map_err. by destruct (Manifest.policy _); cbn; intros [= <-].
Qed.
Lemma message_at_line e n `{Unicode} : line_of e = Some n ->
  exists what, Message.manifest_error e = Message.at_line n what.
Proof. destruct e; intros [= <-]; cbn [Message.manifest_error]; by eexists. Qed.

(** C20: A refusal points at the line it is about. A manifest is refused with an error that names
    line [n] exactly when the file has such a line, everything before it can be read, and that
    line is what is refused there -- so it is never a blank line or a comment, and never a later
    line than the first that is wrong -- and the message opens with its number. An error that
    names no line is about the file as a whole. *)
Theorem refusal_points_at_its_line `{Unicode} (text : str) (e : ManifestError) (n : Z) :
  (parse text = Err e /\ line_of e = Some n
   <-> exists raw p, 1 <= n /\ lines text !! Z.to_nat (n - 1) = Some raw
       /\ Parts.read_lines Parts.empty (take (Z.to_nat (n - 1)) (lines text)) 1 = Ok p
       /\ Parts.read_line p raw n = Err e /\ line_of e = Some n)
  /\ (parse text = Err e -> line_of e = Some n ->
       (exists raw, lines text !! Z.to_nat (n - 1) = Some raw /\ words_of raw <> [])
       /\ exists what, Message.manifest_error e = lit "line " ++ decimal n ++ lit ": " ++ what)
  /\ (parse text = Err e -> line_of e = None ->
       e = MissingDirective (lit "version") \/ e = MissingDirective (lit "signature")
       \/ exists p, Parts.read text true = Ok p /\ Parts.finish p = Err e).
Proof.
  assert (forall e, line_of e <> None -> parse text = Err e <-> Parts.read_lines Parts.empty (lines text) 1 = Err e) as Hparse.
  { intros e' He. unfold parse, Parts.read. destruct (Parts.read_lines _ _ _) as [p|e1] eqn:Hr; cbn [mbind result_bind].
    - split; [|done]. repeat case_match; cbn [mbind result_bind]; try (by intros [= <-]; destruct He). intros Hf%finish_points_nowhere. done.
    - split; congruence. }
  assert (parse text = Err e /\ line_of e = Some n
   <-> exists raw p, 1 <= n /\ lines text !! Z.to_nat (n - 1) = Some raw
       /\ Parts.read_lines Parts.empty (take (Z.to_nat (n - 1)) (lines text)) 1 = Ok p
       /\ Parts.read_line p raw n = Err e /\ line_of e = Some n) as Hiff.
  { split.
    - intros [Hp He]. apply Hparse in Hp; [|by rewrite He]. apply read_lines_err in Hp as (k & raw & q & Hk & Hq & Hr).
      destruct (read_line_points _ _ _ _ n Hr He) as [-> _]. exists raw, q. replace (Z.to_nat (1 + Z.of_nat k - 1)) with k by lia.
      split_and!; try done. lia.
    - intros (raw & p & Hn & Hk & Hq & Hr & He). split; [|done]. apply Hparse; [by rewrite He|]. apply read_lines_err.
      exists (Z.to_nat (n - 1)), raw, p. split_and!; [done|done|]. by replace (1 + Z.of_nat (Z.to_nat (n - 1))) with n by lia. }
  split_and!; [exact Hiff| |].
  - intros Hp He. destruct (proj1 Hiff (conj Hp He)) as (raw & p & _ & Hk & _ & Hr & _). split.
    + exists raw. split; [done|]. by destruct (read_line_points _ _ _ _ n Hr He).
    + by apply message_at_line.
  - unfold parse. destruct (Parts.read text true) as [p|e1] eqn:Hr; cbn [mbind result_bind]; [intros Hf _; right; right; by exists p|].
    intros [= ->] He. unfold Parts.read in Hr. destruct (Parts.read_lines _ _ _) as [p|e2] eqn:Hl; cbn [mbind result_bind] in Hr.
    + repeat case_match; simplify_eq; auto.
    + simplify_eq. apply read_lines_err in Hl as (k & raw & q & _ & _ & Hr). left. unfold Parts.read_line in Hr.
      destruct (words_of raw) as [|d ws]; [done|]. destruct (Parts.in_order q d _) as [u|e3] eqn:Ho; cbn [mbind result_bind] in Hr.
      * pose proof (points_apply q d ws (1 + Z.of_nat k)) as Hp. rewrite Hr in Hp. cbn in Hp. congruence.
      * simplify_eq. by apply in_order_points in Ho as [Ho|Ho]; [congruence|].
Qed.
End pointing.

(** * Reasons in the log *)

(** A text that can stand between the quotes of a JSON string as it is. *)
Definition json_plain (s : str) : Prop := Forall (fun c => 32 <= c < 127 /\ c <> 34 /\ c <> 92) s.
Definition json_plainb (s : str) : bool := forallb (fun c => (32 <=? c) && (c <? 127) && negb (c =? 34) && negb (c =? 92)) s.
Lemma json_plain_check s : json_plainb s = true -> json_plain s.
Proof. intros Hs. apply Forall_forall. intros c Hc.
  unfold json_plainb in Hs. rewrite forallb_forall in Hs. specialize (Hs c). cbv beta in Hs. rewrite list_elem_of_In in Hc. specialize (Hs Hc). lia.
Qed.
Lemma json_plain_decimal n : json_plain (decimal n).
Proof.
  unfold decimal. assert (json_plain []) as Hnil by constructor. revert n Hnil. generalize 20%nat, ([] : str).
  intros fuel; induction fuel as [|fuel IH]; intros acc n Hacc; cbn [dec_loop]; [done|].
  assert (json_plain ((48 + n mod 10) :: acc)) as Hd.
  { constructor; [|done]. pose proof (Z.mod_pos_bound n 10). lia. }
  case_match; [done|]. by apply IH.
Qed.
(** The reasons the node writes into its log keep each line the JSON it is meant to be: no
    message of the state machine, the wire, the journal, the queue or the radio holds a
    quote, a backslash or anything that is not printable, whatever numbers it carries. *)
Theorem reasons_keep_the_log_json :
  (forall e, json_plain (Message.transition_error e)) /\ (forall e, json_plain (Message.wire_error e))
  /\ (forall e, json_plain (Message.journal_error e)) /\ (forall e, json_plain (Message.queue_error e))
  /\ (forall e, json_plain (Message.radio_error e)).
Proof.
  split_and!; [intros []; apply json_plain_check; reflexivity..|]. intros [length max|]; cbn [Message.radio_error].
  - repeat first [ apply json_plain_decimal | apply Forall_app_2; [|] | apply json_plain_check; reflexivity ].
  - apply json_plain_check. reflexivity.
Qed.

(** * A manifest with a slip in it *)

#[local] Instance plain_unicode : Unicode := { beyond_ascii := fun c => [c] }.
Definition slipped : str :=
  lit "version 2" ++ [10] ++ lit "# the fleet of the spring patrol" ++ [10] ++ [10] ++ lit "epoch 07" ++ [10] ++ lit "epoch 8" ++ [10].
Lemma refusal_points_at_its_line_witness :
  let _ := toy_ed25519 in
  parse slipped = Err (NotCanonicalNumber 4 (lit "epoch"))
  /\ exists what, Message.manifest_error (NotCanonicalNumber 4 (lit "epoch")) = lit "line 4: " ++ what.
Proof.
  intros ?. assert (parse slipped = Err (NotCanonicalNumber 4 (lit "epoch"))) as Hp by (vm_compute; reflexivity).
  split; [exact Hp|].
  exact (proj2 (proj1 (proj2 (refusal_points_at_its_line slipped (NotCanonicalNumber 4 (lit "epoch")) 4)) Hp eq_refl)).
Defined.
Example messages_read_as_printed :
  Message.manifest_error (NotCanonicalNumber 4 (lit "epoch"))
  = lit "line 4: epoch must be plain decimal, without a sign or a leading zero"
  /\ Message.manifest_error (UnknownDirective 2 (lit "mem" ++ [34; 7; 9]))
     = lit "line 2: " ++ [34] ++ lit "mem\" ++ [34] ++ lit "\u{7}\t" ++ [34] ++ lit " is not a manifest directive"
  /\ Message.complaint [] (OpenToOthers (lit "admin.key") 420)
     = lit "lcq-manifest: admin.key: mode 644 lets somebody else read the administration key; chmod 600 it" ++ [10].
Proof. vm_compute. by split_and!. Qed.
