(* ===== verification/NodeSchedule.v ===== *)
(** The schedule a node keeps is collision-free, fits before endorsement, and opens
    rounds in turns; and what it speaks with is what its manifest names.
    Proofs about [NodeConfig]. *)
From S2P Require Import Prelude Time Contracts Quorum Crypto Codec Hand Manifest ManifestProofs ManifestSign Radio Channel NodeConfig.
Import Options.

(** * The slots *)

(** A member's options: the same fleet, another seat. *)
Definition seated (o : t) (i : Z) : t :=
  mk i (fleet o) (hub o) (journal o) (manifest o) (admin_key o) (signing_key o) (scale o)
    (offset o) (clock_epoch o) (slots o) (guard_ms o) (trigger o) (trigger_delay_ms o) (attempts o)
    (ignore_acks o) (adversary o) (prior_airtime_ms o).
(** When attempt [k] of a stage is due for the member at [i], on the anchor's axis. *)
Definition due_ms (o : t) (clock : ScaledClock.t) (i : Z) (stage : nat) (k : Z) : Z :=
  nth stage (offsets (seated o i) clock) 0 + k * retry_gap_ms o clock.
(** The attempts the schedule has room for: one opinion a stage, the binding votes. *)
Definition scheduled (o : t) (stage : nat) (k : Z) : Prop :=
  (stage < 2)%nat /\ k = 0 \/ stage = 2%nat /\ 0 <= k < Z.max (attempts o) 1.
(** A frame's wall-clock length. *)
Definition air_ms (clock : ScaledClock.t) (n : Z) : Z := ScaledClock.wall_ms clock (airtime_ms n).
(** A transmission on the anchor's axis. *)
Definition disjoint (a b : Z * Z) : Prop := a.2 <= b.1 \/ b.2 <= a.1.

Lemma slot_frame_air : airtime_ms MAX_FRAME_BYTES = 1436.
Proof. vm_compute. reflexivity. Qed.

Lemma div_add_le a b s : 0 < s -> a / s + b / s <= (a + b) / s.
Proof. intros. Z.to_euclidean_division_equations. nia. Qed.
Lemma div_add_ge a b s : 0 < s -> (a + b) / s <= a / s + b / s + 1.
Proof. intros. Z.to_euclidean_division_equations. nia. Qed.

Lemma airtime_le n : 0 <= n <= MAX_FRAME_BYTES -> 0 <= airtime_ms n <= airtime_ms MAX_FRAME_BYTES.
Proof.
  unfold MAX_FRAME_BYTES. intros Hn. unfold airtime_ms, DEFAULT_SPREADING_FACTOR. cbn [PhyProfile.spreading_factor PhyProfile.eu868_sf10].
  rewrite !airtime_exact by lia. pose proof (airtime_us_mono 10 n 152 ltac:(lia) ltac:(lia)).
  pose proof (airtime_us_mono 10 0 n ltac:(lia) ltac:(lia)).
  assert (0 <= airtime_us 10 0) by (vm_compute; discriminate). split; [apply Z.div_pos; lia|apply Z.div_le_mono; lia].
Qed.

Section slots.
Context (o : t) (clock : ScaledClock.t).
Hypothesis slotted : slots o = true.
Hypothesis fits : schedule_unfit o = false.
Hypothesis guarded : 0 <= guard_ms o.
Hypothesis scaled : 1 <= ScaledClock.scale clock <= 2000.
Local Notation sc := (ScaledClock.scale clock).

(** The window holds every slot of the fleet and two seconds more; and what fits
    bounds it. *)
Lemma window_holds : slot_ms o * fleet o + 2000 <= stage_window_s o * 1000.
Proof.
  unfold stage_window_s. rewrite slotted. unfold Competence.div_ceil.
  Z.to_euclidean_division_equations. lia.
Qed.
Lemma window_fits : stage_window_s o * (Z.max (attempts o) 1 + 6) <= 232.
Proof.
  pose proof fits as Hf. unfold schedule_unfit, finish, start_of, starts, REPAIR_ROUNDS in Hf. cbn [nth] in Hf.
  apply Z.ltb_ge in Hf. change ENDORSEMENT_TARGET_SECONDS with 600 in Hf. change BINDING_STAGE_OPENS_SECONDS with 362 in Hf. lia.
Qed.
Lemma slot_at_least : 1436 <= slot_ms o.
Proof. unfold slot_ms. rewrite slot_frame_air. lia. Qed.

Lemma due_slot i stage k : (stage < 3)%nat -> due_ms o clock i stage k
  = (start_of o stage * 1000 + slot_ms o * i) / sc + k * (stage_window_s o * 1000 / sc).
Proof.
  intros Hs. unfold due_ms, offsets, retry_gap_ms, ScaledClock.wall_ms, slot_offset_ms. cbn [slots seated]. rewrite slotted.
  change (slot_ms (seated o i)) with (slot_ms o). change (index (seated o i)) with i.
  change (starts (seated o i)) with (starts o). f_equal.
  destruct stage as [|[|[|]]]; [reflexivity..|lia].
Qed.

(** A transmission that starts within the guard of its due instant is over before the
    next slot. *)
Lemma slot_room late n base : 0 <= n <= MAX_FRAME_BYTES -> late <= guard_ms o / sc ->
  base / sc + late + air_ms clock n <= (base + slot_ms o) / sc.
Proof.
  intros Hn Hl. unfold air_ms, ScaledClock.wall_ms, slot_ms. pose proof (airtime_le n Hn).
  pose proof (div_add_le base (guard_ms o) sc ltac:(lia)).
  pose proof (div_add_le (base + guard_ms o) (airtime_ms MAX_FRAME_BYTES) sc ltac:(lia)).
  pose proof (Z.div_le_mono (airtime_ms n) (airtime_ms MAX_FRAME_BYTES) sc ltac:(lia) ltac:(lia)).
  replace (base + (airtime_ms MAX_FRAME_BYTES + guard_ms o)) with (base + guard_ms o + airtime_ms MAX_FRAME_BYTES) by lia. lia.
Qed.

Lemma same_window i j stage k late n : (stage < 3)%nat -> 0 <= i < j -> 0 <= n <= MAX_FRAME_BYTES -> late <= guard_ms o / sc ->
  due_ms o clock i stage k + late + air_ms clock n <= due_ms o clock j stage k.
Proof.
  intros Hs Hij Hn Hl. rewrite !due_slot by done. pose proof (slot_room late n (start_of o stage * 1000 + slot_ms o * i) Hn Hl).
  pose proof slot_at_least.
  pose proof (Z.div_le_mono (start_of o stage * 1000 + slot_ms o * i + slot_ms o) (start_of o stage * 1000 + slot_ms o * j) sc ltac:(lia) ltac:(nia)). lia.
Qed.
Lemma next_window i j k k' late n : 0 <= i < fleet o -> 0 <= j -> 0 <= k < k' -> 0 <= n <= MAX_FRAME_BYTES -> late <= guard_ms o / sc ->
  due_ms o clock i 2 k + late + air_ms clock n <= due_ms o clock j 2 k'.
Proof.
  intros Hi Hj Hk Hn Hl. rewrite !due_slot by lia. pose proof slot_at_least. pose proof window_holds.
  set (S := start_of o 2 * 1000) in *. set (W := stage_window_s o * 1000) in *.
  pose proof (slot_room late n (S + slot_ms o * i) Hn Hl).
  pose proof (Z.div_le_mono (S + slot_ms o * i + slot_ms o) (S + (W - sc)) sc ltac:(lia) ltac:(nia)).
  pose proof (div_add_ge S (W - sc) sc ltac:(lia)).
  assert ((W - sc) / sc = W / sc - 1) as Hd by (replace (W - sc) with (W + (-1) * sc) by lia; rewrite Z.div_add by lia; lia).
  pose proof (Z.div_le_mono S (S + slot_ms o * j) sc ltac:(lia) ltac:(nia)).
  assert (0 <= W / sc) by (apply Z.div_pos; nia). nia.
Qed.
Lemma next_stage i j stage stage' k k' late n : 0 <= i < fleet o -> 0 <= j -> (stage < stage' < 3)%nat ->
  scheduled o stage k -> scheduled o stage' k' -> 0 <= n <= MAX_FRAME_BYTES -> late <= guard_ms o / sc ->
  due_ms o clock i stage k + late + air_ms clock n <= due_ms o clock j stage' k'.
Proof.
  intros Hi Hj Hs Hk Hk' Hn Hl. assert (k = 0) as -> by (destruct Hk as [[_ ->]|[-> _]]; lia).
  assert (0 <= k') by (destruct Hk' as [[_ ->]|[_ ?]]; lia).
  rewrite !due_slot by lia. pose proof slot_at_least. pose proof window_holds. pose proof window_fits.
  pose proof (slot_room late n (start_of o stage * 1000 + slot_ms o * i) Hn Hl).
  assert (start_of o stage + stage_window_s o <= start_of o stage') as Hst.
  { unfold start_of, starts, lead_in. change BINDING_STAGE_OPENS_SECONDS with 362.
    destruct stage as [|[|]], stage' as [|[|[|]]]; cbn [nth]; try lia; nia. }
  pose proof (Z.div_le_mono (start_of o stage * 1000 + slot_ms o * i + slot_ms o) (start_of o stage' * 1000 + slot_ms o * j) sc ltac:(lia) ltac:(nia)).
  assert (0 <= stage_window_s o * 1000 / sc) by (apply Z.div_pos; nia). nia.
Qed.
End slots.

(** C12: Under slotted access, and in every run whose schedule the node agrees to keep,
    no two members of a fleet are ever on the air together: whichever two of their
    scheduled frames one takes -- any stage, any attempt the options allow, at any
    scale up to two thousand -- when each starts within the guard of the instant it is
    due, on a common anchor, one is over before the other begins. *)
Theorem slots_never_overlap (o : Options.t) (clock : ScaledClock.t) (i j : Z) (s s' : nat) (k k' n n' t t' : Z) :
  slots o = true -> schedule_unfit o = false -> 0 <= guard_ms o -> 1 <= ScaledClock.scale clock <= 2000 ->
  0 <= i < fleet o -> 0 <= j < fleet o -> scheduled o s k -> scheduled o s' k' -> (i, s, k) <> (j, s', k') ->
  0 <= n <= MAX_FRAME_BYTES -> 0 <= n' <= MAX_FRAME_BYTES ->
  due_ms o clock i s k <= t <= due_ms o clock i s k + ScaledClock.wall_ms clock (guard_ms o) ->
  due_ms o clock j s' k' <= t' <= due_ms o clock j s' k' + ScaledClock.wall_ms clock (guard_ms o) ->
  disjoint (t, t + air_ms clock n) (t', t' + air_ms clock n').
Proof.
  intros Hsl Hf Hg Hsc Hi Hj Hk Hk' Hne Hn Hn' Ht Ht'. unfold disjoint, ScaledClock.wall_ms in *. cbn [fst snd].
  set (late := guard_ms o / _) in *. assert (late <= guard_ms o / ScaledClock.scale clock) as Hl by (unfold late; lia).
  assert (forall q, scheduled o 2 q -> 0 <= q) as Hpos by (intros q [[? ->]|[_ ?]]; lia).
  destruct (lt_eq_lt_dec s s') as [[Hs|<-]|Hs].
  - assert (s' < 3)%nat by (destruct Hk' as [[? _]|[-> _]]; lia).
    pose proof (next_stage o clock Hsl Hf Hg Hsc i j s s' k k' late n Hi ltac:(lia) ltac:(lia) Hk Hk' Hn Hl). lia.
  - assert (s < 3)%nat as Hs by (destruct Hk as [[? _]|[-> _]]; lia).
    destruct (Z.lt_trichotomy k k') as [Hkk|[<-|Hkk]].
    + destruct Hk as [[? ->]|[-> Hk]]; [destruct Hk' as [[? ->]|[-> ?]]; lia|].
      pose proof (next_window o clock Hsl Hg Hsc i j k k' late n Hi ltac:(lia) ltac:(lia) Hn Hl). lia.
    + destruct (Z.lt_trichotomy i j) as [Hij|[<-|Hij]]; [|done|].
      * pose proof (same_window o clock Hsl Hg Hsc i j s k late n Hs ltac:(lia) Hn Hl). lia.
      * pose proof (same_window o clock Hsl Hg Hsc j i s k late n' Hs ltac:(lia) Hn' Hl). lia.
    + destruct Hk' as [[? ->]|[-> Hk']]; [destruct Hk as [[? ->]|[-> ?]]; lia|].
      pose proof (next_window o clock Hsl Hg Hsc j i k' k late n' Hj ltac:(lia) ltac:(lia) Hn' Hl). lia.
  - assert (s < 3)%nat by (destruct Hk as [[? _]|[-> _]]; lia).
    pose proof (next_stage o clock Hsl Hf Hg Hsc j i s' s k' k late n' Hj ltac:(lia) ltac:(lia) Hk' Hk Hn' Hl). lia.
Qed.

(** The options of an ordinary slotted run. *)
Definition demo_options (fleet index attempts : Z) : Options.t := {|
  index := index; fleet := fleet; hub := lit "127.0.0.1:9000"; journal := lit "node.log"; manifest := None;
  admin_key := None; signing_key := None; scale := 1; offset := 0; clock_epoch := 1000000; slots := true;
  guard_ms := 200; trigger := false; trigger_delay_ms := 5000; attempts := attempts; ignore_acks := false;
  adversary := Honest; prior_airtime_ms := 0 |}.
Definition demo_clock (scale : Z) : ScaledClock.t := ScaledClock.mk 0 (Timestamp.from_secs 1000000) scale 0.

Lemma slots_never_overlap_witness :
  schedule_unfit (demo_options 5 0 3) = false
  /\ disjoint (3696, 3696 + air_ms (demo_clock 100) 152) (3741, 3741 + air_ms (demo_clock 100) 140).
Proof.
  split; [vm_compute; reflexivity|].
  apply (slots_never_overlap (demo_options 5 0 3) (demo_clock 100) 4 0 2 2 0 1 152 140 3696 3741).
  all: first [reflexivity | vm_compute; split; discriminate | vm_compute; discriminate | idtac].
  all: first [right; split; [done|]; vm_compute; split; [discriminate|reflexivity] | vm_compute; split; [discriminate|reflexivity]].
Defined.

(** * The whole schedule *)

(** A node that agrees to a schedule has time for all of it: on the anchor's axis
    every attempt of every member, carried out within the guard, is over before the
    first repair window; the repair windows, two to a round, are over before the run
    may end; the run may end before endorsement is expected; and no instant of the
    schedule overflows. A slotted fleet with the ordinary guard and a single attempt
    has room for eighteen members, and not for one more. *)
Theorem schedule_has_room (o : Options.t) (clock : ScaledClock.t) (i : Z) (s : nat) (k n : Z) :
  slots o = true -> schedule_unfit o = false -> 0 <= guard_ms o -> 1 <= ScaledClock.scale clock <= 2000 ->
  0 <= i < fleet o -> scheduled o s k -> 0 <= n <= MAX_FRAME_BYTES ->
  0 <= due_ms o clock i s k
  /\ due_ms o clock i s k + ScaledClock.wall_ms clock (guard_ms o) + air_ms clock n <= repair_start_ms o clock
  /\ repair_start_ms o clock + 2 * REPAIR_ROUNDS * retry_gap_ms o clock <= ScaledClock.wall_ms clock (finish o * 1000)
  /\ finish o <= ENDORSEMENT_TARGET_SECONDS
  /\ is_u64 (slot_ms o * fleet o) /\ is_u64 (start_of o s * 1000 + slot_offset_ms (seated o i))
  /\ (guard_ms o = 200 -> attempts o = 1 -> fleet o <= 18).
Proof.
  intros Hsl Hf Hg Hsc Hi Hk Hn. pose proof (window_holds o Hsl). pose proof (window_fits o Hf). pose proof (slot_at_least o Hg).
  assert (s < 3)%nat as Hs by (destruct Hk as [[? _]|[-> _]]; lia).
  assert (0 <= k < Z.max (attempts o) 1) as Hk0 by (destruct Hk as [[? ->]|[_ ?]]; lia).
  assert (2 <= stage_window_s o) as HW2 by nia. assert (stage_window_s o <= 33) as HW by nia.
  assert (0 <= start_of o s /\ start_of o s + stage_window_s o <= start_of o 2 + stage_window_s o /\ start_of o 2 = 363) as (Hs0 & Hs2 & H2).
  { unfold start_of, starts, lead_in. change BINDING_STAGE_OPENS_SECONDS with 362. destruct s as [|[|[|]]]; cbn [nth]; (split; [|split]); [lia..|lia]. }
  split; [rewrite due_slot by done; apply Z.add_nonneg_nonneg; [apply Z.div_pos; nia|apply Z.mul_nonneg_nonneg; [lia|apply Z.div_pos; nia]]|].
  assert (due_ms o clock i s k <= due_ms o clock i 2 (Z.max (attempts o) 1 - 1)) as Hlast.
  { rewrite !(due_slot o clock Hsl) by lia. assert (0 <= stage_window_s o * 1000 / ScaledClock.scale clock) by (apply Z.div_pos; nia).
    pose proof (Z.div_le_mono (start_of o s * 1000 + slot_ms o * i) (start_of o 2 * 1000 + slot_ms o * i) (ScaledClock.scale clock) ltac:(lia) ltac:(nia)). nia. }
  split; [|split; [|split; [|split; [|split]]]].
  - pose proof (next_window o clock Hsl Hg Hsc i 0 (Z.max (attempts o) 1 - 1) (Z.max (attempts o) 1) (ScaledClock.wall_ms clock (guard_ms o)) n
      Hi ltac:(lia) ltac:(lia) Hn ltac:(unfold ScaledClock.wall_ms; lia)) as Hnext.
    rewrite (due_slot o clock Hsl 0 2) in Hnext by lia. unfold repair_start_ms, ScaledClock.wall_ms in *.
    rewrite Z.mul_0_r, Z.add_0_r in Hnext.
    assert (start_of o 2 * 1000 / ScaledClock.scale clock + Z.max (attempts o) 1 * (stage_window_s o * 1000 / ScaledClock.scale clock)
      <= (start_of o 2 + stage_window_s o * Z.max (attempts o) 1) * 1000 / ScaledClock.scale clock); [|lia].
    Z.to_euclidean_division_equations. nia.
  - unfold repair_start_ms, retry_gap_ms, finish, ScaledClock.wall_ms, REPAIR_ROUNDS. generalize (start_of o 2), (stage_window_s o), (Z.max (attempts o) 1).
    intros a w m. Z.to_euclidean_division_equations. nia.
  - unfold schedule_unfit in Hf. by apply Z.ltb_ge in Hf.
  - width. nia.
  - unfold slot_offset_ms. cbn [slots seated]. rewrite Hsl. change (slot_ms (seated o i)) with (slot_ms o). change (index (seated o i)) with i. width. nia.
  - intros Hg2 Ha. assert (slot_ms o = 1636) as Hslot by (unfold slot_ms; rewrite Hg2; vm_compute; reflexivity).
    rewrite Ha in *. change (Z.max 1 1) with 1 in *. nia.
Qed.
Lemma schedule_has_room_witness :
  schedule_unfit (demo_options 18 17 1) = false /\ schedule_unfit (demo_options 19 18 1) = true
  /\ due_ms (demo_options 18 17 1) (demo_clock 1) 17 2 0 = 390812
  /\ due_ms (demo_options 18 17 1) (demo_clock 1) 17 2 0 + ScaledClock.wall_ms (demo_clock 1) 200 + air_ms (demo_clock 1) 152
     <= repair_start_ms (demo_options 18 17 1) (demo_clock 1).
Proof.
  split; [vm_compute; reflexivity|]. split; [vm_compute; reflexivity|]. split; [vm_compute; reflexivity|].
  refine (proj1 (proj2 (schedule_has_room (demo_options 18 17 1) (demo_clock 1) 17 2 0 152 _ _ _ _ _ _ _))).
  all: first [reflexivity | vm_compute; split; discriminate | vm_compute; discriminate
    | right; split; [done|]; vm_compute; split; [discriminate|reflexivity] | vm_compute; split; [discriminate|reflexivity]].
Defined.

(** * Opening a round *)

Lemma rank_seated o i : 0 <= i < fleet o -> rank (seated o i) = (i - 34) mod fleet o.
Proof.
  intros Hi. unfold rank, CONTENT_HASH. change (index (seated o i)) with i. change (fleet (seated o i)) with (fleet o).
  rewrite Z.max_l by lia. cbn [replicate nth]. rewrite Zminus_mod_idemp_r.
  replace (i + fleet o - 34) with (i - 34 + 1 * fleet o) by lia. apply Z.mod_add. lia.
Qed.
Lemma rank_inj o i j : 0 <= i < fleet o -> 0 <= j < fleet o -> rank (seated o i) = rank (seated o j) -> i = j.
Proof.
  intros Hi Hj. rewrite !rank_seated by done. intros Heq.
  pose proof (Z.div_mod (i - 34) (fleet o) ltac:(lia)). pose proof (Z.div_mod (j - 34) (fleet o) ltac:(lia)).
  assert ((i - 34) / fleet o = (j - 34) / fleet o) by nia. nia.
Qed.
Lemma open_deadline_seated o clock i : trigger o = false ->
  open_deadline (seated o i) clock = trigger_delay_ms o + (rank (seated o i) + 1) * ScaledClock.wall_ms clock (2 * slot_ms o).
Proof. intros Ht. unfold open_deadline. cbn [trigger seated]. by rewrite Ht. Qed.

(** Any member may open a round and they take turns: the ranks of a fleet are a
    permutation of it, so exactly one member goes first and no two are due within two
    slots of one another -- long enough for the one before to have been heard, whatever
    it sent; a member told to open goes before all of them; and the last one has opened
    [fleet] turns after the delay, so a silent fleet waits no longer than that. *)
Theorem openers_take_turns (o : Options.t) (clock : ScaledClock.t) (i j n : Z) :
  trigger o = false -> 0 <= guard_ms o -> 1 <= ScaledClock.scale clock ->
  0 <= i < fleet o -> 0 <= j < fleet o -> i <> j -> 0 <= n <= MAX_FRAME_BYTES ->
  let turn := ScaledClock.wall_ms clock (2 * slot_ms o) in
  let due m := open_deadline (seated o m) clock in
  turn <= Z.abs (due i - due j)
  /\ 2 * air_ms clock n <= turn
  /\ (exists first, 0 <= first < fleet o /\ due first = trigger_delay_ms o + turn
        /\ forall m, 0 <= m < fleet o -> due first <= due m <= trigger_delay_ms o + fleet o * turn)
  /\ (forall told, trigger told = true -> open_deadline told clock = trigger_delay_ms told).
Proof.
  intros Ht Hg Hsc Hi Hj Hij Hn turn due.
  assert (forall m, 0 <= m < fleet o -> 0 <= rank (seated o m) < fleet o) as Hr.
  { intros m Hm. rewrite rank_seated by done. apply Z.mod_pos_bound. lia. }
  pose proof (slot_at_least o Hg) as Hslot. pose proof (airtime_le n Hn).
  assert (2 * air_ms clock n <= turn) as Hair.
  { unfold turn, air_ms, ScaledClock.wall_ms, slot_ms in *. Z.to_euclidean_division_equations. nia. }
  assert (0 <= turn) by (unfold turn, ScaledClock.wall_ms; apply Z.div_pos; lia).
  split_and!; [|done| |].
  - unfold due. rewrite !open_deadline_seated by done. fold turn. pose proof (rank_inj o i j Hi Hj).
    assert (rank (seated o i) <> rank (seated o j)) by tauto.
    destruct (Z.lt_ge_cases (rank (seated o i)) (rank (seated o j))); nia.
  - exists (34 mod fleet o). pose proof (Z.mod_pos_bound 34 (fleet o) ltac:(lia)).
    assert (due (34 mod fleet o) = trigger_delay_ms o + turn) as Hfirst.
    { unfold due. rewrite open_deadline_seated, rank_seated by done. fold turn.
      rewrite Zminus_mod_idemp_l. change (34 - 34) with 0. rewrite Z.mod_0_l by lia. lia. }
    split; [done|]. split; [done|]. intros m Hm. rewrite Hfirst. unfold due. rewrite open_deadline_seated by done. fold turn.
    specialize (Hr m Hm). nia.
  - intros told Htold. unfold open_deadline. by rewrite Htold.
Qed.
Lemma openers_take_turns_witness :
  ScaledClock.wall_ms (demo_clock 1) (2 * slot_ms (demo_options 5 0 1)) <=
  Z.abs (open_deadline (demo_options 5 0 1) (demo_clock 1) - open_deadline (demo_options 5 4 1) (demo_clock 1)).
Proof.
  refine (proj1 (openers_take_turns (demo_options 5 0 1) (demo_clock 1) 0 4 152 _ _ _ _ _ _ _)).
  all: first [reflexivity | vm_compute; split; discriminate | vm_compute; discriminate | vm_compute; split; [discriminate|reflexivity]].
Defined.

(** * What a node speaks with *)

(** What the rest of the node relies on, whichever way it was provisioned. *)
Record lawful_fleet (f : Fleet.t) : Prop := {
  lf_names : NoDup (Fleet.ids f);
  lf_policy : policy_wf (Fleet.policy f);
  lf_members : dom (competences (Fleet.policy f)) = list_to_set (Fleet.ids f);
}.

Section provisioning.
Context `{Digest, Ed25519}.
Context (file : str -> option str) (mode : str -> option Z).

Lemma policy_names (ms : list (str * Z)) bps ratio p : Forall (fun m => 0 <= m.2) ms ->
  with_settings ms bps ratio = Ok p ->
  NoDup ms.*1 /\ policy_wf p /\ dom (competences p) = list_to_set ms.*1.
Proof.
  intros Hnn Hp. pose proof (with_settings_wf ms bps ratio p Hnn Hp) as Hwf.
  apply with_settings_spec in Hp as (_ & _ & _ & _ & Hnd & _ & ->); [|done].
  split; [done|]. split; [done|]. cbn [competences policy_of]. by rewrite dom_list_to_map_L.
Qed.

Lemma uniform_lawful size f : Fleet.uniform size = Some f ->
  lawful_fleet f /\ Fleet.ids f = (fun index => lit "n" ++ decimal index) <$> seqZ 0 size.
Proof.
  unfold Fleet.uniform. set (names := _ <$> seqZ 0 size). destruct (Quorum.new _) as [p|] eqn:Hp; [|done].
  intros Hf. assert (f = Fleet.mk MISSION_EPOCH names p) as -> by congruence. split; [|done].
  assert (((fun id => (id, Competence.FULL)) <$> names).*1 = names) as Hn.
  { rewrite <- list_fmap_compose. unfold compose. cbn [fst]. apply list_fmap_id. }
  apply policy_names in Hp as (Hnd & Hwf & Hdom); [|apply Forall_fmap, Forall_true; intros; vm_compute; discriminate].
  rewrite Hn in Hnd, Hdom. by split.
Qed.
Lemma from_manifest_lawful (m : Mf.t) f : manifest_ok m -> Fleet.from_manifest m = Some f ->
  lawful_fleet f /\ Fleet.ids f = Member.id <$> Mf.members m /\ Fleet.mission_epoch f = Mf.epoch m.
Proof.
  intros Hok. unfold Fleet.from_manifest. destruct (Mf.policy m) as [p|] eqn:Hp; [|done].
  intros Hf. assert (f = Fleet.mk (Mf.epoch m) (Member.id <$> Mf.members m) p) as -> by congruence. split; [|done].
  unfold Mf.policy in Hp. apply policy_names in Hp as (Hnd & Hwf & Hdom).
  - rewrite <- list_fmap_compose in Hnd, Hdom. by split.
  - apply Forall_fmap. eapply Forall_impl; [exact (ma_members m Hok)|]. intros x [_ Hc _ _]. cbn.
    width. lia.
Qed.

Lemma fleet_names_invert f i : lawful_fleet f -> 0 <= i < Fleet.size f -> Fleet.index_of f (Fleet.id f i) = Some i.
Proof.
  intros [Hnd _ _] Hi. unfold Fleet.size, len in Hi. unfold Fleet.index_of, Fleet.id.
  destruct (lookup_lt_is_Some_2 (Fleet.ids f) (Z.to_nat i) ltac:(lia)) as [name Hname]. rewrite Hname. cbn [default from_option id].
  assert (list_find (fun held => held = name) (Fleet.ids f) = Some (Z.to_nat i, name)) as ->.
  { apply list_find_Some. split; [done|]. split; [done|]. intros j y Hj Hlt ->.
    pose proof (NoDup_lookup _ _ _ _ Hnd Hname Hj). lia. }
  cbn. f_equal. lia.
Qed.

(** C29: A node that starts is lawfully seated, however it was provisioned: its seat
    is one of the fleet's, the fleet is no larger than the acknowledgements can
    number, there is one key per member, its own signing key is the one its seat is
    verified with, no two members share a name, so the name of a seat leads back to
    it, and the policy counts exactly the fleet's members. *)
Theorem assembled_node_is_lawful (o o' : Options.t) (now : Z) (f : Fleet.t) (p : Provisioned.t) :
  0 <= index o -> (forall path text, file path = Some text -> wf_str text) ->
  assemble file mode o now = Some (o', f, p) ->
  lawful_fleet f
  /\ index o' = index o /\ fleet o' = Fleet.size f /\ len (Provisioned.keyring p) = Fleet.size f
  /\ 0 <= index o' < Fleet.size f /\ Fleet.size f <= Heard.CAPACITY /\ 1 <= scale o'
  /\ Provisioned.keyring p !! Z.to_nat (index o') = Some (verifying_key (Provisioned.signing p))
  /\ (forall i, 0 <= i < Fleet.size f -> Fleet.index_of f (Fleet.id f i) = Some i).
Proof.
  intros Hi Htext Ha. unfold assemble in Ha. apply bind_Some in Ha as ([f' p'] & Hp & Ha).
  apply bind_Some in Ha as (Hlt & _ & Ha). apply bind_Some in Ha as (Hcap & _ & Ha). apply bind_Some in Ha as (Hscale & _ & Ha).
  assert (o' = with_fleet o (Fleet.size f') /\ f = f' /\ p = p') as (-> & -> & ->) by (split_and!; congruence).
  cbn [index fleet scale with_fleet] in *. clear Ha.
  assert (lawful_fleet f' /\ len (Provisioned.keyring p') = Fleet.size f'
    /\ Provisioned.keyring p' !! Z.to_nat (index o) = Some (verifying_key (Provisioned.signing p'))) as (Hf & Hk & Hown).
  { unfold provision in Hp. destruct (manifest o) as [path|].
    - apply bind_Some in Hp as (? & _ & Hp). apply bind_Some in Hp as (? & _ & Hp). apply bind_Some in Hp as (? & _ & Hp).
      apply bind_Some in Hp as (? & _ & Hp). apply bind_Some in Hp as (text & Ht & Hp). apply bind_Some in Hp as (m & Hm & Hp).
      apply bind_Some in Hp as (? & _ & Hp). apply bind_Some in Hp as (? & _ & Hp). apply bind_Some in Hp as (seed & _ & Hp).
      apply bind_Some in Hp as (named & Hnamed & Hp). apply bind_Some in Hp as (Hkey & _ & Hp). apply bind_Some in Hp as (f & Hfl & Hp).
      assert (f' = f) as -> by congruence. unfold ok in Hm. destruct (parse text) as [m'|] eqn:Hpm; [|done].
      assert (m' = m) as -> by congruence. destruct (parse_ok text m (Htext _ _ Ht) Hpm) as [Hok _].
      destruct (from_manifest_lawful m f Hok Hfl) as (Hl & Hids & _). split; [done|].
      match type of Hp with Some (_, ?q) = _ => assert (p' = q) as -> by congruence end.
      cbn [Provisioned.keyring Provisioned.signing]. unfold Fleet.size, len. rewrite Hids, !length_fmap.
      split; [done|]. rewrite list_lookup_fmap. unfold Mf.key_of in Hnamed. by rewrite Hnamed, Hkey.
    - apply bind_Some in Hp as (f & Hfl & Hp). assert (f' = f) as -> by congruence.
      match type of Hp with Some (_, ?q) = _ => assert (p' = q) as -> by congruence end.
      destruct (uniform_lawful _ _ Hfl) as [Hl Hids]. unfold Fleet.size, len in *. rewrite Hids in *.
      rewrite length_fmap in *. cbn [Provisioned.keyring Provisioned.signing]. rewrite length_fmap. split; [done|]. split; [done|].
      rewrite length_seqZ in *. rewrite list_lookup_fmap. rewrite lookup_seqZ_lt by lia. cbn [fmap option_fmap option_map]. by rewrite Z.add_0_l, Z2Nat.id by done. }
  split_and!; try done; try lia. intros i Hin. by apply fleet_names_invert.
Qed.
End provisioning.

Lemma assembled_node_is_lawful_witness :
  exists o f p, @assemble toy_digest toy_ed25519 (fun _ => None) (fun _ => None) (demo_options 5 2 1) 0 = Some (o, f, p)
  /\ Provisioned.keyring p !! 2%nat = Some (@verifying_key toy_ed25519 (Provisioned.signing p))
  /\ Fleet.index_of f (lit "n4") = Some 4.
Proof.
  destruct (@assemble toy_digest toy_ed25519 (fun _ => None) (fun _ => None) (demo_options 5 2 1) 0) as [[[o f] p]|] eqn:Ha;
    [|vm_compute in Ha; discriminate].
  pose proof (@assembled_node_is_lawful toy_digest toy_ed25519 (fun _ => None) (fun _ => None) (demo_options 5 2 1) o 0 f p
    ltac:(vm_compute; discriminate) ltac:(discriminate) Ha) as (_ & Hi & _ & _ & _ & _ & _ & Hkey & Hname).
  exists o, f, p. split; [done|]. rewrite Hi in Hkey. split; [exact Hkey|].
  assert (option_map (fun q => Fleet.ids q.1.2) (@assemble toy_digest toy_ed25519 (fun _ => None) (fun _ => None) (demo_options 5 2 1) 0)
    = Some ((fun i => lit "n" ++ decimal i) <$> seqZ 0 5)) as Hids by (vm_compute; reflexivity).
  rewrite Ha in Hids. cbn [option_map fst snd] in Hids.
  assert (Fleet.ids f = (fun i => lit "n" ++ decimal i) <$> seqZ 0 5) as Hf by congruence.
  assert (Fleet.size f = 5) as Hs by (unfold Fleet.size; rewrite Hf; reflexivity).
  assert (Fleet.id f 4 = lit "n4") as Hn by (unfold Fleet.id; rewrite Hf; reflexivity).
  rewrite <- Hn. apply Hname. rewrite Hs. vm_compute. split; [discriminate|reflexivity].
Defined.

(** A vessel that is given a manifest runs on it or not at all: the manifest it
    read parses, carries the signature of the very key the crew typed, is in its window
    now, and names this node's own key at its own seat; the fleet, the epoch and every
    key a signature will be checked against are the manifest's; a signing key file
    that anyone but its owner may touch is not read; and without a typed key, or with
    one that does not decode, the node does not start. *)
Lemma provision_trusts_the_card `{Digest, Ed25519} (file : str -> option str) (mode : str -> option Z)
    (o : Options.t) (now : Z) (path : str) (f : Fleet.t) (p : Provisioned.t) :
  manifest o = Some path -> provision file mode o now = Some (f, p) ->
  exists card typed admin_bytes admin text m,
    admin_key o = Some card /\ file card = Some typed /\ Hand.decode typed = Ok admin_bytes
    /\ VerifyingKey.from_bytes admin_bytes = Ok admin /\ file path = Some text /\ parse text = Ok m
    /\ Mf.verify m admin now = Ok tt
    /\ Mf.key_of m (Z.to_nat (index o)) = Some (verifying_key (Provisioned.signing p))
    /\ Provisioned.keyring p = Member.key <$> Mf.members m
    /\ Fleet.ids f = Member.id <$> Mf.members m /\ Fleet.mission_epoch f = Mf.epoch m
    /\ Provisioned.group p = GroupKey.fixture_for_epoch (Mf.group_key_id m) (Mf.epoch m)
    /\ Mf.policy m = Ok (Fleet.policy f)
    /\ Provisioned.admin p = Some (Hand.fingerprint admin_bytes)
    /\ Provisioned.manifest_digest p = Some (Mf.digest m)
    /\ (forall own, signing_key o = Some own -> exists m, mode own = Some m /\ Z.land m 63 = 0).
Proof.
  intros Hpath Hp. unfold provision in Hp. rewrite Hpath in Hp.
  apply bind_Some in Hp as (card & Hcard & Hp). apply bind_Some in Hp as (typed & Htyped & Hp). apply bind_Some in Hp as (ab & Hab & Hp).
  apply bind_Some in Hp as (admin & Hadmin & Hp). apply bind_Some in Hp as (text & Ht & Hp). apply bind_Some in Hp as (m & Hm & Hp).
  apply bind_Some in Hp as ([] & Hv & Hp). apply bind_Some in Hp as (? & _ & Hp). apply bind_Some in Hp as (seed & Hseed & Hp).
  apply bind_Some in Hp as (named & Hnamed & Hp). apply bind_Some in Hp as (Hkey & _ & Hp). apply bind_Some in Hp as (f' & Hfl & Hp).
  assert (f' = f) as -> by congruence. match type of Hp with Some (_, ?q) = _ => assert (p = q) as -> by congruence end.
  assert (forall E A (r : result E A) a, ok r = Some a -> r = Ok a) as Hok by (intros ?? [?|?] ?; cbn; congruence).
  assert (Fleet.ids f = Member.id <$> Mf.members m /\ Fleet.mission_epoch f = Mf.epoch m /\ Mf.policy m = Ok (Fleet.policy f)) as (Hids & Hep & Hpol).
  { unfold Fleet.from_manifest in Hfl. destruct (Mf.policy m) as [pol|]; [|done].
    match type of Hfl with Some ?q = _ => assert (f = q) as -> by congruence end. done. }
  exists card, typed, ab, admin, text, m. cbn [Provisioned.keyring Provisioned.signing Provisioned.admin Provisioned.manifest_digest].
  split_and!; auto; [by rewrite Hkey|].
  - intros own Hown. rewrite Hown in Hseed. unfold read_seed in Hseed. apply bind_Some in Hseed as (bits & Hbits & Hseed).
    apply bind_Some in Hseed as (Hland & _ & _). eauto.
Qed.

(** A vessel's card, key and manifest. *)
Definition demo_files (path : str) : option str :=
  if bool_decide (path = lit "fleet") then Some demo_out
  else if bool_decide (path = lit "card") then Some (@Hand.encode toy_digest (replicate 32 9))
  else if bool_decide (path = lit "seed") then Some (hex (replicate 32 3) ++ [10])
  else None.
Definition demo_modes (path : str) : option Z := Some 384.
Definition vessel_options : Options.t := {|
  index := 1; fleet := 5; hub := []; journal := lit "node.log"; manifest := Some (lit "fleet");
  admin_key := Some (lit "card"); signing_key := Some (lit "seed"); scale := 1; offset := 0; clock_epoch := 1000000; slots := true;
  guard_ms := 200; trigger := false; trigger_delay_ms := 5000; attempts := 1; ignore_acks := false;
  adversary := Honest; prior_airtime_ms := 0 |}.
Lemma provision_trusts_the_card_witness :
  exists f p, @provision toy_digest toy_ed25519 demo_files demo_modes vessel_options 15 = Some (f, p)
  /\ exists m, @parse toy_ed25519 demo_out = Ok m /\ Fleet.ids f = Member.id <$> Mf.members m.
Proof.
  destruct (@provision toy_digest toy_ed25519 demo_files demo_modes vessel_options 15) as [[f p]|] eqn:Hp;
    [|vm_compute in Hp; discriminate].
  destruct (@provision_trusts_the_card toy_digest toy_ed25519 demo_files demo_modes vessel_options 15 (lit "fleet") f p eq_refl Hp)
    as (card & typed & ab & admin & text & m & _ & _ & _ & _ & Ht & Hm & _ & _ & _ & Hids & _).
  exists f, p. split; [done|]. exists m. split; [|exact Hids].
  assert (text = demo_out) as -> by (change (demo_files (lit "fleet")) with (Some demo_out) in Ht; congruence). exact Hm.
Defined.
