(* ===== verification/NodeState.v ===== *)
(** The state of a node's main loop (src/src/bin/lcq-node.rs, [main]) and the small
    monad its steps are written in.

    The state is the journal, the radio and the airtime budget the process holds, the
    counters and the log it writes, and the loop's own variables; a step returns a
    value or leaves the turn early, as [continue] and [break] do, or ends the process.
    The wall clock is a parameter: [instant k] is what the [k]-th call of
    [Instant::now] returns, in nanoseconds, and [hash k] the [k]-th random number. *)
From S2P Require Import Prelude Time Contracts Quorum CaseState Replay Budget Journal Queue Crypto Codec Radio Channel NodeConfig.

(** * What the process prints *)

(** Why a frame was not built. *)
Inductive BuildError :=
| NothingLeft
| NotJournalled (e : JournalError)
| NotEncoded (e : WireError)
| TooWide (len : Z).
(** How a node came to be in a round. *)
Inductive Anchor := BySelf | ByHeard | Derived (from : Z).
Inductive Refusal := WrongSubject | WrongHeader | WrongSignature.

Inductive Line :=
| LStart (index : Z) (recovered_vote : bool) (pending epoch : Z) (trust : option (str * bytes))
| LWitnessedRestored (votes : Z)
| LTriggered (by_ : Anchor)
| LEquivocated
| LJammed (slot_of : Z)
| LReplayed
| LConsultationClosed
| LCloseRefused (why : TransitionError)
| LSlotMissed (stage : Stage) (attempt : Z)
| LAcknowledged (after_attempts : Z)
| LSent (stage : Stage) (bytes : Z)
| LNotSent (stage : option Stage) (why : BuildError)
| LNack (round : Z) (missing : list Z)
| LRepaired
| LForwarded (from : Z)
| LReplayDropped
| LEvidence (opener kept : Z)
| LCarrying (for_ frames : Z)
| LNotDurable (why : JournalError)
| LSeenNotDurable (sender : Z) (why : JournalError)
| LSplit (round : RoundId.t) (disagreeing : list Z)
| LRefused (why : Refusal)
| LRefusedBy (from : Z) (why : TransitionError)
| LAdmitted (from : Z) (stage : Stage)
| LRadioRefused (why : RadioError)
| LDutyBlocked (airtime_ms used_ms : Z)
| LCrcError (rssi : Z)
| LHeaderError (rssi : Z)
| LNote (body : str)
| LOutsideFleet (claimed : Z)
| LUnfit (finish_s : Z)
| LFinal (supporters : Z) (endorsed : bool) (support_competence binding_attempts : Z).

Module Meter.
Record t := mk {
  verifications : Z; crc_errors : Z; header_errors : Z; chip_missed : Z;
  replays_dropped : Z; outside_fleet_dropped : Z }.
Definition zero : t := mk 0 0 0 0 0 0.
Inductive counter := Verifications | CrcErrors | HeaderErrors | ChipMissed | ReplaysDropped | OutsideFleetDropped.
Definition bump (m : t) (c : counter) : t :=
  let up (k : counter) (v : Z) := match c, k with
    | Verifications, Verifications | CrcErrors, CrcErrors | HeaderErrors, HeaderErrors
    | ChipMissed, ChipMissed | ReplaysDropped, ReplaysDropped
    | OutsideFleetDropped, OutsideFleetDropped => wrap64 (v + 1)
    | _, _ => v end in
  mk (up Verifications (verifications m)) (up CrcErrors (crc_errors m)) (up HeaderErrors (header_errors m))
    (up ChipMissed (chip_missed m)) (up ReplaysDropped (replays_dropped m))
    (up OutsideFleetDropped (outside_fleet_dropped m)).
End Meter.

(** * Time *)

(** [Duration::from_millis], and back. *)
Definition from_millis (ms : Z) : Z := ms * 1000000.
Definition as_millis (ns : Z) : Z := ns / 1000000.

(** The loop's [ScaledClock], which remembers where it started. *)
Module Clk.
Record t := mk { origin : Z; epoch : Timestamp.t; scale : Z; offset_s : Z }.
(** Elapsed time saturates at zero. *)
Definition reading (c : t) (at_ : Z) : ScaledClock.t :=
  ScaledClock.anchored_at (as_millis (Z.max 0 (at_ - origin c))) (epoch c) (scale c) (offset_s c).
Definition wall_ms (c : t) (protocol_ms : Z) : Z := ScaledClock.wall_ms (reading c (origin c)) protocol_ms.
End Clk.

(** * The state *)

Module World.
Record t (J R : Type) := mk { journal : J; radio : R; budget : AirtimeBudget.t; meter : Meter.t; log : list (option Z * Line); reads : nat; draws : nat }.
Arguments mk {J R}. Arguments journal {J R}. Arguments radio {J R}. Arguments budget {J R}. Arguments meter {J R}. Arguments log {J R}. Arguments reads {J R}. Arguments draws {J R}.
End World.
Module Pace.
Record t := mk { clock : Clk.t; began : option Z; sent : list bool; attempts : list Z; next_due : list (option Z); acknowledged : bool }.
End Pace.
Module Poll.
Record t := mk { case : Case.t; closed : bool; heard : Heard.t; own_admitted : list bool; early : gmap Z bytes; windows : list ReplayWindow.t }.
End Poll.
Module Unity.
Record t := mk { round : RoundId.t; split : bool; foreign : gset Z; evidence : list bytes }.
End Unity.
Module Repair.
Record t := mk { nacked_rounds : Z; repair_due : option Z; repaired_round : option Z; forwards : RadioQueue.t }.
End Repair.
Module Foe.
Record t := mk { equivocate_at : option Z; captured : option bytes; jam_next : option Z; replay_next : option Z }.
End Foe.

Module Node.
Record t (J R : Type) := mk { world : World.t J R; pace : Pace.t; poll : Poll.t; unity : Unity.t; repair : Repair.t; foe : Foe.t }.
Arguments mk {J R}. Arguments world {J R}. Arguments pace {J R}. Arguments poll {J R}. Arguments unity {J R}. Arguments repair {J R}. Arguments foe {J R}.
Section fields.
Context {J R : Type}.
Implicit Type n : t J R.

Definition journal n := World.journal (world n).
Definition radio n := World.radio (world n).
Definition budget n := World.budget (world n).
Definition meter n := World.meter (world n).
Definition log n := World.log (world n).
Definition reads n := World.reads (world n).
Definition draws n := World.draws (world n).
Definition clock n := Pace.clock (pace n).
Definition began n := Pace.began (pace n).
Definition sent n := Pace.sent (pace n).
Definition attempts n := Pace.attempts (pace n).
Definition next_due n := Pace.next_due (pace n).
Definition acknowledged n := Pace.acknowledged (pace n).
Definition case n := Poll.case (poll n).
Definition closed n := Poll.closed (poll n).
Definition heard n := Poll.heard (poll n).
Definition own_admitted n := Poll.own_admitted (poll n).
Definition early n := Poll.early (poll n).
Definition windows n := Poll.windows (poll n).
Definition round n := Unity.round (unity n).
Definition split n := Unity.split (unity n).
Definition foreign n := Unity.foreign (unity n).
Definition evidence n := Unity.evidence (unity n).
Definition nacked_rounds n := Repair.nacked_rounds (repair n).
Definition repair_due n := Repair.repair_due (repair n).
Definition repaired_round n := Repair.repaired_round (repair n).
Definition forwards n := Repair.forwards (repair n).
Definition equivocate_at n := Foe.equivocate_at (foe n).
Definition captured n := Foe.captured (foe n).
Definition jam_next n := Foe.jam_next (foe n).
Definition replay_next n := Foe.replay_next (foe n).
Definition set_journal (v : J) n : t J R := mk (World.mk v (radio n) (budget n) (meter n) (log n) (reads n) (draws n)) (pace n) (poll n) (unity n) (repair n) (foe n).
Definition set_radio (v : R) n : t J R := mk (World.mk (journal n) v (budget n) (meter n) (log n) (reads n) (draws n)) (pace n) (poll n) (unity n) (repair n) (foe n).
Definition set_budget (v : AirtimeBudget.t) n : t J R := mk (World.mk (journal n) (radio n) v (meter n) (log n) (reads n) (draws n)) (pace n) (poll n) (unity n) (repair n) (foe n).
Definition set_meter (v : Meter.t) n : t J R := mk (World.mk (journal n) (radio n) (budget n) v (log n) (reads n) (draws n)) (pace n) (poll n) (unity n) (repair n) (foe n).
Definition set_log (v : list (option Z * Line)) n : t J R := mk (World.mk (journal n) (radio n) (budget n) (meter n) v (reads n) (draws n)) (pace n) (poll n) (unity n) (repair n) (foe n).
Definition set_reads (v : nat) n : t J R := mk (World.mk (journal n) (radio n) (budget n) (meter n) (log n) v (draws n)) (pace n) (poll n) (unity n) (repair n) (foe n).
Definition set_draws (v : nat) n : t J R := mk (World.mk (journal n) (radio n) (budget n) (meter n) (log n) (reads n) v) (pace n) (poll n) (unity n) (repair n) (foe n).
Definition set_clock (v : Clk.t) n : t J R := mk (world n) (Pace.mk v (began n) (sent n) (attempts n) (next_due n) (acknowledged n)) (poll n) (unity n) (repair n) (foe n).
Definition set_began (v : option Z) n : t J R := mk (world n) (Pace.mk (clock n) v (sent n) (attempts n) (next_due n) (acknowledged n)) (poll n) (unity n) (repair n) (foe n).
Definition set_sent (v : list bool) n : t J R := mk (world n) (Pace.mk (clock n) (began n) v (attempts n) (next_due n) (acknowledged n)) (poll n) (unity n) (repair n) (foe n).
Definition set_attempts (v : list Z) n : t J R := mk (world n) (Pace.mk (clock n) (began n) (sent n) v (next_due n) (acknowledged n)) (poll n) (unity n) (repair n) (foe n).
Definition set_next_due (v : list (option Z)) n : t J R := mk (world n) (Pace.mk (clock n) (began n) (sent n) (attempts n) v (acknowledged n)) (poll n) (unity n) (repair n) (foe n).
Definition set_acknowledged (v : bool) n : t J R := mk (world n) (Pace.mk (clock n) (began n) (sent n) (attempts n) (next_due n) v) (poll n) (unity n) (repair n) (foe n).
Definition set_case (v : Case.t) n : t J R := mk (world n) (pace n) (Poll.mk v (closed n) (heard n) (own_admitted n) (early n) (windows n)) (unity n) (repair n) (foe n).
Definition set_closed (v : bool) n : t J R := mk (world n) (pace n) (Poll.mk (case n) v (heard n) (own_admitted n) (early n) (windows n)) (unity n) (repair n) (foe n).
Definition set_heard (v : Heard.t) n : t J R := mk (world n) (pace n) (Poll.mk (case n) (closed n) v (own_admitted n) (early n) (windows n)) (unity n) (repair n) (foe n).
Definition set_own_admitted (v : list bool) n : t J R := mk (world n) (pace n) (Poll.mk (case n) (closed n) (heard n) v (early n) (windows n)) (unity n) (repair n) (foe n).
Definition set_early (v : gmap Z bytes) n : t J R := mk (world n) (pace n) (Poll.mk (case n) (closed n) (heard n) (own_admitted n) v (windows n)) (unity n) (repair n) (foe n).
Definition set_windows (v : list ReplayWindow.t) n : t J R := mk (world n) (pace n) (Poll.mk (case n) (closed n) (heard n) (own_admitted n) (early n) v) (unity n) (repair n) (foe n).
Definition set_round (v : RoundId.t) n : t J R := mk (world n) (pace n) (poll n) (Unity.mk v (split n) (foreign n) (evidence n)) (repair n) (foe n).
Definition set_split (v : bool) n : t J R := mk (world n) (pace n) (poll n) (Unity.mk (round n) v (foreign n) (evidence n)) (repair n) (foe n).
Definition set_foreign (v : gset Z) n : t J R := mk (world n) (pace n) (poll n) (Unity.mk (round n) (split n) v (evidence n)) (repair n) (foe n).
Definition set_evidence (v : list bytes) n : t J R := mk (world n) (pace n) (poll n) (Unity.mk (round n) (split n) (foreign n) v) (repair n) (foe n).
Definition set_nacked_rounds (v : Z) n : t J R := mk (world n) (pace n) (poll n) (unity n) (Repair.mk v (repair_due n) (repaired_round n) (forwards n)) (foe n).
Definition set_repair_due (v : option Z) n : t J R := mk (world n) (pace n) (poll n) (unity n) (Repair.mk (nacked_rounds n) v (repaired_round n) (forwards n)) (foe n).
Definition set_repaired_round (v : option Z) n : t J R := mk (world n) (pace n) (poll n) (unity n) (Repair.mk (nacked_rounds n) (repair_due n) v (forwards n)) (foe n).
Definition set_forwards (v : RadioQueue.t) n : t J R := mk (world n) (pace n) (poll n) (unity n) (Repair.mk (nacked_rounds n) (repair_due n) (repaired_round n) v) (foe n).
Definition set_equivocate_at (v : option Z) n : t J R := mk (world n) (pace n) (poll n) (unity n) (repair n) (Foe.mk v (captured n) (jam_next n) (replay_next n)).
Definition set_captured (v : option bytes) n : t J R := mk (world n) (pace n) (poll n) (unity n) (repair n) (Foe.mk (equivocate_at n) v (jam_next n) (replay_next n)).
Definition set_jam_next (v : option Z) n : t J R := mk (world n) (pace n) (poll n) (unity n) (repair n) (Foe.mk (equivocate_at n) (captured n) v (replay_next n)).
Definition set_replay_next (v : option Z) n : t J R := mk (world n) (pace n) (poll n) (unity n) (repair n) (Foe.mk (equivocate_at n) (captured n) (jam_next n) v).
End fields.
End Node.

(** * The monad *)

Inductive Stop := Continue | Break | Panicked.

Class Host := { instant : nat -> Z; hash : nat -> Z }.

Section monad.
Context {J R : Type}.
Local Notation state := (Node.t J R).

Definition M (A : Type) : Type := state -> state * result Stop A.
#[global] Instance m_ret : MRet M := fun A a n => (n, Ok a).
#[global] Instance m_bind : MBind M := fun A B f m n =>
  let '(n, r) := m n in match r with Ok a => f a n | Err e => (n, Err e) end.

Definition get {A} (f : state -> A) : M A := fun n => (n, Ok (f n)).
Definition put (f : state -> state) : M unit := fun n => (f n, Ok tt).
Definition stop {A} (e : Stop) : M A := fun n => (n, Err e).
Definition when (b : bool) (m : M unit) : M unit := if b then m else mret tt.
(** An operation of the journal, the radio, the budget, the queue. *)
Definition with_journal {A} (f : J -> J * A) : M A := fun n =>
  let '(j, a) := f (Node.journal n) in (Node.set_journal j n, Ok a).
Definition with_radio {A} (f : R -> R * A) : M A := fun n =>
  let '(r, a) := f (Node.radio n) in (Node.set_radio r n, Ok a).
Definition with_budget {A} (f : AirtimeBudget.t -> AirtimeBudget.t * A) : M A := fun n =>
  let '(b, a) := f (Node.budget n) in (Node.set_budget b n, Ok a).
Definition with_forwards {A} (f : RadioQueue.t -> RadioQueue.t * A) : M A := fun n =>
  let '(q, a) := f (Node.forwards n) in (Node.set_forwards q n, Ok a).

Definition bump (c : Meter.counter) : M unit :=
  put (fun n => Node.set_meter (Meter.bump (Node.meter n) c) n).

(** [for x in list { body }]. *)
Fixpoint each {A} (body : A -> M unit) (l : list A) : M unit :=
  match l with [] => mret tt | x :: l => body x;; each body l end.

Lemma bind_ok {A B} (m : M A) (k : A -> M B) n n' a : m n = (n', Ok a) -> (m ≫= k) n = k a n'.
Proof. intros Hm. unfold mbind, m_bind. by rewrite Hm. Qed.
Lemma bind_assoc {A B D} (m : M A) (k : A -> M B) (l : B -> M D) n :
  ((m ≫= k) ≫= l) n = (m ≫= fun a => k a ≫= l) n.
Proof. unfold mbind, m_bind. by destruct (m n) as [n' [a|e]]. Qed.
Lemma bind_get {A B} (f : state -> A) (k : A -> M B) n : (get f ≫= k) n = k (f n) n.
Proof. done. Qed.
Lemma bind_put {B} (f : state -> state) (k : unit -> M B) n : (put f ≫= k) n = k tt (f n).
Proof. done. Qed.

Context `{Host}.
Definition now : M Z := fun n => (Node.set_reads (S (Node.reads n)) n, Ok (instant (Node.reads n))).
Definition entropy_below (bound : Z) : M Z := fun n =>
  if bound =? 0 then (n, Ok 0)
  else (Node.set_draws (S (Node.draws n)) n, Ok (hash (Node.draws n) mod bound)).
(** The clock, read. *)
Definition clock : M ScaledClock.t := at_ ← now; get (fun n => Clk.reading (Node.clock n) at_).
Definition wall (protocol_ms : Z) : M Z := get (fun n => Clk.wall_ms (Node.clock n) protocol_ms).

Definition report (o : Options.t) (l : Line) : M unit :=
  c ← clock;
  put (fun n => Node.set_log (Node.log n
    ++ [(Some (sat_sub (Timestamp.as_secs (Time.now c)) (Options.clock_epoch o)), l)]) n).
Lemma report_run o l n : exists log,
  report o l n = (Node.set_log log (Node.set_reads (S (Node.reads n)) n), Ok tt).
Proof. eexists. reflexivity. Qed.
Definition complain (l : Line) : M unit := put (fun n => Node.set_log (Node.log n ++ [(None, l)]) n).
End monad.
Arguments M : clear implicits.
