(* ===== verification/NodeFrames.v ===== *)
(** The frames of a node (src/src/bin/lcq-node.rs): building them, with the vote
    journalled before its bytes exist anywhere else, and reading them, where nothing is
    believed before the group seal, the subject, the header and the member's signature
    have all agreed. *)
From S2P Require Import Prelude Time Contracts Quorum CaseState Replay Budget Journal Queue Crypto Codec Radio Channel NodeConfig NodeState.

(** What [main] settles once and every step reads. *)
Module Setup.
Record t := mk {
  options : Options.t;
  fleet : Fleet.t;
  subject : Subject.t;
  keyring : list VerifyingKey.t;
  signing : SigningKey.t;
  forged : option SigningKey.t;
  group : GroupKey.t;
  booted : Z;
  started : Z;
}.
Definition index (s : t) : Z := Options.index (options s).
Definition policy (s : t) : Policy := Fleet.policy (fleet s).
(** [member_id] and [member_index]. *)
Definition member_id (s : t) (i : Z) : str := Fleet.id (fleet s) i.
Definition member_index (s : t) (name : str) : option Z := Fleet.index_of (fleet s) name.
End Setup.

(** [u16::try_from(index).unwrap_or(u16::MAX)]. *)
Definition author_of (index : Z) : Z := if index <=? U16_MAX then index else U16_MAX.

(** The key a carried frame is de-duplicated under. *)
Definition forward_key (author sequence : Z) : Z :=
  Z.lor (wrap64 (Z.shiftl author 48)) (Z.land sequence 0x0000FFFFFFFFFFFF).

Definition is_replay (frame : bytes) (windows : list ReplayWindow.t) : bool :=
  match peek_frame_header frame with
  | Ok (author, sequence) =>
      match windows !! Z.to_nat author with Some w => ReplayWindow.seen w sequence | None => false end
  | Err _ => false
  end.

(** What reading one frame taught this node. *)
Module AdmittedFrame.
Record t := mk {
  verified : option (Z * Z);
  round : RoundId.t;
  stage_index : option nat;
  binding_from : option Z;
  acknowledges_us : bool;
  refused : option TransitionError;
  nack : bool;
  heard : Heard.t;
}.
Definition default : t := mk None (RoundId.new 0 0) None None false None false (replicate 8 0).
Definition with_binding (a : t) (from : Z) : t :=
  mk (verified a) (round a) (stage_index a) (Some from) (acknowledges_us a) (refused a) (nack a) (heard a).
Definition with_refused (a : t) (e : TransitionError) : t :=
  mk (verified a) (round a) (stage_index a) (binding_from a) (acknowledges_us a) (Some e) (nack a) (heard a).
End AdmittedFrame.

(** When a round began, worked out from a vote heard inside it. *)
Module LateAnchor.
Record t := mk { origin : Z; round : RoundId.t; author : Z; sequence : Z }.
End LateAnchor.

Definition stage_slot (code : Z) : option nat :=
  if code =? 1 then Some 0%nat else if code =? 2 then Some 1%nat else if code =? 3 then Some 2%nat else None.

Section frames.
Context {J R : Type} `{Digest, Ed25519, Aead, Serde SignedCompactEnvelope.t, Journal J, Radio R, Host}.
Context (s : Setup.t).
Local Notation options := (Setup.options s).
Local Notation subject := (Setup.subject s).
Local Notation M := (M J R).

Definition same_subject (e : CompactEnvelope.t) : bool :=
  (CompactEnvelope.mission_epoch e =? Fleet.mission_epoch (Setup.fleet s))
  && (CompactEnvelope.event e =? EVENT)
  && (CompactEnvelope.revision e =? REVISION)
  && bool_decide (CompactEnvelope.case e = case_reference (Subject.content_hash subject))
  && (CompactEnvelope.started_at e =? Timestamp.as_secs (Subject.started_at subject)).

(** ** Building *)

(** The envelope every builder starts from. *)
Definition envelope (stage verdict sequence : Z) : CompactEnvelope.t :=
  CompactEnvelope.new (Fleet.mission_epoch (Setup.fleet s)) EVENT REVISION (Subject.content_hash subject)
    (Timestamp.as_secs (Subject.started_at subject)) (author_of (Setup.index s)) stage verdict sequence.
(** Signed, serialised and sealed under the sequence it names. *)
Definition sealed (key : SigningKey.t) (e : CompactEnvelope.t) : result WireError bytes :=
  signed ← encode_compact (sign_compact e key (Subject.content_hash subject));
  seal_frame (Setup.group s) (author_of (Setup.index s)) (CompactEnvelope.sequence e) signed.

Definition everyone : Heard.t := foldl Heard.heard_from Heard.none (seqZ 0 Heard.CAPACITY).

Definition build (stage : Stage) (heard : Heard.t) (round : RoundId.t) : M (result BuildError bytes) :=
  let voter := Setup.member_id s (Setup.index s) in
  voted ← get (fun n => has_voted (Node.journal n) subject voter);
  let already := bool_decide (stage = BindingSupport) && voted in
  if already && negb (bool_decide (Options.adversary options = DoubleVote)) then
    get (fun n => match pending (Node.journal n) with
                  | frame :: _ => Ok (OutgoingFrame.frame_bytes frame)
                  | [] => Err NothingLeft end)
  else
    let verdict := if already then 2 else 1 in
    let heard := if bool_decide (Options.adversary options = LieAcks) then everyone else heard in
    let key := default (Setup.signing s) (Setup.forged s) in
    reserved ← with_journal reserve_sequence;
    match reserved with
    | Err e => mret (Err (NotJournalled e))
    | Ok sequence =>
        let e := CompactEnvelope.in_round (CompactEnvelope.acknowledging (envelope (stage_code stage) verdict sequence) heard) round in
        match sealed key e with
        | Err e => mret (Err (NotEncoded e))
        | Ok frame =>
            if MAX_FRAME_BYTES <? len frame then mret (Err (TooWide (len frame)))
            else if bool_decide (stage = BindingSupport) && negb already then
              committed ← with_journal (fun j => commit_vote j subject voter (OutgoingFrame.new frame sequence));
              mret (match committed with Ok _ => Ok frame | Err e => Err (NotJournalled e) end)
            else mret (Ok frame)
        end
    end.

Definition build_nack (heard : Heard.t) (round : RoundId.t) : M (result BuildError bytes) :=
  reserved ← with_journal reserve_sequence;
  mret match reserved with
       | Err e => Err (NotJournalled e)
       | Ok sequence =>
           map_err NotEncoded (sealed (Setup.signing s)
             (CompactEnvelope.in_round (CompactEnvelope.acknowledging (envelope NACK_STAGE 0 sequence) heard) round))
       end.

Definition build_trigger (round : RoundId.t) : M (result BuildError bytes) :=
  reserved ← with_journal reserve_sequence;
  mret match reserved with
       | Err e => Err (NotJournalled e)
       | Ok sequence =>
           map_err NotEncoded (sealed (Setup.signing s) (CompactEnvelope.in_round (envelope TRIGGER_STAGE 0 sequence) round))
       end.

(** ** Reading *)

Definition checked {E} (outcome : result E unit) : M bool := bump Meter.Verifications;; mret (is_ok outcome).
(** The signature of the member an envelope names, if it names one. *)
Definition signed_by (frame : SignedCompactEnvelope.t) (claimed : Z) : M bool :=
  match Setup.keyring s !! Z.to_nat claimed with
  | None => mret false
  | Some key => checked (SignedCompactEnvelope.verify frame key (Subject.content_hash subject))
  end.

Definition opened (frame : bytes) : option (Z * Z * SignedCompactEnvelope.t) :=
  match open_frame (Setup.group s) frame with
  | Ok (author, sequence, plain) =>
      match decode_compact plain with Ok e => Some (author, sequence, e) | Err _ => None end
  | Err _ => None
  end.

Definition trigger_round (frame : bytes) : M (option (RoundId.t * Z * Z)) :=
  match opened frame with
  | None => mret None
  | Some (header_author, header_sequence, received) =>
      let e := SignedCompactEnvelope.envelope received in
      if negb (CompactEnvelope.stage e =? TRIGGER_STAGE) || negb (same_subject e) then mret None
      else
        let claimed := CompactEnvelope.author_index e in
        genuine ← signed_by received claimed;
        mret (if negb genuine then None
              else if negb (header_author =? claimed) || negb (header_sequence =? CompactEnvelope.sequence e) then None
              else
                let round := CompactEnvelope.round e in
                if negb (RoundId.opener round =? claimed) || negb (RoundId.sequence round =? CompactEnvelope.sequence e) then None
                else Some (round, claimed, CompactEnvelope.sequence e))
  end.

Definition late_stage (code : Z) : option nat := if code =? NACK_STAGE then Some 2%nat else stage_slot code.

Definition late_anchor (frame : bytes) : M (option LateAnchor.t) :=
  if negb (Options.slots options) then mret None
  else
    match opened frame with
    | None => mret None
    | Some (header_author, header_sequence, received) =>
        let e := SignedCompactEnvelope.envelope received in
        match late_stage (CompactEnvelope.stage e) with
        | None => mret None
        | Some stage_index =>
            let author := CompactEnvelope.author_index e in
            if negb (same_subject e) then mret None
            else
              genuine ← signed_by received author;
              if negb genuine || negb (header_author =? author)
                 || negb (header_sequence =? CompactEnvelope.sequence e)
                 || negb (RoundId.is_set (CompactEnvelope.round e)) then mret None
              else
                let protocol_ms := Options.start_of options stage_index * 1000
                  + Options.slot_ms options * author + airtime_ms (len frame) in
                at_ ← now;
                travel ← wall protocol_ms;
                mret (Some (LateAnchor.mk (at_ - from_millis travel) (CompactEnvelope.round e) author
                        (CompactEnvelope.sequence e)))
        end
    end.

(** Open, verify and offer a received frame to the state machine. *)
Definition admit_frame (frame : bytes) : M AdmittedFrame.t :=
  match opened frame with
  | None => mret AdmittedFrame.default
  | Some (header_author, header_sequence, received) =>
      let e := SignedCompactEnvelope.envelope received in
      let claimed := CompactEnvelope.author_index e in
      if negb (same_subject e) then report options (LRefused WrongSubject);; mret AdmittedFrame.default
      else if negb (header_author =? claimed) || negb (header_sequence =? CompactEnvelope.sequence e)
      then report options (LRefused WrongHeader);; mret AdmittedFrame.default
      else
        genuine ← signed_by received claimed;
        if negb genuine then report options (LRefused WrongSignature);; mret AdmittedFrame.default
        else
          let learned := AdmittedFrame.mk (Some (claimed, CompactEnvelope.sequence e)) (CompactEnvelope.round e)
            (stage_slot (CompactEnvelope.stage e)) None (Heard.contains (CompactEnvelope.heard e) (Setup.index s))
            None (CompactEnvelope.stage e =? NACK_STAGE) (CompactEnvelope.heard e) in
          match stage_of (CompactEnvelope.stage e), verdict_of (CompactEnvelope.verdict e) with
          | Some stage, Some verdict =>
              let opinion := Opinion.new (Setup.member_id s claimed) subject stage verdict in
              c ← clock;
              outcome ← get (fun n => Case.accept (Node.case n) opinion c);
              match outcome with
              | Ok case =>
                  put (Node.set_case case);;
                  report options (LAdmitted claimed stage);;
                  mret (if bool_decide (stage = BindingSupport) then AdmittedFrame.with_binding learned claimed else learned)
              | Err error =>
                  report options (LRefusedBy claimed error);;
                  mret (AdmittedFrame.with_refused learned error)
              end
          | _, _ => mret learned
          end
  end.

(** ** The rest of what a turn calls *)

Definition remember_seen (sender sequence : Z) : M unit :=
  if U16_MAX <? sender then mret tt
  else
    marked ← with_journal (fun j => mark_seen j sender sequence);
    match marked with Ok _ => mret tt | Err e => complain (LSeenNotDurable sender e) end.

Definition from_outside_the_fleet (frame : bytes) : M bool :=
  match peek_frame_header frame with
  | Err _ => mret false
  | Ok (author, _) =>
      if author <? Options.fleet options then mret false
      else bump Meter.OutsideFleetDropped;; report options (LOutsideFleet author);; mret true
  end.

(** Two members that disagree make a split, once and for all. *)
Definition note_split : M unit :=
  already ← get Node.split;
  foreign ← get Node.foreign;
  if already || bool_decide (size foreign < 2)%nat then mret tt
  else
    round ← get Node.round;
    report options (LSplit round (members_of foreign));;
    put (Node.set_split true).

(** The airtime clock of the budget: protocol milliseconds since the process began. *)
Definition budget_ms (at_ : Z) : Z :=
  sat_mul64 (Z.min (as_millis (Z.max 0 (at_ - Setup.started s))) U64_MAX) (Options.scale options).
Definition transmit (frame : bytes) : M bool :=
  let air := airtime_ms (len frame) in
  at_ ← now;
  let now_ms := budget_ms at_ in
  allowed ← with_budget (fun b => AirtimeBudget.transmit b now_ms air);
  if allowed : bool then
    taken ← with_radio (fun r => radio_transmit r frame);
    match taken with
    | Ok _ => mret true
    | Err e => report options (LRadioRefused e);; mret false
    end
  else
    used ← with_budget (fun b => AirtimeBudget.used_ms b now_ms);
    report options (LDutyBlocked air used);; mret false.

(** [body.contains("chip_missed" in quotes)]. *)
Fixpoint contains (needle body : str) : bool :=
  bool_decide (take (length needle) body = needle) || match body with [] => false | _ :: body => contains needle body end.
Definition CHIP_MISSED : str := [34] ++ lit "chip_missed" ++ [34].

(** The next intact frame, if the radio has one; [fuel] bounds the events read. *)
Fixpoint receive (fuel : nat) : M (option bytes) :=
  match fuel with
  | O => mret None
  | S fuel =>
      event ← with_radio radio_poll;
      match event with
      | None => mret None
      | Some (EvReceived received) => mret (Some (Received.payload received))
      | Some (EvCrcError rssi) => bump Meter.CrcErrors;; report options (LCrcError rssi);; receive fuel
      | Some (EvHeaderError rssi) => bump Meter.HeaderErrors;; report options (LHeaderError rssi);; receive fuel
      | Some (EvNote body) =>
          when (contains CHIP_MISSED body) (bump Meter.ChipMissed);;
          report options (LNote body);; receive fuel
      end
  end.
End frames.
