(* ===== verification/NodeLoop.v ===== *)
(** A node's main loop (src/src/bin/lcq-node.rs, [main]): one turn as a step of the
    monad of [NodeState], in the order of the code, and the loop over turns.

    Before a round is known a turn only opens one or listens for one.  In a round it
    runs the harness's adversaries, closes consultation when its clock is certain,
    sends what is due in its slots, asks for and carries missing votes, reads at most
    one frame, and leaves once the schedule is over and the claim is endorsed, or at
    the horizon. *)
From S2P Require Import Prelude Time Contracts Quorum CaseState Replay Budget Journal Queue Crypto Codec Radio Channel NodeConfig NodeState NodeFrames.

Section loop.
Context {J R : Type} `{Digest, Ed25519, Aead, Serde SignedCompactEnvelope.t, Journal J, Radio R, Host}.
Context (s : Setup.t).
(** How many events one call of [receive] may read. *)
Context (fuel : nat).
Local Notation options := (Setup.options s).
Local Notation subject := (Setup.subject s).
Local Notation index := (Setup.index s).
Local Notation M := (M J R).

Definition clock_from (origin : Z) : Clk.t :=
  Clk.mk origin (Timestamp.from_secs (Options.clock_epoch options)) (Options.scale options) (Options.offset options).
Definition offset_ms (i : nat) : Z :=
  nth i (Options.offsets options (Clk.reading (clock_from 0) 0)) 0.
Definition mark (member sequence : Z) : M unit :=
  put (fun n => Node.set_windows (alter (fun w => ReplayWindow.mark w sequence) (Z.to_nat member) (Node.windows n)) n);;
  remember_seen member sequence.
Definition set_nth {A} (i : nat) (v : A) (l : list A) : list A := <[i := v]> l.
Definition hear_vote (from : Z) : M unit :=
  put (fun n => Node.set_heard (Heard.heard_from (Node.heard n) from) n).
Definition note_acknowledged (learned : AdmittedFrame.t) : M unit :=
  when (AdmittedFrame.acknowledges_us learned && negb (Options.ignore_acks options)) (put (Node.set_acknowledged true)).
(** A binding vote refused for coming before the close is held, one per member. *)
Definition hold_early (learned : AdmittedFrame.t) (frame : bytes) : M unit :=
  match AdmittedFrame.verified learned with
  | Some (from, _) =>
      when (bool_decide (AdmittedFrame.refused learned = Some WrongStageForPhase)
            && bool_decide (AdmittedFrame.stage_index learned = Some 2%nat))
        (put (fun n => Node.set_early (<[from := frame]> (Node.early n)) n))
  | None => mret tt
  end.
Definition witness_quietly (learned : AdmittedFrame.t) (frame : bytes) : M unit :=
  match AdmittedFrame.binding_from learned with
  | Some from =>
      hear_vote from;;
      _ ← with_journal (fun j => witness j (Setup.member_id s from) frame); mret tt
  | None => mret tt
  end.

(** * Before the round *)

Definition open_round : M unit :=
  at_ ← now;
  deadline ← get (fun n => Options.open_deadline options (Clk.reading (Node.clock n) 0));
  if Z.max 0 (at_ - Setup.started s) <? from_millis deadline then mret tt
  else
    sequence ← get (fun n => next_sequence (Node.journal n));
    if U32_MAX <? sequence then stop Panicked
    else
      let round := RoundId.new (author_of index) sequence in
      put (Node.set_round round);;
      built ← build_trigger s round;
      match built with
      | Err _ => mret tt
      | Ok frame =>
          air ← wall (airtime_ms (len frame));
          _ ← transmit s frame;
          at_ ← now; put (Node.set_began (Some (at_ + from_millis air)));;
          at_ ← now; put (Node.set_clock (clock_from at_));;
          report options (LTriggered BySelf);;
          if bool_decide (Options.adversary options = Equivocate)
          then at_ ← now; put (Node.set_equivocate_at (Some (at_ + from_millis 2000)))
          else mret tt
      end.

Definition join_opened (frame : bytes) (round : RoundId.t) (opener sequence : Z) : M unit :=
  mark opener sequence;;
  put (Node.set_round round);;
  at_ ← now; put (Node.set_began (Some at_));;
  at_ ← now; put (Node.set_clock (clock_from at_));;
  report options (LTriggered ByHeard).
Definition join_late (frame : bytes) (late : LateAnchor.t) : M unit :=
  mark (LateAnchor.author late) (LateAnchor.sequence late);;
  put (Node.set_round (LateAnchor.round late));;
  put (Node.set_began (Some (LateAnchor.origin late)));;
  put (Node.set_clock (clock_from (LateAnchor.origin late)));;
  report options (LTriggered (Derived (LateAnchor.author late)));;
  learned ← admit_frame s frame;
  hold_early learned frame;;
  witness_quietly learned frame;;
  note_acknowledged learned.

Definition listen : M unit :=
  received ← receive s fuel;
  match received with
  | None => mret tt
  | Some frame =>
      replay ← get (fun n => is_replay frame (Node.windows n));
      if replay : bool then mret tt
      else
        outside ← from_outside_the_fleet s frame;
        if outside : bool then mret tt
        else
          opening ← trigger_round s frame;
          match opening with
          | Some (round, opener, sequence) => join_opened frame round opener sequence
          | None =>
              late ← late_anchor s frame;
              match late with Some late => join_late frame late | None => mret tt end
          end
  end.

Definition await_round : M Z :=
  began ← get Node.began;
  when (bool_decide (began = None)) open_round;;
  began ← get Node.began;
  match began with
  | None => listen;; stop Continue
  | Some anchor => mret anchor
  end.

(** * The repair timeline *)

Definition window_wall : M Z := w ← wall (Options.stage_window_s options * 1000); mret (from_millis w).
Definition repair_start (anchor : Z) : M Z :=
  w ← wall ((Options.start_of options 2 + Options.stage_window_s options * Z.max (Options.attempts options) 1) * 1000);
  mret (anchor + from_millis w).
Definition own_slot : M Z := w ← wall (Options.slot_ms options * index); mret (from_millis w).
(** Which repair round the clock says it is, if any. *)
Definition repair_round (anchor : Z) : M (option Z) :=
  start ← repair_start anchor;
  window ← window_wall;
  at_ ← now;
  mret (if at_ <? start then None
        else
          let pair := Z.max 1 (as_millis window * 2) in
          let round := as_millis (at_ - start) / pair in
          if round <? REPAIR_ROUNDS then Some round else None).

(** * The harness's adversaries *)

Definition equivocate : M unit :=
  due ← get Node.equivocate_at;
  match due with
  | None => mret tt
  | Some due =>
      at_ ← now;
      if at_ <? due then mret tt
      else
        put (Node.set_equivocate_at None);;
        sequence ← get (fun n => next_sequence (Node.journal n));
        let second := RoundId.new (author_of index) (Z.min sequence U32_MAX) in
        built ← build_trigger s second;
        match built with
        | Err _ => mret tt
        | Ok frame => _ ← transmit s frame; report options LEquivocated
        end
  end.

Fixpoint junk (count : nat) (i : Z) : M bytes :=
  match count with
  | O => mret []
  | S count =>
      draw ← entropy_below 256;
      rest ← junk count (i + 1);
      mret (Z.lxor draw (i mod 256) :: rest)
  end.
Definition jam (anchor : Z) : M unit :=
  when (bool_decide (Options.adversary options = Jam)) (
    let target := (index + 1) mod Options.fleet options in
    first ← wall (Options.start_of options 2 * 1000 + Options.slot_ms options * target);
    held ← get Node.jam_next;
    let next := default (anchor + from_millis first) held in
    put (Node.set_jam_next (Some next));;
    at_ ← now;
    if at_ <? next then mret tt
    else
      noise ← junk (Z.to_nat (MAX_FRAME_BYTES - 8)) 0;
      _ ← transmit s noise;
      gap ← get (fun n => Options.retry_gap_ms options (Clk.reading (Node.clock n) 0));
      put (Node.set_jam_next (Some (next + from_millis gap)));;
      report options (LJammed target)).
Definition replay_old (anchor : Z) : M unit :=
  captured ← get Node.captured;
  match captured with
  | Some old =>
      when (bool_decide (Options.adversary options = Replay)) (
        first ← wall (Options.start_of options 2 * 1000);
        held ← get Node.replay_next;
        let next := default (anchor + from_millis first) held in
        put (Node.set_replay_next (Some next));;
        at_ ← now;
        if at_ <? next then mret tt
        else
          _ ← transmit s old;
          gap ← wall (Options.stage_window_s options * 370);
          put (Node.set_replay_next (Some (next + from_millis gap)));;
          report options LReplayed)
  | None => mret tt
  end.

(** * Closing consultation *)

Definition offer_held (held : bytes) : M unit :=
  learned ← admit_frame s held;
  witness_quietly learned held;;
  note_acknowledged learned.
Definition close_consultation : M unit :=
  closed ← get Node.closed;
  if closed : bool then mret tt
  else
    c ← clock;
    if negb (certainly_after c (Subject.consultation_cutoff subject)) then mret tt
    else
      c ← clock;
      outcome ← get (fun n => Case.close_consultation (Node.case n) c);
      match outcome with
      | Ok case =>
          put (Node.set_case case);;
          put (Node.set_closed true);;
          report options LConsultationClosed;;
          early ← get Node.early;
          put (Node.set_early ∅);;
          each offer_held (values early)
      | Err e => report options (LCloseRefused e)
      end.

(** * Sending *)

Definition set_attempts (i : nat) (v : Z) : M unit :=
  put (fun n => Node.set_attempts (set_nth i v (Node.attempts n)) n).
Definition set_sent (i : nat) : M unit := put (fun n => Node.set_sent (set_nth i true (Node.sent n)) n).
(** The member's own slot of the window its attempts have reached. *)
Definition schedule_next (i : nat) (anchor jitter : Z) : M unit :=
  attempts ← get (fun n => nth i (Node.attempts n) 0);
  gap ← get (fun n => Options.retry_gap_ms options (Clk.reading (Node.clock n) 0));
  put (fun n => Node.set_next_due
    (set_nth i (Some (anchor + from_millis (offset_ms i + attempts * gap + jitter))) (Node.next_due n)) n).

Definition send_stage (i : nat) (stage : Stage) (allowed anchor : Z) : M unit :=
  heard ← get Node.heard;
  round ← get Node.round;
  built ← build s stage heard round;
  match built with
  | Ok frame =>
      went_out ← transmit s frame;
      attempts ← get (fun n => nth i (Node.attempts n) 0);
      set_attempts i (attempts + 1);;
      match peek_frame_header frame with Ok (_, sequence) => mark index sequence | Err _ => mret tt end;;
      split ← get Node.split;
      window ← wall (Options.stage_window_s options * 1000);
      jitter ← (if split : bool then entropy_below window else mret 0);
      schedule_next i anchor jitter;;
      own ← get (fun n => nth i (Node.own_admitted n) false);
      when (negb own) (
        put (fun n => Node.set_own_admitted (set_nth i true (Node.own_admitted n)) n);;
        learned ← admit_frame s frame;
        match AdmittedFrame.binding_from learned with Some from => hear_vote from | None => mret tt end);;
      when (allowed =? 1) (set_sent i);;
      when went_out (report options (LSent stage (len frame)))
  | Err why =>
      set_sent i;;
      set_attempts i allowed;;
      report options (LNotSent (Some stage) why)
  end.

Definition stage_step (anchor : Z) (slot : nat * Stage) : M unit :=
  let '(i, stage) := slot in
  let binding := bool_decide (stage = BindingSupport) in
  let allowed := if binding then Options.attempts options else 1 in
  attempts ← get (fun n => nth i (Node.attempts n) 0);
  sent ← get (fun n => nth i (Node.sent n) false);
  if (allowed <=? attempts) || sent then mret tt
  else
    due ← get (fun n => default (anchor + from_millis (offset_ms i)) (nth i (Node.next_due n) None));
    at_ ← now;
    closed ← get Node.closed;
    if at_ <? due then mret tt
    else if binding && negb closed then mret tt
    else
      slot_wall ← wall (Options.slot_ms options);
      at_ ← now;
      if due + from_millis slot_wall <? at_ then
        set_attempts i (attempts + 1);;
        schedule_next i anchor 0;;
        report options (LSlotMissed stage (attempts + 1))
      else
        acknowledged ← get Node.acknowledged;
        if binding && (0 <? attempts) && acknowledged then
          set_sent i;;
          report options (LAcknowledged attempts)
        else send_stage i stage allowed anchor.

Definition send_stages (anchor : Z) : M unit :=
  if bool_decide (Options.adversary options = Jam) then mret tt
  else each (stage_step anchor) [(0%nat, Independent); (1%nat, Consultation); (2%nat, BindingSupport)].

(** * Repair *)

Definition missing (heard : Heard.t) : list Z :=
  filter (fun m => m <> index /\ Heard.contains heard m = false) (seqZ 0 (Options.fleet options)).

Definition ask (anchor : Z) : M unit :=
  closed ← get Node.closed;
  when (closed && negb (bool_decide (Options.adversary options = Jam))) (
    current ← repair_round anchor;
    match current with
    | None => mret tt
    | Some round_index =>
        nacked ← get Node.nacked_rounds;
        start ← repair_start anchor;
        window ← window_wall;
        own ← own_slot;
        when (nacked <=? round_index) (
          at_ ← now;
          when (start + window * 2 * round_index + own <=? at_) (
            put (Node.set_nacked_rounds (round_index + 1));;
            heard ← get Node.heard;
            round ← get Node.round;
            when (negb (bool_decide (missing heard = []))) (
              built ← build_nack s heard round;
              match built with
              | Ok frame => _ ← transmit s frame; report options (LNack round_index (missing heard))
              | Err why => report options (LNotSent None why)
              end)))
    end).

Definition carry : M unit :=
  due ← get Node.repair_due;
  match due with
  | None => mret tt
  | Some due =>
      at_ ← now;
      if at_ <? due then mret tt
      else
        put (Node.set_repair_due None);;
        carried ← with_forwards RadioQueue.take_next;
        match carried with
        | None => mret tt
        | Some carried =>
            let author := Z.shiftr (OutgoingFrame.sequence carried) 48 in
            sent ← transmit s (OutgoingFrame.frame_bytes carried);
            if sent && (author =? index) then report options LRepaired
            else if sent then report options (LForwarded author)
            else mret tt
        end
  end.

Definition offer_forward (author sequence : Z) (frame : bytes) (priority : Priority) : M bool :=
  let key := forward_key author sequence in
  put (fun n => Node.set_forwards (RadioQueue.forget (Node.forwards n) key) n);;
  outcome ← with_forwards (fun q => RadioQueue.offer q (OutgoingFrame.new frame key) priority);
  mret (is_ok outcome).

(** The votes this node holds and a requester lacks. *)
Fixpoint queue_held (learned : AdmittedFrame.t) (from : Z) (held : list (str * bytes)) : M Z :=
  match held with
  | [] => mret 0
  | (author, frame) :: held =>
      one ← match Setup.member_index s author with
            | None => mret 0
            | Some m =>
                if (m =? from) || Heard.contains (AdmittedFrame.heard learned) m then mret 0
                else
                  match peek_frame_header frame with
                  | Err _ => mret 0
                  | Ok (_, sequence) =>
                      queued ← offer_forward m sequence frame Routine; mret (Z.b2z queued)
                  end
            end;
      rest ← queue_held learned from held;
      mret (one + rest)
  end.
Definition queue_own : M Z :=
  outbox ← get (fun n => pending (Node.journal n));
  match outbox with
  | [] => mret 0
  | again :: _ =>
      match peek_frame_header (OutgoingFrame.frame_bytes again) with
      | Err _ => mret 0
      | Ok (_, sequence) =>
          queued ← offer_forward index sequence (OutgoingFrame.frame_bytes again) Distress; mret (Z.b2z queued)
      end
  end.
Definition answer_request (anchor : Z) (learned : AdmittedFrame.t) (from : Z) : M unit :=
  when (AdmittedFrame.nack learned) (
    current ← repair_round anchor;
    repaired ← get Node.repaired_round;
    match current with
    | None => mret tt
    | Some round_index =>
        when (negb (bool_decide (repaired = Some round_index))) (
          let heard_us := Heard.contains (AdmittedFrame.heard learned) index in
          voted ← get (fun n => has_voted (Node.journal n) subject (Setup.member_id s index));
          held ← get (fun n => witnessed (Node.journal n));
          others ← (if heard_us then queue_held learned from held else mret 0);
          own ← (if negb heard_us && voted then queue_own else mret 0);
          when (0 <? others + own) (
            put (Node.set_repaired_round (Some round_index));;
            start ← repair_start anchor;
            window ← window_wall;
            slot ← own_slot;
            put (Node.set_repair_due (Some (start + window * (2 * round_index + 1) + slot)));;
            report options (LCarrying from (others + own))))
    end).

(** * Hearing *)

Definition take_evidence (frame : bytes) (opener : Z) : M unit :=
  kept ← get (fun n => len (Node.evidence n));
  when (kept <? 4) (
    put (fun n => Node.set_evidence (Node.evidence n ++ [frame]) n);;
    report options (LEvidence opener (kept + 1))).
Definition disagree (member : Z) : M unit :=
  put (fun n => Node.set_foreign ({[member]} ∪ Node.foreign n) n).

(** A sender whose timing implies another anchor than ours. *)
Definition by_timing (anchor : Z) (learned : AdmittedFrame.t) (from length : Z) : M bool :=
  if negb (Options.slots options) then mret false
  else
    current ← repair_round anchor;
    match current with
    | Some _ => mret false
    | None =>
        start ← repair_start anchor;
        at_ ← now;
        if start <=? at_ then mret false
        else
          match AdmittedFrame.stage_index learned with
          | None => mret false
          | Some stage =>
              travel ← wall (Options.start_of options stage * 1000 + Options.slot_ms options * from + airtime_ms length);
              at_ ← now;
              let drift := as_millis (Z.abs (at_ - from_millis travel - anchor)) in
              window ← wall (Options.stage_window_s options * 1000);
              slot ← wall (Options.slot_ms options);
              let window := Z.max 1 window in
              let residue := drift mod window in
              mret (slot <? Z.min residue (window - residue))
          end
    end.

Definition note_sender (anchor : Z) (learned : AdmittedFrame.t) (length : Z) : M unit :=
  match AdmittedFrame.verified learned with
  | None => mret tt
  | Some (from, _) =>
      round ← get Node.round;
      let by_label := RoundId.is_set (AdmittedFrame.round learned) && negb (bool_decide (AdmittedFrame.round learned = round)) in
      timing ← by_timing anchor learned from length;
      when (by_label || timing) (disagree from);;
      note_split s
  end.

Definition hear_opening (frame : bytes) (other : RoundId.t) (opener sequence : Z) : M unit :=
  mark opener sequence;;
  round ← get Node.round;
  when (negb (bool_decide (other = round))) (take_evidence frame opener;; disagree opener);;
  note_split s.
Definition hear_utterance (anchor : Z) (frame : bytes) : M unit :=
  learned ← admit_frame s frame;
  captured ← get Node.captured;
  when (bool_decide (Options.adversary options = Replay) && bool_decide (captured = None))
    (put (Node.set_captured (Some frame)));;
  match AdmittedFrame.verified learned with
  | None => mret tt
  | Some (from, sequence) =>
      mark from sequence;;
      hold_early learned frame;;
      answer_request anchor learned from
  end;;
  note_sender anchor learned (len frame);;
  match AdmittedFrame.binding_from learned with
  | None => mret tt
  | Some from =>
      hear_vote from;;
      kept ← with_journal (fun j => witness j (Setup.member_id s from) frame);
      match kept with Ok _ => mret tt | Err e => report options (LNotDurable e) end
  end;;
  note_acknowledged learned.

Definition hear (anchor : Z) : M unit :=
  received ← receive s fuel;
  match received with
  | None => mret tt
  | Some frame =>
      replay ← get (fun n => is_replay frame (Node.windows n));
      if replay : bool then bump Meter.ReplaysDropped;; report options LReplayDropped;; stop Continue
      else
        outside ← from_outside_the_fleet s frame;
        if outside : bool then stop Continue
        else
          opening ← trigger_round s frame;
          match opening with
          | Some (other, opener, sequence) => hear_opening frame other opener sequence;; stop Continue
          | None => hear_utterance anchor frame
          end
  end.

(** * The end *)

Definition endorsed (c : Case.t) : bool :=
  match evaluate (Setup.policy s) (Case.binding_supporters c) with Ok outcome => approved outcome | Err _ => false end.
Definition leave_when_done (anchor : Z) : M unit :=
  target ← wall (ENDORSEMENT_TARGET_SECONDS * 1000);
  ended ← wall (Options.finish options * 1000);
  at_ ← now;
  case ← get Node.case;
  let endorsed_now := (anchor + from_millis ended <=? at_) && endorsed case in
  at_ ← now;
  if (anchor + from_millis target <=? at_) || endorsed_now then stop Break else mret tt.

Definition turn : M unit :=
  anchor ← await_round;
  equivocate;;
  jam anchor;;
  replay_old anchor;;
  close_consultation;;
  send_stages anchor;;
  ask anchor;;
  carry;;
  hear anchor;;
  leave_when_done anchor.

Definition final : M unit :=
  case ← get Node.case;
  attempts ← get (fun n => nth 2 (Node.attempts n) 0);
  let supporters := Case.binding_supporters case in
  let competence := match evaluate (Setup.policy s) supporters with Ok o => support_competence o | Err _ => 0 end in
  report options (LFinal (len supporters) (endorsed case) competence attempts).

(** Turns until one breaks or the process ends; [turns] bounds how many are looked at. *)
Fixpoint run_turns (turns : nat) (n : Node.t J R) : Node.t J R * bool :=
  match turns with
  | O => (n, false)
  | S turns =>
      match turn n with
      | (n, Err Break) => ((final n).1, true)
      | (n, Err Panicked) => (n, true)
      | (n, _) => run_turns turns n
      end
  end.
End loop.

(** * Starting *)

Section start.
Context {J R : Type} `{Digest, Journal J, Host}.
Context (s : Setup.t).
Local Notation options := (Setup.options s).
Local Notation index := (Setup.index s).

(** The first of the three states a journal leaves the process in: refused, because it
    has run under a later epoch, or under this one from now on. *)
Definition enter (j : J) : option J :=
  let mine := Fleet.mission_epoch (Setup.fleet s) in
  if match epoch j with Some seen => mine <? seen | None => false end then None
  else match enter_epoch j mine with (j, Ok _) => Some j | (_, Err _) => None end.

Definition early_of (j : J) (recovered : bool) : gmap Z bytes :=
  let restored := foldl (fun early (held : str * bytes) =>
    match Setup.member_index s held.1 with Some i => <[i := held.2]> early | None => early end) ∅ (witnessed j) in
  match recovered, pending j with
  | true, frame :: _ => <[index := OutgoingFrame.frame_bytes frame]> restored
  | _, _ => restored
  end.
Definition windows_of (j : J) : list ReplayWindow.t :=
  (fun sender => if U16_MAX <? sender then ReplayWindow.new
                 else match highest_seen j sender with Some n => ReplayWindow.resumed n | None => ReplayWindow.new end)
    <$> seqZ 0 (Options.fleet options).

(** The state the loop starts in, on a journal and a radio that are open. *)
Definition start (j : J) (r : R) : Node.t J R :=
  let recovered := has_voted j (Setup.subject s) (Setup.member_id s index) in
  let own := recovered && negb (bool_decide (pending j = [])) in
  Node.mk
    (World.mk j r (AirtimeBudget.with_prior (Options.prior_airtime_ms options)) Meter.zero [] 0 0)
    (Pace.mk (clock_from s (Setup.booted s)) None [false; false; false] [0; 0; 0] [None; None; None] false)
    (Poll.mk (Case.open_ (Setup.subject s)) false Heard.none [false; false; own] (early_of j recovered) (windows_of j))
    (Unity.mk RoundId.none false ∅ [])
    (Repair.mk 0 None None (RadioQueue.with_capacity 64 (64 * MAX_FRAME_BYTES)))
    (Foe.mk None None None None).
Definition announce (trust : option (str * bytes)) : M J R unit :=
  recovered ← get (fun n => has_voted (Node.journal n) (Setup.subject s) (Setup.member_id s index));
  waiting ← get (fun n => len (pending (Node.journal n)));
  report options (LStart index recovered waiting (Fleet.mission_epoch (Setup.fleet s)) trust).
(** How many of the votes an earlier life witnessed are a member's. *)
Definition report_restored : M J R unit :=
  restored ← get (fun n => len (filter (fun held : str * bytes => is_Some (Setup.member_index s held.1)) (witnessed (Node.journal n))));
  when (0 <? restored) (report options (LWitnessedRestored restored)).
End start.
