(* ===== verification/NodeSteps.v ===== *)
(** What a node may do to the state that matters, as a step relation, and that every
    turn of its main loop is a sequence of such steps ([NodeLoop]).

    [core] is that state: the journal, the case, the windows, the votes held and heard,
    the outbox, the radio and its budget, what a node believes about the round.  Each
    constructor of [act] says under which evidence one of them changes; everything else
    -- clocks, counters, the log, the schedule -- moves freely.  The invariants of
    [NodeProofs] are proved by rule induction on it. *)
From S2P Require Import Prelude Time Contracts Quorum CaseState Replay Budget Journal Queue Crypto Codec Radio Channel NodeConfig NodeState NodeFrames NodeLoop.

Section steps.
Context {J R : Type} `{Digest, Ed25519, Aead, Serde SignedCompactEnvelope.t, Journal J, Radio R, Host}.
Context (s : Setup.t).
Local Notation state := (Node.t J R).
Local Notation subject := (Setup.subject s).

(** A frame is genuine when it opens under the group key, is about our subject, and
    header, envelope and signature name one member. *)
Definition genuine (frame : bytes) (author sequence : Z) (e : CompactEnvelope.t) : Prop :=
  exists received key,
    opened s frame = Some (author, sequence, received)
    /\ SignedCompactEnvelope.envelope received = e
    /\ same_subject s e = true
    /\ CompactEnvelope.author_index e = author
    /\ CompactEnvelope.sequence e = sequence
    /\ Setup.keyring s !! Z.to_nat author = Some key
    /\ SignedCompactEnvelope.verify received key (Subject.content_hash subject) = Ok tt.
(** The opinion a genuine frame carries. *)
Definition opinion_in (e : CompactEnvelope.t) (author : Z) (o : Opinion.t) : Prop :=
  exists stage verdict, stage_of (CompactEnvelope.stage e) = Some stage
    /\ verdict_of (CompactEnvelope.verdict e) = Some verdict
    /\ o = Opinion.new (Setup.member_id s author) subject stage verdict.
Definition vote_in (frame : bytes) (author : Z) : Prop :=
  exists sequence e, genuine frame author sequence e /\ stage_of (CompactEnvelope.stage e) = Some BindingSupport
    /\ verdict_of (CompactEnvelope.verdict e) <> None.

Record core := mk_core {
  k_journal : J; k_radio : R; k_budget : AirtimeBudget.t; k_case : Case.t; k_heard : Heard.t;
  k_early : gmap Z bytes; k_windows : list ReplayWindow.t; k_split : bool; k_foreign : gset Z;
  k_evidence : list bytes; k_forwards : RadioQueue.t }.
Definition core_of (n : state) : core :=
  mk_core (Node.journal n) (Node.radio n) (Node.budget n) (Node.case n) (Node.heard n) (Node.early n)
    (Node.windows n) (Node.split n) (Node.foreign n) (Node.evidence n) (Node.forwards n).

(** What the airtime clock said when the wall clock was last read. *)
Definition read_at (n : state) (now_ms : Z) : Prop :=
  exists k, Node.reads n = S k /\ now_ms = budget_ms s (instant k).

Inductive act (n : state) : state -> Prop :=
| act_quiet n' : core_of n' = core_of n -> (Node.reads n <= Node.reads n')%nat -> act n n'
| act_reserve : act n (Node.set_journal (reserve_sequence (Node.journal n)).1 n)
| act_commit key e frame : sealed s key e = Ok frame -> len frame <= MAX_FRAME_BYTES ->
    CompactEnvelope.stage e = 3 -> key = default (Setup.signing s) (Setup.forged s) ->
    act n (Node.set_journal (commit_vote (Node.journal n) subject (Setup.member_id s (Setup.index s))
             (OutgoingFrame.new frame (CompactEnvelope.sequence e))).1 n)
| act_seen sender sequence : act n (Node.set_journal (mark_seen (Node.journal n) sender sequence).1 n)
| act_witness frame author : vote_in frame author ->
    act n (Node.set_journal (witness (Node.journal n) (Setup.member_id s author) frame).1 n)
| act_accept frame author sequence e o (c : ScaledClock.t) case : genuine frame author sequence e -> opinion_in e author o ->
    Case.accept (Node.case n) o c = Ok case -> act n (Node.set_case case n)
| act_close (c : ScaledClock.t) case : Case.close_consultation (Node.case n) c = Ok case -> act n (Node.set_case case n)
| act_mark member sequence : (exists frame e, genuine frame member sequence e) \/ member = Setup.index s ->
    act n (Node.set_windows (alter (fun w => ReplayWindow.mark w sequence) (Z.to_nat member) (Node.windows n)) n)
| act_hear frame author : vote_in frame author -> act n (Node.set_heard (Heard.heard_from (Node.heard n) author) n)
| act_hold frame author sequence e : genuine frame author sequence e ->
    act n (Node.set_early (<[author := frame]> (Node.early n)) n)
| act_drain : act n (Node.set_early ∅ n)
| act_split : (2 <= size (Node.foreign n))%nat -> act n (Node.set_split true n)
| act_foreign frame author sequence e : genuine frame author sequence e ->
    act n (Node.set_foreign ({[author]} ∪ Node.foreign n) n)
| act_evidence frame author sequence e : genuine frame author sequence e -> len (Node.evidence n) < 4 ->
    act n (Node.set_evidence (Node.evidence n ++ [frame]) n)
| act_queue op : act n (Node.set_forwards (queue_op (Node.forwards n) op) n)
| act_poll : act n (Node.set_radio (radio_poll (Node.radio n)).1 n)
| act_send frame now_ms b : read_at n now_ms -> AirtimeBudget.transmit (Node.budget n) now_ms (airtime_ms (len frame)) = (b, true) ->
    act n (Node.set_radio (radio_transmit (Node.radio n) frame).1 (Node.set_budget b n))
| act_blocked (frame : bytes) now_ms b : read_at n now_ms -> AirtimeBudget.transmit (Node.budget n) now_ms (airtime_ms (len frame)) = (b, false) ->
    act n (Node.set_budget (AirtimeBudget.used_ms b now_ms).1 (Node.set_budget b n)).
Definition acts : state -> state -> Prop := rtc act.

(** * Programs *)

(** A program whose effect is a sequence of acts, and whose result is [Q]. *)
Definition runs {A} (m : M J R A) (Q : A -> Prop) : Prop :=
  forall n, acts n (m n).1 /\ forall a, (m n).2 = Ok a -> Q a.

Lemma runs_ret {A} (a : A) (Q : A -> Prop) : Q a -> runs (mret a) Q.
Proof. intros Hq n. split; [apply rtc_refl|]. cbn. intros b Hb. assert (a = b) as <- by congruence. done. Qed.
Lemma runs_stop {A} (e : Stop) (Q : A -> Prop) : runs (stop e) Q.
Proof. intros n. split; [apply rtc_refl|done]. Qed.
Lemma runs_bind {A B} (m : M J R A) (f : A -> M J R B) (P : A -> Prop) (Q : B -> Prop) :
  runs m P -> (forall a, P a -> runs (f a) Q) -> runs (m ≫= f) Q.
Proof.
  intros Hm Hf n. destruct (Hm n) as [Ha Hp]. unfold mbind, m_bind. destruct (m n) as [n' [a|e]]; cbn in *; [|by split].
  destruct (Hf a (Hp a eq_refl) n') as [Hb Hq]. split; [by etrans|done].
Qed.
Lemma runs_weaken {A} (m : M J R A) (P Q : A -> Prop) : runs m P -> (forall a, P a -> Q a) -> runs m Q.
Proof. intros Hm Hpq n. destruct (Hm n). split; [done|]. intros. apply Hpq. auto. Qed.
Lemma runs_get {A} (f : state -> A) : runs (get f) (fun _ => True).
Proof. intros n. split; [apply rtc_refl|done]. Qed.
Lemma runs_put (f : state -> state) : (forall n, act n (f n)) -> runs (put f) (fun _ => True).
Proof. intros Hf n. split; [|done]. apply rtc_once, Hf. Qed.
Lemma runs_quiet {A} (m : M J R A) : (forall n, core_of (m n).1 = core_of n /\ (Node.reads n <= Node.reads (m n).1)%nat) ->
  runs m (fun _ => True).
Proof. intros Hm n. split; [|done]. destruct (Hm n). by apply rtc_once, act_quiet. Qed.
Lemma runs_when b (m : M J R unit) : runs m (fun _ => True) -> runs (when b m) (fun _ => True).
Proof. destruct b; [done|]. intros _. by apply runs_ret. Qed.
Lemma runs_each {A} (body : A -> M J R unit) (l : list A) :
  (forall x, x ∈ l -> runs (body x) (fun _ => True)) -> runs (each body l) (fun _ => True).
Proof.
  induction l as [|x l IH]; intros Hb; cbn [each]; [by apply runs_ret|].
  eapply runs_bind; [apply Hb; by left|]. intros _ _. apply IH. intros y Hy. apply Hb. by right.
Qed.
Lemma runs_journal {A} (f : J -> J * A) : (forall n, act n (Node.set_journal (f (Node.journal n)).1 n)) ->
  runs (with_journal f) (fun _ => True).
Proof.
  intros Hf n. split; [|done]. apply rtc_once. specialize (Hf n). unfold with_journal.
  by destruct (f (Node.journal n)) as [j a].
Qed.
Lemma runs_forwards {A} (f : RadioQueue.t -> RadioQueue.t * A) : (forall q, exists op, (f q).1 = queue_op q op) ->
  runs (with_forwards f) (fun _ => True).
Proof.
  intros Hf n. split; [|done]. apply rtc_once. destruct (Hf (Node.forwards n)) as [op Hop]. unfold with_forwards.
  destruct (f (Node.forwards n)) as [q a]. cbn in *. rewrite Hop. apply act_queue.
Qed.

(** ** What the primitives do *)

Lemma runs_now : runs now (fun _ => True).
Proof. apply runs_quiet. intros n. split; [reflexivity|first [exact (le_n _) | exact (le_S _ _ (le_n _))]]. Qed.
Lemma runs_entropy b : runs (entropy_below b) (fun _ => True).
Proof. apply runs_quiet. intros n. unfold entropy_below. destruct (b =? 0); split; done. Qed.
Lemma runs_clock : runs clock (fun _ => True).
Proof. apply runs_quiet. intros n. split; [reflexivity|first [exact (le_n _) | exact (le_S _ _ (le_n _))]]. Qed.
Lemma runs_wall ms : runs (wall ms) (fun _ => True).
Proof. apply runs_quiet. intros n. split; [reflexivity|first [exact (le_n _) | exact (le_S _ _ (le_n _))]]. Qed.
Lemma runs_report o l : runs (report o l) (fun _ => True).
Proof. apply runs_quiet. intros n. split; [reflexivity|first [exact (le_n _) | exact (le_S _ _ (le_n _))]]. Qed.
Lemma runs_complain l : runs (complain l) (fun _ => True).
Proof. apply runs_quiet. intros n. split; [reflexivity|first [exact (le_n _) | exact (le_S _ _ (le_n _))]]. Qed.
Lemma runs_bump c : runs (bump c) (fun _ => True).
Proof. apply runs_quiet. intros n. split; [reflexivity|first [exact (le_n _) | exact (le_S _ _ (le_n _))]]. Qed.
Lemma runs_put_quiet (f : state -> state) : (forall n, core_of (f n) = core_of n) -> (forall n, Node.reads (f n) = Node.reads n) ->
  runs (put f) (fun _ => True).
Proof. intros Hf Hr. apply runs_put. intros n. apply act_quiet; [apply Hf|rewrite Hr; lia]. Qed.
Lemma runs_reserve : runs (with_journal reserve_sequence) (fun _ => True).
Proof. apply runs_journal. intros n. apply act_reserve. Qed.
Lemma runs_remember sender sequence : runs (with_journal (fun j => mark_seen j sender sequence)) (fun _ => True).
Proof. apply runs_journal. intros n. apply act_seen. Qed.
Lemma runs_take : runs (with_forwards RadioQueue.take_next) (fun _ => True).
Proof. apply runs_forwards. intros q. by exists QTake. Qed.
Lemma runs_offer f p : runs (with_forwards (fun q => RadioQueue.offer q f p)) (fun _ => True).
Proof. apply runs_forwards. intros q. by exists (QOffer f p). Qed.
Lemma runs_poll : runs (with_radio radio_poll) (fun _ => True).
Proof.
  intros n. split; [|done]. apply rtc_once. unfold with_radio. pose proof (act_poll n) as Hp.
  by destruct (radio_poll (Node.radio n)) as [r a].
Qed.
Lemma runs_witness author frame : vote_in frame author ->
  runs (with_journal (fun j => witness j (Setup.member_id s author) frame)) (fun _ => True).
Proof. intros Hv. apply runs_journal. intros n. by apply act_witness. Qed.
End steps.

Create HintDb node.
#[export] Hint Resolve runs_now runs_entropy runs_clock runs_wall runs_report runs_complain runs_bump runs_get
  runs_reserve runs_remember runs_take runs_offer runs_poll runs_witness : node.
#[export] Hint Extern 3 (runs _ (put _) _) => apply runs_put_quiet; reflexivity : node.

(** Walks a program: through binds and branches, down to what the hints know. *)
Ltac runs_step :=
  match goal with
  | |- runs _ (mret _) _ => apply runs_ret
  | |- runs _ (stop _) _ => apply runs_stop
  | |- runs _ (when _ _) _ => apply runs_when
  | |- runs _ (each _ _) _ => apply runs_each; intros ? ?
  | |- runs _ (mbind _ _) _ => first [ eapply runs_bind; [solve [eauto with node]|intros ? ?]
                                     | eapply (runs_bind _ _ _ (fun _ => True)); [|intros ? _] ]
  | |- runs _ (if ?b then _ else _) _ => let E := fresh "E" in destruct b eqn:E
  | |- runs _ (match ?x with _ => _ end) _ => let E := fresh "E" in destruct x eqn:E
  | |- runs _ (let _ := _ in _) _ => cbv zeta
  | |- runs _ _ (fun _ => True) => eapply runs_weaken; [solve [eauto with node]|done]
  | |- runs _ _ _ => solve [eauto with node]
  | |- True => exact I
  end.
Ltac runs_walk := repeat runs_step.

Section frames.
Context {J R : Type} `{Digest, Ed25519, Aead, Serde SignedCompactEnvelope.t, Journal J, Radio R, Host}.
Context (s : Setup.t).
Local Notation options := (Setup.options s).
Local Notation runs := (runs (J:=J) (R:=R) s).

Lemma runs_signed_by frame claimed : runs (signed_by s frame claimed) (fun b => b = true ->
  exists key, Setup.keyring s !! Z.to_nat claimed = Some key
    /\ SignedCompactEnvelope.verify frame key (Subject.content_hash (Setup.subject s)) = Ok tt).
Proof.
  unfold signed_by. destruct (Setup.keyring s !! Z.to_nat claimed) as [key|]; [|by apply runs_ret].
  eapply runs_bind; [apply runs_bump|intros _ _]. apply runs_ret. intros Hok. exists key. split; [done|].
  by destruct (SignedCompactEnvelope.verify _ _ _) as [[]|].
Qed.

Lemma runs_trigger_round frame : runs (trigger_round s frame) (fun o => match o with
  | Some (round, a, q) => exists e, genuine s frame a q e /\ RoundId.opener round = a /\ RoundId.sequence round = q
      /\ CompactEnvelope.stage e = TRIGGER_STAGE /\ CompactEnvelope.round e = round
  | None => True end).
Proof.
  unfold trigger_round. destruct (opened s frame) as [[[a q] received]|] eqn:Ho; [|by apply runs_ret].
  destruct (_ || _) eqn:Hsub; [by apply runs_ret|]. eapply runs_bind; [apply runs_signed_by|]. intros [] Hk; [|by apply runs_ret].
  apply runs_ret. cbn [negb]. destruct (Hk eq_refl) as (key & Hkey & Hv).
  apply orb_false_iff in Hsub as [Hst Hsame]. apply negb_false_iff in Hst, Hsame. apply Z.eqb_eq in Hst.
  destruct (Z.eqb_spec a (CompactEnvelope.author_index (SignedCompactEnvelope.envelope received))) as [Ha|]; [|done].
  destruct (Z.eqb_spec q (CompactEnvelope.sequence (SignedCompactEnvelope.envelope received))) as [Hq|]; [|done]. cbn [negb orb].
  destruct (_ || _) eqn:Hr; [done|]. apply orb_false_iff in Hr as [Hr1 Hr2]. apply negb_false_iff in Hr1, Hr2.
  apply Z.eqb_eq in Hr1, Hr2. exists (SignedCompactEnvelope.envelope received). rewrite <- Ha, <- Hq in *. split_and!; try done.
  exists received, key. split_and!; done.
Qed.

Lemma runs_late_anchor frame : runs (late_anchor s frame) (fun o => match o with
  | Some late => exists e, genuine s frame (LateAnchor.author late) (LateAnchor.sequence late) e
  | None => True end).
Proof.
  unfold late_anchor. destruct (negb (Options.slots _)); [by apply runs_ret|].
  destruct (opened s frame) as [[[a q] received]|] eqn:Ho; [|by apply runs_ret].
  destruct (late_stage _) as [st|]; [|by apply runs_ret]. destruct (negb (same_subject _ _)) eqn:Hsame; [by apply runs_ret|].
  eapply runs_bind; [apply runs_signed_by|]. intros [] Hk; [|by apply runs_ret]. cbn [negb orb].
  destruct (_ || _) eqn:Hr; [by apply runs_ret|]. destruct (Hk eq_refl) as (key & Hkey & Hv).
  apply orb_false_iff in Hr as [Hr _]. apply orb_false_iff in Hr as [Hr1 Hr2]. apply negb_false_iff in Hr1, Hr2, Hsame. apply Z.eqb_eq in Hr1, Hr2.
  eapply runs_bind; [apply runs_now|intros at_ _]. eapply runs_bind; [apply runs_wall|intros travel _].
  apply runs_ret. cbn [LateAnchor.author LateAnchor.sequence]. exists (SignedCompactEnvelope.envelope received).
  exists received, key. rewrite <- Hr1, <- Hr2 in *. split_and!; done.
Qed.

(** What reading a frame may have taught. *)
Definition taught (frame : bytes) (learned : AdmittedFrame.t) : Prop :=
  (forall a q, AdmittedFrame.verified learned = Some (a, q) -> exists e, genuine s frame a q e
     /\ AdmittedFrame.round learned = CompactEnvelope.round e /\ AdmittedFrame.heard learned = CompactEnvelope.heard e
     /\ AdmittedFrame.stage_index learned = stage_slot (CompactEnvelope.stage e)
     /\ AdmittedFrame.nack learned = (CompactEnvelope.stage e =? NACK_STAGE))
  /\ (forall a, AdmittedFrame.binding_from learned = Some a -> vote_in s frame a).

Lemma runs_admit_frame frame : runs (admit_frame s frame) (taught frame).
Proof.
  assert (taught frame AdmittedFrame.default) as Hdef by (split; discriminate).
  unfold admit_frame. destruct (opened s frame) as [[[a q] received]|] eqn:Ho; [|by apply runs_ret].
  cbv zeta. set (e := SignedCompactEnvelope.envelope received).
  destruct (negb (same_subject s e)) eqn:Hsame.
  { eapply runs_bind; [apply runs_report|intros _ _]. by apply runs_ret. }
  destruct (_ || _) eqn:Hh.
  { eapply runs_bind; [apply runs_report|intros _ _]. by apply runs_ret. }
  eapply runs_bind; [apply runs_signed_by|]. intros [] Hk; cbn [negb].
  2: { eapply runs_bind; [apply runs_report|intros _ _]. by apply runs_ret. }
  destruct (Hk eq_refl) as (key & Hkey & Hv). apply orb_false_iff in Hh as [Hh1 Hh2]. apply negb_false_iff in Hh1, Hh2, Hsame.
  apply Z.eqb_eq in Hh1, Hh2.
  assert (genuine s frame (CompactEnvelope.author_index e) (CompactEnvelope.sequence e) e) as Hg.
  { exists received, key. rewrite <- Hh1, <- Hh2 in *. split_and!; done. }
  match goal with |- context [AdmittedFrame.mk ?v ?r ?i ?b ?k ?f ?c ?h] => set (learned := AdmittedFrame.mk v r i b k f c h) end.
  assert (taught frame learned) as Hl.
  { split; [|discriminate]. intros a' q' Haq. unfold learned in Haq. cbn in Haq.
    assert (a' = CompactEnvelope.author_index e /\ q' = CompactEnvelope.sequence e) as [-> ->] by (split; congruence).
    exists e. by split_and!. }
  destruct (stage_of (CompactEnvelope.stage e)) as [stage|] eqn:Hst; [|by apply runs_ret].
  destruct (verdict_of (CompactEnvelope.verdict e)) as [verdict|] eqn:Hvd; [|by apply runs_ret].
  set (o := Opinion.new _ _ _ _). assert (opinion_in s e (CompactEnvelope.author_index e) o) as Hop by (exists stage, verdict; by split_and!).
  eapply runs_bind; [apply runs_clock|intros c _]. intros n. rewrite bind_get.
  destruct (Case.accept (Node.case n) o c) as [case|error] eqn:Hacc; [rewrite bind_put|].
  - pose proof (runs_bind s (report options (LAdmitted (CompactEnvelope.author_index e) stage))
      (fun _ => mret (if bool_decide (stage = BindingSupport) then AdmittedFrame.with_binding learned (CompactEnvelope.author_index e) else learned))
      (fun _ => True) (taught frame) (runs_report s _ _)) as Hrest.
    destruct (Hrest ltac:(intros u _; apply runs_ret; case_bool_decide as Hb; [|done]; split; [exact (proj1 Hl)|];
      intros a' Ha'; cbn in Ha'; assert (a' = CompactEnvelope.author_index e) as -> by congruence;
      exists (CompactEnvelope.sequence e), e; rewrite Hst, Hvd, Hb; by split_and!) (Node.set_case case n)) as [Hacts Hq].
    split; [|exact Hq]. eapply rtc_l; [|exact Hacts]. by eapply act_accept.
  - pose proof (runs_bind s (report options (LRefusedBy (CompactEnvelope.author_index e) error))
      (fun _ => mret (AdmittedFrame.with_refused learned error)) (fun _ => True) (taught frame) (runs_report s _ _)) as Hrest.
    apply (Hrest ltac:(intros u _; by apply runs_ret)).
Qed.
End frames.

Section helpers.
Context {J R : Type} `{Digest, Ed25519, Aead, Serde SignedCompactEnvelope.t, Journal J, Radio R, Host}.
Context (s : Setup.t).
Local Notation options := (Setup.options s).
Local Notation runs := (runs (J:=J) (R:=R) s).

Lemma sealed_stage key stage verdict sequence heard round frame :
  let e := CompactEnvelope.in_round (CompactEnvelope.acknowledging (envelope s stage verdict sequence) heard) round in
  sealed s key e = Ok frame -> CompactEnvelope.stage e = stage /\ CompactEnvelope.sequence e = sequence.
Proof. by intros e. Qed.

Lemma runs_build stage heard round : runs (build s stage heard round) (fun _ => True).
Proof.
  unfold build. cbv zeta. eapply runs_bind; [apply runs_get|intros voted _].
  generalize (bool_decide (stage = BindingSupport) && voted). intros already.
  destruct (already && _) eqn:Hheld; [apply runs_get|].
  eapply runs_bind; [apply runs_reserve|intros [sequence|e] _]; [|by apply runs_ret].
  destruct (sealed _ _ _) as [frame|e] eqn:Hs; [|by apply runs_ret].
  destruct (Z.ltb_spec MAX_FRAME_BYTES (len frame)); [by apply runs_ret|].
  destruct (bool_decide (stage = BindingSupport) && _) eqn:Hb; [|by apply runs_ret].
  apply andb_true_iff in Hb as [->%bool_decide_eq_true _].
  eapply runs_bind; [|intros ? _; by apply runs_ret]. apply runs_journal. intros n.
  by apply (act_commit s n _ _ frame Hs).
Qed.
Lemma runs_build_nack heard round : runs (build_nack s heard round) (fun _ => True).
Proof. unfold build_nack. runs_walk. Qed.
Lemma runs_build_trigger round : runs (build_trigger s round) (fun _ => True).
Proof. unfold build_trigger. runs_walk. Qed.
Lemma runs_remember_seen sender sequence : runs (remember_seen sender sequence) (fun _ => True).
Proof. unfold remember_seen. runs_walk. Qed.
Lemma runs_outside frame : runs (from_outside_the_fleet s frame) (fun _ => True).
Proof. unfold from_outside_the_fleet. runs_walk. Qed.
Lemma runs_receive fuel : runs (receive s fuel) (fun _ => True).
Proof. induction fuel as [|fuel IH]; cbn [receive]; [by apply runs_ret|]. runs_walk. Qed.
Lemma runs_note_split : runs (note_split s) (fun _ => True).
Proof.
  unfold note_split. eapply runs_bind; [apply runs_get|intros already _]. intros n. rewrite bind_get.
  destruct (_ || _) eqn:Hb; [by apply runs_ret|]. apply orb_false_iff in Hb as [_ Hb%bool_decide_eq_false].
  rewrite bind_get. split; [|done].
  pose proof (runs_report s options (LSplit (Node.round n) (members_of (Node.foreign n))) n) as [Ha _].
  unfold mbind, m_bind. destruct (report_run options (LSplit (Node.round n) (members_of (Node.foreign n))) n) as [log Hr].
  rewrite Hr in *. cbn in Ha. cbn. eapply rtc_r; [exact Ha|]. apply act_split.
  change (2 <= size (Node.foreign n))%nat. lia.
Qed.
Lemma runs_transmit frame : runs (transmit s frame) (fun _ => True).
Proof.
  unfold transmit. cbv zeta. intros n0. set (n := Node.set_reads (S (Node.reads n0)) n0). set (at_ := instant (Node.reads n0)).
  assert (act s n0 n) as Hnow by (apply act_quiet; [done|exact (le_S _ _ (le_n _))]).
  assert (read_at s n (budget_ms s at_)) as Hat by (by exists (Node.reads n0)).
  assert (now n0 = (n, Ok at_)) as Hread by done. rewrite (bind_ok _ _ _ _ _ Hread).
  match goal with |- context [(?m ≫= ?k) n] => enough (acts s n ((m ≫= k) n).1) by (split; [by eapply rtc_l|done]) end.
  unfold mbind at 1, m_bind at 1, with_budget at 1.
  destruct (AirtimeBudget.transmit (Node.budget n) (budget_ms s at_) (airtime_ms (len frame))) as [b ok] eqn:Hb. destruct ok.
  - set (rest := fun taken : result RadioError unit => match taken with
      | Ok _ => mret true | Err e => report options (LRadioRefused e) ≫= fun _ => mret false end).
    assert (forall taken, runs (rest taken) (fun _ => True)) as Hrest by (intros taken; unfold rest; runs_walk).
    unfold mbind, m_bind, with_radio. pose proof (act_send s n frame _ b Hat Hb) as Hsend.
    change (Node.radio (Node.set_budget b n)) with (Node.radio n). destruct (radio_transmit (Node.radio n) frame) as [r taken]. cbn [fst] in Hsend.
    destruct (Hrest taken (Node.set_radio r (Node.set_budget b n))) as [Ha _]. eapply rtc_l; [exact Hsend|exact Ha].
  - set (rest := fun used : Z => report options (LDutyBlocked (airtime_ms (len frame)) used) ≫= fun _ => mret (M:=M J R) false).
    assert (forall used, runs (rest used) (fun _ => True)) as Hrest by (intros used; unfold rest; runs_walk).
    unfold mbind, m_bind, with_budget. pose proof (act_blocked s n frame _ b Hat Hb) as Hblock.
    change (Node.budget (Node.set_budget b n)) with b. destruct (AirtimeBudget.used_ms b (budget_ms s at_)) as [b' used]. cbn [fst] in Hblock.
    destruct (Hrest used (Node.set_budget b' (Node.set_budget b n))) as [Ha _]. eapply rtc_l; [exact Hblock|exact Ha].
Qed.
End helpers.
#[export] Hint Resolve runs_build runs_build_nack runs_build_trigger runs_remember_seen runs_outside runs_receive
  runs_note_split runs_transmit runs_trigger_round runs_late_anchor runs_admit_frame : node.

Section turn.
Context {J R : Type} `{Digest, Ed25519, Aead, Serde SignedCompactEnvelope.t, Journal J, Radio R, Host}.
Context (s : Setup.t) (fuel : nat).
Local Notation options := (Setup.options s).
Local Notation runs := (runs (J:=J) (R:=R) s).

Lemma runs_mark member sequence : (exists frame e, genuine s frame member sequence e) \/ member = Setup.index s ->
  runs (mark member sequence) (fun _ => True).
Proof.
  intros Hm. unfold mark. eapply (runs_bind s _ _ (fun _ => True)); [|intros; apply runs_remember_seen].
  apply runs_put. intros n. by apply act_mark.
Qed.
Lemma runs_hear_vote frame from : vote_in s frame from -> runs (hear_vote from) (fun _ => True).
Proof. intros Hv. apply runs_put. intros n. by eapply act_hear. Qed.
Lemma runs_note_acknowledged learned : runs (note_acknowledged s learned) (fun _ => True).
Proof. unfold note_acknowledged. runs_walk. Qed.
Lemma runs_hold_early learned frame : taught s frame learned -> runs (hold_early learned frame) (fun _ => True).
Proof.
  intros [Hv _]. unfold hold_early. destruct (AdmittedFrame.verified learned) as [[a q]|]; [|by apply runs_ret].
  destruct (Hv a q eq_refl) as (e & Hg & _). apply runs_when, runs_put. intros n. by eapply act_hold.
Qed.
Lemma runs_witness_quietly learned frame : taught s frame learned -> runs (witness_quietly s learned frame) (fun _ => True).
Proof.
  intros [_ Hb]. unfold witness_quietly. destruct (AdmittedFrame.binding_from learned) as [a|]; [|by apply runs_ret].
  specialize (Hb a eq_refl). eapply runs_bind; [by eapply runs_hear_vote|intros _ _].
  eapply runs_bind; [by apply runs_witness|intros _ _]. by apply runs_ret.
Qed.
#[local] Hint Resolve runs_note_acknowledged runs_hold_early runs_witness_quietly : node.

Lemma runs_open_round : runs (open_round s) (fun _ => True).
Proof. unfold open_round. runs_walk. Qed.
Lemma runs_join_opened frame round opener sequence e : genuine s frame opener sequence e ->
  runs (join_opened s frame round opener sequence) (fun _ => True).
Proof. intros Hg. unfold join_opened. eapply runs_bind; [apply runs_mark; eauto|intros _ _]. runs_walk. Qed.
Lemma runs_join_late frame late e : genuine s frame (LateAnchor.author late) (LateAnchor.sequence late) e ->
  runs (join_late s frame late) (fun _ => True).
Proof.
  intros Hg. unfold join_late. eapply runs_bind; [apply runs_mark; eauto|intros _ _].
  do 4 (eapply runs_bind; [solve [eauto with node]|intros _ _]).
  eapply runs_bind; [apply runs_admit_frame|intros learned Ht]. runs_walk.
Qed.
Lemma runs_listen : runs (listen s fuel) (fun _ => True).
Proof.
  unfold listen. eapply runs_bind; [apply runs_receive|intros [frame|] _]; [|by apply runs_ret].
  eapply runs_bind; [apply runs_get|intros [] _]; [by apply runs_ret|].
  eapply runs_bind; [apply runs_outside|intros [] _]; [by apply runs_ret|].
  eapply runs_bind; [apply runs_trigger_round|intros [[[round opener] sequence]|]].
  - intros (e & Hg & _). by eapply runs_join_opened.
  - intros _. eapply runs_bind; [apply runs_late_anchor|intros [late|]]; [|intros _; by apply runs_ret].
    intros (e & Hg). by eapply runs_join_late.
Qed.
#[local] Hint Resolve runs_open_round runs_listen : node.
Lemma runs_await_round : runs (await_round s fuel) (fun _ => True).
Proof. unfold await_round. runs_walk. Qed.

Lemma runs_window_wall : runs (window_wall s) (fun _ => True).
Proof. unfold window_wall. runs_walk. Qed.
Lemma runs_repair_start anchor : runs (repair_start s anchor) (fun _ => True).
Proof. unfold repair_start. runs_walk. Qed.
Lemma runs_own_slot : runs (own_slot s) (fun _ => True).
Proof. unfold own_slot. runs_walk. Qed.
#[local] Hint Resolve runs_window_wall runs_repair_start runs_own_slot : node.
Lemma runs_repair_round anchor : runs (repair_round s anchor) (fun _ => True).
Proof. unfold repair_round. runs_walk. Qed.
#[local] Hint Resolve runs_repair_round : node.

Lemma runs_junk count i : runs (junk count i) (fun _ => True).
Proof. revert i; induction count as [|count IH]; intros i; cbn [junk]; [by apply runs_ret|]. runs_walk. Qed.
#[local] Hint Resolve runs_junk : node.
Lemma runs_equivocate : runs (equivocate s) (fun _ => True).
Proof. unfold equivocate. runs_walk. Qed.
Lemma runs_jam anchor : runs (jam s anchor) (fun _ => True).
Proof. unfold jam. runs_walk. Qed.
Lemma runs_replay_old anchor : runs (replay_old s anchor) (fun _ => True).
Proof. unfold replay_old. runs_walk. Qed.

Lemma runs_offer_held held : runs (offer_held s held) (fun _ => True).
Proof. unfold offer_held. eapply runs_bind; [apply runs_admit_frame|intros learned Ht]. runs_walk. Qed.
#[local] Hint Resolve runs_offer_held : node.
Lemma runs_close : runs (close_consultation s) (fun _ => True).
Proof.
  unfold close_consultation. eapply runs_bind; [apply runs_get|intros [] _]; [by apply runs_ret|].
  eapply runs_bind; [apply runs_clock|intros c _]. destruct (negb _); [by apply runs_ret|].
  eapply runs_bind; [apply runs_clock|intros c' _]. intros n. rewrite bind_get.
  destruct (Case.close_consultation (Node.case n) c') as [case|e] eqn:Hc; [|apply runs_report]. rewrite bind_put.
  set (rest := put (Node.set_closed true) ≫= _).
  assert (runs rest (fun _ => True)) as Hrest.
  { unfold rest. do 3 (eapply (runs_bind s _ _ (fun _ => True)); [solve [eauto with node]|intros ? _]).
    eapply (runs_bind s _ _ (fun _ => True)); [apply runs_put; intros; apply act_drain|intros ? _]. runs_walk. }
  destruct (Hrest (Node.set_case case n)) as [Ha _]. split; [|done]. eapply rtc_l; [|exact Ha]. by eapply act_close.
Qed.

Lemma runs_schedule_next i anchor jitter : runs (schedule_next s i anchor jitter) (fun _ => True).
Proof. unfold schedule_next. runs_walk. Qed.
Lemma runs_set_attempts i v : runs (set_attempts i v) (fun _ => True).
Proof. unfold set_attempts. runs_walk. Qed.
Lemma runs_set_sent i : runs (set_sent i) (fun _ => True).
Proof. unfold set_sent. runs_walk. Qed.
#[local] Hint Resolve runs_schedule_next runs_set_attempts runs_set_sent : node.
Lemma runs_send_stage i stage allowed anchor : runs (send_stage s i stage allowed anchor) (fun _ => True).
Proof.
  unfold send_stage. do 2 (eapply runs_bind; [apply runs_get|intros ? _]).
  eapply runs_bind; [apply runs_build|intros [frame|why] _]; [|runs_walk].
  eapply runs_bind; [apply runs_transmit|intros went_out _]. eapply runs_bind; [apply runs_get|intros attempts _].
  eapply runs_bind; [apply runs_set_attempts|intros _ _].
  eapply (runs_bind s _ _ (fun _ => True)).
  { destruct (peek_frame_header frame) as [[pa pq]|]; [|by apply runs_ret]. apply runs_mark. by right. }
  intros _ _. do 2 (eapply runs_bind; [solve [eauto with node]|intros ? _]).
  eapply (runs_bind s _ _ (fun _ => True)); [runs_walk|intros jitter _].
  do 2 (eapply runs_bind; [solve [eauto with node]|intros ? _]).
  eapply (runs_bind s _ _ (fun _ => True)).
  { apply runs_when. eapply runs_bind; [solve [eauto with node]|intros _ _].
    eapply runs_bind; [apply runs_admit_frame|intros learned [_ Hb]].
    destruct (AdmittedFrame.binding_from learned) as [voter|]; [|by apply runs_ret]. eapply runs_hear_vote. by apply Hb. }
  intros _ _. runs_walk.
Qed.
#[local] Hint Resolve runs_send_stage : node.
Lemma runs_stage_step anchor slot : runs (stage_step s anchor slot) (fun _ => True).
Proof. unfold stage_step. destruct slot as [i stage]. runs_walk. Qed.
#[local] Hint Resolve runs_stage_step : node.
Lemma runs_send_stages anchor : runs (send_stages s anchor) (fun _ => True).
Proof. unfold send_stages. runs_walk. Qed.

Lemma runs_ask anchor : runs (ask s anchor) (fun _ => True).
Proof. unfold ask. runs_walk. Qed.
Lemma runs_carry : runs (carry s) (fun _ => True).
Proof. unfold carry. runs_walk. Qed.
Lemma runs_offer_forward author sequence frame priority : runs (offer_forward author sequence frame priority) (fun _ => True).
Proof.
  unfold offer_forward. cbv zeta. eapply (runs_bind s _ _ (fun _ => True)); [|intros _ _; runs_walk].
  apply runs_put. intros n. apply (act_queue s n (QForget (forward_key author sequence))).
Qed.
#[local] Hint Resolve runs_offer_forward : node.
Lemma runs_queue_held learned from held : runs (queue_held s learned from held) (fun _ => True).
Proof. induction held as [|[author frame] held IH]; cbn [queue_held]; [by apply runs_ret|]. runs_walk. Qed.
Lemma runs_queue_own : runs (queue_own s) (fun _ => True).
Proof. unfold queue_own. runs_walk. Qed.
#[local] Hint Resolve runs_queue_held runs_queue_own : node.
Lemma runs_answer anchor learned from : runs (answer_request s anchor learned from) (fun _ => True).
Proof. unfold answer_request. runs_walk. Qed.
#[local] Hint Resolve runs_answer : node.

Lemma runs_take_evidence frame opener sequence e : genuine s frame opener sequence e ->
  runs (take_evidence s frame opener) (fun _ => True).
Proof.
  intros Hg. unfold take_evidence. intros n. rewrite bind_get. destruct (Z.ltb_spec (len (Node.evidence n)) 4) as [Hl|]; cbn [when]; [|by apply runs_ret].
  rewrite bind_put. destruct (runs_report s options (LEvidence opener (len (Node.evidence n) + 1))
    (Node.set_evidence (Node.evidence n ++ [frame]) n)) as [Ha _].
  split; [|done]. eapply rtc_l; [by eapply act_evidence|exact Ha].
Qed.
Lemma runs_disagree frame member sequence e : genuine s frame member sequence e -> runs (disagree member) (fun _ => True).
Proof. intros Hg. apply runs_put. intros n. by eapply act_foreign. Qed.
Lemma runs_by_timing anchor learned from length : runs (by_timing s anchor learned from length) (fun _ => True).
Proof. unfold by_timing. runs_walk. Qed.
#[local] Hint Resolve runs_by_timing : node.
Lemma runs_note_sender anchor learned frame length : taught s frame learned ->
  runs (note_sender s anchor learned length) (fun _ => True).
Proof.
  intros [Hv _]. unfold note_sender. destruct (AdmittedFrame.verified learned) as [[a q]|]; [|by apply runs_ret].
  destruct (Hv a q eq_refl) as (e & Hg & _). do 2 (eapply runs_bind; [solve [eauto with node]|intros ? _]).
  eapply (runs_bind s _ _ (fun _ => True)); [|intros _ _; apply runs_note_split].
  apply runs_when. by eapply runs_disagree.
Qed.
Lemma runs_hear_opening frame other opener sequence e : genuine s frame opener sequence e ->
  runs (hear_opening s frame other opener sequence) (fun _ => True).
Proof.
  intros Hg. unfold hear_opening. eapply runs_bind; [apply runs_mark; eauto|intros _ _].
  eapply runs_bind; [apply runs_get|intros round _].
  eapply (runs_bind s _ _ (fun _ => True)); [|intros _ _; apply runs_note_split].
  apply runs_when. eapply (runs_bind s _ _ (fun _ => True)); [by eapply runs_take_evidence|intros _ _]. by eapply runs_disagree.
Qed.
Lemma runs_hear_utterance anchor frame : runs (hear_utterance s anchor frame) (fun _ => True).
Proof.
  unfold hear_utterance. eapply runs_bind; [apply runs_admit_frame|intros learned Ht].
  eapply runs_bind; [apply runs_get|intros captured _].
  eapply (runs_bind s _ _ (fun _ => True)); [runs_walk|intros _ _].
  eapply (runs_bind s _ _ (fun _ => True)).
  { destruct (AdmittedFrame.verified learned) as [[a q]|] eqn:Hv; [|by apply runs_ret].
    destruct (proj1 Ht a q Hv) as (e & Hg & _). eapply runs_bind; [apply runs_mark; eauto|intros _ _]. runs_walk. }
  intros _ _. eapply (runs_bind s _ _ (fun _ => True)); [by eapply runs_note_sender|intros _ _].
  eapply (runs_bind s _ _ (fun _ => True)); [|intros _ _; apply runs_note_acknowledged].
  destruct (AdmittedFrame.binding_from learned) as [a|] eqn:Hb; [|by apply runs_ret]. pose proof (proj2 Ht a Hb) as Hvote.
  eapply runs_bind; [by eapply runs_hear_vote|intros _ _].
  eapply runs_bind; [by apply runs_witness|intros kept _]. runs_walk.
Qed.
Lemma runs_hear anchor : runs (hear s fuel anchor) (fun _ => True).
Proof.
  unfold hear. eapply runs_bind; [apply runs_receive|intros [frame|] _]; [|by apply runs_ret].
  eapply runs_bind; [apply runs_get|intros [] _]; [runs_walk|].
  eapply runs_bind; [apply runs_outside|intros [] _]; [apply runs_stop|].
  eapply runs_bind; [apply runs_trigger_round|intros [[[other opener] sequence]|]].
  - intros (e & Hg & _). eapply (runs_bind s _ _ (fun _ => True)); [by eapply runs_hear_opening|intros _ _]. apply runs_stop.
  - intros _. apply runs_hear_utterance.
Qed.
Lemma runs_leave anchor : runs (leave_when_done s anchor) (fun _ => True).
Proof. unfold leave_when_done. runs_walk. Qed.
#[local] Hint Resolve runs_await_round runs_equivocate runs_jam runs_replay_old runs_close runs_send_stages runs_ask
  runs_carry runs_hear runs_leave : node.

(** Every turn is a sequence of acts; so is every run. *)
Lemma runs_turn : runs (turn s fuel) (fun _ => True).
Proof. unfold turn. runs_walk. Qed.
Lemma run_turns_acts turns n : acts s n (run_turns s fuel turns n).1.
Proof.
  revert n; induction turns as [|turns IH]; intros n; cbn [run_turns]; [apply rtc_refl|].
  destruct (runs_turn n) as [Ha _]. destruct (turn s fuel n) as [n' [u|[]]]; cbn [fst] in Ha.
  - etrans; [exact Ha|apply IH].
  - etrans; [exact Ha|apply IH].
  - etrans; [exact Ha|]. cbn [fst]. assert (runs (final s) (fun _ => True)) as Hf by (unfold final; runs_walk). apply Hf.
  - exact Ha.
Qed.
End turn.
