(* ===== verification/NodeProofs.v ===== *)
(** What a node guarantees over a whole run, by rule induction on the acts of
    [NodeSteps]: only signed votes are counted, a frame is read once, memory is bounded,
    a split takes two. *)
From S2P Require Import Prelude Time Contracts Quorum CaseState Replay Budget Journal Queue Crypto Codec Radio Channel NodeConfig NodeState NodeFrames NodeLoop NodeSteps.

Section invariants.
Context {J R : Type} `{Digest, Ed25519, Aead, Serde SignedCompactEnvelope.t, Journal J, Radio R, Host}.
Context (s : Setup.t).
Local Notation state := (Node.t J R).

Lemma acts_invariant (P : state -> Prop) n n' :
  (forall n n', act s n n' -> P n -> P n') -> acts s n n' -> P n -> P n'.
Proof. intros Hstep. induction 1; eauto. Qed.
(** A relation kept by every act is kept by a run. *)
Lemma acts_relation (Q : state -> state -> Prop) n n' : PreOrder Q ->
  (forall n n', act s n n' -> Q n n') -> acts s n n' -> Q n n'.
Proof. intros HQ Hstep. induction 1; [reflexivity|]. etrans; eauto. Qed.

Lemma core_case (n n' : state) : core_of n' = core_of n -> Node.case n' = Node.case n.
Proof. apply (f_equal k_case). Qed.
Lemma core_windows (n n' : state) : core_of n' = core_of n -> Node.windows n' = Node.windows n.
Proof. apply (f_equal k_windows). Qed.

(** ** The case *)

(** What a member of the fleet has put its name to. *)
Definition signed_support (frame : bytes) (author : Z) : Prop :=
  exists sequence e, genuine s frame author sequence e
    /\ stage_of (CompactEnvelope.stage e) = Some BindingSupport
    /\ verdict_of (CompactEnvelope.verdict e) = Some Support.
Definition backed (o : Opinion.t) : Prop :=
  exists frame author sequence e, genuine s frame author sequence e /\ opinion_in s e author o.
Definition case_backed (n : state) : Prop :=
  case_inv (Node.case n) /\ Forall backed (Case.binding (Node.case n)).

Lemma case_backed_act n n' : act s n n' -> case_backed n -> case_backed n'.
Proof.
  unfold case_backed. intros Ha [Hi Hb]. destruct Ha as [n' Hc _| | | | |frame a q e o c case Hg Ho Hacc|c case Hcl| | | | | | | | | | |];
    try (by split); [by rewrite (core_case _ _ Hc)| |].
  - change (Node.case (Node.set_case case n)) with case. split; [by eapply case_inv_accept|].
    apply accept_ok in Hacc as (_ & _ & Had). destruct Had; [done..|]. cbn. apply Forall_app_2; [done|]. constructor; [|constructor].
    by exists frame, a, q, e.
  - change (Node.case (Node.set_case case n)) with case. split; [by eapply case_inv_close|].
    apply close_ok in Hcl as (_ & _ & ->). done.
Qed.
Lemma supporter_signed n name : case_backed n -> name ∈ Case.binding_supporters (Node.case n) ->
  exists author frame, name = Setup.member_id s author /\ signed_support frame author.
Proof.
  intros [Hi Hb] (o & -> & [Hv Hin]%list_elem_of_filter)%list_elem_of_fmap. rewrite Forall_forall in Hb.
  destruct (Hb o Hin) as (frame & a & q & e & Hg & st & v & Hst & Hvd & ->). exists a, frame. split; [done|].
  exists q, e. split; [done|]. pose proof (inv_votes _ Hi) as Hvotes. rewrite Forall_forall in Hvotes.
  destruct (Hvotes _ Hin) as [_ Hbind]. cbn in Hbind, Hv. subst st. destruct v; by split.
Qed.
(** What calling the claim endorsed rests on. *)
Lemma endorsed_support (n : state) : case_backed n -> endorsed s (Node.case n) = true -> exists X : gset str,
  X ⊆ members (Setup.policy s) /\ min_signers (Setup.policy s) <= Z.of_nat (size X)
  /\ 2 * total_competence (Setup.policy s) < 3 * weight (Setup.policy s) X
  /\ forall name, name ∈ X -> exists author frame, name = Setup.member_id s author /\ signed_support frame author.
Proof.
  intros Hb. unfold endorsed. destruct (evaluate _ _) as [outcome|] eqn:He; [|done]. intros Happ.
  apply evaluate_ok in He as [Hsub ->]. unfold approved, verdict_on in Happ. cbn [count_met competence_met] in Happ.
  apply andb_true_iff in Happ as [Hc%Z.leb_le Hw%Z.ltb_lt]. eexists. split; [exact Hsub|]. split; [exact Hc|]. split; [exact Hw|].
  intros name Hin%elem_of_list_to_set. by apply (supporter_signed n).
Qed.
Lemma case_backed_start j r : case_backed (start s j r).
Proof. split; [apply case_inv_open|]. constructor. Qed.

Lemma case_backed_acts j r n : acts s (start s j r) n -> case_backed n.
Proof. intros Ha. apply (acts_invariant case_backed (start s j r) n); [apply case_backed_act|done|apply case_backed_start]. Qed.
End invariants.

(** However a run of a node goes -- whatever the radio delivers, the journal
    answers and the clock reads, and whichever adversary the node itself plays -- every
    supporter it counts is a member of the fleet that has signed, with the key the
    manifest names for it, a supporting binding vote about this very subject in this
    very epoch, in a frame whose sealed header names it too; nobody is counted twice;
    and it calls the claim endorsed only when as many such members as the policy asks
    for stand behind it, with more than two thirds of the fleet's competence. *)
Theorem endorsement_needs_signed_votes {J R : Type}
    `{Digest, Ed25519, Aead, Serde SignedCompactEnvelope.t, Journal J, Radio R, Host}
    (s : Setup.t) (fuel turns : nat) (j : J) (r : R) :
  let case := Node.case (run_turns s fuel turns (start s j r)).1 in
  (forall name, name ∈ Case.binding_supporters case ->
     exists author frame, name = Setup.member_id s author /\ signed_support s frame author)
  /\ NoDup (Case.binding_supporters case)
  /\ (endorsed s case = true -> exists X : gset str,
        X ⊆ members (Setup.policy s)
        /\ min_signers (Setup.policy s) <= Z.of_nat (size X)
        /\ 2 * total_competence (Setup.policy s) < 3 * weight (Setup.policy s) X
        /\ forall name, name ∈ X -> exists author frame, name = Setup.member_id s author /\ signed_support s frame author).
Proof.
  intros case. set (n := (run_turns s fuel turns (start s j r)).1) in *.
  assert (case_backed s n) as Hb by exact (case_backed_acts s j r n (run_turns_acts s fuel turns (start s j r))).
  split_and!.
  - intros name. by apply supporter_signed.
  - apply supporters_nodup, Hb.
  - by apply endorsed_support.
Qed.

(** * Replays *)

Section replays.
Context {J R : Type} `{Digest, Ed25519, Aead, Serde SignedCompactEnvelope.t, Journal J, Radio R, Host}.
Context (s : Setup.t).
Local Notation state := (Node.t J R).
Local Notation options := (Setup.options s).

Definition sound_window (w : ReplayWindow.t) : Prop := exists M, remembers w M.
Definition windows_sound (n : state) : Prop :=
  Forall sound_window (Node.windows n) /\ len (Node.windows n) = Z.max 0 (Options.fleet options).

Lemma mark_sound w q : sound_window w -> sound_window (ReplayWindow.mark w q).
Proof.
  intros [M Hw]. destruct (mark_remembers w M q Hw) as [Hm|(h & _ & _ & ->)]; [by eexists|by exists M].
Qed.
Lemma mark_seen_still w q q' : sound_window w -> ReplayWindow.seen w q' = true -> ReplayWindow.seen (ReplayWindow.mark w q) q' = true.
Proof.
  intros [M Hw] Hs. destruct (mark_remembers w M q Hw) as [Hm|(h & _ & _ & ->)]; [|done].
  apply (seen_remembers w M q' Hw) in Hs as (h & Hh & Hle & Hcase).
  assert (M h) as Hin by (unfold remembers in Hw; rewrite Hh in Hw; apply Hw).
  apply (seen_remembers _ _ q' Hm). unfold remembers in Hm. destruct (ReplayWindow.highest (ReplayWindow.mark w q)) as [h'|].
  - destruct Hm as (_ & Hmax & _). specialize (Hmax h (or_introl Hin)). exists h'. split; [done|]. split; [lia|]. naive_solver lia.
  - exfalso. apply (Hm h). by left.
Qed.
Lemma mark_now_seen w q : sound_window w -> ReplayWindow.seen (ReplayWindow.mark w q) q = true.
Proof.
  intros [M Hw]. destruct (mark_remembers w M q Hw) as [Hm|(h & Hh & Hold & ->)].
  - apply (seen_in _ _ q Hm). by right.
  - apply (seen_remembers w M q Hw). exists h. unfold REPLAY_WINDOW in *. split_and!; [done|lia|by left].
Qed.

Definition marked (a q : Z) (n : state) : Prop :=
  exists w, Node.windows n !! Z.to_nat a = Some w /\ ReplayWindow.seen w q = true.

Lemma windows_sound_act n n' : act s n n' -> windows_sound n -> windows_sound n'.
Proof.
  unfold windows_sound. intros Ha [Hs Hl]. destruct Ha as [n' Hc _| | | | | | |m q _| | | | | | | | | |]; try (by split).
  - by rewrite (core_windows _ _ Hc).
  - match goal with |- context [Node.set_windows ?l n] => change (Node.windows (Node.set_windows l n)) with l end.
    split; [|unfold len in *; by rewrite length_alter]. apply Forall_alter; [done|]. intros w _. apply mark_sound.
Qed.
Lemma marked_act a q n n' : act s n n' -> windows_sound n -> marked a q n -> marked a q n'.
Proof.
  unfold marked. intros Ha [Hs _] (w & Hw & Hq). destruct Ha as [n' Hc _| | | | | | |m q' _| | | | | | | | | |]; try (by exists w).
  - rewrite (core_windows _ _ Hc). by exists w.
  - match goal with |- context [Node.set_windows ?l n] => change (Node.windows (Node.set_windows l n)) with l end.
    rewrite list_lookup_alter. case_decide as Hm; [|by exists w]. rewrite ?Hm, ?Hw. rewrite <- ?Hm in Hw. rewrite ?Hw. cbn. eexists. split; [done|].
    apply mark_seen_still; [|done]. rewrite Forall_lookup in Hs. by eapply Hs.
Qed.
Lemma marked_acts a q n n' : acts s n n' -> windows_sound n -> marked a q n -> windows_sound n' /\ marked a q n'.
Proof. induction 1; [done|]. intros Hs Hm. eauto using windows_sound_act, marked_act. Qed.
Lemma windows_sound_acts n n' : acts s n n' -> windows_sound n -> windows_sound n'.
Proof. induction 1; [done|]. eauto using windows_sound_act. Qed.

Lemma windows_sound_start j r : windows_sound (start s j r).
Proof.
  unfold windows_sound, start, windows_of. cbn. split.
  - apply Forall_fmap, Forall_true. intros i. unfold compose. destruct (U16_MAX <? i); [eexists; apply remembers_new|].
    destruct (highest_seen j i); [eexists; apply remembers_resumed|eexists; apply remembers_new].
  - unfold len. rewrite length_fmap, length_seqZ. lia.
Qed.

(** A genuine frame's header is readable without the key, and the frame is one thing. *)
Lemma genuine_header frame a q e : genuine s frame a q e -> peek_frame_header frame = Ok (a, q).
Proof.
  intros (received & key & Ho & _). unfold opened in Ho. destruct (open_frame _ _) as [[[a1 q1] plain]|] eqn:Hf; [|done].
  apply peek_opened in Hf as [_ Hf]. destruct (decode_compact plain); [|done]. rewrite Hf. congruence.
Qed.
Lemma genuine_once frame a q e a' q' e' : genuine s frame a q e -> genuine s frame a' q' e' -> a = a' /\ q = q' /\ e = e'.
Proof. intros (received & key & Ho & <- & _) (received' & key' & Ho' & <- & _). split_and!; congruence. Qed.
Lemma marked_is_replay frame a q (n : state) : peek_frame_header frame = Ok (a, q) ->
  is_replay frame (Node.windows n) = true <-> marked a q n.
Proof.
  intros Hp. unfold is_replay, marked. rewrite Hp. destruct (Node.windows n !! Z.to_nat a) as [w|]; [|naive_solver].
  split; [by exists w|]. intros (w' & Hw & Hs). by assert (w = w') as -> by congruence.
Qed.

(** ** Reading a genuine frame *)

Lemma signed_by_genuine received a key (n : state) : Setup.keyring s !! Z.to_nat a = Some key ->
  SignedCompactEnvelope.verify received key (Subject.content_hash (Setup.subject s)) = Ok tt ->
  signed_by s received a n = (Node.set_meter (Meter.bump (Node.meter n) Meter.Verifications) n, Ok true).
Proof. intros Hk Hv. unfold signed_by. rewrite Hk. unfold checked. rewrite Hv. reflexivity. Qed.

(** The whole of what a genuine frame teaches, and does to the case. *)
Lemma admit_genuine frame a q e (n : state) : genuine s frame a q e ->
  exists n' learned, admit_frame s frame n = (n', Ok learned)
  /\ AdmittedFrame.verified learned = Some (a, q) /\ AdmittedFrame.round learned = CompactEnvelope.round e
  /\ AdmittedFrame.heard learned = CompactEnvelope.heard e
  /\ AdmittedFrame.stage_index learned = stage_slot (CompactEnvelope.stage e)
  /\ AdmittedFrame.acknowledges_us learned = Heard.contains (CompactEnvelope.heard e) (Setup.index s)
  /\ AdmittedFrame.nack learned = (CompactEnvelope.stage e =? NACK_STAGE)
  /\ match stage_of (CompactEnvelope.stage e), verdict_of (CompactEnvelope.verdict e) with
     | Some stage, Some verdict =>
         match Case.accept (Node.case n) (Opinion.new (Setup.member_id s a) (Setup.subject s) stage verdict)
                 (Clk.reading (Node.clock n) (instant (Node.reads n))) with
         | Ok case => Node.case n' = case /\ AdmittedFrame.refused learned = None
             /\ AdmittedFrame.binding_from learned = (if bool_decide (stage = BindingSupport) then Some a else None)
         | Err err => Node.case n' = Node.case n /\ AdmittedFrame.refused learned = Some err /\ AdmittedFrame.binding_from learned = None
         end
     | _, _ => Node.case n' = Node.case n /\ AdmittedFrame.refused learned = None /\ AdmittedFrame.binding_from learned = None
     end.
Proof.
  intros (received & key & Ho & He & Hsame & Ha & Hq & Hk & Hv). unfold admit_frame. rewrite Ho. cbv zeta. rewrite He, Hsame, Ha, Hq, !Z.eqb_refl.
  cbn [negb orb]. rewrite (bind_ok _ _ _ _ _ (signed_by_genuine received a key n Hk Hv)). cbn [negb].
  set (n1 := Node.set_meter _ n).
  destruct (stage_of (CompactEnvelope.stage e)) as [stage|]; [|by do 2 eexists; split_and!].
  destruct (verdict_of (CompactEnvelope.verdict e)) as [verdict|]; [|by do 2 eexists; split_and!].
  set (o := Opinion.new _ _ _ _). set (c := Clk.reading (Node.clock n) (instant (Node.reads n))).
  assert (clock n1 = (Node.set_reads (S (Node.reads n)) n1, Ok c)) as Hclock by reflexivity.
  rewrite (bind_ok _ _ _ _ _ Hclock), bind_get.
  change (Node.case (Node.set_reads (S (Node.reads n)) n1)) with (Node.case n).
  destruct (Case.accept (Node.case n) o c) as [case|err].
  - rewrite bind_put. match goal with |- context [(report ?o ?l ≫= _) ?m] => destruct (report_run o l m) as [log Hr] end.
    rewrite (bind_ok _ _ _ _ _ Hr). do 2 eexists. split; [reflexivity|]. by case_bool_decide; split_and!.
  - match goal with |- context [(report ?o ?l ≫= _) ?m] => destruct (report_run o l m) as [log Hr] end.
    rewrite (bind_ok _ _ _ _ _ Hr). do 2 eexists. split; [reflexivity|]. by split_and!.
Qed.

(** ** Reading it once *)

Lemma marked_bind {A B} (m : M J R A) (k : A -> M J R B) a q n : windows_sound (m n).1 -> marked a q (m n).1 ->
  (forall x, runs s (k x) (fun _ => True)) -> marked a q ((m ≫= k) n).1.
Proof.
  intros Hs Hm Hk. unfold mbind, m_bind. destruct (m n) as [n' [x|e]]; [|exact Hm].
  destruct (Hk x n') as [Ha _]. by destruct (marked_acts a q _ _ Ha Hs Hm).
Qed.
Lemma runs_sound {A} (m : M J R A) Q n : runs s m Q -> windows_sound n -> windows_sound (m n).1.
Proof. intros Hm Hs. destruct (Hm n) as [Ha _]. by eapply windows_sound_acts. Qed.

Lemma mark_marks a q e frame n : genuine s frame a q e -> len (Setup.keyring s) = Options.fleet options -> windows_sound n ->
  windows_sound (mark a q n).1 /\ marked a q (mark a q n).1.
Proof.
  intros Hg Hlen Hs. pose proof (runs_mark s a q (or_introl (ex_intro _ frame (ex_intro _ e Hg)))) as Hr.
  split; [by eapply runs_sound|]. unfold mark. rewrite bind_put. set (n1 := Node.set_windows _ n).
  assert (act s n n1) as Hact by (apply act_mark; left; eauto).
  assert (windows_sound n1) as Hs1 by by eapply windows_sound_act.
  destruct (runs_remember_seen s a q n1) as [Ha _]. apply (marked_acts a q _ _ Ha Hs1).
  destruct Hg as (received & key & _ & _ & _ & _ & _ & Hk & _). apply lookup_lt_Some in Hk. destruct Hs as [Hall Hl]. unfold len in *.
  destruct (lookup_lt_is_Some_2 (Node.windows n) (Z.to_nat a) ltac:(lia)) as [w Hw].
  exists (ReplayWindow.mark w q). split; [change (Node.windows n1) with (alter (fun w => ReplayWindow.mark w q) (Z.to_nat a) (Node.windows n));
    by rewrite list_lookup_alter_eq, Hw|]. apply mark_now_seen. rewrite Forall_lookup in Hall. by eapply Hall.
Qed.

Definition delivers (n : state) (frame : bytes) : Prop :=
  exists received, (radio_poll (Node.radio n)).2 = Some (EvReceived received) /\ Received.payload received = frame.
Lemma receive_delivers fuel (n : state) frame : delivers n frame ->
  receive s (S fuel) n = (Node.set_radio (radio_poll (Node.radio n)).1 n, Ok (Some frame)).
Proof.
  intros (received & Hp & Hf). cbn [receive]. unfold mbind, m_bind, with_radio. destruct (radio_poll (Node.radio n)) as [r ev].
  cbn in *. by rewrite Hp, Hf.
Qed.
Lemma genuine_inside frame a q e (n : state) : genuine s frame a q e -> len (Setup.keyring s) = Options.fleet options ->
  from_outside_the_fleet s frame n = (n, Ok false).
Proof.
  intros Hg Hlen. unfold from_outside_the_fleet. rewrite (genuine_header frame a q e Hg).
  destruct Hg as (received & key & _ & _ & _ & _ & _ & Hk & _). apply lookup_lt_Some in Hk. unfold len in *.
  destruct (Z.ltb_spec a (Options.fleet options)); [done|]. exfalso. lia.
Qed.
Lemma trigger_round_total frame (n : state) : exists o meter, trigger_round s frame n = (Node.set_meter meter n, Ok o).
Proof.
  assert (forall o : option (RoundId.t * Z * Z), exists o' meter, (n, Ok o) = (Node.set_meter meter n, Ok (E:=Stop) o')) as Hsame.
  { intros o. exists o, (Node.meter n). by destruct n as [[] [] [] [] [] []]. }
  unfold trigger_round. destruct (opened s frame) as [[[a q] received]|]; [|apply Hsame]. destruct (_ || _); [apply Hsame|].
  unfold signed_by. destruct (Setup.keyring s !! _) as [key|]; [|apply Hsame]. do 2 eexists. reflexivity.
Qed.

Lemma hear_genuine fuel anchor frame a q e n : genuine s frame a q e -> len (Setup.keyring s) = Options.fleet options ->
  windows_sound n -> delivers n frame -> marked a q (hear s (S fuel) anchor n).1.
Proof.
  intros Hg Hlen Hs Hd. unfold hear. rewrite (bind_ok _ _ _ _ _ (receive_delivers fuel n frame Hd)), bind_get.
  set (n1 := Node.set_radio _ n). assert (windows_sound n1) as Hs1 by (by apply (windows_sound_act n n1); [apply act_poll|]).
  change (Node.windows n1) with (Node.windows n). destruct (is_replay frame (Node.windows n)) eqn:Hrep.
  - apply (marked_is_replay frame a q n (genuine_header frame a q e Hg)) in Hrep.
    apply marked_bind; [exact Hs1|exact Hrep|]. intros _. runs_walk.
  - rewrite (bind_ok _ _ _ _ _ (genuine_inside frame a q e n1 Hg Hlen)).
    destruct (trigger_round_total frame n1) as (o & meter & Ht). rewrite (bind_ok _ _ _ _ _ Ht).
    pose proof (proj2 (runs_trigger_round s frame n1) o) as Hq. rewrite Ht in Hq. specialize (Hq eq_refl).
    set (n2 := Node.set_meter meter n1). assert (windows_sound n2) as Hs2 by exact Hs1.
    destruct o as [[[other opener] sequence]|].
    + destruct Hq as (e' & Hg' & _). destruct (genuine_once frame a q e opener sequence e' Hg Hg') as (<- & <- & <-).
      unfold hear_opening. destruct (mark_marks a q e frame n2 Hg Hlen Hs2) as [Hms Hmm].
      apply marked_bind.
      * apply (runs_sound _ _ _ (runs_hear_opening s frame other a q e Hg) Hs2).
      * apply marked_bind; [exact Hms|exact Hmm|]. intros _. eapply runs_bind; [apply runs_get|intros round _].
        eapply (runs_bind s _ _ (fun _ => True)); [|intros _ _; apply runs_note_split].
        apply runs_when. eapply (runs_bind s _ _ (fun _ => True)); [by eapply runs_take_evidence|intros _ _]. by eapply runs_disagree.
      * intros _. apply runs_stop.
    + unfold hear_utterance. destruct (admit_genuine frame a q e n2 Hg) as (n3 & learned & Hadm & Hver & _).
      pose proof (runs_admit_frame s frame n2) as [Hacts Htaught]. rewrite Hadm in Hacts, Htaught. specialize (Htaught _ eq_refl).
      rewrite (bind_ok _ _ _ _ _ Hadm), bind_get. assert (windows_sound n3) as Hs3 by (by eapply windows_sound_acts).
      unfold when at 1. set (captured := if _ : bool then _ else _).
      assert (exists n4, captured n3 = (n4, Ok tt) /\ windows_sound n4) as (n4 & Hcap & Hs4) by (unfold captured; case_match; eexists; split; done).
      rewrite (bind_ok _ _ _ _ _ Hcap), Hver. destruct (mark_marks a q e frame n4 Hg Hlen Hs4) as [Hms Hmm].
      apply marked_bind.
      * apply (runs_sound _ (fun _ => True)); [|exact Hs4]. eapply runs_bind; [apply runs_mark; eauto|intros _ _].
        eapply runs_bind; [by apply runs_hold_early|intros _ _]. apply runs_answer.
      * apply marked_bind; [exact Hms|exact Hmm|]. intros _. eapply runs_bind; [by apply runs_hold_early|intros _ _]. apply runs_answer.
      * intros _. eapply (runs_bind s _ _ (fun _ => True)); [by eapply runs_note_sender|intros _ _].
        eapply (runs_bind s _ _ (fun _ => True)); [|intros _ _; apply runs_note_acknowledged].
        destruct (AdmittedFrame.binding_from learned) as [voter|] eqn:Hb; [|by apply runs_ret]. pose proof (proj2 Htaught voter Hb) as Hvote.
        eapply runs_bind; [by eapply runs_hear_vote|intros _ _]. eapply runs_bind; [by apply runs_witness|intros kept _]. runs_walk.
Qed.
End replays.

(** C23: A frame is read once. From a sound state, a genuine frame that the radio hands
    over in a round leaves its sender's window marked; and however long the run goes on
    after that, whenever the radio hands over the same frame, or any frame with that
    header, the turn is over as soon as the header is read: nothing is decrypted, no
    signature is verified, and of the whole of the node's state only these change: the
    radio has been polled, the count of replays is one more, the clock has been read once,
    and the log has the line that says so. *)
Theorem a_frame_is_read_once {J R : Type}
    `{Digest, Ed25519, Aead, Serde SignedCompactEnvelope.t, Journal J, Radio R, Host}
    (s : Setup.t) (fuel turns : nat) (anchor anchor' : Z) (frame copy : bytes) (a q : Z) (e : CompactEnvelope.t) (n : Node.t J R) :
  genuine s frame a q e -> len (Setup.keyring s) = Options.fleet (Setup.options s) -> windows_sound s n ->
  delivers n frame -> peek_frame_header copy = Ok (a, q) ->
  let later := (run_turns s (S fuel) turns (hear s (S fuel) anchor n).1).1 in
  delivers later copy ->
  let '(after, outcome) := hear s (S fuel) anchor' later in
  outcome = Err Continue
  /\ exists second, after
     = Node.set_log (Node.log later ++ [(Some second, LReplayDropped)])
         (Node.set_reads (S (Node.reads later))
           (Node.set_meter (Meter.bump (Node.meter later) Meter.ReplaysDropped)
             (Node.set_radio (radio_poll (Node.radio later)).1 later))).
Proof.
  intros Hg Hlen Hs Hd Hp later Hd'.
  assert (windows_sound s later /\ marked a q later) as [Hs' Hm].
  { pose proof (runs_hear s fuel anchor) as _. apply (marked_acts s a q (hear s (S fuel) anchor n).1 later); [apply run_turns_acts| |].
    - by apply (runs_sound s _ _ n (runs_hear s (S fuel) anchor)).
    - by apply (hear_genuine s fuel anchor frame a q e n). }
  unfold hear. rewrite (bind_ok _ _ _ _ _ (receive_delivers s fuel later copy Hd')), bind_get.
  change (Node.windows (Node.set_radio ?r later)) with (Node.windows later).
  rewrite (proj2 (marked_is_replay copy a q later Hp) Hm). split; [done|]. eexists. reflexivity.
Qed.

(** * What a node holds *)

(** A setup as [assemble] leaves it. *)
Record setup_ok (s : Setup.t) : Prop := {
  so_keys : len (Setup.keyring s) = Options.fleet (Setup.options s);
  so_fleet : Fleet.size (Setup.fleet s) = Options.fleet (Setup.options s);
  so_seat : 0 <= Setup.index s < Options.fleet (Setup.options s);
  so_capacity : Options.fleet (Setup.options s) <= Heard.CAPACITY;
}.

Section held.
Context {J R : Type} `{Digest, Ed25519, Aead, Serde SignedCompactEnvelope.t, Journal J, Radio R, Host}.
Context (s : Setup.t).
Hypothesis seated : setup_ok s.
(** An author index is a u16. *)
Hypothesis typed : forall bs x, de bs = Some x -> is_u16 (CompactEnvelope.author_index (SignedCompactEnvelope.envelope x)).
Local Notation state := (Node.t J R).
Local Notation fleet := (Options.fleet (Setup.options s)).

Lemma genuine_member frame a q e : genuine s frame a q e -> 0 <= a < fleet.
Proof.
  intros (received & key & Ho & <- & _ & Ha & _ & Hk & _). unfold opened in Ho.
  destruct (open_frame _ _) as [[[a1 q1] plain]|]; [|done]. unfold decode_compact in Ho. destruct (de plain) as [x|] eqn:Hde; [|done].
  cbn in Ho. assert (x = received) as -> by congruence. apply typed in Hde. apply lookup_lt_Some in Hk.
  pose proof (so_keys s seated) as Hlen. unfold len in Hlen. width. lia.
Qed.
Lemma seated_index : 0 <= Setup.index s < fleet.
Proof. apply (so_seat s seated). Qed.
Lemma index_of_range name i : Setup.member_index s name = Some i -> 0 <= i < fleet.
Proof.
  unfold Setup.member_index, Fleet.index_of. intros Hi. apply fmap_Some in Hi as ([k x] & Hf & ->).
  apply list_find_Some in Hf as (Hl & _). apply lookup_lt_Some in Hl. cbn. rewrite <- (so_fleet s seated). unfold Fleet.size, len. lia.
Qed.

Definition among (X : gset Z) : Prop := forall a, a ∈ X -> 0 <= a < fleet.
Lemma among_size X : among X -> Z.of_nat (size X) <= fleet.
Proof.
  intros HX. pose proof seated_index.
  assert (X ⊆ list_to_set (seqZ 0 fleet)) as Hsub by (intros a Ha%HX; apply elem_of_list_to_set, elem_of_seqZ; lia).
  apply subseteq_size in Hsub. rewrite size_list_to_set in Hsub by apply NoDup_seqZ. rewrite length_seqZ in Hsub. lia.
Qed.

Lemma among_insert {A} (m : gmap Z A) i (v : A) : 0 <= i < fleet -> among (dom m) -> among (dom (<[i := v]> m)).
Proof.
  intros Hi Hm b Hb. rewrite dom_insert in Hb. apply elem_of_union in Hb as [->%elem_of_singleton|Hb]; [done|by apply Hm].
Qed.
Lemma among_empty {A} : among (dom (∅ : gmap Z A)).
Proof. intros b Hb. rewrite dom_empty in Hb. by apply not_elem_of_empty in Hb. Qed.

Record holdings (n : state) : Prop := {
  h_evidence : len (Node.evidence n) <= 4;
  h_kept : Forall (fun frame => exists a q e, genuine s frame a q e) (Node.evidence n);
  h_foreign : forall a, a ∈ Node.foreign n -> exists frame q e, genuine s frame a q e;
  h_split : Node.split n = true -> (2 <= size (Node.foreign n))%nat;
  h_early : among (dom (Node.early n));
  h_forwards : queue_inv (Node.forwards n) /\ RadioQueue.max_items (Node.forwards n) = 64
               /\ RadioQueue.max_bytes (Node.forwards n) = 64 * MAX_FRAME_BYTES;
  h_heard : length (Node.heard n) = 8%nat;
}.

Lemma holdings_core (n n' : state) : core_of n' = core_of n -> holdings n -> holdings n'.
Proof.
  intros Hc [He Hk Hf Hs Hy Hq Hh].
  assert (Node.evidence n' = Node.evidence n) as E1 by exact (f_equal k_evidence Hc).
  assert (Node.foreign n' = Node.foreign n) as E2 by exact (f_equal k_foreign Hc).
  assert (Node.split n' = Node.split n) as E3 by exact (f_equal k_split Hc).
  assert (Node.early n' = Node.early n) as E4 by exact (f_equal k_early Hc).
  assert (Node.forwards n' = Node.forwards n) as E5 by exact (f_equal k_forwards Hc).
  assert (Node.heard n' = Node.heard n) as E6 by exact (f_equal k_heard Hc).
  constructor; by rewrite ?E1, ?E2, ?E3, ?E4, ?E5, ?E6.
Qed.
Lemma holdings_act n n' : act s n n' -> holdings n -> holdings n'.
Proof.
  intros Ha Hn. pose proof Hn as [He Hk Hf Hs Hy Hq Hh].
  destruct Ha as [n' Hc _| | | | | | | |frame a Hv|frame a q e Hg| |Hsz|frame a q e Hg|frame a q e Hg Hl|op| | | ]; try (by constructor).
  - by eapply holdings_core.
  - constructor; try done. change (length (Heard.heard_from (Node.heard n) a) = 8%nat). by rewrite heard_from_length.
  - constructor; try done. change (among (dom (<[a := frame]> (Node.early n)))). apply among_insert; [by eapply genuine_member|done].
  - constructor; try done.
    + change (forall b, b ∈ {[a]} ∪ Node.foreign n -> exists frame q e, genuine s frame b q e).
      intros b [->%elem_of_singleton|Hb]%elem_of_union; [by eauto|by apply Hf].
    + change (Node.split n = true -> (2 <= size ({[a]} ∪ Node.foreign n))%nat). intros Hsp. specialize (Hs Hsp).
      etrans; [exact Hs|]. apply subseteq_size. set_solver.
  - constructor; try done.
    + change (len (Node.evidence n ++ [frame]) <= 4). unfold len in *. rewrite length_app. cbn. lia.
    + change (Forall (fun frame => exists a q e, genuine s frame a q e) (Node.evidence n ++ [frame])). apply Forall_app_2; [done|].
      constructor; [by eauto|constructor].
  - constructor; try done. change (queue_inv (queue_op (Node.forwards n) op) /\ RadioQueue.max_items (queue_op (Node.forwards n) op) = 64
      /\ RadioQueue.max_bytes (queue_op (Node.forwards n) op) = 64 * MAX_FRAME_BYTES).
    destruct Hq as (Hi & Hit & Hby). destruct (queue_op_caps (Node.forwards n) op) as [-> ->]. split; [by apply queue_op_inv|done].
Qed.
Lemma holdings_start j r : holdings (start s j r).
Proof.
  constructor; cbn; try done.
  - assert (forall l m, among (dom m) -> among (dom (foldl (fun (early : gmap Z bytes) (held : str * bytes) =>
      match Setup.member_index s held.1 with Some i => <[i := held.2]> early | None => early end) m l))) as Hfold.
    { intros l. induction l as [|[name frame] l IH]; intros m Hm; cbn; [done|]. apply IH.
      destruct (Setup.member_index s name) as [i|] eqn:Hi; [|done]. apply among_insert; [by eapply index_of_range|done]. }
    unfold early_of. specialize (Hfold (witnessed j) ∅ among_empty). destruct (has_voted _ _ _), (pending j); try exact Hfold.
    apply among_insert; [apply seated_index|exact Hfold].
  - split; [|done]. apply with_capacity_inv; [lia|]. unfold MAX_FRAME_BYTES. width. lia.
Qed.
End held.

(** However long a node runs, and whatever is thrown at it, what it holds is
    bounded by its fleet: at most four conflicting openings, a held vote, a window and a
    disagreement per member at most, sixty-four frames to carry in no more than 9728
    bytes, and no more votes than members; and every piece of evidence it keeps is a
    genuine frame somebody signed. *)
Theorem node_holds_no_more_than_its_fleet {J R : Type}
    `{Digest, Ed25519, Aead, Serde SignedCompactEnvelope.t, Journal J, Radio R, Host}
    (s : Setup.t) (fuel turns : nat) (j : J) (r : R) :
  setup_ok s -> (forall bs x, de bs = Some x -> is_u16 (CompactEnvelope.author_index (SignedCompactEnvelope.envelope x))) ->
  let n := (run_turns s fuel turns (start s j r)).1 in
  let fleet := Options.fleet (Setup.options s) in
  len (Node.evidence n) <= 4
  /\ Forall (fun frame => exists a q e, genuine s frame a q e) (Node.evidence n)
  /\ Z.of_nat (size (Node.early n)) <= fleet /\ len (Node.windows n) = fleet
  /\ Z.of_nat (size (Node.foreign n)) <= fleet /\ length (Node.heard n) = 8%nat
  /\ RadioQueue.size (Node.forwards n) <= 64 /\ RadioQueue.queued_bytes (Node.forwards n) <= 9728
  /\ len (Case.binding (Node.case n)) <= fleet.
Proof.
  intros Hok Htyped n fleet. pose proof (run_turns_acts s fuel turns (start s j r)) as Ha. fold n in Ha.
  assert (holdings s n) as [He Hk Hf _ Hy (Hq & Hit & Hby) Hh].
  { apply (acts_invariant s (holdings s) (start s j r) n); [by apply holdings_act|done|by apply holdings_start]. }
  assert (windows_sound s n) as [_ Hw] by (apply (windows_sound_acts s (start s j r) n Ha), windows_sound_start).
  assert (case_backed s n) as [Hi Hb] by exact (case_backed_acts s j r n Ha).
  pose proof (so_seat s Hok). split_and!; try done.
  - rewrite <- size_dom. by apply (among_size s Hok).
  - rewrite Hw. unfold fleet. lia.
  - apply (among_size s Hok). intros a Hin. destruct (Hf a Hin) as (frame & q & e & Hg). by apply (genuine_member s Hok Htyped frame a q e).
  - rewrite <- Hit. apply (qi_items _ Hq).
  - pose proof (qi_caps _ Hq). rewrite Hby in *. unfold MAX_FRAME_BYTES in *. lia.
  - pose proof (inv_voters _ Hi) as Hnd.
    assert (Opinion.author <$> Case.binding (Node.case n) ⊆+ Setup.member_id s <$> seqZ 0 fleet) as Hsub.
    { apply NoDup_submseteq; [done|]. intros name (o & -> & Hin)%list_elem_of_fmap. rewrite Forall_forall in Hb.
      destruct (Hb o Hin) as (frame & a & q & e & Hg & st & v & _ & _ & ->). cbn [Opinion.author]. apply list_elem_of_fmap_2, elem_of_seqZ.
      pose proof (genuine_member s Hok Htyped frame a q e Hg). unfold fleet. lia. }
    apply submseteq_length in Hsub. rewrite !length_fmap, length_seqZ in Hsub. unfold len, fleet. lia.
Qed.

(** No member alone can make a node give up its schedule: a node that has declared
    a split has verified frames of two different members that disagree with it. *)
Theorem one_liar_cannot_split {J R : Type}
    `{Digest, Ed25519, Aead, Serde SignedCompactEnvelope.t, Journal J, Radio R, Host}
    (s : Setup.t) (fuel turns : nat) (j : J) (r : R) :
  setup_ok s -> (forall bs x, de bs = Some x -> is_u16 (CompactEnvelope.author_index (SignedCompactEnvelope.envelope x))) ->
  Node.split (run_turns s fuel turns (start s j r)).1 = true ->
  exists a b frame frame' q q' e e', a <> b /\ genuine s frame a q e /\ genuine s frame' b q' e'.
Proof.
  intros Hok Htyped Hs. set (n := (run_turns s fuel turns (start s j r)).1) in *.
  assert (holdings s n) as [_ _ Hf Hsp _ _ _].
  { apply (acts_invariant s (holdings s) (start s j r) n); [by apply holdings_act|apply run_turns_acts|by apply holdings_start]. }
  specialize (Hsp Hs). destruct (size_pos_elem_of (Node.foreign n)) as [a Ha]; [lia|].
  destruct (size_pos_elem_of (Node.foreign n ∖ {[a]})) as [b Hb].
  { rewrite size_difference by set_solver. rewrite size_singleton. lia. }
  destruct (Hf a Ha) as (frame & q & e & Hg). destruct (Hf b ltac:(set_solver)) as (frame' & q' & e' & Hg').
  exists a, b, frame, frame', q, q', e, e'. split; [set_solver|by split].
Qed.
