(* ===== verification/NodeDemo.v ===== *)
(** A small fleet one can run: a radio that plays a tape, a steady clock, and members that
    share a subject and a group key. The witnesses of the node's theorems are computed on
    it. *)
From S2P Require Import Prelude Time Contracts Quorum CaseState Replay Budget Journal MemoryJournal Queue Crypto.
From S2P Require Import Codec WireDemo Radio Channel NodeConfig NodeState NodeFrames NodeLoop NodeSchedule.

(** * A radio and a clock *)

(** What the radio will report, poll by poll, and what was handed to it. *)
Module Tape.
Record t := mk { events : list (option RadioEvent); aired : list bytes }.
Definition poll (r : t) : t * option RadioEvent :=
  match events r with [] => (r, None) | e :: es => (mk es (aired r), e) end.
Definition transmit (r : t) (frame : bytes) : t * result RadioError unit :=
  (mk (events r) (aired r ++ [frame]), Ok tt).
End Tape.
#[global] Instance tape_radio : Radio Tape.t := {| radio_transmit := Tape.transmit; radio_poll := Tape.poll |}.
Definition delivery (frame : bytes) : option RadioEvent := Some (EvReceived (Received.mk frame (-90) 7)).

(** Every call of the clock is a millisecond after the one before, with three leaps over
    the minutes in which the schedule has nothing to do. *)
Definition leaping_ms (k : Z) : Z :=
  if k <? 140 then k else if k <? 200 then 3320 + (k - 140) else if k <? 300 then 3626 + (k - 200) else 4180 + (k - 300).
Definition leaping_host : Host := {| instant k := from_millis (leaping_ms (Z.of_nat k)); hash k := Z.of_nat k |}.

(** * A fleet *)

Definition fleet_options (size index : Z) : Options.t := {|
  Options.index := index; Options.fleet := size; Options.hub := []; Options.journal := []; Options.manifest := None;
  Options.admin_key := None; Options.signing_key := None; Options.scale := 100; Options.offset := 0;
  Options.clock_epoch := 1000000; Options.slots := true; Options.guard_ms := 200; Options.trigger := true;
  Options.trigger_delay_ms := 5; Options.attempts := 1; Options.ignore_acks := false;
  Options.adversary := Honest; Options.prior_airtime_ms := 0 |}.
Definition fleet_of (size : Z) : Fleet.t := default (Fleet.mk 0 [] (policy_of [] 0 0)) (Fleet.uniform size).
Definition demo_subject : Subject.t := Subject.mk (lit "mission") (lit "evt-1") 0 CONTENT_HASH (Timestamp.from_secs 1000000).
Definition demo_setup (size index : Z) : Setup.t := {|
  Setup.options := fleet_options size index; Setup.fleet := fleet_of size; Setup.subject := demo_subject;
  Setup.keyring := (fun i => @verifying_key toy_ed25519 (SigningKey.from_seed (seed_for i))) <$> seqZ 0 size;
  Setup.signing := SigningKey.from_seed (seed_for index); Setup.forged := None;
  Setup.group := GroupKey.from_bytes GROUP_KEY; Setup.booted := 0; Setup.started := 0 |}.

#[local] Existing Instances toy_digest toy_ed25519 clear_aead wide_serde memory_journal leaping_host.

Definition demo_start (size index : Z) (j : MemoryJournal.t) (tape : list (option RadioEvent)) : Node.t MemoryJournal.t Tape.t :=
  start (demo_setup size index) j (Tape.mk tape []).
(** A member's vote, as it goes on the air. *)
Definition vote_of (size index : Z) (round : RoundId.t) : bytes :=
  match (build (demo_setup size index) BindingSupport Heard.none round (demo_start size index MemoryJournal.default_ [])).2 with
  | Ok (Ok frame) => frame | _ => [] end.
(** Two votes for the node's own round, after a while. *)
Definition demo_tape (votes_after : nat) : Tape.t := Tape.mk
  (replicate votes_after None ++ (delivery <$> [vote_of 3 1 (RoundId.new 0 0); vote_of 3 2 (RoundId.new 0 0)])) [].
Definition demo_run (turns : nat) (votes_after : nat) : Node.t MemoryJournal.t Tape.t * bool :=
  run_turns (demo_setup 3 0) 8 turns (start (demo_setup 3 0) MemoryJournal.default_ (demo_tape votes_after)).
