(* ===== verification/NodeMain.v ===== *)
(** The whole process of a node (src/src/bin/lcq-node.rs, [main]): provisioned, its
    journal entered under the fleet's epoch, announced, and run; and what its pieces
    guarantee together -- an endorsement traced to the key on the card, and an epoch no
    life of the journal goes back on. *)
From S2P Require Import Prelude Time Contracts Quorum CaseState Replay Budget Journal MemoryJournal LogJournal.
From S2P Require Import LogSafety Queue Crypto Codec Radio Channel Hand Manifest NodeConfig NodeSchedule NodeState.
From S2P Require Import NodeFrames NodeLoop NodeSteps NodeProofs.

(** How the process ends up: it panicked before it ran, it found that its schedule does
    not fit and left, or it ran. *)
Inductive Exit (J R : Type) :=
| Refused
| Unfit (n : Node.t J R)
| Ran (s : Setup.t) (n : Node.t J R) (finished : bool).
Arguments Refused {J R}. Arguments Unfit {J R}. Arguments Ran {J R}.

Section main.
Context {J R : Type} `{Digest, Ed25519, Aead, Serde SignedCompactEnvelope.t, Journal J, Radio R, Host}.
Context (file : str -> option str) (mode : str -> option Z).

(** The subject every node of the harness deliberates. *)
Definition subject_of (o : Options.t) : option Subject.t :=
  ok (Subject.new (lit "mission") (lit "evt-1") 0 CONTENT_HASH (Timestamp.from_secs (Options.clock_epoch o))).
(** What [main] settles before its journal; the two instants are the ones it notes. *)
Definition settle (o : Options.t) (f : Fleet.t) (p : Provisioned.t) (booted started : Z) : option Setup.t :=
  subject ← subject_of o;
  Some {|
    Setup.options := o; Setup.fleet := f; Setup.subject := subject; Setup.keyring := Provisioned.keyring p;
    Setup.signing := Provisioned.signing p;
    Setup.forged := if bool_decide (Options.adversary o = Forge)
                    then Some (SigningKey.from_seed (seed_for ((Options.index o + 1) mod Options.fleet o))) else None;
    Setup.group := Provisioned.group p; Setup.booted := booted; Setup.started := started |}.
Definition trust_of (p : Provisioned.t) : option (str * bytes) :=
  match Provisioned.admin p, Provisioned.manifest_digest p with Some fingerprint, Some digest => Some (fingerprint, digest) | _, _ => None end.

(** [None] for a journal that does not open. *)
Definition main (o : Options.t) (unix booted started : Z) (opened_journal : option J) (r : R) (fuel turns : nat) : Exit J R :=
  match assemble file mode o unix with
  | None => Refused
  | Some (o, f, p) =>
      match settle o f p booted started, opened_journal with
      | Some s, Some j =>
          match enter s j with
          | None => Refused
          | Some j =>
              let n := ((announce s (trust_of p);; report_restored s) (start s j r)).1 in
              if Options.schedule_unfit o then
                Unfit (report o (LUnfit (Options.finish o)) n).1
              else let '(n, finished) := run_turns s fuel turns n in Ran s n finished
          end
      | _, _ => Refused
      end
  end.
End main.

Section whole.
Context {J R : Type} `{Digest, Ed25519, Aead, Serde SignedCompactEnvelope.t, Journal J, Radio R, Host}.
Context (file : str -> option str) (mode : str -> option Z).

Lemma runs_announce (s : Setup.t) trust : runs (J:=J) (R:=R) s (announce s trust;; report_restored s) (fun _ => True).
Proof. unfold announce, report_restored. runs_walk. Qed.

(** What a process that ran has behind it. *)
Lemma main_ran o unix booted started (opened_journal : option J) (r : R) fuel turns s n finished :
  main file mode o unix booted started opened_journal r fuel turns = Ran s n finished ->
  exists o' f p j j', assemble file mode o unix = Some (o', f, p) /\ settle o' f p booted started = Some s
    /\ opened_journal = Some j /\ enter s j = Some j' /\ Options.schedule_unfit o' = false /\ acts s (start s j' r) n.
Proof.
  unfold main. destruct (assemble file mode o unix) as [[[o' f] p]|]; [|done].
  destruct (settle o' f p booted started) as [s'|] eqn:Hs; [|done]. destruct opened_journal as [j|]; [|done].
  destruct (enter s' j) as [j'|] eqn:He; [|done]. destruct (Options.schedule_unfit o') eqn:Hfit; [done|]. cbv zeta.
  set (n0 := (_ (start s' j' r)).1). destruct (run_turns s' fuel turns n0) as [n' fin] eqn:Hr. intros Heq.
  assert (s' = s /\ n' = n) as [-> ->] by (split; congruence). exists o', f, p, j, j'. split_and!; try done.
  etrans; [apply (runs_announce s (trust_of p) (start s j' r))|]. pose proof (run_turns_acts s fuel turns n0) as Ha. by rewrite Hr in Ha.
Qed.
Lemma settle_fields o f p booted started s : settle o f p booted started = Some s ->
  Setup.options s = o /\ Setup.fleet s = f /\ Setup.keyring s = Provisioned.keyring p /\ Setup.group s = Provisioned.group p
  /\ Setup.signing s = Provisioned.signing p /\ Subject.content_hash (Setup.subject s) = CONTENT_HASH
  /\ Timestamp.as_secs (Subject.started_at (Setup.subject s)) = Options.clock_epoch o.
Proof.
  unfold settle, subject_of. destruct (Subject.new _ _ _ _ _) as [sub|] eqn:Hsub; [|done]. cbn [ok]. intros Hs.
  match type of Hs with _ = Some ?x => idtac | _ => idtac end. change (mbind (M:=option) ?k (Some sub)) with (k sub) in Hs.
  injection Hs as <-. unfold Subject.new in Hsub. destruct (_ || _); [done|]. injection Hsub as <-. by split_and!.
Qed.
(** A member of a manifest has put its name to the claim that began then: a frame sealed
    for the manifest's epoch and group, about that claim and no other -- its epoch, event,
    revision, content and start -- whose binding support its key in the manifest signs. *)
Definition vouched (m : Mf.t) (started i : Z) (member : Member.t) : Prop :=
  exists frame sequence wire received, let e := SignedCompactEnvelope.envelope received in
    open_frame (GroupKey.fixture_for_epoch (Mf.group_key_id m) (Mf.epoch m)) frame = Ok (i, sequence, wire)
    /\ decode_compact wire = Ok received
    /\ SignedCompactEnvelope.verify received (Member.key member) CONTENT_HASH = Ok tt
    /\ CompactEnvelope.author_index e = i /\ CompactEnvelope.sequence e = sequence
    /\ CompactEnvelope.mission_epoch e = Mf.epoch m /\ CompactEnvelope.event e = EVENT /\ CompactEnvelope.revision e = REVISION
    /\ CompactEnvelope.case e = case_reference CONTENT_HASH /\ CompactEnvelope.started_at e = started
    /\ stage_of (CompactEnvelope.stage e) = Some BindingSupport /\ verdict_of (CompactEnvelope.verdict e) = Some Support.

Lemma signed_vouched (s : Setup.t) (m : Mf.t) (a : Z) frame :
  Setup.keyring s = Member.key <$> Mf.members m -> Fleet.ids (Setup.fleet s) = Member.id <$> Mf.members m ->
  Fleet.mission_epoch (Setup.fleet s) = Mf.epoch m ->
  Setup.group s = GroupKey.fixture_for_epoch (Mf.group_key_id m) (Mf.epoch m) ->
  Subject.content_hash (Setup.subject s) = CONTENT_HASH -> signed_support s frame a ->
  exists member, Mf.members m !! Z.to_nat a = Some member /\ Setup.member_id s a = Member.id member
    /\ vouched m (Timestamp.as_secs (Subject.started_at (Setup.subject s))) a member.
Proof.
  intros Hkeys Hids Hepoch Hgroup Hhash (q & e & (received & key & Ho & He & Hsame & Ha & Hq & Hk & Hv) & Hst & Hvd).
  rewrite Hkeys, list_lookup_fmap in Hk. apply fmap_Some in Hk as (member & Hm & ->). exists member. split; [done|]. split.
  { unfold Setup.member_id, Fleet.id. by rewrite Hids, list_lookup_fmap, Hm. }
  unfold opened in Ho. rewrite Hgroup in Ho. destruct (open_frame _ frame) as [[[a' q'] wire]|] eqn:Hopen; [|done].
  destruct (decode_compact wire) as [x|] eqn:Hdec; [|done]. assert (a' = a /\ q' = q /\ x = received) as (-> & -> & ->) by (split_and!; congruence).
  unfold same_subject in Hsame. rewrite Hepoch, Hhash, !andb_true_iff, !Z.eqb_eq, bool_decide_eq_true in Hsame. rewrite Hhash in Hv.
  destruct Hsame as ((((Hep & Hev) & Hrev) & Hcase) & Hst'). exists frame, q, wire, received. rewrite He. by split_and!.
Qed.
End whole.

(** C1: What a vessel calls endorsed, its card vouches for. If a process started on a
    manifest ran at all and ended up holding an endorsement, then the manifest it read
    is the one the key typed from the card signs, in its window at the start; and at
    least as many of that manifest's own members as its policy asks for, with more than
    two thirds of its competence, have each put their name to this very claim -- the
    process's event and revision, its content, and the start its options give -- in a
    frame under the manifest's epoch and group, with the key the manifest lists for
    them.  No other key, file, option, journal or frame can stand in for one of them. *)
Theorem endorsement_traces_to_the_card {J R : Type}
    `{Digest, Ed25519, Aead, Serde SignedCompactEnvelope.t, Journal J, Radio R, Host}
    (file : str -> option str) (mode : str -> option Z) (o : Options.t) (unix booted started : Z)
    (opened_journal : option J) (r : R) (fuel turns : nat) (s : Setup.t) (n : Node.t J R) (finished : bool) (path : str) :
  Options.manifest o = Some path ->
  main file mode o unix booted started opened_journal r fuel turns = Ran s n finished ->
  endorsed s (Node.case n) = true ->
  exists card typed admin_bytes admin text m policy (X : gset str),
    Options.admin_key o = Some card /\ file card = Some typed /\ Hand.decode typed = Ok admin_bytes
    /\ VerifyingKey.from_bytes admin_bytes = Ok admin /\ file path = Some text /\ parse text = Ok m
    /\ Mf.verify m admin unix = Ok tt /\ Mf.policy m = Ok policy
    /\ min_signers policy <= Z.of_nat (size X) /\ 2 * total_competence policy < 3 * weight policy X
    /\ forall name, name ∈ X -> exists i member, Mf.members m !! Z.to_nat i = Some member /\ Member.id member = name /\ vouched m (Options.clock_epoch o) i member.
Proof.
  intros Hpath Hmain Hend. apply main_ran in Hmain as (o' & f & p & j & j' & Ha & Hs & _ & _ & _ & Hacts).
  destruct (settle_fields _ _ _ _ _ _ Hs) as (Hopt & Hfl & Hkr & Hgr & _ & Hhash & Hstart).
  unfold assemble in Ha. apply bind_Some in Ha as ([f' p'] & Hp & Ha). do 3 apply bind_Some in Ha as (? & _ & Ha).
  assert (f' = f /\ p' = p) as [-> ->] by (split; congruence).
  assert (Options.clock_epoch o' = Options.clock_epoch o) as Hclock by (assert (o' = Options.with_fleet o (Fleet.size f)) as -> by congruence; done).
  destruct (provision_trusts_the_card file mode o unix path f p Hpath Hp)
    as (card & typed & ab & admin & text & m & Hcard & Htyped & Hdec & Hadm & Htext & Hparse & Hver & _ & Hkeys & Hids & Hep & Hgroup & Hpol & _).
  destruct (endorsed_support s n (case_backed_acts s j' r n Hacts) Hend) as (X & _ & Hmin & Hweight & HX).
  exists card, typed, ab, admin, text, m, (Setup.policy s), X. unfold Setup.policy in *. rewrite Hfl in *. split_and!; try done.
  intros name Hin. destruct (HX name Hin) as (a & frame & -> & Hsup).
  destruct (signed_vouched s m a frame) as (member & Hm & Hname & Hvo); try done; [by rewrite Hkr|by rewrite Hfl|by rewrite Hfl|by rewrite Hgr|].
  exists a, member. rewrite Hstart, Hclock in Hvo. by split_and!.
Qed.
