(* ===== verification/NodeAir.v ===== *)
(** The air a node may use: over any run, everything its radio takes is within the legal
    hour.  The budget's own guarantee, carried through every place the node sends. *)
From S2P Require Import Prelude Time Contracts Quorum CaseState Replay Budget Journal MemoryJournal Queue Crypto.
From S2P Require Import Codec Radio Channel NodeConfig NodeSchedule NodeState NodeFrames NodeLoop NodeSteps.
From S2P Require Import NodeProofs NodeDemo.

(** A radio whose frames one can count: what it takes goes on the air, and reading it
    puts nothing there. *)
Class Transmitter (R : Type) `{Radio R} (aired : R -> list bytes) : Prop := {
  aired_taken r frame : (radio_transmit r frame).2 = Ok tt -> aired (radio_transmit r frame).1 = aired r ++ [frame];
  aired_refused r frame e : (radio_transmit r frame).2 = Err e -> aired (radio_transmit r frame).1 = aired r;
  aired_poll r : aired (radio_poll r).1 = aired r;
}.

Lemma airtime_in_u64 n : 0 <= n -> is_u64 (airtime_ms n).
Proof. intros Hn. pose proof (airtime_nonneg n). pose proof (airtime_longest n Hn). unfold LONGEST_MS in *. width. lia. Qed.

Section air.
Context {J R : Type} `{Digest, Ed25519, Aead, Serde SignedCompactEnvelope.t, Journal J, Radio R, Host}.
Context {aired : R -> list bytes} `{!Transmitter R aired}.
Context (s : Setup.t).
Local Notation state := (Node.t J R).
Hypothesis steady_clock : forall k k', (k <= k')%nat -> instant k <= instant k'.
Hypothesis scaled : 0 <= Options.scale (Setup.options s).

Lemma budget_ms_range at_ : is_u64 (budget_ms s at_).
Proof. unfold budget_ms, sat_mul64, as_millis, from_millis. pose proof (Z.div_pos (Z.max 0 (at_ - Setup.started s)) 1000000 ltac:(lia) ltac:(lia)). width. nia. Qed.
Lemma budget_ms_mono a b : a <= b -> budget_ms s a <= budget_ms s b.
Proof.
  intros Hab. unfold budget_ms, sat_mul64, as_millis.
  pose proof (Z.div_le_mono (Z.max 0 (a - Setup.started s)) (Z.max 0 (b - Setup.started s)) 1000000 ltac:(lia) ltac:(lia)).
  apply Z.min_le_compat_l || apply Z.min_le_compat_r || idtac. nia.
Qed.

(** When a charge was stamped. *)
Definition stamped (n : state) (e : Z * Z) : Prop := exists k, (k < Node.reads n)%nat /\ e.1 = budget_ms s (instant k).

Record spending (before : list bytes) (prior log : list (Z * Z)) (last : Z) (n : state) : Prop := {
  sp_metered : metered (Node.budget n) (prior ++ log) last;
  sp_requests : Forall request_ok (prior ++ log);
  sp_hours : forall t, spent_in t (prior ++ log) <= DUTY_CYCLE_BUDGET_MS;
  sp_last : forall k, (Node.reads n <= S k)%nat -> 0 <= last <= budget_ms s (instant k);
  sp_stamped : Forall (stamped n) log;
  sp_aired : exists sent, aired (Node.radio n) = before ++ sent /\ ((fun frame => airtime_ms (len frame)) <$> sent) `sublist_of` log.*2;
}.

Lemma spending_quiet before prior log last (n n' : state) : Node.budget n' = Node.budget n -> aired (Node.radio n') = aired (Node.radio n) ->
  (Node.reads n <= Node.reads n')%nat -> spending before prior log last n -> spending before prior log last n'.
Proof.
  intros Hb Hr Hle [Hm Hq Hh Hl Hs Ha]. constructor; [by rewrite Hb|done|done| | |by rewrite Hr].
  - intros k Hk. apply Hl. lia.
  - eapply Forall_impl; [exact Hs|]. intros e (k & Hk & He). exists k. split; [lia|done].
Qed.
Lemma spending_transmit before prior log last (n : state) (frame : bytes) now_ms b ok : read_at s n now_ms ->
  AirtimeBudget.transmit (Node.budget n) now_ms (airtime_ms (len frame)) = (b, ok) -> spending before prior log last n ->
  exists log', spending before prior log' now_ms (Node.set_budget b n)
    /\ log' = (if ok then log ++ [(now_ms, airtime_ms (len frame))] else log).
Proof.
  intros (k & Hk & Hnow) Ht [Hm Hq Hh Hl Hs Ha]. eexists. split; [|reflexivity].
  assert (0 <= last <= now_ms) as Hlast by (rewrite Hnow; apply Hl; lia).
  assert (request_ok (now_ms, airtime_ms (len frame))) as Hreq.
  { split; [rewrite Hnow; apply budget_ms_range|apply airtime_in_u64; unfold len; lia]. }
  pose proof (metered_transmit _ _ last now_ms _ Hm ltac:(lia) Hq Hreq) as Hm'. rewrite Ht in Hm'.
  assert (Forall request_ok (prior ++ if ok then log ++ [(now_ms, airtime_ms (len frame))] else log)) as Hq'.
  { destruct ok; [rewrite (assoc_L (++)); apply Forall_app_2; [done|by constructor]|done]. }
  assert (metered b (prior ++ if ok then log ++ [(now_ms, airtime_ms (len frame))] else log) now_ms) as Hm2 by (destruct ok; [by rewrite (assoc_L (++))|done]).
  constructor; [done|done| | | |].
  - intros t. destruct (decide (now_ms <= t + DUTY_CYCLE_WINDOW_MS)); [by apply (metered_hour b _ now_ms)|].
    destruct ok; [|apply Hh]. rewrite (assoc_L (++)), spent_in_snoc by lia. apply Hh.
  - change (Node.reads (Node.set_budget b n)) with (Node.reads n). intros k' Hk'. split; [lia|]. rewrite Hnow. apply budget_ms_mono, steady_clock. lia.
  - destruct ok; [|done]. apply Forall_app_2; [done|]. constructor; [|constructor]. exists k.
    change (Node.reads (Node.set_budget b n)) with (Node.reads n). split; [lia|done].
  - destruct Ha as (sent & Ha & Hsub). exists sent. split; [done|]. destruct ok; [|done]. rewrite fmap_app. by apply sublist_inserts_r.
Qed.

Lemma spending_act before prior (n n' : state) : act s n n' ->
  (exists log last, spending before prior log last n) -> exists log last, spending before prior log last n'.
Proof.
  intros Ha (log & last & Hsp). destruct Ha as [n' Hc Hr| | | | | | | | | | | | | | | |frame now_ms b Hat Hb|frame now_ms b Hat Hb];
    lazymatch goal with | |- context [radio_transmit] => idtac | |- context [AirtimeBudget.used_ms] => idtac | |- context [radio_poll] => idtac | |- _ => try (exists log, last; apply (spending_quiet before prior log last n); [reflexivity|reflexivity|exact (le_n _)|exact Hsp]) end.
  - exists log, last. eapply spending_quiet; [exact (f_equal k_budget Hc)|by rewrite (f_equal k_radio Hc : Node.radio n' = Node.radio n)|done|done].
  - exists log, last. apply (spending_quiet before prior log last n); [reflexivity|apply aired_poll|exact (le_n _)|exact Hsp].
  - destruct (spending_transmit before prior log last n frame now_ms b true Hat Hb Hsp) as (log' & [Hm Hq Hh Hl Hs (sent & Hair & Hsub)] & ->).
    eexists _, now_ms. constructor; try done.
    change (Node.radio (Node.set_radio ?r _)) with r. destruct Hsp as [_ _ _ _ _ (sent0 & Hair0 & Hsub0)].
    destruct (radio_transmit (Node.radio n) frame).2 as [[]|e] eqn:Htk.
    + exists (sent0 ++ [frame]). rewrite aired_taken by done. rewrite Hair0, (assoc_L (++)). split; [done|]. rewrite !fmap_app, !list_fmap_singleton.
      cbn [snd]. apply sublist_app; [exact Hsub0|reflexivity].
    + exists sent0. rewrite (aired_refused _ _ e) by done. split; [done|]. rewrite fmap_app. by apply sublist_inserts_r.
  - destruct (spending_transmit before prior log last n frame now_ms b false Hat Hb Hsp) as (log' & [Hm Hq Hh Hl Hs Ha] & ->).
    exists log, now_ms. constructor; try done. change (Node.budget (Node.set_budget ?x _)) with x.
    destruct Hat as (k & Hk & Hnow). pose proof (Hl k (eq_ind _ (fun m => (m <= S k)%nat) (le_n _) _ (eq_sym Hk))).
    apply (metered_evict b _ now_ms now_ms Hm); [lia|lia|done].
Qed.

Definition prior_charge (prior : Z) : list (Z * Z) := if 0 <? prior then [(0, prior)] else [].
Lemma spending_start j r : 0 <= Options.prior_airtime_ms (Setup.options s) <= DUTY_CYCLE_BUDGET_MS ->
  spending (aired r) (prior_charge (Options.prior_airtime_ms (Setup.options s))) [] 0 (start s j r).
Proof.
  intros Hp. unfold prior_charge. set (prior := Options.prior_airtime_ms _) in *. constructor.
  - change (Node.budget (start s j r)) with (AirtimeBudget.with_prior prior). rewrite app_nil_r. destruct (Z.ltb_spec 0 prior).
    + apply metered_prior. lia.
    + unfold AirtimeBudget.with_prior. destruct (Z.ltb_spec 0 prior); [lia|]. apply metered_new.
  - rewrite app_nil_r. destruct (Z.ltb_spec 0 prior); [|constructor]. constructor; [|constructor]. unfold request_ok, DUTY_CYCLE_BUDGET_MS in *. cbn. width. lia.
  - intros t. rewrite app_nil_r. destruct (0 <? prior); unfold spent_in, DUTY_CYCLE_BUDGET_MS in *; [rewrite filter_cons; case_decide; cbn; lia|cbn; lia].
  - intros k _. pose proof (budget_ms_range (instant k)). width. lia.
  - constructor.
  - exists []. rewrite app_nil_r. split; [done|apply sublist_nil_l].
Qed.
End air.

(** C9: The law on the air holds of the whole process. Over any run of a node, on any
    journal and any radio, whatever it hears and whichever adversary it plays -- a
    jammer too -- the frames its radio took are, airtime by airtime, charged to one
    ledger stamped by its clock, which never goes back, and no hour of that ledger holds
    more than thirty-six seconds, counting what the node had already used before it
    started, if that was lawful itself. *)
Theorem node_obeys_duty_cycle {J R : Type}
    `{Digest, Ed25519, Aead, Serde SignedCompactEnvelope.t, Journal J, Radio R, Host}
    {aired : R -> list bytes} `{!Transmitter R aired}
    (s : Setup.t) (fuel turns : nat) (j : J) (r : R) :
  (forall k k', (k <= k')%nat -> instant k <= instant k') -> 0 <= Options.scale (Setup.options s) ->
  0 <= Options.prior_airtime_ms (Setup.options s) <= DUTY_CYCLE_BUDGET_MS ->
  let n := (run_turns s fuel turns (start s j r)).1 in
  exists sent ledger, aired (Node.radio n) = aired r ++ sent
    /\ ((fun frame => airtime_ms (len frame)) <$> sent) `sublist_of` ledger.*2
    /\ Forall (stamped s n) ledger
    /\ forall t, spent_in t (prior_charge (Options.prior_airtime_ms (Setup.options s)) ++ ledger) <= DUTY_CYCLE_BUDGET_MS.
Proof.
  intros Hclock Hscale Hprior n.
  assert (exists log last, spending (aired:=aired) s (aired r) (prior_charge (Options.prior_airtime_ms (Setup.options s))) log last n)
    as (log & last & [_ _ Hh _ Hs (sent & Ha & Hsub)]).
  { apply (acts_invariant s (fun n => exists log last, spending (aired:=aired) s (aired r) _ log last n) (start s j r) n).
    - intros n1 n2. by apply spending_act.
    - apply run_turns_acts.
    - exists [], 0. by apply spending_start. }
  by exists sent, log.
Qed.
