(* ===== verification/NodeVotes.v ===== *)
(** A node's own vote: cast once whatever happens to the process, believed by everyone
    who shares its fleet, and the two ways a restart loses one. *)
From S2P Require Import Prelude Time Contracts Quorum CaseState Replay Budget Journal MemoryJournal LogJournal.
From S2P Require Import LogSafety Queue Crypto Codec WireDemo Radio Channel NodeConfig NodeState NodeFrames NodeLoop.
From S2P Require Import NodeSteps NodeProofs NodeDemo.

(** * The outbox *)

(** What a journal owes the node that resends from it: only a vote, an
    acknowledgement or an expiry touches the outbox, and a vote enters an empty one
    alone. *)
Class OutboxLaws (J : Type) `{Journal J} : Prop := {
  outbox_kept (j : J) op : match op with OpReserve | OpWitness _ _ | OpEnterEpoch _ | OpMarkSeen _ _ => True | _ => False end ->
    pending (apply_op j op) = pending j;
  outbox_first (j : J) s v f : pending j = [] -> (commit_vote j s v f).2 = Ok tt -> pending (commit_vote j s v f).1 = [f];
}.

Lemma values_empty `{Countable K, KeyOrder K} {A} (m : gmap K A) : values m = [] -> m = ∅.
Proof.
  intros Hv. apply map_empty. intros k. destruct (m !! k) as [x|] eqn:Hk; [|done].
  assert (x ∈ values m) as Hin by (apply elem_of_values; eauto). rewrite Hv in Hin. by apply not_elem_of_nil in Hin.
Qed.
Lemma values_one `{Countable K, KeyOrder K} {A} (k : K) (x : A) : values (<[k := x]> (∅ : gmap K A)) = [x].
Proof. unfold values, entries. rewrite insert_empty, map_to_list_singleton. reflexivity. Qed.

#[global] Instance memory_outbox : OutboxLaws MemoryJournal.t.
Proof.
  split.
  - intros j [s v f| |n|now|a f|e|s n] Hop; try done; simpl.
    + unfold MemoryJournal.witness. by destruct (MemoryJournal.witnessed_ j !! a).
    + unfold MemoryJournal.enter_epoch. by destruct (match MemoryJournal.epoch_ j with Some _ => _ | None => _ end).
  - intros j s v f Hp%values_empty. simpl. unfold MemoryJournal.commit_vote. case_bool_decide; [done|]. intros _.
    unfold MemoryJournal.pending. cbn. rewrite Hp. apply values_one.
Qed.
#[global] Instance log_outbox `{Postcard} : OutboxLaws Log.t.
Proof.
  split.
  - intros j [s v f| |n|now|a f|e|s n] Hop; try done; simpl.
    + unfold Log.reserve_sequence, Log.pending. by append_cases.
    + unfold Log.witness, Log.pending. destruct (_ !! a); [done|]. by append_cases.
    + unfold Log.enter_epoch, Log.pending. destruct (match State.epoch _ with Some _ => _ | None => _ end); [done|]. by append_cases.
    + unfold Log.mark_seen, Log.pending. destruct (match _ !! s with Some _ => _ | None => _ end); [done|]. by append_cases.
  - intros j s v f Hp%values_empty. simpl. unfold Log.commit_vote. case_bool_decide; [done|].
    append_cases; [|done]. intros _. unfold Log.pending. rewrite compact_if_large_state. simpl. rewrite Hp. apply values_one.
Qed.

(** * One vote *)

Section once.
Context {J R : Type} `{Digest, Ed25519, Aead, Serde SignedCompactEnvelope.t, HJ : Journal J, Radio R, Host}.
Context {held : J -> gset str} {good : J -> Prop} `{!JournalLaws J held good, !OutboxLaws J}.
Context (s : Setup.t).
Local Notation voter := (Setup.member_id s (Setup.index s)).
Local Notation subject := (Setup.subject s).

(** The node's own vote is cast: the lock is taken and the outbox holds that frame. *)
Definition cast (f : OutgoingFrame.t) (j : J) : Prop := has_voted j subject voter = true /\ pending j = [f].

Lemma cast_op f j op : match op with OpCommit x v _ => x = subject /\ v = voter | OpAck _ | OpDrop _ => False | _ => True end ->
  cast f j -> cast f (apply_op j op).
Proof.
  unfold cast. rewrite !(law_has_voted (held:=held) (good:=good)). intros Hop [Hl%bool_decide_eq_true Hp].
  rewrite bool_decide_eq_true. split; [by apply (law_locks_kept (held:=held) (good:=good))|].
  destruct op as [x v g| |k|at_|a g|e|a k]; try done; [|by rewrite outbox_kept..]. destruct Hop as [-> ->]. simpl.
  destruct (commit_vote j subject voter g).2 as [[]|e] eqn:Hc.
  - by destruct (law_commit_ok (held:=held) (good:=good) _ _ _ _ Hc).
  - by destruct (law_commit_err (held:=held) (good:=good) _ _ _ _ _ Hc) as [-> _].
Qed.
Lemma cast_act f (n n' : Node.t J R) : act s n n' -> cast f (Node.journal n) -> cast f (Node.journal n').
Proof.
  intros Ha Hc. destruct Ha as [n' Hcore _| |key e frame _ _ _ _|sender q|frame a _| | | | | | | | | | | | | ]; try exact Hc.
  - by rewrite (f_equal k_journal Hcore : Node.journal n' = Node.journal n).
  - by apply (cast_op f (Node.journal n) OpReserve).
  - by apply (cast_op f (Node.journal n) (OpCommit subject voter (OutgoingFrame.new frame (CompactEnvelope.sequence e)))).
  - by apply (cast_op f (Node.journal n) (OpMarkSeen sender q)).
  - by apply (cast_op f (Node.journal n) (OpWitness (Setup.member_id s a) frame)).
Qed.

(** What may happen to the journal from life to life of the process: a run of the main
    loop stopped anywhere, and a start that enters the mission's epoch. *)
Inductive life : J -> J -> Prop :=
| life_run j r n : acts s (start s j r : Node.t J R) n -> life j (Node.journal n)
| life_enter j j' : enter s j = Some j' -> life j j'.

Lemma cast_life f j j' : life j j' -> cast f j -> cast f j'.
Proof.
  intros [k r n Ha|k k' He] Hc.
  - assert (cast f (Node.journal (start s k r : Node.t J R))) as Hs by exact Hc. clear Hc.
    induction Ha as [|n1 n2 n3 Hstep _ IH]; [done|]. apply IH. by eapply cast_act.
  - unfold enter in He. destruct (match epoch k with Some _ => _ | None => _ end); [done|].
    pose proof (cast_op f k (OpEnterEpoch (Fleet.mission_epoch (Setup.fleet s))) I Hc) as Hk. simpl in Hk.
    destruct (enter_epoch k _) as [j1 [[]|]]; [|done]. by assert (k' = j1) as -> by congruence.
Qed.

(** What building a binding vote does, when nothing holds the lock. *)
Lemma build_first heard round (n n' : Node.t J R) frame : Options.adversary (Setup.options s) <> DoubleVote ->
  has_voted (Node.journal n) subject voter = false ->
  build s BindingSupport heard round n = (n', Ok (Ok frame)) ->
  exists q e, (reserve_sequence (Node.journal n)).2 = Ok q
    /\ e = CompactEnvelope.in_round (CompactEnvelope.acknowledging (envelope s 3 1 q)
             (if bool_decide (Options.adversary (Setup.options s) = LieAcks) then everyone else heard)) round
    /\ sealed s (default (Setup.signing s) (Setup.forged s)) e = Ok frame /\ len frame <= MAX_FRAME_BYTES
    /\ (commit_vote (reserve_sequence (Node.journal n)).1 subject voter (OutgoingFrame.new frame q)).2 = Ok tt
    /\ Node.journal n' = (commit_vote (reserve_sequence (Node.journal n)).1 subject voter (OutgoingFrame.new frame q)).1.
Proof.
  intros Hadv Hv. unfold build. rewrite bind_get, Hv. cbv zeta. rewrite (bool_decide_eq_true_2 (BindingSupport = BindingSupport)) by done.
  cbn [andb negb]. unfold mbind, m_bind, with_journal. destruct (reserve_sequence (Node.journal n)) as [j1 [q|e]] eqn:Hr; [|done].
  destruct (sealed _ _ _) as [g|] eqn:Hs; [|done]. destruct (Z.ltb_spec MAX_FRAME_BYTES (len g)); [done|].
  change (Node.journal (Node.set_journal j1 n)) with j1.
  destruct (commit_vote j1 subject voter (OutgoingFrame.new g q)) as [j2 [[]|]] eqn:Hc; [|done].
  unfold mret, m_ret. intros Heq. assert (g = frame /\ n' = Node.set_journal j2 (Node.set_journal j1 n)) as [-> ->] by (split; congruence).
  exists q. eexists. split; [done|]. split; [reflexivity|]. split; [exact Hs|]. split; [done|].
  cbn [fst]. rewrite Hc. split; done.
Qed.
Lemma build_again heard round (n : Node.t J R) f : Options.adversary (Setup.options s) <> DoubleVote ->
  cast f (Node.journal n) -> build s BindingSupport heard round n = (n, Ok (Ok (OutgoingFrame.frame_bytes f))).
Proof.
  intros Hadv [Hv Hp]. unfold build. rewrite bind_get, Hv. cbv zeta. rewrite (bool_decide_eq_true_2 (BindingSupport = BindingSupport)) by done.
  rewrite (bool_decide_eq_false_2 (_ = DoubleVote)) by done. cbn [andb negb]. unfold get. by rewrite Hp.
Qed.
Lemma build_casts heard round (n n' : Node.t J R) frame : Options.adversary (Setup.options s) <> DoubleVote ->
  has_voted (Node.journal n) subject voter = false -> pending (Node.journal n) = [] ->
  build s BindingSupport heard round n = (n', Ok (Ok frame)) ->
  exists q, cast (OutgoingFrame.new frame q) (Node.journal n').
Proof.
  intros Hadv Hv Hp Hb. destruct (build_first heard round n n' frame Hadv Hv Hb) as (q & e & Hr & _ & _ & _ & Hc & Hj).
  exists q. rewrite Hj. split.
  - rewrite (law_has_voted (held:=held) (good:=good)). apply bool_decide_eq_true.
    by destruct (law_commit_ok (held:=held) (good:=good) _ _ _ _ Hc) as (_ & ? & _).
  - apply outbox_first; [|done]. change (reserve_sequence (Node.journal n)).1 with (apply_op (Node.journal n) OpReserve). by rewrite outbox_kept.
Qed.
End once.

(** C4: An honest node speaks its vote in one frame, ever. Once a binding vote is built
    on an empty outbox, then after any number of further turns, of restarts, of new
    rounds and of acknowledgements not heard, on any journal that keeps the trait's
    laws, building the vote again yields those very bytes and touches nothing. *)
Theorem vote_is_cast_once {J R : Type}
    `{Digest, Ed25519, Aead, Serde SignedCompactEnvelope.t, Journal J, Radio R, Host}
    {held : J -> gset str} {good : J -> Prop} `{!JournalLaws J held good, !OutboxLaws J}
    (s : Setup.t) (heard heard' : Heard.t) (round round' : RoundId.t) (n n1 n2 : Node.t J R) (frame : bytes) :
  Options.adversary (Setup.options s) <> DoubleVote ->
  has_voted (Node.journal n) (Setup.subject s) (Setup.member_id s (Setup.index s)) = false ->
  pending (Node.journal n) = [] ->
  build s BindingSupport heard round n = (n1, Ok (Ok frame)) ->
  rtc (life (R:=R) s) (Node.journal n1) (Node.journal n2) ->
  build s BindingSupport heard' round' n2 = (n2, Ok (Ok frame)).
Proof.
  intros Hadv Hv Hp Hb Hlives. destruct (build_casts (held:=held) (good:=good) s heard round n n1 frame Hadv Hv Hp Hb) as [q Hc].
  assert (cast s (OutgoingFrame.new frame q) (Node.journal n2)) as Hc2.
  { clear Hb. induction Hlives as [|j1 j2 j3 Hl _ IH]; [done|]. apply IH. by eapply (cast_life (held:=held) (good:=good)). }
  apply (build_again s heard' round' n2 (OutgoingFrame.new frame q) Hadv Hc2).
Qed.

(** * Frames between members *)

Section exchange.
Context {J R : Type} `{Dg : Digest, !Ed25519, !Ed25519Laws, !Aead, !AeadLaws, !Serde SignedCompactEnvelope.t, !SerdeLaws SignedCompactEnvelope.t,
  !Journal J, !Radio R, !Host}.

(** Two members of one fleet, deliberating one subject, under one group key; the
    receiver knows the sender's key. *)
Record fellows (s s' : Setup.t) : Prop := {
  fe_fleet : Fleet.mission_epoch (Setup.fleet s) = Fleet.mission_epoch (Setup.fleet s');
  fe_subject : Setup.subject s = Setup.subject s';
  fe_group : Setup.group s = Setup.group s';
  fe_key : Setup.keyring s' !! Z.to_nat (Setup.index s) = Some (verifying_key (Setup.signing s));
  fe_index : 0 <= Setup.index s < U16_MAX;
}.

Lemma sealed_genuine s s' stage verdict q heard round frame :
  fellows s s' -> is_u64 q ->
  let e := CompactEnvelope.in_round (CompactEnvelope.acknowledging (envelope s stage verdict q) heard) round in
  sealed s (Setup.signing s) e = Ok frame -> genuine s' frame (Setup.index s) q e.
Proof.
  intros [Hfl Hsub Hgr Hkey Hi] Hq e Hs. unfold sealed in Hs. apply result_bind_ok in Hs as (wire & Henc & Hseal).
  assert (author_of (Setup.index s) = Setup.index s) as Hau by (unfold author_of; destruct (Z.leb_spec (Setup.index s) U16_MAX); [done|lia]).
  rewrite Hau in Hseal. change (CompactEnvelope.sequence e) with q in Hseal. apply ok_or_ok in Henc.
  exists (sign_compact e (Setup.signing s) (Subject.content_hash (Setup.subject s))), (verifying_key (Setup.signing s)).
  assert (open_frame (Setup.group s') frame = Ok (Setup.index s, q, wire)) as Hopen.
  { rewrite <- Hgr. apply open_sealed; [width; lia|done|done]. }
  split_and!; try done.
  - unfold opened. rewrite Hopen. unfold decode_compact. by rewrite (serde_roundtrip _ _ Henc).
  - unfold same_subject, e. cbn. rewrite Hfl, Hsub, !Z.eqb_refl. by rewrite bool_decide_eq_true_2.
  - unfold SignedCompactEnvelope.verify, VerifyingKey.verify. rewrite Hsub. cbn. unfold SigningKey.sign. by rewrite ed_verify_sign.
Qed.
End exchange.

(** C8: What an honest member says, its fellows hear. A frame it builds for a stage, its
    vote on the claim not cast yet, is genuine to every member of the fleet that names its key and shares the subject and
    the group key, under the sequence the journal reserved; reading it teaches them who
    said it, in which round, whom the sender has heard; and their case takes it exactly
    as the state machine takes the opinion it carries -- a binding vote that the state
    machine accepts is a supporter counted. *)
Theorem built_frame_is_heard {J J' R R' : Type}
    `{Dg : Digest, !Ed25519, !Ed25519Laws, !Aead, !AeadLaws, !Serde SignedCompactEnvelope.t, !SerdeLaws SignedCompactEnvelope.t,
      !Journal J, !Radio R, !Journal J', !Radio R', !Host}
    (s s' : Setup.t) (stage : Stage) (heard : Heard.t) (round : RoundId.t) (n n1 : Node.t J R) (m : Node.t J' R') (frame : bytes) :
  fellows s s' -> Options.adversary (Setup.options s) = Honest -> Setup.forged s = None ->
  (forall q, (reserve_sequence (Node.journal n)).2 = Ok q -> is_u64 q) ->
  has_voted (Node.journal n) (Setup.subject s) (Setup.member_id s (Setup.index s)) = false ->
  build s stage heard round n = (n1, Ok (Ok frame)) ->
  exists q e m' learned, (reserve_sequence (Node.journal n)).2 = Ok q /\ len frame <= MAX_FRAME_BYTES
    /\ genuine s' frame (Setup.index s) q e
    /\ admit_frame s' frame m = (m', Ok learned)
    /\ AdmittedFrame.verified learned = Some (Setup.index s, q) /\ AdmittedFrame.round learned = round /\ AdmittedFrame.heard learned = heard
    /\ AdmittedFrame.acknowledges_us learned = Heard.contains heard (Setup.index s')
    /\ match Case.accept (Node.case m) (Opinion.new (Setup.member_id s' (Setup.index s)) (Setup.subject s') stage Support)
              (Clk.reading (Node.clock m) (instant (Node.reads m))) with
       | Ok case => Node.case m' = case
           /\ AdmittedFrame.binding_from learned = (if bool_decide (stage = BindingSupport) then Some (Setup.index s) else None)
       | Err err => Node.case m' = Node.case m /\ AdmittedFrame.refused learned = Some err
       end.
Proof.
  intros Hfe Hadv Hfg Hrange Hv Hb. unfold build in Hb. rewrite bind_get, Hv, andb_false_r, Hadv, Hfg in Hb. cbv zeta in Hb. cbn [andb negb default from_option] in Hb.
  rewrite (bool_decide_eq_false_2 (Honest = LieAcks)) in Hb by done.
  unfold mbind, m_bind, with_journal in Hb. destruct (reserve_sequence (Node.journal n)) as [j1 [q|e]] eqn:Hr; [|done].
  specialize (Hrange q eq_refl). destruct (sealed _ _ _) as [g|] eqn:Hs; [|done]. destruct (Z.ltb_spec MAX_FRAME_BYTES (len g)); [done|].
  assert (g = frame) as ->.
  { destruct (bool_decide (stage = BindingSupport)); cbn [andb negb] in Hb.
    - change (Node.journal (Node.set_journal j1 n)) with j1 in Hb. destruct (commit_vote _ _ _ _) as [j2 [u|]]; unfold mret, m_ret in Hb; congruence.
    - unfold mret, m_ret in Hb. congruence. }
  pose proof (sealed_genuine s s' (stage_code stage) 1 q heard round frame Hfe Hrange Hs) as Hg.
  destruct (admit_genuine s' frame _ q _ m Hg) as (m' & learned & Hadm & Hver & Hrd & Hhd & _ & Hack & _ & Hcase).
  eexists q, _, m', learned. split; [done|]. split; [done|]. split; [exact Hg|]. split; [exact Hadm|]. split; [exact Hver|].
  split; [exact Hrd|]. split; [exact Hhd|]. split; [exact Hack|]. revert Hcase. cbn [CompactEnvelope.stage CompactEnvelope.verdict CompactEnvelope.in_round
    CompactEnvelope.acknowledging envelope CompactEnvelope.new]. rewrite stage_of_code. change (verdict_of 1) with (Some Support). cbv iota.
  destruct (Case.accept _ _ _) as [case|err]; intros (Hc & Hx1 & Hx2); by split.
Qed.

(** A round is what its opening says it is, and only its opener can say it. The
    frame a member opens a round with, labelled with its own seat and the sequence the
    journal is about to reserve, is read by every fellow as exactly that round; and
    whenever anything at all is read as an opening, the member the label names has
    signed it, under the very sequence the label names. *)
Theorem opening_names_its_round {J J' R R' : Type}
    `{Dg : Digest, !Ed25519, !Ed25519Laws, !Aead, !AeadLaws, !Serde SignedCompactEnvelope.t, !SerdeLaws SignedCompactEnvelope.t,
      !Journal J, !Radio R, !Journal J', !Radio R', !Host}
    (s s' : Setup.t) (n n1 : Node.t J R) (m : Node.t J' R') (q : Z) (frame : bytes) :
  fellows s s' -> (reserve_sequence (Node.journal n)).2 = Ok q -> is_u32 q ->
  build_trigger s (RoundId.new (author_of (Setup.index s)) q) n = (n1, Ok (Ok frame)) ->
  (trigger_round s' frame m).2 = Ok (Some (RoundId.new (Setup.index s) q, Setup.index s, q))
  /\ (forall other round a k, (trigger_round s' other m).2 = Ok (Some (round, a, k)) ->
        exists e, genuine s' other a k e /\ CompactEnvelope.stage e = TRIGGER_STAGE
          /\ CompactEnvelope.round e = round /\ round = RoundId.new a k).
Proof.
  intros Hfe Hr Hq Hb. split.
  - unfold build_trigger, mbind, m_bind, with_journal in Hb. destruct (reserve_sequence (Node.journal n)) as [j1 r]. cbn [snd] in Hr.
    rewrite Hr in Hb. unfold mret, m_ret in Hb. destruct (sealed _ _ _) as [g|] eqn:Hs; cbn [map_err] in Hb; [|congruence].
    assert (g = frame) as -> by congruence. assert (is_u64 q) as Hq64 by (width; lia).
    pose proof (sealed_genuine s s' TRIGGER_STAGE 0 q Heard.none (RoundId.new (author_of (Setup.index s)) q) frame Hfe Hq64 Hs)
      as (received & key & Ho & He & Hsame & Ha & Hsq & Hk & Hv).
    assert (author_of (Setup.index s) = Setup.index s) as Hau.
    { pose proof (fe_index s s' Hfe). unfold author_of. destruct (Z.leb_spec (Setup.index s) U16_MAX); [done|lia]. }
    unfold trigger_round. rewrite Ho. cbv zeta. rewrite He, Hsame, Ha, Hsq. cbn [negb orb CompactEnvelope.stage CompactEnvelope.in_round
      CompactEnvelope.acknowledging envelope CompactEnvelope.new]. rewrite Z.eqb_refl. cbn [negb orb].
    rewrite (bind_ok _ _ _ _ _ (signed_by_genuine s' received _ key m Hk Hv)). unfold mret, m_ret. cbn [snd negb].
    cbn [CompactEnvelope.round CompactEnvelope.in_round RoundId.opener RoundId.sequence]. by rewrite Hau, !Z.eqb_refl.
  - intros other round a k Ht. pose proof (proj2 (runs_trigger_round s' other m) _ Ht) as (e & Hg & Ho & Hsq & Hst & Hrd).
    exists e. split_and!; try done. destruct round. cbn in Ho, Hsq. by subst.
Qed.

(** * What a restart loses *)

(** C40: After a restart a vote that is still on its way is refused for ever. The journal
    remembers one number per member, and the windows of the next life start with
    everything up to it seen: if a member had been heard under a later number than its
    vote's -- a repair request is one -- then that vote, which its author can only
    resend unchanged, is dropped at its header on every turn of the new life, though the
    window before the restart would have taken it. *)
Theorem restart_forfeits_a_resent_vote {J R : Type}
    `{Digest, Ed25519, Aead, Serde SignedCompactEnvelope.t, Journal J, Radio R, Host}
    (s : Setup.t) (fuel turns : nat) (anchor : Z) (j : J) (r : R) (vote : bytes) (a q h : Z) :
  0 <= a < Options.fleet (Setup.options s) -> a <= U16_MAX -> highest_seen j a = Some h ->
  peek_frame_header vote = Ok (a, q) -> q < h ->
  let n := (run_turns s (S fuel) turns (start s j r)).1 in
  (h - q < REPLAY_WINDOW -> ReplayWindow.seen (ReplayWindow.mark ReplayWindow.new h) q = false)
  /\ is_replay vote (Node.windows n) = true
  /\ (delivers n vote -> let '(n', outcome) := hear s (S fuel) anchor n in
        outcome = Err Continue /\ Node.case n' = Node.case n /\ Node.early n' = Node.early n).
Proof.
  intros Ha Ha16 Hseen Hp Hlt n. split.
  - intros Hnear. apply not_true_is_false. intros Hs. pose proof remembers_new as Hn.
    assert (ReplayWindow.seen ReplayWindow.new h = false) as Hf by done. pose proof (mark_fresh _ _ h Hn Hf) as Hm.
    apply (seen_remembers _ _ q Hm) in Hs as (x & Hx & Hle & [Hold|[[]|Heq]]); [|lia].
    unfold ReplayWindow.mark, ReplayWindow.new in Hx. cbn in Hx. assert (x = h) as -> by congruence. lia.
  - assert (marked a q (start s j r)) as Hm0.
    { exists (ReplayWindow.resumed h). split.
      - unfold start, Node.windows. cbn [Node.poll Poll.windows]. unfold windows_of. rewrite list_lookup_fmap, lookup_seqZ_lt by lia. cbn [fmap option_fmap option_map].
        rewrite Z.add_0_l, Z2Nat.id by lia. rewrite Hseen. by destruct (Z.ltb_spec U16_MAX a); [lia|].
      - apply (seen_in _ (fun x => x <= h)); [apply remembers_resumed|lia]. }
    destruct (marked_acts s a q _ n (run_turns_acts s (S fuel) turns (start s j r)) (windows_sound_start s j r) Hm0) as [_ Hm].
    apply (marked_is_replay vote a q n Hp) in Hm. split; [done|]. intros Hd.
    unfold hear. rewrite (bind_ok _ _ _ _ _ (receive_delivers s fuel n vote Hd)), bind_get.
    change (Node.windows (Node.set_radio ?x n)) with (Node.windows n). by rewrite Hm.
Qed.

(** A fleet's second claim, on the journal of its first. *)
Definition earlier_setup (size index : Z) : Setup.t :=
  let s := demo_setup size index in
  {| Setup.options := Setup.options s; Setup.fleet := Setup.fleet s;
     Setup.subject := Subject.mk (lit "mission") (lit "evt-0") 0 CONTENT_HASH (Timestamp.from_secs 990000);
     Setup.keyring := Setup.keyring s; Setup.signing := Setup.signing s; Setup.forged := None;
     Setup.group := Setup.group s; Setup.booted := 0; Setup.started := 0 |}.

#[local] Existing Instances toy_digest toy_ed25519 clear_aead wide_serde memory_journal leaping_host.

Definition built {J R} (x : Node.t J R * result Stop (result BuildError bytes)) : bytes :=
  match x.2 with Ok (Ok frame) => frame | _ => [] end.

(** What a retransmission sends is the oldest frame of the outbox, not the frame of the
    vote that holds the lock: on a journal that took a vote on an earlier claim, the
    vote goes out once, and every repetition of it is the earlier claim's frame, which
    every fellow refuses. *)
Theorem stale_outbox_is_resent :
  let s := demo_setup 3 0 in let round := RoundId.new 0 0 in
  let first := build (earlier_setup 3 0) BindingSupport Heard.none round
                 (start (earlier_setup 3 0) MemoryJournal.default_ (Tape.mk [] [])) in
  let n := start s (Node.journal first.1) (Tape.mk [] []) in
  let cast := build s BindingSupport Heard.none round n in
  let again := build s BindingSupport Heard.none round cast.1 in
  has_voted (Node.journal n) demo_subject (lit "n0") = false
  /\ has_voted (Node.journal cast.1) demo_subject (lit "n0") = true
  /\ len (built cast) = 140
  /\ built again = built first /\ built again <> built cast
  /\ (admit_frame (demo_setup 3 1) (built cast) (demo_start 3 1 MemoryJournal.default_ [])).2 <> Ok AdmittedFrame.default
  /\ (admit_frame (demo_setup 3 1) (built again) (demo_start 3 1 MemoryJournal.default_ [])).2 = Ok AdmittedFrame.default.
Proof. split_and!; try (vm_compute; reflexivity); vm_compute; discriminate. Qed.
