(* ===== verification/NodeEpoch.v ===== *)
(** Anti-rollback: from life to life of a journal the epoch it has run under only
    rises, so a process handed a manifest of an earlier epoch never gets as far as
    sealing a frame. *)
From S2P Require Import Prelude Time Contracts Quorum CaseState Replay Budget Journal MemoryJournal LogJournal.
From S2P Require Import LogSafety Queue Crypto Codec Radio Channel NodeConfig NodeSchedule NodeState NodeFrames.
From S2P Require Import NodeLoop NodeSteps NodeProofs NodeMain NodeDemo NodeVotes.

(** What a journal owes the process that enters an epoch in it: nothing else moves the
    epoch, and entering never lowers it. *)
Class EpochLaws (J : Type) `{Journal J} : Prop := {
  epoch_kept (j : J) op : match op with OpEnterEpoch _ => False | _ => True end -> epoch (apply_op j op) = epoch j;
  epoch_entered (j : J) e : (enter_epoch j e).2 = Ok tt ->
    epoch (enter_epoch j e).1 = Some (match epoch j with Some held => Z.max held e | None => e end);
  epoch_not_entered (j : J) e err : (enter_epoch j e).2 = Err err -> epoch (enter_epoch j e).1 = epoch j;
}.

#[global] Instance memory_epoch : EpochLaws MemoryJournal.t.
Proof.
  split.
  - intros j [s v f| |n|now|a f|e|s n] Hop; try done; simpl.
    all: unfold MemoryJournal.commit_vote, MemoryJournal.acknowledge, MemoryJournal.witness; by repeat case_match.
  - intros j e. simpl. unfold MemoryJournal.enter_epoch. destruct (MemoryJournal.epoch_ j) as [held|] eqn:Hj.
    + destruct (Z.leb_spec e held); intros _; cbn [fst]; [rewrite Hj; f_equal; lia|]. cbn. f_equal. lia.
    + by intros _.
  - intros j e err. simpl. unfold MemoryJournal.enter_epoch. by destruct (match MemoryJournal.epoch_ j with Some _ => _ | None => _ end).
Qed.
#[global] Instance log_epoch `{Postcard} : EpochLaws Log.t.
Proof.
  split.
  - intros j [s v f| |n|now|a f|e|s n] Hop; try done; simpl; unfold Log.epoch.
    + unfold Log.commit_vote. case_bool_decide; [done|]. by append_cases.
    + unfold Log.reserve_sequence. by append_cases.
    + unfold Log.acknowledge. destruct (_ !! n); [|done]. pose proof (retire_fst j n) as Hr.
      destruct (Log.retire j n) as [j' []]; simpl in *; rewrite ?compact_if_large_state; by rewrite Hr.
    + unfold Log.drop_expired. rewrite compact_if_large_state.
      by destruct (retire_all_state (Log.expired_at now (Log.state j)) j) as (m & -> & _).
    + unfold Log.witness. destruct (_ !! a); [done|]. by append_cases.
    + unfold Log.mark_seen. destruct (match _ !! s with Some _ => _ | None => _ end); [done|]. by append_cases.
  - intros j e. simpl. unfold Log.enter_epoch, Log.epoch. destruct (State.epoch (Log.state j)) as [held|] eqn:Hj.
    + destruct (Z.leb_spec e held); cbn [fst snd]; [rewrite Hj; intros _; f_equal; lia|]. append_cases; [|done]. intros _. cbn. f_equal. lia.
    + append_cases; [|done]. by intros _.
  - intros j e err. simpl. unfold Log.enter_epoch, Log.epoch. destruct (match State.epoch _ with Some _ => _ | None => _ end); [done|].
    by append_cases.
Qed.

Section epochs.
Context {J R : Type} `{Digest, Ed25519, Aead, Serde SignedCompactEnvelope.t, HJ : Journal J, Radio R, Host}.
Context `{!EpochLaws J}.

Definition past (e : Z) (j : J) : Prop := exists held, epoch j = Some held /\ e <= held.

Lemma past_op e j op : past e j -> past e (apply_op j op).
Proof.
  intros (held & Hh & Hle). destruct op as [s v f| |n|now|a f|x|s n];
    try (exists held; split; [|done]; match goal with |- epoch (apply_op j ?op) = _ => by rewrite (epoch_kept j op) end).
  cbn [apply_op]. destruct (enter_epoch j x).2 as [[]|err] eqn:Hx.
  - exists (Z.max held x). rewrite (epoch_entered j x Hx), Hh. split; [done|lia].
  - exists held. by rewrite (epoch_not_entered j x err Hx).
Qed.
Lemma past_act s e (n n' : Node.t J R) : act s n n' -> past e (Node.journal n) -> past e (Node.journal n').
Proof.
  intros Ha Hp. destruct Ha as [n' Hcore _| |key f frame _ _ _ _|sender q|frame a _| | | | | | | | | | | | | ]; try exact Hp.
  - by rewrite (f_equal k_journal Hcore : Node.journal n' = Node.journal n).
  - by apply (past_op e (Node.journal n) OpReserve).
  - by apply (past_op e (Node.journal n) (OpCommit _ _ _)).
  - by apply (past_op e (Node.journal n) (OpMarkSeen sender q)).
  - by apply (past_op e (Node.journal n) (OpWitness _ frame)).
Qed.
Lemma past_acts s e (n n' : Node.t J R) : acts s n n' -> past e (Node.journal n) -> past e (Node.journal n').
Proof. induction 1; eauto using past_act. Qed.

Lemma entered_past s (j j' : J) : enter s j = Some j' -> past (Fleet.mission_epoch (Setup.fleet s)) j'
  /\ forall e, past e j -> past e j' /\ e <= Fleet.mission_epoch (Setup.fleet s).
Proof.
  unfold enter. set (mine := Fleet.mission_epoch _). destruct (match epoch j with Some seen => mine <? seen | None => false end) eqn:Hseen; [done|].
  destruct (enter_epoch j mine) as [j1 [[]|]] eqn:Hx; [|done]. intros Heq. assert (j' = j1) as -> by congruence.
  pose proof (epoch_entered j mine) as Hen. rewrite Hx in Hen. specialize (Hen eq_refl). cbn [fst] in Hen. split.
  - eexists. split; [exact Hen|]. destruct (epoch j); lia.
  - intros e (held & Hh & Hle). rewrite Hh in Hseen, Hen. apply Z.ltb_ge in Hseen. split; [|lia]. eexists. split; [exact Hen|lia].
Qed.
(** Any life of a process, under any setup. *)
Definition lived (j j' : J) : Prop := exists s, life (R:=R) s j j'.
Lemma past_lived e j j' : rtc lived j j' -> past e j -> past e j'.
Proof.
  induction 1 as [|j1 j2 j3 (s & Hl) _ IH]; [done|]. intros Hp. apply IH. destruct Hl as [j r n Ha|j j' He].
  - by apply (past_acts s e (start s j r) n Ha).
  - by apply (entered_past s j j' He).
Qed.
End epochs.

(** C14: A journal is never run under an older epoch. Once a process has run on a
    journal, then after any number of further lives on it -- runs cut off anywhere,
    starts that got no further than entering an epoch, under whatever manifests -- a
    process that is given a manifest of an earlier epoch does not run, and one that does
    run leaves the journal under its own epoch or a later one.  Of two manifests of one
    epoch this says nothing. *)
Theorem an_epoch_is_never_gone_back_on {J R : Type}
    `{Digest, Ed25519, Aead, Serde SignedCompactEnvelope.t, Journal J, Radio R, Host} `{!EpochLaws J}
    (file file' : str -> option str) (mode mode' : str -> option Z) (o o' : Options.t) (u b t u' b' t' : Z)
    (opened : option J) (j : J) (r r' : R) (fuel turns fuel' turns' : nat) (s s' : Setup.t) (n n' : Node.t J R) (fin fin' : bool) :
  main file mode o u b t opened r fuel turns = Ran s n fin ->
  rtc (lived (R:=R)) (Node.journal n) j ->
  main file' mode' o' u' b' t' (Some j) r' fuel' turns' = Ran s' n' fin' ->
  Fleet.mission_epoch (Setup.fleet s) <= Fleet.mission_epoch (Setup.fleet s')
  /\ exists held, epoch (Node.journal n') = Some held /\ Fleet.mission_epoch (Setup.fleet s') <= held.
Proof.
  intros Hrun Hlives Hrun'. apply main_ran in Hrun as (_ & _ & _ & j0 & j1 & _ & _ & _ & He & _ & Ha).
  apply main_ran in Hrun' as (_ & _ & _ & j2 & j3 & _ & _ & Hj & He' & _ & Ha'). assert (j2 = j) as -> by congruence.
  pose proof (past_acts s _ _ _ Ha (proj1 (entered_past s j0 j1 He))) as Hp. apply (past_lived _ _ _ Hlives) in Hp.
  destruct (entered_past s' j j3 He') as [Hmine Hpast]. split; [by apply Hpast|].
  apply (past_acts s' _ _ _ Ha' Hmine).
Qed.
