(* ===== verification/NodeTiming.v ===== *)
(** A node in time: a late joiner finds the round's anchor, an honest sender's timing is
    never held against it, and every run in a round ends. *)
From S2P Require Import Prelude Time Contracts Quorum CaseState Replay Budget Journal MemoryJournal Queue Crypto.
From S2P Require Import Codec Radio Channel NodeConfig NodeSchedule NodeState NodeFrames NodeLoop NodeSteps.
From S2P Require Import NodeProofs NodeDemo.

(** * The anchor *)

Section timing.
Context {J R : Type} `{Digest, Ed25519, Aead, Serde SignedCompactEnvelope.t, Journal J, Radio R, Host}.
Context (s : Setup.t).
Local Notation options := (Setup.options s).

Lemma wall_run ms (n : Node.t J R) : wall ms n = (n, Ok (Clk.wall_ms (Node.clock n) ms)).
Proof. done. Qed.
Lemma clk_wall c ms : Clk.wall_ms c ms = ms / Z.max (Clk.scale c) 1.
Proof. done. Qed.

(** Two roundings against one: never more than a millisecond behind. *)
Lemma travel_rounds c x y : 0 <= x -> 0 <= y ->
  exists b, (b = 0 \/ b = 1) /\ Clk.wall_ms c x + Clk.wall_ms c y + b = Clk.wall_ms c (x + y).
Proof.
  intros Hx Hy. rewrite !clk_wall. pose proof (div_add_le x y (Z.max (Clk.scale c) 1) ltac:(lia)).
  pose proof (div_add_ge x y (Z.max (Clk.scale c) 1) ltac:(lia)).
  exists ((x + y) / Z.max (Clk.scale c) 1 - x / Z.max (Clk.scale c) 1 - y / Z.max (Clk.scale c) 1). lia.
Qed.
Lemma due_travel c a stage k : Options.slots options = true -> (stage < 3)%nat ->
  due_ms options (Clk.reading c 0) a stage k
  = Clk.wall_ms c (Options.start_of options stage * 1000 + Options.slot_ms options * a)
    + k * Clk.wall_ms c (Options.stage_window_s options * 1000).
Proof. intros Hsl Hst. rewrite (due_slot options (Clk.reading c 0) Hsl a stage k Hst). done. Qed.
Lemma start_nonneg stage : Options.slots options = true -> 0 <= Options.guard_ms options -> 0 <= Options.fleet options ->
  0 <= Options.start_of options stage.
Proof.
  intros Hsl Hg Hf. assert (0 <= Options.stage_window_s options).
  { pose proof (window_holds options Hsl). pose proof (slot_at_least options Hg). nia. }
  unfold Options.start_of, Options.starts, Options.lead_in. change BINDING_STAGE_OPENS_SECONDS with 362.
  destruct stage as [|[|[|[|]]]]; cbn [nth]; lia.
Qed.
End timing.

(** A member that missed the opening still joins the round. Whatever genuine in-round
    frame it hears first -- a vote, an opinion or a repair request, at whichever attempt
    -- if the sender sent it [lateness] after it was due on the fleet's anchor and it
    arrived when it ended, the joiner takes the sender's round and an anchor that is off
    by whole windows and by less than a millisecond more than the lateness: its own
    slots are the fleet's. *)
Theorem late_joiner_finds_the_anchor {J R : Type}
    `{Digest, Ed25519, Aead, Serde SignedCompactEnvelope.t, Journal J, Radio R, Host}
    (s : Setup.t) (n : Node.t J R) (frame : bytes) (a q k anchor lateness : Z) (stage : nat) (e : CompactEnvelope.t) :
  let o := Setup.options s in
  Options.slots o = true -> 0 <= Options.guard_ms o -> 0 <= a < Options.fleet o -> len frame <= MAX_FRAME_BYTES ->
  genuine s frame a q e -> late_stage (CompactEnvelope.stage e) = Some stage -> RoundId.is_set (CompactEnvelope.round e) = true ->
  instant (Node.reads n) = anchor + from_millis (due_ms o (Clk.reading (Node.clock n) 0) a stage k) + lateness
                           + from_millis (Clk.wall_ms (Node.clock n) (airtime_ms (len frame))) ->
  let window := from_millis (Clk.wall_ms (Node.clock n) (Options.stage_window_s o * 1000)) in
  exists n' late, late_anchor s frame n = (n', Ok (Some late))
    /\ LateAnchor.author late = a /\ LateAnchor.sequence late = q /\ LateAnchor.round late = CompactEnvelope.round e
    /\ anchor + k * window + lateness - from_millis 1 <= LateAnchor.origin late <= anchor + k * window + lateness.
Proof.
  intros o Hsl Hg Ha Hlen (received & key & Ho & He & Hsame & Hau & Hsq & Hk & Hv) Hst Hrd Hat window.
  unfold late_anchor. fold o. rewrite Hsl, Ho. cbv zeta. rewrite He, Hst, Hsame, Hau, Hsq, !Z.eqb_refl, Hrd. cbn [negb orb].
  rewrite (bind_ok _ _ _ _ _ (signed_by_genuine s received a key n Hk Hv)). cbn [negb orb].
  eexists. eexists. split; [reflexivity|]. cbn [LateAnchor.author LateAnchor.sequence LateAnchor.round LateAnchor.origin].
  split; [done|]. split; [done|]. split; [done|].
  change (Node.reads (Node.set_meter _ n)) with (Node.reads n). rewrite Hat.
  assert (stage < 3)%nat as Hs3.
  { unfold late_stage, stage_slot in Hst. repeat (case_match; try done); assert (stage = 2%nat \/ stage = 1%nat \/ stage = 0%nat) by naive_solver; lia. }
  unfold o. rewrite (due_travel s (Node.clock n) a stage k Hsl Hs3). fold o.
  change (Clk.wall_ms (Node.clock (Node.set_reads _ (Node.set_meter _ n))) ?x) with (Clk.wall_ms (Node.clock n) x).
  pose proof (start_nonneg s stage Hsl Hg ltac:(fold o; lia)) as Hstart. fold o in Hstart.
  pose proof (slot_at_least o Hg). pose proof (airtime_le (len frame) ltac:(unfold len in *; lia)).
  destruct (travel_rounds (Node.clock n) (Options.start_of o stage * 1000 + Options.slot_ms o * a) (airtime_ms (len frame)) ltac:(nia) ltac:(lia))
    as (b & Hb & Hsum). fold o. rewrite <- Hsum. unfold window, from_millis. split; nia.
Qed.

(** * The schedule's own defence *)

Lemma residue_small g slot d : 0 < g -> 1 <= slot <= g -> (exists k, 0 <= k /\ (d = k * g + -1 \/ exists f, d = k * g + f /\ 0 <= f <= slot)) ->
  slot <? Z.min (Z.abs d mod g) (g - Z.abs d mod g) = false.
Proof.
  intros Hg Hs (k & Hk & [->|(f & -> & Hf)]); apply Z.ltb_ge.
  - destruct (Z.eq_dec k 0) as [->|].
    + change (Z.abs (0 * g + -1)) with 1. destruct (Z.eq_dec g 1) as [->|]; [rewrite Z.mod_1_r; lia|]. rewrite Z.mod_small by lia. lia.
    + rewrite Z.abs_eq by nia. replace (k * g + -1) with ((g - 1) + (k - 1) * g) by lia. rewrite Z.mod_add by lia.
      rewrite Z.mod_small by lia. lia.
  - rewrite Z.abs_eq by nia. replace (k * g + f) with (f + k * g) by lia. rewrite Z.mod_add by lia.
    destruct (Z.eq_dec f g) as [->|]; [rewrite Z.mod_same by lia; lia|]. rewrite Z.mod_small by lia. lia.
Qed.

Section own_time.
Context {J R : Type} `{Digest, Ed25519, Aead, Serde SignedCompactEnvelope.t, Journal J, Radio R, Host}.
Context (s : Setup.t).
Local Notation options := (Setup.options s).

(** The milliseconds between an arrival and what the schedule made of it. *)
Lemma drift_rounds k g b lateness slot : 0 <= k -> 0 < g -> (b = 0 \/ b = 1) -> 0 <= lateness <= from_millis slot -> 1 <= slot ->
  exists d, as_millis (Z.abs (from_millis (k * g - b) + lateness)) = Z.abs d
    /\ exists k', 0 <= k' /\ (d = k' * g + -1 \/ exists f, d = k' * g + f /\ 0 <= f <= slot).
Proof.
  unfold as_millis, from_millis. intros Hk Hg Hb Hl Hs.
  destruct (Z.eq_dec b 1) as [->|]; [destruct (Z.lt_ge_cases lateness 1000000); [destruct (Z.eq_dec k 0) as [->|]|]|].
  - replace (Z.abs ((0 * g - 1) * 1000000 + lateness)) with (1000000 - lateness) by lia.
    destruct (Z.eq_dec lateness 0) as [->|].
    + exists (-1). split; [reflexivity|]. exists 0. split; [lia|]. by left.
    + exists 0. split; [rewrite Z.div_small by lia; done|]. exists 0. split; [lia|]. right. exists 0. lia.
  - exists (k * g - 1). rewrite Z.abs_eq by nia. replace ((k * g - 1) * 1000000 + lateness) with (lateness + (k * g - 1) * 1000000) by lia.
    rewrite Z.div_add by lia. rewrite Z.div_small by lia. split; [rewrite Z.abs_eq by nia; lia|]. exists k. split; [lia|]. left. lia.
  - exists (k * g + (lateness / 1000000 - 1)). assert (1 <= lateness / 1000000) by (apply Z.div_le_lower_bound; lia).
    assert (lateness / 1000000 <= slot) by (apply Z.div_le_upper_bound; lia).
    rewrite Z.abs_eq by nia. replace ((k * g - 1) * 1000000 + lateness) with (lateness + (k * g - 1) * 1000000) by lia.
    rewrite Z.div_add by lia. split; [rewrite Z.abs_eq by nia; lia|]. exists k. split; [lia|]. right. eexists. split; [reflexivity|]. lia.
  - assert (b = 0) as -> by lia. exists (k * g + lateness / 1000000). assert (0 <= lateness / 1000000) by (apply Z.div_pos; lia).
    assert (lateness / 1000000 <= slot) by (apply Z.div_le_upper_bound; lia).
    rewrite Z.abs_eq by nia. replace ((k * g - 0) * 1000000 + lateness) with (lateness + k * g * 1000000) by lia.
    rewrite Z.div_add by lia. split; [rewrite Z.abs_eq by nia; lia|]. exists k. split; [lia|]. right. eexists. split; [reflexivity|]. lia.
Qed.
End own_time.

(** C34: Timing is never held against a member that keeps the schedule. A frame of
    any stage sent on the fleet's anchor at any attempt -- the first or a repetition
    whole windows later -- and read up to a slot after it arrived, never makes its
    reader suspect another anchor: whatever the clock reads in between, the answer is
    no, so honest retransmission cannot split a fleet. (At any scale up to a thousand.) *)
Theorem honest_timing_never_disagrees {J R : Type}
    `{Digest, Ed25519, Aead, Serde SignedCompactEnvelope.t, Journal J, Radio R, Host}
    (s : Setup.t) (n : Node.t J R) (learned : AdmittedFrame.t) (a k anchor lateness length : Z) (stage : nat) :
  let o := Setup.options s in
  0 <= Options.guard_ms o -> 0 <= a < Options.fleet o -> 0 <= length <= MAX_FRAME_BYTES -> 0 <= k ->
  1 <= Clk.scale (Node.clock n) <= 1000 ->
  AdmittedFrame.stage_index learned = Some stage -> (stage < 3)%nat ->
  instant (S (S (Node.reads n))) = anchor + from_millis (due_ms o (Clk.reading (Node.clock n) 0) a stage k) + lateness
    + from_millis (Clk.wall_ms (Node.clock n) (airtime_ms length)) ->
  0 <= lateness <= from_millis (Clk.wall_ms (Node.clock n) (Options.slot_ms o)) ->
  (by_timing s anchor learned a length n).2 = Ok false.
Proof.
  intros o Hg Ha Hlen Hk Hsc Hst Hs3 Hat Hlate. unfold by_timing. fold o. destruct (Options.slots o) eqn:Hsl; cbn [negb]; [|done].
  assert (exists c, repair_round s anchor n = (Node.set_reads (S (Node.reads n)) n, Ok c)) as [c Hc] by (eexists; reflexivity).
  rewrite (bind_ok _ _ _ _ _ Hc). destruct c as [c|]; [done|].
  assert (exists st, repair_start s anchor (Node.set_reads (S (Node.reads n)) n) = (Node.set_reads (S (Node.reads n)) n, Ok st)) as [st Hstart] by (eexists; reflexivity).
  rewrite (bind_ok _ _ _ _ _ Hstart). set (n1 := Node.set_reads (S (Node.reads n)) n).
  assert (now n1 = (Node.set_reads (S (S (Node.reads n))) n1, Ok (instant (S (Node.reads n))))) as Hnow by reflexivity.
  rewrite (bind_ok _ _ _ _ _ Hnow). destruct (st <=? _); [done|]. rewrite Hst. set (n2 := Node.set_reads _ n1).
  rewrite (bind_ok _ _ _ _ _ (wall_run _ n2)).
  assert (now n2 = (Node.set_reads (S (S (S (Node.reads n)))) n2, Ok (instant (S (S (Node.reads n)))))) as Hnow2 by reflexivity.
  rewrite (bind_ok _ _ _ _ _ Hnow2). cbv zeta. set (n3 := Node.set_reads _ n2). rewrite !(bind_ok _ _ _ _ _ (wall_run _ n3)).
  change (Node.clock n3) with (Node.clock n). change (Node.clock n2) with (Node.clock n). unfold mret, m_ret. cbn [snd]. f_equal.
  rewrite Hat. unfold o. rewrite (due_travel s (Node.clock n) a stage k Hsl Hs3). fold o.
  pose proof (start_nonneg s stage Hsl Hg ltac:(fold o; lia)) as Hstart0. fold o in Hstart0.
  pose proof (slot_at_least o Hg) as Hslot. pose proof (airtime_le length Hlen). pose proof (window_holds o Hsl) as Hwin.
  destruct (travel_rounds (Node.clock n) (Options.start_of o stage * 1000 + Options.slot_ms o * a) (airtime_ms length) ltac:(nia) ltac:(lia))
    as (b & Hb & Hsum). rewrite <- Hsum.
  set (g := Clk.wall_ms (Node.clock n) (Options.stage_window_s o * 1000)) in *.
  set (slot := Clk.wall_ms (Node.clock n) (Options.slot_ms o)) in *.
  assert (1 <= slot <= g) as Hsg.
  { unfold slot, g. rewrite !clk_wall, Z.max_l by lia. split; [apply Z.div_le_lower_bound; lia|apply Z.div_le_mono; nia]. }
  destruct (drift_rounds k g b lateness slot Hk ltac:(lia) Hb Hlate ltac:(lia)) as (d & Hd & Hform).
  match goal with |- context [as_millis (Z.abs ?x)] => replace x with (from_millis (k * g - b) + lateness) by (unfold from_millis; lia) end.
  rewrite Hd. rewrite (Z.max_r 1 g) by lia. apply residue_small; [lia|lia|exact Hform].
Qed.

(** * Every run in a round ends *)

(** A radio that has a finite number of events to report: what a reader of a queue
    relies on.  [left] counts them. *)
Class FiniteRadio (R : Type) `{Radio R} (left : R -> nat) : Prop := {
  poll_some r e : (radio_poll r).2 = Some e -> (left (radio_poll r).1 < left r)%nat;
  poll_none r : (radio_poll r).2 = None -> (left (radio_poll r).1 <= left r)%nat;
  send_keeps r frame : (left (radio_transmit r frame).1 <= left r)%nat;
}.

Section ends.
Context {J R : Type} `{Digest, Ed25519, Aead, Serde SignedCompactEnvelope.t, Journal J, Radio R, Host}.
Context {left : R -> nat} `{!FiniteRadio R left}.
Context (s : Setup.t).
Local Notation state := (Node.t J R).
Local Notation options := (Setup.options s).

(** Time goes on, the round stays, and the radio's events only get fewer. *)
Definition onward (n n' : state) : Prop :=
  Node.began n' = Node.began n /\ Node.clock n' = Node.clock n /\ (Node.reads n <= Node.reads n')%nat
  /\ (left (Node.radio n') <= left (Node.radio n))%nat.
#[global] Instance onward_preorder : PreOrder onward.
Proof.
  split; [by intros n; split_and!|]. intros a b c (A1 & A2 & A3 & A4) (G1 & G2 & G3 & G4).
  split_and!; [congruence|congruence|lia|lia].
Qed.
(** A program that runs to its end, onward. *)
Definition steady {A} (m : M J R A) : Prop := forall n, exists n' a, m n = (n', Ok a) /\ onward n n'.

Lemma steady_ret {A} (a : A) : steady (mret a).
Proof. intros n. exists n, a. by split. Qed.
Lemma steady_bind {A B} (m : M J R A) (f : A -> M J R B) : steady m -> (forall a, steady (f a)) -> steady (m ≫= f).
Proof.
  intros Hm Hf n. destruct (Hm n) as (n1 & a & Ha & Ho1). destruct (Hf a n1) as (n2 & b & Hb & Ho2).
  exists n2, b. rewrite (bind_ok _ _ _ _ _ Ha). split; [done|by etrans].
Qed.
Lemma steady_get {A} (f : state -> A) : steady (get f).
Proof. intros n. by exists n, (f n). Qed.
Lemma steady_put (f : state -> state) : (forall n, onward n (f n)) -> steady (put f).
Proof. intros Hf n. exists (f n), tt. by split. Qed.
Lemma steady_when b (m : M J R unit) : steady m -> steady (when b m).
Proof. destruct b; [done|intros _; apply steady_ret]. Qed.
Lemma steady_each {A} (body : A -> M J R unit) (l : list A) : (forall x, steady (body x)) -> steady (each body l).
Proof. intros Hb. induction l as [|x l IH]; cbn [each]; [apply steady_ret|]. by apply steady_bind. Qed.
Lemma steady_journal {A} (f : J -> J * A) : steady (with_journal f).
Proof. intros n. unfold with_journal. destruct (f (Node.journal n)) as [j a]. do 2 eexists. split; [reflexivity|]. by split_and!. Qed.
Lemma steady_budget {A} (f : AirtimeBudget.t -> AirtimeBudget.t * A) : steady (with_budget f).
Proof. intros n. unfold with_budget. destruct (f (Node.budget n)) as [j a]. do 2 eexists. split; [reflexivity|]. by split_and!. Qed.
Lemma steady_forwards {A} (f : RadioQueue.t -> RadioQueue.t * A) : steady (with_forwards f).
Proof. intros n. unfold with_forwards. destruct (f (Node.forwards n)) as [j a]. do 2 eexists. split; [reflexivity|]. by split_and!. Qed.
Lemma steady_send frame : steady (with_radio (fun r => radio_transmit r frame)).
Proof.
  intros n. unfold with_radio. pose proof (send_keeps (Node.radio n) frame) as Hs. destruct (radio_transmit (Node.radio n) frame) as [r a].
  do 2 eexists. split; [reflexivity|]. by split_and!.
Qed.
Lemma steady_poll : steady (with_radio radio_poll).
Proof.
  intros n. unfold with_radio. pose proof (poll_some (Node.radio n)) as Hs. pose proof (poll_none (Node.radio n)) as Hn.
  destruct (radio_poll (Node.radio n)) as [r [e|]]; do 2 eexists; (split; [reflexivity|]); split_and!; try done.
  - specialize (Hs e eq_refl). cbn in *. lia.
  - by apply Hn.
Qed.
Lemma steady_now : steady now.
Proof. intros n. do 2 eexists. split; [reflexivity|]. split_and!; try done. cbn. lia. Qed.
Lemma steady_entropy b : steady (entropy_below b).
Proof. intros n. unfold entropy_below. destruct (b =? 0); do 2 eexists; (split; [reflexivity|]); by split_and!. Qed.
Lemma steady_quiet (f : state -> state) : (forall n, Node.began (f n) = Node.began n) -> (forall n, Node.clock (f n) = Node.clock n) ->
  (forall n, Node.reads (f n) = Node.reads n) -> (forall n, Node.radio (f n) = Node.radio n) -> steady (put f).
Proof. intros Hb Hc Hr Hl. apply steady_put. intros n. split_and!; [done|done|by rewrite Hr|by rewrite Hl]. Qed.
End ends.

Create HintDb steady.
#[export] Hint Resolve steady_ret steady_get steady_journal steady_budget steady_forwards steady_send steady_poll steady_now
  steady_entropy : steady.
#[export] Hint Extern 3 (steady (put _)) => apply steady_quiet; reflexivity : steady.
Ltac steady_walk := repeat match goal with
  | |- steady (mbind _ _) => apply steady_bind; [|intros ?]
  | |- steady (when _ _) => apply steady_when
  | |- steady (each _ _) => apply steady_each; intros ?
  | |- steady (if ?b then _ else _) => destruct b
  | |- steady (match ?x with _ => _ end) => destruct x
  | |- steady (let _ := _ in _) => cbv zeta
  | |- steady _ => solve [eauto with steady]
  end.

Section turns.
Context {J R : Type} `{Digest, Ed25519, Aead, Serde SignedCompactEnvelope.t, Journal J, Radio R, Host}.
Context {left : R -> nat} `{!FiniteRadio R left}.
Context (s : Setup.t).
Local Notation state := (Node.t J R).
Local Notation steady := (steady (J:=J) (R:=R) (left:=left)).

Lemma steady_report o l : steady (report o l).
Proof. unfold report, clock. steady_walk. Qed.
#[local] Hint Resolve steady_report : steady.
Lemma steady_transmit frame : steady (transmit s frame).
Proof. unfold transmit. steady_walk. Qed.
Lemma steady_receive fuel : steady (receive s fuel).
Proof. induction fuel as [|fuel IH]; cbn [receive]; unfold bump; steady_walk. Qed.
Lemma steady_admit frame : steady (admit_frame s frame).
Proof. unfold admit_frame, signed_by, checked, bump, clock. steady_walk. Qed.
Lemma steady_mark m q : steady (mark m q).
Proof. unfold mark, remember_seen, complain. steady_walk. Qed.
#[local] Hint Resolve steady_transmit steady_receive steady_admit steady_mark : steady.
Lemma steady_build stage heard round : steady (build s stage heard round).
Proof. unfold build. steady_walk. Qed.
Lemma steady_trigger_build round : steady (build_trigger s round).
Proof. unfold build_trigger. steady_walk. Qed.
Lemma steady_nack heard round : steady (build_nack s heard round).
Proof. unfold build_nack. steady_walk. Qed.
Lemma steady_trigger_round frame : steady (trigger_round s frame).
Proof. unfold trigger_round, signed_by, checked, bump. steady_walk. Qed.
Lemma steady_junk count i : steady (junk count i).
Proof. revert i; induction count as [|count IH]; intros i; cbn [junk]; steady_walk. Qed.
Lemma steady_repair_round anchor : steady (repair_round s anchor).
Proof. unfold repair_round, repair_start, window_wall, wall. steady_walk. Qed.
Lemma steady_queue_held learned from held : steady (queue_held s learned from held).
Proof. induction held as [|[author frame] held IH]; cbn [queue_held]; unfold offer_forward; steady_walk. Qed.
#[local] Hint Resolve steady_build steady_trigger_build steady_nack steady_trigger_round steady_junk steady_repair_round
  steady_queue_held : steady.
Lemma steady_note_split : steady (note_split s).
Proof. unfold note_split. steady_walk. Qed.
Lemma steady_answer anchor learned from : steady (answer_request s anchor learned from).
Proof. unfold answer_request, queue_own, offer_forward, repair_start, window_wall, own_slot, wall. steady_walk. Qed.
#[local] Hint Resolve steady_note_split steady_answer : steady.
Lemma steady_utterance anchor frame : steady (hear_utterance s anchor frame).
Proof.
  unfold hear_utterance, note_sender, by_timing, hold_early, note_acknowledged, hear_vote, disagree, repair_start, wall. steady_walk.
Qed.
Lemma steady_hear_opening frame other opener q : steady (hear_opening s frame other opener q).
Proof. unfold hear_opening, take_evidence, disagree. steady_walk. Qed.
#[local] Hint Resolve steady_utterance steady_hear_opening : steady.

Lemma steady_hear_vote from : steady (hear_vote from).
Proof. unfold hear_vote. steady_walk. Qed.
#[local] Hint Resolve steady_hear_vote : steady.
Lemma steady_equivocate : steady (equivocate s).
Proof. unfold equivocate. steady_walk. Qed.
Lemma steady_jam anchor : steady (jam s anchor).
Proof. unfold jam, wall. steady_walk. Qed.
Lemma steady_replay anchor : steady (replay_old s anchor).
Proof. unfold replay_old, wall. steady_walk. Qed.
Lemma steady_close : steady (close_consultation s).
Proof. unfold close_consultation, offer_held, witness_quietly, note_acknowledged, clock. steady_walk. Qed.
Lemma steady_send_stages anchor : steady (send_stages s anchor).
Proof. unfold send_stages, stage_step, send_stage, schedule_next, set_attempts, set_sent, wall. steady_walk. Qed.
Lemma steady_ask anchor : steady (ask s anchor).
Proof. unfold ask, repair_start, window_wall, own_slot, wall. steady_walk. Qed.
Lemma steady_carry : steady (carry s).
Proof. unfold carry. steady_walk. Qed.

Lemma steady_then {A B} (m : M J R A) (k : A -> M J R B) (n : state) : steady m ->
  exists n' a, onward (left:=left) n n' /\ (m ≫= k) n = k a n'.
Proof. intros Hm. destruct (Hm n) as (n' & a & Ha & Ho). exists n', a. split; [done|]. apply (bind_ok _ _ _ _ _ Ha). Qed.

Ltac onward_by lem O :=
  match goal with |- context [(?m ≫= ?k) ?n] =>
    let n' := fresh "n" in let E := fresh "E" in
    destruct (steady_then m k n ltac:(apply lem)) as (n' & [] & O & E); rewrite E; clear E end.

(** A turn in a round comes to its listening, onward. *)
Lemma turn_reaches_hearing fuel anchor (n : state) : Node.began n = Some anchor ->
  exists n', onward (left:=left) n n' /\ turn s fuel n = (hear s fuel anchor;; leave_when_done s anchor) n'.
Proof.
  intros Hb. unfold turn. assert (await_round s fuel n = (n, Ok anchor)) as Haw.
  { unfold await_round. rewrite bind_get, Hb. rewrite bool_decide_eq_false_2 by done. cbn [when]. unfold mbind at 1, m_bind at 1. cbn.
    change (World.mk _ _ _ _ _ _ _) with (Node.world n). unfold mbind, m_bind, get. by rewrite Hb. }
  rewrite (bind_ok _ _ _ _ _ Haw).
  onward_by steady_equivocate O1.
  onward_by steady_jam O2.
  onward_by steady_replay O3.
  onward_by steady_close O4.
  onward_by steady_send_stages O5.
  onward_by steady_ask O6.
  onward_by steady_carry O7.
  eexists. split; [|reflexivity]. do 6 (etrans; [eassumption|]). done.
Qed.

(** Listening either runs to its end, or ends the turn having taken an event. *)
Lemma receive_takes fuel (n : state) : exists n' o, receive s fuel n = (n', Ok o) /\ onward (left:=left) n n'
  /\ (o <> None -> (left (Node.radio n') < left (Node.radio n))%nat).
Proof.
  destruct (steady_receive fuel n) as (n' & o & Hr & Ho). exists n', o. split; [done|]. split; [done|].
  intros Hne. destruct fuel as [|fuel]; cbn [receive] in Hr.
  { unfold mret, m_ret in Hr. congruence. }
  destruct (radio_poll (Node.radio n)) as [r ev] eqn:Hp.
  assert (with_radio radio_poll n = (Node.set_radio r n, Ok ev)) as Hw by (unfold with_radio; by rewrite Hp).
  rewrite (bind_ok _ _ _ _ _ Hw) in Hr. destruct ev as [e|]; [|unfold mret, m_ret in Hr; congruence].
  pose proof (poll_some (Node.radio n) e) as Hless. rewrite Hp in Hless. specialize (Hless eq_refl). cbn [fst] in Hless.
  match type of Hr with ?m (Node.set_radio r n) = _ => assert (steady m) as Hm by (unfold bump; steady_walk; apply steady_receive) end.
  destruct (Hm (Node.set_radio r n)) as (n2 & o2 & Hr2 & (_ & _ & _ & Hl)). rewrite Hr in Hr2.
  assert (n2 = n') as -> by congruence. change (Node.radio (Node.set_radio r n)) with r in Hl. lia.
Qed.
Lemma hear_goes_on fuel anchor (n : state) : exists n' r, hear s fuel anchor n = (n', r) /\ onward (left:=left) n n'
  /\ (r = Ok tt \/ r = Err Continue /\ (left (Node.radio n') < left (Node.radio n))%nat).
Proof.
  unfold hear. destruct (receive_takes fuel n) as (n1 & o & Hr & Ho & Hless). rewrite (bind_ok _ _ _ _ _ Hr).
  destruct o as [frame|]; [|exists n1, (Ok tt); split; [done|]; split; [done|by left]]. specialize (Hless ltac:(done)).
  assert (forall (m : M J R unit), steady m -> exists n' r, (m;; stop Continue) n1 = (n', r) /\ onward (left:=left) n n'
    /\ (r = Ok tt \/ r = Err Continue /\ (left (Node.radio n') < left (Node.radio n))%nat)) as Hstop.
  { intros m Hm. destruct (Hm n1) as (n2 & [] & Hm2 & Ho2). exists n2, (Err Continue). rewrite (bind_ok _ _ _ _ _ Hm2). split; [done|].
    split; [by etrans|]. right. split; [done|]. destruct Ho2 as (_ & _ & _ & ?). lia. }
  rewrite bind_get. destruct (is_replay frame (Node.windows n1)).
  { destruct (Hstop (bump Meter.ReplaysDropped;; report (Setup.options s) LReplayDropped)) as (n' & r & Hrun & Hrest); [unfold bump; steady_walk|].
    exists n', r. rewrite <- Hrun, bind_assoc. by split. }
  assert (steady (from_outside_the_fleet s frame)) as Hout by (unfold from_outside_the_fleet, bump; steady_walk).
  destruct (Hout n1) as (n2 & b & Hb & Ho2). rewrite (bind_ok _ _ _ _ _ Hb).
  destruct b.
  { exists n2, (Err Continue). split; [done|]. split; [by etrans|]. right. split; [done|]. destruct Ho2 as (_ & _ & _ & ?). lia. }
  destruct (steady_trigger_round frame n2) as (n3 & op & Hop & Ho3). rewrite (bind_ok _ _ _ _ _ Hop).
  assert (onward (left:=left) n n3) as Hon3 by (etrans; [exact Ho|]; by etrans).
  destruct op as [[[other opener] q]|].
  - destruct (steady_hear_opening frame other opener q n3) as (n4 & [] & Hrun4 & Ho4). exists n4, (Err Continue).
    rewrite (bind_ok _ _ _ _ _ Hrun4). split; [done|]. split; [by etrans|]. right. split; [done|].
    destruct Ho2 as (_ & _ & _ & ?), Ho3 as (_ & _ & _ & ?), Ho4 as (_ & _ & _ & ?). lia.
  - destruct (steady_utterance anchor frame n3) as (n4 & [] & Hrun4 & Ho4). exists n4, (Ok tt). split; [done|]. split; [by etrans|by left].
Qed.
End turns.

Section termination.
Context {J R : Type} `{Digest, Ed25519, Aead, Serde SignedCompactEnvelope.t, Journal J, Radio R, Host}.
Context {left : R -> nat} `{!FiniteRadio R left}.
Context (s : Setup.t) (fuel : nat) (anchor : Z).
Local Notation state := (Node.t J R).

(** The horizon, on the wall clock. *)
Definition horizon (n : state) : Z :=
  anchor + from_millis (Clk.wall_ms (Node.clock n) (ENDORSEMENT_TARGET_SECONDS * 1000)).

Lemma leave_at_horizon (n : state) : horizon n <= instant (S (Node.reads n)) ->
  exists n', leave_when_done s anchor n = (n', Err Break).
Proof.
  intros Hh. unfold leave_when_done. do 2 rewrite (bind_ok _ _ _ _ _ (wall_run _ n)).
  assert (now n = (Node.set_reads (S (Node.reads n)) n, Ok (instant (Node.reads n)))) as Hn by reflexivity.
  rewrite (bind_ok _ _ _ _ _ Hn), bind_get. cbv zeta. set (n1 := Node.set_reads _ n).
  assert (now n1 = (Node.set_reads (S (S (Node.reads n))) n1, Ok (instant (S (Node.reads n))))) as Hn1 by reflexivity.
  rewrite (bind_ok _ _ _ _ _ Hn1). unfold horizon in Hh. destruct (Z.leb_spec (anchor + from_millis (Clk.wall_ms (Node.clock n) (ENDORSEMENT_TARGET_SECONDS * 1000))) (instant (S (Node.reads n)))); [|lia].
  cbn [orb]. by eexists.
Qed.
Lemma leave_goes_on (n : state) : exists n' r, leave_when_done s anchor n = (n', r) /\ onward (left:=left) n n'
  /\ (Node.reads n < Node.reads n')%nat /\ (r = Ok tt \/ r = Err Break).
Proof.
  unfold leave_when_done. do 2 rewrite (bind_ok _ _ _ _ _ (wall_run _ n)).
  assert (now n = (Node.set_reads (S (Node.reads n)) n, Ok (instant (Node.reads n)))) as Hn by reflexivity.
  rewrite (bind_ok _ _ _ _ _ Hn), bind_get. cbv zeta. set (n1 := Node.set_reads _ n).
  assert (now n1 = (Node.set_reads (S (S (Node.reads n))) n1, Ok (instant (S (Node.reads n))))) as Hn1 by reflexivity.
  rewrite (bind_ok _ _ _ _ _ Hn1).
  assert (onward (left:=left) n (Node.set_reads (S (S (Node.reads n))) n1)) as Ho by (split_and!; try done; cbn; lia).
  assert (Node.reads n < Node.reads (Node.set_reads (S (S (Node.reads n))) n1))%nat as Hlt by (cbn; lia).
  destruct (_ || _); do 2 eexists; (split; [reflexivity|]); (split; [exact Ho|]); (split; [exact Hlt|]); auto.
Qed.

(** A turn in a round either leaves it, or has read the clock, or has taken an event;
    and past the horizon it does not merely read the clock. *)
Lemma turn_progress (n : state) : Node.began n = Some anchor -> exists n' r, turn s fuel n = (n', r)
  /\ (r = Err Break
      \/ (onward (left:=left) n n'
          /\ (((left (Node.radio n') < left (Node.radio n))%nat /\ r = Err Continue)
              \/ ((Node.reads n < Node.reads n')%nat /\ r = Ok tt
                  /\ exists k, (Node.reads n <= k)%nat /\ instant k < horizon n)))).
Proof.
  intros Hb. destruct (turn_reaches_hearing (left:=left) s fuel anchor n Hb) as (n1 & O1 & ->).
  destruct (hear_goes_on (left:=left) s fuel anchor n1) as (n2 & r & Hh & O2 & [->|[-> Hless]]).
  - rewrite (bind_ok _ _ _ _ _ Hh). destruct (leave_goes_on n2) as (n3 & r & Hl & O3 & Hreads & [->| ->]); [|eauto].
    exists n3, (Ok tt). split; [done|]. right. split; [etrans; [exact O1|]; by etrans|]. right.
    destruct O1 as (_ & Hc1 & Hr1 & _), O2 as (_ & Hc2 & Hr2 & _). split; [lia|]. split; [done|].
    exists (S (Node.reads n2)). split; [lia|]. apply Z.lt_nge. intros Hpast.
    destruct (leave_at_horizon n2) as (n4 & Hbreak); [|congruence]. unfold horizon in *. by rewrite Hc2, Hc1.
  - exists n2, (Err Continue). unfold mbind, m_bind. rewrite Hh. split; [done|]. right. split; [by etrans|]. left.
    destruct O1 as (_ & _ & _ & ?). split; [lia|done].
Qed.

Lemma run_ends_in turns n : Node.began n = Some anchor ->
  forall late, (forall k, (late <= k)%nat -> horizon n <= instant k) -> (late - Node.reads n + left (Node.radio n) < turns)%nat ->
  (run_turns s fuel turns n).2 = true.
Proof.
  revert n; induction turns as [|turns IH]; intros n Hb late Hlate Hlt; [lia|]. cbn [run_turns].
  destruct (turn_progress n Hb) as (n' & r & -> & [->|((Hb' & Hc' & Hr' & Hl') & [[Hless ->]|(Hreads & -> & k & Hk & Hbefore)])]); [done| |].
  - apply (IH n' ltac:(congruence) late); [unfold horizon in *; by rewrite Hc'|lia].
  - apply (IH n' ltac:(congruence) late); [unfold horizon in *; by rewrite Hc'|].
    destruct (decide (late <= k)%nat) as [Hge|]; [specialize (Hlate k Hge); lia|]. lia.
Qed.

(** One event at a time. *)
Lemma receive_poll k (n : state) : receive s (S k) n =
  match radio_poll (Node.radio n) with
  | (r, None) => (Node.set_radio r n, Ok None)
  | (r, Some (EvReceived received)) => (Node.set_radio r n, Ok (Some (Received.payload received)))
  | (r, Some (EvCrcError rssi)) => (bump Meter.CrcErrors;; report (Setup.options s) (LCrcError rssi);; receive s k) (Node.set_radio r n)
  | (r, Some (EvHeaderError rssi)) => (bump Meter.HeaderErrors;; report (Setup.options s) (LHeaderError rssi);; receive s k) (Node.set_radio r n)
  | (r, Some (EvNote body)) => (when (contains CHIP_MISSED body) (bump Meter.ChipMissed);;
      report (Setup.options s) (LNote body);; receive s k) (Node.set_radio r n)
  end.
Proof. cbn [receive]. unfold mbind at 1, m_bind at 1, with_radio. by destruct (radio_poll (Node.radio n)) as [r [[]|]]. Qed.

(** And no event of the radio is left unread for want of fuel. *)
Lemma receive_fuel k (n : state) : (left (Node.radio n) < k)%nat -> receive s k n = receive s (S k) n.
Proof.
  revert n; induction k as [|k IH]; intros n Hk; [lia|]. rewrite (receive_poll k n), (receive_poll (S k) n).
  pose proof (poll_some (Node.radio n)) as Hp.
  destruct (radio_poll (Node.radio n)) as [r [e|]]; [|done]. specialize (Hp e eq_refl). cbn [fst] in Hp.
  assert (forall (m : M J R unit), steady (left:=left) m -> (m;; receive s k) (Node.set_radio r n) = (m;; receive s (S k)) (Node.set_radio r n)) as Hm.
  { intros m Hm. destruct (Hm (Node.set_radio r n)) as (n' & [] & Hrun & (_ & _ & _ & Hl)). rewrite !(bind_ok _ _ _ _ _ Hrun). apply IH.
    change (Node.radio (Node.set_radio r n)) with r in Hl. lia. }
  destruct e; [done|..]; rewrite <- !(bind_assoc (_ : M J R unit)); apply Hm; unfold bump; steady_walk; apply steady_report.
Qed.
End termination.

(** C13: A node that is in a round leaves it. Whatever it holds and whatever it hears, on a
    radio with finitely many events to report and a clock that reaches the horizon by
    its [late]-th reading, the loop ends within one turn per remaining reading and one
    per event: a frame may cut a turn short of looking at the clock, but only by being
    taken; and no event waits for want of fuel once there is more of it than events. *)
Theorem run_in_a_round_ends {J R : Type}
    `{Digest, Ed25519, Aead, Serde SignedCompactEnvelope.t, Journal J, Radio R, Host}
    {left : R -> nat} `{!FiniteRadio R left}
    (s : Setup.t) (fuel turns late : nat) (anchor : Z) (n : Node.t J R) :
  Node.began n = Some anchor ->
  (forall k, (late <= k)%nat -> horizon anchor n <= instant k) ->
  (late - Node.reads n + left (Node.radio n) < turns)%nat ->
  (run_turns s fuel turns n).2 = true
  /\ forall k (m : Node.t J R), (left (Node.radio m) < k)%nat -> receive s k m = receive s (S k) m.
Proof.
  intros Hb Hlate Hturns. split; [by apply (run_ends_in (left:=left) s fuel anchor turns n Hb late)|].
  intros k m Hk. by apply (receive_fuel (left:=left)).
Qed.
