(* ===== verification/NodeWitness.v ===== *)
(** The node's theorems at work: each one applied to the small fleet of [NodeDemo], its
    hypotheses computed. *)
From S2P Require Import Prelude Time Contracts Quorum CaseState Replay Budget Journal MemoryJournal Queue Crypto.
From S2P Require Import Codec WireDemo Manifest ManifestSign Radio Channel NodeConfig NodeSchedule NodeState NodeFrames.
From S2P Require Import NodeLoop NodeSteps NodeProofs NodeMain NodeDemo NodeAir NodeVotes NodeEpoch NodeTiming.

#[local] Existing Instances toy_digest toy_ed25519 clear_aead wide_serde memory_journal leaping_host wide_serde_laws toy_ed25519_laws clear_aead_laws.

Definition first_round : RoundId.t := RoundId.new 0 0.
Definition second_vote : bytes := vote_of 3 1 first_round.
(** What is in a frame. *)
Definition inside (s : Setup.t) (frame : bytes) : CompactEnvelope.t :=
  match opened s frame with
  | Some (_, _, received) => SignedCompactEnvelope.envelope received
  | None => CompactEnvelope.mk 0 0 0 [] 0 0 0 0 0 [] RoundId.none
  end.
(** Being genuine, decided. *)
Definition is_genuine (s : Setup.t) (frame : bytes) (a q : Z) : bool :=
  match opened s frame with
  | None => false
  | Some (author, sequence, received) =>
      let e := SignedCompactEnvelope.envelope received in
      (author =? a) && (sequence =? q) && same_subject s e && (CompactEnvelope.author_index e =? a)
      && (CompactEnvelope.sequence e =? q)
      && match Setup.keyring s !! Z.to_nat a with
         | None => false
         | Some key => is_ok (SignedCompactEnvelope.verify received key (Subject.content_hash (Setup.subject s)))
         end
  end.
Lemma genuine_here s frame a q : is_genuine s frame a q = true -> genuine s frame a q (inside s frame).
Proof.
  unfold is_genuine, genuine, inside. destruct (opened s frame) as [[[author sequence] received]|]; [|done]. cbv zeta.
  rewrite !andb_true_iff, !Z.eqb_eq. intros [[[[[-> ->] Hsame] Ha] Hq] Hk].
  destruct (Setup.keyring s !! Z.to_nat a) as [key|] eqn:Hkey; [|done]. exists received, key. split_and!; try done.
  by destruct (SignedCompactEnvelope.verify _ _ _) as [[]|].
Qed.
Lemma demo_setup_ok : setup_ok (demo_setup 3 0).
Proof. split; vm_compute; [reflexivity..|split; congruence|congruence]. Qed.

Lemma endorsement_needs_signed_votes_witness :
  let s := demo_setup 3 0 in let n := (run_turns s 8 100 (start s MemoryJournal.default_ (demo_tape 18))).1 in
  endorsed s (Node.case n) = true
  /\ exists X : gset str, min_signers (Setup.policy s) <= Z.of_nat (size X)
       /\ forall name, name ∈ X -> exists author frame, name = Setup.member_id s author /\ signed_support s frame author.
Proof.
  intros s n. pose proof (endorsement_needs_signed_votes s 8 100 MemoryJournal.default_ (demo_tape 18)) as Hall.
  cbv zeta in Hall. fold n in Hall. destruct Hall as (_ & _ & Hx).
  assert (endorsed s (Node.case n) = true) as He by (vm_compute; reflexivity). split; [exact He|].
  destruct (Hx He) as (X & _ & Hm & _ & Hs). exists X. by split.
Defined.

Lemma a_frame_is_read_once_witness :
  let s := demo_setup 3 0 in
  let n := demo_start 3 0 MemoryJournal.default_ [delivery second_vote; None; None; delivery second_vote] in
  let later := (run_turns s 2 2 (hear s 2 0 n).1).1 in
  delivers later second_vote
  /\ let '(after, outcome) := hear s 2 0 later in
     outcome = Err Continue
     /\ exists second, after
        = Node.set_log (Node.log later ++ [(Some second, LReplayDropped)])
            (Node.set_reads (S (Node.reads later))
              (Node.set_meter (Meter.bump (Node.meter later) Meter.ReplaysDropped)
                (Node.set_radio (radio_poll (Node.radio later)).1 later))).
Proof.
  intros s n later. pose proof (a_frame_is_read_once s 1 2 0 0 second_vote second_vote 1 0 (inside s second_vote) n) as Hall.
  cbv zeta in Hall. fold later in Hall.
  assert (delivers later second_vote) as Hd by (eexists; split; vm_compute; reflexivity). split; [exact Hd|].
  apply Hall; [| | | | |exact Hd].
  - apply genuine_here. vm_compute. reflexivity.
  - vm_compute. reflexivity.
  - apply windows_sound_start.
  - eexists; split; vm_compute; reflexivity.
  - vm_compute. reflexivity.
Defined.

Lemma node_holds_no_more_than_its_fleet_witness :
  let s := demo_setup 3 0 in let n := (run_turns s 8 100 (start s MemoryJournal.default_ (demo_tape 18))).1 in
  let fleet := Options.fleet (Setup.options s) in
  len (Node.evidence n) <= 4 /\ Z.of_nat (size (Node.early n)) <= fleet /\ len (Case.binding (Node.case n)) <= fleet
  /\ size (Node.foreign n) = 1%nat /\ len (Case.binding (Node.case n)) = 3.
Proof.
  intros s n fleet. pose proof (node_holds_no_more_than_its_fleet s 8 100 MemoryJournal.default_ (demo_tape 18) demo_setup_ok wide_serde_author) as Hall.
  cbv zeta in Hall. fold n fleet in Hall. destruct Hall as (He & _ & Hy & _ & _ & _ & _ & _ & Hb).
  split; [exact He|]. split; [exact Hy|]. split; [exact Hb|]. split; vm_compute; reflexivity.
Defined.

(** ** A vote, over two lives of the process *)

Lemma built_here {J R} (x : Node.t J R * result Stop (result BuildError bytes)) :
  match x.2 with Ok (Ok _) => true | _ => false end = true -> x = (x.1, Ok (Ok (built x))).
Proof. by destruct x as [n [[]|]]. Qed.
Definition fresh_node : Node.t MemoryJournal.t Tape.t := demo_start 3 0 MemoryJournal.default_ [].
Lemma vote_is_cast_once_witness :
  let s := demo_setup 3 0 in
  let n1 := (build s BindingSupport Heard.none first_round fresh_node).1 in
  let frame := built (build s BindingSupport Heard.none first_round fresh_node) in
  let n2 := (run_turns s 8 20 (start s (Node.journal n1) (Tape.mk [delivery second_vote] []))).1 in
  len frame = 140 /\ build s BindingSupport everyone first_round n2 = (n2, Ok (Ok frame)).
Proof.
  intros s n1 frame n2. split; [vm_compute; reflexivity|].
  pose proof (vote_is_cast_once (R:=Tape.t) s Heard.none everyone first_round first_round fresh_node n1 n2 frame) as Hall.
  apply Hall; [discriminate|vm_compute; reflexivity|vm_compute; reflexivity| |].
  - apply built_here. vm_compute. reflexivity.
  - apply rtc_once, (life_run (R:=Tape.t) s (Node.journal n1) (Tape.mk [delivery second_vote] []) n2), run_turns_acts.
Defined.

Lemma demo_fellows i : 0 <= i < 3 -> fellows (demo_setup 3 0) (demo_setup 3 i).
Proof. intros Hi. split; [..|vm_compute; split; congruence]; reflexivity. Qed.
Lemma built_frame_is_heard_witness :
  let s := demo_setup 3 0 in let s' := demo_setup 3 1 in
  let frame := built (build s BindingSupport Heard.none first_round fresh_node) in
  let m := (run_turns s' 2 30 (demo_start 3 1 MemoryJournal.default_ [])).1 in
  exists q e m' learned, genuine s' frame (Setup.index s) q e /\ admit_frame s' frame m = (m', Ok learned)
    /\ AdmittedFrame.round learned = first_round /\ AdmittedFrame.binding_from learned = Some (Setup.index s).
Proof.
  intros s s' frame m.
  pose proof (built_frame_is_heard (J:=MemoryJournal.t) (R:=Tape.t) s s' BindingSupport Heard.none first_round fresh_node
    (build s BindingSupport Heard.none first_round fresh_node).1 m frame) as Hall.
  destruct Hall as (q & e & m' & learned & _ & _ & Hg & Hadm & _ & Hr & _ & _ & Hcase).
  - by apply demo_fellows.
  - reflexivity.
  - reflexivity.
  - intros q Hq. vm_compute in Hq. assert (q = 0) as -> by congruence. width. lia.
  - vm_compute. reflexivity.
  - apply built_here. vm_compute. reflexivity.
  - exists q, e, m', learned. split; [exact Hg|]. split; [exact Hadm|]. split; [exact Hr|].
    rewrite bool_decide_eq_true_2 in Hcase by done.
    match type of Hcase with match ?x with _ => _ end => assert (is_ok x = true) as Hok by (vm_compute; reflexivity); revert Hcase Hok; generalize x end.
    intros [case|err] Hcase Hok; [exact (proj2 Hcase)|discriminate].
Defined.

(** ** A round *)

Lemma opening_names_its_round_witness :
  let s := demo_setup 3 0 in let s' := demo_setup 3 2 in
  let frame := built (build_trigger s first_round fresh_node) in
  len frame = 140 /\ (trigger_round s' frame fresh_node).2 = Ok (Some (RoundId.new (Setup.index s) 0, Setup.index s, 0)).
Proof.
  intros s s' frame. split; [vm_compute; reflexivity|].
  destruct (opening_names_its_round (J:=MemoryJournal.t) (R:=Tape.t) s s' fresh_node (build_trigger s first_round fresh_node).1 fresh_node 0 frame)
    as [Hopen _].
  - by apply demo_fellows.
  - vm_compute. reflexivity.
  - width. lia.
  - apply (built_here (build_trigger s (RoundId.new (author_of (Setup.index s)) 0) fresh_node)). vm_compute. reflexivity.
  - exact Hopen.
Defined.

(** A vote, heard by a node that has heard a later frame of its author before it was
    restarted. *)
Definition remembering : MemoryJournal.t := (MemoryJournal.mark_seen MemoryJournal.default_ 1 5).1.
Lemma restart_forfeits_a_resent_vote_witness :
  let s := demo_setup 3 0 in
  let n := (run_turns s 2 3 (start s remembering (Tape.mk [None; None; None; delivery second_vote] []))).1 in
  ReplayWindow.seen (ReplayWindow.mark ReplayWindow.new 5) 0 = false
  /\ is_replay second_vote (Node.windows n) = true
  /\ let '(n', outcome) := hear s 2 0 n in outcome = Err Continue /\ Node.case n' = Node.case n /\ Node.early n' = Node.early n.
Proof.
  intros s n. pose proof (restart_forfeits_a_resent_vote s 1 3 0 remembering (Tape.mk [None; None; None; delivery second_vote] []) second_vote 1 0 5) as Hall.
  cbv zeta in Hall. fold n in Hall. destruct Hall as (H1' & H2' & H3').
  - vm_compute. split; congruence.
  - vm_compute. congruence.
  - vm_compute. reflexivity.
  - vm_compute. reflexivity.
  - lia.
  - split; [apply H1'; unfold REPLAY_WINDOW; lia|]. split; [exact H2'|]. apply H3'. eexists; split; vm_compute; reflexivity.
Defined.

(** ** Timing *)

(** The second member's vote, ending exactly when its slot lets it. *)
Definition due_then (k : Z) : Z :=
  let o := Setup.options (demo_setup 3 2) in
  from_millis (due_ms o (Clk.reading (Node.clock fresh_node) 0) 1 2 k)
  + from_millis (Clk.wall_ms (Node.clock fresh_node) (airtime_ms (len second_vote))).
Lemma late_joiner_finds_the_anchor_witness :
  let s := demo_setup 3 2 in let n := demo_start 3 2 MemoryJournal.default_ [] in
  let anchor := instant (Node.reads n) - due_then 1 in
  let window := from_millis (Clk.wall_ms (Node.clock n) (Options.stage_window_s (Setup.options s) * 1000)) in
  exists n' late, late_anchor s second_vote n = (n', Ok (Some late)) /\ LateAnchor.author late = 1
    /\ anchor + 1 * window + 0 - from_millis 1 <= LateAnchor.origin late <= anchor + 1 * window + 0.
Proof.
  intros s n anchor window.
  destruct (late_joiner_finds_the_anchor s n second_vote 1 0 1 anchor 0 2 (inside s second_vote)) as (n' & late & Hl & Ha & _ & _ & Ho).
  - vm_compute. reflexivity.
  - vm_compute. congruence.
  - vm_compute. split; congruence.
  - vm_compute. congruence.
  - apply genuine_here. vm_compute. reflexivity.
  - vm_compute. reflexivity.
  - vm_compute. reflexivity.
  - vm_compute. reflexivity.
  - exists n', late. split; [exact Hl|]. split; [exact Ha|exact Ho].
Defined.

Lemma honest_timing_never_disagrees_witness :
  let s := demo_setup 3 2 in let n := demo_start 3 2 MemoryJournal.default_ [] in
  let learned := match (admit_frame s second_vote n).2 with Ok learned => learned | Err _ => AdmittedFrame.default end in
  let anchor := instant (S (S (Node.reads n))) - due_then 3 - from_millis 2 in
  (by_timing s anchor learned 1 (len second_vote) n).2 = Ok false.
Proof.
  intros s n learned anchor.
  apply (honest_timing_never_disagrees s n learned 1 3 anchor (from_millis 2) (len second_vote) 2).
  - vm_compute. congruence.
  - vm_compute. split; congruence.
  - vm_compute. split; congruence.
  - lia.
  - vm_compute. split; congruence.
  - vm_compute. reflexivity.
  - lia.
  - vm_compute. reflexivity.
  - vm_compute. split; congruence.
Defined.

#[local] Instance finite_tape : FiniteRadio Tape.t (fun r => length (Tape.events r)).
Proof.
  split; intros r; simpl; unfold Tape.poll; destruct (Tape.events r) as [|e es] eqn:He; simpl; rewrite ?He; simpl; try done; intros; lia.
Qed.
Lemma leaping_reaches k : (2120 <= k)%nat -> 6000 * 1000000 <= instant k.
Proof.
  intros Hk. cbn [instant leaping_host]. unfold leaping_ms, from_millis.
  repeat match goal with |- context [?a <? ?b] => destruct (Z.ltb_spec a b); [lia|] end. lia.
Qed.
Lemma run_in_a_round_ends_witness :
  let s := demo_setup 3 0 in
  let n := Node.set_began (Some 0) (demo_start 3 0 MemoryJournal.default_ [delivery second_vote; None; delivery second_vote]) in
  (run_turns s 8 3000 n).2 = true.
Proof.
  intros s n. refine (proj1 (run_in_a_round_ends s 8 3000 2120 0 n _ _ _)).
  - vm_compute. reflexivity.
  - intros k Hk. etrans; [|exact (leaping_reaches k Hk)]. vm_compute. congruence.
  - change (2120 - 0 + 3 < 3000)%nat. lia.
Defined.

(** ** The air *)

#[local] Instance tape_transmits : Transmitter Tape.t Tape.aired.
Proof. split; [done|done|]. intros r. simpl. unfold Tape.poll. by destruct (Tape.events r). Qed.
Lemma leaping_steady k k' : (k <= k')%nat -> instant k <= instant k'.
Proof.
  intros Hk. cbn [instant leaping_host]. unfold leaping_ms, from_millis.
  repeat match goal with |- context [?a <? ?b] => destruct (Z.ltb_spec a b) end; lia.
Qed.
Lemma node_obeys_duty_cycle_witness :
  let s := demo_setup 3 0 in let n := (run_turns s 8 100 (start s MemoryJournal.default_ (demo_tape 18))).1 in
  length (Tape.aired (Node.radio n)) = 4%nat
  /\ exists sent ledger, Tape.aired (Node.radio n) = [] ++ sent
       /\ ((fun frame => airtime_ms (len frame)) <$> sent) `sublist_of` ledger.*2
       /\ forall t, spent_in t ledger <= DUTY_CYCLE_BUDGET_MS.
Proof.
  intros s n. split; [vm_compute; reflexivity|].
  pose proof (node_obeys_duty_cycle (aired:=Tape.aired) s 8 100 MemoryJournal.default_ (demo_tape 18) leaping_steady) as Hall.
  cbv zeta in Hall. fold n in Hall. destruct Hall as (sent & ledger & Ha & Hsub & _ & Hspent).
  - vm_compute. congruence.
  - vm_compute. split; congruence.
  - exists sent, ledger. split; [exact Ha|]. split; [exact Hsub|exact Hspent].
Defined.

(** ** Two vessels under one manifest *)

Definition vessel_at (index : Z) : Options.t := {|
  Options.index := index; Options.fleet := 2; Options.hub := []; Options.journal := []; Options.manifest := Some (lit "fleet");
  Options.admin_key := Some (lit "card"); Options.signing_key := Some (lit "seed"); Options.scale := 100; Options.offset := 0;
  Options.clock_epoch := 1000000; Options.slots := true; Options.guard_ms := 200; Options.trigger := true;
  Options.trigger_delay_ms := 5; Options.attempts := 1; Options.ignore_acks := false;
  Options.adversary := Honest; Options.prior_airtime_ms := 0 |}.
Definition files_at (index : Z) (path : str) : option str :=
  if bool_decide (path = lit "seed") then Some (hex (replicate 32 (index + 2)) ++ [10]) else demo_files path.
Definition vessel_setup (index : Z) : Setup.t :=
  match assemble (files_at index) demo_modes (vessel_at index) 15 with
  | Some (o, f, p) => default (demo_setup 3 0) (settle o f p 0 0)
  | None => demo_setup 3 0
  end.
Definition alpha_vote : bytes :=
  built (build (vessel_setup 0) BindingSupport Heard.none (RoundId.new 1 0) (start (vessel_setup 0) MemoryJournal.default_ (Tape.mk [] []))).
Definition vessel_tape : Tape.t := Tape.mk (replicate 18 None ++ [delivery alpha_vote]) [].
Definition vessel_exit : Exit MemoryJournal.t Tape.t :=
  main (files_at 1) demo_modes (vessel_at 1) 15 0 0 (Some MemoryJournal.default_) vessel_tape 8 120.
Lemma vessel_endorses : match vessel_exit with Ran s n _ => endorsed s (Node.case n) | _ => false end = true.
Proof. vm_compute. reflexivity. Qed.
Lemma endorsement_traces_to_the_card_witness :
  exists s n fin, vessel_exit = Ran s n fin /\ endorsed s (Node.case n) = true
  /\ exists m policy (X : gset str), @Manifest.parse toy_ed25519 demo_out = Ok m /\ Mf.policy m = Ok policy
       /\ min_signers policy <= Z.of_nat (size X)
       /\ forall name, name ∈ X -> exists i member, Mf.members m !! Z.to_nat i = Some member /\ Member.id member = name /\ vouched m (Options.clock_epoch (vessel_at 1)) i member.
Proof.
  pose proof vessel_endorses as He. destruct vessel_exit as [| |s n fin] eqn:Hmain; [discriminate He..|].
  exists s, n, fin. split; [reflexivity|]. split; [exact He|]. unfold vessel_exit in Hmain.
  destruct (endorsement_traces_to_the_card (files_at 1) demo_modes (vessel_at 1) 15 0 0 (Some MemoryJournal.default_) vessel_tape 8 120 s n fin (lit "fleet") eq_refl Hmain He)
    as (card & typed & ab & admin & text & m & policy & X & _ & _ & _ & _ & Ht & Hm & _ & Hpol & Hmin & _ & HX).
  exists m, policy, X. assert (text = demo_out) as <- by (change (files_at 1 (lit "fleet")) with (Some demo_out) in Ht; congruence).
  split; [exact Hm|]. split; [exact Hpol|]. split; [exact Hmin|exact HX].
Defined.

(** The next life of that journal, under the same manifest. *)
Definition next_exit (j : MemoryJournal.t) : Exit MemoryJournal.t Tape.t :=
  main (files_at 1) demo_modes (vessel_at 1) 16 0 0 (Some j) (Tape.mk [] []) 8 10.
Lemma vessel_runs_again :
  match vessel_exit with Ran _ n _ => match next_exit (Node.journal n) with Ran s _ _ => Fleet.mission_epoch (Setup.fleet s) =? 7 | _ => false end
  | _ => false end = true.
Proof. vm_compute. reflexivity. Qed.
Lemma an_epoch_is_never_gone_back_on_witness :
  exists s n fin s' n' fin', vessel_exit = Ran s n fin /\ next_exit (Node.journal n) = Ran s' n' fin'
  /\ Fleet.mission_epoch (Setup.fleet s) <= Fleet.mission_epoch (Setup.fleet s')
  /\ exists held, epoch (Node.journal n') = Some held /\ 7 <= held.
Proof.
  pose proof vessel_runs_again as Hagain. destruct vessel_exit as [| |s n fin] eqn:Hmain; [discriminate Hagain..|].
  destruct (next_exit (Node.journal n)) as [| |s' n' fin'] eqn:Hnext; [discriminate Hagain..|]. apply Z.eqb_eq in Hagain.
  exists s, n, fin, s', n', fin'. split; [reflexivity|]. split; [exact Hnext|]. unfold vessel_exit in Hmain. unfold next_exit in Hnext.
  destruct (an_epoch_is_never_gone_back_on (files_at 1) (files_at 1) demo_modes demo_modes (vessel_at 1) (vessel_at 1) 15 0 0 16 0 0
    (Some MemoryJournal.default_) (Node.journal n) vessel_tape (Tape.mk [] []) 8 120 8 10 s s' n n' fin fin' Hmain (rtc_refl _ _) Hnext)
    as (Hle & held & Hh & Hheld).
  split; [exact Hle|]. exists held. split; [exact Hh|]. rewrite <- Hagain. exact Hheld.
Defined.
